(* ===== verification/_CoqProject ===== *)
-Q . S2P
Prelude.v
Text.v
TextProofs.v
Permissions.v
Float64.v
Json.v
Paths.v
TeamTypes.v
Scheduler.v
SchedulerGraph.v
SchedulerSort.v
SchedulerRun.v
TeamPolicy.v
TeamExecutor.v
TeamDag.v
ToolHealth.v
ToolExec.v
ToolExecProofs.v
Resilience.v
Sse.v
Messages.v
Stream.v
Compact.v
Query.v
QueryProofs.v
Rpc.v
Mcp.v
Catalog.v
FileCache.v
FileRead.v
FileEdit.v
Notebook.v
Spec.v
SpecProofs.v
Tasks.v
Router.v
Tokens.v
RuleGate.v
SharedSession.v
Security.v
SessionStore.v
Request.v
Engine.v
EngineProofs.v
MemoryStore.v
MemoryProofs.v
Transcript.v
Cron.v
ApiClient.v
OpenAi.v
OpenAiProofs.v
SharedState.v
FileStore.v
Templates.v
UserProfile.v
UserProfileProofs.v
IpcRouter.v
Evolution.v
EvolutionProofs.v
Intent.v
Warmup.v
Projects.v
