(* ===== verification/Prelude.v ===== *)
(** * BaoClaw core: a verification library for the Rust daemon

    BaoClaw is a personal coding agent.  Its core, the daemon under
    [src/baoclaw-core/src], keeps conversations with a language model, runs the
    tools the model asks for under the permissions the user grants, and lets
    several sub-agents work as a team.  This library models the parts of the
    daemon that decide something, as executable definitions translated from
    the source, and proves what makes them correct.  Paths below are relative
    to [src/baoclaw-core/src].

    ** The parts and how they interact

    - The conversation.  [Messages] is [models/message.rs] with the pairing of
      tool uses and results ([engine/tool_loop.rs], [tool_repair.rs],
      [abort_helpers.rs]); [Stream] the reassembly of an answer
      ([engine/stream_ingest.rs], [cost_tracker.rs]); [Compact] the compactions
      of a history ([engine/compact]); [Tokens] the calibrated counter and its
      thresholds ([engine/token_counter.rs]).  [Query] is one iteration of
      [engine/query_loop.rs] with its failure handling ([failover.rs]), over
      those four and the executor; [QueryProofs] holds its theorems.
      [Engine] is the object around the loop ([engine/query_engine.rs]): the
      clean-up of a history, submitting a prompt, the hand-over to the loop and
      back; [EngineProofs] composes it with the loop.
      [Request] builds what is sent ([engine/api_builder.rs]): messages, the
      tool list with its cache breakpoint, system prompt and reminder.
    - Model providers.  [ApiClient] is [api/client.rs]: the reader of the event
      stream, from chunks of bytes to the events [Stream] takes.  [OpenAi] is
      [api/openai_client.rs] and [api/unified.rs]: the conversion of a request
      and the translation of the answer's chunks; [OpenAiProofs] holds its
      theorems.
    - Permissions.  [Permissions.Manager] is [permissions/manager.rs]: the rule
      lists, [glob_matches] (the table the code fills, row by row),
      [check_permission] and the operations that edit rules.
      [Permissions.Gate] is [permissions/gate.rs]: the prompts waiting for an
      answer, each a one-shot channel with two ends, as a step relation.
      [RuleGate] is the second gate ([engine/permission_gate]): rules, cached
      decisions, the prompt.  [Security] is [engine/security.rs] without its
      redaction.
    - Paths.  [Paths] is [tools/builtins/path_utils.rs]: normalization,
      boundaries, symlinks.  The file system is the class [FileSystem].
    - Running tools.  [ToolExec] is [tools/executor.rs] with the trait of
      [tools/trait_def.rs]; it calls the manager, the gate's decisions and the
      path functions; [ToolExecProofs] holds its theorems.  [ToolHealth] is
      [engine/tool_health.rs], whose verdict the executor asks for before each
      dispatch.  [FileCache] is [infra/file_cache.rs] and [FileRead] the read
      tool with the warming of the cache ([file_read_tool.rs], [warmup.rs]);
      [FileEdit] is the edit and write tools with their backups
      ([file_edit_tool.rs], [file_write_tool.rs], [backup.rs]); [Notebook] the
      notebook tool and the to-do list ([notebook_edit_tool.rs],
      [todo_write_tool.rs]).  [Spec] is [engine/spec_engine.rs], the task lists
      of feature specifications; [SpecProofs] holds its theorems.
    - Tools of other processes.  [Rpc] is [ipc/protocol.rs]; [Mcp] the
      multiplexed client ([mcp/client.rs], [demux.rs], [types.rs]) as a step
      relation; [Catalog] the published tools ([mcp/manager.rs], [bridge.rs],
      [tools/registry.rs]); [Sse] is [mcp/sse.rs] and the loop of its callers
      in [mcp/http.rs].
    - Teams.  [TeamTypes] is [engine/team/types.rs], [TeamPolicy] is
      [engine/team/policy.rs], [Scheduler] is [engine/team/scheduler.rs] and
      [TeamExecutor] is [engine/team/executor.rs], which drives the scheduler
      and stores teams.  The theorems about the scheduler are in
      [SchedulerGraph] (cycle detection, [build]), [SchedulerSort] (Kahn's
      algorithm, waves) and [SchedulerRun] (ready nodes, failure propagation,
      critical path); those about graph mode and the team store in [TeamDag].
      [SharedState] is [engine/team/shared_state.rs], the store agents share,
      with the order in which each operation takes its locks.
    - Sessions.  [SharedSession] is one session with several clients
      ([engine/shared_session.rs], [shared_client/session.rs], the broadcast
      task of [main.rs]); [SessionStore] the registry of sessions and their
      files ([engine/session_persistence.rs], [session_memory.rs]);
      [Transcript] the log of a session and its replay
      ([engine/transcript.rs]).  [IpcRouter] is [ipc/router.rs]: every method a
      client can call and the reader of requests.
    - What the user keeps.  [Templates] is [engine/template]: triggers,
      substitution, steps and the store with its directory.  [UserProfile] is
      [engine/user_profile.rs], the profile with its Markdown file;
      [UserProfileProofs] holds its theorems.  [Evolution] is
      [engine/evolution.rs] with its tool ([evolve_tool.rs]): what is learned
      from sessions, and the life of skills; [EvolutionProofs] holds its
      theorems.  [FileStore] is the interface to files both stores use.
    - Memory.  [MemoryStore] is [engine/memory]: the store with its file, the
      archive, decay, the prompt fragment, and the scheduler of the
      maintenance; [MemoryProofs] holds its theorems.
    - Around the loop.  [Tasks] is [engine/task_manager.rs]; [Cron] is
      [engine/cron.rs]; [Router] is [engine/model_router]; [Resilience] is
      [api/retry.rs] and [api/fallback.rs].
    - Around a query.  [Intent] is [engine/intent_predictor.rs]: patterns and
      what they predict of a message.  [Warmup] is [engine/warmup.rs], the files
      read ahead of time for the predicted intents, and what is learned of it.
      [Projects] is [engine/projects.rs], the registry of projects, and
      [engine/export.rs], the Markdown of a conversation.
    - Shared ground.  This file: Rust's [Result] and its [?], machine integers,
      lists, stable sorting, hash-map iteration, reachability.  [Text]: the
      string operations of the standard library, on bytes; [TextProofs] what is
      shared about lines and trimming.  [Float64]: [f64]
      through the executable specification of binary64.  [Json]: the interface
      to the JSON library.

    ** How state and operations correspond

    A struct is a [Record] with the source's fields, an enum an [Inductive]
    with its constructors, a method a function that returns the new state with
    its result; a method behind a lock is one atomic step.  [Result] is
    [result], [Option] is [option].  A [HashMap] is a [gmap] and a [HashSet] a
    [gset]; wherever the code iterates over one, the order comes from the class
    [HashOrder], so the theorems hold for every order.  [u64] and [usize]
    arithmetic is [add64] and [sub64], modulo [2^64] as in a release build, and
    likewise at 32 bits (the turn counter of a query included); saturating
    operations saturate.  The clock is an
    argument; where the code reads both the wall clock and the monotonic clock
    they are two.  What belongs to the environment is an interface or an argument:
    the file system, JSON values, the tokenizer, the tools themselves, the
    user's answers, the replies of the model, the outcome of a sub-agent
    ([Runtime]), the order in which concurrent tasks finish, the moment of an
    abort.  Where several threads share state the model is a step relation and
    the theorems quantify over every list of steps.  Each theorem with a
    hypothesis comes with a witness at a concrete input.

    ** What the theorems show

    - Conversation: the loop ends under a bound computed from its limits and
      the overflows the model reports, its
      history keeps every tool use paired with its result, tool turns are
      bounded, a tool that keeps failing is cut off, compaction never separates
      a pair, the repair before a request makes pairs and keeps what was
      paired, the clean-up answers every call whatever a crash left, over whole
      conversations every query starts from a paired history, where no session
      memory cuts pairs, an answer split into stream events is reassembled; and
      the one loop that never ends (a context overflow that cannot be compacted).
    - Requests: a paired history is sent paired, the cached prefix of the tool
      list is the same whatever is activated, the summary of a compaction never
      reaches the model, and the request converted for another provider keeps
      its pairs.
    - Providers: an answer survives the wire however it is cut, an
      OpenAI-compatible answer is put together from its pieces up to its last
      call, and the error event of the protocol arrives in no form a provider
      sends.
    - Permissions: [glob_matches] decides a reference relation on patterns; the
      decision procedure on every branch; the exact effect of granting, adding
      and removing rules, and revocation; a prompt's answer is delivered once
      and never changes, over all interleavings; the second gate refines a map
      of grants with expiry times.
    - Filters: every spelling of the dotted internal addresses is refused
      within a URL, the credential scan accepts exactly what it documents.
    - Paths: normalization is a canonical form; accepted paths lie within the
      boundary, lexically and after canonicalization; what is not checked for
      files that do not exist yet.
    - Tools: no call without permission, grants that reach as far as the answer
      that made them, remembered grants, balanced one-shot grants under
      interleaving, bounded outputs, one result per request in order; the
      invariant and the timing of the health automaton; the file cache is a
      least-recently-used map, reads return the lines asked for, an edit
      replaces the one place it is meant for.
    - Task lists: a list survives its file, and a status that is set is the
      status that is read.
    - Servers: messages survive their encoding, the client refines a set of
      outstanding calls, a value is the answer to the caller's own request,
      the catalog holds each name once and calls reach the tool it names.
    - Scheduler: [build] accepts exactly the closed acyclic graphs, the
      topological order and the waves are correct and complete, deterministic
      whatever the hash order, the ready nodes respect parallelism and
      priority, a failure skips exactly the nodes it dooms, the critical path is
      a longest chain.
    - Teams: the outcome of parallel runs is independent of the finishing order,
      sequential hand-over, termination of the graph loop, faithful aggregation
      of results; and where the executor falls short of its documentation (the
      graph mode that never starts an agent, the lost abort, the refused team
      that stays running, the lost usage); the shared store is a map, its
      merges count every result in any order, and agents never deadlock.
    - Sessions: one turn at a time, when a client sees every event exactly once
      and when not, a persisted session opens as it was, when a name stands for
      one engine only; a transcript replays the turns that were logged, also
      after a crash.
    - Calls of clients: every method is read as what it says, with and without
      parameters.
    - Templates and profile: substitution is simultaneous where values hold no
      placeholder, variables are collected completely, a created template is
      found again and a built-in one protected; a profile survives its file but
      for decimals, and its counts are a ranking.
    - Learning: exactly the skills that never worked are retired, what is
      kept for training has every home directory replaced and nothing else lost, a rating reaches the last
      trajectory, a session is reviewed once, and where a name may come from a
      prompt it stays in its directory.
    - Around a query: the predicted intent is one no other beats, a rule of
      warming has no more hits than files and a useless one is eliminated in
      eight rounds of learning; tasks that register projects in any interleaving
      register a directory once, and none panics; an export is complete.
    - Memory: over every interleaving in which no recall's rewrite is open, the
      file reads back as the memory but for importances; nothing is lost between
      the store and the archive; the prompt fragment keeps its budget, shows
      what it selects, and leaves out only what does not fit.
    - Jobs: a duration is read exactly when it fits, a daily or weekly job runs in
      its minutes only, with two minutes between, and once in each where the
      wall clock and the monotonic clock agree; an interval job waits its
      interval.
    - Resilience and streams: exact backoff, the fallback schedule, chunk
      independence of the event parser, and two ways it loses events; the life
      cycle of tasks; routing and the budget with its resets.

    ** Fuel

    Functions that recur on something other than a subterm take fuel and return
    [None] when it runs out; the theorems prove that they return.  Cycle search:
    one unit per node and one to spare, each recursive call adds a node to the
    visited set.  Kahn's loop and the waves: one unit per node, each round
    removes one.  [skip_dependents]: one unit per entry that can ever be queued,
    a node being skipped once.  The loop of [execute_dag]: one round per node
    and one more, each round ends a node.  UTF-8 decoding and the event loop:
    the length of the input, each round consumes a byte.  The query loop: the
    bound of [query_ends].

    ** What is not modelled
    ** What is not modelled
    Of the modelled components: the telemetry and the activation of deferred
    tools around the query loop; the supervisor that connects and restarts MCP
    servers, which is processes and timers; the redaction of secrets, which is
    regular expressions of a library; the archives of sessions.  Other parts:
    cross-session search (SQL), configuration and start-up, the tools that only
    call the operating system, sending the requests of the model providers, the
    sockets and the handlers that hand a remote call to a component, and the
    gateways in other languages.  Input and output, third-party formats and
    process glue stay outside. *)

From stdpp Require Import base gmap strings list sorting fin_maps.
From Stdlib Require Import ZArith Lia.

#[local] Open Scope Z_scope.

(** ** Results: Rust's [Result<T, E>] *)

Inductive result (T E : Type) : Type :=
| Ok (t : T)
| Err (e : E).
Arguments Ok {T E} t.
Arguments Err {T E} e.

Declare Scope rust_scope.
Delimit Scope rust_scope with rust.

(** The [?] operator: continue on [Ok], return early on [Err]. *)
Notation "'let?' x ':=' e 'in' k" :=
  (match e with Ok x => k | Err err => Err err end)
  (at level 10, x pattern, e at level 100, k at level 200)
  : rust_scope.
#[global] Open Scope rust_scope.

Definition is_ok {T E} (r : result T E) : bool :=
  match r with Ok _ => true | Err _ => false end.

(** [Option::is_some]. *)
Definition is_some {T} (o : option T) : bool := match o with Some _ => true | None => false end.

Lemma is_some_true {T} (o : option T) : is_some o = true -> exists x, o = Some x.
Proof. destruct o as [x|]; [by exists x|done]. Qed.

(** ** Machine integers

    An unsigned 64-bit integer ([u64], [usize] on the supported targets) is a
    [Z] in [0, 2^64).  The operations below are the wrapping, saturating and
    ordering operations the source uses. *)

Definition u64_max : Z := 2 ^ 64 - 1.
Definition u32_max : Z := 2 ^ 32 - 1.

Definition is_u64 (z : Z) : Prop := 0 <= z <= u64_max.
Definition is_u32 (z : Z) : Prop := 0 <= z <= u32_max.

(** [a + b], [a - b] and [a * b] as compiled in release mode. *)
Definition wrap64 (z : Z) : Z := z mod 2 ^ 64.
Definition add64 (a b : Z) : Z := wrap64 (a + b).
Definition sub64 (a b : Z) : Z := wrap64 (a - b).
Definition mul64 (a b : Z) : Z := wrap64 (a * b).

Definition add32 (a b : Z) : Z := (a + b) mod 2 ^ 32.

(** Signed integers: [i32], and [i64] with the wrap-around of its addition. *)
Definition is_i32 (z : Z) : Prop := - 2 ^ 31 <= z <= 2 ^ 31 - 1.
Definition is_i64 (z : Z) : Prop := - 2 ^ 63 <= z <= 2 ^ 63 - 1.
Definition add_i64 (a b : Z) : Z := (a + b + 2 ^ 63) mod 2 ^ 64 - 2 ^ 63.

(** [saturating_add], [saturating_sub], [saturating_mul] on [u64]. *)
Definition sat_add64 (a b : Z) : Z := Z.min (a + b) u64_max.
Definition sat_sub64 (a b : Z) : Z := Z.max 0 (a - b).
Definition sat_mul64 (a b : Z) : Z := Z.min (a * b) u64_max.
Definition sat_add32 (a b : Z) : Z := Z.min (a + b) u32_max.

Lemma wrap64_small z : is_u64 z -> wrap64 z = z.
Proof. unfold is_u64, wrap64, u64_max; intros; apply Z.mod_small; lia. Qed.

Lemma wrap64_range z : is_u64 (wrap64 z).
Proof.
  unfold is_u64, wrap64, u64_max.
  pose proof (Z.mod_pos_bound z (2 ^ 64) ltac:(lia)). lia.
Qed.

Lemma add_i64_small a b : is_i64 (a + b) -> add_i64 a b = a + b.
Proof. unfold is_i64, add_i64. intros. rewrite Z.mod_small; lia. Qed.

Lemma sub64_pos d : 0 < d <= u64_max -> sub64 d 1 = d - 1.
Proof. intros; unfold sub64; apply wrap64_small; unfold is_u64; lia. Qed.

Lemma sat_add64_range a b : is_u64 a -> is_u64 b -> is_u64 (sat_add64 a b).
Proof. unfold is_u64, sat_add64, u64_max. lia. Qed.

Lemma sat_sub64_range a b : is_u64 a -> is_u64 b -> is_u64 (sat_sub64 a b).
Proof. unfold is_u64, sat_sub64, u64_max. lia. Qed.

Lemma append_assoc (a b c : string) : a +:+ (b +:+ c) = (a +:+ b) +:+ c.
Proof. induction a as [|x a IH]; [done|]. exact (f_equal (String.String x) IH). Qed.

Lemma append_empty (a : string) : a +:+ "" = a.
Proof. induction a as [|x a IH]; [done|]. exact (f_equal (String.String x) IH). Qed.

(** ** Decidable tests *)

(** A Boolean test stated by a decidable proposition, with its two
    reflections available to automation. *)
Lemma bool_decide_iff (P Q : Prop) `{!Decision P, !Decision Q} :
  (P <-> Q) -> bool_decide P = bool_decide Q.
Proof. intros H. apply bool_decide_ext, H. Qed.

Lemma bool_eq_iff (a b : bool) : (a = true <-> b = true) -> a = b.
Proof. destruct a, b; intuition congruence. Qed.

(** ** Lists *)

Section Lists.
Context {A : Type}.
Implicit Types (l : list A) (f : A -> bool).

Lemma existsb_elem f l : existsb f l = true <-> exists x, x ∈ l /\ f x = true.
Proof.
  rewrite existsb_exists. setoid_rewrite <- list_elem_of_In. reflexivity.
Qed.

Lemma existsb_perm f l1 l2 : l1 ≡ₚ l2 -> existsb f l1 = existsb f l2.
Proof.
  intros Hp. apply bool_eq_iff. rewrite !existsb_elem. by setoid_rewrite Hp.
Qed.

Lemma forallb_elem f l : forallb f l = true <-> forall x, x ∈ l -> f x = true.
Proof.
  rewrite forallb_forall. setoid_rewrite <- list_elem_of_In. reflexivity.
Qed.

(** [Vec::retain]: keep the elements on which the predicate holds. *)
Definition retain f l : list A := List.filter f l.

Lemma retain_cons f x l : retain f (x :: l) = if f x then x :: retain f l else retain f l.
Proof. done. Qed.

Lemma elem_of_retain f l x : x ∈ retain f l <-> x ∈ l /\ f x = true.
Proof.
  unfold retain. rewrite !list_elem_of_In. apply filter_In.
Qed.

Lemma retain_length_le f l : (length (retain f l) <= length l)%nat.
Proof. apply List.filter_length_le. Qed.

Lemma NoDup_retain f l : NoDup l -> NoDup (retain f l).
Proof. rewrite !NoDup_ListNoDup. apply List.NoDup_filter. Qed.

#[export] Instance filter_perm f : Proper ((≡ₚ) ==> (≡ₚ)) (List.filter f).
Proof.
  induction 1 as [|x l1 l2 _ IH|x y l|l1 l2 l3 _ IH1 _ IH2]; simpl; [done| | |by transitivity (List.filter f l2)].
  - destruct (f x); [by constructor|done].
  - destruct (f x), (f y); [apply Permutation_swap|done..].
Qed.

Lemma retain_length_split f l :
  (length (retain f l) + length (retain (negb ∘ f) l) = length l)%nat.
Proof.
  induction l as [|x l IH]; simpl; [done|]. destruct (f x); simpl; lia.
Qed.

(** [Iterator::position]: the index of the first element satisfying [f]. *)
Fixpoint position f l : option nat :=
  match l with
  | [] => None
  | x :: l' => if f x then Some 0%nat else S <$> position f l'
  end.

(** [Vec::remove] at an index in range; the callers never pass another. *)
Definition remove_at (i : nat) l : list A := take i l ++ drop (S i) l.

Lemma remove_at_perm l i x : l !! i = Some x -> l ≡ₚ x :: remove_at i l.
Proof. intros Hi. unfold remove_at. rewrite Permutation_middle. by rewrite (take_drop_middle l i x Hi). Qed.

Lemma remove_at_length (i : nat) l : (i < length l)%nat -> length (remove_at i l) = (length l - 1)%nat.
Proof. intros Hi. unfold remove_at. rewrite length_app, length_take, length_drop. lia. Qed.
End Lists.

(** The number of occurrences of an element. *)
Section Occ.
Context {A : Type} `{EqDecision A}.

Fixpoint occ (x : A) (l : list A) : nat :=
  match l with
  | [] => 0
  | y :: l' => (if decide (x = y) then 1 else 0) + occ x l'
  end%nat.

Lemma occ_app x l1 l2 : occ x (l1 ++ l2) = (occ x l1 + occ x l2)%nat.
Proof. induction l1; simpl; [done|]. lia. Qed.

Lemma occ_pos x l : (0 < occ x l)%nat <-> x ∈ l.
Proof.
  induction l as [|y l IH]; simpl; [split; [lia|by intros ?%not_elem_of_nil]|].
  rewrite elem_of_cons. case_decide; [split; [by left|lia]|].
  simpl. rewrite IH. tauto.
Qed.

Lemma occ_zero x l : occ x l = 0%nat <-> x ∉ l.
Proof. rewrite <- occ_pos. lia. Qed.

Lemma occ_le_length x l : (occ x l <= length l)%nat.
Proof. induction l; simpl; [done|]. case_decide; lia. Qed.
End Occ.

(** A [for j in 1..=n] loop keeps an invariant indexed by the last index done. *)
Lemma foldl_seq_invariant {A} (P : nat -> A -> Prop) (f : A -> nat -> A) (n : nat) (a : A) :
  P O a ->
  (forall j a, (1 <= j <= n)%nat -> P (j - 1)%nat a -> P j (f a j)) ->
  P n (foldl f a (seq 1 n)).
Proof.
  intros H0 Hstep. revert Hstep. induction n as [|n IH]; intros Hstep; [done|].
  rewrite seq_S, foldl_app. simpl.
  replace (S n) with (1 + n)%nat by lia. apply Hstep; [lia|].
  replace (1 + n - 1)%nat with n by lia. apply IH. intros; apply Hstep; [lia|done].
Qed.

(** ** Sorting: [slice::sort_by], a stable sort

    [le x y] is "[cmp x y] is not [Greater]".  Insertion sort is stable and
    so computes the list the standard library's stable merge sort computes. *)
Section Sorting.
Context {A : Type} (le : A -> A -> bool).

Fixpoint insert_by (x : A) (l : list A) : list A :=
  match l with
  | [] => [x]
  | y :: l' => if le x y then x :: y :: l' else y :: insert_by x l'
  end.

Fixpoint sort_by (l : list A) : list A :=
  match l with
  | [] => []
  | x :: l' => insert_by x (sort_by l')
  end.

Lemma insert_by_perm x l : insert_by x l ≡ₚ x :: l.
Proof.
  induction l as [|y l IH]; simpl; [done|].
  destruct (le x y); [done|]. rewrite IH. apply Permutation_swap.
Qed.

Lemma sort_by_perm l : sort_by l ≡ₚ l.
Proof. induction l as [|x l IH]; simpl; [done|]. by rewrite insert_by_perm, IH. Qed.

Lemma elem_of_sort_by x l : x ∈ sort_by l <-> x ∈ l.
Proof. by rewrite sort_by_perm. Qed.

Lemma length_sort_by l : length (sort_by l) = length l.
Proof. by rewrite sort_by_perm. Qed.

Definition le_rel (x y : A) : Prop := le x y = true.

Lemma insert_by_sorted x l :
  (forall a b, le a b = false -> le b a = true) ->
  Sorted le_rel l -> Sorted le_rel (insert_by x l).
Proof.
  intros Htot. induction l as [|y l IH]; simpl; intros Hs; [by repeat constructor|].
  destruct (le x y) eqn:Hxy; [constructor; [done|by constructor]|].
  apply Sorted_inv in Hs as [Hs Hhd]. constructor; [auto|].
  destruct l as [|z l]; simpl; [constructor; by apply Htot|].
  destruct (le x z); constructor; [by apply Htot|by inversion Hhd].
Qed.

Lemma sort_by_sorted l :
  (forall a b, le a b = false -> le b a = true) -> Sorted le_rel (sort_by l).
Proof.
  intros Htot. induction l; simpl; [constructor|]. by apply insert_by_sorted.
Qed.
End Sorting.

(** ** [HashMap] iteration

    Iterating over a [HashMap] visits every entry once, in an order the
    program does not control.  A component that iterates is stated for an
    arbitrary order: an instance of [HashOrder] chooses, for each map, a
    permutation of its entries. *)
Class HashOrder := {
  hash_iter : forall {V : Type}, gmap string V -> list (string * V);
  hash_iter_perm : forall {V : Type} (m : gmap string V), hash_iter m ≡ₚ map_to_list m
}.

Section HashOrder.
Context `{HashOrder}.
Context {V : Type}.
Implicit Types (m : gmap string V).

(** [HashMap::keys] and [HashMap::values]. *)
Definition hash_keys m : list string := (hash_iter m).*1.
Definition hash_values m : list V := (hash_iter m).*2.

Lemma elem_of_hash_iter m k v : (k, v) ∈ hash_iter m <-> m !! k = Some v.
Proof. rewrite hash_iter_perm. apply elem_of_map_to_list. Qed.

Lemma elem_of_hash_keys m k : k ∈ hash_keys m <-> is_Some (m !! k).
Proof.
  unfold hash_keys. rewrite list_elem_of_fmap. split.
  - intros ([k' v] & -> & Hin). apply elem_of_hash_iter in Hin. by exists v.
  - intros [v Hv]. exists (k, v). by rewrite elem_of_hash_iter.
Qed.

Lemma elem_of_hash_values m v : v ∈ hash_values m <-> exists k, m !! k = Some v.
Proof.
  unfold hash_values. rewrite list_elem_of_fmap. split.
  - intros ([k v'] & -> & Hin). apply elem_of_hash_iter in Hin. by exists k.
  - intros [k Hv]. exists (k, v). by rewrite elem_of_hash_iter.
Qed.

Lemma NoDup_hash_keys m : NoDup (hash_keys m).
Proof. unfold hash_keys. rewrite hash_iter_perm. apply NoDup_fst_map_to_list. Qed.

Lemma NoDup_hash_iter m : NoDup (hash_iter m).
Proof. rewrite hash_iter_perm. apply NoDup_map_to_list. Qed.

Lemma length_hash_keys m : length (hash_keys m) = size m.
Proof. unfold hash_keys. by rewrite length_fmap, hash_iter_perm, length_map_to_list. Qed.

Lemma length_hash_iter m : length (hash_iter m) = size m.
Proof. by rewrite hash_iter_perm, length_map_to_list. Qed.

Lemma hash_keys_empty m : hash_iter m = [] -> m = ∅.
Proof.
  intros Hnil. apply map_size_empty_iff. by rewrite <- length_hash_iter, Hnil.
Qed.
End HashOrder.

(** The order a witness runs with: the maps' own canonical order. *)
Definition canonical_order : HashOrder :=
  {| hash_iter := fun V (m : gmap string V) => map_to_list m;
     hash_iter_perm := fun V m => reflexivity (map_to_list m) |}.

(** The same entries the other way round. *)
Definition reversed_order : HashOrder :=
  {| hash_iter := fun V (m : gmap string V) => reverse (map_to_list m);
     hash_iter_perm := fun V m => reverse_Permutation (map_to_list m) |}.

(** ** Automation shared by the components *)

Create HintDb rust.
#[export] Hint Resolve wrap64_range sat_add64_range sat_sub64_range : rust.
#[export] Hint Rewrite @elem_of_retain @elem_of_sort_by @elem_of_hash_keys : rust.

(** Split every Boolean conjunction, disjunction and negation of the context
    into propositions. *)
Ltac bool_hyps :=
  repeat match goal with
  | H : andb _ _ = true |- _ => apply andb_true_iff in H as [? ?]
  | H : orb _ _ = false |- _ => apply orb_false_iff in H as [? ?]
  | H : orb _ _ = true |- _ => apply orb_true_iff in H
  | H : andb _ _ = false |- _ => apply andb_false_iff in H
  | H : negb _ = true |- _ => apply negb_true_iff in H
  | H : negb _ = false |- _ => apply negb_false_iff in H
  | H : bool_decide _ = true |- _ => apply bool_decide_eq_true in H
  | H : bool_decide _ = false |- _ => apply bool_decide_eq_false in H
  | H : Z.ltb _ _ = true |- _ => apply Z.ltb_lt in H
  | H : Z.ltb _ _ = false |- _ => apply Z.ltb_ge in H
  | H : Z.leb _ _ = true |- _ => apply Z.leb_le in H
  | H : Z.leb _ _ = false |- _ => apply Z.leb_gt in H
  | H : Z.eqb _ _ = true |- _ => apply Z.eqb_eq in H
  | H : Z.eqb _ _ = false |- _ => apply Z.eqb_neq in H
  | H : Nat.ltb _ _ = true |- _ => apply Nat.ltb_lt in H
  | H : Nat.ltb _ _ = false |- _ => apply Nat.ltb_ge in H
  | H : Nat.leb _ _ = true |- _ => apply Nat.leb_le in H
  | H : Nat.leb _ _ = false |- _ => apply Nat.leb_gt in H
  | H : Nat.eqb _ _ = true |- _ => apply Nat.eqb_eq in H
  | H : Nat.eqb _ _ = false |- _ => apply Nat.eqb_neq in H
  | H : String.eqb _ _ = true |- _ => apply String.eqb_eq in H
  | H : String.eqb _ _ = false |- _ => apply String.eqb_neq in H
  end.

(** Resolve membership in literal lists. *)
Ltac in_lists :=
  repeat match goal with
  | H : _ ∈ _ :: _ |- _ => apply elem_of_cons in H as [H|H]
  | H : _ ∈ [] |- _ => exfalso; by apply not_elem_of_nil in H
  end.

(** Case analysis on every [if] and [match] of the goal, keeping equations. *)
Ltac cases := repeat (case_match; simplify_eq/=; try done).

(** ** Step relations

    Reachability under a step relation, with the invariant rule every state
    machine of the development uses. *)
Section Reachability.
Context {S : Type} (init : S -> Prop) (step : S -> S -> Prop).

Inductive reachable : S -> Prop :=
| reach_init s : init s -> reachable s
| reach_step s s' : reachable s -> step s s' -> reachable s'.

Lemma reachable_invariant (I : S -> Prop) :
  (forall s, init s -> I s) ->
  (forall s s', I s -> step s s' -> I s') ->
  forall s, reachable s -> I s.
Proof. intros Hi Hs s Hr. induction Hr; eauto. Qed.
End Reachability.

(** Mapping, filtering and keys. *)

Lemma retain_fmap {A B} (f : B -> bool) (g : A -> B) l : retain f (g <$> l) = g <$> retain (fun x => f (g x)) l.
Proof. induction l as [|x l IH]; [done|]. rewrite fmap_cons. simpl. destruct (f (g x)); simpl; by rewrite IH. Qed.

Lemma retain_ext {A} (f g : A -> bool) l : (forall x, f x = g x) -> retain f l = retain g l.
Proof. intros Hfg. induction l as [|x l IH]; [done|]. simpl. by rewrite Hfg, IH. Qed.

Lemma list_fmap_ext_retain {A B} (f : A -> bool) (g h : A -> B) l :
  (forall x, f x = true -> g x = h x) -> g <$> retain f l = h <$> retain f l.
Proof.
  intros Hgh. apply list_fmap_ext. intros i x Hx. apply Hgh.
  by apply list_elem_of_lookup_2, elem_of_retain in Hx as [_ ?].
Qed.

Lemma NoDup_key_inj {A B} (f : A -> B) l x y : NoDup (f <$> l) -> x ∈ l -> y ∈ l -> f x = f y -> x = y.
Proof.
  induction l as [|z l IH]; [by intros _ ?%elem_of_nil|]. csimpl. intros [Hz Hnd]%NoDup_cons.
  intros [->|Hx]%elem_of_cons [->|Hy]%elem_of_cons Hf; [done| | |by apply IH].
  - destruct Hz. rewrite Hf. by apply list_elem_of_fmap_2.
  - destruct Hz. rewrite <- Hf. by apply list_elem_of_fmap_2.
Qed.

Lemma omap_cons {A B} (f : A -> option B) x l :
  omap f (x :: l) = match f x with Some y => y :: omap f l | None => omap f l end.
Proof. done. Qed.

(** A sort by a total order depends on the elements only; the order need only
    be antisymmetric on them. *)
Lemma sort_by_unique_on {A} (le : A -> A -> bool) l1 l2 :
  (forall a b, le a b = false -> le b a = true) ->
  (forall a b c, le a b = true -> le b c = true -> le a c = true) ->
  (forall a b, a ∈ l1 -> b ∈ l1 -> le a b = true -> le b a = true -> a = b) ->
  l1 ≡ₚ l2 -> sort_by le l1 = sort_by le l2.
Proof.
  intros Htot Htr Has Hp.
  assert (Transitive (le_rel le)) by (intros a b c; apply Htr).
  apply (StronglySorted_unique_strong (le_rel le)).
  - intros a b Ha%elem_of_sort_by Hb%elem_of_sort_by. apply Has; [done|by rewrite Hp].
  - apply Sorted_StronglySorted; [done|by apply sort_by_sorted].
  - apply Sorted_StronglySorted; [done|by apply sort_by_sorted].
  - by rewrite !sort_by_perm.
Qed.

Lemma sort_by_unique {A} (le : A -> A -> bool) l1 l2 :
  (forall a b, le a b = false -> le b a = true) ->
  (forall a b c, le a b = true -> le b c = true -> le a c = true) ->
  (forall a b, le a b = true -> le b a = true -> a = b) ->
  l1 ≡ₚ l2 -> sort_by le l1 = sort_by le l2.
Proof. intros Htot Htr Has. apply sort_by_unique_on; [done|done|by intros a b _ _; apply Has]. Qed.

(** Sorting when one group comes before the other. *)
Lemma insert_by_app {A} (le : A -> A -> bool) x l1 l2 :
  Forall (fun y => le x y = true) l2 -> insert_by le x (l1 ++ l2) = insert_by le x l1 ++ l2.
Proof.
  intros Hl. induction l1 as [|y l1 IH]; simpl.
  - destruct l2 as [|z l2]; [done|]. apply Forall_cons in Hl as [Hz _]. simpl. by rewrite Hz.
  - destruct (le x y); [done|]. by rewrite IH.
Qed.

Lemma insert_by_skip {A} (le : A -> A -> bool) x l1 l2 :
  Forall (fun y => le x y = false) l1 -> insert_by le x (l1 ++ l2) = l1 ++ insert_by le x l2.
Proof. induction 1 as [|y l1 Hy _ IH]; [done|]. simpl. by rewrite Hy, IH. Qed.

Lemma sort_by_groups {A} (le : A -> A -> bool) (f : A -> bool) l :
  (forall a b, f a = true -> f b = false -> le a b = true /\ le b a = false) ->
  sort_by le l = sort_by le (retain f l) ++ sort_by le (retain (fun x => negb (f x)) l).
Proof.
  intros Hf. induction l as [|x l IH]; [done|]. simpl. rewrite IH. destruct (f x) eqn:Hx; simpl.
  - apply insert_by_app, Forall_forall. intros y Hy%elem_of_sort_by%elem_of_retain.
    apply (Hf x y Hx). by destruct Hy as [_ ->%negb_true_iff].
  - apply insert_by_skip, Forall_forall. intros y Hy%elem_of_sort_by%elem_of_retain.
    apply (Hf y x); [apply Hy|done].
Qed.
