(* ===== verification/Text.v ===== *)
(** * Text: the byte-string operations of [str] and [String] the source uses

    A Rust string is its sequence of UTF-8 bytes: Rocq's [string], one
    [ascii] per byte.  Case operations touch only the ASCII letters, as the
    [_ascii_] methods do. *)

From stdpp Require Import base list strings sorting.
From stdpp Require pretty.
From Stdlib Require Import ZArith Lia.
From S2P Require Import Prelude.

(** ** Bytes *)

Definition byte := Ascii.ascii.
Abbreviation bytes_of := String.list_ascii_of_string.
Abbreviation string_of := String.string_of_list_ascii.

(** [u8::to_ascii_lowercase]. *)
Definition lower_byte (b : byte) : byte :=
  let n := Ascii.nat_of_ascii b in
  if (Nat.leb 65 n && Nat.leb n 90)%bool then Ascii.ascii_of_nat (n + 32) else b.

(** [u8::eq_ignore_ascii_case]. *)
Definition byte_eq_ci (a b : byte) : bool := Ascii.eqb (lower_byte a) (lower_byte b).

(** [str::to_ascii_lowercase]. *)
Fixpoint to_ascii_lowercase (s : string) : string :=
  match s with
  | String.EmptyString => String.EmptyString
  | String.String c s' => String.String (lower_byte c) (to_ascii_lowercase s')
  end.

(** [str::eq_ignore_ascii_case]. *)
Fixpoint eq_ignore_ascii_case (a b : string) : bool :=
  match a, b with
  | String.EmptyString, String.EmptyString => true
  | String.String x a', String.String y b' => byte_eq_ci x y && eq_ignore_ascii_case a' b'
  | _, _ => false
  end.

(** [str::starts_with], [str::contains] with a string pattern. *)
Definition starts_with (s p : string) : bool := String.prefix p s.

Fixpoint str_contains (s p : string) : bool :=
  String.prefix p s ||
  match s with
  | String.EmptyString => false
  | String.String _ s' => str_contains s' p
  end.

(** [str::len]: the number of bytes. *)
Definition str_len (s : string) : nat := String.length s.

Definition is_empty (s : string) : bool :=
  match s with String.EmptyString => true | _ => false end.

Lemma byte_eq_ci_refl b : byte_eq_ci b b = true.
Proof. apply Ascii.eqb_refl. Qed.

Lemma byte_eq_ci_sym a b : byte_eq_ci a b = byte_eq_ci b a.
Proof. unfold byte_eq_ci. apply Ascii.eqb_sym. Qed.

Lemma byte_eq_ci_iff a b : byte_eq_ci a b = true <-> lower_byte a = lower_byte b.
Proof. unfold byte_eq_ci. apply Ascii.eqb_eq. Qed.

Lemma eq_ci_iff a b :
  eq_ignore_ascii_case a b = true <-> to_ascii_lowercase a = to_ascii_lowercase b.
Proof.
  revert b. induction a as [|x a IH]; intros [|y b]; simpl; try (split; congruence).
  rewrite andb_true_iff, byte_eq_ci_iff, IH. split; [by intros [-> ->]|].
  by intros [= -> ->].
Qed.

Lemma eq_ci_refl a : eq_ignore_ascii_case a a = true.
Proof. by apply eq_ci_iff. Qed.

Lemma eq_ci_sym a b : eq_ignore_ascii_case a b = eq_ignore_ascii_case b a.
Proof. apply bool_eq_iff. rewrite !eq_ci_iff. by split. Qed.

#[export] Hint Resolve byte_eq_ci_refl eq_ci_refl : rust.

(** ** Byte-wise order: [Ord for str] *)

Fixpoint str_cmp (a b : string) : comparison :=
  match a, b with
  | String.EmptyString, String.EmptyString => Eq
  | String.EmptyString, _ => Lt
  | _, String.EmptyString => Gt
  | String.String x a', String.String y b' =>
      match Nat.compare (Ascii.nat_of_ascii x) (Ascii.nat_of_ascii y) with
      | Eq => str_cmp a' b'
      | c => c
      end
  end.

Definition str_leb (a b : string) : bool :=
  match str_cmp a b with Gt => false | _ => true end.

Lemma nat_of_ascii_inj a b : Ascii.nat_of_ascii a = Ascii.nat_of_ascii b -> a = b.
Proof.
  intros H. rewrite <- (Ascii.ascii_nat_embedding a), <- (Ascii.ascii_nat_embedding b).
  by rewrite H.
Qed.

Lemma str_cmp_eq a b : str_cmp a b = Eq <-> a = b.
Proof.
  revert b. induction a as [|x a IH]; intros [|y b]; simpl; try (split; congruence).
  destruct (Nat.compare_spec (Ascii.nat_of_ascii x) (Ascii.nat_of_ascii y)) as [He|Hl|Hg].
  - apply nat_of_ascii_inj in He as ->. rewrite IH. split; congruence.
  - split; [done|]. intros [= -> _]. lia.
  - split; [done|]. intros [= -> _]. lia.
Qed.

Lemma str_cmp_antisym a b : str_cmp b a = CompOpp (str_cmp a b).
Proof.
  revert b. induction a as [|x a IH]; intros [|y b]; simpl; try done.
  rewrite Nat.compare_antisym, IH.
  by destruct (Nat.compare (Ascii.nat_of_ascii x) (Ascii.nat_of_ascii y)).
Qed.

Lemma str_leb_total a b : str_leb a b = false -> str_leb b a = true.
Proof. unfold str_leb. rewrite (str_cmp_antisym a b). by destruct (str_cmp a b). Qed.

(** ** Trimming

    [str::trim] removes the code points with the Unicode property
    White_Space; here are their UTF-8 encodings.  UTF-8 is self-synchronising,
    so a byte-wise prefix (suffix) match is a match of whole code points. *)
Definition utf8 (l : list nat) : list byte := Ascii.ascii_of_nat <$> l.

Definition whitespace : list (list byte) :=
  utf8 <$>
  ([ [9]; [10]; [11]; [12]; [13]; [32]; [194; 133]; [194; 160]; [225; 154; 128];
     [226; 128; 168]; [226; 128; 169]; [226; 128; 175]; [226; 129; 159];
     [227; 128; 128] ] ++
   ((fun k => [226; 128; k]) <$> seq 128 11))%nat.

Fixpoint strip (w l : list byte) : option (list byte) :=
  match w, l with
  | [], _ => Some l
  | x :: w', y :: l' => if Ascii.eqb x y then strip w' l' else None
  | _ :: _, [] => None
  end.

(** The remainder after one leading member of [ws], if there is one. *)
Fixpoint strip_any (ws : list (list byte)) (l : list byte) : option (list byte) :=
  match ws with
  | [] => None
  | w :: ws' => match strip w l with Some r => Some r | None => strip_any ws' l end
  end.

Fixpoint trim_with (ws : list (list byte)) (fuel : nat) (l : list byte) : list byte :=
  match fuel with
  | O => l
  | S n => match strip_any ws l with Some r => trim_with ws n r | None => l end
  end.

Definition trim_start (s : string) : string :=
  string_of (trim_with whitespace (str_len s) (bytes_of s)).

Definition trim_end (s : string) : string :=
  string_of (reverse (trim_with (reverse <$> whitespace) (str_len s) (reverse (bytes_of s)))).

Definition trim (s : string) : string := trim_end (trim_start s).

Example trim_example :
  trim (String.append "  a b" (string_of (utf8 [194; 160; 10]%nat))) = "a b"%string.
Proof. reflexivity. Qed.

(** Every step of [trim_with] removes at least one byte, so the length of the
    input is enough fuel: the result has no leading member left. *)
Lemma strip_length w l r : strip w l = Some r -> (length l = length w + length r)%nat.
Proof.
  revert l. induction w as [|x w IH]; intros l; simpl; [by intros [= ->]|].
  destruct l as [|y l]; [done|]. case_match; [|done]. intros Hr. simpl.
  by rewrite (IH _ Hr).
Qed.

Lemma strip_any_length ws l r :
  Forall (fun w => w <> []) ws -> strip_any ws l = Some r -> (length r < length l)%nat.
Proof.
  induction 1 as [|w ws Hw _ IH]; simpl; [done|].
  destruct (strip w l) eqn:Hs; [|done]. intros [= ->].
  apply strip_length in Hs. destruct w; [done|]. simpl in Hs. lia.
Qed.

Lemma trim_with_done ws n l :
  Forall (fun w => w <> []) ws -> (length l <= n)%nat ->
  strip_any ws (trim_with ws n l) = None.
Proof.
  intros Hws. revert l. induction n as [|n IH]; intros l Hl; simpl.
  - destruct l; [|simpl in Hl; lia]. clear Hl.
    destruct (strip_any ws []) eqn:Hs; [|done].
    apply strip_any_length in Hs; simpl in *; [lia|done].
  - destruct (strip_any ws l) as [r|] eqn:Hs; [|done].
    apply IH. apply strip_any_length in Hs; [lia|done].
Qed.

(** ** Lines *)

Definition LF : byte := Ascii.ascii_of_nat 10.
Definition CR : byte := Ascii.ascii_of_nat 13.

(** [str::lines]: cut after each LF, drop it and a CR before it. *)
Definition strip_cr (l : list byte) : list byte :=
  match last l with
  | Some c => if Ascii.eqb c CR then take (length l - 1) l else l
  | None => l
  end.

Fixpoint lines_from (cur : list byte) (l : list byte) : list (list byte) :=
  match l with
  | [] => match cur with [] => [] | _ => [cur] end
  | b :: l' => if Ascii.eqb b LF then strip_cr cur :: lines_from [] l'
               else lines_from (cur ++ [b]) l'
  end.
Definition lines : list byte -> list (list byte) := lines_from [].

(** ** Decimal numbers: [str::parse::<i32>] *)

Definition digit_of (b : byte) : option Z :=
  let n := Ascii.nat_of_ascii b in
  if (Nat.leb 48 n && Nat.leb n 57)%bool then Some (Z.of_nat (n - 48)) else None.

Fixpoint digits (l : list byte) (acc : Z) : option Z :=
  match l with
  | [] => Some acc
  | b :: l' => match digit_of b with Some d => digits l' (10 * acc + d)%Z | None => None end
  end.

(** An optional sign, then one or more digits, within the given bounds. *)
Definition parse_int (lo hi : Z) (s : string) : option Z :=
  let finish l sign :=
    match l with
    | [] => None
    | _ => match digits l 0%Z with
           | Some n => let v := (sign * n)%Z in
                       if (Z.leb lo v && Z.leb v hi)%bool then Some v else None
           | None => None
           end
    end in
  match bytes_of s with
  | b :: l =>
      if Nat.eqb (Ascii.nat_of_ascii b) 45 then finish l (-1)%Z
      else if Nat.eqb (Ascii.nat_of_ascii b) 43 then finish l 1%Z
      else finish (b :: l) 1%Z
  | [] => None
  end.

Definition parse_i32 : string -> option Z := parse_int (- 2 ^ 31)%Z (2 ^ 31 - 1)%Z.

Example parse_i32_ex :
  (parse_i32 "-12", parse_i32 "+7", parse_i32 "", parse_i32 "2147483648") =
  (Some (-12)%Z, Some 7%Z, None, None).
Proof. reflexivity. Qed.

(** Unsigned: a leading plus is accepted, a minus is not. *)
Definition parse_uint (hi : Z) (s : string) : option Z :=
  match bytes_of s with
  | b :: _ => if Nat.eqb (Ascii.nat_of_ascii b) 45 then None else parse_int 0 hi s
  | [] => None
  end.

(** ** Searching *)

(** [str::find] of a substring: the offset of its first occurrence. *)
Fixpoint find_bytes (p l : list byte) : option nat :=
  match strip p l with
  | Some _ => Some 0%nat
  | None => match l with [] => None | _ :: l' => S <$> find_bytes p l' end
  end.

(** What follows the first occurrence. *)
Fixpoint after_first (p l : list byte) : option (list byte) :=
  match strip p l with
  | Some rest => Some rest
  | None => match l with [] => None | _ :: l' => after_first p l' end
  end.

(** [rsplitn(2, c).last()], when [c] occurs: what precedes its last occurrence. *)
Fixpoint before_last (c : byte) (l : list byte) : option (list byte) :=
  match l with
  | [] => None
  | b :: l' =>
      match before_last c l' with
      | Some p => Some (b :: p)
      | None => if Ascii.eqb b c then Some [] else None
      end
  end.

(** [split(set).next()]: up to the first byte of a set. *)
Fixpoint take_until (f : byte -> bool) (l : list byte) : list byte :=
  match l with
  | [] => []
  | b :: l' => if f b then [] else b :: take_until f l'
  end.

(** [bytes().take_while(f).count()]. *)
Fixpoint count_while (f : byte -> bool) (l : list byte) : nat :=
  match l with
  | [] => 0
  | b :: l' => if f b then S (count_while f l') else 0
  end.

Definition is_digit (b : byte) : bool := let n := Ascii.nat_of_ascii b in (Nat.leb 48 n && Nat.leb n 57)%bool.
Definition is_upper (b : byte) : bool := let n := Ascii.nat_of_ascii b in (Nat.leb 65 n && Nat.leb n 90)%bool.
Definition is_lower (b : byte) : bool := let n := Ascii.nat_of_ascii b in (Nat.leb 97 n && Nat.leb n 122)%bool.
Definition is_alphanumeric (b : byte) : bool := (is_digit b || is_upper b || is_lower b)%bool.

Lemma strip_app w l : strip w (w ++ l) = Some l.
Proof. induction w as [|b w IH]; simpl; [done|]. by rewrite Ascii.eqb_refl. Qed.

Lemma strip_some w l r : strip w l = Some r <-> l = w ++ r.
Proof.
  split; [|intros ->; apply strip_app]. revert l. induction w as [|b w IH]; intros l; simpl; [by intros [= ->]|].
  destruct l as [|c l]; [done|]. destruct (Ascii.eqb_spec b c) as [->|]; [|done]. by intros ->%IH.
Qed.

Lemma find_bytes_cons p b l :
  find_bytes p (b :: l) = match strip p (b :: l) with Some _ => Some 0%nat | None => S <$> find_bytes p l end.
Proof. reflexivity. Qed.

(** The first occurrence, and that there is none. *)
Lemma find_bytes_some p l i :
  find_bytes p l = Some i <->
  exists a b, l = a ++ p ++ b /\ length a = i /\ forall a' b', l = a' ++ p ++ b' -> (i <= length a')%nat.
Proof.
  revert i. induction l as [|c l IH]; intros i.
  - cbn. destruct (strip p []) as [r|] eqn:Hs.
    + apply strip_some in Hs. symmetry in Hs. apply app_nil in Hs as [-> ->]. split; [intros [= <-]; exists [], []; split_and!; [done..|intros; lia]|].
      intros (a & b & Ha & <- & _). symmetry in Ha. by apply app_nil in Ha as [-> _].
    + split; [done|]. intros (a & b & Ha & _). symmetry in Ha. apply app_nil in Ha as [_ [-> ->]%app_nil]. done.
  - rewrite find_bytes_cons. destruct (strip p (c :: l)) as [r|] eqn:Hs.
    + apply strip_some in Hs. split; [intros [= <-]; exists [], r; split_and!; [done..|intros; lia]|].
      intros (a & b & _ & <- & Hf). specialize (Hf [] r Hs). f_equal. simpl in Hf. lia.
    + assert (Hn : forall r, c :: l <> p ++ r) by (intros r Hr; apply strip_some in Hr; congruence). split.
      * intros (j & Hj & ->)%fmap_Some. apply IH in Hj as (a & b & -> & <- & Hf). exists (c :: a), b. split_and!; [done..|].
        intros [|c' a'] b' He; [by apply Hn in He|]. injection He as -> He. specialize (Hf a' b' He). simpl. lia.
      * intros ([|c' a] & b & He & <- & Hf); [by apply Hn in He|]. injection He as -> ->.
        rewrite (proj2 (IH (length a))); [done|]. exists a, b. split_and!; [done..|].
        intros a' b' He. specialize (Hf (c' :: a') b'). simpl in Hf. rewrite He in Hf. specialize (Hf eq_refl). lia.
Qed.

Lemma find_bytes_none p l : find_bytes p l = None <-> forall a b, l <> a ++ p ++ b.
Proof.
  induction l as [|c l IH].
  - cbn. destruct (strip p []) as [r|] eqn:Hs; split; try done.
    + apply strip_some in Hs. intros Hn. by specialize (Hn [] r).
    + intros _ a b Ha. symmetry in Ha. by apply app_nil in Ha as [_ [-> ->]%app_nil].
  - rewrite find_bytes_cons. destruct (strip p (c :: l)) as [r|] eqn:Hs.
    + apply strip_some in Hs. split; [done|]. intros Hn. by specialize (Hn [] r).
    + rewrite fmap_None, IH. split.
      * intros Hn [|c' a] b He; [|injection He as _ He; by apply (Hn a b)]. apply (strip_some p) in He. congruence.
      * intros Hn a b ->. by apply (Hn (c :: a) b).
Qed.

Lemma str_prefix_spec p s : String.prefix p s = true <-> exists r, bytes_of s = bytes_of p ++ r.
Proof.
  revert s. induction p as [|a p IH]; intros s; [by destruct s; split; eauto|].
  destruct s as [|b s]; simpl; [by split; [|intros [r ?]]|].
  destruct (Ascii.ascii_dec a b) as [->|Hne].
  - rewrite IH. split; intros [r Hr]; exists r; [by rewrite Hr|by injection Hr].
  - split; [done|]. intros [r [= ? _]]. congruence.
Qed.

(** [contains]: somewhere in the text. *)
Lemma str_contains_spec s p :
  str_contains s p = true <-> exists a b, bytes_of s = a ++ bytes_of p ++ b.
Proof.
  induction s as [|c s IH].
  - change (str_contains String.EmptyString p) with (String.prefix p String.EmptyString || false)%bool.
    rewrite orb_false_r, str_prefix_spec. split.
    + intros [r Hr]. by exists [], r.
    + intros (a & b & H). destruct a; [|done]. by exists b.
  - change (str_contains (String.String c s) p) with
      (String.prefix p (String.String c s) || str_contains s p)%bool.
    rewrite orb_true_iff, IH, str_prefix_spec. split.
    + intros [[r Hr]|(a & b & H)]; [by exists [], r|]. exists (c :: a), b. simpl. by rewrite H.
    + intros (a & b & H). destruct a as [|x a]; [left; by exists b|]. right. injection H as _ H. by exists a, b.
Qed.

Lemma after_first_some p l r :
  after_first p l = Some r -> exists a, l = a ++ p ++ r.
Proof.
  revert r. induction l as [|b l IH]; intros r; simpl.
  - destruct (strip p []) eqn:E; [|done]. intros [= ->]. exists []. by apply strip_some in E.
  - destruct (strip p (b :: l)) eqn:E; [intros [= ->]; exists []; by apply strip_some in E|].
    intros [a ->]%IH. by exists (b :: a).
Qed.

Lemma take_until_app f a l : forallb (fun b => negb (f b)) a = true -> take_until f (a ++ l) = a ++ take_until f l.
Proof.
  induction a as [|b a IH]; simpl; [done|]. rewrite andb_true_iff, negb_true_iff. intros [-> Ha]. by rewrite IH.
Qed.

Lemma count_while_spec f l n :
  (n <= count_while f l)%nat <-> exists a b, l = a ++ b /\ length a = n /\ forallb f a = true.
Proof.
  revert n. induction l as [|b l IH]; intros n; simpl.
  - split; [intros; exists [], []; split; [done|]; split; [simpl; lia|done]|].
    intros (a & c & H & Hn & _). destruct a; [simpl in Hn; lia|done].
  - destruct (f b) eqn:E.
    + split.
      * intros Hn. destruct n as [|n]; [by exists [], (b :: l)|].
        destruct (proj1 (IH n)) as (a & c & -> & Ha & Hf); [lia|]. exists (b :: a), c. simpl. by rewrite E, Ha.
      * intros (a & c & H & Hn & Hf). destruct n as [|n]; [lia|]. destruct a as [|x a]; [done|].
        injection H as <- ->. simpl in *. apply andb_true_iff in Hf as [_ Hf].
        apply le_n_S, IH. exists a, c. split; [done|]. split; [lia|done].
    + split.
      * intros Hn. exists [], (b :: l). split; [done|]. split; [simpl; lia|done].
      * intros (a & c & H & Hn & Hf). destruct a as [|x a]; [simpl in Hn; lia|].
        injection H as <- ->. simpl in Hf. by rewrite E in Hf.
Qed.

(** [str::strip_prefix]. *)
Definition strip_prefix (s p : string) : option string :=
  string_of <$> strip (bytes_of p) (bytes_of s).

(** [str::replace] of one ASCII character by another. *)
Definition replace_byte (a b : byte) (s : string) : string :=
  string_of ((fun c => if Ascii.eqb c a then b else c) <$> bytes_of s).

(** [str::split] at a character of one byte: one piece more than there are
    separators. *)
Fixpoint split_byte (c : byte) (l : list byte) : list (list byte) :=
  match l with
  | [] => [[]]
  | b :: l' =>
      let ps := split_byte c l' in
      if Ascii.eqb b c then [] :: ps
      else match ps with p :: ps' => (b :: p) :: ps' | [] => [[b]] end
  end.

(** [str::split_whitespace]: the maximal runs without white space; [cur] is the
    run being read. *)
Fixpoint words_with (fuel : nat) (cur l : list byte) : list (list byte) :=
  let flush := if Nat.eqb (length cur) 0 then [] else [cur] in
  match fuel, l with
  | O, _ | _, [] => flush
  | S n, b :: l' =>
      match strip_any whitespace l with
      | Some rest => flush ++ words_with n [] rest
      | None => words_with n (cur ++ [b]) l'
      end
  end.

Definition split_whitespace (s : string) : list string :=
  string_of <$> words_with (length (bytes_of s)) [] (bytes_of s).

(** [str::to_lowercase], as far as the source can see it: it compares the
    result with ASCII text, and the letters of ASCII, the Kelvin sign and the
    dotted capital I are all whose lower case has an ASCII character. *)
Fixpoint lower_bytes (fuel : nat) (l : list byte) : list byte :=
  match fuel, l with
  | S n, b :: l' =>
      match strip (utf8 [226; 132; 170]%nat) l with
      | Some rest => Ascii.ascii_of_nat 107 :: lower_bytes n rest
      | None =>
          match strip (utf8 [196; 176]%nat) l with
          | Some rest => utf8 [105; 204; 135]%nat ++ lower_bytes n rest
          | None => lower_byte b :: lower_bytes n l'
          end
      end
  | _, _ => []
  end.

Definition to_lowercase (s : string) : string :=
  string_of (lower_bytes (length (bytes_of s)) (bytes_of s)).

(** [rsplit(c).next()]: what follows the last occurrence, or everything. *)
Definition after_last (c : byte) (l : list byte) : list byte := default [] (last (split_byte c l)).

Lemma split_byte_free c l : forallb (fun b => negb (Ascii.eqb b c)) l = true -> split_byte c l = [l].
Proof.
  induction l as [|b l IH]; simpl; [done|]. rewrite andb_true_iff, negb_true_iff. intros [Hb Hl].
  by rewrite Hb, IH.
Qed.

Lemma split_byte_not_nil c l : split_byte c l <> [].
Proof. destruct l as [|b l]; simpl; [done|]. destruct (Ascii.eqb b c); [done|]. by destruct (split_byte c l). Qed.

Lemma split_byte_app c a l : split_byte c (a ++ c :: l) = split_byte c a ++ split_byte c l.
Proof.
  induction a as [|b a IH]; simpl; [by rewrite Ascii.eqb_refl|]. rewrite IH.
  destruct (Ascii.eqb b c); [done|]. pose proof (split_byte_not_nil c a). by destruct (split_byte c a).
Qed.

Lemma after_last_free c l : forallb (fun b => negb (Ascii.eqb b c)) l = true -> after_last c l = l.
Proof. intros Hl. unfold after_last. by rewrite split_byte_free. Qed.

Lemma after_last_app c a l : after_last c (a ++ c :: l) = after_last c l.
Proof.
  unfold after_last. rewrite split_byte_app, last_app. pose proof (split_byte_not_nil c l) as Hl.
  destruct (last (split_byte c l)) eqn:E; [done|]. by apply last_None in E.
Qed.

Lemma before_last_free c l : forallb (fun b => negb (Ascii.eqb b c)) l = true -> before_last c l = None.
Proof.
  induction l as [|b l IH]; simpl; [done|]. rewrite andb_true_iff, negb_true_iff. intros [Hb Hl]. by rewrite IH, Hb.
Qed.

Lemma before_last_app c a l :
  forallb (fun b => negb (Ascii.eqb b c)) l = true -> before_last c (a ++ c :: l) = Some a.
Proof.
  intros Hl. induction a as [|b a IH]; simpl; [by rewrite before_last_free, Ascii.eqb_refl|]. by rewrite IH.
Qed.

Example words_ex : split_whitespace " weekly  mon " = ["weekly"; "mon"]. Proof. reflexivity. Qed.
Example split_ex : split_byte (Ascii.ascii_of_nat 58) (bytes_of "9:30") = [bytes_of "9"; bytes_of "30"]. Proof. reflexivity. Qed.
Example lower_ex : to_lowercase "Daily 09:00" = "daily 09:00". Proof. reflexivity. Qed.

(** [chars().take(n).collect()] on UTF-8 bytes: a character is a byte and the
    continuation bytes ([10xxxxxx]) after it. *)
Definition is_continuation (b : byte) : bool :=
  let n := Ascii.nat_of_ascii b in (Nat.leb 128 n && Nat.ltb n 192)%bool.

Fixpoint take_chars (n : nat) (l : list byte) : list byte :=
  match l with
  | [] => []
  | b :: l' =>
      if is_continuation b then b :: take_chars n l'
      else match n with
           | O => []
           | S n' => b :: take_chars n' l'
           end
  end.

(** [str::is_char_boundary]; slicing anywhere else panics. *)
Definition is_char_boundary (k : nat) (l : list byte) : bool :=
  (Nat.eqb k 0 || Nat.eqb k (length l) ||
   match l !! k with Some b => negb (is_continuation b) | None => false end)%bool.

(** [chars().count()]. *)
Definition char_count (l : list byte) : nat :=
  length (List.filter (fun b => negb (is_continuation b)) l).

Definition truncate_chars (n : nat) (s : string) : string := string_of (take_chars n (bytes_of s)).

Lemma take_chars_count n l : (char_count (take_chars n l) <= n)%nat.
Proof.
  revert n. unfold char_count. induction l as [|b l IH]; intros n; simpl; [lia|].
  destruct (is_continuation b) eqn:Hb; simpl; [rewrite Hb; simpl; apply IH|].
  destruct n as [|n]; simpl; [lia|]. rewrite Hb. simpl. specialize (IH n). lia.
Qed.

Lemma take_chars_prefix n l : take_chars n l `prefix_of` l.
Proof.
  revert n. induction l as [|b l IH]; intros n; simpl; [done|].
  destruct (is_continuation b); [by apply prefix_cons|].
  destruct n; [apply prefix_nil|by apply prefix_cons].
Qed.

(** The decimal digits of a natural number ([Display for usize]). *)
Definition show_nat (n : nat) : string := pretty.pretty n.

Lemma show_nat_inj n m : show_nat n = show_nat m -> n = m.
Proof. apply (inj pretty.pretty). Qed.

(** The byte-wise order is a total order. *)
Lemma str_leb_trans a b c : str_leb a b = true -> str_leb b c = true -> str_leb a c = true.
Proof.
  unfold str_leb. revert b c.
  induction a as [|x a IH]; intros [|y b] [|z c]; simpl; try done.
  destruct (Nat.compare_spec (Ascii.nat_of_ascii x) (Ascii.nat_of_ascii y)) as [Hxy|Hxy|Hxy],
    (Nat.compare_spec (Ascii.nat_of_ascii y) (Ascii.nat_of_ascii z)) as [Hyz|Hyz|Hyz],
    (Nat.compare_spec (Ascii.nat_of_ascii x) (Ascii.nat_of_ascii z)) as [Hxz|Hxz|Hxz];
    try done; try lia. apply IH.
Qed.

Lemma str_leb_antisym a b : str_leb a b = true -> str_leb b a = true -> a = b.
Proof.
  unfold str_leb. rewrite (str_cmp_antisym a b). destruct (str_cmp a b) eqn:Hc; try done.
  intros _ _. by apply str_cmp_eq.
Qed.

Lemma trim_with_stop ws n l : strip_any ws l = None -> trim_with ws n l = l.
Proof. intros Hl. destruct n; simpl; [done|]. by rewrite Hl. Qed.

Lemma bytes_of_app a b : bytes_of (a +:+ b) = (bytes_of a ++ bytes_of b)%list.
Proof. induction a as [|x a IH]; [done|]. exact (f_equal (cons x) IH). Qed.

Lemma string_of_bytes s : string_of (bytes_of s) = s.
Proof. induction s as [|x s IH]; [done|]. exact (f_equal (String.String x) IH). Qed.

(** ** Lines that survive [lines] and [trim] *)

Lemma lines_from_app cur l x :
  lines_from cur ((l ++ [LF]) ++ x) = lines_from cur (l ++ [LF]) ++ lines x.
Proof.
  revert cur. induction l as [|b l IH]; intros cur; [done|]. cbn [app lines_from].
  destruct (Ascii.eqb b LF); [|apply IH]. rewrite <- app_comm_cons. by f_equal.
Qed.

Lemma lines_one l : LF ∉ l -> lines (l ++ [LF]) = [strip_cr l].
Proof.
  intros Hl. unfold lines. enough (Hg : forall cur, lines_from cur (l ++ [LF]) = [strip_cr (cur ++ l)]) by apply (Hg []).
  induction l as [|b l IH]; intros cur; cbn [app lines_from].
  - rewrite Ascii.eqb_refl. by rewrite app_nil_r.
  - destruct (Ascii.eqb_spec b LF) as [->|_]; [by destruct Hl; left|].
    rewrite IH by (intros ?; apply Hl; by right). by rewrite <- app_assoc.
Qed.

Lemma lines_last l : LF ∉ l -> l <> [] -> lines l = [l].
Proof.
  intros Hl Hne. unfold lines.
  enough (Hg : forall cur, cur ++ l <> [] -> lines_from cur l = [cur ++ l]) by by apply (Hg []).
  clear Hne. induction l as [|b l IH]; intros cur Hc; cbn [lines_from].
  - rewrite app_nil_r in *. by destruct cur.
  - destruct (Ascii.eqb_spec b LF) as [->|_]; [by destruct Hl; left|].
    rewrite IH, <- (assoc_L (++)); [done|by intros Hin; destruct Hl; right|by rewrite <- (assoc_L (++))].
Qed.

(** A visible ASCII byte begins and ends no white space. *)
Definition solid (b : byte) : bool := let n := Ascii.nat_of_ascii b in (Nat.leb 33 n && Nat.leb n 126)%bool.

Lemma strip_any_solid ws b l :
  Forall (fun w => match w with x :: _ => solid x = false | [] => False end) ws -> solid b = true -> strip_any ws (b :: l) = None.
Proof.
  intros Hws Hb. induction Hws as [|w ws Hw _ IH]; [done|]. cbn [strip_any].
  destruct w as [|x w]; [done|]. cbn [strip]. destruct (Ascii.eqb_spec x b) as [->|_]; [congruence|exact IH].
Qed.

Lemma trim_solid s a z l :
  bytes_of s = a :: l -> last (bytes_of s) = Some z -> solid a = true -> solid z = true -> trim s = s.
Proof.
  intros Hs Hz Ha Hb.
  assert (Hstart : trim_start s = s).
  { unfold trim_start. rewrite trim_with_stop, string_of_bytes; [done|]. rewrite Hs.
    apply strip_any_solid; [|done]. repeat constructor. }
  unfold trim. rewrite Hstart. unfold trim_end. rewrite trim_with_stop.
  { by rewrite reverse_involutive, string_of_bytes. }
  apply last_Some in Hz as [l' ->]. rewrite reverse_app. apply strip_any_solid; [|done]. repeat constructor.
Qed.
