(* ===== verification/TextProofs.v ===== *)
(** * TextProofs: what trimming leaves

    [str::trim] on bytes, the texts it leaves alone, and how they combine:
    facts shared by the readers of line-based files. *)

From stdpp Require Import base list strings.
From Stdlib Require Import ZArith Lia.
From S2P Require Import Prelude Text.

#[local] Open Scope list_scope.
#[local] Open Scope nat_scope.

(** [str::trim_start], [str::trim_end] and [str::trim] on bytes. *)
Definition trim_front (l : list byte) : list byte := trim_with whitespace (length l) l.
Definition back_whitespace : list (list byte) := reverse <$> whitespace.
Definition trim_back (l : list byte) : list byte := reverse (trim_with back_whitespace (length l) (reverse l)).
Definition trim_text (l : list byte) : list byte := trim_back (trim_front l).

Lemma str_len_string_of l : str_len (string_of l) = length l.
Proof. induction l; simpl; [done|]. by f_equal. Qed.

Lemma trim_string l : trim (string_of l) = string_of (trim_text l).
Proof.
  unfold trim, trim_end, trim_start, trim_text, trim_back, trim_front.
  by rewrite !str_len_string_of, !String.list_ascii_of_string_of_list_ascii.
Qed.

(** ** Character classes

    The characters of a class, none a prefix of another. *)

Record class (cs : list (list byte)) : Prop := mkClass {
  class_nonempty : Forall (fun c => c <> []) cs;
  class_prefix_free : forall a b, a ∈ cs -> b ∈ cs -> a `prefix_of` b -> a = b
}.

Lemma strip_any_some cs l r : strip_any cs l = Some r -> exists c, c ∈ cs /\ l = c ++ r.
Proof.
  induction cs as [|w cs IH]; [done|]. cbn. destruct (strip w l) as [r'|] eqn:Hs.
  - intros [= ->]. exists w. split; [by left|by apply strip_some].
  - intros (c & Hc & ->)%IH. exists c. split; [by right|done].
Qed.

Lemma app_prefix_either {A} (a b x y : list A) : a ++ x = b ++ y -> a `prefix_of` b \/ b `prefix_of` a.
Proof.
  intros H. destruct (app_eq_inv _ _ _ _ H) as [(k & -> & _)|(k & -> & _)]; [right|left]; by eexists.
Qed.

Lemma strip_any_char cs c r : class cs -> c ∈ cs -> strip_any cs (c ++ r) = Some r.
Proof.
  intros [_ Hf]. assert (Hsub : forall w, w ∈ cs -> w ∈ cs) by done. revert Hsub.
  generalize cs at 1 3 4. intros ds. induction ds as [|w ds IH]; intros Hsub Hc; [by apply elem_of_nil in Hc|]. cbn.
  destruct (strip w (c ++ r)) as [r'|] eqn:Hs.
  - apply strip_some in Hs. assert (Hw : w ∈ cs) by (apply Hsub; by left). assert (Hc' : c ∈ cs) by by apply Hsub.
    destruct (app_prefix_either _ _ _ _ Hs) as [Hp|Hp].
    + rewrite <- (Hf _ _ Hc' Hw Hp) in Hs. f_equal. symmetry. by apply (app_inv_head c).
    + rewrite (Hf _ _ Hw Hc' Hp) in Hs. f_equal. symmetry. by apply (app_inv_head c).
  - apply elem_of_cons in Hc as [->|Hc]; [by rewrite strip_app in Hs|]. apply IH; [|done]. intros x Hx. apply Hsub. by right.
Qed.

Definition prefix_free_b (cs : list (list byte)) : bool :=
  forallb (fun a => forallb (fun b => bool_decide (a = b) || negb (bool_decide (a `prefix_of` b)))%bool cs) cs.

Lemma class_decide cs : forallb (fun c => match c with [] => false | _ => true end) cs = true -> prefix_free_b cs = true -> class cs.
Proof.
  intros Hn Hp. split.
  - rewrite Forall_forall. intros c Hc. rewrite forallb_forall in Hn. apply list_elem_of_In in Hc. specialize (Hn c Hc). by destruct c.
  - intros a b Ha Hb Hab. unfold prefix_free_b in Hp. rewrite forallb_forall in Hp. apply list_elem_of_In in Ha, Hb.
    specialize (Hp a Ha). rewrite forallb_forall in Hp. specialize (Hp b Hb).
    apply orb_true_iff in Hp as [Hp|Hp]; [by apply bool_decide_eq_true in Hp|]. by rewrite bool_decide_true in Hp.
Qed.

Lemma white_class : class whitespace.
Proof. apply class_decide; vm_compute; reflexivity. Qed.

(** ** Texts that begin and end with something visible *)

Definition front_fixed (l : list byte) : Prop := strip_any whitespace l = None.
Definition back_fixed (l : list byte) : Prop := strip_any back_whitespace (reverse l) = None.
Definition fixed (l : list byte) : Prop := front_fixed l /\ back_fixed l.

Lemma whitespace_nonempty : Forall (fun w => w <> []) whitespace.
Proof. repeat constructor; discriminate. Qed.

Lemma back_whitespace_nonempty : Forall (fun w => w <> []) back_whitespace.
Proof. repeat constructor; discriminate. Qed.

Lemma fixed_nil : fixed [].
Proof. by split; vm_compute. Qed.

Lemma fixed_trim l : fixed l -> trim_text l = l.
Proof.
  intros [Hf Hb]. unfold trim_text, trim_front. rewrite (trim_with_stop _ _ _ Hf).
  unfold trim_back. by rewrite (trim_with_stop _ _ _ Hb), reverse_involutive.
Qed.

(** Trimming at the back keeps a prefix. *)
Lemma trim_with_suffix ws n l : exists p, l = p ++ trim_with ws n l.
Proof.
  revert l. induction n as [|n IH]; intros l; simpl; [by exists []|].
  destruct (strip_any ws l) as [r|] eqn:Hs; [|by exists []].
  destruct (IH r) as [p Hp]. enough (exists w, l = w ++ r) as [w ->].
  { exists (w ++ p). by rewrite <- (assoc_L (++)), <- Hp. }
  clear -Hs. induction ws as [|w ws IH]; [done|]. simpl in Hs. destruct (strip w l) eqn:Hw; [|by apply IH].
  injection Hs as ->. apply strip_some in Hw. by exists w.
Qed.

Lemma strip_any_prefix ws l x : strip_any ws (l ++ x) = None -> strip_any ws l = None.
Proof.
  induction ws as [|w ws IH]; [done|]. simpl. destruct (strip w l) as [r|] eqn:Hw.
  - apply strip_some in Hw as ->. by rewrite <- (assoc_L (++)), strip_app.
  - destruct (strip w (l ++ x)); [done|]. apply IH.
Qed.

Lemma trim_text_fixed l : fixed (trim_text l).
Proof.
  assert (Hf : front_fixed (trim_front l)) by (by apply trim_with_done; [apply whitespace_nonempty|]).
  unfold trim_text. split.
  - unfold front_fixed, trim_back. destruct (trim_with_suffix back_whitespace (length (trim_front l)) (reverse (trim_front l))) as [p Hp].
    apply (f_equal reverse) in Hp. rewrite reverse_involutive, reverse_app in Hp.
    unfold front_fixed in Hf. rewrite Hp in Hf. by apply strip_any_prefix in Hf.
  - unfold back_fixed, trim_back. rewrite reverse_involutive.
    apply trim_with_done; [apply back_whitespace_nonempty|by rewrite length_reverse].
Qed.

Lemma trim_text_idemp l : trim_text (trim_text l) = trim_text l.
Proof. apply fixed_trim, trim_text_fixed. Qed.

(** A fact of every byte is checked on the 256 of them. *)
Lemma all_bytes (f : byte -> bool) : forallb (fun n => f (Ascii.ascii_of_nat n)) (seq 0 256) = true -> forall b, f b = true.
Proof.
  intros H b. rewrite forallb_forall in H. rewrite <- (Ascii.ascii_nat_embedding b). apply H. apply in_seq.
  pose proof (Ascii.nat_ascii_bounded b). lia.
Qed.

Ltac by_bytes f :=
  match goal with b : _ |- _ =>
    let H := fresh in pose proof (all_bytes f ltac:(vm_compute; reflexivity) b) as H; cbv beta in H;
    rewrite implb_true_iff in H; exact H
  end.

(** A byte of ASCII. *)
Definition ascii (b : byte) : bool := Nat.ltb (Ascii.nat_of_ascii b) 128.

(** White space is one byte, or two or three beyond ASCII. *)
Lemma whitespace_wide :
  forallb (fun w => Nat.leb (length w) 1 || (Nat.leb (length w) 3 && forallb (fun b => negb (ascii b)) w)) whitespace = true.
Proof. vm_compute. reflexivity. Qed.

Lemma whitespace_cases w : w ∈ whitespace -> length w = 1 \/ length w <= 3 /\ forallb (fun b => negb (ascii b)) w = true.
Proof.
  intros Hw. pose proof whitespace_wide as Hall. rewrite forallb_elem in Hall. specialize (Hall w Hw).
  pose proof whitespace_nonempty as Hne. rewrite Forall_forall in Hne. specialize (Hne w Hw).
  bool_hyps. destruct Hall as [Hl|Hl]; bool_hyps; [left; destruct w; [done|simpl in *; lia]|by right].
Qed.

Lemma strip_any_none ws l w r : strip_any ws l = None -> w ∈ ws -> l <> w ++ r.
Proof.
  induction ws as [|v ws IH]; [by intros _ ?%not_elem_of_nil|]. simpl. destruct (strip v l) eqn:Hs; [done|].
  intros Hn [->|Hw]%elem_of_cons; [|by apply IH]. intros ->. by rewrite strip_app in Hs.
Qed.

Lemma strip_any_none_intro ws l : (forall w r, w ∈ ws -> l <> w ++ r) -> strip_any ws l = None.
Proof. intros H. destruct (strip_any ws l) as [r|] eqn:Hs; [|done]. apply strip_any_some in Hs as (w & Hw & ->). by destruct (H w r Hw). Qed.

Lemma app_both {A} (a b x y : list A) : a ++ x = b ++ y -> (exists k, a = b ++ k) \/ (exists k, b = a ++ k /\ x = k ++ y).
Proof. intros H. destruct (app_eq_inv _ _ _ _ H) as [(k & -> & ->)|(k & -> & ->)]; [left; by exists k|right; by exists k]. Qed.

(** What follows a text with a visible front does not blur it, if it goes on in ASCII. *)
Lemma front_fixed_app s b r : front_fixed s -> s <> [] -> ascii b = true -> front_fixed (s ++ b :: r).
Proof.
  intros Hs Hne Hb. apply strip_any_none_intro. intros w x Hw He. destruct (app_both _ _ _ _ He) as [[k Hk]|(k & -> & Hk)].
  - by apply (strip_any_none _ _ w k Hs Hw).
  - destruct k as [|c k]; [rewrite app_nil_r in Hw; by apply (strip_any_none _ _ s [] Hs Hw); rewrite app_nil_r|].
    injection Hk as <- _. destruct (whitespace_cases _ Hw) as [Hl|[_ Hl]].
    + rewrite length_app in Hl. destruct s; [done|simpl in Hl; lia].
    + rewrite forallb_app in Hl. simpl in Hl. rewrite Hb in Hl. simpl in Hl. by rewrite andb_false_r in Hl.
Qed.

(** What precedes a text with a visible end does not blur it, if it closes with
    two bytes of ASCII. *)
Lemma back_fixed_app q a b s : back_fixed s -> s <> [] -> ascii a = true -> ascii b = true -> back_fixed (q ++ a :: b :: s).
Proof.
  intros Hs Hne Ha Hb. unfold back_fixed in *.
  replace (q ++ a :: b :: s) with ((q ++ [a; b]) ++ s) by (by rewrite <- (assoc_L (++))).
  rewrite reverse_app, reverse_app. change (reverse [a; b]) with [b; a].
  apply strip_any_none_intro. intros v x Hv He.
  assert (Hlen : length (reverse s) >= 1) by (rewrite length_reverse; destruct s; simpl; [done|lia]).
  destruct (app_both _ _ _ _ He) as [[k Hk]|(k & Hvk & Hk)]; [by apply (strip_any_none _ _ v k Hs Hv)|].
  destruct k as [|c k]; [rewrite app_nil_r in Hvk; subst v; by apply (strip_any_none _ _ (reverse s) [] Hs Hv); rewrite app_nil_r|].
  apply list_elem_of_fmap in Hv as (w & -> & Hw).
  assert (Hc : c = b) by (by injection Hk as -> _). subst c.
  apply (f_equal (fun l => (length l, forallb (fun b => negb (ascii b)) l))) in Hvk.
  rewrite length_reverse, length_app, forallb_app in Hvk. simpl in Hvk. rewrite Hb, andb_false_r in Hvk.
  injection Hvk as Hl Hall. destruct (whitespace_cases _ Hw) as [H1|[_ H3]]; [lia|].
  enough (Hrev : forallb (fun b => negb (ascii b)) (reverse w) = true) by congruence.
  apply forallb_elem. intros y Hy%elem_of_reverse. rewrite reverse_involutive in Hy. rewrite forallb_elem in H3. exact (H3 y Hy).
Qed.

(** A visible ASCII byte at an end. *)
Lemma front_fixed_solid b l : solid b = true -> front_fixed (b :: l).
Proof. apply strip_any_solid. repeat constructor. Qed.

Lemma back_fixed_solid l b : solid b = true -> back_fixed (l ++ [b]).
Proof. intros Hb. unfold back_fixed. rewrite reverse_snoc. apply strip_any_solid; [repeat constructor|done]. Qed.

(** A space behind is trimmed. *)
Definition gap : byte := Ascii.ascii_of_nat 32.

Lemma trim_trailing_blank l : fixed l -> l <> [] -> trim_text (l ++ [gap]) = l.
Proof.
  intros [Hf Hb] Hne. unfold trim_text, trim_front.
  assert (Hff : front_fixed (l ++ [gap])) by (by apply front_fixed_app).
  rewrite (trim_with_stop _ _ _ Hff). unfold trim_back. rewrite length_app, reverse_snoc.
  replace (length l + length [gap]) with (S (length l)) by (simpl; lia). cbn [trim_with].
  assert (Hs : strip_any back_whitespace (gap :: reverse l) = Some (reverse l)) by reflexivity.
  rewrite Hs, (trim_with_stop _ _ _ Hb). apply reverse_involutive.
Qed.

Lemma trim_leading_blank l : fixed l -> trim_text (gap :: l) = l.
Proof.
  intros Hl. unfold trim_text, trim_front. cbn [length trim_with].
  assert (Hs : strip_any whitespace (gap :: l) = Some l) by reflexivity.
  rewrite Hs, (trim_with_stop _ _ _ (proj1 Hl)). unfold trim_back.
  by rewrite (trim_with_stop _ _ _ (proj2 Hl)), reverse_involutive.
Qed.

(** ** Lines

    Texts of one line, and the text of several. *)

Definition unlines (ls : list (list byte)) : list byte := concat ((fun l => l ++ [LF])%list <$> ls).

Definition plain (l : list byte) : Prop := (LF ∉ l) /\ (CR ∉ l).

Lemma strip_cr_plain l : CR ∉ l -> strip_cr l = l.
Proof.
  intros Hl. unfold strip_cr. destruct (last l) as [c|] eqn:Hc; [|done]. destruct (Ascii.eqb_spec c CR) as [->|]; [|done].
  apply last_Some in Hc as [l' ->]. destruct Hl. apply elem_of_app. right. by apply list_elem_of_singleton.
Qed.

Lemma lines_unlines ls : Forall plain ls -> lines (unlines ls) = ls.
Proof.
  induction 1 as [|l ls [Hl Hc] _ IH]; [done|]. unfold unlines in *. cbn [fmap list_fmap concat].
  unfold lines at 1. rewrite lines_from_app. change (lines_from [] (l ++ [LF])) with (lines (l ++ [LF])).
  by rewrite lines_one, strip_cr_plain, IH.
Qed.

Lemma lines_from_plain cur l : plain cur -> CR ∉ l -> Forall plain (lines_from cur l).
Proof.
  revert cur. induction l as [|b l IH]; intros cur Hcur Hl; cbn [lines_from].
  - destruct cur; [constructor|by apply Forall_singleton].
  - apply not_elem_of_cons in Hl as [Hb Hl]. destruct (Ascii.eqb_spec b LF) as [->|Hlf].
    + constructor; [rewrite strip_cr_plain; [done|apply Hcur]|]. apply IH; [|done]. split; by intros ?%not_elem_of_nil.
    + apply IH; [|done]. destruct Hcur as [H1 H2]. split; rewrite elem_of_app, list_elem_of_singleton; intros [H|H]; done.
Qed.

Lemma lines_plain content : CR ∉ content -> Forall plain (lines content).
Proof. intros H. apply lines_from_plain; [|done]. split; by intros ?%not_elem_of_nil. Qed.

Lemma unlines_app a b : unlines (a ++ b) = unlines a ++ unlines b.
Proof. unfold unlines. by rewrite fmap_app, concat_app. Qed.

Lemma plain_app a b : plain (a ++ b) <-> plain a /\ plain b.
Proof. unfold plain. rewrite !not_elem_of_app. tauto. Qed.

(** ** Numbers *)

Lemma parse_uint_range hi s n : parse_uint hi s = Some n -> (0 <= n <= hi)%Z.
Proof.
  unfold parse_uint. destruct (bytes_of s); [done|]. destruct (Nat.eqb _ 45); [done|]. unfold parse_int.
  intros Hn. repeat case_match; simplify_eq; bool_hyps; lia.
Qed.

(** ** Trimming and lines

    No character of white space begins inside another, so what is trimmed in
    one place is trimmed in any. *)

Lemma back_class : class back_whitespace.
Proof. apply class_decide; vm_compute; reflexivity. Qed.

Lemma whitespace_continues :
  forallb (fun w => match w with b :: l => negb (is_continuation b) && forallb is_continuation l | [] => false end) whitespace = true.
Proof. vm_compute. reflexivity. Qed.

(** More fuel changes nothing. *)
Lemma trim_with_nil ws n : Forall (fun w => w <> []) ws -> trim_with ws n [] = [].
Proof.
  intros Hws. apply trim_with_stop. destruct (strip_any ws []) as [r|] eqn:Hs; [|done].
  apply (strip_any_length ws [] r Hws) in Hs. simpl in Hs. lia.
Qed.

Lemma trim_with_fuel ws n m l :
  Forall (fun w => w <> []) ws -> length l <= n -> length l <= m -> trim_with ws n l = trim_with ws m l.
Proof.
  intros Hws. revert m l. induction n as [|n IH]; intros m l Hn Hm.
  - destruct l; [by rewrite !trim_with_nil|simpl in Hn; lia].
  - destruct m as [|m]; [destruct l; [by rewrite !trim_with_nil|simpl in Hm; lia]|]. simpl.
    destruct (strip_any ws l) as [r|] eqn:Hs; [|done]. pose proof (strip_any_length ws l r Hws Hs). apply IH; lia.
Qed.

Lemma trim_front_step l r : strip_any whitespace l = Some r -> trim_front l = trim_front r.
Proof.
  intros Hs. pose proof (strip_any_length _ _ _ whitespace_nonempty Hs) as Hl. unfold trim_front.
  destruct l as [|b l]; [done|]. simpl length at 1. cbn [trim_with]. rewrite Hs. simpl in Hl.
  apply trim_with_fuel; [apply whitespace_nonempty|lia|lia].
Qed.

Lemma trim_front_white w l : w ∈ whitespace -> trim_front (w ++ l) = trim_front l.
Proof. intros Hw. by apply trim_front_step, (strip_any_char _ _ _ white_class). Qed.

Lemma trim_back_white l w : w ∈ whitespace -> trim_back (l ++ w) = trim_back l.
Proof.
  intros Hw. unfold trim_back. f_equal. rewrite reverse_app, length_app.
  assert (Hb : reverse w ∈ back_whitespace) by (by apply list_elem_of_fmap_2).
  pose proof whitespace_nonempty as Hne. rewrite Forall_forall in Hne. specialize (Hne w Hw).
  replace (length l + length w) with (S (length l + length w - 1)) by (destruct w; [done|simpl; lia]).
  cbn [trim_with]. rewrite (strip_any_char _ _ _ back_class Hb).
  apply trim_with_fuel; [apply back_whitespace_nonempty|rewrite length_reverse; destruct w; [done|simpl; lia]|by rewrite length_reverse].
Qed.

(** The first bytes of characters begin no character's continuation. *)
Lemma front_fixed_white l w : front_fixed l -> l <> [] -> w ∈ whitespace -> front_fixed (l ++ w).
Proof.
  intros Hl Hne Hw. apply strip_any_none_intro. intros v x Hv He. destruct (app_both _ _ _ _ He) as [[k Hk]|(k & -> & Hk)].
  - by apply (strip_any_none _ _ v k Hl Hv).
  - pose proof whitespace_continues as Hall. rewrite forallb_elem in Hall. pose proof (Hall w Hw) as Hcw. specialize (Hall _ Hv).
    destruct k as [|b k]; [rewrite app_nil_r in Hv; by apply (strip_any_none _ _ l [] Hl Hv); rewrite app_nil_r|].
    destruct l as [|c l]; [done|]. destruct w as [|b' w]; [done|]. injection Hk as -> _.
    simpl in Hall. rewrite forallb_app in Hall. simpl in Hall. bool_hyps. congruence.
Qed.

(** White space at either end makes no difference. *)
Lemma trim_front_app l w : w ∈ whitespace -> trim_front (l ++ w) = match trim_front l with [] => [] | m => m ++ w end.
Proof.
  intros Hw. remember (length l) as n eqn:Hn. assert (Hle : length l <= n) by lia. clear Hn. revert l Hle.
  induction n as [|n IH]; intros l Hle.
  - destruct l; [|simpl in Hle; lia]. simpl. rewrite <- (app_nil_r w). by rewrite trim_front_white.
  - destruct (strip_any whitespace l) as [r|] eqn:Hs.
    + pose proof (strip_any_length _ _ _ whitespace_nonempty Hs). rewrite (trim_front_step l r Hs).
      apply strip_any_some in Hs as (v & Hv & ->). rewrite <- (assoc_L (++)), trim_front_white by done. apply IH. lia.
    + assert (Hl : trim_front l = l) by (by apply trim_with_stop). rewrite Hl. destruct l as [|b l]; [by apply (IH []); simpl; lia|].
      by apply trim_with_stop, front_fixed_white.
Qed.

Lemma trim_text_white_front w l : w ∈ whitespace -> trim_text (w ++ l) = trim_text l.
Proof. intros Hw. unfold trim_text. by rewrite trim_front_white. Qed.

Lemma trim_text_white_back l w : w ∈ whitespace -> trim_text (l ++ w) = trim_text l.
Proof.
  intros Hw. unfold trim_text. rewrite trim_front_app by done. destruct (trim_front l) as [|b m] eqn:Hm; [done|].
  by apply trim_back_white.
Qed.

(** A text that ends visibly is not trimmed away. *)
Lemma trim_text_nonempty l : back_fixed l -> l <> [] -> trim_text l <> [].
Proof.
  intros Hb Hne. assert (Hsuf : exists p, l = p ++ trim_front l) by apply trim_with_suffix. destruct Hsuf as [p Hp].
  assert (Hf : trim_front l <> []).
  { intros Hnil. revert Hb. clear Hp. remember (length l) as n eqn:Hn. assert (Hle : length l <= n) by lia. clear Hn.
    revert l Hle Hne Hnil. induction n as [|n IH]; intros l Hle Hne Hnil Hb; [by destruct l; simpl in Hle; [|lia]|].
    destruct (strip_any whitespace l) as [r|] eqn:Hs.
    - pose proof (strip_any_length _ _ _ whitespace_nonempty Hs). rewrite (trim_front_step _ _ Hs) in Hnil.
      apply strip_any_some in Hs as (w & Hw & ->). destruct r as [|b r].
      + unfold back_fixed in Hb. rewrite app_nil_r in Hb. rewrite <- (app_nil_r (reverse w)) in Hb.
        rewrite (strip_any_char _ _ _ back_class) in Hb; [done|]. by apply list_elem_of_fmap_2.
      + apply (IH (b :: r)); [lia|done|done|]. unfold back_fixed in *. rewrite reverse_app in Hb. by apply strip_any_prefix in Hb.
    - unfold trim_front in Hnil. by rewrite (trim_with_stop _ _ _ Hs) in Hnil. }
  assert (Hbf : back_fixed (trim_front l)).
  { unfold back_fixed in *. rewrite Hp, reverse_app in Hb. by apply strip_any_prefix in Hb. }
  unfold trim_text, trim_back. rewrite (trim_with_stop _ _ _ Hbf), reverse_involutive. done.
Qed.
