(* ===== verification/Permissions.v ===== *)
(** * Permissions: [permissions/manager.rs] and [permissions/gate.rs]

    Module [Manager] holds the permission rules of the daemon: the rule
    glob, rule matching, the decision procedure and the operations that edit
    the rules.  Module [Gate] is the table of prompts waiting for a user. *)

From stdpp Require Import base gmap strings list fin_maps.
From Stdlib Require Import ZArith Lia.
From S2P Require Import Prelude Text.

#[local] Open Scope Z_scope.

(** ** Glob patterns *)

Module Glob.

(** The byte [*]. *)
Definition star : byte := Ascii.ascii_of_nat 42.

(** Reference semantics: [*] stands for any byte sequence, any other byte for
    itself up to ASCII case. *)
Inductive matches : list byte -> list byte -> Prop :=
| m_nil : matches [] []
| m_star p t1 t2 : matches p t2 -> matches (star :: p) (t1 ++ t2)
| m_byte b p c t : b <> star -> byte_eq_ci b c = true -> matches p t ->
    matches (b :: p) (c :: t).

(** The dynamic-programming table [dp : Vec<Vec<bool>>]; the loops of
    [glob_matches] only index inside it. *)
Abbreviation table := (list (list bool)).

Definition dp_get (dp : table) (i j : nat) : bool :=
  default false (dp !! i ≫= fun row => row !! j).

Definition dp_set (dp : table) (i j : nat) (v : bool) : table :=
  alter (fun row : list bool => <[j := v]> row) i dp.

Definition pat_at (p : list byte) (i : nat) : byte := nth i p Ascii.zero.

(** The first-column loop of [glob_matches]. *)
Definition column_step (p : list byte) (dp : table) (i : nat) : table :=
  if Ascii.eqb (pat_at p (i - 1)) star then dp_set dp i 0 (dp_get dp (i - 1) 0) else dp.

(** The body of the double loop at [(i, j)]. *)
Definition cell_step (p t : list byte) (i : nat) (dp : table) (j : nat) : table :=
  if Ascii.eqb (pat_at p (i - 1)) star then
    dp_set dp i j (dp_get dp (i - 1) j || dp_get dp i (j - 1))
  else if byte_eq_ci (pat_at p (i - 1)) (pat_at t (j - 1)) then
    dp_set dp i j (dp_get dp (i - 1) (j - 1))
  else dp.

Definition row_step (p t : list byte) (dp : table) (i : nat) : table :=
  foldl (cell_step p t i) dp (seq 1 (length t)).

Definition glob_matches (pattern text : string) : bool :=
  let p := bytes_of pattern in
  let t := bytes_of text in
  let p_len := length p in
  let t_len := length t in
  let dp := replicate (S p_len) (replicate (S t_len) false) in
  let dp := dp_set dp 0 0 true in
  let dp := foldl (column_step p) dp (seq 1 p_len) in
  let dp := foldl (row_step p t) dp (seq 1 p_len) in
  dp_get dp p_len t_len.

Example glob_ex1 : glob_matches "*git *" "{cmd:GIT status}" = true.
Proof. vm_compute. reflexivity. Qed.
Example glob_ex2 : glob_matches "a*b" "abc" = false.
Proof. vm_compute. reflexivity. Qed.

(** *** Reference lemmas *)

Lemma matches_app p1 p2 t :
  matches (p1 ++ p2) t <-> exists t1 t2, t = t1 ++ t2 /\ matches p1 t1 /\ matches p2 t2.
Proof.
  split.
  - remember (p1 ++ p2) as p eqn:Hp. intros H. revert p1 Hp.
    induction H as [|p t1 t2 H IH|b p c t Hb Hc H IH]; intros p1 Hp.
    + symmetry in Hp. apply app_eq_nil in Hp as [-> ->].
      exists [], []. repeat split; constructor.
    + destruct p1 as [|x p1]; simplify_eq/=.
      * exists [], (t1 ++ t2). repeat split; by constructor.
      * destruct (IH p1 eq_refl) as (u1 & u2 & -> & H1 & H2).
        exists (t1 ++ u1), u2. rewrite (assoc_L (++)). repeat split; by try constructor.
    + destruct p1 as [|x p1]; simplify_eq/=.
      * exists [], (c :: t). repeat split; by constructor.
      * destruct (IH p1 eq_refl) as (u1 & u2 & -> & H1 & H2).
        exists (c :: u1), u2. repeat split; by try constructor.
  - intros (t1 & t2 & -> & H1 & H2). induction H1; simpl; [done| |].
    + rewrite <- (assoc_L (++)). by constructor.
    + by constructor.
Qed.

Lemma matches_star t : matches [star] t.
Proof. rewrite <- (app_nil_r t). constructor. constructor. Qed.

Lemma matches_byte b t :
  b <> star -> matches [b] t <-> exists c, t = [c] /\ byte_eq_ci b c = true.
Proof.
  intros Hb. split.
  - intros H. inversion H as [| |? ? ? ? ? ? H']; simplify_eq. inversion H'; eauto.
  - intros (c & -> & ?). by repeat constructor.
Qed.

Lemma matches_nil_l t : matches [] t <-> t = [].
Proof. split; [by inversion 1|intros ->; constructor]. Qed.

(** The recurrence of the table, at the reference level: one more pattern
    byte against one more text byte. *)
Lemma matches_snoc_star_nil p : matches (p ++ [star]) [] <-> matches p [].
Proof.
  rewrite matches_app. split.
  - intros (t1 & t2 & Ht & H & _). symmetry in Ht. by apply app_eq_nil in Ht as [-> ->].
  - intros H. exists [], []. repeat split; [done|]. apply (matches_star []).
Qed.

Lemma matches_snoc_byte_nil b p : b <> star -> ~ matches (p ++ [b]) [].
Proof.
  intros Hb H. apply matches_app in H as (t1 & t2 & Ht & _ & H).
  apply matches_byte in H as (c & -> & _); [|done]. by destruct t1.
Qed.

Lemma matches_snoc_star p t c :
  matches (p ++ [star]) (t ++ [c]) <-> matches p (t ++ [c]) \/ matches (p ++ [star]) t.
Proof.
  rewrite !matches_app. split.
  - intros (t1 & t2 & Ht & H & _). destruct t2 as [|x t2 _] using rev_ind.
    + left. rewrite app_nil_r in Ht. by rewrite Ht.
    + right. rewrite (assoc_L (++)) in Ht. apply app_inj_tail in Ht as [-> ->].
      exists t1, t2. repeat split; [done|apply matches_star].
  - intros [H|(t1 & t2 & -> & H & _)].
    + exists (t ++ [c]), []. rewrite app_nil_r. repeat split; [done|apply matches_star].
    + exists t1, (t2 ++ [c]). rewrite (assoc_L (++)). repeat split; [done|apply matches_star].
Qed.

Lemma matches_snoc_byte b p t c :
  b <> star ->
  matches (p ++ [b]) (t ++ [c]) <-> matches p t /\ byte_eq_ci b c = true.
Proof.
  intros Hb. rewrite matches_app. split.
  - intros (t1 & t2 & Ht & H & H2). apply matches_byte in H2 as (d & -> & ?); [|done].
    by apply app_inj_tail in Ht as [-> ->].
  - intros [H Hc]. exists t, [c]. split; [done|]. split; [done|].
    apply matches_byte; eauto.
Qed.

Lemma take_snoc (l : list byte) i x :
  (i < length l)%nat -> take (S i) l = take i l ++ [nth i l x].
Proof.
  intros Hi. destruct (lookup_lt_is_Some_2 l i Hi) as [y Hy].
  rewrite (take_S_r _ _ _ Hy). do 2 f_equal.
  symmetry. rewrite <- (nth_lookup_Some l i x y Hy). done.
Qed.

(** *** The table invariant *)

Section Table.
Variables p t : list byte.

Definition shape (dp : table) : Prop :=
  length dp = S (length p) /\ Forall (fun row => length row = S (length t)) dp.

(** Entry [(i, j)] already holds its final value: "the first [i] pattern
    bytes match the first [j] text bytes". *)
Definition correct_at (dp : table) (i j : nat) : Prop :=
  dp_get dp i j = true <-> matches (take i p) (take j t).

Lemma dp_get_set dp i j v i' j' :
  shape dp -> (i <= length p)%nat -> (j <= length t)%nat ->
  dp_get (dp_set dp i j v) i' j' =
    if bool_decide (i = i' /\ j = j') then v else dp_get dp i' j'.
Proof.
  intros [Hlen Hrows] Hi Hj. unfold dp_get, dp_set.
  destruct (decide (i = i')) as [<-|Hne].
  - rewrite list_lookup_alter_eq.
    destruct (lookup_lt_is_Some_2 dp i ltac:(lia)) as [row Hrow]. rewrite Hrow. simpl.
    pose proof (proj1 (Forall_lookup _ dp) Hrows i row Hrow) as Hrl. simpl in Hrl.
    destruct (decide (j = j')) as [<-|Hnj].
    + rewrite list_lookup_insert_eq by lia. by rewrite bool_decide_true.
    + rewrite list_lookup_insert_ne by done. rewrite bool_decide_false; [done|by intros [? ?]].
  - rewrite list_lookup_alter_ne by done. rewrite bool_decide_false; [done|by intros [? ?]].
Qed.

Lemma dp_set_shape dp i j v : shape dp -> shape (dp_set dp i j v).
Proof.
  intros [Hlen Hrows]. split; unfold dp_set; [by rewrite length_alter|].
  apply Forall_alter; [done|]. intros row _ Hl. by rewrite length_insert.
Qed.

(** The loop invariant: column 0, the rows above [i] and row [i] up to
    column [j] are final; every other cell is still [false]. *)
Definition done_at (i j i' j' : nat) : Prop :=
  j' = 0%nat \/ (i' < i)%nat \/ (i' = i /\ (j' <= j)%nat).

Definition table_inv (i j : nat) (dp : table) : Prop :=
  shape dp /\
  forall i' j', (i' <= length p)%nat -> (j' <= length t)%nat ->
    (done_at i j i' j' -> correct_at dp i' j') /\
    (~ done_at i j i' j' -> dp_get dp i' j' = false).

Definition column_inv (i : nat) (dp : table) : Prop :=
  shape dp /\
  forall i' j', (i' <= length p)%nat -> (j' <= length t)%nat ->
    (j' = 0%nat -> (i' <= i)%nat -> correct_at dp i' 0) /\
    (j' <> 0%nat \/ (i < i')%nat -> dp_get dp i' j' = false).

Lemma pat_at_take (l : list byte) i :
  (1 <= i <= length l)%nat -> take i l = take (i - 1) l ++ [pat_at l (i - 1)].
Proof.
  intros Hi. replace i with (S (i - 1)) at 1 by lia. apply take_snoc. lia.
Qed.

Lemma initial_table_column_inv :
  column_inv 0 (dp_set (replicate (S (length p)) (replicate (S (length t)) false)) 0 0 true).
Proof.
  set (dp := replicate _ _).
  assert (Hs : shape dp).
  { split; [apply length_replicate|]. apply Forall_replicate. apply length_replicate. }
  assert (Hf : forall i' j', dp_get dp i' j' = false).
  { intros i' j'. unfold dp_get. destruct (dp !! i') as [row|] eqn:Hr; [|done].
    apply lookup_replicate in Hr as [-> _].
    change (default false (replicate (S (length t)) false !! j') = false).
    destruct (replicate (S (length t)) false !! j') as [b|] eqn:Hb; [|done].
    by apply lookup_replicate in Hb as [-> _]. }
  split; [by apply dp_set_shape|]. intros i' j' Hi Hj. split.
  - intros -> Hi0. replace i' with 0%nat by lia. unfold correct_at.
    rewrite dp_get_set, bool_decide_true by (done || lia). split; [constructor|done].
  - intros Hor. rewrite dp_get_set by (done || lia).
    rewrite bool_decide_false; [apply Hf|lia].
Qed.

Lemma column_step_inv i dp :
  (1 <= i <= length p)%nat -> column_inv (i - 1) dp -> column_inv i (column_step p dp i).
Proof.
  intros Hi [Hs Hc]. unfold column_step.
  assert (Hm : matches (take i p) [] <->
               pat_at p (i - 1) = star /\ matches (take (i - 1) p) []).
  { rewrite (pat_at_take p i Hi). split.
    - intros H. destruct (decide (pat_at p (i - 1) = star)) as [He|Hne].
      + split; [done|]. rewrite He in H. by rewrite <- matches_snoc_star_nil.
      + by apply matches_snoc_byte_nil in H.
    - intros [-> H]. by rewrite matches_snoc_star_nil. }
  destruct (Ascii.eqb_spec (pat_at p (i - 1)) star) as [He|Hne].
  - split; [by apply dp_set_shape|]. intros i' j' Hi' Hj'.
    unfold correct_at. rewrite !dp_get_set by (done || lia). split.
    + intros -> Hle. destruct (decide (i = i')) as [<-|Hne'].
      * rewrite bool_decide_true by done. rewrite take_0, Hm.
        destruct (Hc (i - 1)%nat 0%nat ltac:(lia) ltac:(lia)) as [Hc0 _].
        specialize (Hc0 eq_refl ltac:(lia)). unfold correct_at in Hc0.
        rewrite take_0 in Hc0. tauto.
      * rewrite bool_decide_false by lia. apply (Hc i' 0%nat); lia.
    + intros Hor. rewrite bool_decide_false by lia. apply (Hc i' j'); lia.
  - split; [done|]. intros i' j' Hi' Hj'. split.
    + intros -> Hle. destruct (decide (i = i')) as [<-|Hne']; [|apply (Hc i' 0%nat); lia].
      unfold correct_at. rewrite take_0, Hm.
      rewrite (proj2 (Hc i 0%nat ltac:(lia) ltac:(lia)) ltac:(lia)).
      split; [done|by intros [? _]].
    + intros Hor. apply (Hc i' j'); lia.
Qed.

Lemma column_to_table dp : column_inv (length p) dp -> table_inv 0 (length t) dp.
Proof.
  intros [Hs Hc]. split; [done|]. intros i' j' Hi Hj.
  destruct (Hc i' j' Hi Hj) as [H1 H2]. split.
  - intros Hd. destruct (decide (j' = 0%nat)) as [->|Hne]; [by apply H1|].
    destruct Hd as [?|[?|[-> _]]]; [lia|lia|].
    unfold correct_at. rewrite H2 by lia. rewrite take_0, matches_nil_l.
    split; [done|]. intros Ht. apply (f_equal length) in Ht.
    rewrite length_take in Ht. simpl in Ht. lia.
  - intros Hn. apply H2. unfold done_at in Hn. lia.
Qed.

Lemma table_inv_next_row i dp : table_inv (i - 1) (length t) dp -> (1 <= i)%nat ->
  table_inv i 0 dp.
Proof.
  intros [Hs Hc] Hi. split; [done|]. intros i' j' Hi' Hj'.
  destruct (Hc i' j' Hi' Hj') as [H1 H2]. unfold done_at in *. split.
  - intros Hd. apply H1. lia.
  - intros Hd. apply H2. lia.
Qed.

(** What one visit of the double loop must store at [(i, j)]. *)
Lemma cell_recurrence i j dp :
  (1 <= i <= length p)%nat -> (1 <= j <= length t)%nat -> table_inv i (j - 1) dp ->
  (pat_at p (i - 1) = star ->
     dp_get dp (i - 1) j || dp_get dp i (j - 1) = true <-> matches (take i p) (take j t)) /\
  (pat_at p (i - 1) <> star ->
     byte_eq_ci (pat_at p (i - 1)) (pat_at t (j - 1)) = true ->
     dp_get dp (i - 1) (j - 1) = true <-> matches (take i p) (take j t)) /\
  (pat_at p (i - 1) <> star ->
     byte_eq_ci (pat_at p (i - 1)) (pat_at t (j - 1)) = false ->
     ~ matches (take i p) (take j t)).
Proof.
  intros Hi Hj [Hs Hc].
  assert (H1 : correct_at dp (i - 1) j) by (apply Hc; unfold done_at; lia).
  assert (H2 : correct_at dp i (j - 1)) by (apply Hc; unfold done_at; lia).
  assert (H3 : correct_at dp (i - 1) (j - 1)) by (apply Hc; unfold done_at; lia).
  unfold correct_at in *. rewrite (pat_at_take p i Hi), (pat_at_take t j Hj).
  rewrite (pat_at_take t j Hj) in H1. rewrite (pat_at_take p i Hi) in H2.
  repeat split.
  - intros Ho. rewrite H in *. apply orb_true_iff in Ho. apply matches_snoc_star. tauto.
  - intros Hm. rewrite H in *. apply orb_true_iff. apply matches_snoc_star in Hm. tauto.
  - intros Hd. apply matches_snoc_byte; tauto.
  - intros Hm. apply matches_snoc_byte in Hm; tauto.
  - intros Hne Hci Hm. apply matches_snoc_byte in Hm; [|done]. destruct Hm. congruence.
Qed.

Lemma cell_step_inv i j dp :
  (1 <= i <= length p)%nat -> (1 <= j <= length t)%nat ->
  table_inv i (j - 1) dp -> table_inv i j (cell_step p t i dp j).
Proof.
  intros Hi Hj HI. destruct (cell_recurrence i j dp Hi Hj HI) as (Hstar & Hbyte & Hno).
  destruct HI as [Hs Hc].
  assert (Hset : forall v, (v = true <-> matches (take i p) (take j t)) ->
                 table_inv i j (dp_set dp i j v)).
  { intros v Hv. split; [by apply dp_set_shape|]. intros i' j' Hi' Hj'.
    destruct (Hc i' j' Hi' Hj') as [H1 H2].
    unfold correct_at in *. rewrite dp_get_set by (done || lia). unfold done_at in *.
    case_bool_decide as Hd.
    - destruct Hd as [<- <-]. split; [done|lia].
    - split; intros Hx; [apply H1|apply H2]; lia. }
  unfold cell_step. destruct (Ascii.eqb_spec (pat_at p (i - 1)) star) as [He|Hne].
  - apply Hset. by apply Hstar.
  - destruct (byte_eq_ci _ _) eqn:Hci.
    + apply Hset. by apply Hbyte.
    + split; [done|]. intros i' j' Hi' Hj'. destruct (Hc i' j' Hi' Hj') as [H1 H2].
      unfold done_at in *. split; intros Hx; [|apply H2; lia].
      destruct (decide (i' = i /\ j' = j)) as [[-> ->]|Hd]; [|apply H1; lia].
      unfold correct_at. rewrite H2 by lia. split; [done|]. intros Hm. by apply Hno in Hm.
Qed.

Lemma row_step_inv i dp :
  (1 <= i <= length p)%nat -> table_inv (i - 1) (length t) dp ->
  table_inv i (length t) (row_step p t dp i).
Proof.
  intros Hi HI. unfold row_step.
  apply (foldl_seq_invariant (fun j dp => table_inv i j dp)).
  - apply table_inv_next_row; [done|lia].
  - intros j a Hj. by apply cell_step_inv.
Qed.

Lemma fill_table_inv :
  let dp0 := replicate (S (length p)) (replicate (S (length t)) false) in
  let dp1 := dp_set dp0 0 0 true in
  let dp2 := foldl (column_step p) dp1 (seq 1 (length p)) in
  table_inv (length p) (length t) (foldl (row_step p t) dp2 (seq 1 (length p))).
Proof.
  intros dp0 dp1 dp2.
  apply (foldl_seq_invariant (fun i dp => table_inv i (length t) dp)).
  - apply column_to_table.
    apply (foldl_seq_invariant (fun i dp => column_inv i dp)).
    + apply initial_table_column_inv.
    + intros i a Hi. by apply column_step_inv.
  - intros i a Hi. by apply row_step_inv.
Qed.
End Table.

Lemma glob_matches_iff pattern text :
  glob_matches pattern text = true <-> matches (bytes_of pattern) (bytes_of text).
Proof.
  unfold glob_matches.
  pose proof (fill_table_inv (bytes_of pattern) (bytes_of text)) as [_ Hc].
  destruct (Hc _ _ (le_n _) (le_n _)) as [H _].
  unfold correct_at in H. rewrite !firstn_all in H. apply H.
  right. right. split; [done|apply le_n].
Qed.

(** Without [*] a pattern is a case-insensitive literal. *)
Lemma matches_literal p t :
  star ∉ p -> matches p t <-> Forall2 (fun b c => byte_eq_ci b c = true) p t.
Proof.
  intros Hp. split.
  - intros H. induction H; [constructor|set_solver|]. constructor; [done|set_solver].
  - induction 1; [constructor|]. constructor; [set_solver|done|set_solver].
Qed.

Lemma eq_ci_forall2 a b :
  eq_ignore_ascii_case a b = true <->
  Forall2 (fun x y => byte_eq_ci x y = true) (bytes_of a) (bytes_of b).
Proof.
  revert b. induction a as [|x a IH]; intros [|y b]; simpl.
  - split; [constructor|done].
  - split; [done|inversion 1].
  - split; [done|inversion 1].
  - rewrite andb_true_iff, IH, Forall2_cons. done.
Qed.

(** Claim C1. [glob_matches] decides the reference semantics of patterns: the
    cells the nested loops fill say "this pattern prefix matches this text
    prefix", so the last cell is the answer; and a pattern with no [*] is
    exactly a case-insensitive comparison. *)
Theorem glob_matches_correct pattern text :
  (glob_matches pattern text = true <-> matches (bytes_of pattern) (bytes_of text)) /\
  (star ∈ bytes_of pattern \/
   glob_matches pattern text = eq_ignore_ascii_case pattern text).
Proof.
  split; [apply glob_matches_iff|].
  destruct (decide (star ∈ bytes_of pattern)) as [?|Hn]; [by left|right].
  apply bool_eq_iff. by rewrite glob_matches_iff, matches_literal, eq_ci_forall2.
Qed.

End Glob.

(** ** The permission manager: [permissions/manager.rs] *)

Module Manager.

Inductive PermissionMode := DefaultMode | Plan | BypassPermissions | Auto.

#[export] Instance PermissionMode_eq_dec : EqDecision PermissionMode.
Proof. solve_decision. Defined.

Record PermissionRule := mkRule { tool_name : string; rule_content : option string }.

#[export] Instance PermissionRule_eq_dec : EqDecision PermissionRule.
Proof. solve_decision. Defined.

Abbreviation ToolPermissionRulesBySource := (gmap string (list PermissionRule)).

Record ToolPermissionContext := mkContext {
  mode : PermissionMode;
  additional_search_dirs : list string;
  additional_write_dirs : list string;
  always_allow_rules : ToolPermissionRulesBySource;
  always_deny_rules : ToolPermissionRulesBySource;
  always_ask_rules : ToolPermissionRulesBySource;
  auto_allow_channels : gmap string bool;
  ask_timeout_secs : Z;
  persist_grants : bool
}.

Definition DEFAULT_ASK_TIMEOUT_SECS : Z := 300.

(** [Default for ToolPermissionContext]. *)
Definition default_context : ToolPermissionContext :=
  {| mode := DefaultMode; additional_search_dirs := []; additional_write_dirs := [];
     always_allow_rules := ∅; always_deny_rules := ∅; always_ask_rules := ∅;
     auto_allow_channels := ∅; ask_timeout_secs := DEFAULT_ASK_TIMEOUT_SECS;
     persist_grants := true |}.

(** Functional update of one field. *)
Definition with_mode (m : PermissionMode) (c : ToolPermissionContext) :=
  mkContext m (additional_search_dirs c) (additional_write_dirs c) (always_allow_rules c)
    (always_deny_rules c) (always_ask_rules c) (auto_allow_channels c)
    (ask_timeout_secs c) (persist_grants c).
Definition with_search_dirs (l : list string) (c : ToolPermissionContext) :=
  mkContext (mode c) l (additional_write_dirs c) (always_allow_rules c)
    (always_deny_rules c) (always_ask_rules c) (auto_allow_channels c)
    (ask_timeout_secs c) (persist_grants c).
Definition with_write_dirs (l : list string) (c : ToolPermissionContext) :=
  mkContext (mode c) (additional_search_dirs c) l (always_allow_rules c)
    (always_deny_rules c) (always_ask_rules c) (auto_allow_channels c)
    (ask_timeout_secs c) (persist_grants c).
Definition with_allow (r : ToolPermissionRulesBySource) (c : ToolPermissionContext) :=
  mkContext (mode c) (additional_search_dirs c) (additional_write_dirs c) r
    (always_deny_rules c) (always_ask_rules c) (auto_allow_channels c)
    (ask_timeout_secs c) (persist_grants c).
Definition with_deny (r : ToolPermissionRulesBySource) (c : ToolPermissionContext) :=
  mkContext (mode c) (additional_search_dirs c) (additional_write_dirs c)
    (always_allow_rules c) r (always_ask_rules c) (auto_allow_channels c)
    (ask_timeout_secs c) (persist_grants c).
Definition with_ask (r : ToolPermissionRulesBySource) (c : ToolPermissionContext) :=
  mkContext (mode c) (additional_search_dirs c) (additional_write_dirs c)
    (always_allow_rules c) (always_deny_rules c) r (auto_allow_channels c)
    (ask_timeout_secs c) (persist_grants c).

Inductive PermissionResult :=
| Allow
| Ask (message : string)
| Deny (message : string).

(** [matches_rule]. *)
Definition matches_rule (rule : PermissionRule) (tool : string)
    (input_description : option string) : bool :=
  if negb (eq_ignore_ascii_case (tool_name rule) tool) then false else
  match rule_content rule with
  | None => true
  | Some pattern =>
      if eq_ignore_ascii_case pattern tool then true else
      match input_description with
      | Some desc => Glob.glob_matches pattern desc
      | None => false
      end
  end.

(** [is_read_only_tool]. *)
Definition is_read_only_tool (tool : string) : bool :=
  existsb (str_contains tool) ["Grep"; "Glob"; "Search"]%string.

(** [find_matching_rule_in_map]; [any] does not depend on the map's order. *)
Definition find_matching_rule_in_map (rules : ToolPermissionRulesBySource)
    (tool : string) (input_description : option string) : bool :=
  existsb (existsb (fun rule => matches_rule rule tool input_description))
    ((map_to_list rules).*2).

Definition denied_msg (t : string) : string :=
  "Tool '" +:+ t +:+ "' is denied by permission rules".
Definition ask_rule_msg (t : string) : string :=
  "Tool '" +:+ t +:+ "' requires permission (matched ask rule)".
Definition plan_msg (t : string) : string :=
  "Tool '" +:+ t +:+ "' requires permission in Plan mode".
Definition ask_msg (t : string) : string := "Tool '" +:+ t +:+ "' requires permission".

(** [PermissionManager::check_permission]. *)
Definition check_permission (ctx : ToolPermissionContext) (tool : string)
    (input_description : option string) : PermissionResult :=
  if find_matching_rule_in_map (always_deny_rules ctx) tool input_description then
    Deny (denied_msg tool)
  else if bool_decide (mode ctx = BypassPermissions) then Allow
  else if find_matching_rule_in_map (always_allow_rules ctx) tool input_description then Allow
  else if find_matching_rule_in_map (always_ask_rules ctx) tool input_description then
    Ask (ask_rule_msg tool)
  else if bool_decide (mode ctx = Plan) then
    if is_read_only_tool tool then Allow else Ask (plan_msg tool)
  else Ask (ask_msg tool).

(** [HashMap::entry(source).or_default()] followed by an edit of the list. *)
Definition edit_source (source : string) (f : list PermissionRule -> list PermissionRule)
    (m : ToolPermissionRulesBySource) : ToolPermissionRulesBySource :=
  <[source := f (default [] (m !! source))]> m.

(** [PermissionManager::add_allow_always_rule]. *)
Definition add_allow_always_rule (source tool : string) (content : option string)
    (ctx : ToolPermissionContext) : ToolPermissionContext :=
  with_allow
    (edit_source source
       (fun rules =>
          if existsb (fun r => String.eqb (tool_name r) tool
                               && bool_decide (rule_content r = content)) rules
          then rules else rules ++ [mkRule tool content])
       (always_allow_rules ctx)) ctx.

(** [PermissionManager::add_rule]: an unknown category is an allow rule. *)
Definition add_rule (category source tool : string) (content : option string)
    (ctx : ToolPermissionContext) : ToolPermissionContext :=
  let push := edit_source source (fun rules => rules ++ [mkRule tool content]) in
  let c := to_ascii_lowercase category in
  if (String.eqb c "allow" || String.eqb c "always_allow") then
    with_allow (push (always_allow_rules ctx)) ctx
  else if (String.eqb c "deny" || String.eqb c "always_deny") then
    with_deny (push (always_deny_rules ctx)) ctx
  else if (String.eqb c "ask" || String.eqb c "always_ask") then
    with_ask (push (always_ask_rules ctx)) ctx
  else with_allow (push (always_allow_rules ctx)) ctx.

(** The closure of [remove_rule]'s [retain]: is this rule removed? *)
Definition removes (tool : string) (content : option string) (r : PermissionRule) : bool :=
  (eq_ignore_ascii_case (tool_name r) tool || String.eqb tool "*") &&
  match content, rule_content r with
  | Some target, Some c => String.eqb target c || String.eqb target "*"
  | Some _, None => false
  | None, _ => true
  end.

(** The closure [filter_rules]: the edited map and the number removed. *)
Definition filter_rules (tool : string) (content : option string)
    (m : ToolPermissionRulesBySource) : ToolPermissionRulesBySource * nat :=
  (retain (fun r => negb (removes tool content r)) <$> m,
   sum_list ((fun rules => length rules -
                length (retain (fun r => negb (removes tool content r)) rules))%nat
             <$> (map_to_list m).*2)).

(** [PermissionManager::remove_rule]. *)
Definition remove_rule (category : option string) (tool : string) (content : option string)
    (ctx : ToolPermissionContext) : ToolPermissionContext * nat :=
  let filt := filter_rules tool content in
  let is_cat a b := match to_ascii_lowercase <$> category with
                    | Some c => String.eqb c a || String.eqb c b | None => false end in
  if is_cat "allow" "always_allow" then
    let '(m, n) := filt (always_allow_rules ctx) in (with_allow m ctx, n)
  else if is_cat "deny" "always_deny" then
    let '(m, n) := filt (always_deny_rules ctx) in (with_deny m ctx, n)
  else if is_cat "ask" "always_ask" then
    let '(m, n) := filt (always_ask_rules ctx) in (with_ask m ctx, n)
  else
    let '(a, na) := filt (always_allow_rules ctx) in
    let '(d, nd) := filt (always_deny_rules ctx) in
    let '(k, nk) := filt (always_ask_rules ctx) in
    (with_ask k (with_deny d (with_allow a ctx)), (na + nd + nk)%nat).

(** [PermissionManager::set_mode]. *)
Definition set_mode (m : PermissionMode) (ctx : ToolPermissionContext) := with_mode m ctx.

(** [ToolPermissionContext::ask_timeout_duration], in seconds. *)
Definition ask_timeout_duration (ctx : ToolPermissionContext) : Z :=
  Z.max (ask_timeout_secs ctx) 1.

(** The directory grants of the executor's "Always allow" branches, through
    [PermissionManager::update_context]. *)
Definition push_search_dir (d : string) (ctx : ToolPermissionContext) :=
  if existsb (String.eqb d) (additional_search_dirs ctx) then ctx
  else with_search_dirs (additional_search_dirs ctx ++ [d]) ctx.
Definition push_write_dir (d : string) (ctx : ToolPermissionContext) :=
  if existsb (String.eqb d) (additional_write_dirs ctx) then ctx
  else with_write_dirs (additional_write_dirs ctx ++ [d]) ctx.

(** *** Rules as propositions *)

(** A rule covers an invocation: same tool up to ASCII case, and its content
    absent, the tool's own name, or a glob over the serialized input. *)
Definition covers (r : PermissionRule) (tool : string) (desc : option string) : Prop :=
  to_ascii_lowercase (tool_name r) = to_ascii_lowercase tool /\
  match rule_content r with
  | None => True
  | Some pat =>
      to_ascii_lowercase pat = to_ascii_lowercase tool \/
      exists d, desc = Some d /\ Glob.matches (bytes_of pat) (bytes_of d)
  end.

(** Some rule of some source covers the invocation. *)
Definition covered (m : ToolPermissionRulesBySource) (tool : string)
    (desc : option string) : Prop :=
  exists src rules r, m !! src = Some rules /\ r ∈ rules /\ covers r tool desc.

Lemma find_matching_iff m tool desc :
  find_matching_rule_in_map m tool desc = true <->
  exists src rules r, m !! src = Some rules /\ r ∈ rules /\ matches_rule r tool desc = true.
Proof.
  unfold find_matching_rule_in_map. rewrite existsb_elem. split.
  - intros (rules & Hin & Hex). apply list_elem_of_fmap in Hin as ([src rules'] & -> & Hin).
    apply elem_of_map_to_list in Hin. apply existsb_elem in Hex as (r & Hr & Hm).
    by exists src, rules', r.
  - intros (src & rules & r & Hs & Hr & Hm). exists rules. split.
    + apply list_elem_of_fmap. exists (src, rules). by rewrite elem_of_map_to_list.
    + apply existsb_elem. by exists r.
Qed.

Lemma matches_rule_iff_glob r tool desc :
  (forall p d, Glob.glob_matches p d = true <-> Glob.matches (bytes_of p) (bytes_of d)) ->
  matches_rule r tool desc = true <-> covers r tool desc.
Proof.
  intros Hglob. unfold matches_rule, covers. rewrite <- eq_ci_iff.
  destruct (eq_ignore_ascii_case (tool_name r) tool); simpl; [|split; [done|by intros [? _]]].
  destruct (rule_content r) as [pat|]; [|tauto].
  rewrite <- eq_ci_iff. destruct (eq_ignore_ascii_case pat tool); [tauto|].
  destruct desc as [d|].
  - rewrite Hglob. split; [intros; split; [done|right; by exists d]|].
    intros [_ [?|(d' & [= <-] & ?)]]; done.
  - split; [done|]. by intros [_ [?|(d' & ? & _)]].
Qed.

(** *** Editing the rule maps *)

Lemma find_matching_edit_push source r m tool desc :
  find_matching_rule_in_map (edit_source source (fun rules => rules ++ [r]) m) tool desc =
  find_matching_rule_in_map m tool desc || matches_rule r tool desc.
Proof.
  apply bool_eq_iff. rewrite orb_true_iff, !find_matching_iff. unfold edit_source. split.
  - intros (src & rules & r' & Hs & Hr & Hm). destruct (decide (source = src)) as [<-|Hne].
    + rewrite lookup_insert_eq in Hs. simplify_eq.
      apply elem_of_app in Hr as [Hr|Hr]; [|apply list_elem_of_singleton in Hr as ->; by right].
      left. destruct (m !! source) as [old|] eqn:Ho; simpl in Hr; [|by apply not_elem_of_nil in Hr].
      by exists source, old, r'.
    + rewrite lookup_insert_ne in Hs by done. left. by exists src, rules, r'.
  - intros [(src & rules & r' & Hs & Hr & Hm)|Hm].
    + destruct (decide (source = src)) as [<-|Hne].
      * exists source, (rules ++ [r]), r'. rewrite lookup_insert_eq, Hs. simpl.
        rewrite elem_of_app. auto.
      * exists src, rules, r'. by rewrite lookup_insert_ne.
    + exists source, (default [] (m !! source) ++ [r]), r.
      rewrite lookup_insert_eq, elem_of_app, list_elem_of_singleton. auto.
Qed.

(** The duplicate test of [add_allow_always_rule] never loses a rule: the
    edited map covers what pushing the rule would cover. *)
Lemma find_matching_grant source t c m tool desc :
  find_matching_rule_in_map
    (edit_source source
       (fun rules =>
          if existsb (fun r => String.eqb (tool_name r) t && bool_decide (rule_content r = c)) rules
          then rules else rules ++ [mkRule t c]) m) tool desc =
  find_matching_rule_in_map m tool desc || matches_rule (mkRule t c) tool desc.
Proof.
  destruct (existsb (fun r => String.eqb (tool_name r) t && bool_decide (rule_content r = c))
              (default [] (m !! source))) eqn:Hex.
  - apply existsb_elem in Hex as ([t' c'] & Hin & He). simpl in He. bool_hyps. subst.
    destruct (m !! source) as [old|] eqn:Ho; simpl in Hin; [|by apply not_elem_of_nil in Hin].
    replace (edit_source source _ m) with m.
    + apply bool_eq_iff. rewrite orb_true_iff, find_matching_iff. split; [by left|].
      intros [?|?]; [done|]. by exists source, old, (mkRule t c).
    + unfold edit_source. rewrite Ho. simpl. symmetry. apply insert_id. rewrite Ho.
      f_equal. assert (Hex : existsb (fun r => String.eqb (tool_name r) t &&
                               bool_decide (rule_content r = c)) old = true).
      { apply existsb_elem. exists (mkRule t c). simpl.
        by rewrite String.eqb_refl, bool_decide_true. }
      by rewrite Hex.
  - rewrite <- (find_matching_edit_push source). f_equal. unfold edit_source. by rewrite Hex.
Qed.

Lemma find_matching_filter tool content m t desc :
  find_matching_rule_in_map (filter_rules tool content m).1 t desc = true <->
  exists src rules r, m !! src = Some rules /\ r ∈ rules /\
    removes tool content r = false /\ matches_rule r t desc = true.
Proof.
  rewrite find_matching_iff. unfold filter_rules. simpl. split.
  - intros (src & rules & r & Hs & Hr & Hm). rewrite lookup_fmap in Hs.
    destruct (m !! src) as [old|] eqn:Ho; simplify_eq/=.
    apply elem_of_retain in Hr as [Hr Hn]. apply negb_true_iff in Hn. by exists src, old, r.
  - intros (src & rules & r & Hs & Hr & Hn & Hm).
    exists src, (retain (fun r => negb (removes tool content r)) rules), r.
    rewrite lookup_fmap, Hs, elem_of_retain, Hn. auto.
Qed.

(** Granting again through the duplicate test changes nothing. *)
Lemma edit_grant_idempotent source t c m :
  let grant := edit_source source
       (fun rules =>
          if existsb (fun r => String.eqb (tool_name r) t && bool_decide (rule_content r = c)) rules
          then rules else rules ++ [mkRule t c]) in
  grant (grant m) = grant m.
Proof.
  intros grant. unfold grant, edit_source. rewrite lookup_insert_eq, insert_insert_eq. simpl.
  assert (H : forall l, existsb (fun r => String.eqb (tool_name r) t &&
                bool_decide (rule_content r = c)) (l ++ [mkRule t c]) = true).
  { intros l. apply existsb_elem. exists (mkRule t c).
    rewrite elem_of_app, list_elem_of_singleton. simpl.
    rewrite String.eqb_refl, bool_decide_true by done. auto. }
  f_equal. destruct (existsb _ (default [] (m !! source))) eqn:He; [by rewrite He|by rewrite H].
Qed.

(** The number of rules of a map. *)
Definition rule_count (m : ToolPermissionRulesBySource) : nat :=
  sum_list (length <$> (map_to_list m).*2).

Lemma filter_rules_count tool content m :
  (rule_count (filter_rules tool content m).1 + (filter_rules tool content m).2
   = rule_count m)%nat.
Proof.
  unfold rule_count, filter_rules. simpl. rewrite map_to_list_fmap.
  induction (map_to_list m) as [|[s rules] l IH]; [done|].
  csimpl in *.
  pose proof (retain_length_le (fun r => negb (removes tool content r)) rules). lia.
Qed.

(** *** Properties *)

(** Claim C2. The decision procedure of [check_permission], on every branch:
    denial takes precedence over everything (the bypass mode included); a call
    is allowed exactly when it is not denied and the mode is bypass, or an
    allow rule covers it, or no ask rule covers it, the mode is Plan and the
    tool is read-only by name; every other call asks. *)
Theorem check_permission_decides ctx tool desc :
  let denied := find_matching_rule_in_map (always_deny_rules ctx) tool desc = true in
  let allowed := find_matching_rule_in_map (always_allow_rules ctx) tool desc = true in
  let asked := find_matching_rule_in_map (always_ask_rules ctx) tool desc = true in
  ((exists msg, check_permission ctx tool desc = Deny msg) <-> denied) /\
  (check_permission ctx tool desc = Allow <->
     ~ denied /\ (mode ctx = BypassPermissions \/ allowed \/
                  (~ asked /\ mode ctx = Plan /\ is_read_only_tool tool = true))) /\
  ((exists msg, check_permission ctx tool desc = Ask msg) <->
     ~ denied /\ mode ctx <> BypassPermissions /\ ~ allowed /\
     (asked \/ mode ctx <> Plan \/ is_read_only_tool tool = false)).
Proof.
  intros denied allowed asked. unfold denied, allowed, asked, check_permission.
  destruct (find_matching_rule_in_map (always_deny_rules ctx) tool desc); [naive_solver|].
  case_bool_decide; [naive_solver|].
  destruct (find_matching_rule_in_map (always_allow_rules ctx) tool desc); [naive_solver|].
  destruct (find_matching_rule_in_map (always_ask_rules ctx) tool desc); [naive_solver|].
  case_bool_decide; [|naive_solver].
  destruct (is_read_only_tool tool); naive_solver.
Qed.

(** A rule matches exactly when it covers the invocation: same tool
    name up to ASCII case, and no content, or content naming the whole tool,
    or a glob that matches the serialized input ([glob_matches] is proved
    against the reference semantics of globs, so the statement has no residual
    assumption). *)
Theorem find_matching_rule_correct m tool desc :
  find_matching_rule_in_map m tool desc = true <-> covered m tool desc.
Proof.
  rewrite find_matching_iff. unfold covered.
  assert (H : forall r, matches_rule r tool desc = true <-> covers r tool desc).
  { intros r. apply matches_rule_iff_glob, Glob.glob_matches_iff. }
  split; intros (src & rules & r & ? & ? & Hr); exists src, rules, r; by rewrite ?H in *.
Qed.

(** The exact effect of an allow-always grant: a denied call stays
    denied, a call the granted rule matches becomes allowed, every other
    decision is unchanged; and granting twice is granting once. *)
Theorem grant_effect source t content ctx tool desc :
  let ctx' := add_allow_always_rule source t content ctx in
  check_permission ctx' tool desc =
    (if find_matching_rule_in_map (always_deny_rules ctx) tool desc
     then check_permission ctx tool desc
     else if matches_rule (mkRule t content) tool desc then Allow
     else check_permission ctx tool desc) /\
  add_allow_always_rule source t content ctx' = ctx'.
Proof.
  intros ctx'. split.
  - unfold ctx', check_permission, add_allow_always_rule, with_allow; simpl.
    rewrite find_matching_grant.
    destruct (find_matching_rule_in_map (always_deny_rules ctx) tool desc); [done|].
    case_bool_decide; [by case_match|].
    destruct (find_matching_rule_in_map (always_allow_rules ctx) tool desc); simpl;
      [by case_match|done].
  - unfold ctx', add_allow_always_rule, with_allow; simpl. f_equal.
    apply edit_grant_idempotent.
Qed.

(** [add_rule] pushes the rule into the list its category names: a
    "deny" category denies every call the rule matches whatever the mode and
    the other rules; an "ask" category leaves allowed calls allowed; the
    "allow" category, and any category the code does not know, widens what is
    allowed. *)
Theorem add_rule_effect category source t content ctx tool desc :
  let c := to_ascii_lowercase category in
  let r := mkRule t content in
  let res := check_permission (add_rule category source t content ctx) tool desc in
  (if bool_decide (c ∈ ["deny"; "always_deny"]%string) then
     res = (if matches_rule r tool desc then Deny (denied_msg tool)
            else check_permission ctx tool desc)
   else if bool_decide (c ∈ ["ask"; "always_ask"]%string) then
     res = match check_permission ctx tool desc with
           | Allow => if bool_decide (mode ctx = Plan)
                         && matches_rule r tool desc
                         && negb (find_matching_rule_in_map (always_allow_rules ctx) tool desc)
                      then Ask (ask_rule_msg tool) else Allow
           | Ask m => if matches_rule r tool desc then Ask (ask_rule_msg tool) else Ask m
           | Deny m => Deny m
           end
   else
     res = (if find_matching_rule_in_map (always_deny_rules ctx) tool desc
            then check_permission ctx tool desc
            else if matches_rule r tool desc then Allow
            else check_permission ctx tool desc)).
Proof.
  intros c r res. unfold res, add_rule. fold c r.
  assert (Hc : forall a b, (String.eqb c a || String.eqb c b) = bool_decide (c ∈ [a; b])).
  { intros a b. apply bool_eq_iff. rewrite bool_decide_eq_true, orb_true_iff, !String.eqb_eq.
    rewrite !elem_of_cons. pose proof (not_elem_of_nil c). tauto. }
  rewrite !Hc. clear Hc. clearbody c. clear res.
  repeat case_bool_decide; try (exfalso; in_lists; congruence); unfold check_permission, with_allow, with_deny, with_ask; simpl;
    rewrite ?find_matching_edit_push;
    destruct (find_matching_rule_in_map (always_deny_rules ctx) tool desc),
      (find_matching_rule_in_map (always_allow_rules ctx) tool desc),
      (find_matching_rule_in_map (always_ask_rules ctx) tool desc),
      (matches_rule r tool desc), (is_read_only_tool tool), (mode ctx);
    try done.
Qed.

(** The three rule lists of a context and the category names of each. *)
Inductive RuleList := LAllow | LDeny | LAsk.

Definition rules_of (l : RuleList) (ctx : ToolPermissionContext) :=
  match l with
  | LAllow => always_allow_rules ctx
  | LDeny => always_deny_rules ctx
  | LAsk => always_ask_rules ctx
  end.

Definition category_names (l : RuleList) : list string :=
  match l with
  | LAllow => ["allow"; "always_allow"]
  | LDeny => ["deny"; "always_deny"]
  | LAsk => ["ask"; "always_ask"]
  end%string.

Definition names_list (category : option string) (l : RuleList) : bool :=
  match to_ascii_lowercase <$> category with
  | Some c => bool_decide (c ∈ category_names l)
  | None => false
  end.

(** A category selects the list it names; one that names none selects all. *)
Definition selects (category : option string) (l : RuleList) : bool :=
  names_list category l ||
  negb (names_list category LAllow || names_list category LDeny || names_list category LAsk).

Definition total_rules (ctx : ToolPermissionContext) : nat :=
  (rule_count (always_allow_rules ctx) + rule_count (always_deny_rules ctx) +
   rule_count (always_ask_rules ctx))%nat.

Lemma is_cat_names category a b l :
  category_names l = [a; b] ->
  match to_ascii_lowercase <$> category with
  | Some c => String.eqb c a || String.eqb c b | None => false end = names_list category l.
Proof.
  intros Hl. unfold names_list. rewrite Hl. destruct category as [c|]; simpl; [|done].
  apply bool_eq_iff. rewrite bool_decide_eq_true, orb_true_iff, !String.eqb_eq, !elem_of_cons.
  pose proof (not_elem_of_nil (to_ascii_lowercase c)). tauto.
Qed.

Lemma names_list_unique category l l' :
  names_list category l = true -> names_list category l' = true -> l = l'.
Proof.
  unfold names_list. destruct category as [c|]; simpl; [|done]. intros H H'. bool_hyps.
  destruct l, l'; simpl in *; try done; in_lists; congruence.
Qed.

Lemma filter_rules_lookup tool content m src :
  (filter_rules tool content m).1 !! src =
  retain (fun r => negb (removes tool content r)) <$> m !! src.
Proof. apply lookup_fmap. Qed.

(** [remove_rule] removes, from the rule lists the category selects
    and from no other, exactly the rules whose tool and content match, keeping
    the others in their order under their source; and it returns the number
    of rules removed. *)
Theorem remove_rule_effect category tool content ctx :
  let '(ctx', n) := remove_rule category tool content ctx in
  (forall l src,
     rules_of l ctx' !! src =
     (if selects category l
      then retain (fun r => negb (removes tool content r)) <$> rules_of l ctx !! src
      else rules_of l ctx !! src)) /\
  (total_rules ctx' + n = total_rules ctx)%nat /\
  mode ctx' = mode ctx.
Proof.
  unfold remove_rule.
  rewrite (is_cat_names category "allow" "always_allow" LAllow), 
    (is_cat_names category "deny" "always_deny" LDeny),
    (is_cat_names category "ask" "always_ask" LAsk) by done.
  pose proof (filter_rules_count tool content (always_allow_rules ctx)) as Ha.
  pose proof (filter_rules_count tool content (always_deny_rules ctx)) as Hd.
  pose proof (filter_rules_count tool content (always_ask_rules ctx)) as Hk.
  pose proof (names_list_unique category) as Hu.
  pose proof (filter_rules_lookup tool content (always_allow_rules ctx)) as La.
  pose proof (filter_rules_lookup tool content (always_deny_rules ctx)) as Ld.
  pose proof (filter_rules_lookup tool content (always_ask_rules ctx)) as Lk.
  revert Ha Hd Hk La Ld Lk. unfold selects, total_rules.
  destruct (filter_rules tool content (always_allow_rules ctx)) as [ma na],
    (filter_rules tool content (always_deny_rules ctx)) as [md nd],
    (filter_rules tool content (always_ask_rules ctx)) as [mk nk];
    simpl; intros Ha Hd Hk La Ld Lk.
  destruct (names_list category LAllow) eqn:Ea; [|destruct (names_list category LDeny) eqn:Ed;
    [|destruct (names_list category LAsk) eqn:Ek]];
    (split; [|simpl; split; [lia|done]]); intros l src;
    destruct (names_list category l) eqn:El;
    destruct l; simpl in *; try congruence; try done;
    match goal with
    | E : names_list category ?a = true, E' : names_list category ?b = true |- _ =>
        by specialize (Hu a b E E')
    end.
Qed.

(** Revocation: after removing every rule of a tool, no rule covers
    any invocation of it, so the decision is the mode's default. *)
Theorem revoke_tool tool tool' desc ctx :
  eq_ignore_ascii_case tool' tool = true ->
  let ctx' := (remove_rule None tool None ctx).1 in
  check_permission ctx' tool' desc =
    match mode ctx with
    | BypassPermissions => Allow
    | Plan => if is_read_only_tool tool' then Allow else Ask (plan_msg tool')
    | _ => Ask (ask_msg tool')
    end.
Proof.
  intros Hci ctx'. unfold ctx', remove_rule. simpl.
  assert (Hnone : forall m, find_matching_rule_in_map (filter_rules tool None m).1 tool' desc
                            = false).
  { intros m. apply not_true_iff_false. rewrite find_matching_filter.
    intros (src & rules & r & _ & _ & Hrem & Hm).
    unfold removes in Hrem. unfold matches_rule in Hm.
    destruct (eq_ignore_ascii_case (tool_name r) tool') eqn:Ht; [|done].
    assert (eq_ignore_ascii_case (tool_name r) tool = true) as Hr.
    { apply eq_ci_iff in Ht, Hci. apply eq_ci_iff. congruence. }
    rewrite Hr in Hrem. by destruct (rule_content r). }
  unfold check_permission, with_ask, with_deny, with_allow; simpl.
  pose proof (Hnone (always_deny_rules ctx)) as Hd.
  pose proof (Hnone (always_allow_rules ctx)) as Ha.
  pose proof (Hnone (always_ask_rules ctx)) as Hk.
  unfold filter_rules in *. simpl in *. rewrite Hd, Ha, Hk. by destruct (mode ctx).
Qed.

Lemma revoke_tool_witness :
  let ctx := add_allow_always_rule "user" "Bash" None default_context in
  let ctx' := (remove_rule None "bash" None ctx).1 in
  check_permission ctx "Bash" None = Allow /\
  check_permission ctx' "Bash" None = Ask (ask_msg "Bash").
Proof.
  split; [reflexivity|].
  apply (revoke_tool "bash" "Bash" None
           (add_allow_always_rule "user" "Bash" None default_context)).
  reflexivity.
Defined.

(** An interactive prompt always waits at least one second, whatever the
    configured value. *)
Lemma ask_timeout_positive ctx : 1 <= ask_timeout_duration ctx.
Proof. unfold ask_timeout_duration. lia. Qed.

End Manager.

(** ** The permission gate: [permissions/gate.rs]

    Each prompt is a oneshot channel; the gate keeps the sender under the
    tool-use id, the executor waits on the receiver. *)

Module Gate.

Inductive PermissionDecision :=
| Allow
| Deny
| AllowAlways (rule : option string).

(** A [tokio::sync::oneshot] channel: whether each half still exists, and the
    value sent. *)
Record channel := mkChannel {
  tx_live : bool; rx_live : bool; slot : option PermissionDecision }.

(** [pending] maps a tool-use id to the channel whose sender it holds. *)
Record gate := mkGate {
  pending : gmap string nat; channels : gmap nat channel; next_channel : nat }.

Definition new_gate : gate := mkGate ∅ ∅ 0.

Definition drop_tx (n : nat) (cs : gmap nat channel) : gmap nat channel :=
  alter (fun c => mkChannel false (rx_live c) (slot c)) n cs.

(** [PermissionGate::request]: inserting under an id already present drops
    the sender stored there. *)
Definition request (id : string) (g : gate) : gate * nat :=
  let n := next_channel g in
  let cs := match pending g !! id with Some old => drop_tx old (channels g) | None => channels g end in
  (mkGate (<[id := n]> (pending g)) (<[n := mkChannel true true None]> cs) (S n), n).

(** [Sender::send] consumes the sender; it fails when the receiver is gone. *)
Definition send (n : nat) (d : PermissionDecision) (cs : gmap nat channel) :
    gmap nat channel * bool :=
  match cs !! n with
  | Some c => if rx_live c then (<[n := mkChannel false true (Some d)]> cs, true)
              else (<[n := mkChannel false false (slot c)]> cs, false)
  | None => (cs, false)
  end.

(** [PermissionGate::respond]. *)
Definition respond (id : string) (d : PermissionDecision) (g : gate) : gate * bool :=
  match pending g !! id with
  | Some n =>
      let '(cs, sent) := send n d (channels g) in
      (mkGate (delete id (pending g)) cs (next_channel g), sent)
  | None => (g, false)
  end.

(** [PermissionGate::pending_count]. *)
Definition pending_count (g : gate) : nat := size (pending g).

(** Dropping the receiver: what [tokio::time::timeout] does when it expires. *)
Definition drop_rx (n : nat) (g : gate) : gate :=
  mkGate (pending g) (alter (fun c => mkChannel (tx_live c) false (slot c)) n (channels g))
    (next_channel g).

(** What awaiting the receiver yields: a value, an error when the sender was
    dropped without sending, or nothing yet. *)
Definition recv (g : gate) (n : nat) : option (option PermissionDecision) :=
  match channels g !! n with
  | Some c => match slot c with
              | Some d => Some (Some d)
              | None => if tx_live c then None else Some None
              end
  | None => None
  end.

(** The executor's wait: a closed channel and an expired timeout are Deny. *)
Definition await_decision (g : gate) (n : nat) : PermissionDecision :=
  match recv g n with
  | Some (Some d) => d
  | Some None => Deny
  | None => Deny
  end.

Inductive step : gate -> gate -> Prop :=
| step_request id g : step g (request id g).1
| step_respond id d g : step g (respond id d g).1
| step_drop_rx n g : step g (drop_rx n g).

(** Every stored sender is the live end of its own channel, nothing has been
    sent on it, and channels are numbered below [next_channel]. *)
Definition gate_inv (g : gate) : Prop :=
  (forall id n, pending g !! id = Some n ->
     exists c, channels g !! n = Some c /\ tx_live c = true /\ slot c = None) /\
  (forall id1 id2 n, pending g !! id1 = Some n -> pending g !! id2 = Some n -> id1 = id2) /\
  (forall n c, channels g !! n = Some c -> (n < next_channel g)%nat).

Lemma new_inv : gate_inv new_gate.
Proof. split_and!; intros *; unfold new_gate; simpl; by rewrite lookup_empty. Qed.

Lemma drop_tx_lookup n m cs :
  drop_tx n cs !! m =
  if decide (n = m) then (fun c => mkChannel false (rx_live c) (slot c)) <$> cs !! m
  else cs !! m.
Proof.
  unfold drop_tx. destruct (decide (n = m)) as [<-|Hne];
    [apply lookup_alter_eq|by apply lookup_alter_ne].
Qed.

Lemma pending_channel_bound g id n :
  gate_inv g -> pending g !! id = Some n -> (n < next_channel g)%nat.
Proof. intros (H1 & _ & H3) Hp. destruct (H1 _ _ Hp) as (c & Hc & _). eauto. Qed.

(** Inserting the new channel does not touch the other pending senders: at
    most the one stored under the same id is dropped. *)
Lemma request_inv id g : gate_inv g -> gate_inv (request id g).1.
Proof.
  intros Hinv. pose proof (pending_channel_bound g) as Hb.
  destruct Hinv as (H1 & H2 & H3). unfold request; simpl. split; [|split].
  - intros id' n Hp. simpl in *. destruct (decide (id = id')) as [<-|Hne].
    { rewrite lookup_insert_eq in Hp. simplify_eq.
      eexists. rewrite lookup_insert_eq. done. }
    rewrite lookup_insert_ne in Hp by done.
    pose proof (Hb id' n ltac:(done) Hp) as Hlt.
    destruct (H1 _ _ Hp) as (c & Hc & Htx & Hs). exists c.
    rewrite lookup_insert_ne by lia. split; [|done].
    destruct (pending g !! id) as [old|] eqn:Ho; [|done].
    rewrite drop_tx_lookup, decide_False; [done|]. intros ->. by eapply Hne, H2.
  - intros id1 id2 n. simpl. rewrite !lookup_insert.
    repeat case_decide; subst; try done; intros Ha Hc; simplify_eq; eauto.
    + apply Hb in Hc; [lia|done].
    + apply Hb in Ha; [lia|done].
  - intros n c. simpl. destruct (decide (n = next_channel g)) as [->|Hne]; [lia|].
    rewrite lookup_insert_ne by done.
    destruct (pending g !! id) as [old|]; [rewrite drop_tx_lookup; case_decide|];
      intros Hc; [|apply H3 in Hc; lia|apply H3 in Hc; lia].
    apply fmap_Some in Hc as (c' & Hc & _). apply H3 in Hc. lia.
Qed.

Lemma send_lookup_ne n d cs m : n <> m -> (send n d cs).1 !! m = cs !! m.
Proof.
  intros Hne. unfold send. destruct (cs !! n); [|done].
  case_match; simpl; by rewrite lookup_insert_ne.
Qed.

Lemma send_dom n d cs m c : (send n d cs).1 !! m = Some c -> is_Some (cs !! m).
Proof.
  unfold send. destruct (cs !! n) as [c0|] eqn:Hn; [|by eauto].
  destruct (decide (n = m)) as [<-|Hne]; [by eauto|].
  case_match; simpl; rewrite lookup_insert_ne by done; by eauto.
Qed.

Lemma respond_pending id d g :
  pending (respond id d g).1 = delete id (pending g).
Proof.
  unfold respond. destruct (pending g !! id) as [n|] eqn:Hp.
  - by destruct (send n d (channels g)).
  - simpl. by rewrite delete_id.
Qed.

Lemma respond_inv id d g : gate_inv g -> gate_inv (respond id d g).1.
Proof.
  intros Hinv. destruct Hinv as (H1 & H2 & H3). split; [|split].
  - intros id' n. rewrite respond_pending. intros Hp. apply lookup_delete_Some in Hp as [Hne Hp].
    destruct (H1 _ _ Hp) as (c & Hc & Hrest). exists c. split; [|done].
    unfold respond. destruct (pending g !! id) as [m|] eqn:Hm; [|done].
    destruct (send m d (channels g)) as [cs b] eqn:Hs. simpl.
    change cs with (cs, b).1. rewrite <- Hs, send_lookup_ne; [done|].
    intros ->. by eapply Hne, H2.
  - intros id1 id2 n. rewrite respond_pending. intros Ha Hb.
    apply lookup_delete_Some in Ha as [_ Ha], Hb as [_ Hb]. eauto.
  - intros n c. unfold respond. destruct (pending g !! id) as [m|] eqn:Hm; [|by apply H3].
    destruct (send m d (channels g)) as [cs b] eqn:Hs. simpl. intros Hc.
    assert (is_Some (channels g !! n)) as [c' Hc'].
    { apply (send_dom m d _ n c). by rewrite Hs. }
    eauto.
Qed.

Lemma drop_rx_inv n g : gate_inv g -> gate_inv (drop_rx n g).
Proof.
  intros (H1 & H2 & H3). split; [|split; [done|]].
  - intros id m Hp. destruct (H1 _ _ Hp) as (c & Hc & Htx & Hs). simpl.
    rewrite lookup_alter. case_decide; subst; rewrite Hc; simpl; eauto.
  - intros m c. simpl. rewrite lookup_alter. case_decide; [|by apply H3].
    intros Hc. apply fmap_Some in Hc as (c' & Hc & _). subst. eauto.
Qed.

Lemma step_inv g g' : gate_inv g -> step g g' -> gate_inv g'.
Proof. intros Hi Hs. destruct Hs; [by apply request_inv|by apply respond_inv|by apply drop_rx_inv]. Qed.

#[export] Hint Resolve new_inv request_inv respond_inv drop_rx_inv : rust.

Abbreviation reachable_gate := (reachable (fun g => g = new_gate) step).

Lemma reachable_inv g : reachable_gate g -> gate_inv g.
Proof. apply reachable_invariant; [intros s ->; apply new_inv|exact step_inv]. Qed.

(** A verdict, once available on a channel, is never changed by any step. *)
Lemma step_recv_final g g' n v :
  gate_inv g -> step g g' -> recv g n = Some v -> recv g' n = Some v.
Proof.
  intros Hinv Hs. pose proof Hinv as (H1 & H2 & H3). unfold recv.
  destruct (channels g !! n) as [c|] eqn:Hc; [|done]. intros Hv.
  assert (Hstale : forall id, pending g !! id <> Some n).
  { intros id Hp. destruct (H1 _ _ Hp) as (c' & Hc' & Htx & Hsl). simplify_eq.
    by rewrite Hsl, Htx in Hv. }
  destruct Hs as [id g|id d g|m g].
  - unfold request; simpl. rewrite lookup_insert_ne by (apply H3 in Hc; lia).
    destruct (pending g !! id) as [old|] eqn:Ho; [|by rewrite Hc].
    rewrite drop_tx_lookup, decide_False, Hc; [done|]. intros ->. by eapply Hstale.
  - unfold respond. destruct (pending g !! id) as [m|] eqn:Hm; [|by simpl; rewrite Hc].
    destruct (send m d (channels g)) as [cs b] eqn:Hsnd. simpl.
    change cs with (cs, b).1. rewrite <- Hsnd, send_lookup_ne, Hc; [done|].
    intros ->. by eapply Hstale.
  - simpl. rewrite lookup_alter. case_decide; subst; rewrite Hc; simpl; done.
Qed.

(** The gate over any interleaving of requests, responses and
    expired waits: a response is reported delivered exactly when the id is
    pending and its receiver still waits; the receiver then reads that very
    decision; the id is no longer pending, so a second response to it
    delivers nothing; and whatever steps follow, the decision read does not
    change. *)
Theorem respond_delivers_once g id d d' :
  reachable_gate g ->
  let '(g', sent) := respond id d g in
  (sent = true <->
     exists n c, pending g !! id = Some n /\ channels g !! n = Some c /\ rx_live c = true) /\
  (respond id d' g').2 = false /\
  (forall n, sent = true -> pending g !! id = Some n ->
     recv g n = None /\ recv g' n = Some (Some d) /\
     forall g'', rtc step g' g'' -> await_decision g'' n = d).
Proof.
  intros Hr. pose proof (reachable_inv g Hr) as Hinv. pose proof Hinv as (H1 & _ & _).
  pose proof (respond_pending id d g) as Hpend. pose proof (respond_inv id d g Hinv) as Hinv'.
  destruct (respond id d g) as [g' sent] eqn:Hresp. simpl in *.
  assert (Hsecond : (respond id d' g').2 = false).
  { unfold respond. by rewrite Hpend, lookup_delete_eq. }
  unfold respond in Hresp. destruct (pending g !! id) as [n|] eqn:Hp.
  2:{ simplify_eq. split; [|split]; [split; [done|by intros (? & ? & ? & _)]|done|done]. }
  destruct (H1 _ _ Hp) as (c & Hc & Htx & Hs). unfold send in Hresp. rewrite Hc in Hresp.
  destruct (rx_live c) eqn:Hrx; simplify_eq; (split; [|split; [done|]]).
  - split; [intros _; by exists n, c|done].
  - intros m _ [= <-]. unfold recv at 1. rewrite Hc, Hs, Htx. split; [done|].
    set (g' := mkGate _ _ _) in *.
    assert (Hv : recv g' n = Some (Some d)).
    { unfold recv, g'. simpl. by rewrite lookup_insert_eq. }
    split; [done|]. intros g'' Hsteps. unfold await_decision.
    assert (recv g'' n = Some (Some d) /\ gate_inv g'') as [-> _]; [|done].
    clear -Hsteps Hv Hinv'. induction Hsteps as [|x y z Hxy _ IH]; [done|].
    apply IH; eauto using step_recv_final, step_inv.
  - split; [done|]. intros (m & c' & [= <-] & Hc' & ?). congruence.
  - done.
Qed.

Lemma respond_delivers_once_witness :
  let g := (request "tu_1" new_gate).1 in
  (respond "tu_1" Allow g).2 = true /\
  (respond "tu_1" Deny (respond "tu_1" Allow g).1).2 = false.
Proof.
  pose proof (respond_delivers_once (request "tu_1" new_gate).1 "tu_1" Allow Deny
    (reach_step _ _ _ _ (reach_init _ _ new_gate eq_refl) (step_request "tu_1" new_gate))) as H.
  split; [reflexivity|]. exact (proj1 (proj2 H)).
Defined.

(** Asking again under an id that is still pending abandons the
    first prompt: its waiter reads an error, which the executor treats as
    Deny, and no later response can turn it into anything else. *)
Theorem duplicate_request_denies g id n g' :
  reachable_gate g -> pending g !! id = Some n ->
  rtc step (request id g).1 g' -> await_decision g' n = Deny.
Proof.
  intros Hr Hp Hsteps. pose proof (reachable_inv g Hr) as Hinv.
  pose proof (pending_channel_bound _ _ _ Hinv Hp) as Hlt.
  pose proof Hinv as (H1 & _ & _). destruct (H1 _ _ Hp) as (c & Hc & _ & Hs).
  assert (Hv : recv (request id g).1 n = Some None).
  { unfold recv, request. rewrite Hp. simpl. rewrite lookup_insert_ne by lia.
    rewrite drop_tx_lookup, decide_True, Hc by done. simpl. by rewrite Hs. }
  assert (Hi : gate_inv (request id g).1) by eauto with rust.
  unfold await_decision. assert (recv g' n = Some None) as ->; [|done].
  clear -Hsteps Hv Hi. induction Hsteps as [|x y z Hxy _ IH]; [done|].
  apply IH; eauto using step_recv_final, step_inv.
Qed.

Lemma duplicate_request_denies_witness :
  let g := (request "tu_1" new_gate).1 in
  let g1 := (request "tu_1" g).1 in
  await_decision (respond "tu_1" Allow g1).1 0 = Deny /\
  await_decision (respond "tu_1" Allow g1).1 1 = Allow.
Proof.
  split; [|reflexivity].
  apply (duplicate_request_denies (request "tu_1" new_gate).1 "tu_1" 0%nat).
  - exact (reach_step _ _ _ _ (reach_init _ _ new_gate eq_refl) (step_request "tu_1" new_gate)).
  - reflexivity.
  - apply rtc_once, step_respond.
Defined.

End Gate.
