(* ===== verification/Float64.v ===== *)
(** * Float64: [f64] arithmetic

    IEEE 754 binary64 through the executable specification of the Standard
    Library ([SpecFloat]), with 53 bits of precision and exponent bound 1024:
    rounding to nearest, ties to even, infinities and NaN included. *)

From Stdlib Require Import ZArith SpecFloat Lia.
From stdpp Require Import base list strings.
From stdpp Require pretty.
From S2P Require Import Prelude.

Abbreviation f64 := spec_float.

Definition prec : Z := 53.
Definition emax : Z := 1024.

Definition f64_add : f64 -> f64 -> f64 := SFadd prec emax.
Definition f64_sub : f64 -> f64 -> f64 := SFsub prec emax.
Definition f64_mul : f64 -> f64 -> f64 := SFmul prec emax.
Definition f64_div : f64 -> f64 -> f64 := SFdiv prec emax.

(** [n as f64] for an integer. *)
Definition f64_of_Z (n : Z) : f64 := binary_normalize prec emax n 0 false.

Definition f64_zero : f64 := S754_zero false.

(** [m / 10^k], as the decimal literals of the source are read. *)
Definition f64_ratio (m d : Z) : f64 := f64_div (f64_of_Z m) (f64_of_Z d).

(** [a < b], [a <= b], [a >= b], [a == b]: all false on NaN. *)
Definition f64_lt (a b : f64) : bool := SFltb a b.
Definition f64_le (a b : f64) : bool := SFleb a b.
Definition f64_ge (a b : f64) : bool := SFleb b a.
Definition f64_eq (a b : f64) : bool := SFeqb a b.

Definition f64_is_nan (a : f64) : bool := match a with S754_nan => true | _ => false end.
Definition f64_is_finite (a : f64) : bool :=
  match a with S754_zero _ | S754_finite _ _ _ => true | _ => false end.

(** [f64::min] and [f64::max]: the other operand when one is NaN. *)
Definition f64_min (a b : f64) : f64 :=
  if f64_is_nan a then b else if f64_is_nan b then a else if f64_lt b a then b else a.
Definition f64_max (a b : f64) : f64 :=
  if f64_is_nan a then b else if f64_is_nan b then a else if f64_lt a b then b else a.

(** [Iterator::sum::<f64>]: left to right from [-0.0]. *)
Definition f64_sum (l : list f64) : f64 := foldl f64_add (S754_zero true) l.

Example f64_add_ex : f64_eq (f64_add (f64_ratio 1 10) (f64_ratio 2 10)) (f64_ratio 3 10) = false.
Proof. vm_compute. reflexivity. Qed.

Lemma f64_lt_irrefl a : f64_lt a a = false.
Proof.
  unfold f64_lt, SFltb. destruct a as [[]|[]| |s m e]; simpl; try reflexivity.
  destruct s; rewrite Z.compare_refl; unfold Pos.compare_cont;
    by rewrite ?Pos.compare_cont_refl.
Qed.

(** An integer below [2^53] is represented exactly: shifted to 53 digits. *)
Lemma digits2_shift p d : digits2_pos (Pos.iter xO p d) = (digits2_pos p + d)%positive.
Proof.
  induction d as [|d IH] using Pos.peano_ind; [simpl; lia|]. rewrite Pos.iter_succ. cbn [digits2_pos]. rewrite IH. lia.
Qed.

Lemma digits2_bound p : (Zpos p < 2 ^ 53)%Z -> (Zpos (digits2_pos p) <= 53)%Z.
Proof.
  intros Hp. assert (Hsize : digits2_pos p = Pos.size p).
  { clear Hp. induction p as [p IH|p IH|]; [..|done]; cbn [digits2_pos Pos.size]; by rewrite IH. }
  rewrite Hsize.
  pose proof (Pos.size_le p) as Hs. destruct (Z.leb_spec (Zpos (Pos.size p)) 53); [done|].
  assert (H54 : (2 ^ 54 <= 2 ^ Zpos (Pos.size p))%Z) by (apply Z.pow_le_mono_r; lia). lia.
Qed.

Lemma f64_of_pos p : (Zpos p < 2 ^ 53)%Z -> exists m e, f64_of_Z (Zpos p) = S754_finite false m e.
Proof.
  intros Hp. pose proof (digits2_bound p Hp) as Hd.
  unfold f64_of_Z, binary_normalize, binary_round, shl_align, fexp, SpecFloat.emin, prec, emax.
  replace (Z.max _ _ - 0)%Z with (Zpos (digits2_pos p) - 53)%Z by lia.
  assert (Hround : forall m e, Zpos (digits2_pos m) = 53%Z -> (-53 <= e <= 0)%Z ->
            binary_round_aux 53 1024 false (Zpos m) e loc_Exact = S754_finite false m e).
  { intros m e Hm He. unfold binary_round_aux, shr_fexp, fexp, SpecFloat.emin. cbn [Zdigits2]. rewrite Hm.
    replace (Z.max _ _ - e)%Z with 0%Z by lia. cbn [shr shr_record_of_loc shr_m loc_of_shr_record round_nearest_even Zdigits2].
    rewrite Hm. replace (Z.max _ _ - e)%Z with 0%Z by lia. cbn [shr shr_record_of_loc shr_m].
    by rewrite (proj2 (Z.leb_le _ _)) by lia. }
  destruct (Zpos (digits2_pos p) - 53)%Z as [|q|d] eqn:Hs; [|lia|].
  - exists p, 0%Z. apply Hround; lia.
  - exists (Pos.iter xO p d), (Z.neg d). replace (Z.max _ _) with (Z.neg d) by lia. apply Hround; [|lia].
    rewrite digits2_shift. lia.
Qed.

(** The order of what is not NaN: by sign and kind, then exponent and mantissa. *)
Definition f64_rank (a : f64) : Z * Z * Z :=
  match a with
  | S754_infinity true => (-3, 0, 0)
  | S754_finite true m e => (-1, - e, - Zpos m)
  | S754_zero _ | S754_nan => (0, 0, 0)
  | S754_finite false m e => (1, e, Zpos m)
  | S754_infinity false => (3, 0, 0)
  end%Z.

Definition rank_lt (x y : Z * Z * Z) : Prop :=
  let '(a, b, c) := x in let '(a', b', c') := y in (a < a' \/ a = a' /\ (b < b' \/ b = b' /\ c < c'))%Z.

Lemma f64_lt_rank a b : f64_lt a b = true <-> f64_is_nan a = false /\ f64_is_nan b = false /\ rank_lt (f64_rank a) (f64_rank b).
Proof.
  unfold f64_lt, SFltb. destruct a as [sa|sa| |sa ma ea], b as [sb|sb| |sb mb eb]; try (destruct sa); try (destruct sb);
    cbn [SFcompare f64_is_nan f64_rank rank_lt]; try change (Pos.compare_cont Eq ma mb) with (Pos.compare ma mb);
    try (split; [done|lia]); try (split; [intros [=]|lia]); try (split; [intros _; repeat split; lia|done]); try (repeat split; lia).
  - destruct (Z.compare_spec ea eb); cbn [CompOpp]; [destruct (Pos.compare_spec ma mb); cbn [CompOpp]|..]; split; intros; try done; repeat split; lia.
  - destruct (Z.compare_spec ea eb); [destruct (Pos.compare_spec ma mb)|..]; split; intros; try done; repeat split; lia.
Qed.

Lemma f64_lt_not_nan a b : f64_lt a b = true -> f64_is_nan b = false.
Proof. by intros (_ & H & _)%f64_lt_rank. Qed.

Lemma f64_lt_trans a b c : f64_lt a b = true -> f64_lt b c = true -> f64_lt a c = true.
Proof.
  rewrite !f64_lt_rank. intros (Ha & _ & Hab) (_ & Hc & Hbc). split; [done|split; [done|]]. revert Hab Hbc.
  destruct (f64_rank a) as [[]], (f64_rank b) as [[]], (f64_rank c) as [[]]; simpl; lia.
Qed.

Lemma f64_lt_asym a b : f64_lt a b = true -> f64_lt b a = false.
Proof.
  intros (Ha & Hb & Hab)%f64_lt_rank. destruct (f64_lt b a) eqn:Hba; [|done]. apply f64_lt_rank in Hba as (_ & _ & Hba).
  revert Hab Hba. destruct (f64_rank a) as [[]], (f64_rank b) as [[]]; simpl; lia.
Qed.

Lemma f64_not_lt_trans a b c : f64_is_nan a = false -> f64_is_nan b = false -> f64_is_nan c = false ->
  f64_lt a b = false -> f64_lt b c = false -> f64_lt a c = false.
Proof.
  intros Ha Hb Hc Hab Hbc. destruct (f64_lt a c) eqn:Hac; [|done]. apply f64_lt_rank in Hac as (_ & _ & Hac).
  assert (Hn : forall x y, f64_is_nan x = false -> f64_is_nan y = false -> f64_lt x y = false -> ~ rank_lt (f64_rank x) (f64_rank y)).
  { intros x y Hx Hy Hxy Hr. assert (f64_lt x y = true) by (by apply f64_lt_rank). congruence. }
  pose proof (Hn _ _ Ha Hb Hab) as H1. pose proof (Hn _ _ Hb Hc Hbc) as H2. revert Hac H1 H2.
  destruct (f64_rank a) as [[]], (f64_rank b) as [[]], (f64_rank c) as [[]]; simpl; lia.
Qed.

(** [x as u64]: towards zero, saturating; NaN is 0. *)
Definition f64_to_u64 (a : f64) : Z :=
  match a with
  | S754_finite false m e => Z.min (Z.shiftl (Z.pos m) e) u64_max
  | S754_infinity false => u64_max
  | _ => 0%Z
  end.

Example f64_to_u64_ex :
  (f64_to_u64 (f64_mul (f64_of_Z 128000) (f64_ratio 7 10)), f64_to_u64 (f64_ratio 29 10),
   f64_to_u64 (f64_of_Z (-3))) = (89600, 2, 0)%Z.
Proof. vm_compute. reflexivity. Qed.

(** [{:.k}]: the exact value rounded half to even to [k] decimals. *)
Definition round_half_even (num den : Z) : Z :=
  let q := (num / den)%Z in
  let r := (num mod den)%Z in
  if Z.ltb (2 * r) den then q
  else if Z.ltb den (2 * r) then (q + 1)%Z
  else if Z.even q then q else (q + 1)%Z.

Definition show_Z (z : Z) : string := pretty.pretty z.

Definition pad_zeros (k : nat) (s : string) : string :=
  String.concat "" (replicate (k - String.length s) "0"%string) +:+ s.

Definition fmt_fixed (k : nat) (a : f64) : string :=
  let sign (s : bool) := if s then "-"%string else ""%string in
  let digits (n : Z) :=
    show_Z (n / 10 ^ Z.of_nat k) +:+ "." +:+ pad_zeros k (show_Z (n mod 10 ^ Z.of_nat k)) in
  match a with
  | S754_nan => "NaN"
  | S754_infinity s => sign s +:+ "inf"
  | S754_zero s => sign s +:+ digits 0%Z
  | S754_finite s m e =>
      sign s +:+ digits (round_half_even (Z.pos m * 2 ^ Z.max 0 e * 10 ^ Z.of_nat k) (2 ^ Z.max 0 (- e)))
  end.

Example fmt_fixed_ex :
  (fmt_fixed 2 (f64_ratio 5 2), fmt_fixed 4 (f64_ratio 66 10000), fmt_fixed 2 (f64_ratio 1 8), fmt_fixed 2 f64_zero)
  = ("2.50", "0.0066", "0.12", "0.00")%string.
Proof. vm_compute. reflexivity. Qed.

(** [{:.0}]. *)
Definition fmt_whole (a : f64) : string :=
  let sign (s : bool) := if s then "-"%string else ""%string in
  match a with
  | S754_finite s m e => sign s +:+ show_Z (round_half_even (Z.pos m * 2 ^ Z.max 0 e) (2 ^ Z.max 0 (- e)))
  | S754_zero s => sign s +:+ "0"
  | _ => fmt_fixed 0 a
  end.

Example fmt_whole_ex : (fmt_whole (f64_ratio 5 2), fmt_whole (f64_ratio 7 2), fmt_whole S754_nan) = ("2", "4", "NaN")%string.
Proof. vm_compute. reflexivity. Qed.

(** ** [f32]: binary32 *)

Definition prec32 : Z := 24.
Definition emax32 : Z := 128.
Definition f32_of_Z (n : Z) : spec_float := binary_normalize prec32 emax32 n 0 false.
Definition f32_div : spec_float -> spec_float -> spec_float := SFdiv prec32 emax32.

(** The literal [m / d]: the nearest binary32. *)
Definition f32_ratio (m d : Z) : spec_float := f32_div (f32_of_Z m) (f32_of_Z d).
