(* ===== verification/Json.v ===== *)
(** * Json: the interface to [serde_json::Value]

    JSON values come from a third-party crate.  The program only builds them
    and reads fields; [Json] lists the operations it relies on, and the
    components are stated for any instance of it. *)

From stdpp Require Import base list strings.
From stdpp Require pretty.
From Stdlib Require Import ZArith Lia.
From S2P Require Import Prelude.

Class Json := {
  Value : Type;
  json_string : string -> Value;                    (* [Value::String(s)] *)
  json_bool : bool -> Value;                        (* [json!(b)] *)
  json_int : Z -> Value;                            (* [json!(n)] *)
  json_null : Value;                                (* [Value::Null] *)
  json_array : list Value -> Value;                 (* [Value::Array(l)] *)
  json_object : list (string * Value) -> Value;     (* [json!({..})] *)
  json_get : Value -> string -> option Value;       (* [Value::get] with a key *)
  json_set : Value -> string -> Value -> Value;     (* assignment through [get_mut] *)
  json_insert : Value -> string -> Value -> option Value; (* [v[key] = x]; it panics unless [v] is an object or null *)
  is_null : Value -> bool;                          (* [Value::Null] *)
  as_str : Value -> option string;                  (* [Value::as_str] *)
  as_u64 : Value -> option Z;                       (* [Value::as_u64] *)
  as_i64 : Value -> option Z;                       (* [Value::as_i64] *)
  as_bool : Value -> option bool;                   (* [Value::as_bool] *)
  as_array : Value -> option (list Value);          (* [Value::as_array] *)
  as_object : Value -> option (list (string * Value)); (* [Value::Object(map)], in the map's order *)
  json_parse : string -> option Value;              (* [serde_json::from_str(s).ok()] *)
  json_size : Value -> nat;                         (* a measure of the text a value needs *)
  to_json_string : Value -> option string           (* [serde_json::to_string(v).ok()] *)
}.

(** The value of a field: the first with its key. *)
Fixpoint assoc {A} (fields : list (string * A)) (k : string) : option A :=
  match fields with
  | [] => None
  | (k', v) :: rest => if String.eqb k k' then Some v else assoc rest k
  end.

(** Replacing it. *)
Fixpoint assoc_set {A} (fields : list (string * A)) (k : string) (x : A) : list (string * A) :=
  match fields with
  | [] => []
  | (k', v) :: rest => if String.eqb k k' then (k', x) :: rest else (k', v) :: assoc_set rest k x
  end.

Lemma assoc_set_get {A} (fs : list (string * A)) k x k' :
  is_some (assoc fs k) = true ->
  assoc (assoc_set fs k x) k' = if String.eqb k' k then Some x else assoc fs k'.
Proof.
  induction fs as [|[k0 v] fs IH]; [done|]. simpl. destruct (String.eqb_spec k k0) as [<-|Hne]; simpl.
  - intros _. by destruct (String.eqb k' k).
  - intros Hk. rewrite (IH Hk). destruct (String.eqb_spec k' k0) as [->|]; [|done].
    destruct (String.eqb_spec k0 k); congruence.
Qed.

(** Replacing it or adding it. *)
Definition assoc_insert {A} (fields : list (string * A)) (k : string) (x : A) : list (string * A) :=
  if is_some (assoc fields k) then assoc_set fields k x else (fields ++ [(k, x)])%list.

Lemma assoc_app {A} (l m : list (string * A)) k : assoc (l ++ m)%list k = match assoc l k with Some x => Some x | None => assoc m k end.
Proof. induction l as [|[k' v] l IH]; [done|]. simpl. by destruct (String.eqb k k'). Qed.

Lemma assoc_insert_get {A} (fs : list (string * A)) k x k' :
  assoc (assoc_insert fs k x) k' = if String.eqb k' k then Some x else assoc fs k'.
Proof.
  unfold assoc_insert. destruct (is_some (assoc fs k)) eqn:Hk; [by apply assoc_set_get|]. rewrite assoc_app. simpl.
  destruct (String.eqb_spec k' k) as [->|]; [|by destruct (assoc fs k')]. by destruct (assoc fs k).
Qed.

(** What is found is a field. *)
Lemma assoc_in {A} (fs : list (string * A)) k x : assoc fs k = Some x -> (k, x) ∈ fs.
Proof.
  induction fs as [|[k' y] fs IH]; [done|]. simpl. destruct (String.eqb_spec k k') as [->|]; [intros [= ->]; left|right; by apply IH].
Qed.

(** What the accessors give back of what was built (object keys distinct). *)
Class JsonLaws `{Json} := {
  as_str_string : forall s, as_str (json_string s) = Some s;
  as_str_array : forall l, as_str (json_array l) = None;
  as_array_array : forall l, as_array (json_array l) = Some l;
  as_array_string : forall s, as_array (json_string s) = None;
  as_array_object : forall fs, as_array (json_object fs) = None;
  as_array_null : as_array json_null = None;
  as_object_object : forall fs, is_some (as_object (json_object fs)) = true;
  as_object_nil : as_object (json_object []) = Some [];
  as_i64_int : forall n, is_i64 n -> as_i64 (json_int n) = Some n;
  as_i64_range : forall v n, as_i64 v = Some n -> is_i64 n;
  as_i64_string : forall s, as_i64 (json_string s) = None;
  is_null_null : is_null json_null = true;
  is_null_int : forall n, is_null (json_int n) = false;
  is_null_string : forall s, is_null (json_string s) = false;
  as_bool_bool : forall b, as_bool (json_bool b) = Some b;
  insert_object : forall fs k x, is_some (json_insert (json_object fs) k x) = true;
  insert_get : forall v k x v', json_insert v k x = Some v' ->
    forall k', json_get v' k' = if String.eqb k' k then Some x else json_get v k';
  insert_some : forall v k x y, json_get v k = Some y -> is_some (json_insert v k x) = true;
  array_eta : forall v l, as_array v = Some l -> json_array l = v;
  text_object : forall fs s, to_json_string (json_object fs) = Some s -> exists t, s = "{" +:+ t +:+ "}";
  json_get_object : forall fs k, NoDup fs.*1 -> json_get (json_object fs) k = assoc fs k;
  json_get_set : forall v k x k', is_some (json_get v k) = true ->
    json_get (json_set v k x) k' = if String.eqb k' k then Some x else json_get v k';
  size_array : forall v l x, as_array v = Some l -> x ∈ l -> (json_size x < json_size v)%nat;
  size_object : forall v fs k x, as_object v = Some fs -> (k, x) ∈ fs -> (json_size x < json_size v)%nat;
  size_parse : forall v s x, as_str v = Some s -> json_parse s = Some x -> (json_size x < json_size v)%nat
}.

(** [input.get(key)?.as_str()?]. *)
Definition str_field `{Json} (v : Value) (key : string) : option string :=
  json_get v key ≫= as_str.

(** A concrete instance for the witnesses. *)
#[warnings="-register-all"]
Inductive flat :=
| FStr (s : string) | FBool (b : bool) | FInt (n : Z) | FNull
| FArr (l : list flat) | FObj (fields : list (string * flat)).

(** A rendering; the values of the witnesses need no escapes. *)
Fixpoint flat_print (v : flat) : string :=
  match v with
  | FStr s => s
  | FBool b => if b then "true" else "false"
  | FInt n => pretty.pretty n
  | FNull => "null"
  | FArr l => "[" +:+ foldr (fun x acc => flat_print x +:+ "," +:+ acc) "]" l
  | FObj fs => "{" +:+ foldr (fun '(k, x) acc => k +:+ ":" +:+ flat_print x +:+ "," +:+ acc) "}" fs
  end.

Fixpoint flat_size (v : flat) : nat :=
  match v with
  | FArr l => S (sum_list_with flat_size l)
  | FObj fs => S (sum_list_with (fun '(_, x) => flat_size x) fs)
  | FStr s => S (String.length s)
  | _ => 1
  end.

(** A reader of texts is chosen by the witness. *)
Definition flat_json_with (parse : string -> option flat) : Json := {|
  Value := flat;
  json_string := FStr;
  json_bool := FBool;
  json_int := FInt;
  json_null := FNull;
  json_array := FArr;
  json_object := FObj;
  json_get v k := match v with FObj fs => assoc fs k | _ => None end;
  json_set v k x := match v with FObj fs => FObj (assoc_set fs k x) | _ => v end;
  json_insert v k x := match v with FObj fs => Some (FObj (assoc_insert fs k x)) | FNull => Some (FObj [(k, x)]) | _ => None end;
  is_null v := match v with FNull => true | _ => false end;
  as_str v := match v with FStr s => Some s | _ => None end;
  as_u64 v := match v with
              | FInt n => if (Z.leb 0 n && Z.leb n u64_max)%bool then Some n else None
              | _ => None
              end;
  as_i64 v := match v with
              | FInt n => if (Z.leb (- 2 ^ 63) n && Z.leb n (2 ^ 63 - 1))%bool then Some n else None
              | _ => None
              end;
  as_bool v := match v with FBool b => Some b | _ => None end;
  as_array v := match v with FArr l => Some l | _ => None end;
  as_object v := match v with FObj fs => Some fs | _ => None end;
  json_parse := parse;
  json_size := flat_size;
  to_json_string v := Some (flat_print v)
|}.

(** The only JSON text in most witnesses is the empty object. *)
Definition flat_json : Json :=
  flat_json_with (fun s => if String.eqb s "{}" then Some (FObj []) else None).

Lemma sum_list_with_in {A} (f : A -> nat) x l : x ∈ l -> (f x <= sum_list_with f l)%nat.
Proof. induction 1; simpl; lia. Qed.

Lemma flat_json_with_laws parse :
  (forall s x, parse s = Some x -> (flat_size x <= String.length s)%nat) ->
  @JsonLaws (flat_json_with parse).
Proof.
  intros Hparse. split; try done.
  - intros n Hn. simpl. unfold is_i64 in Hn.
    by rewrite (proj2 (Z.leb_le _ _)), (proj2 (Z.leb_le _ _)) by lia.
  - intros [| |n'| | |] n; try done. simpl. case_match eqn:E; [|done]. intros [= <-].
    apply andb_true_iff in E as [?%Z.leb_le ?%Z.leb_le]. by unfold is_i64; lia.
  - intros [| | | | |fs] k x v'; cbn; intros [= <-] k'; [by cbn; destruct (String.eqb k' k)|apply assoc_insert_get].
  - by intros [| | | | |fs] k x y.
  - by intros [| | | |l0|] l [= ->].
  - intros fs s [= <-]. simpl.
    enough (exists t, foldr (fun '(k, x) acc => k +:+ ":" +:+ flat_print x +:+ "," +:+ acc) "}" fs
                      = t +:+ "}") as [t ->] by (by exists t).
    induction fs as [|[k x] fs [t IH]]; simpl; [by exists ""|]. rewrite IH.
    exists (k +:+ ":" +:+ flat_print x +:+ "," +:+ t). by rewrite !append_assoc.
  - intros [| | | | |fs] k x k' Hk; try done. by apply assoc_set_get.
  - intros [| | | |l0|] l x [= ->] Hx. simpl. apply (sum_list_with_in flat_size) in Hx. lia.
  - intros [| | | | |fs0] fs k x [= ->] Hx. simpl.
    apply (sum_list_with_in (fun '(_, y) => flat_size y)) in Hx. simpl in Hx. lia.
  - intros [s'| | | | |] s x [= ->] Hs. simpl. apply Hparse in Hs. simpl in Hs. lia.
Qed.

Lemma flat_json_laws : @JsonLaws flat_json.
Proof.
  apply flat_json_with_laws. intros s x. destruct (String.eqb_spec s "{}") as [->|]; [|done].
  intros [= <-]. simpl. lia.
Qed.
