(* ===== verification/Paths.v ===== *)
(** * Paths: [tools/builtins/path_utils.rs]

    A path is its list of components, which is how [std::path] compares,
    joins and prefixes paths.  The file system (existence, canonicalization)
    is outside the program: a parameter of the definitions that consult it. *)

From stdpp Require Import base list strings sets relations.
From Stdlib Require Import ZArith Lia.
From S2P Require Import Prelude Text.

(** ** [std::path] on Unix *)

Inductive Component := RootDir | CurDir | ParentDir | Normal (name : string).

#[export] Instance Component_eq_dec : EqDecision Component.
Proof. solve_decision. Defined.

Abbreviation Path := (list Component).

Definition slash : byte := Ascii.ascii_of_nat 47.

(** Split at every [/]. *)
Fixpoint split_slash (l : list byte) : list (list byte) :=
  match l with
  | [] => [[]]
  | b :: l' =>
      if Ascii.eqb b slash then [] :: split_slash l'
      else match split_slash l' with
           | [] => [[b]]
           | seg :: rest => (b :: seg) :: rest
           end
  end.

Definition component_of (seg : list byte) : option Component :=
  let s := string_of seg in
  if String.eqb s "" then None
  else if String.eqb s "." then None
  else if String.eqb s ".." then Some ParentDir
  else Some (Normal s).

(** [Path::components]: a leading [/] is the root, a leading [.] of a relative
    path is kept, every other [.] and every empty segment disappears. *)
Definition dot : list byte := [Ascii.ascii_of_nat 46].

Definition components (s : string) : Path :=
  let segs := split_slash (bytes_of s) in
  let rest := omap component_of segs in
  match segs with
  | [] :: _ :: _ => RootDir :: rest
  | seg :: _ => if bool_decide (seg = dot) then CurDir :: rest else rest
  | [] => rest
  end.

Example components_ex1 :
  components "/a/./b//../c/" = [RootDir; Normal "a"; Normal "b"; ParentDir; Normal "c"].
Proof. reflexivity. Qed.
Example components_ex2 : components "./a" = [CurDir; Normal "a"].
Proof. reflexivity. Qed.

(** [Path::is_absolute], [Path::join], [Path::starts_with], [Path::parent],
    [Path::file_name]. *)
Definition is_absolute (p : Path) : bool :=
  match p with RootDir :: _ => true | _ => false end.

Definition join (base q : Path) : Path :=
  if is_absolute q then q
  else if bool_decide (base = []) then q
  else base ++ filter (fun c => c <> CurDir) q.

Fixpoint path_starts_with (p q : Path) {struct q} : bool :=
  match q, p with
  | [], _ => true
  | y :: q', x :: p' => bool_decide (x = y) && path_starts_with p' q'
  | _ :: _, [] => false
  end.

Definition parent (p : Path) : option Path :=
  match last p with
  | Some RootDir | None => None
  | Some _ => Some (take (length p - 1) p)
  end.

Definition file_name (p : Path) : Path :=
  match last p with Some (Normal n) => [Normal n] | _ => [] end.

(** [to_string_lossy] of a path: the components joined by [/]. *)
Fixpoint join_slash (p : Path) : string :=
  match p with
  | [] => ""
  | RootDir :: p' => "/" +:+ join_slash p'
  | CurDir :: p' => "." +:+ (match p' with [] => "" | _ => "/" +:+ join_slash p' end)
  | ParentDir :: p' => ".." +:+ (match p' with [] => "" | _ => "/" +:+ join_slash p' end)
  | Normal n :: p' => n +:+ (match p' with [] => "" | _ => "/" +:+ join_slash p' end)
  end.

(** ** [normalize_path]

    One pass over the components with a stack; [..] pops whatever is on top.
    [components.iter().collect()] rebuilds the same component list: a
    [RootDir] can only be at its head. *)
Definition normalize_step (acc : Path) (c : Component) : Path :=
  match c with
  | ParentDir => if bool_decide (acc = []) then acc else take (length acc - 1) acc
  | CurDir => acc
  | other => acc ++ [other]
  end.

Definition normalize_path (p : Path) : Path := foldl normalize_step [] p.

(** ** Boundaries *)

(** [is_within_boundaries]. *)
Fixpoint within_any (p : Path) (dirs : list Path) : bool :=
  match dirs with
  | [] => false
  | d :: rest => if path_starts_with p (normalize_path d) then true else within_any p rest
  end.

Definition is_within_boundaries (p cwd : Path) (additional_dirs : list Path) : bool :=
  if path_starts_with p (normalize_path cwd) then true else within_any p additional_dirs.

(** The file system as the code consults it. *)
Class FileSystem := {
  path_exists : Path -> bool;             (* [Path::exists] *)
  canonicalize : Path -> option Path      (* [Path::canonicalize().ok()] *)
}.

Inductive ResolveError := EmptyPath | OutsideBoundaries | SymlinkEscape.

Section Resolve.
Context {fs : FileSystem}.

(** [is_within_canonical_boundaries]. *)
Definition is_within_canonical_boundaries (p cwd : Path) (additional_dirs : list Path) : bool :=
  existsb (path_starts_with p) (omap canonicalize (cwd :: additional_dirs)).

(** [contains_symlink_escape]. *)
Definition contains_symlink_escape (p cwd : Path) (additional_dirs : list Path) : bool :=
  let check candidate :=
    match canonicalize candidate with
    | Some resolved => negb (is_within_canonical_boundaries resolved cwd additional_dirs)
    | None => false
    end in
  if path_exists p then check p
  else match parent p ≫= canonicalize with
       | Some par => check (join par (file_name p))
       | None => false
       end.

(** [resolve_and_validate_path]. *)
Definition resolve_and_validate_path (path : string) (cwd : Path)
    (additional_dirs : list Path) : result Path ResolveError :=
  if is_empty path then Err EmptyPath
  else
    let raw := components path in
    let normalized :=
      if is_absolute raw then normalize_path raw else normalize_path (join cwd raw) in
    if negb (is_within_boundaries normalized cwd additional_dirs) then Err OutsideBoundaries
    else if contains_symlink_escape normalized cwd additional_dirs then Err SymlinkEscape
    else Ok normalized.
End Resolve.

(** ** Lemmas *)

Lemma starts_with_iff p q : path_starts_with p q = true <-> q `prefix_of` p.
Proof.
  revert p. induction q as [|y q IH]; intros p; simpl.
  - split; [intros _; apply prefix_nil|done].
  - destruct p as [|x p]; [split; [done|by intros H%prefix_nil_inv]|].
    rewrite andb_true_iff, bool_decide_eq_true, IH. split.
    + intros [-> H]. by apply prefix_cons.
    + intros H. split; [by apply prefix_cons_inv_1 in H|by apply prefix_cons_inv_2 in H].
Qed.

Lemma within_any_iff p dirs :
  within_any p dirs = true <-> exists d, d ∈ dirs /\ normalize_path d `prefix_of` p.
Proof.
  induction dirs as [|d dirs IH]; simpl; [split; [done|by intros (? & ?%not_elem_of_nil & _)]|].
  destruct (path_starts_with p (normalize_path d)) eqn:Hs.
  - apply starts_with_iff in Hs. split; [intros _; exists d; set_solver|done].
  - rewrite IH. split.
    + intros (d' & ? & ?). exists d'. split; [by right|done].
    + intros (d' & Hin & Hp). apply elem_of_cons in Hin as [->|Hin]; [|by exists d'].
      apply starts_with_iff in Hp. congruence.
Qed.

Lemma within_boundaries_iff p cwd dirs :
  is_within_boundaries p cwd dirs = true <->
  exists d, d ∈ cwd :: dirs /\ normalize_path d `prefix_of` p.
Proof.
  unfold is_within_boundaries. rewrite <- (within_any_iff p (cwd :: dirs)). done.
Qed.

(** A path with no [.] and no [..]. *)
Definition clean (p : Path) : Prop := (CurDir ∉ p) /\ (ParentDir ∉ p).

Lemma clean_app p q : clean (p ++ q) <-> clean p /\ clean q.
Proof. unfold clean; set_solver. Qed.

Lemma normalize_step_clean acc c : clean acc -> clean (normalize_step acc c).
Proof.
  intros Ha. destruct c; simpl; try done.
  - apply clean_app. split; [done|]. unfold clean. set_solver.
  - case_bool_decide; [done|].
    rewrite <- (take_drop (length acc - 1) acc), clean_app in Ha. tauto.
  - apply clean_app. split; [done|]. unfold clean. set_solver.
Qed.

Lemma foldl_normalize_clean p acc : clean acc -> clean (foldl normalize_step acc p).
Proof. revert acc. induction p; simpl; intros; [done|]. by apply IHp, normalize_step_clean. Qed.

Lemma normalize_clean p : clean (normalize_path p).
Proof. apply foldl_normalize_clean. unfold clean; set_solver. Qed.

Lemma foldl_normalize_id p acc : clean p -> foldl normalize_step acc p = acc ++ p.
Proof.
  revert acc. induction p as [|c p IH]; intros acc Hc; [by rewrite app_nil_r|].
  change (c :: p) with ([c] ++ p) in *. apply clean_app in Hc as [Hc Hp].
  rewrite foldl_app, IH by done. unfold clean in Hc.
  destruct c; simpl; try set_solver; by rewrite <- (assoc_L (++)).
Qed.

Lemma normalize_clean_id p : clean p -> normalize_path p = p.
Proof. intros. unfold normalize_path. by rewrite foldl_normalize_id. Qed.

#[export] Hint Resolve normalize_clean : rust.

(** Lexical resolution, one rule at a time: a [.] goes, a [..] goes with the
    component before it, the root not excepted, and a [..] with nothing before
    it goes alone. *)
Inductive lexical_step : Path -> Path -> Prop :=
| drop_here l r : lexical_step (l ++ CurDir :: r) (l ++ r)
| drop_parent l c r : c <> CurDir -> c <> ParentDir -> lexical_step (l ++ c :: ParentDir :: r) (l ++ r)
| drop_leading r : lexical_step (ParentDir :: r) r.

Lemma normalize_step_lexical acc c r : clean acc -> rtc lexical_step (acc ++ c :: r) (normalize_step acc c ++ r).
Proof.
  intros [Hc Hp]. destruct c; cbn [normalize_step]; try (rewrite <- (assoc_L (++)); apply rtc_refl); [apply rtc_once, drop_here|].
  destruct acc as [|x acc _] using rev_ind; [apply rtc_once, drop_leading|].
  rewrite bool_decide_eq_false_2 by (by destruct acc). rewrite length_app. simpl. rewrite Nat.add_sub, take_app_length.
  rewrite <- (assoc_L (++)). apply rtc_once, drop_parent; set_solver.
Qed.

Lemma normalize_lexical p : rtc lexical_step p (normalize_path p).
Proof.
  unfold normalize_path. enough (Hg : forall acc, clean acc -> rtc lexical_step (acc ++ p) (foldl normalize_step acc p)).
  { apply (Hg []). unfold clean. set_solver. }
  induction p as [|c p IH]; intros acc Ha; [by rewrite app_nil_r|]. cbn [foldl].
  etrans; [by apply normalize_step_lexical|]. by apply IH, normalize_step_clean.
Qed.

(** Lexical resolution below an absolute base: components that never climb
    above the root.  [depth] is the stack height the prefix has reached. *)
Fixpoint climbs (depth : nat) (p : Path) : bool :=
  match p with
  | [] => false
  | ParentDir :: p' => match depth with O => true | S d => climbs d p' end
  | CurDir :: p' => climbs depth p'
  | _ :: p' => climbs (S depth) p'
  end.

Lemma foldl_normalize_prefix base p :
  climbs 0 p = false ->
  forall acc, base `prefix_of` foldl normalize_step (base ++ acc) p \/
              (exists d, d = length acc /\ climbs d p = true).
Proof.
  intros _. induction p as [|c p IH]; intros acc; simpl.
  - left. by apply prefix_app_r.
  - destruct c; simpl.
    + rewrite <- (assoc_L (++)). destruct (IH (acc ++ [RootDir])) as [?|(d & -> & ?)]; [by left|].
      right. exists (length acc). split; [done|]. rewrite length_app in H. simpl in H.
      by replace (S (length acc)) with (length acc + 1)%nat by lia.
    + destruct (IH acc) as [?|(d & -> & ?)]; [by left|]. right. by exists (length acc).
    + destruct acc as [|a acc _] using rev_ind.
      * right. by exists 0%nat.
      * case_bool_decide as Hnil; [by destruct base, acc|].
        replace (take _ (base ++ acc ++ [a])) with (base ++ acc).
        2:{ rewrite (assoc_L (++)), take_app_length'; [done|].
            rewrite !length_app. simpl. lia. }
        destruct (IH acc) as [?|(d & -> & ?)]; [by left|]. right.
        exists (length (acc ++ [a])). split; [done|]. rewrite length_app. simpl.
        by replace (length acc + 1)%nat with (S (length acc)) by lia.
    + rewrite <- (assoc_L (++)). destruct (IH (acc ++ [Normal name])) as [?|(d & -> & ?)]; [by left|].
      right. exists (length acc). split; [done|]. rewrite length_app in H. simpl in H.
      by replace (S (length acc)) with (length acc + 1)%nat by lia.
Qed.

(** ** Properties *)

(** Resolving a relative path against a base is resolving its components from
    the base's normal form. *)
Lemma foldl_normalize_filter p acc :
  foldl normalize_step acc (filter (fun c => c <> CurDir) p) = foldl normalize_step acc p.
Proof.
  revert acc. induction p as [|c p IH]; intros acc; [done|].
  rewrite filter_cons. case_decide as Hc; simpl; [by rewrite IH|].
  subst c. simpl. apply IH.
Qed.

Lemma normalize_join base q :
  is_absolute q = false ->
  normalize_path (join base q) = foldl normalize_step (normalize_path base) q.
Proof.
  intros Hq. unfold join. rewrite Hq. case_bool_decide as Hb; [by subst|].
  unfold normalize_path. by rewrite foldl_app, foldl_normalize_filter.
Qed.

(** [normalize_path] yields a path with no [.] and no [..], is the
    identity on exactly such paths (so it is idempotent), and a relative path
    that never climbs above its start stays below the base it is joined to. *)
Theorem normalize_path_correct base p q :
  clean (normalize_path p) /\
  normalize_path (normalize_path p) = normalize_path p /\
  (clean p <-> normalize_path p = p) /\
  (is_absolute q = true \/ climbs 0 q = true \/
   normalize_path base `prefix_of` normalize_path (join base q)).
Proof.
  split_and!.
  - apply normalize_clean.
  - apply normalize_clean_id, normalize_clean.
  - split; [apply normalize_clean_id|intros <-; apply normalize_clean].
  - destruct (is_absolute q) eqn:Ha; [by left|right].
    destruct (climbs 0 q) eqn:Hc; [by left|right]. rewrite normalize_join by done.
    destruct (foldl_normalize_prefix (normalize_path base) q Hc []) as [H|(d & -> & H)].
    + by rewrite app_nil_r in H.
    + simpl in H. congruence.
Qed.

Section Containment.
Context {fs : FileSystem}.

(** Claim C36. What acceptance by [resolve_and_validate_path] guarantees: the
    path is the lexical normal form of the request, taken from the working
    directory when it is relative: it comes from it by the rules of lexical
    resolution and has no [.] and no [..] left.  It lies below
    the normal form of one of the allowed directories, and, when it exists and
    canonicalizes, its symlink-free form lies below the symlink-free form of an
    allowed directory. *)
Theorem resolve_contained path cwd dirs p :
  resolve_and_validate_path path cwd dirs = Ok p ->
  rtc lexical_step (join cwd (components path)) p /\ clean p /\
  (exists d, d ∈ cwd :: dirs /\ normalize_path d `prefix_of` p) /\
  (forall r, path_exists p = true -> canonicalize p = Some r ->
     exists d root, d ∈ cwd :: dirs /\ canonicalize d = Some root /\ root `prefix_of` r).
Proof.
  unfold resolve_and_validate_path. destruct (is_empty path); [done|].
  set (n := if is_absolute (components path) then _ else _).
  destruct (is_within_boundaries n cwd dirs) eqn:Hw; simpl; [|done].
  destruct (contains_symlink_escape n cwd dirs) eqn:He; [done|]. intros [= <-].
  split; [unfold n, join; destruct (is_absolute (components path)); apply normalize_lexical|].
  split; [unfold n; case_match; apply normalize_clean|].
  split; [by apply within_boundaries_iff|].
  intros r Hex Hcan. unfold contains_symlink_escape in He. rewrite Hex, Hcan in He.
  apply negb_false_iff, existsb_elem in He as (root & Hin & Hp).
  apply list_elem_of_omap in Hin as (d & Hd & Hroot). apply starts_with_iff in Hp. eauto.
Qed.

(** Where the check gives no guarantee: for a path that does not
    exist yet, whose resolved form (canonical parent, same name) does not
    exist either, canonicalization of the candidate fails and the check
    answers "no escape" whatever the parent resolves to, so acceptance is
    decided lexically. *)
Theorem new_file_symlink_unchecked path cwd dirs :
  (forall q, canonicalize q <> None -> path_exists q = true) ->
  let raw := components path in
  let n := if is_absolute raw then normalize_path raw else normalize_path (join cwd raw) in
  path_exists n = false ->
  (forall par, parent n ≫= canonicalize = Some par ->
     path_exists (join par (file_name n)) = false) ->
  resolve_and_validate_path path cwd dirs =
    if is_empty path then Err EmptyPath
    else if is_within_boundaries n cwd dirs then Ok n else Err OutsideBoundaries.
Proof.
  intros Hcan raw n Hn Hpar. unfold resolve_and_validate_path. fold raw. fold n.
  destruct (is_empty path); [done|].
  destruct (is_within_boundaries n cwd dirs); simpl; [|done].
  assert (contains_symlink_escape n cwd dirs = false) as ->; [|done].
  unfold contains_symlink_escape. rewrite Hn.
  destruct (parent n ≫= canonicalize) as [par|] eqn:Hp; [|done].
  specialize (Hpar par eq_refl).
  destruct (canonicalize (join par (file_name n))) as [r|] eqn:Hr; [|done].
  rewrite Hcan in Hpar; [done|congruence].
Qed.
End Containment.

(** A file system with a symlink [/proj/link] to [/etc]; [/proj] itself is
    real and [/etc/new.conf] does not exist. *)
Definition proj : Path := components "/proj".
Definition symlink_fs : FileSystem := {|
  path_exists p := bool_decide (p ∈ [proj; components "/proj/link"; components "/proj/f";
                                     components "/etc"]);
  canonicalize p :=
    if bool_decide (p = components "/proj/link") then Some (components "/etc")
    else if bool_decide (p ∈ [proj; components "/proj/f"; components "/etc"]) then Some p
    else None
|}.

Lemma resolve_contained_witness :
  resolve_and_validate_path (fs := symlink_fs) "sub/../f" proj [] = Ok (components "/proj/f") /\
  exists d, d ∈ [proj] /\ normalize_path d `prefix_of` components "/proj/f".
Proof.
  split; [reflexivity|].
  exact (proj1 (proj2 (proj2 (resolve_contained (fs := symlink_fs) "sub/../f" proj []
           (components "/proj/f") eq_refl)))).
Defined.

Lemma new_file_symlink_unchecked_witness :
  resolve_and_validate_path (fs := symlink_fs) "link/new.conf" proj [] =
    Ok (components "/proj/link/new.conf") /\
  canonicalize (FileSystem := symlink_fs) (components "/proj/link") = Some (components "/etc").
Proof.
  split; [|reflexivity].
  rewrite (new_file_symlink_unchecked (fs := symlink_fs) "link/new.conf" proj []).
  - reflexivity.
  - intros q. simpl. repeat case_bool_decide; try done; intros _; exfalso; set_solver.
  - reflexivity.
  - intros par. vm_compute. by intros [= <-].
Defined.

(** The direct check on the symlinked directory itself does refuse. *)
Example symlink_dir_refused :
  resolve_and_validate_path (fs := symlink_fs) "link" proj [] = Err SymlinkEscape.
Proof. reflexivity. Qed.

(** [..] also pops the root: the comment of [normalize_path] says only a
    normal component is popped.  The path becomes relative, and is refused. *)
Example normalize_pops_root :
  normalize_path (components "/../etc/passwd") = [Normal "etc"; Normal "passwd"].
Proof. reflexivity. Qed.
