(* ===== verification/TeamTypes.v ===== *)
(** * TeamTypes: [engine/team/types.rs]

    The data of a team of sub-agents and the operations that change it.  The
    clock ([chrono::Utc::now]) is an argument of the operations that read it. *)

From stdpp Require Import base gmap strings list fin_maps.
From Stdlib Require Import ZArith Lia.
From S2P Require Import Prelude Text Float64 Json.

#[local] Open Scope Z_scope.

Inductive TeamMode := Parallel | Sequence | Dag.
Inductive TeamStatus := TeamPending | TeamRunning | TeamCompleted | TeamFailed | TeamAborted.
Inductive SubAgentStatus :=
| AgentPending | AgentRunning | AgentCompleted | AgentFailed | AgentSkipped.

#[export] Instance TeamMode_eq_dec : EqDecision TeamMode.
Proof. solve_decision. Defined.
#[export] Instance TeamStatus_eq_dec : EqDecision TeamStatus.
Proof. solve_decision. Defined.
#[export] Instance SubAgentStatus_eq_dec : EqDecision SubAgentStatus.
Proof. solve_decision. Defined.

(** [Display for TeamMode] and [FromStr for TeamMode].  No code point outside
    ASCII lowercases to a letter of the four names, so the ASCII case map
    agrees with [to_lowercase] on every string that can match. *)
Definition team_mode_to_string (m : TeamMode) : string :=
  match m with Parallel => "parallel" | Sequence => "sequence" | Dag => "dag" end.

Definition team_mode_from_str (s : string) : result TeamMode string :=
  let l := to_ascii_lowercase s in
  if String.eqb l "parallel" then Ok Parallel
  else if String.eqb l "sequence" || String.eqb l "sequential" then Ok Sequence
  else if String.eqb l "dag" then Ok Dag
  else Err ("Unknown team mode: " +:+ s).

(** ** Sub-agents *)

Record SubAgent := mkAgent {
  agent_id : string;
  agent_name : string;
  agent_prompt : string;
  agent_status : SubAgentStatus;
  agent_dependencies : list string;
  agent_result : option string;
  agent_error : option string;
  tokens_used : Z;
  cost_usd : f64;
  agent_metadata : gmap string string
}.

(** [SubAgent::new]. *)
Definition new_agent (id prompt : string) : SubAgent :=
  mkAgent id id prompt AgentPending [] None None 0 f64_zero ∅.

(** [SubAgent::with_dependency]. *)
Definition agent_with_dependency (dep : string) (a : SubAgent) : SubAgent :=
  mkAgent (agent_id a) (agent_name a) (agent_prompt a) (agent_status a)
    (agent_dependencies a ++ [dep]) (agent_result a) (agent_error a) (tokens_used a)
    (cost_usd a) (agent_metadata a).

(** [SubAgent::start], [complete], [fail], [skip]. *)
Definition agent_start (a : SubAgent) : SubAgent :=
  mkAgent (agent_id a) (agent_name a) (agent_prompt a) AgentRunning (agent_dependencies a)
    (agent_result a) (agent_error a) (tokens_used a) (cost_usd a) (agent_metadata a).

Definition agent_complete (result : string) (tokens : Z) (cost : f64) (a : SubAgent) : SubAgent :=
  mkAgent (agent_id a) (agent_name a) (agent_prompt a) AgentCompleted (agent_dependencies a)
    (Some result) (agent_error a) tokens cost (agent_metadata a).

Definition agent_fail (error : string) (a : SubAgent) : SubAgent :=
  mkAgent (agent_id a) (agent_name a) (agent_prompt a) AgentFailed (agent_dependencies a)
    (agent_result a) (Some error) (tokens_used a) (cost_usd a) (agent_metadata a).

Definition agent_skip (reason : string) (a : SubAgent) : SubAgent :=
  mkAgent (agent_id a) (agent_name a) (agent_prompt a) AgentSkipped (agent_dependencies a)
    (agent_result a) (agent_error a) (tokens_used a) (cost_usd a)
    (<["skip_reason" := reason]> (agent_metadata a)).

(** [SubAgent::is_ready]. *)
Definition agent_is_ready (completed : gset string) (a : SubAgent) : bool :=
  bool_decide (agent_status a = AgentPending)
  && forallb (fun d => bool_decide (d ∈ completed)) (agent_dependencies a).

(** ** Budgets, shared state, teams *)

Record TeamBudget := mkBudget {
  max_cost_usd : option f64; max_tokens : option Z; max_time_secs : option Z }.

Definition default_budget : TeamBudget := mkBudget None None (Some 600).

Section Team.
Context `{Json}.

Record ProgressReport := mkProgress {
  pr_agent_id : string; pr_message : string; pr_progress : f64; pr_timestamp : string }.

Record SharedState := mkShared {
  data : gmap string Value; progress : list ProgressReport }.

Definition empty_shared : SharedState := mkShared ∅ [].

(** [SharedState::set], [get], [report_progress]. *)
Definition shared_set (key : string) (v : Value) (s : SharedState) : SharedState :=
  mkShared (<[key := v]> (data s)) (progress s).
Definition shared_get (key : string) (s : SharedState) : option Value := data s !! key.
Definition report_progress (now agent message : string) (p : f64) (s : SharedState) :=
  mkShared (data s) (progress s ++ [mkProgress agent message p now]).

Record AgentTeam := mkTeam {
  team_id : string;
  team_name : option string;
  task : string;
  team_mode : TeamMode;
  team_status : TeamStatus;
  agents : list SubAgent;
  budget : option TeamBudget;
  shared_state : SharedState;
  created_at : string;
  started_at : option string;
  completed_at : option string;
  total_tokens : Z;
  total_cost_usd : f64;
  team_cwd : option string
}.

(** [AgentTeam::new]. *)
Definition new_team (now id task : string) : AgentTeam :=
  mkTeam id None task Parallel TeamPending [] None empty_shared now None None 0 f64_zero None.

(** Functional update: the agents, or the outcome fields. *)
Definition with_agents (l : list SubAgent) (t : AgentTeam) : AgentTeam :=
  mkTeam (team_id t) (team_name t) (task t) (team_mode t) (team_status t) l (budget t)
    (shared_state t) (created_at t) (started_at t) (completed_at t) (total_tokens t)
    (total_cost_usd t) (team_cwd t).
Definition with_outcome (st : TeamStatus) (sh : SharedState) (started completed : option string)
    (t : AgentTeam) : AgentTeam :=
  mkTeam (team_id t) (team_name t) (task t) (team_mode t) st (agents t) (budget t) sh
    (created_at t) started completed (total_tokens t) (total_cost_usd t) (team_cwd t).
Definition with_totals (tokens : Z) (cost : f64) (t : AgentTeam) : AgentTeam :=
  mkTeam (team_id t) (team_name t) (task t) (team_mode t) (team_status t) (agents t)
    (budget t) (shared_state t) (created_at t) (started_at t) (completed_at t) tokens cost
    (team_cwd t).

(** [AgentTeam::add_agent]. *)
Definition add_agent (a : SubAgent) (t : AgentTeam) : AgentTeam :=
  with_agents (agents t ++ [a]) t.

(** [AgentTeam::create_parallel_agents]. *)
Definition create_parallel_agents (count : nat) (prompt_prefix : string) (t : AgentTeam) :=
  with_agents (agents t ++
    ((fun i => new_agent ("agent-" +:+ show_nat i)
                 (prompt_prefix +:+ " (part " +:+ show_nat (i + 1) +:+ ")")) <$> seq 0 count)) t.

(** [AgentTeam::get_agent], and an edit through [get_agent_mut]: the first
    agent with the id. *)
Definition get_agent (id : string) (t : AgentTeam) : option SubAgent :=
  List.find (fun a => String.eqb (agent_id a) id) (agents t).

Fixpoint edit_first (id : string) (f : SubAgent -> SubAgent) (l : list SubAgent) :=
  match l with
  | [] => []
  | a :: l' => if String.eqb (agent_id a) id then f a :: l' else a :: edit_first id f l'
  end.

Definition edit_agent (id : string) (f : SubAgent -> SubAgent) (t : AgentTeam) : AgentTeam :=
  with_agents (edit_first id f (agents t)) t.

(** [AgentTeam::calculate_totals]: the sums wrap like [u64] addition. *)
Definition calculate_totals (t : AgentTeam) : AgentTeam :=
  with_totals (foldl add64 0 (tokens_used <$> agents t)) (f64_sum (cost_usd <$> agents t)) t.

(** [AgentTeam::start], [complete], [fail], [abort]. *)
Definition team_start (now : string) (t : AgentTeam) : AgentTeam :=
  with_outcome TeamRunning (shared_state t) (Some now) (completed_at t) t.
Definition team_complete (now : string) (t : AgentTeam) : AgentTeam :=
  calculate_totals (with_outcome TeamCompleted (shared_state t) (started_at t) (Some now) t).
Definition team_fail (now error : string) (t : AgentTeam) : AgentTeam :=
  with_outcome TeamFailed (shared_set "error" (json_string error) (shared_state t))
    (started_at t) (Some now) t.
Definition team_abort (now reason : string) (t : AgentTeam) : AgentTeam :=
  with_outcome TeamAborted (shared_set "abort_reason" (json_string reason) (shared_state t))
    (started_at t) (Some now) t.

(** [AgentTeam::is_budget_exceeded]. *)
Definition is_budget_exceeded (t : AgentTeam) : bool :=
  match budget t with
  | None => false
  | Some b =>
      match max_cost_usd b with
      | Some c => if f64_ge (total_cost_usd t) c then true
                  else match max_tokens b with
                       | Some m => Z.leb m (total_tokens t) | None => false end
      | None => match max_tokens b with
                | Some m => Z.leb m (total_tokens t) | None => false end
      end
  end.

(** [AgentTeam::completed_agent_ids], [ready_agents]. *)
Definition is_status (s : SubAgentStatus) (a : SubAgent) : bool :=
  bool_decide (agent_status a = s).

Definition completed_agent_ids (t : AgentTeam) : gset string :=
  list_to_set (agent_id <$> List.filter (is_status AgentCompleted) (agents t)).

Definition ready_agents (t : AgentTeam) : list SubAgent :=
  List.filter (agent_is_ready (completed_agent_ids t)) (agents t).

(** [AgentTeam::collect_results]: a later agent of the same id wins. *)
Definition collect_results (t : AgentTeam) : gmap string string :=
  foldl (fun m a => match agent_result a with
                    | Some r => <[agent_id a := r]> m
                    | None => m
                    end) ∅ (List.filter (is_status AgentCompleted) (agents t)).

Record TeamSummary := mkSummary {
  total_agents : nat; pending_count : nat; running_count : nat; completed_count : nat;
  failed_count : nat; skipped_count : nat; sum_tokens : Z; sum_cost : f64 }.

(** One round of the counting loop of [AgentTeam::summary]. *)
Definition count_status (s : TeamSummary) (a : SubAgent) : TeamSummary :=
  let '(mkSummary n p r c f k t d) := s in
  match agent_status a with
  | AgentPending => mkSummary n (S p) r c f k t d
  | AgentRunning => mkSummary n p (S r) c f k t d
  | AgentCompleted => mkSummary n p r (S c) f k t d
  | AgentFailed => mkSummary n p r c (S f) k t d
  | AgentSkipped => mkSummary n p r c f (S k) t d
  end.

Definition summary (t : AgentTeam) : TeamSummary :=
  let s := foldl count_status (mkSummary (length (agents t)) 0 0 0 0 0 0 f64_zero) (agents t) in
  mkSummary (total_agents s) (pending_count s) (running_count s) (completed_count s)
    (failed_count s) (skipped_count s) (total_tokens t) (total_cost_usd t).

(** ** Lemmas *)

Lemma edit_first_length id f l : length (edit_first id f l) = length l.
Proof. induction l as [|a l IH]; simpl; [done|]. case_match; simpl; auto. Qed.

(** Editing an agent keeps the id sequence when the edit keeps the id. *)
Lemma edit_first_ids id f l :
  (forall a, agent_id (f a) = agent_id a) -> agent_id <$> edit_first id f l = agent_id <$> l.
Proof.
  intros Hf. induction l as [|a l IH]; csimpl; [done|].
  case_match; csimpl; [by rewrite Hf|by rewrite IH].
Qed.

Lemma elem_of_edit_first id f l a :
  a ∈ edit_first id f l -> a ∈ l \/ exists b, b ∈ l /\ agent_id b = id /\ a = f b.
Proof.
  induction l as [|b l IH]; simpl; [by left|]. case_match eqn:He; bool_hyps.
  - intros Hin. apply elem_of_cons in Hin as [->|Hin]; [right|left; by right].
    exists b. split; [left|done].
  - intros Hin. apply elem_of_cons in Hin as [->|Hin]; [left; by left|].
    destruct (IH Hin) as [?|(c & ? & ? & ?)]; [left; by right|right].
    exists c. split; [by right|done].
Qed.

Lemma elem_of_completed_ids t id :
  id ∈ completed_agent_ids t <->
  exists a, a ∈ agents t /\ agent_id a = id /\ agent_status a = AgentCompleted.
Proof.
  unfold completed_agent_ids. rewrite elem_of_list_to_set, list_elem_of_fmap. split.
  - intros (a & -> & Hin). apply list_elem_of_In, filter_In in Hin as [Hin Hs].
    unfold is_status in Hs. bool_hyps. exists a. by rewrite list_elem_of_In.
  - intros (a & Hin & <- & Hs). exists a. split; [done|].
    apply list_elem_of_In, filter_In. rewrite <- list_elem_of_In. split; [done|].
    by apply bool_decide_eq_true.
Qed.
End Team.

Arguments mkShared {_}.
Arguments mkTeam {_}.
