(* ===== verification/Scheduler.v ===== *)
(** * Scheduler: [engine/team/scheduler.rs]

    The DAG scheduler of sub-agent teams: nodes with dependencies, the reverse
    map and in-degree counts built from them, cycle detection, topological
    sorting, execution waves, ready-node selection, failure propagation and
    the critical path.  Iterations over the hash maps are stated for any
    iteration order. *)

From stdpp Require Import base gmap strings list fin_maps relations.
From Stdlib Require Import ZArith Lia.
From S2P Require Import Prelude Text Float64 Json TeamTypes.

#[local] Open Scope Z_scope.

(** ** Data *)

Record SchedulerError := mkError { code : string; message : string; err_node_id : option string }.

Inductive NodeStatus := Pending | Ready | Running | Completed | Failed | Skipped.

#[export] Instance NodeStatus_eq_dec : EqDecision NodeStatus.
Proof. solve_decision. Defined.

(** [Display for NodeStatus] and the two [From] conversions. *)
Definition node_status_to_string (s : NodeStatus) : string :=
  match s with
  | Pending => "pending" | Ready => "ready" | Running => "running"
  | Completed => "completed" | Failed => "failed" | Skipped => "skipped"
  end.

Definition node_status_of_agent (s : SubAgentStatus) : NodeStatus :=
  match s with
  | AgentPending => Pending | AgentRunning => Running | AgentCompleted => Completed
  | AgentFailed => Failed | AgentSkipped => Skipped
  end.

Definition agent_status_of_node (s : NodeStatus) : SubAgentStatus :=
  match s with
  | Pending => AgentPending | Ready => AgentPending | Running => AgentRunning
  | Completed => AgentCompleted | Failed => AgentFailed | Skipped => AgentSkipped
  end.

Record DagNode := mkNode {
  id : string;
  name : option string;
  prompt : option string;
  dependencies : list string;
  status : NodeStatus;
  priority : Z;
  max_parallel : option nat;
  metadata : gmap string string
}.

(** [DagNode::new], [with_dependency], [with_priority]. *)
Definition new_node (i p : string) : DagNode := mkNode i (Some i) (Some p) [] Pending 0 None ∅.

Definition with_dependency (d : string) (n : DagNode) : DagNode :=
  mkNode (id n) (name n) (prompt n) (dependencies n ++ [d]) (status n) (priority n)
    (max_parallel n) (metadata n).

Definition with_priority (p : Z) (n : DagNode) : DagNode :=
  mkNode (id n) (name n) (prompt n) (dependencies n) (status n) p (max_parallel n) (metadata n).

(** Assigning [status] and [metadata]. *)
Definition set_status (s : NodeStatus) (n : DagNode) : DagNode :=
  mkNode (id n) (name n) (prompt n) (dependencies n) s (priority n) (max_parallel n) (metadata n).

Definition insert_metadata (k v : string) (n : DagNode) : DagNode :=
  mkNode (id n) (name n) (prompt n) (dependencies n) (status n) (priority n) (max_parallel n)
    (<[k := v]> (metadata n)).

(** [DagNode::is_ready], [can_schedule]. *)
Definition is_ready (completed : gset string) (n : DagNode) : bool :=
  bool_decide (status n = Pending)
  && forallb (fun d => bool_decide (d ∈ completed)) (dependencies n).

Definition can_schedule (n : DagNode) : bool :=
  match status n with Pending | Ready => true | _ => false end.

(** [From<SubAgent> for DagNode]. *)
Definition node_of_agent (a : SubAgent) : DagNode :=
  mkNode (agent_id a) (Some (agent_name a)) (Some (agent_prompt a)) (agent_dependencies a)
    (node_status_of_agent (agent_status a))
    (default 0 (agent_metadata a !! "priority" ≫= parse_i32)) None (agent_metadata a).

Record ExecutionWave := mkWave { wave : nat; wave_nodes : list string; parallel : bool }.

Record DagScheduler := mkScheduler {
  nodes : gmap string DagNode;
  dependents : gmap string (list string);
  in_degree : gmap string Z;
  max_parallelism : nat
}.

(** The derived [Default]: [usize::default()] is 0.  The attribute
    [default_max_parallelism] (10) only concerns deserialization. *)
Definition default_max_parallelism : nat := 10.
Definition new : DagScheduler := mkScheduler ∅ ∅ ∅ 0.
Definition with_max_parallelism (max : nat) : DagScheduler := mkScheduler ∅ ∅ ∅ max.
Definition set_max_parallelism (max : nat) (s : DagScheduler) : DagScheduler :=
  mkScheduler (nodes s) (dependents s) (in_degree s) max.

Definition with_nodes (m : gmap string DagNode) (s : DagScheduler) : DagScheduler :=
  mkScheduler m (dependents s) (in_degree s) (max_parallelism s).

(** ** Construction *)

(** [add_node]. *)
Definition add_node (n : DagNode) (s : DagScheduler) : result DagScheduler SchedulerError :=
  if bool_decide (is_Some (nodes s !! id n)) then
    Err (mkError "duplicate_node" ("Node '" +:+ id n +:+ "' already exists") (Some (id n)))
  else Ok (with_nodes (<[id n := n]> (nodes s)) s).

(** [remove_node]: the in-degree counts are left as they were. *)
Definition remove_node (i : string) (s : DagScheduler) : DagScheduler * option DagNode :=
  match nodes s !! i with
  | None => (s, None)
  | Some n =>
      let deps := foldl (fun m d => alter (retain (fun x => negb (String.eqb x i))) d m)
                    (dependents s) (dependencies n) in
      (mkScheduler (delete i (nodes s)) (delete i deps) (in_degree s) (max_parallelism s), Some n)
  end.

(** [get_dependents], [get_dependencies]. *)
Definition get_dependents (i : string) (s : DagScheduler) : list string :=
  default [] (dependents s !! i).
Definition get_dependencies (i : string) (s : DagScheduler) : list string :=
  from_option dependencies [] (nodes s !! i).

(** [entry(dep).or_default().push(id)]. *)
Definition push_dependent (dep i : string) (m : gmap string (list string)) :=
  <[dep := default [] (m !! dep) ++ [i]]> m.

(** One node of the loop of [build]: all its dependencies must exist; then its
    count and its reverse edges are recorded. *)
Definition build_node (all : gmap string DagNode) (i : string) (n : DagNode)
    (acc : gmap string (list string) * gmap string Z) :
    result (gmap string (list string) * gmap string Z) SchedulerError :=
  match List.find (fun d => negb (bool_decide (is_Some (all !! d)))) (dependencies n) with
  | Some d => Err (mkError "missing_dependency" ("Dependency '" +:+ d +:+ "' does not exist") (Some i))
  | None =>
      Ok (foldl (fun m d => push_dependent d i m) acc.1 (dependencies n),
          <[i := Z.of_nat (length (dependencies n))]> acc.2)
  end.

Fixpoint build_nodes (all : gmap string DagNode) (l : list (string * DagNode))
    (acc : gmap string (list string) * gmap string Z) :
    result (gmap string (list string) * gmap string Z) SchedulerError :=
  match l with
  | [] => Ok acc
  | (i, n) :: l' => let? acc' := build_node all i n acc in build_nodes all l' acc'
  end.

(** ** Cycle detection *)

Section Cycle.
Context (deps : gmap string (list string)).

Abbreviation dfs_state := (gset string * gset string)%type.

(** The [for dep in dependents] loop of [has_cycle], given the recursive
    call: stop at the first cycle. *)
Fixpoint visit_all (rec : string -> dfs_state -> option (bool * dfs_state))
    (l : list string) (st : dfs_state) : option (bool * dfs_state) :=
  match l with
  | [] => Some (false, st)
  | d :: l' =>
      match rec d st with
      | None => None
      | Some (true, st') => Some (true, st')
      | Some (false, st') => visit_all rec l' st'
      end
  end.

(** [has_cycle]: [visited] and [rec_stack] are threaded as the mutable sets
    they are.  [None] is lack of fuel; [has_cycle_total] shows that one unit
    per node, and one to spare, is enough. *)
Fixpoint has_cycle (fuel : nat) (node_id : string) (st : dfs_state) :
    option (bool * dfs_state) :=
  match fuel with
  | O => None
  | S fuel' =>
      let '(visited, rec_stack) := st in
      if bool_decide (node_id ∈ rec_stack) then Some (true, st)
      else if bool_decide (node_id ∈ visited) then Some (false, st)
      else
        match visit_all (has_cycle fuel') (default [] (deps !! node_id))
                ({[node_id]} ∪ visited, {[node_id]} ∪ rec_stack) with
        | None => None
        | Some (true, st') => Some (true, st')
        | Some (false, (v, r)) => Some (false, (v, r ∖ {[node_id]}))
        end
  end.

(** The loop of [detect_cycles] over the node ids: the first id on which a
    cycle is found. *)
Fixpoint first_cycle (fuel : nat) (ids : list string) (st : dfs_state) :
    option (option string) :=
  match ids with
  | [] => Some None
  | i :: ids' =>
      match has_cycle fuel i st with
      | None => None
      | Some (true, _) => Some (Some i)
      | Some (false, st') => first_cycle fuel ids' st'
      end
  end.
End Cycle.

(** ** Sorting by priority, then id *)

Definition node_priority (m : gmap string DagNode) (i : string) : Z :=
  from_option priority 0 (m !! i).

(** [pb.cmp(&pa).then_with(|| a.cmp(b))] is not [Greater]. *)
Definition priority_le (m : gmap string DagNode) (a b : string) : bool :=
  match Z.compare (node_priority m b) (node_priority m a) with
  | Lt => true
  | Gt => false
  | Eq => str_leb a b
  end.

Definition sort_ids (m : gmap string DagNode) : list string -> list string :=
  sort_by (priority_le m).

(** ** Kahn's algorithm *)

(** The loop over the dependents of a finished node: decrement, and enqueue
    those that reach zero. *)
Definition release_one (st : gmap string Z * list string) (d : string) :
    gmap string Z * list string :=
  match st.1 !! d with
  | Some deg =>
      let deg' := sub64 deg 1 in
      (<[d := deg']> st.1, if Z.eqb deg' 0 then st.2 ++ [d] else st.2)
  | None => st
  end.

Definition release_all (deps : gmap string (list string)) (i : string)
    (st : gmap string Z * list string) : gmap string Z * list string :=
  foldl release_one st (default [] (deps !! i)).

(** The [while !queue.is_empty()] loop; [None] is lack of fuel. *)
Fixpoint kahn_loop (s : DagScheduler) (fuel : nat) (deg : gmap string Z) (queue res : list string) :
    option (list string) :=
  match queue with
  | [] => Some res
  | i :: queue' =>
      match fuel with
      | O => None
      | S fuel' =>
          let '(deg', q) := release_all (dependents s) i (deg, queue') in
          kahn_loop s fuel' deg' (sort_ids (nodes s) q) (res ++ [i])
      end
  end.

Definition cycle_error (what : string) : SchedulerError :=
  mkError "cycle_detected" ("DAG contains a cycle, cannot " +:+ what) None.

Section Operations.
Context `{HashOrder}.

(** [detect_cycles]: every id visited costs a fresh member of [visited], so
    one unit of fuel per node and one to spare suffice. *)
Definition detect_cycles (s : DagScheduler) : option (result unit SchedulerError) :=
  match first_cycle (dependents s) (S (size (nodes s))) (hash_keys (nodes s)) (∅, ∅) with
  | None => None
  | Some None => Some (Ok tt)
  | Some (Some i) =>
      Some (Err (mkError "cycle_detected"
                   ("DAG contains a cycle involving node '" +:+ i +:+ "'") (Some i)))
  end.

(** [build]. *)
Definition build (s : DagScheduler) : option (result DagScheduler SchedulerError) :=
  match build_nodes (nodes s) (hash_iter (nodes s)) (∅, ∅) with
  | Err e => Some (Err e)
  | Ok (deps, deg) =>
      let s' := mkScheduler (nodes s) deps deg (max_parallelism s) in
      match detect_cycles s' with
      | None => None
      | Some (Err e) => Some (Err e)
      | Some (Ok _) => Some (Ok s')
      end
  end.

Fixpoint add_agents (l : list SubAgent) (s : DagScheduler) : result DagScheduler SchedulerError :=
  match l with
  | [] => Ok s
  | a :: l' => let? s' := add_node (node_of_agent a) s in add_agents l' s'
  end.

(** [from_team], on the team's agents. *)
Definition from_team (l : list SubAgent) : option (result DagScheduler SchedulerError) :=
  match add_agents l new with
  | Err e => Some (Err e)
  | Ok s => build s
  end.

Definition zero_degree (deg : gmap string Z) (i : string) : bool :=
  bool_decide (deg !! i = Some 0).

(** [topological_sort]. *)
Definition topological_sort (s : DagScheduler) : option (result (list string) SchedulerError) :=
  if bool_decide (nodes s = ∅) then Some (Ok []) else
  let queue := sort_ids (nodes s)
                 (List.filter (zero_degree (in_degree s)) (hash_keys (nodes s))) in
  match kahn_loop s (size (nodes s)) (in_degree s) queue [] with
  | None => None
  | Some res =>
      if Nat.eqb (length res) (size (nodes s)) then Some (Ok res)
      else Some (Err (cycle_error "perform topological sort"))
  end.

(** The [for id in &ready] loop of [execution_waves]. *)
Definition finish_one (deps : gmap string (list string))
    (st : gset string * gmap string Z) (i : string) : gset string * gmap string Z :=
  ({[i]} ∪ st.1,
   foldl (fun deg d => match deg !! d with Some n => <[d := sub64 n 1]> deg | None => deg end)
     st.2 (default [] (deps !! i))).

(** The [loop] of [execution_waves]. *)
Fixpoint waves_loop (s : DagScheduler) (fuel : nat) (completed : gset string)
    (deg : gmap string Z) (waves : list ExecutionWave) : option (list ExecutionWave) :=
  let ready := List.filter (fun i => negb (bool_decide (i ∈ completed)) && zero_degree deg i)
                 (hash_keys (nodes s)) in
  match ready with
  | [] => Some waves
  | _ =>
      match fuel with
      | O => None
      | S fuel' =>
          let ready := sort_ids (nodes s) ready in
          let '(completed', deg') := foldl (finish_one (dependents s)) (completed, deg) ready in
          waves_loop s fuel' completed' deg'
            (waves ++ [mkWave (length waves) ready (Nat.ltb 1 (length ready))])
      end
  end.

(** [execution_waves]. *)
Definition execution_waves (s : DagScheduler) :
    option (result (list ExecutionWave) SchedulerError) :=
  if bool_decide (nodes s = ∅) then Some (Ok []) else
  match waves_loop s (size (nodes s)) ∅ (in_degree s) [] with
  | None => None
  | Some waves =>
      if Nat.eqb (sum_list (length <$> (wave_nodes <$> waves))) (size (nodes s))
      then Some (Ok waves)
      else Some (Err (cycle_error "compute execution waves"))
  end.

(** [ready_nodes] and [get_ready_nodes]. *)
Definition ready_nodes (completed : gset string) (s : DagScheduler) : list DagNode :=
  List.filter (is_ready completed) (hash_values (nodes s)).

Definition get_ready_nodes (completed : gset string) (currently_running : nat)
    (s : DagScheduler) : list string :=
  if Nat.leb (max_parallelism s) currently_running then []
  else
    let remaining_slots := (max_parallelism s - currently_running)%nat in
    take remaining_slots (sort_ids (nodes s) (id <$> ready_nodes completed s)).

(** ** Status changes *)

Definition not_found (i : string) : SchedulerError :=
  mkError "node_not_found" ("Node '" +:+ i +:+ "' not found") (Some i).

Definition edit_node (i : string) (f : DagNode -> DagNode) (s : DagScheduler) :
    result DagScheduler SchedulerError :=
  match nodes s !! i with
  | None => Err (not_found i)
  | Some n => Ok (with_nodes (<[i := f n]> (nodes s)) s)
  end.

(** [start_node], [complete_node], [fail_node]. *)
Definition start_node (i : string) : DagScheduler -> result DagScheduler SchedulerError :=
  edit_node i (set_status Running).
Definition complete_node (i : string) : DagScheduler -> result DagScheduler SchedulerError :=
  edit_node i (set_status Completed).
Definition fail_node (i : string) (error : option string) :
    DagScheduler -> result DagScheduler SchedulerError :=
  edit_node i (fun n => match error with
                        | Some e => insert_metadata "error" e (set_status Failed n)
                        | None => set_status Failed n
                        end).

Definition skip_node (reason : string) (n : DagNode) : DagNode :=
  insert_metadata "skip_reason" reason (set_status Skipped n).

(** The [while let Some(node_id) = to_skip.pop_front()] loop. *)
Fixpoint skip_loop (deps : gmap string (list string)) (reason : string) (fuel : nat)
    (ns : gmap string DagNode) (to_skip skipped : list string) :
    option (gmap string DagNode * list string) :=
  match to_skip with
  | [] => Some (ns, skipped)
  | i :: rest =>
      match fuel with
      | O => None
      | S fuel' =>
          match ns !! i with
          | Some n =>
              if can_schedule n then
                let skipped' := skipped ++ [i] in
                skip_loop deps reason fuel' (<[i := skip_node reason n]> ns)
                  (rest ++ List.filter (fun d => negb (existsb (String.eqb d) skipped'))
                             (default [] (deps !! i)))
                  skipped'
              else skip_loop deps reason fuel' ns rest skipped
          | None => skip_loop deps reason fuel' ns rest skipped
          end
      end
  end.

(** Fuel: every queue entry comes from [failed_id]'s list or from the list of
    a node that is skipped at that moment, and a node is skipped once. *)
Definition skip_fuel (s : DagScheduler) (failed_id : string) : nat :=
  (length (get_dependents failed_id s) +
   sum_list ((fun i => length (get_dependents i s)) <$> hash_keys (nodes s)))%nat.

(** [skip_dependents]. *)
Definition skip_dependents (failed_id reason : string) (s : DagScheduler) :
    option (DagScheduler * list string) :=
  match skip_loop (dependents s) reason (skip_fuel s failed_id) (nodes s)
          (get_dependents failed_id s) [] with
  | None => None
  | Some (ns, skipped) => Some (with_nodes ns s, skipped)
  end.

(** ** Queries *)

Definition is_done (n : DagNode) : bool :=
  match status n with Completed | Failed | Skipped => true | _ => false end.

(** [is_complete], [has_failures], [is_successful]. *)
Definition is_complete (s : DagScheduler) : bool := forallb is_done (hash_values (nodes s)).
Definition has_failures (s : DagScheduler) : bool :=
  existsb (fun n => bool_decide (status n = Failed)) (hash_values (nodes s)).
Definition is_successful (s : DagScheduler) : bool :=
  forallb (fun n => bool_decide (status n = Completed)) (hash_values (nodes s)).

(** [validate]: all missing dependencies, then the result of a build of a
    copy. *)
Definition missing_errors (all : gmap string DagNode) (n : DagNode) : list SchedulerError :=
  (fun d => mkError "missing_dependency" ("Dependency '" +:+ d +:+ "' does not exist") (Some (id n)))
    <$> List.filter (fun d => negb (bool_decide (is_Some (all !! d)))) (dependencies n).

Definition validate (s : DagScheduler) : option (result unit (list SchedulerError)) :=
  let errors := mjoin (missing_errors (nodes s) <$> hash_values (nodes s)) in
  match build s with
  | None => None
  | Some b =>
      let errors := match b with Err e => errors ++ [e] | Ok _ => errors end in
      Some (match errors with [] => Ok tt | _ => Err errors end)
  end.

(** ** The critical path *)

(** The scan of one node's dependencies for the longest predecessor. *)
Definition longest_pred (longest : gmap string nat) (deps : list string) :
    nat * option string :=
  foldl (fun '(best, pred) d =>
           match longest !! d with
           | Some len => if Nat.ltb best len then (len, Some d) else (best, pred)
           | None => (best, pred)
           end) (O, None) deps.

(** One round of the loop over the topological order. *)
Definition critical_step (all : gmap string DagNode)
    (st : gmap string nat * gmap string string) (i : string) :
    gmap string nat * gmap string string :=
  let '(max_len, max_pred) := longest_pred st.1 (from_option dependencies [] (all !! i)) in
  (<[i := S max_len]> st.1,
   match max_pred with Some p => <[i := p]> st.2 | None => st.2 end).

(** [max_by_key]: the last of the maximal entries, in iteration order. *)
Definition max_by_len (l : list (string * nat)) : option (string * nat) :=
  foldl (fun best x =>
           match best with
           | None => Some x
           | Some b => if Nat.leb b.2 x.2 then Some x else Some b
           end) None l.

(** The walk back along [predecessor]. *)
Fixpoint walk_back (pred : gmap string string) (fuel : nat) (cur : string) (path : list string) :
    option (list string) :=
  match pred !! cur with
  | None => Some path
  | Some p => match fuel with O => None | S f => walk_back pred f p (path ++ [p]) end
  end.

(** [critical_path]. *)
Definition critical_path (s : DagScheduler) : option (result (list string) SchedulerError) :=
  match topological_sort s with
  | None => None
  | Some (Err e) => Some (Err e)
  | Some (Ok topo) =>
      let '(longest, pred) := foldl (critical_step (nodes s)) (∅, ∅) topo in
      let end_node := match max_by_len (hash_iter longest) with
                      | Some (e, _) => e
                      | None => default "" (last topo)
                      end in
      match walk_back pred (size (nodes s)) end_node [end_node] with
      | None => None
      | Some path => Some (Ok (reverse path))
      end
  end.

(** ** Statistics *)

Record DagStats := mkStats {
  total_nodes : nat; total_dependencies : nat; max_depth : nat; total_waves : nat;
  max_wave_size : nat; stats_max_parallelism : nat; parallelism_ratio : f64;
  pending_count : nat; ready_count : nat; running_count : nat; completed_count : nat;
  failed_count : nat; skipped_count : nat
}.

Definition count_nodes (st : NodeStatus) (s : DagScheduler) : nat :=
  length (List.filter (fun n => bool_decide (status n = st)) (hash_values (nodes s))).

(** [stats]: one counter per status, and the wave figures when the waves
    exist. *)
Definition stats (s : DagScheduler) : option DagStats :=
  let base depth waves size ratio :=
    mkStats (stdpp.base.size (nodes s))
      (sum_list ((length ∘ dependencies) <$> hash_values (nodes s))) depth waves size
      (max_parallelism s) ratio (count_nodes Pending s) (count_nodes Ready s)
      (count_nodes Running s) (count_nodes Completed s) (count_nodes Failed s)
      (count_nodes Skipped s) in
  match execution_waves s with
  | None => None
  | Some (Ok waves) =>
      Some (base (length waves - 1)%nat (length waves)
              (max_list (length <$> (wave_nodes <$> waves)))
              (match waves with
               | [] => f64_zero
               | _ => f64_div (f64_of_Z (Z.of_nat (stdpp.base.size (nodes s))))
                        (f64_of_Z (Z.of_nat (length waves)))
               end))
  | Some (Err _) => Some (base O O O f64_zero)
  end.
End Operations.
