(* ===== verification/SchedulerGraph.v ===== *)
(** * SchedulerGraph: cycle detection and construction of the DAG scheduler

    The graph a scheduler stands for, the correctness of the depth-first
    search of [has_cycle] on it, and what [build] establishes. *)

From stdpp Require Import base gmap strings list fin_maps relations.
From Stdlib Require Import ZArith Lia.
From S2P Require Import Prelude Text Json TeamTypes Scheduler.

#[local] Open Scope Z_scope.

(** ** Depth-first search *)

Section Search.
Context (deps : gmap string (list string)).

(** The successor relation the search follows. *)
Definition succ (x y : string) : Prop := y ∈ default [] (deps !! x).

(** Every chain of successors from [x] ends. *)
Definition terminates (x : string) : Prop := Acc (fun b a => succ a b) x.

Definition search_inv (st : gset string * gset string) : Prop :=
  st.2 ⊆ st.1 /\ forall x, x ∈ st.1 -> x ∉ st.2 -> terminates x.

Lemma terminates_no_cycle x : terminates x -> ~ tc succ x x.
Proof.
  induction 1 as [x _ IH]. intros Hc.
  apply tc_rtc_l with (x := x) (y := x) in Hc as Hc'; [|done].
  inversion Hc as [? ? Hs|? y ? Hs Hyx]; subst; [by eapply IH|].
  eapply IH; [exact Hs|]. eapply tc_r; [exact Hyx|exact Hs].
Qed.

(** What a call that reports no cycle leaves behind. *)
Definition clean_exit (ids : list string) (st st' : gset string * gset string) : Prop :=
  search_inv st' /\ st.1 ⊆ st'.1 /\ st'.2 = st.2 /\
  forall x, x ∈ ids -> x ∈ st'.1 /\ x ∉ st.2.

Lemma visit_all_clean rec l st st' :
  (forall d st st', search_inv st -> rec d st = Some (false, st') -> clean_exit [d] st st') ->
  search_inv st -> visit_all rec l st = Some (false, st') -> clean_exit l st st'.
Proof.
  intros Hrec. revert st. induction l as [|d l IH]; intros st Hinv; simpl.
  - intros [= ->]. split; [exact Hinv|split; [reflexivity|split; [reflexivity|]]].
    intros x Hx. by apply not_elem_of_nil in Hx.
  - destruct (rec d st) as [[[|] st1]|] eqn:Hd; try discriminate. intros Hl.
    destruct (Hrec _ _ _ Hinv Hd) as (Hi1 & Hsub1 & Hr1 & Hin1).
    destruct (IH _ Hi1 Hl) as (Hi2 & Hsub2 & Hr2 & Hin2).
    split; [exact Hi2|split; [by etrans|split; [congruence|]]].
    intros x Hx. apply elem_of_cons in Hx as [->|Hx].
    + destruct (Hin1 d) as [Hd1 ?]; [by left|]. split; [by apply Hsub2|done].
    + destruct (Hin2 x Hx) as [? ?]. split; [done|]. by rewrite <- Hr1.
Qed.

Lemma has_cycle_clean fuel i st st' :
  search_inv st -> has_cycle deps fuel i st = Some (false, st') -> clean_exit [i] st st'.
Proof.
  revert i st st'. induction fuel as [|fuel IH]; intros i [v r] st' Hinv; simpl; [done|].
  case_bool_decide as Hir; [done|]. case_bool_decide as Hiv.
  { intros [= <-]. split; [exact Hinv|split; [reflexivity|split; [reflexivity|]]].
    intros x Hx. apply list_elem_of_singleton in Hx as ->. split; [exact Hiv|exact Hir]. }
  destruct (visit_all _ _ _) as [[[|] [v' r']]|] eqn:Hv; try discriminate. intros [= <-].
  apply visit_all_clean in Hv; [|exact IH|].
  2:{ destruct Hinv as [Hsub Hacc]. split; simpl; [set_solver +Hsub|].
      intros x Hx1 Hx2. apply Hacc; set_solver +Hx1 Hx2. }
  destruct Hv as (Hinv' & Hsub' & Hr' & Hin). simpl in *. subst r'.
  destruct Hinv as [Hsub Hacc], Hinv' as [Hsub2 Hacc2]; simpl in *.
  assert (Hi : terminates i).
  { constructor. intros y Hy. destruct (Hin y Hy) as [? ?]. by apply Hacc2. }
  split; [|split; [|split]]; simpl.
  - split; simpl; [set_solver +Hsub2|]. intros x Hx1 Hx2.
    destruct (decide (x = i)) as [->|Hne]; [done|]. apply Hacc2; set_solver +Hx1 Hx2 Hne.
  - set_solver +Hsub'.
  - set_solver +Hir.
  - intros x Hx. apply list_elem_of_singleton in Hx as ->.
    split; [set_solver +Hsub'|exact Hir].
Qed.

(** A visit that reports no cycle restores the recursion stack. *)
Lemma visit_all_stack rec l st st' :
  (forall d st st', rec d st = Some (false, st') -> st'.2 = st.2) ->
  visit_all rec l st = Some (false, st') -> st'.2 = st.2.
Proof.
  intros Hrec. revert st. induction l as [|d l IH]; intros st; simpl; [by intros [= ->]|].
  destruct (rec d st) as [[[|] st1]|] eqn:Hc; try discriminate. intros Hvl.
  apply IH in Hvl. apply Hrec in Hc. congruence.
Qed.

Lemma has_cycle_stack fuel d st st' :
  has_cycle deps fuel d st = Some (false, st') -> st'.2 = st.2.
Proof.
  revert d st st'. induction fuel as [|fuel IH]; intros d [v r] st'; simpl; [discriminate|].
  case_bool_decide as Hr; [discriminate|]. case_bool_decide; [by intros [= <-]|].
  destruct (visit_all _ _ _) as [[[|] [v' r']]|] eqn:Hv; try discriminate. intros [= <-].
  apply (visit_all_stack _ _ _ _ IH) in Hv. simpl in *. subst r'. set_solver +Hr.
Qed.

(** A cycle is only reported when there is one: every node of the stack
    leads to the node being visited. *)
Lemma visit_all_sound rec i r l st st' :
  (forall d st st', (forall x, x ∈ st.2 -> tc succ x d) -> rec d st = Some (true, st') ->
     exists x, tc succ x x) ->
  (forall d st st', rec d st = Some (false, st') -> st'.2 = st.2) ->
  (forall d, d ∈ l -> succ i d) -> (forall x, x ∈ r -> tc succ x i) ->
  st.2 = {[i]} ∪ r -> visit_all rec l st = Some (true, st') -> exists x, tc succ x x.
Proof.
  intros Hrec Hstack Hl Hpath. revert st. induction l as [|d l IH]; intros st Hst; simpl;
    [discriminate|].
  destruct (rec d st) as [[[|] st1]|] eqn:Hc; try discriminate; intros Hvl.
  - eapply Hrec; [|exact Hc]. rewrite Hst. intros x Hx.
    apply elem_of_union in Hx as [Hx|Hx].
    + apply elem_of_singleton in Hx as ->. apply tc_once, Hl. by left.
    + eapply tc_r; [by apply Hpath|]. apply Hl. by left.
  - apply (IH ltac:(intros; apply Hl; by right) st1); [|exact Hvl].
    by rewrite (Hstack _ _ _ Hc).
Qed.

Lemma has_cycle_sound fuel i st st' :
  (forall x, x ∈ st.2 -> tc succ x i) ->
  has_cycle deps fuel i st = Some (true, st') -> exists x, tc succ x x.
Proof.
  revert i st st'. induction fuel as [|fuel IH]; intros i [v r] st' Hpath; simpl in *;
    [discriminate|].
  case_bool_decide as Hir; [by eauto|]. case_bool_decide as Hiv; [discriminate|].
  destruct (visit_all _ _ _) as [[[|] [v' r']]|] eqn:Hv; try discriminate. intros _.
  eapply (visit_all_sound _ i r); [exact IH| |intros d Hd; exact Hd|exact Hpath| |exact Hv].
  - intros d st1 st2. apply has_cycle_stack.
  - reflexivity.
Qed.

(** Fuel: each nested call has one more visited node of the universe. *)
Context (U : gset string).
Hypothesis succ_closed : forall x y, x ∈ U -> succ x y -> y ∈ U.

Lemma visit_all_monotone rec l st b st' :
  (forall d st b st', rec d st = Some (b, st') -> st.1 ⊆ st'.1) ->
  visit_all rec l st = Some (b, st') -> st.1 ⊆ st'.1.
Proof.
  intros Hrec. revert st. induction l as [|d l IH]; intros st; simpl; [by intros [= _ ->]|].
  destruct (rec d st) as [[[|] st1]|] eqn:Hc; try discriminate; apply Hrec in Hc.
  - by intros [= _ <-].
  - intros Hl. apply IH in Hl. by etrans.
Qed.

Lemma has_cycle_monotone fuel i st b st' :
  has_cycle deps fuel i st = Some (b, st') -> st.1 ⊆ st'.1.
Proof.
  revert i st b st'. induction fuel as [|fuel IH]; intros i [v r] b st'; simpl; [discriminate|].
  case_bool_decide; [by intros [= _ <-]|]. case_bool_decide; [by intros [= _ <-]|].
  destruct (visit_all _ _ _) as [[b' [v' r']]|] eqn:Hv; [|discriminate].
  apply (visit_all_monotone _ _ _ _ _ IH) in Hv. simpl in Hv.
  destruct b'; intros [= _ <-]; simpl; set_solver +Hv.
Qed.

Lemma visit_all_total fuel l st :
  (forall d st, d ∈ U -> (size (U ∖ st.1) < fuel)%nat -> has_cycle deps fuel d st <> None) ->
  (forall d, d ∈ l -> d ∈ U) -> (size (U ∖ st.1) < fuel)%nat ->
  visit_all (has_cycle deps fuel) l st <> None.
Proof.
  intros Hrec Hl. revert st. induction l as [|d l IH]; intros st Hsz; simpl; [done|].
  destruct (has_cycle deps fuel d st) as [[[|] st1]|] eqn:Hc; [done| |].
  - apply IH; [intros; apply Hl; by right|]. apply has_cycle_monotone in Hc.
    eapply Nat.le_lt_trans; [|exact Hsz]. apply subseteq_size. set_solver +Hc.
  - intros _. eapply Hrec; [|exact Hsz|exact Hc]. apply Hl. by left.
Qed.

Lemma has_cycle_total fuel i st :
  i ∈ U -> (size (U ∖ st.1) < fuel)%nat -> has_cycle deps fuel i st <> None.
Proof.
  revert i st. induction fuel as [|fuel IH]; intros i [v r] Hi Hsz; simpl in *; [lia|].
  case_bool_decide; [done|]. case_bool_decide as Hiv; [done|].
  assert (Hlt : (size (U ∖ ({[i]} ∪ v)) < fuel)%nat).
  { assert (size (U ∖ ({[i]} ∪ v)) < size (U ∖ v))%nat; [|lia].
    apply subset_size. set_solver +Hi Hiv. }
  pose proof (visit_all_total fuel (default [] (deps !! i)) ({[i]} ∪ v, {[i]} ∪ r) IH) as Ht.
  destruct (visit_all _ _ _) as [[[|] [v' r']]|]; [done|done|].
  intros _. apply Ht; [|exact Hlt|done]. intros d Hd. by eapply succ_closed.
Qed.

(** [detect_cycles]' loop decides acyclicity of everything it visits. *)
Lemma first_cycle_spec fuel ids st :
  search_inv st -> st.2 = ∅ -> (forall i, i ∈ ids -> i ∈ U) -> (size U < fuel)%nat ->
  match first_cycle deps fuel ids st with
  | None => False
  | Some None => forall i, i ∈ ids -> terminates i
  | Some (Some i) => i ∈ ids /\ exists x, tc succ x x
  end.
Proof.
  revert st. induction ids as [|i ids IH]; intros st Hinv Hst Hids Hsz; simpl.
  { intros i Hi. by apply not_elem_of_nil in Hi. }
  destruct (has_cycle deps fuel i st) as [[[|] st1]|] eqn:Hc.
  - split; [by left|]. eapply has_cycle_sound; [|exact Hc]. rewrite Hst.
    intros x Hx. by apply not_elem_of_empty in Hx.
  - pose proof (has_cycle_clean _ _ _ _ Hinv Hc) as (Hinv1 & _ & Hst1 & Hin).
    specialize (IH st1 Hinv1 ltac:(congruence) ltac:(intros; apply Hids; by right) Hsz).
    destruct (first_cycle deps fuel ids st1) as [[j|]|]; [|intros j Hj|done].
    + destruct IH as [? ?]. split; [by right|done].
    + apply elem_of_cons in Hj as [->|Hj]; [|by apply IH].
      destruct (Hin i) as [Hi1 _]; [by left|]. apply Hinv1; [done|].
      rewrite Hst1, Hst. apply not_elem_of_empty.
  - exfalso. eapply has_cycle_total; [|idtac|exact Hc]; [apply Hids; by left|].
    eapply Nat.le_lt_trans; [|exact Hsz]. apply subseteq_size. set_solver +.
Qed.
End Search.

Lemma search_inv_empty deps : search_inv deps (∅, ∅).
Proof. split; [done|]. intros x Hx. by apply not_elem_of_empty in Hx. Qed.

(** In a finite graph without cycles every chain of successors ends: the
    search decides it. *)
Lemma acyclic_terminates deps (U : gset string) :
  (forall x y, x ∈ U -> succ deps x y -> y ∈ U) ->
  (forall x, ~ tc (succ deps) x x) -> forall x, x ∈ U -> terminates deps x.
Proof.
  intros Hcl Hac x Hx.
  pose proof (first_cycle_spec deps U Hcl (S (size U)) (elements U) (∅, ∅)
    (search_inv_empty deps) eq_refl ltac:(intros; by apply elem_of_elements) ltac:(lia)) as Hs.
  destruct (first_cycle _ _ _ _) as [[i|]|].
  - destruct Hs as [_ [y Hy]]. by apply Hac in Hy.
  - apply Hs. by apply elem_of_elements.
  - done.
Qed.

(** ** The graph of a scheduler *)

(** [x] must finish before [y] starts. *)
Definition edge (m : gmap string DagNode) (x y : string) : Prop :=
  exists n, m !! y = Some n /\ x ∈ dependencies n.

Definition acyclic (m : gmap string DagNode) : Prop := forall x, ~ tc (edge m) x x.

Definition closed (m : gmap string DagNode) : Prop :=
  forall x y, edge m x y -> is_Some (m !! x).

(** Nodes are stored under their own id, and dependency vectors have a length
    that fits a [usize] (as every Rust [Vec] does). *)
Definition well_keyed (m : gmap string DagNode) : Prop :=
  forall i n, m !! i = Some n -> id n = i /\ Z.of_nat (length (dependencies n)) <= u64_max.

Definition deps_of (m : gmap string DagNode) (i : string) : list string :=
  from_option dependencies [] (m !! i).

Lemma edge_deps_of m x y : edge m x y <-> x ∈ deps_of m y.
Proof.
  unfold edge, deps_of. destruct (m !! y) as [n|]; simpl; split.
  - by intros (? & [= <-] & ?).
  - eauto.
  - by intros (? & ? & _).
  - by intros ?%not_elem_of_nil.
Qed.

(** What [build] leaves: the counts and the reverse edges of the nodes. *)
Record built (s : DagScheduler) : Prop := mkBuilt {
  built_keyed : well_keyed (nodes s);
  built_closed : closed (nodes s);
  built_degree : forall i, in_degree s !! i =
    (fun n => Z.of_nat (length (dependencies n))) <$> nodes s !! i;
  built_dependents : forall x y,
    occ y (default [] (dependents s !! x)) = occ x (deps_of (nodes s) y)
}.

Lemma built_succ s x y : built s -> succ (dependents s) x y <-> edge (nodes s) x y.
Proof.
  intros Hb. unfold succ. rewrite edge_deps_of, <- !occ_pos.
  by rewrite (built_dependents _ Hb).
Qed.

(** ** [build] *)

Lemma push_all_dependents i ds m x y :
  occ y (default [] (foldl (fun m d => push_dependent d i m) m ds !! x)) =
  (occ y (default [] (m !! x)) + (if decide (y = i) then occ x ds else 0))%nat.
Proof.
  revert m. induction ds as [|d ds IH]; intros m; simpl; [by case_decide|].
  rewrite IH. unfold push_dependent.
  destruct (decide (x = d)) as [->|Hne].
  - rewrite lookup_insert_eq. simpl. rewrite occ_app. simpl. repeat case_decide; lia.
  - rewrite lookup_insert_ne by done. case_decide; lia.
Qed.

Lemma find_missing (all : gmap string DagNode) ds :
  match List.find (fun d => negb (bool_decide (is_Some (all !! d)))) ds with
  | Some d => d ∈ ds /\ all !! d = None
  | None => forall d, d ∈ ds -> is_Some (all !! d)
  end.
Proof.
  induction ds as [|d ds IH]; simpl; [by intros ? ?%not_elem_of_nil|].
  case_bool_decide as Hd; simpl.
  - destruct (List.find _ ds) as [e|]; [destruct IH; split; [by right|done]|].
    intros e He. apply elem_of_cons in He as [->|He]; auto.
  - split; [by left|]. by apply eq_None_not_Some.
Qed.

Lemma build_nodes_spec (all : gmap string DagNode) l D G :
  NoDup l.*1 ->
  match build_nodes all l (D, G) with
  | Ok (D', G') =>
      (forall i n, (i, n) ∈ l -> forall d, d ∈ dependencies n -> is_Some (all !! d)) /\
      (forall i n, (i, n) ∈ l -> G' !! i = Some (Z.of_nat (length (dependencies n)))) /\
      (forall i, i ∉ l.*1 -> G' !! i = G !! i) /\
      (forall x y n, (y, n) ∈ l ->
         occ y (default [] (D' !! x)) = (occ y (default [] (D !! x)) + occ x (dependencies n))%nat) /\
      (forall x y, y ∉ l.*1 -> occ y (default [] (D' !! x)) = occ y (default [] (D !! x)))
  | Err e => code e = "missing_dependency"%string /\
      exists i n d, (i, n) ∈ l /\ d ∈ dependencies n /\ all !! d = None
  end.
Proof.
  revert D G. induction l as [|[i n] l IH]; intros D G Hnd.
  { simpl. split_and!; try done; intros *; by intros ?%not_elem_of_nil. }
  csimpl in Hnd. apply NoDup_cons in Hnd as [Hi Hnd]. simpl. unfold build_node. simpl.
  pose proof (find_missing all (dependencies n)) as Hf.
  destruct (List.find _ (dependencies n)) as [d|].
  { split; [done|]. exists i, n, d. split; [by left|done]. }
  set (D1 := foldl _ D _). set (G1 := <[i:=_]> G).
  specialize (IH D1 G1 Hnd). destruct (build_nodes all l (D1, G1)) as [[D' G']|e].
  2:{ destruct IH as [? (j & m & d & ? & ? & ?)]. split; [done|].
      exists j, m, d. split; [by right|done]. }
  destruct IH as (H1 & H2 & H3 & H4 & H5). split_and!.
  - intros j m Hjm. apply elem_of_cons in Hjm as [[= -> ->]|Hjm]; eauto.
  - intros j m Hjm. apply elem_of_cons in Hjm as [[= -> ->]|Hjm]; [|eauto].
    rewrite H3 by done. apply lookup_insert_eq.
  - intros j Hj. csimpl in Hj. apply not_elem_of_cons in Hj as [Hji Hj].
    rewrite H3 by done. by apply lookup_insert_ne.
  - intros x y m Hym. apply elem_of_cons in Hym as [[= -> ->]|Hym].
    + rewrite H5 by done. unfold D1. rewrite push_all_dependents. by rewrite decide_True.
    + rewrite (H4 _ _ _ Hym). unfold D1. rewrite push_all_dependents, decide_False; [lia|].
      intros ->. apply Hi. apply list_elem_of_fmap. by exists (i, m).
  - intros x y Hy. csimpl in Hy. apply not_elem_of_cons in Hy as [Hyi Hy].
    rewrite H5 by done. unfold D1. rewrite push_all_dependents, decide_False by done. lia.
Qed.

Lemma tc_mono {A} (R S : relation A) : (forall x y, R x y -> S x y) ->
  forall x y, tc R x y -> tc S x y.
Proof. intros HRS x y Hxy. induction Hxy; [by apply tc_once, HRS|]. eapply tc_l; eauto. Qed.

(** Edges of a closed graph stay within its nodes. *)
Lemma built_succ_closed s x y :
  built s -> x ∈ dom (nodes s) -> succ (dependents s) x y -> y ∈ dom (nodes s).
Proof.
  intros Hb _ Hs. apply (built_succ _ _ _ Hb) in Hs as (n & Hn & _). by apply elem_of_dom_2 in Hn.
Qed.

Section Build.
Context `{HashOrder}.

Lemma build_nodes_built s :
  well_keyed (nodes s) ->
  match build_nodes (nodes s) (hash_iter (nodes s)) (∅, ∅) with
  | Ok (D, G) => built (mkScheduler (nodes s) D G (max_parallelism s))
  | Err e => code e = "missing_dependency"%string /\ ~ closed (nodes s)
  end.
Proof.
  intros Hk.
  pose proof (build_nodes_spec (nodes s) (hash_iter (nodes s)) ∅ ∅ (NoDup_hash_keys _)) as Hs.
  destruct (build_nodes _ _ _) as [[D G]|e].
  - destruct Hs as (H1 & H2 & H3 & H4 & H5).
    assert (Hnone : forall i, nodes s !! i = None -> i ∉ (hash_iter (nodes s)).*1).
    { intros i Hi Hin. apply elem_of_hash_keys in Hin. rewrite Hi in Hin. by destruct Hin. }
    split; simpl; [done| | |].
    + intros x y (n & Hn & Hx). eapply H1; [by apply elem_of_hash_iter|done].
    + intros i. destruct (nodes s !! i) as [n|] eqn:Hi; simpl.
      * by apply H2, elem_of_hash_iter.
      * rewrite H3 by auto. apply lookup_empty.
    + intros x y. unfold deps_of. destruct (nodes s !! y) as [n|] eqn:Hy; simpl.
      * rewrite (H4 x y n) by (by apply elem_of_hash_iter). by rewrite lookup_empty.
      * rewrite H5 by auto. by rewrite lookup_empty.
  - destruct Hs as [? (i & n & d & Hin & Hd & Hnone)]. split; [done|]. intros Hcl.
    apply elem_of_hash_iter in Hin. destruct (Hcl d i) as [? Hsome]; [by exists n|]. congruence.
Qed.

(** [detect_cycles] on a built scheduler: total, and an answer to
    acyclicity. *)
Lemma detect_cycles_decides s :
  built s ->
  match detect_cycles s with
  | None => False
  | Some (Ok _) => acyclic (nodes s)
  | Some (Err e) => code e = "cycle_detected"%string /\ ~ acyclic (nodes s)
  end.
Proof.
  intros Hb. unfold detect_cycles.
  pose proof (first_cycle_spec (dependents s) (dom (nodes s))
    (fun x y => built_succ_closed s x y Hb) (S (size (nodes s))) (hash_keys (nodes s)) (∅, ∅)
    (search_inv_empty _) eq_refl) as Hs.
  rewrite size_dom in Hs.
  specialize (Hs ltac:(intros i Hi; by apply elem_of_dom, elem_of_hash_keys) ltac:(lia)).
  destruct (first_cycle _ _ _ _) as [[i|]|]; simpl.
  - destruct Hs as [_ [x Hx]]. split; [done|]. intros Hac. apply (Hac x).
    eapply tc_mono; [|exact Hx]. intros a b. by apply built_succ.
  - intros x Hx. assert (Hn : x ∈ hash_keys (nodes s)).
    { apply elem_of_hash_keys.
      inversion Hx as [? ? Hxy|? ? ? Hxy]; subst; exact (built_closed _ Hb _ _ Hxy). }
    apply (terminates_no_cycle (dependents s) x (Hs x Hn)).
    eapply tc_mono; [|exact Hx]. intros a b. by apply built_succ.
  - done.
Qed.

Lemma build_spec s :
  well_keyed (nodes s) ->
  match build s with
  | None => False
  | Some (Ok s') => nodes s' = nodes s /\ max_parallelism s' = max_parallelism s /\
                    built s' /\ acyclic (nodes s)
  | Some (Err e) =>
      (code e = "missing_dependency"%string /\ ~ closed (nodes s)) \/
      (code e = "cycle_detected"%string /\ closed (nodes s) /\ ~ acyclic (nodes s))
  end.
Proof.
  intros Hk. unfold build. pose proof (build_nodes_built s Hk) as Hb.
  destruct (build_nodes _ _ _) as [[D G]|e]; [|by left].
  pose proof (detect_cycles_decides _ Hb) as Hd.
  destruct (detect_cycles _) as [[u|e]|]; [done| |done].
  right. destruct Hd. split; [done|]. split; [exact (built_closed _ Hb)|done].
Qed.

(** Claim C37. [build] succeeds exactly on the graphs the scheduler accepts:
    it always returns (the depth-first search has enough fuel), returns [Ok]
    if and only if every dependency exists and no node depends on itself
    through any chain, and an error names which of the two fails.  This
    holds whatever order the hash maps are iterated in. *)
Theorem build_correct s :
  well_keyed (nodes s) ->
  (exists r, build s = Some r) /\
  ((exists s', build s = Some (Ok s')) <-> closed (nodes s) /\ acyclic (nodes s)) /\
  (forall e, build s = Some (Err e) ->
     (code e = "missing_dependency"%string <-> ~ closed (nodes s)) /\
     (code e = "cycle_detected"%string <-> closed (nodes s) /\ ~ acyclic (nodes s))).
Proof.
  intros Hk. pose proof (build_spec s Hk) as Hb.
  destruct (build s) as [[s'|e]|]; [| |done].
  - destruct Hb as (Hn & _ & Hbt & Hac). pose proof (built_closed _ Hbt) as Hcl.
    rewrite Hn in Hcl. split_and!; [by eexists|split; [done|by eexists]|done].
  - split_and!; [by eexists| |].
    + split; [by intros (? & ?)|]. intros [Hcl Hac]. exfalso.
      destruct Hb as [[_ ?]|[_ [_ ?]]]; done.
    + intros e' [= <-]. destruct Hb as [[-> Hncl]|[-> [Hcl Hnac]]]; split; split; try done.
      by intros [? _].
Qed.

(** [from_team]: adding the agents keeps nodes under their ids, refuses a
    duplicate id, and builds. *)
Lemma add_agents_keyed l s :
  (forall a, a ∈ l -> Z.of_nat (length (agent_dependencies a)) <= u64_max) ->
  well_keyed (nodes s) ->
  match add_agents l s with
  | Ok s' => well_keyed (nodes s') /\ max_parallelism s' = max_parallelism s /\
             forall i, nodes s' !! i =
               match List.find (fun a => String.eqb (agent_id a) i) l with
               | Some a => Some (node_of_agent a)
               | None => nodes s !! i
               end
  | Err e => code e = "duplicate_node"%string
  end.
Proof.
  revert s. induction l as [|a l IH]; intros s Hlen Hk; simpl; [done|].
  unfold add_node. case_bool_decide as Hd; [done|]. apply eq_None_not_Some in Hd.
  set (s1 := with_nodes _ s).
  assert (Hk1 : well_keyed (nodes s1)).
  { intros i n. unfold s1. simpl. rewrite lookup_insert. case_decide; [|apply Hk].
    intros [= <-]. split; [done|]. apply Hlen. by left. }
  specialize (IH s1 ltac:(intros; apply Hlen; by right) Hk1).
  destruct (add_agents l s1) as [s'|e] eqn:Hadd; [|done].
  destruct IH as (? & ? & Hlook). split_and!; [done|done|].
  intros i. rewrite Hlook. destruct (String.eqb_spec (agent_id a) i) as [He|Hne].
  - assert (List.find (fun b => String.eqb (agent_id b) i) l = None) as ->.
    { clear -Hadd He. assert (Hs1 : is_Some (nodes s1 !! i)).
      { unfold s1. simpl. rewrite <- He, lookup_insert_eq. by eexists. }
      clearbody s1. revert s1 Hadd Hs1. induction l as [|b l IH]; intros s1; simpl; [done|].
      unfold add_node. case_bool_decide as Hd; [done|]. intros Hadd Hs1. case_match eqn:Hb.
      { apply String.eqb_eq in Hb. subst. by rewrite <- Hb in Hs1. }
      eapply IH; [exact Hadd|]. simpl. rewrite lookup_insert. by case_decide. }
    unfold s1. simpl. by rewrite <- He, lookup_insert_eq.
  - destruct (List.find _ l); [done|]. unfold s1. simpl. by rewrite lookup_insert_ne.
Qed.
End Build.

(** ** A concrete graph: the diamond [a -> {b, c} -> d], [c] urgent *)

Definition diamond : DagScheduler :=
  mkScheduler
    (list_to_map ((fun n => (id n, n)) <$>
      [new_node "a" "first";
       with_dependency "a" (new_node "b" "left");
       with_priority 5 (with_dependency "a" (new_node "c" "right"));
       with_dependency "c" (with_dependency "b" (new_node "d" "last"))]))
    ∅ ∅ 4.

Lemma well_keyed_decide (m : gmap string DagNode) :
  bool_decide (map_Forall (fun i n =>
    id n = i /\ Z.of_nat (length (dependencies n)) <= u64_max) m) = true -> well_keyed m.
Proof. intros Hm%bool_decide_eq_true i n Hi. exact (Hm i n Hi). Qed.

Lemma diamond_keyed : well_keyed (nodes diamond).
Proof. by apply well_keyed_decide. Qed.

(** What [build] makes of it. *)
Definition diamond_built : DagScheduler :=
  match @build canonical_order diamond with Some (Ok s) => s | _ => diamond end.

Lemma diamond_builds : @build canonical_order diamond = Some (Ok diamond_built).
Proof. by vm_compute. Qed.

Lemma built_diamond :
  nodes diamond_built = nodes diamond /\ built diamond_built /\ acyclic (nodes diamond).
Proof.
  pose proof (@build_spec canonical_order diamond diamond_keyed) as Hb.
  rewrite diamond_builds in Hb. destruct Hb as (? & _ & ? & ?). done.
Qed.

Lemma build_correct_witness :
  well_keyed (nodes diamond) /\ closed (nodes diamond) /\ acyclic (nodes diamond).
Proof.
  split; [apply diamond_keyed|].
  apply (@build_correct canonical_order diamond diamond_keyed). eexists. apply diamond_builds.
Defined.
