(* ===== verification/SchedulerSort.v ===== *)
(** * SchedulerSort: topological order and execution waves

    Correctness of [topological_sort] (Kahn's algorithm over the in-degree
    counts) and of [execution_waves], on any scheduler [build] produced. *)

From stdpp Require Import base gmap strings list fin_maps relations sorting.
From Stdlib Require Import ZArith Lia.
From S2P Require Import Prelude Text Json TeamTypes Scheduler SchedulerGraph.

#[local] Open Scope Z_scope.

(** ** Counting unfinished dependencies *)

(** The dependencies of a node (with repetitions) not yet in [res]. *)
Definition pending (res : list string) (ds : list string) : nat :=
  length (List.filter (fun d => negb (bool_decide (d ∈ res))) ds).

Lemma pending_nil ds : pending [] ds = length ds.
Proof.
  unfold pending. induction ds as [|d ds IH]; [done|]. cbn [List.filter].
  rewrite bool_decide_false by apply not_elem_of_nil. cbn [negb length]. by rewrite IH.
Qed.

Lemma pending_zero res ds : pending res ds = 0%nat <-> forall d, d ∈ ds -> d ∈ res.
Proof.
  unfold pending. induction ds as [|d ds IH]; simpl; [split; [by intros _ ? ?%not_elem_of_nil|done]|].
  case_bool_decide as Hd; simpl.
  - rewrite IH. split; [|intros Hx e ?; apply Hx; by right].
    intros Hx e He. apply elem_of_cons in He as [->|He]; auto.
  - split; [done|]. intros Hx. exfalso. apply Hd, Hx. by left.
Qed.

Lemma pending_snoc res i ds :
  i ∉ res -> (pending (res ++ [i]) ds + occ i ds = pending res ds)%nat.
Proof.
  intros Hi. unfold pending. induction ds as [|d ds IH]; simpl; [done|].
  destruct (decide (i = d)) as [<-|Hne].
  - rewrite (bool_decide_true (i ∈ res ++ [i])), (bool_decide_false (i ∈ res)) by set_solver.
    simpl. lia.
  - assert (bool_decide (d ∈ res ++ [i]) = bool_decide (d ∈ res)) as ->.
    { apply bool_decide_ext. set_solver. }
    destruct (bool_decide (d ∈ res)); simpl; lia.
Qed.

Lemma pending_perm res res' ds : res ≡ₚ res' -> pending res ds = pending res' ds.
Proof.
  intros Hp. unfold pending. induction ds as [|d ds IH]; simpl; [done|].
  assert (bool_decide (d ∈ res) = bool_decide (d ∈ res')) as ->.
  { apply bool_decide_ext. by rewrite Hp. }
  destruct (bool_decide (d ∈ res')); simpl; by rewrite IH.
Qed.

(** The in-degree counts after the nodes of [res] have finished. *)
Definition counts (m : gmap string DagNode) (res : list string) (deg : gmap string Z) : Prop :=
  forall i, deg !! i = (fun n => Z.of_nat (pending res (dependencies n))) <$> m !! i.

Lemma counts_zero m res deg i n :
  counts m res deg -> m !! i = Some n ->
  (deg !! i = Some 0 <-> forall d, d ∈ dependencies n -> d ∈ res).
Proof.
  intros Hc Hi. rewrite Hc, Hi. simpl. rewrite <- pending_zero. split; [intros [= ?]; lia|].
  intros ->. done.
Qed.

Lemma built_counts s : built s -> counts (nodes s) [] (in_degree s).
Proof.
  intros Hb i. rewrite (built_degree _ Hb). destruct (nodes s !! i); simpl; [|done].
  by rewrite pending_nil.
Qed.

(** ** Decrementing along a list of dependents *)

Definition dec_one (deg : gmap string Z) (d : string) : gmap string Z :=
  match deg !! d with Some n => <[d := sub64 n 1]> deg | None => deg end.

Lemma dec_all_lookup l deg :
  (forall y, y ∈ l -> exists k, deg !! y = Some (Z.of_nat k) /\ (occ y l <= k)%nat /\
                          Z.of_nat k <= u64_max) ->
  forall y, foldl dec_one deg l !! y = (fun v => v - Z.of_nat (occ y l)) <$> deg !! y.
Proof.
  revert deg. induction l as [|d l IH]; intros deg Hl y; simpl.
  - destruct (deg !! y); simpl; [f_equal; lia|done].
  - destruct (Hl d) as (k & Hk & Hocc & Hmax); [by left|]. simpl in Hocc.
    rewrite decide_True in Hocc by done.
    assert (Hd : dec_one deg d = <[d := Z.of_nat (k - 1)]> deg).
    { unfold dec_one. rewrite Hk, sub64_pos by lia. f_equal. lia. }
    rewrite IH, Hd.
    + rewrite lookup_insert. destruct (decide (d = y)) as [<-|Hne].
      * rewrite decide_True by done. rewrite Hk. simpl. f_equal. lia.
      * rewrite decide_False by done. destruct (deg !! y); simpl; [f_equal; lia|done].
    + intros z Hz. rewrite Hd, lookup_insert. destruct (decide (d = z)) as [<-|Hne].
      * exists (k - 1)%nat. split; [done|]. lia.
      * destruct (Hl z) as (kz & Hkz & Hoz & Hmz); [by right|]. simpl in Hoz.
        exists kz. split; [done|]. lia.
Qed.

Lemma release_all_degrees l st : (foldl release_one st l).1 = foldl dec_one st.1 l.
Proof.
  revert st. induction l as [|d l IH]; intros [deg q]; simpl; [done|].
  rewrite IH. f_equal. unfold release_one, dec_one. simpl. by destruct (deg !! d).
Qed.

(** The nodes enqueued are those whose count reaches zero, once each. *)
Lemma release_all_queue l deg q :
  (forall y, y ∈ l -> exists k, deg !! y = Some (Z.of_nat k) /\ (occ y l <= k)%nat /\
                          Z.of_nat k <= u64_max) ->
  exists new, (foldl release_one (deg, q) l).2 = q ++ new /\ NoDup new /\
    forall y, y ∈ new <-> y ∈ l /\ deg !! y = Some (Z.of_nat (occ y l)).
Proof.
  revert deg q. induction l as [|d l IH]; intros deg q Hl; simpl.
  { exists []. rewrite app_nil_r. split_and!; [done|constructor|]. set_solver. }
  destruct (Hl d) as (k & Hk & Hocc & Hmax); [by left|]. simpl in Hocc.
  rewrite decide_True in Hocc by done.
  unfold release_one at 2. simpl. rewrite Hk, sub64_pos by lia.
  replace (Z.of_nat k - 1) with (Z.of_nat (k - 1)) by lia.
  set (deg1 := <[d := _]> deg).
  assert (Hl1 : forall y, y ∈ l -> exists k, deg1 !! y = Some (Z.of_nat k) /\
                     (occ y l <= k)%nat /\ Z.of_nat k <= u64_max).
  { intros z Hz. unfold deg1. rewrite lookup_insert. destruct (decide (d = z)) as [<-|Hne].
    - exists (k - 1)%nat. split; [done|]. lia.
    - destruct (Hl z) as (kz & Hkz & Hoz & Hmz); [by right|]. simpl in Hoz.
      exists kz. split; [done|]. lia. }
  destruct (IH deg1 (if Z.of_nat (k - 1) =? 0 then q ++ [d] else q) Hl1) as (new & Hq & Hnd & Hnew).
  assert (Hiff : forall y, y ∈ new <-> y ∈ l /\ deg1 !! y = Some (Z.of_nat (occ y l))) by done.
  destruct (Z.eqb_spec (Z.of_nat (k - 1)) 0) as [Hz|Hnz].
  - assert (Hk1 : k = 1%nat) by lia. assert (Hdl : d ∉ l) by (apply occ_zero; lia).
    exists (d :: new). split_and!.
    + rewrite Hq, <- (assoc_L (++)). done.
    + constructor; [|done]. rewrite Hnew. tauto.
    + intros y. rewrite elem_of_cons, Hnew, elem_of_cons. unfold deg1.
      rewrite lookup_insert. case_decide; subst.
      * rewrite decide_True by done. split; [intros _|tauto]. split; [by left|].
        rewrite Hk. f_equal. apply occ_zero in Hdl. lia.
      * rewrite (decide_False (P := y = d)) by congruence. simpl.
        split; [intros [?|[? ?]]; [congruence|tauto]|intros [[?|?] ?]; [congruence|tauto]].
  - exists new. split_and!; [done|done|]. intros y. rewrite Hnew, elem_of_cons. unfold deg1.
    rewrite lookup_insert. destruct (decide (d = y)) as [<-|Hne].
    + rewrite decide_True, Hk by done. split.
      * intros [? [= ?]]. split; [by left|]. f_equal. lia.
      * intros [_ [= ?]]. split; [|f_equal; lia]. apply occ_pos. lia.
    + rewrite (decide_False (P := y = d)) by congruence. simpl.
      split; [tauto|]. intros [[?|?] ?]; [congruence|tauto].
Qed.

(** Finishing one more node: the list of its dependents carries exactly the
    decrements its completion calls for. *)
Section Finish.
Context (s : DagScheduler) (Hb : built s).

Lemma dependents_bound res deg i y :
  counts (nodes s) res deg -> i ∉ res -> y ∈ default [] (dependents s !! i) ->
  exists k, deg !! y = Some (Z.of_nat k) /\
    (occ y (default [] (dependents s !! i)) <= k)%nat /\ Z.of_nat k <= u64_max.
Proof.
  intros Hc Hi Hy. apply (built_succ _ i y Hb) in Hy as He. destruct He as (n & Hn & _).
  exists (pending res (dependencies n)). rewrite Hc, Hn. split; [done|].
  rewrite (built_dependents _ Hb). unfold deps_of. rewrite Hn. simpl.
  pose proof (pending_snoc res i (dependencies n) Hi).
  pose proof (List.filter_length_le (fun d => negb (bool_decide (d ∈ res))) (dependencies n)).
  destruct (built_keyed _ Hb y n Hn) as [_ ?]. unfold pending in *. lia.
Qed.

Lemma finish_counts res deg i :
  counts (nodes s) res deg -> i ∉ res ->
  counts (nodes s) (res ++ [i]) (foldl dec_one deg (default [] (dependents s !! i))).
Proof.
  intros Hc Hi y. rewrite dec_all_lookup by (intros; by apply (dependents_bound res)).
  rewrite Hc. destruct (nodes s !! y) as [n|] eqn:Hn; simpl; [|done]. f_equal.
  rewrite (built_dependents _ Hb). unfold deps_of. rewrite Hn. simpl.
  pose proof (pending_snoc res i (dependencies n) Hi). lia.
Qed.
End Finish.

(** ** Kahn's loop *)

(** [res] lists finished nodes, each after all its dependencies. *)
Definition ordered (m : gmap string DagNode) (res : list string) : Prop :=
  forall k i n d, res !! k = Some i -> m !! i = Some n -> d ∈ dependencies n -> d ∈ take k res.

Record kahn_inv (m : gmap string DagNode) (deg : gmap string Z) (queue res : list string) : Prop :=
  mkKahn {
    kahn_nodup : NoDup (res ++ queue);
    kahn_nodes : forall i, i ∈ res ++ queue -> is_Some (m !! i);
    kahn_counts : counts m res deg;
    kahn_queue : forall i, is_Some (m !! i) -> i ∉ res -> (i ∈ queue <-> deg !! i = Some 0);
    kahn_ordered : ordered m res
  }.

Lemma kahn_inv_perm m deg queue queue' res :
  queue ≡ₚ queue' -> kahn_inv m deg queue res -> kahn_inv m deg queue' res.
Proof.
  intros Hp [H1 H2 H3 H4 H5]. split; [by rewrite <- Hp| |done| |done].
  - intros i Hi. apply H2. by rewrite Hp.
  - intros i Hi Hr. rewrite <- Hp. by apply H4.
Qed.

Lemma kahn_step s deg i queue res :
  built s -> kahn_inv (nodes s) deg (i :: queue) res ->
  let st := release_all (dependents s) i (deg, queue) in
  kahn_inv (nodes s) st.1 (sort_ids (nodes s) st.2) (res ++ [i]).
Proof.
  intros Hb Hinv st. pose proof Hinv as [Hnd Hin Hc Hq Hord].
  assert (Hi : i ∉ res).
  { apply NoDup_app in Hnd as (_ & Hdis & _). intros Hir. apply (Hdis i Hir). by left. }
  assert (Hiq : i ∉ queue).
  { apply NoDup_app in Hnd as (_ & _ & Hq'). by apply NoDup_cons in Hq' as [? _]. }
  destruct (release_all_queue (default [] (dependents s !! i)) deg queue
    (fun y Hy => dependents_bound s Hb res deg i y Hc Hi Hy)) as (new & Hnew & Hndn & Hiff).
  assert (Hdeg : st.1 = foldl dec_one deg (default [] (dependents s !! i))).
  { unfold st, release_all. by rewrite release_all_degrees. }
  pose proof (finish_counts s Hb res deg i Hc Hi) as Hc'. rewrite <- Hdeg in Hc'.
  assert (Hready : forall y, y ∈ new -> (y ∉ res ++ i :: queue) /\ is_Some (nodes s !! y)).
  { intros y Hy. apply Hiff in Hy as [Hy Hz]. pose proof (occ_pos y (default [] (dependents s !! i))) as Ho.
    apply (built_succ _ i y Hb) in Hy as (n & Hn & Hdep). split; [|by eexists].
    intros Hbad. assert (Hzero : deg !! y = Some 0).
    { apply elem_of_app in Hbad as [Hr|Hr].
      - exfalso. apply list_elem_of_lookup in Hr as [k Hk].
        specialize (Hord k y n i Hk Hn Hdep). apply Hi. by eapply subseteq_take.
      - apply Hq; [by eexists| |done]. intros Hyr.
        apply NoDup_app in Hnd as (_ & Hdis & _). by apply (Hdis y Hyr). }
    rewrite Hz in Hzero. injection Hzero as Hzero.
    assert (occ y (default [] (dependents s !! i)) = 0%nat) by lia.
    rewrite (built_dependents _ Hb) in H. apply occ_zero in H. apply H.
    apply edge_deps_of. by exists n. }
  unfold st, release_all in *. rewrite Hnew in *.
  apply kahn_inv_perm with (queue ++ new); [unfold sort_ids; by rewrite sort_by_perm|].
  split.
  - rewrite <- (assoc_L (++)). simpl.
    change (i :: queue ++ new) with ((i :: queue) ++ new). rewrite (assoc_L (++)).
    apply NoDup_app. split; [done|]. split; [|done].
    intros x Hx Hxn. by apply (Hready x Hxn).
  - intros x Hx. rewrite !elem_of_app, list_elem_of_singleton in Hx.
    destruct Hx as [[Hx| ->]|[Hx|Hx]].
    + apply Hin, elem_of_app. by left.
    + apply Hin, elem_of_app. right. by left.
    + apply Hin, elem_of_app. right. by right.
    + by apply Hready.
  - exact Hc'.
  - intros y Hy Hyr0.
    assert (Hyi' : y <> i) by (intros ->; apply Hyr0, elem_of_app; right; by left).
    assert (Hyr : y ∉ res) by (intros ?; apply Hyr0, elem_of_app; by left). rewrite elem_of_app.
    rewrite Hdeg. rewrite dec_all_lookup
      by (intros; by apply (dependents_bound s Hb res deg i)).
    specialize (Hq y Hy Hyr). rewrite elem_of_cons in Hq.
    destruct Hy as [n Hn]. pose proof (Hc y) as Hcy. rewrite Hn in Hcy. simpl in Hcy.
    rewrite Hiff, Hcy in *. simpl.
    pose proof (occ_pos y (default [] (dependents s !! i))) as Ho.
    assert (Hle : (occ y (default [] (dependents s !! i)) <= pending res (dependencies n))%nat).
    { rewrite (built_dependents _ Hb). unfold deps_of. rewrite Hn. simpl.
      pose proof (pending_snoc res i (dependencies n) Hi). lia. }
    split.
    + intros [Hyq|[Hyl [= Heq]]]; [|f_equal; lia].
      assert (Some (Z.of_nat (pending res (dependencies n))) = Some 0) as [= Hz]
        by (apply Hq; by right).
      f_equal. lia.
    + intros [= Heq]. destruct (decide (y ∈ default [] (dependents s !! i))) as [Hyl|Hyl].
      * right. split; [done|]. f_equal. lia.
      * left. apply occ_zero in Hyl.
        destruct (proj2 Hq) as [?|?]; [f_equal; lia|done|done].
  - intros k x n d Hk Hx Hd. destruct (decide (k < length res)%nat) as [Hlt|Hge].
    + rewrite lookup_app_l in Hk by done. rewrite take_app_le by lia. by eapply Hord.
    + rewrite lookup_app_r in Hk by lia.
      destruct (k - length res)%nat as [|j] eqn:Hj; [|done]. simpl in Hk. injection Hk as <-.
      rewrite take_app_ge by lia. apply elem_of_app. left.
      assert (Hz : deg !! i = Some 0) by (apply Hq; [by eexists|done|by left]).
      by apply (counts_zero _ _ _ _ _ Hc Hx).
Qed.

(** The loop runs out of queue before it runs out of fuel. *)
Lemma kahn_loop_inv s fuel deg queue res :
  built s -> kahn_inv (nodes s) deg queue res ->
  (size (nodes s) <= length res + fuel)%nat ->
  exists res' deg', kahn_loop s fuel deg queue res = Some res' /\ kahn_inv (nodes s) deg' [] res'.
Proof.
  intros Hb. revert deg queue res. induction fuel as [|fuel IH]; intros deg queue res Hinv Hf.
  - destruct queue as [|i queue]; [by exists res, deg|]. exfalso.
    destruct Hinv as [Hnd Hin _ _ _].
    assert (length (res ++ i :: queue) <= size (nodes s))%nat as Hle.
    { rewrite <- size_dom. rewrite <- (size_list_to_set (C := gset string)) by done.
      apply subseteq_size. intros x Hx. apply elem_of_list_to_set in Hx.
      by apply elem_of_dom, Hin. }
    rewrite length_app in Hle. simpl in Hle. lia.
  - destruct queue as [|i queue]; [by exists res, deg|].
    pose proof (kahn_step s deg i queue res Hb Hinv) as Hstep. simpl.
    destruct (release_all (dependents s) i (deg, queue)) as [deg' q]. simpl in Hstep.
    apply (IH deg' (sort_ids (nodes s) q) (res ++ [i]) Hstep). rewrite length_app. simpl. lia.
Qed.

(** ** Topological order *)

Lemma ordered_take m res x y k :
  ordered m res -> edge m x y -> res !! k = Some y -> exists j, (j < k)%nat /\ res !! j = Some x.
Proof.
  intros Hord (n & Hn & Hd) Hk. specialize (Hord k y n x Hk Hn Hd).
  apply list_elem_of_lookup in Hord as [j Hj]. apply lookup_take_Some in Hj as [Hj ?].
  by exists j.
Qed.

Lemma ordered_tc m res x y k :
  ordered m res -> tc (edge m) x y -> res !! k = Some y -> exists j, (j < k)%nat /\ res !! j = Some x.
Proof.
  intros Hord Hxy. revert k. induction Hxy as [x y Hxy|x y z Hxy _ IH]; intros k Hk.
  - by eapply ordered_take.
  - destruct (IH k Hk) as (j & Hjk & Hj). destruct (ordered_take _ _ _ _ _ Hord Hxy Hj) as (i & ? & ?).
    exists i. split; [lia|done].
Qed.

Lemma ordered_acyclic m res :
  ordered m res -> NoDup res -> (forall i, is_Some (m !! i) -> i ∈ res) -> closed m -> acyclic m.
Proof.
  intros Hord Hnd Hall Hcl x Hx.
  assert (Hin : x ∈ res).
  { apply Hall. inversion Hx as [? ? He|? ? ? He]; subst; by eapply Hcl. }
  apply list_elem_of_lookup in Hin as [k Hk].
  destruct (ordered_tc _ _ _ _ _ Hord Hx Hk) as (j & Hjk & Hj).
  pose proof (NoDup_lookup _ _ _ _ Hnd Hj Hk). lia.
Qed.

Lemma tc_flip {A} (R : relation A) x y : tc (fun a b => R b a) x y -> tc R y x.
Proof.
  intros Hxy. induction Hxy as [x y Hxy|x y z Hxy _ IH]; [by apply tc_once|].
  eapply tc_r; eauto.
Qed.

(** In an acyclic closed graph every chain of dependencies ends. *)
Lemma acyclic_dependencies_end m x :
  closed m -> acyclic m -> is_Some (m !! x) -> Acc (edge m) x.
Proof.
  intros Hcl Hac Hx. set (back := dependencies <$> m).
  assert (Hsucc : forall a b, succ back a b <-> edge m b a).
  { intros a b. unfold succ, back. rewrite lookup_fmap, edge_deps_of. unfold deps_of.
    by destruct (m !! a). }
  assert (Ht : terminates back x).
  { apply (acyclic_terminates back (dom m)).
    - intros a b _ Hab. apply Hsucc in Hab. apply elem_of_dom. by eapply Hcl.
    - intros a Ha. apply (Hac a). apply tc_flip. eapply tc_mono; [|exact Ha].
      intros p q. apply Hsucc.
    - by apply elem_of_dom. }
  clear Hx. unfold terminates in Ht. induction Ht as [x _ IH]. constructor. intros y Hy.
  apply IH. by apply Hsucc.
Qed.

(** When nothing is ready any more, everything upstream of a ready-able node
    has finished. *)
Lemma exhausted_all m deg res x :
  closed m -> counts m res deg ->
  (forall i, is_Some (m !! i) -> deg !! i = Some 0 -> i ∈ res) ->
  Acc (edge m) x -> is_Some (m !! x) -> x ∈ res.
Proof.
  intros Hcl Hc Hex Hacc. induction Hacc as [x _ IH]. intros Hx. apply Hex; [done|].
  destruct Hx as [n Hn]. apply (counts_zero _ _ _ _ _ Hc Hn). intros d Hd.
  assert (He : edge m d x) by (by exists n). apply IH; [done|]. by eapply Hcl.
Qed.

Lemma nodup_keys_length (m : gmap string DagNode) l :
  NoDup l -> (forall i, i ∈ l -> is_Some (m !! i)) ->
  (length l <= size m)%nat /\ (length l = size m -> forall i, is_Some (m !! i) -> i ∈ l).
Proof.
  intros Hnd Hin.
  assert (Hsub : (list_to_set l : gset string) ⊆ dom m).
  { intros x Hx. apply elem_of_list_to_set in Hx. by apply elem_of_dom, Hin. }
  assert (Hsz : size (list_to_set l : gset string) = length l) by (by apply size_list_to_set).
  pose proof (subseteq_size _ _ Hsub) as Hle. rewrite Hsz, size_dom in Hle.
  split; [done|]. intros Heq i Hi.
  assert (Heqs : (list_to_set l : gset string) = dom m).
  { apply set_subseteq_size_eq; [done|]. rewrite Hsz, size_dom. lia. }
  apply elem_of_dom in Hi. rewrite <- Heqs in Hi. by apply elem_of_list_to_set in Hi.
Qed.

Section Sort.
Context `{HashOrder}.

Lemma kahn_start s :
  built s ->
  kahn_inv (nodes s) (in_degree s)
    (sort_ids (nodes s) (List.filter (zero_degree (in_degree s)) (hash_keys (nodes s)))) [].
Proof.
  intros Hb. set (q := List.filter _ _).
  assert (Hq : forall i, i ∈ q <-> is_Some (nodes s !! i) /\ in_degree s !! i = Some 0).
  { intros i. unfold q. change (List.filter ?f ?l) with (retain f l).
    rewrite elem_of_retain, elem_of_hash_keys. unfold zero_degree.
    by rewrite bool_decide_eq_true. }
  apply kahn_inv_perm with q; [unfold sort_ids; by rewrite sort_by_perm|]. split; simpl.
  - apply NoDup_retain, NoDup_hash_keys.
  - intros i. by rewrite Hq; intros [? _].
  - by apply built_counts.
  - intros i Hi _. rewrite Hq. tauto.
  - intros k i n d Hk. by rewrite lookup_nil in Hk.
Qed.

Lemma topological_sort_spec s :
  built s ->
  match topological_sort s with
  | None => False
  | Some (Ok order) =>
      NoDup order /\ (forall i, i ∈ order <-> is_Some (nodes s !! i)) /\
      ordered (nodes s) order /\ acyclic (nodes s)
  | Some (Err e) => code e = "cycle_detected"%string /\ ~ acyclic (nodes s)
  end.
Proof.
  intros Hb. pose proof (built_closed _ Hb) as Hcl. unfold topological_sort.
  case_bool_decide as Hempty.
  { rewrite Hempty. split_and!; [constructor|..].
    - intros i. rewrite lookup_empty. split; [by intros ?%not_elem_of_nil|by intros [? ?]].
    - intros k i n d Hk. by rewrite lookup_nil in Hk.
    - intros x Hx. inversion Hx as [? ? (n & Hn & _)|? ? ? (n & Hn & _)]; subst;
        by rewrite lookup_empty in Hn. }
  destruct (kahn_loop_inv s (size (nodes s)) (in_degree s) _ [] Hb (kahn_start s Hb)
    ltac:(simpl; lia)) as (res & deg & Hloop & Hinv).
  rewrite Hloop. destruct Hinv as [Hnd Hin Hc Hq Hord]. rewrite app_nil_r in *.
  destruct (nodup_keys_length (nodes s) res Hnd Hin) as [Hle Hall].
  destruct (Nat.eqb_spec (length res) (size (nodes s))) as [Heq|Hneq].
  - split_and!; [done| |done|by apply (ordered_acyclic _ res); auto].
    intros i. split; [apply Hin|by apply Hall].
  - split; [done|]. intros Hac. apply Hneq. apply Nat.le_antisymm; [done|].
    rewrite <- size_dom, <- (size_list_to_set (C := gset string)) by done.
    apply subseteq_size. intros x Hx. apply elem_of_dom in Hx. apply elem_of_list_to_set.
    apply (exhausted_all (nodes s) deg res x Hcl Hc); [|by apply acyclic_dependencies_end|done].
    intros i Hi Hz. destruct (decide (i ∈ res)) as [?|Hir]; [done|].
    apply (Hq i Hi Hir) in Hz. by apply not_elem_of_nil in Hz.
Qed.

(** Claim C13. Kahn's algorithm is correct on every scheduler [build]
    produced: it always returns; when the graph is acyclic it returns [Ok]
    with each node exactly once and every node after all its dependencies;
    when the graph has a cycle it returns the [cycle_detected] error. *)
Theorem topological_sort_correct s :
  built s ->
  (acyclic (nodes s) <->
     exists order, topological_sort s = Some (Ok order)) /\
  (~ acyclic (nodes s) <->
     exists e, topological_sort s = Some (Err e) /\ code e = "cycle_detected"%string) /\
  (forall order, topological_sort s = Some (Ok order) ->
     order ≡ₚ hash_keys (nodes s) /\
     forall pre i post n, order = pre ++ i :: post -> nodes s !! i = Some n ->
       forall d, d ∈ dependencies n -> d ∈ pre).
Proof.
  intros Hb. pose proof (topological_sort_spec s Hb) as Hspec.
  destruct (topological_sort s) as [[order|e]|]; [| |done].
  - destruct Hspec as (Hnd & Hin & Hord & Hac). split_and!.
    + split; [by eexists|done].
    + split; [done|]. by intros (? & ? & _).
    + intros order' [= <-]. split.
      * apply NoDup_Permutation; [done|apply NoDup_hash_keys|].
        intros i. by rewrite Hin, elem_of_hash_keys.
      * intros pre i post n -> Hn d Hd.
        assert (Hk : (pre ++ i :: post) !! length pre = Some i).
        { rewrite lookup_app_r, Nat.sub_diag by lia. done. }
        specialize (Hord _ _ _ _ Hk Hn Hd). by rewrite take_app_length in Hord.
  - destruct Hspec as [Hcode Hnac]. split_and!.
    + split; [done|]. by intros (? & ?).
    + split; [|done]. intros _. by exists e.
    + done.
Qed.
End Sort.

(** *** Determinism *)

Lemma priority_le_total m a b : priority_le m a b = false -> priority_le m b a = true.
Proof.
  unfold priority_le. destruct (Z.compare_spec (node_priority m b) (node_priority m a)),
    (Z.compare_spec (node_priority m a) (node_priority m b)); try done; try lia.
  apply str_leb_total.
Qed.

Lemma priority_le_trans m a b c :
  priority_le m a b = true -> priority_le m b c = true -> priority_le m a c = true.
Proof.
  unfold priority_le. destruct (Z.compare_spec (node_priority m b) (node_priority m a)),
    (Z.compare_spec (node_priority m c) (node_priority m b)),
    (Z.compare_spec (node_priority m c) (node_priority m a)); try done; try lia.
  apply str_leb_trans.
Qed.

Lemma priority_le_antisym m a b :
  priority_le m a b = true -> priority_le m b a = true -> a = b.
Proof.
  unfold priority_le. destruct (Z.compare_spec (node_priority m b) (node_priority m a)),
    (Z.compare_spec (node_priority m a) (node_priority m b)); try done; try lia.
  apply str_leb_antisym.
Qed.

Lemma sort_ids_unique m l1 l2 : l1 ≡ₚ l2 -> sort_ids m l1 = sort_ids m l2.
Proof.
  apply sort_by_unique; [apply priority_le_total|apply priority_le_trans|apply priority_le_antisym].
Qed.

(** Two schedulers built over the same nodes, in whatever orders, run Kahn's
    loop in lockstep. *)
Lemma kahn_loop_same s1 s2 fuel deg queue res :
  built s1 -> built s2 -> nodes s1 = nodes s2 ->
  kahn_inv (nodes s1) deg queue res ->
  kahn_loop s1 fuel deg queue res = kahn_loop s2 fuel deg queue res.
Proof.
  intros Hb1 Hb2 Hn. revert deg queue res. induction fuel as [|fuel IH]; intros deg queue res Hinv;
    destruct queue as [|i queue]; try done.
  pose proof (kahn_step s1 deg i queue res Hb1 Hinv) as Hs1.
  assert (Hi : i ∉ res).
  { destruct Hinv as [Hnd _ _ _ _]. apply NoDup_app in Hnd as (_ & Hdis & _).
    intros Hir. apply (Hdis i Hir). by left. }
  assert (Hc2 : counts (nodes s2) res deg) by (rewrite <- Hn; apply Hinv).
  assert (Hc1 : counts (nodes s1) res deg) by apply Hinv.
  destruct (release_all_queue (default [] (dependents s1 !! i)) deg queue
    (fun y Hy => dependents_bound s1 Hb1 res deg i y Hc1 Hi Hy)) as (new1 & Hq1 & Hnd1 & Hiff1).
  destruct (release_all_queue (default [] (dependents s2 !! i)) deg queue
    (fun y Hy => dependents_bound s2 Hb2 res deg i y Hc2 Hi Hy)) as (new2 & Hq2 & Hnd2 & Hiff2).
  simpl. destruct (release_all (dependents s1) i (deg, queue)) as [d1 q1] eqn:E1.
  destruct (release_all (dependents s2) i (deg, queue)) as [d2 q2] eqn:E2.
  unfold release_all in E1, E2.
  assert (Hd : d1 = d2).
  { apply (f_equal fst) in E1, E2. rewrite release_all_degrees in E1, E2. simpl in E1, E2. subst.
    apply map_eq. intros y.
    rewrite !dec_all_lookup by (intros; first [by apply (dependents_bound s1 Hb1 res)
                                              |by apply (dependents_bound s2 Hb2 res)]).
    by rewrite (built_dependents _ Hb1), (built_dependents _ Hb2), Hn. }
  assert (Hq : sort_ids (nodes s1) q1 = sort_ids (nodes s2) q2).
  { rewrite E1 in Hq1. rewrite E2 in Hq2. simpl in Hq1, Hq2. subst q1 q2. rewrite Hn.
    apply sort_ids_unique. f_equiv. apply NoDup_Permutation; [done|done|].
    intros y. rewrite Hiff1, Hiff2, <- !occ_pos.
    by rewrite (built_dependents _ Hb1), (built_dependents _ Hb2), Hn. }
  subst d2. rewrite <- Hq. apply IH. exact Hs1.
Qed.

(** The topological order is deterministic, as the documentation of
    [topological_sort] claims: two schedulers built from the same nodes give
    the same answer even when every hash map involved (while building and
    while sorting) is iterated in a different order. *)
Theorem topological_sort_deterministic (o1 o2 : HashOrder) s1 s2 :
  built s1 -> built s2 -> nodes s1 = nodes s2 ->
  @topological_sort o1 s1 = @topological_sort o2 s2.
Proof.
  intros Hb1 Hb2 Hn. unfold topological_sort. rewrite <- Hn. case_bool_decide; [done|].
  assert (Hdeg : in_degree s1 = in_degree s2).
  { apply map_eq. intros i. by rewrite (built_degree _ Hb1), (built_degree _ Hb2), Hn. }
  rewrite <- Hdeg.
  assert (Hq : sort_ids (nodes s1) (List.filter (zero_degree (in_degree s1)) (@hash_keys o1 _ (nodes s1)))
             = sort_ids (nodes s1) (List.filter (zero_degree (in_degree s1)) (@hash_keys o2 _ (nodes s1)))).
  { apply sort_ids_unique. apply (NoDup_Permutation);
      [apply NoDup_retain, NoDup_hash_keys..|].
    intros i. change (List.filter ?f ?l) with (retain f l).
    by rewrite !elem_of_retain, !elem_of_hash_keys. }
  rewrite <- Hq. rewrite (kahn_loop_same s1 s2); [done|done|done|done|].
  by apply (@kahn_start o1).
Qed.

Lemma topological_sort_correct_witness :
  built diamond_built /\
  exists order, @topological_sort canonical_order diamond_built = Some (Ok order).
Proof.
  destruct built_diamond as (Hn & Hb & Hac). split; [done|].
  apply (@topological_sort_correct canonical_order diamond_built Hb). by rewrite Hn.
Defined.

(** The diamond built and sorted with the entries visited in opposite orders. *)
Lemma topological_sort_deterministic_witness :
  @topological_sort reversed_order diamond_built = Some (Ok ["a"; "c"; "b"; "d"]).
Proof.
  destruct built_diamond as (_ & Hb & _).
  rewrite (topological_sort_deterministic reversed_order canonical_order diamond_built
             diamond_built Hb Hb eq_refl). by vm_compute.
Defined.

(** ** Execution waves *)

(** The nodes of the waves, in order. *)
Definition flat (waves : list ExecutionWave) : list string := mjoin (wave_nodes <$> waves).

Lemma flat_snoc waves w : flat (waves ++ [w]) = flat waves ++ wave_nodes w.
Proof. unfold flat. rewrite fmap_app, join_app. simpl. by rewrite app_nil_r. Qed.

(** [i] can run once [done] has: it is a node, it is not in [done], and all its
    dependencies are. *)
Definition enabled (m : gmap string DagNode) (done : list string) (i : string) : Prop :=
  exists n, m !! i = Some n /\ (i ∉ done) /\ (forall d, d ∈ dependencies n -> d ∈ done).

(** Wave [k] holds exactly the nodes the earlier waves enable, without
    repetition, by priority, under its own number. *)
Definition wave_at (m : gmap string DagNode) (waves : list ExecutionWave) (k : nat) : Prop :=
  forall w, waves !! k = Some w ->
    wave w = k /\ parallel w = Nat.ltb 1 (length (wave_nodes w)) /\
    wave_nodes w <> [] /\ NoDup (wave_nodes w) /\
    Sorted (le_rel (priority_le m)) (wave_nodes w) /\
    forall i, i ∈ wave_nodes w <-> enabled m (flat (take k waves)) i.

Definition layered (m : gmap string DagNode) (waves : list ExecutionWave) : Prop :=
  forall k, wave_at m waves k.

Lemma layered_snoc m waves w :
  layered m waves -> wave_at m (waves ++ [w]) (length waves) -> layered m (waves ++ [w]).
Proof.
  intros Hl Hw k w' Hk. destruct (decide (k < length waves)%nat) as [Hlt|Hge].
  - rewrite lookup_app_l in Hk by done. rewrite take_app_le by lia. by apply Hl.
  - assert (Hlen : (k < length (waves ++ [w]))%nat) by (by apply lookup_lt_is_Some_1; eexists).
    rewrite length_app in Hlen. simpl in Hlen. assert (k = length waves) as -> by lia.
    by apply Hw.
Qed.

Lemma layered_prefix m waves w : layered m (waves ++ [w]) -> layered m waves.
Proof.
  intros Hl k w' Hk. pose proof (lookup_lt_Some _ _ _ Hk) as Hlt.
  specialize (Hl k w'). rewrite lookup_app_l, take_app_le in Hl by lia. by apply Hl.
Qed.

Lemma layered_nodup m waves : layered m waves -> NoDup (flat waves).
Proof.
  induction waves as [|w waves IH] using rev_ind; intros Hl; [constructor|].
  rewrite flat_snoc.
  destruct (Hl (length waves) w) as (_ & _ & _ & Hnd & _ & Hin).
  { by rewrite list_lookup_middle. }
  rewrite take_app_length in Hin.
  apply NoDup_app. split_and!; [|intros i Hi Hw; by apply Hin in Hw as (? & _ & ? & _)|done].
  by apply IH, (layered_prefix _ _ w).
Qed.

Lemma layered_nodes m waves i : layered m waves -> i ∈ flat waves -> is_Some (m !! i).
Proof.
  intros Hl Hi. unfold flat in Hi. apply list_elem_of_join in Hi as (l & Hi & Hw).
  apply list_elem_of_fmap in Hw as (w & -> & Hw). apply list_elem_of_lookup in Hw as [k Hk].
  destruct (Hl k w Hk) as (_ & _ & _ & _ & _ & Hin).
  destruct (proj1 (Hin i) Hi) as (n & Hn & _). by exists n.
Qed.

(** Flattening the waves gives a topological order. *)
Lemma layered_ordered m waves : layered m waves -> ordered m (flat waves).
Proof.
  induction waves as [|w waves IH] using rev_ind; intros Hl k i n d Hk Hi Hd.
  { change (([] : list string) !! k = Some i) in Hk. by rewrite lookup_nil in Hk. }
  rewrite flat_snoc in *. destruct (decide (k < length (flat waves))%nat) as [Hlt|Hge].
  - rewrite lookup_app_l in Hk by done. rewrite take_app_le by lia.
    apply (IH (layered_prefix _ _ _ Hl) k i n d); done.
  - rewrite take_app_ge by lia. apply elem_of_app. left.
    rewrite lookup_app_r in Hk by lia. apply list_elem_of_lookup_2 in Hk.
    destruct (Hl (length waves) w) as (_ & _ & _ & _ & _ & Hin).
    { by rewrite list_lookup_middle. }
    rewrite take_app_length in Hin. apply Hin in Hk as (n' & Hn' & _ & Hall).
    rewrite Hi in Hn'. injection Hn' as <-. by apply Hall.
Qed.

Lemma finish_all_counts s l res completed deg :
  built s -> counts (nodes s) res deg -> NoDup (res ++ l) ->
  (forall x, x ∈ completed <-> x ∈ res) ->
  let st := foldl (finish_one (dependents s)) (completed, deg) l in
  counts (nodes s) (res ++ l) st.2 /\ forall x, x ∈ st.1 <-> x ∈ res ++ l.
Proof.
  intros Hb. revert res completed deg. induction l as [|i l IH]; intros res completed deg Hc Hnd Hin.
  - simpl. by rewrite app_nil_r.
  - replace (res ++ i :: l) with ((res ++ [i]) ++ l) in * by (by rewrite <- (assoc_L (++))).
    assert (Hi : i ∉ res).
    { apply NoDup_app in Hnd as (Hnd & _ & _). apply NoDup_app in Hnd as (_ & Hdis & _).
      intros Hir. apply (Hdis i Hir). by left. }
    apply (IH (res ++ [i])); [|done|set_solver].
    by apply finish_counts.
Qed.

Section Waves.
Context `{HashOrder}.

Lemma wave_ready s res (completed : gset string) deg i :
  counts (nodes s) res deg -> (forall x, x ∈ completed <-> x ∈ res) ->
  i ∈ List.filter (fun i => negb (bool_decide (i ∈ completed)) && zero_degree deg i)
        (hash_keys (nodes s)) <-> enabled (nodes s) res i.
Proof.
  intros Hc Hin. change (List.filter ?f ?l) with (retain f l).
  rewrite elem_of_retain, elem_of_hash_keys. unfold enabled, zero_degree.
  rewrite andb_true_iff, negb_true_iff, bool_decide_eq_false, bool_decide_eq_true, Hin.
  split.
  - intros ([n Hn] & ? & Hz). exists n. split_and!; [done|done|]. by apply (counts_zero _ _ _ _ _ Hc Hn).
  - intros (n & Hn & ? & Hd). split_and!; [by exists n|done|]. by apply (counts_zero _ _ _ _ _ Hc Hn).
Qed.

(** The loop adds exactly the enabled nodes each round and stops when nothing
    is enabled; one unit of fuel per node is enough. *)
Lemma waves_loop_spec s fuel (completed : gset string) deg waves :
  built s -> layered (nodes s) waves -> counts (nodes s) (flat waves) deg ->
  (forall x, x ∈ completed <-> x ∈ flat waves) ->
  (size (nodes s) <= length (flat waves) + fuel)%nat ->
  exists waves', waves_loop s fuel completed deg waves = Some waves' /\
    layered (nodes s) waves' /\ forall i, ~ enabled (nodes s) (flat waves') i.
Proof.
  intros Hb. revert completed deg waves.
  induction fuel as [|fuel IH]; intros completed deg waves Hl Hc Hin Hf; simpl;
    pose proof (fun i => wave_ready s (flat waves) completed deg i Hc Hin) as Hr;
    set (ready := List.filter _ _) in *.
  - destruct ready as [|i ready'] eqn:He.
    { exists waves. split_and!; [done|done|]. intros i. rewrite <- Hr. apply not_elem_of_nil. }
    exfalso. assert (Hi : enabled (nodes s) (flat waves) i) by (apply Hr; by left).
    destruct Hi as (n & Hn & Hi & _).
    destruct (nodup_keys_length (nodes s) (i :: flat waves)) as [Hle _].
    + constructor; [done|by eapply layered_nodup].
    + intros x Hx. apply elem_of_cons in Hx as [->|Hx]; [by exists n|by eapply layered_nodes].
    + simpl in Hle. lia.
  - destruct (decide (ready = [])) as [He|He].
    { rewrite He in *. exists waves. split_and!; [done|done|]. intros i. rewrite <- Hr.
      apply not_elem_of_nil. }
    assert (Hsort : sort_ids (nodes s) ready ≡ₚ ready) by apply sort_by_perm.
    assert (Hnd : NoDup (flat waves ++ sort_ids (nodes s) ready)).
    { rewrite Hsort. apply NoDup_app. split_and!; [by eapply layered_nodup| |].
      - intros x Hx Hxr. by apply Hr in Hxr as (? & _ & ? & _).
      - apply NoDup_retain, NoDup_hash_keys. }
    pose proof (finish_all_counts s (sort_ids (nodes s) ready) (flat waves) completed deg
                  Hb Hc Hnd Hin) as [Hc' Hin'].
    destruct ready as [|i0 ready'] eqn:Hready; [done|]. rewrite <- Hready in *.
    set (w := mkWave (length waves) (sort_ids (nodes s) ready)
                (Nat.ltb 1 (length (sort_ids (nodes s) ready)))).
    destruct (foldl _ _ _) as [completed' deg']. simpl in Hc', Hin'.
    apply IH; rewrite ?flat_snoc; [|done|done|].
    + apply layered_snoc; [done|]. intros w' Hw'. rewrite list_lookup_middle in Hw' by done.
      injection Hw' as <-. rewrite take_app_length. unfold w. simpl.
      split_and!; [done|done| | |apply sort_by_sorted, priority_le_total|].
      * intros Hnil. rewrite Hnil in Hsort. by apply Permutation_nil_l in Hsort.
      * by apply NoDup_app in Hnd as (_ & _ & ?).
      * intros i. by rewrite Hsort.
    + rewrite length_app. simpl. rewrite Hsort.
      assert (length ready <> 0)%nat by (by rewrite Hready). lia.
Qed.

Lemma execution_waves_spec s :
  built s ->
  match execution_waves s with
  | None => False
  | Some (Ok waves) =>
      layered (nodes s) waves /\ flat waves ≡ₚ hash_keys (nodes s) /\ acyclic (nodes s)
  | Some (Err e) => code e = "cycle_detected"%string /\ ~ acyclic (nodes s)
  end.
Proof.
  intros Hb. pose proof (built_closed _ Hb) as Hcl. unfold execution_waves.
  assert (Hnone : layered (nodes s) []) by (intros k w Hk; by rewrite lookup_nil in Hk).
  case_bool_decide as Hempty.
  { split_and!; [done| |].
    - apply NoDup_Permutation; [constructor|apply NoDup_hash_keys|]. intros i.
      rewrite elem_of_hash_keys, Hempty, lookup_empty.
      split; [by intros ?%not_elem_of_nil|by intros [? ?]].
    - apply (ordered_acyclic _ []); [by apply layered_ordered in Hnone|constructor| |done].
      intros i. rewrite Hempty, lookup_empty. by intros [? ?]. }
  destruct (waves_loop_spec s (size (nodes s)) ∅ (in_degree s) []) as (waves & Hw & Hl & Hex);
    [done|done|by apply built_counts|set_solver|simpl; lia|].
  rewrite Hw. pose proof (layered_nodup _ _ Hl) as Hnd.
  destruct (nodup_keys_length (nodes s) (flat waves) Hnd) as [Hle Hall];
    [intros; by eapply layered_nodes|].
  replace (sum_list _) with (length (flat waves)) by (unfold flat; by rewrite length_join).
  destruct (Nat.eqb_spec (length (flat waves)) (size (nodes s))) as [Heq|Hneq].
  - specialize (Hall Heq). split_and!; [done| |].
    + apply NoDup_Permutation; [done|apply NoDup_hash_keys|]. intros i.
      rewrite elem_of_hash_keys. split; [by apply layered_nodes|apply Hall].
    + by apply (ordered_acyclic _ (flat waves)); [apply layered_ordered| | |].
  - split; [done|]. intros Hac. apply Hneq, Nat.le_antisymm; [done|].
    rewrite <- size_dom, <- (size_list_to_set (C := gset string)) by done.
    apply subseteq_size. intros x Hx. apply elem_of_dom in Hx. apply elem_of_list_to_set.
    pose proof (acyclic_dependencies_end _ _ Hcl Hac Hx) as Hacc.
    induction Hacc as [x _ IH]. destruct (decide (x ∈ flat waves)) as [?|Hxw]; [done|].
    exfalso. destruct Hx as [n Hn]. apply (Hex x). exists n. split_and!; [done|done|].
    intros d Hd. apply IH; [by exists n|]. apply (Hcl d x). by exists n.
Qed.

(** The waves of a built scheduler are exactly the levels of its
    graph: [execution_waves] always returns; it returns [Ok] if and only if
    the graph is acyclic; then every node is in exactly one wave, wave [k]
    is numbered [k], is not empty, is sorted by priority and then id, and
    holds precisely the nodes outside the earlier waves all of whose
    dependencies are in earlier waves. *)
Theorem execution_waves_correct s :
  built s ->
  (acyclic (nodes s) <-> exists waves, execution_waves s = Some (Ok waves)) /\
  (~ acyclic (nodes s) <->
     exists e, execution_waves s = Some (Err e) /\ code e = "cycle_detected"%string) /\
  (forall waves, execution_waves s = Some (Ok waves) ->
     flat waves ≡ₚ hash_keys (nodes s) /\ layered (nodes s) waves).
Proof.
  intros Hb. pose proof (execution_waves_spec s Hb) as Hs.
  destruct (execution_waves s) as [[waves|e]|]; [| |done].
  - destruct Hs as (Hl & Hp & Hac). split_and!.
    + split; [by eexists|done].
    + split; [done|]. by intros (? & ? & _).
    + by intros ? [= <-].
  - destruct Hs as [Hcode Hnac]. split_and!.
    + split; [done|]. by intros (? & ?).
    + split; [|done]. intros _. by exists e.
    + done.
Qed.
End Waves.

Lemma execution_waves_correct_witness :
  built diamond_built /\
  exists waves, @execution_waves canonical_order diamond_built = Some (Ok waves).
Proof.
  destruct built_diamond as (Hn & Hb & Hac). split; [done|].
  apply (@execution_waves_correct canonical_order diamond_built Hb). by rewrite Hn.
Defined.

Example diamond_waves :
  @execution_waves canonical_order diamond_built =
  Some (Ok [mkWave 0 ["a"] false; mkWave 1 ["c"; "b"] true; mkWave 2 ["d"] false]).
Proof. by vm_compute. Qed.
