(* ===== verification/SchedulerRun.v ===== *)
(** * SchedulerRun: what the DAG scheduler does while a team runs

    Selection of the nodes to start ([get_ready_nodes]), propagation of a
    failure ([skip_dependents]), the critical path, and two defects of the
    scheduler's construction that the executor meets. *)

From stdpp Require Import base gmap strings list fin_maps relations sorting.
From Stdlib Require Import ZArith Lia.
From S2P Require Import Prelude Text Json TeamTypes Scheduler SchedulerGraph SchedulerSort.

#[local] Open Scope Z_scope.

(** ** Ready nodes *)

(** A prefix of a list sorted by a total order dominates the rest. *)
Lemma sorted_take_le {A} (le : A -> A -> bool) (l : list A) k x y :
  (forall a b c, le a b = true -> le b c = true -> le a c = true) ->
  Sorted (le_rel le) l -> x ∈ take k l -> y ∈ drop k l -> le x y = true.
Proof.
  intros Htr Hs Hx Hy. assert (Transitive (le_rel le)) by (intros a b c; apply Htr).
  apply Sorted_StronglySorted in Hs; [|done]. rewrite <- (take_drop k l) in Hs.
  revert Hs Hx Hy. generalize (take k l) as l1, (drop k l) as l2. intros l1 l2.
  induction l1 as [|a l1 IH]; simpl; intros Hs Hx Hy; [by apply not_elem_of_nil in Hx|].
  apply StronglySorted_inv in Hs as [Hs Hall].
  apply elem_of_cons in Hx as [->|Hx]; [|by apply IH].
  rewrite Forall_forall in Hall. apply Hall, elem_of_app. by right.
Qed.

Section Ready.
Context `{HashOrder}.

(** [i] is waiting and everything it waits for is in [completed]. *)
Definition node_ready (completed : gset string) (s : DagScheduler) (i : string) : Prop :=
  exists n, nodes s !! i = Some n /\ status n = Pending /\
    forall d, d ∈ dependencies n -> d ∈ completed.

Lemma is_ready_iff completed n :
  is_ready completed n = true <->
  status n = Pending /\ forall d, d ∈ dependencies n -> d ∈ completed.
Proof.
  unfold is_ready. rewrite andb_true_iff, bool_decide_eq_true, forallb_elem.
  by setoid_rewrite bool_decide_eq_true.
Qed.

Lemma ready_ids completed s :
  well_keyed (nodes s) ->
  NoDup (id <$> ready_nodes completed s) /\
  forall i, i ∈ id <$> ready_nodes completed s <-> node_ready completed s i.
Proof.
  intros Hk. split.
  - unfold ready_nodes, hash_values.
    assert (Hall : forall e, e ∈ hash_iter (nodes s) -> id e.2 = e.1).
    { intros [i n] Hin. apply elem_of_hash_iter in Hin. by apply Hk. }
    pose proof (NoDup_hash_keys (nodes s)) as Hnd. unfold hash_keys in Hnd.
    revert Hall Hnd. generalize (hash_iter (nodes s)) as l.
    induction l as [|[i n] l IH]; intros Hall Hnd; [constructor|].
    csimpl in Hnd. apply NoDup_cons in Hnd as [Hi Hnd].
    specialize (IH ltac:(intros; apply Hall; by right) Hnd). csimpl.
    case_match; [|done]. csimpl. constructor; [|done].
    intros Hin. apply list_elem_of_fmap in Hin as (n' & Heq & Hin).
    apply elem_of_retain in Hin as [Hin _]. apply list_elem_of_fmap in Hin as ([j m] & -> & Hin).
    pose proof (Hall (j, m) ltac:(by right)) as Hj. pose proof (Hall (i, n) ltac:(by left)) as Hn.
    simpl in *. apply Hi, list_elem_of_fmap. exists (j, m). split; [|done]. simpl. congruence.
  - intros i. rewrite list_elem_of_fmap. unfold ready_nodes, node_ready. split.
    + intros (n & -> & Hin). apply elem_of_retain in Hin as [Hin Hr].
      apply elem_of_hash_values in Hin as [j Hj]. apply is_ready_iff in Hr.
      exists n. rewrite (proj1 (Hk _ _ Hj)). done.
    + intros (n & Hn & Hr). exists n. split; [symmetry; by apply Hk|].
      apply elem_of_retain. split; [apply elem_of_hash_values; by exists i|].
      by apply is_ready_iff.
Qed.

(** [get_ready_nodes] never exceeds the parallelism bound and
    never starves an urgent node: it returns distinct ready nodes (pending,
    with every dependency completed), as many as fit in the free slots, and
    every ready node it leaves out comes after all those it returns in the
    order by priority and then id. *)
Theorem get_ready_nodes_correct completed running s :
  well_keyed (nodes s) ->
  let picked := get_ready_nodes completed running s in
  NoDup picked /\
  (forall i, i ∈ picked -> node_ready completed s i) /\
  length picked = Nat.min (max_parallelism s - running) (length (ready_nodes completed s)) /\
  (forall i j, i ∈ picked -> node_ready completed s j -> j ∉ picked ->
     priority_le (nodes s) i j = true).
Proof.
  intros Hk. destruct (ready_ids completed s Hk) as [Hnd Hin]. unfold get_ready_nodes.
  set (ids := id <$> ready_nodes completed s) in *.
  assert (Hp : sort_ids (nodes s) ids ≡ₚ ids) by apply sort_by_perm.
  destruct (Nat.leb_spec (max_parallelism s) running) as [Hge|Hlt]; simpl.
  { split_and!; [constructor|by intros ? ?%not_elem_of_nil|lia|by intros ? ? ?%not_elem_of_nil]. }
  set (k := (max_parallelism s - running)%nat). split_and!.
  - apply (sublist_NoDup _ (sort_ids (nodes s) ids)); [by rewrite Hp|apply sublist_take].
  - intros i Hi. apply Hin. rewrite <- Hp. by eapply subseteq_take.
  - rewrite length_take, Hp. unfold ids. by rewrite length_fmap.
  - intros i j Hi Hj Hnj. apply Hin in Hj. rewrite <- Hp in Hj.
    rewrite <- (take_drop k (sort_ids (nodes s) ids)) in Hj.
    apply elem_of_app in Hj as [?|Hj]; [done|].
    eapply sorted_take_le; [apply priority_le_trans|..|exact Hi|exact Hj].
    apply sort_by_sorted, priority_le_total.
Qed.
End Ready.

Lemma get_ready_nodes_correct_witness :
  well_keyed (nodes diamond) /\
  NoDup (@get_ready_nodes canonical_order {["a"]} 3 diamond) /\
  @get_ready_nodes canonical_order {["a"]} 3 diamond = ["c"].
Proof.
  split; [apply diamond_keyed|]. split; [|by vm_compute].
  apply (@get_ready_nodes_correct canonical_order {["a"]} 3 diamond diamond_keyed).
Defined.

(** ** Failure propagation *)

Section Skip.
Context `{HashOrder}.
Context (s : DagScheduler) (failed reason : string).

Definition schedulable (i : string) : Prop :=
  exists n, nodes s !! i = Some n /\ can_schedule n = true.

(** The nodes a failure reaches: dependents of the failed node that are still
    waiting, and waiting dependents of those. *)
Inductive affected : string -> Prop :=
| affected_direct i : i ∈ get_dependents failed s -> schedulable i -> affected i
| affected_via x i : affected x -> i ∈ get_dependents x s -> schedulable i -> affected i.

(** The node map once the nodes of [skipped] have been skipped. *)
Definition skipped_nodes (skipped : list string) (m : gmap string DagNode) : Prop :=
  forall i, m !! i = (if decide (i ∈ skipped) then skip_node reason else Datatypes.id) <$> nodes s !! i.

Record skip_inv (m : gmap string DagNode) (queue skipped : list string) : Prop := mkSkip {
  skip_nodup : NoDup skipped;
  skip_nodes : skipped_nodes skipped m;
  skip_sound : forall i, i ∈ skipped -> affected i;
  skip_queue : forall i, i ∈ queue -> schedulable i -> affected i;
  skip_pending : forall x i, (x = failed \/ x ∈ skipped) -> i ∈ get_dependents x s ->
                   schedulable i -> i ∈ queue \/ i ∈ skipped
}.

Lemma skipped_can_schedule m skipped i n :
  skipped_nodes skipped m -> m !! i = Some n ->
  (can_schedule n = true <-> schedulable i /\ i ∉ skipped).
Proof.
  intros Hm Hi. rewrite Hm in Hi. unfold schedulable.
  destruct (nodes s !! i) as [n0|] eqn:Hn0; [|done]. simpl in Hi.
  case_decide; injection Hi as <-.
  - split; [done|]. by intros [_ ?].
  - split; [intros; split; [by exists n0|done]|]. by intros [(? & [= ->] & ?) _].
Qed.

Lemma skip_step m i rest skipped :
  skip_inv m (i :: rest) skipped ->
  match m !! i with
  | Some n =>
      if can_schedule n then
        skip_inv (<[i := skip_node reason n]> m)
          (rest ++ List.filter (fun d => negb (existsb (String.eqb d) (skipped ++ [i])))
                     (get_dependents i s)) (skipped ++ [i]) /\ i ∉ skipped
      else skip_inv m rest skipped
  | None => skip_inv m rest skipped
  end.
Proof.
  intros [Hnd Hm Hs Hq Hp].
  assert (Hdrop : (schedulable i -> i ∈ skipped) -> skip_inv m rest skipped).
  { intros Hi. split; [done|done|done|intros; apply Hq; [by right|done]|].
    intros x y Hx Hy Hsy. destruct (Hp x y Hx Hy Hsy) as [Hin|?]; [|by right].
    apply elem_of_cons in Hin as [->|?]; [right; auto|by left]. }
  destruct (m !! i) as [n|] eqn:Hi.
  2:{ apply Hdrop. intros (n & Hn & _). by rewrite Hm, Hn in Hi. }
  pose proof (skipped_can_schedule m skipped i n Hm Hi) as Hcs.
  destruct (can_schedule n).
  2:{ apply Hdrop. intros Hsi. destruct (decide (i ∈ skipped)) as [?|n0]; [done|].
      discriminate (proj2 Hcs (conj Hsi n0)). }
  destruct (proj1 Hcs eq_refl) as [Hsi Hns]. split; [|done].
  assert (Hai : affected i) by (apply Hq; [by left|done]).
  split.
  - apply NoDup_app. split_and!; [done|set_solver|apply NoDup_singleton].
  - intros j. rewrite lookup_insert. case_decide as Hij.
    + subst j. rewrite decide_True by set_solver. rewrite Hm in Hi.
      destruct (nodes s !! i); [|done]. simpl in *. rewrite decide_False in Hi by done.
      by injection Hi as <-.
    + rewrite Hm. assert (j ∈ skipped ++ [i] <-> j ∈ skipped) as Hiff by set_solver.
      destruct (decide (j ∈ skipped)); [rewrite decide_True|rewrite decide_False]; try done; tauto.
  - intros j Hj. apply elem_of_app in Hj as [?|Hj]; [auto|]. by apply list_elem_of_singleton in Hj as ->.
  - intros j Hj Hsj. apply elem_of_app in Hj as [?|Hj]; [apply Hq; [by right|done]|].
    apply elem_of_retain in Hj as [Hj _]. by apply (affected_via i).
  - intros x y Hx Hy Hsy. destruct (decide (y ∈ skipped ++ [i])) as [?|Hny]; [by right|left].
    apply elem_of_app. destruct (decide (x = i)) as [->|Hxi].
    + right. apply elem_of_retain. split; [done|]. apply negb_true_iff, not_true_iff_false.
      rewrite existsb_elem. intros (z & Hz & ->%String.eqb_eq). done.
    + left. assert (Hx' : x = failed \/ x ∈ skipped) by set_solver.
      destruct (Hp x y Hx' Hy Hsy) as [Hin|?]; [|set_solver].
      apply elem_of_cons in Hin as [->|?]; [set_solver|done].
Qed.

(** Queue entries still to come: one for each dependent of a node not yet
    skipped. *)
Definition to_come (skipped : list string) : nat :=
  sum_list ((fun i => if decide (i ∈ skipped) then O else length (get_dependents i s))
              <$> hash_keys (nodes s)).

Lemma to_come_snoc skipped i :
  is_Some (nodes s !! i) -> i ∉ skipped ->
  (to_come (skipped ++ [i]) + length (get_dependents i s) <= to_come skipped)%nat.
Proof.
  intros Hi Hs. apply elem_of_hash_keys in Hi. pose proof (NoDup_hash_keys (nodes s)) as Hnd.
  unfold to_come. revert Hi Hnd. generalize (hash_keys (nodes s)) as l.
  assert (Hle : forall l, (sum_list ((fun j => if decide (j ∈ skipped ++ [i]) then O
                                   else length (get_dependents j s)) <$> l) <=
                      sum_list ((fun j => if decide (j ∈ skipped) then O
                                   else length (get_dependents j s)) <$> l))%nat).
  { induction l as [|j l IH]; csimpl; [done|]. repeat case_decide; try lia. set_solver. }
  induction l as [|j l IH]; csimpl; intros Hi Hnd; [by apply not_elem_of_nil in Hi|].
  apply NoDup_cons in Hnd as [Hj Hnd]. apply elem_of_cons in Hi as [<-|Hi].
  - rewrite decide_True by set_solver. rewrite (decide_False (P := i ∈ skipped)) by done.
    specialize (Hle l). lia.
  - specialize (IH Hi Hnd). assert (j <> i) by congruence.
    destruct (decide (j ∈ skipped)) as [?|?].
    + rewrite decide_True by set_solver. lia.
    + rewrite decide_False by set_solver. lia.
Qed.

Lemma skip_loop_spec fuel m queue skipped :
  skip_inv m queue skipped -> (length queue + to_come skipped <= fuel)%nat ->
  exists m' skipped', skip_loop (dependents s) reason fuel m queue skipped = Some (m', skipped') /\
    skip_inv m' [] skipped'.
Proof.
  revert m queue skipped. induction fuel as [|fuel IH]; intros m [|i rest] skipped Hinv Hf;
    simpl in *; [by eauto|lia|by eauto|].
  pose proof (skip_step m i rest skipped Hinv) as Hstep.
  destruct (m !! i) as [n|] eqn:Hi; [|apply IH; [done|lia]].
  destruct (can_schedule n) eqn:Hcs; [|apply IH; [done|lia]].
  destruct Hstep as [Hstep Hns]. apply IH; [exact Hstep|].
  rewrite length_app.
  pose proof (retain_length_le (fun d => negb (existsb (String.eqb d) (skipped ++ [i])))
                (get_dependents i s)) as Hle. unfold retain in Hle.
  assert (Hsome : is_Some (nodes s !! i)).
  { apply (skipped_can_schedule m skipped i n (skip_nodes _ _ _ Hinv) Hi) in Hcs as [(n0 & ? & _) _].
    by exists n0. }
  pose proof (to_come_snoc skipped i Hsome Hns). unfold get_dependents in *. lia.
Qed.

(** A failure skips exactly the nodes it dooms: whatever the graph
    (cycles included), [skip_dependents] returns, the ids it returns are
    distinct and are precisely the still-waiting nodes that depend on the
    failed node through a chain of still-waiting nodes, each of them becomes
    [Skipped] with the reason recorded, and every other node is untouched. *)
Theorem skip_dependents_correct :
  exists s' skipped, skip_dependents failed reason s = Some (s', skipped) /\
    NoDup skipped /\
    (forall i, i ∈ skipped <-> affected i) /\
    (forall i, i ∈ skipped -> exists n, nodes s !! i = Some n /\ can_schedule n = true /\
                                   nodes s' !! i = Some (skip_node reason n)) /\
    (forall i, i ∉ skipped -> nodes s' !! i = nodes s !! i) /\
    dependents s' = dependents s /\ in_degree s' = in_degree s.
Proof.
  assert (H0 : skip_inv (nodes s) (get_dependents failed s) []).
  { split; [constructor| |by intros ? ?%not_elem_of_nil|by apply affected_direct|].
    - intros i. simpl. by destruct (nodes s !! i).
    - intros x i [->|Hx] Hi _; [by left|by apply not_elem_of_nil in Hx]. }
  destruct (skip_loop_spec (skip_fuel s failed) (nodes s) (get_dependents failed s) [] H0)
    as (m & skipped & Hl & [Hnd Hm Hs _ Hp]).
  { unfold skip_fuel, to_come. apply Nat.add_le_mono_l, Nat.eq_le_incl. done. }
  unfold skip_dependents. rewrite Hl. exists (with_nodes m s), skipped.
  assert (Hiff : forall i, i ∈ skipped <-> affected i).
  { intros i. split; [apply Hs|]. induction 1 as [i Hi Hsi|x i _ IH Hi Hsi].
    - destruct (Hp failed i (or_introl eq_refl) Hi Hsi) as [Hn|?]; [|done].
      by apply not_elem_of_nil in Hn.
    - destruct (Hp x i (or_intror IH) Hi Hsi) as [Hn|?]; [|done].
      by apply not_elem_of_nil in Hn. }
  split_and!; [done|done|done| | |done|done]; intros i Hi; simpl; rewrite Hm.
  - rewrite decide_True by done.
    assert (Hsi : schedulable i) by (apply Hiff in Hi; by inversion Hi).
    destruct Hsi as (n & Hn & Hc). exists n. by rewrite Hn.
  - rewrite decide_False by done. by rewrite option_fmap_id.
Qed.
End Skip.

(** The failure of [c] in the diamond takes [d] with it. *)
Lemma affected_diamond : affected diamond_built "c" "d".
Proof.
  apply affected_direct.
  - apply list_elem_of_In. vm_compute. by left.
  - unfold schedulable. eexists. split; [vm_compute; reflexivity|reflexivity].
Qed.

(** ** The critical path *)

(** Each node of [l] depends on the one before it. *)
Definition is_chain (m : gmap string DagNode) (l : list string) : Prop :=
  (forall i, i ∈ l -> is_Some (m !! i)) /\
  forall k x y, l !! k = Some x -> l !! S k = Some y -> edge m x y.

Lemma is_chain_snoc m l x y :
  is_chain m (l ++ [x]) -> edge m x y -> is_chain m ((l ++ [x]) ++ [y]).
Proof.
  intros [Hn Hc] He. split.
  - intros i Hi. apply elem_of_app in Hi as [?|Hi]; [auto|].
    apply list_elem_of_singleton in Hi as ->. destruct He as (n & ? & _). by exists n.
  - intros k a b Ha Hb. destruct (decide (S k < length (l ++ [x]))%nat) as [Hlt|Hge].
    + rewrite lookup_app_l in Ha, Hb by lia. by eapply Hc.
    + assert (Hk : S k = length (l ++ [x])).
      { apply lookup_lt_Some in Hb. rewrite !length_app in *. simpl in *. lia. }
      rewrite Hk, list_lookup_middle in Hb by done. injection Hb as <-.
      rewrite length_app in Hk. simpl in Hk. assert (k = length l) as -> by lia.
      rewrite lookup_app_l in Ha by (rewrite length_app; simpl; lia).
      rewrite list_lookup_middle in Ha by done. by injection Ha as <-.
Qed.

Lemma is_chain_prefix m l1 l2 : is_chain m (l1 ++ l2) -> is_chain m l1.
Proof.
  intros [Hn Hc]. split; [intros; apply Hn, elem_of_app; by left|].
  intros k x y Hx Hy. apply (Hc k); by apply lookup_app_l_Some.
Qed.

Lemma is_chain_last m l x y : is_chain m ((l ++ [x]) ++ [y]) -> edge m x y.
Proof.
  intros [_ Hc]. apply (Hc (length l)).
  - rewrite lookup_app_l by (rewrite length_app; simpl; lia). by apply list_lookup_middle.
  - apply list_lookup_middle. rewrite length_app. simpl. lia.
Qed.

(** [longest] holds, for the nodes of [pre], the length of the longest chain
    ending there, and [pred] a last-but-one node of such a chain. *)
Record crit_inv (m : gmap string DagNode) (pre : list string)
    (longest : gmap string nat) (pred : gmap string string) : Prop := mkCrit {
  crit_dom : forall i, is_Some (longest !! i) <-> i ∈ pre;
  crit_size : forall i len, longest !! i = Some len -> (1 <= len <= length pre)%nat;
  crit_deps : forall i len n d, longest !! i = Some len -> m !! i = Some n -> d ∈ dependencies n ->
                exists ld, longest !! d = Some ld /\ (ld < len)%nat;
  crit_pred : forall i len, longest !! i = Some len ->
                match pred !! i with
                | Some p => edge m p i /\ longest !! p = Some (len - 1)%nat /\ (1 < len)%nat
                | None => len = 1%nat
                end;
  crit_pred_dom : forall i, is_Some (pred !! i) -> i ∈ pre
}.

Lemma longest_pred_spec longest ds :
  (forall d, d ∈ ds -> exists len, longest !! d = Some len /\ (1 <= len)%nat) ->
  let '(best, p) := longest_pred longest ds in
  (forall d len, d ∈ ds -> longest !! d = Some len -> (len <= best)%nat) /\
  match p with
  | Some d => d ∈ ds /\ longest !! d = Some best
  | None => ds = [] /\ best = 0%nat
  end.
Proof.
  unfold longest_pred. induction ds as [|d ds IH] using rev_ind; intros Hds; simpl.
  { split; [by intros ? ? ?%not_elem_of_nil|done]. }
  specialize (IH ltac:(intros; apply Hds, elem_of_app; by left)). rewrite foldl_app. simpl.
  destruct (foldl _ _ ds) as [best p].
  destruct (Hds d) as (len & Hlen & Hpos); [set_solver|]. rewrite Hlen.
  destruct IH as [Hmax Hp]. destruct (Nat.ltb_spec best len) as [Hlt|Hge].
  - split; [|set_solver]. intros e le He Hle. apply elem_of_app in He as [He|He].
    + specialize (Hmax e le He Hle). lia.
    + apply list_elem_of_singleton in He as ->. rewrite Hlen in Hle. injection Hle as <-. done.
  - split.
    + intros e le He Hle. apply elem_of_app in He as [He|He]; [by eapply Hmax|].
      apply list_elem_of_singleton in He as ->. rewrite Hlen in Hle. injection Hle as <-. done.
    + destruct p; [set_solver|]. lia.
Qed.

Lemma critical_step_inv m pre i n longest pred :
  crit_inv m pre longest pred -> m !! i = Some n -> i ∉ pre ->
  (forall d, d ∈ dependencies n -> d ∈ pre) ->
  let st := critical_step m (longest, pred) i in crit_inv m (pre ++ [i]) st.1 st.2.
Proof.
  intros [Hdom Hsize Hdeps Hpred Hpd] Hi Hni Hd. unfold critical_step. simpl. rewrite Hi. simpl.
  assert (Hlp := longest_pred_spec longest (dependencies n)).
  destruct (longest_pred longest (dependencies n)) as [best p]. simpl.
  destruct Hlp as [Hmax Hp].
  { intros d Hdd. destruct (proj2 (Hdom d) (Hd d Hdd)) as [len Hlen]. exists len.
    split; [done|]. by apply Hsize in Hlen as [? _]. }
  assert (Hbest : (best <= length pre)%nat).
  { destruct p as [d|]; [|destruct Hp; lia]. destruct Hp as [_ Hp]. by apply Hsize in Hp as [_ ?]. }
  assert (Hold : forall j len, longest !! j = Some len -> j <> i).
  { intros j len Hj ->. apply Hni, Hdom. by exists len. }
  set (pred' := match p with Some _ => _ | None => _ end).
  assert (Hpo : forall j, j <> i -> pred' !! j = pred !! j).
  { intros j Hj. unfold pred'. destruct p; [by rewrite lookup_insert_ne|done]. }
  split.
  - intros j. rewrite lookup_insert, elem_of_app, list_elem_of_singleton, <- Hdom.
    case_decide; split; naive_solver.
  - intros j len. rewrite lookup_insert, length_app. simpl. case_decide.
    + intros [= <-]. lia.
    + intros Hj. apply Hsize in Hj. lia.
  - intros j len nj d. rewrite lookup_insert. case_decide as Hij.
    + subst j. intros [= <-] Hnj Hdd. rewrite Hi in Hnj. injection Hnj as <-.
      destruct (proj2 (Hdom d) (Hd d Hdd)) as [ld Hld]. exists ld.
      rewrite lookup_insert_ne by (intros ->; by apply Hold in Hld).
      split; [done|]. specialize (Hmax d ld Hdd Hld). lia.
    + intros Hj Hnj Hdd. destruct (Hdeps j len nj d Hj Hnj Hdd) as (ld & Hld & ?). exists ld.
      by rewrite lookup_insert_ne by (intros ->; by apply Hold in Hld).
  - intros j len. rewrite lookup_insert. case_decide as Hij.
    + subst j. intros [= <-]. unfold pred'. destruct p as [d|].
      * destruct Hp as [Hdd Hld]. rewrite lookup_insert_eq.
        rewrite lookup_insert_ne by (intros ->; by apply Hold in Hld).
        replace (S best - 1)%nat with best by lia. apply Hsize in Hld as ?.
        split_and!; [by exists n|done|lia].
      * destruct Hp as [_ ->].
        destruct (pred !! i) eqn:Hpi; [|done]. exfalso. apply Hni, Hpd. by eexists.
    + intros Hj. rewrite Hpo by done. specialize (Hpred j len Hj).
      destruct (pred !! j) as [q|]; [|done]. destruct Hpred as (? & Hq & ?).
      by rewrite lookup_insert_ne by (intros ->; by apply Hold in Hq).
  - intros j Hj. apply elem_of_app. destruct (decide (j = i)) as [->|Hne]; [right; by left|left].
    apply Hpd. by rewrite <- Hpo.
Qed.

Lemma critical_steps_inv m pre l longest pred :
  crit_inv m pre longest pred -> NoDup (pre ++ l) ->
  (forall i, i ∈ l -> is_Some (m !! i)) -> ordered m (pre ++ l) ->
  let st := foldl (critical_step m) (longest, pred) l in crit_inv m (pre ++ l) st.1 st.2.
Proof.
  revert pre longest pred. induction l as [|i l IH]; intros pre longest pred Hinv Hnd Hl Hord.
  { simpl. by rewrite app_nil_r. }
  destruct (Hl i) as [n Hn]; [by left|].
  assert (Hi : i ∉ pre).
  { apply NoDup_app in Hnd as (_ & Hdis & _). intros Hin. apply (Hdis i Hin). by left. }
  assert (Hd : forall d, d ∈ dependencies n -> d ∈ pre).
  { intros d Hd. specialize (Hord (length pre) i n d).
    rewrite list_lookup_middle, take_app_length in Hord by done. by apply Hord. }
  pose proof (critical_step_inv m pre i n longest pred Hinv Hn Hi Hd) as Hstep.
  cbn [foldl]. destruct (critical_step m (longest, pred) i) as [longest' pred']. simpl in Hstep.
  replace (pre ++ i :: l) with ((pre ++ [i]) ++ l) in * by (by rewrite <- (assoc_L (++))).
  apply IH; [done|done| |done]. intros j Hj. apply Hl. by right.
Qed.

(** No chain is longer than the number recorded for its last node. *)
Lemma chain_bound m pre longest pred l i len :
  crit_inv m pre longest pred -> (forall j, is_Some (m !! j) -> j ∈ pre) ->
  is_chain m (l ++ [i]) -> longest !! i = Some len -> (length (l ++ [i]) <= len)%nat.
Proof.
  intros Hinv Hall. revert i len. induction l as [|x l IH] using rev_ind; intros i len Hc Hi.
  - simpl. by apply (crit_size _ _ _ _ Hinv) in Hi as [? _].
  - pose proof (is_chain_last _ _ _ _ Hc) as (n & Hn & Hx).
    destruct (crit_deps _ _ _ _ Hinv i len n x Hi Hn Hx) as (lx & Hlx & Hlt).
    specialize (IH x lx (is_chain_prefix _ _ _ Hc) Hlx). rewrite length_app. simpl. lia.
Qed.

(** Walking back from a node retraces a chain of the recorded length. *)
Lemma walk_back_chain m pre longest pred i len fuel acc :
  crit_inv m pre longest pred -> (forall j, j ∈ pre -> is_Some (m !! j)) ->
  longest !! i = Some len -> (len <= S fuel)%nat ->
  exists w, walk_back pred fuel i acc = Some (acc ++ w) /\ length (i :: w) = len /\
    is_chain m (reverse (i :: w)).
Proof.
  intros Hinv Hm. revert i fuel acc. induction len as [|len IH]; intros i fuel acc Hi Hf.
  { apply (crit_size _ _ _ _ Hinv) in Hi. lia. }
  pose proof (crit_pred _ _ _ _ Hinv i _ Hi) as Hp.
  destruct (pred !! i) as [p|] eqn:Hpi.
  - destruct Hp as (He & Hlp & Hlt). replace (S len - 1)%nat with len in Hlp by lia.
    destruct fuel as [|fuel]; [lia|].
    destruct (IH p fuel (acc ++ [p]) Hlp ltac:(lia)) as (w & Hw & Hlen & Hc).
    exists (p :: w). split_and!.
    + simpl. rewrite Hpi, Hw. by rewrite <- (assoc_L (++)).
    + simpl in *. lia.
    + rewrite reverse_cons. rewrite reverse_cons in Hc |- *. by apply is_chain_snoc.
  - exists []. split_and!; [destruct fuel; simpl; rewrite Hpi; by rewrite app_nil_r|simpl; lia|].
    split; [|by intros [|k] x y Hx Hy].
    intros j Hj. apply list_elem_of_singleton in Hj as ->.
    apply Hm, (crit_dom _ _ _ _ Hinv). by eexists.
Qed.

Lemma max_by_len_spec l :
  match max_by_len l with
  | None => l = []
  | Some b => b ∈ l /\ forall x, x ∈ l -> (x.2 <= b.2)%nat
  end.
Proof.
  unfold max_by_len. induction l as [|x l IH] using rev_ind; [done|].
  rewrite foldl_app. simpl. destruct (foldl _ None l) as [b|].
  - destruct IH as [Hb Hmax]. destruct (Nat.leb_spec b.2 x.2) as [Hle|Hgt].
    + split; [set_solver|]. intros y Hy. apply elem_of_app in Hy as [Hy|Hy].
      * specialize (Hmax y Hy). lia.
      * by apply list_elem_of_singleton in Hy as ->.
    + split; [set_solver|]. intros y Hy. apply elem_of_app in Hy as [Hy|Hy]; [auto|].
      apply list_elem_of_singleton in Hy as ->. lia.
  - subst l. split; [set_solver|]. intros y Hy. by apply list_elem_of_singleton in Hy as ->.
Qed.

Section CriticalPath.
Context `{HashOrder}.

(** The critical path of a built, acyclic, non-empty scheduler is
    a longest dependency chain: [critical_path] returns, each node of the
    path depends on the one before it, and no chain of the graph has more
    nodes.  Without nodes the code returns the path with one empty id. *)
Theorem critical_path_longest s :
  built s -> acyclic (nodes s) ->
  exists path, critical_path s = Some (Ok path) /\
    (nodes s = ∅ -> path = [""%string]) /\
    (nodes s <> ∅ -> path <> [] /\ is_chain (nodes s) path /\
       forall l, is_chain (nodes s) l -> (length l <= length path)%nat).
Proof.
  intros Hb Hac. pose proof (topological_sort_spec s Hb) as Ht. unfold critical_path.
  destruct (topological_sort s) as [[topo|e]|]; [|by destruct Ht|done].
  destruct Ht as (Hnd & Hin & Hord & _).
  pose proof (critical_steps_inv (nodes s) [] topo ∅ ∅) as Hinv.
  destruct (foldl (critical_step (nodes s)) (∅, ∅) topo) as [longest pred]. simpl in Hinv.
  assert (Hci : crit_inv (nodes s) topo longest pred).
  { apply Hinv; [|done|intros; by apply Hin|done].
    split; intros *; rewrite ?lookup_empty; try done.
    split; [by intros [? ?]|by intros ?%not_elem_of_nil]. }
  clear Hinv. pose proof (max_by_len_spec (hash_iter longest)) as Hmax.
  destruct (max_by_len (hash_iter longest)) as [[e len]|].
  - destruct Hmax as [He Hmax]. apply elem_of_hash_iter in He.
    apply (crit_size _ _ _ _ Hci) in He as Hlen.
    destruct (nodup_keys_length (nodes s) topo Hnd) as [Hle _]; [intros; by apply Hin|].
    destruct (walk_back_chain (nodes s) topo longest pred e len (size (nodes s)) [e] Hci)
      as (w & Hw & Hwl & Hc); [intros; by apply Hin|done|lia|].
    rewrite Hw. exists (reverse (e :: w)). split; [done|]. split.
    + intros Hempty. rewrite Hempty, map_size_empty in Hle. lia.
    + intros _. split_and!; [intros Hnil%(f_equal length); by rewrite length_reverse in Hnil|done|].
      intros l Hl. rewrite length_reverse, Hwl.
      destruct l as [|x l _] using rev_ind; [simpl; lia|].
      assert (Hx : x ∈ topo).
      { apply Hin, (proj1 Hl), elem_of_app. right. by left. }
      apply (crit_dom _ _ _ _ Hci) in Hx as [lx Hlx].
      pose proof (chain_bound _ _ _ _ l x lx Hci ltac:(intros; by apply Hin) Hl Hlx).
      specialize (Hmax (x, lx)). rewrite elem_of_hash_iter in Hmax. specialize (Hmax Hlx).
      simpl in Hmax. lia.
  - apply hash_keys_empty in Hmax. subst longest.
    assert (Htopo : topo = []).
    { destruct topo as [|x topo]; [done|]. exfalso.
      destruct (proj2 (crit_dom _ _ _ _ Hci x)) as [? Hx]; [by left|]. by rewrite lookup_empty in Hx. }
    subst topo. simpl.
    assert (Hnone : pred !! ""%string = None).
    { destruct (pred !! ""%string) eqn:Hp; [|done].
      assert (Hx : ""%string ∈ @nil string) by (apply (crit_pred_dom _ _ _ _ Hci); by eexists).
      by apply not_elem_of_nil in Hx. }
    exists [""%string]. split_and!; [by destruct (size (nodes s)); simpl; rewrite Hnone|done|].
    intros Hne. exfalso. apply Hne, map_empty. intros i. apply eq_None_not_Some.
    intros Hi. apply Hin in Hi. by apply not_elem_of_nil in Hi.
Qed.
End CriticalPath.

Lemma critical_path_longest_witness :
  built diamond_built /\ acyclic (nodes diamond_built) /\
  exists path, @critical_path canonical_order diamond_built = Some (Ok path).
Proof.
  destruct built_diamond as (Hn & Hb & Hac). rewrite <- Hn in Hac. split_and!; [done|done|].
  destruct (@critical_path_longest canonical_order diamond_built Hb Hac) as (path & Hp & _).
  by exists path.
Defined.

(** ** Two defects of construction *)

Lemma add_agents_parallelism l s s' :
  add_agents l s = Ok s' -> max_parallelism s' = max_parallelism s.
Proof.
  revert s. induction l as [|a l IH]; intros s; simpl; [by intros [= ->]|].
  unfold add_node. case_bool_decide; [done|]. intros Hl. by rewrite (IH _ Hl).
Qed.

(** [from_team] starts from the derived [Default], whose [max_parallelism] is
    0: the scheduler of a team has no slot to give. *)
Lemma from_team_no_slots `{HashOrder} l s :
  from_team l = Some (Ok s) -> max_parallelism s = 0%nat.
Proof.
  unfold from_team. destruct (add_agents l new) as [s1|e] eqn:Ha; [|done].
  apply add_agents_parallelism in Ha. unfold build.
  destruct (build_nodes _ _ _) as [[D G]|e]; [|done].
  destruct (detect_cycles _) as [[u|e]|]; [|done|done]. intros [= <-]. by simpl.
Qed.

(** [remove_node] leaves the in-degree counts of the removed node's dependents
    stale: sorting afterwards reports a cycle in an acyclic graph.  Here [b]
    depends on [a], and [a] is removed. *)
Definition pair_built : DagScheduler :=
  mkScheduler
    (list_to_map [("a", new_node "a" "first");
                  ("b", with_dependency "a" (new_node "b" "second"))])
    {["a" := ["b"]]} (list_to_map [("a", 0); ("b", 1)]) 4.

Example pair_sorts :
  @topological_sort canonical_order pair_built = Some (Ok ["a"; "b"]).
Proof. by vm_compute. Qed.

Example remove_node_stale :
  @topological_sort canonical_order (remove_node "a" pair_built).1 =
  Some (Err (cycle_error "perform topological sort")).
Proof. by vm_compute. Qed.
