(* ===== verification/TeamPolicy.v ===== *)
(** * TeamPolicy: [engine/team/policy.rs]

    What sub-agents may use and spend, and the collection of their results. *)

From stdpp Require Import base gmap strings list fin_maps.
From Stdlib Require Import ZArith Lia.
From S2P Require Import Prelude Text Float64 Json.

#[local] Open Scope Z_scope.

(** ** Policies *)

Record TeamPolicy := mkPolicy {
  tool_whitelist : gset string;
  tool_blacklist : gset string;
  max_cost_per_agent : option f64;
  max_tokens_per_agent : option Z;
  max_turns_per_agent : Z;
  agent_timeout_secs : Z
}.

(** [Default for TeamPolicy]. *)
Definition default_policy : TeamPolicy :=
  mkPolicy ∅ ∅ (Some (f64_of_Z 1)) (Some 50000) 10 300.

(** The builders. *)
Definition with_tool_whitelist (tools : list string) (p : TeamPolicy) : TeamPolicy :=
  mkPolicy (list_to_set tools) (tool_blacklist p) (max_cost_per_agent p)
    (max_tokens_per_agent p) (max_turns_per_agent p) (agent_timeout_secs p).
Definition with_tool_blacklist (tools : list string) (p : TeamPolicy) : TeamPolicy :=
  mkPolicy (tool_whitelist p) (list_to_set tools) (max_cost_per_agent p)
    (max_tokens_per_agent p) (max_turns_per_agent p) (agent_timeout_secs p).
Definition with_max_cost_per_agent (cost : f64) (p : TeamPolicy) : TeamPolicy :=
  mkPolicy (tool_whitelist p) (tool_blacklist p) (Some cost)
    (max_tokens_per_agent p) (max_turns_per_agent p) (agent_timeout_secs p).
Definition with_max_tokens_per_agent (tokens : Z) (p : TeamPolicy) : TeamPolicy :=
  mkPolicy (tool_whitelist p) (tool_blacklist p) (max_cost_per_agent p)
    (Some tokens) (max_turns_per_agent p) (agent_timeout_secs p).
Definition with_max_turns_per_agent (turns : Z) (p : TeamPolicy) : TeamPolicy :=
  mkPolicy (tool_whitelist p) (tool_blacklist p) (max_cost_per_agent p)
    (max_tokens_per_agent p) turns (agent_timeout_secs p).

Record AgentPolicy := mkAgentPolicy {
  allowed_tools : gset string;
  denied_tools : gset string;
  max_turns : Z;
  max_cost : option f64;
  max_tokens : option Z;
  timeout_secs : Z
}.

(** [AgentPolicy::from_team_policy]. *)
Definition from_team_policy (p : TeamPolicy) : AgentPolicy :=
  mkAgentPolicy (tool_whitelist p) (tool_blacklist p) (max_turns_per_agent p)
    (max_cost_per_agent p) (max_tokens_per_agent p) (agent_timeout_secs p).

(** [AgentPolicy::is_tool_allowed]. *)
Definition is_tool_allowed (tool_name : string) (p : AgentPolicy) : bool :=
  if bool_decide (tool_name ∈ denied_tools p) then false
  else if negb (bool_decide (allowed_tools p = ∅)) then bool_decide (tool_name ∈ allowed_tools p)
  else true.

(** ** Results *)

Record AgentUsage := mkUsage {
  input_tokens : Z;
  output_tokens : Z;
  cache_creation_tokens : option Z;
  cache_read_tokens : option Z
}.

(** [AgentUsage::new], [total]. *)
Definition new_usage (input output : Z) : AgentUsage := mkUsage input output None None.
Definition total (u : AgentUsage) : Z := add64 (input_tokens u) (output_tokens u).

Section Results.
Context `{Json}.

Record AgentResult := mkResult {
  result_agent : string;
  text : option string;
  success : bool;
  error : option string;
  usage : option AgentUsage;
  result_cost : f64;
  duration_ms : Z;
  turns : Z;
  tools_used : list string;
  files_read : list string;
  files_written : list string;
  commands_executed : list string;
  metadata : gmap string Value
}.

(** [AgentResult::success] and [AgentResult::failure]. *)
Definition agent_success (id txt : string) : AgentResult :=
  mkResult id (Some txt) true None None f64_zero 0 0 [] [] [] [] ∅.
Definition agent_failure (id err : string) : AgentResult :=
  mkResult id None false (Some err) None f64_zero 0 0 [] [] [] [] ∅.

(** The builders and the one-field updates. *)
Definition with_usage (u : AgentUsage) (r : AgentResult) : AgentResult :=
  mkResult (result_agent r) (text r) (success r) (error r) (Some u) (result_cost r)
    (duration_ms r) (turns r) (tools_used r) (files_read r) (files_written r)
    (commands_executed r) (metadata r).
Definition with_cost (c : f64) (r : AgentResult) : AgentResult :=
  mkResult (result_agent r) (text r) (success r) (error r) (usage r) c
    (duration_ms r) (turns r) (tools_used r) (files_read r) (files_written r)
    (commands_executed r) (metadata r).
Definition with_duration (ms : Z) (r : AgentResult) : AgentResult :=
  mkResult (result_agent r) (text r) (success r) (error r) (usage r) (result_cost r)
    ms (turns r) (tools_used r) (files_read r) (files_written r)
    (commands_executed r) (metadata r).
Definition with_turns (n : Z) (r : AgentResult) : AgentResult :=
  mkResult (result_agent r) (text r) (success r) (error r) (usage r) (result_cost r)
    (duration_ms r) n (tools_used r) (files_read r) (files_written r)
    (commands_executed r) (metadata r).
Definition add_metadata (key : string) (v : Value) (r : AgentResult) : AgentResult :=
  mkResult (result_agent r) (text r) (success r) (error r) (usage r) (result_cost r)
    (duration_ms r) (turns r) (tools_used r) (files_read r) (files_written r)
    (commands_executed r) (<[key := v]> (metadata r)).

(** [if !v.contains(x) { v.push(x) }], for one value and for a list. *)
Definition push_new (l : list string) (x : string) : list string :=
  if existsb (String.eqb x) l then l else l ++ [x].
Definition merge_new (l xs : list string) : list string := foldl push_new l xs.

(** [add_tool_used], [add_file_read], [add_file_written], [add_command]. *)
Definition add_tool_used (t : string) (r : AgentResult) : AgentResult :=
  mkResult (result_agent r) (text r) (success r) (error r) (usage r) (result_cost r)
    (duration_ms r) (turns r) (push_new (tools_used r) t) (files_read r) (files_written r)
    (commands_executed r) (metadata r).
Definition add_file_read (p : string) (r : AgentResult) : AgentResult :=
  mkResult (result_agent r) (text r) (success r) (error r) (usage r) (result_cost r)
    (duration_ms r) (turns r) (tools_used r) (push_new (files_read r) p) (files_written r)
    (commands_executed r) (metadata r).
Definition add_file_written (p : string) (r : AgentResult) : AgentResult :=
  mkResult (result_agent r) (text r) (success r) (error r) (usage r) (result_cost r)
    (duration_ms r) (turns r) (tools_used r) (files_read r) (push_new (files_written r) p)
    (commands_executed r) (metadata r).
Definition add_command (c : string) (r : AgentResult) : AgentResult :=
  mkResult (result_agent r) (text r) (success r) (error r) (usage r) (result_cost r)
    (duration_ms r) (turns r) (tools_used r) (files_read r) (files_written r)
    (push_new (commands_executed r) c) (metadata r).

Record TeamResults := mkResults {
  results_team : option string;
  agent_results : list AgentResult;
  combined_text : option string;
  total_usage : AgentUsage;
  total_cost : f64;
  total_duration_ms : Z;
  total_turns : Z;
  success_count : Z;
  failure_count : Z;
  all_files_read : list string;
  all_files_written : list string;
  all_commands : list string;
  all_tools_used : list string;
  results_metadata : gmap string Value
}.

(** [TeamResults::with_team_id]; [new] has no team. *)
Definition new_results (team : option string) : TeamResults :=
  mkResults team [] None (new_usage 0 0) f64_zero 0 0 0 0 [] [] [] [] ∅.

(** The cache counters: present once any result has one. *)
Definition add_cache (tot u : option Z) : option Z :=
  match u with Some c => Some (add64 (default 0 tot) c) | None => tot end.

Definition add_usage (tot : AgentUsage) (u : option AgentUsage) : AgentUsage :=
  match u with
  | Some u => mkUsage (add64 (input_tokens tot) (input_tokens u))
                (add64 (output_tokens tot) (output_tokens u))
                (add_cache (cache_creation_tokens tot) (cache_creation_tokens u))
                (add_cache (cache_read_tokens tot) (cache_read_tokens u))
  | None => tot
  end.

(** [TeamResults::add_result]. *)
Definition add_result (rs : TeamResults) (r : AgentResult) : TeamResults :=
  mkResults (results_team rs) (agent_results rs ++ [r]) (combined_text rs)
    (add_usage (total_usage rs) (usage r)) (f64_add (total_cost rs) (result_cost r))
    (add64 (total_duration_ms rs) (duration_ms r)) (add32 (total_turns rs) (turns r))
    (if success r then add32 (success_count rs) 1 else success_count rs)
    (if success r then failure_count rs else add32 (failure_count rs) 1)
    (merge_new (all_files_read rs) (files_read r))
    (merge_new (all_files_written rs) (files_written r))
    (merge_new (all_commands rs) (commands_executed r))
    (merge_new (all_tools_used rs) (tools_used r)) (results_metadata rs).

(** [TeamResults::build_combined_text]. *)
Definition separator : string :=
  string_of (Ascii.ascii_of_nat <$> [10; 10; 45; 45; 45; 10; 10]%nat).

Definition build_combined_text (rs : TeamResults) : TeamResults :=
  let texts := omap text (agent_results rs) in
  match texts with
  | [] => rs
  | _ => mkResults (results_team rs) (agent_results rs) (Some (String.concat separator texts))
           (total_usage rs) (total_cost rs) (total_duration_ms rs) (total_turns rs)
           (success_count rs) (failure_count rs) (all_files_read rs) (all_files_written rs)
           (all_commands rs) (all_tools_used rs) (results_metadata rs)
  end.

(** [all_succeeded], [all_failed], [total_agents]. *)
Definition all_succeeded (rs : TeamResults) : bool :=
  Z.eqb (failure_count rs) 0 && Z.ltb 0 (success_count rs).
Definition all_failed (rs : TeamResults) : bool :=
  Z.eqb (success_count rs) 0 && Z.ltb 0 (failure_count rs).
Definition total_agents (rs : TeamResults) : Z := add32 (success_count rs) (failure_count rs).

(** ** Lemmas *)

Lemma elem_of_push_new l x y : y ∈ push_new l x <-> y ∈ l \/ y = x.
Proof.
  unfold push_new. destruct (existsb (String.eqb x) l) eqn:Hx; [|set_solver].
  apply existsb_elem in Hx as (z & Hz & ->%String.eqb_eq). set_solver.
Qed.

Lemma NoDup_push_new l x : NoDup l -> NoDup (push_new l x).
Proof.
  unfold push_new. destruct (existsb (String.eqb x) l) eqn:Hx; [done|]. intros Hnd.
  apply NoDup_app. split_and!; [done| |apply NoDup_singleton].
  intros y Hy ->%list_elem_of_singleton. apply not_true_iff_false in Hx. apply Hx, existsb_elem.
  exists x. split; [done|apply String.eqb_refl].
Qed.

Lemma merge_new_spec l xs :
  (NoDup l -> NoDup (merge_new l xs)) /\ forall y, y ∈ merge_new l xs <-> y ∈ l \/ y ∈ xs.
Proof.
  revert l. induction xs as [|x xs IH]; intros l; simpl; [set_solver|].
  destruct (IH (push_new l x)) as [Hnd Hin]. split; [intros; by apply Hnd, NoDup_push_new|].
  intros y. rewrite Hin, elem_of_push_new, elem_of_cons. tauto.
Qed.

Definition collect (team : option string) (l : list AgentResult) : TeamResults :=
  foldl add_result (new_results team) l.

Lemma collect_snoc team l r : collect team (l ++ [r]) = add_result (collect team l) r.
Proof. unfold collect. by rewrite foldl_app. Qed.

Definition count_success (b : bool) (l : list AgentResult) : nat :=
  length (retain (fun r => Bool.eqb (success r) b) l).

Lemma count_success_snoc b l r :
  count_success b (l ++ [r]) = (count_success b l + if Bool.eqb (success r) b then 1 else 0)%nat.
Proof.
  unfold count_success, retain. rewrite List.filter_app, length_app. simpl.
  by destruct (Bool.eqb _ _).
Qed.

Lemma count_success_total l :
  (count_success true l + count_success false l = length l)%nat.
Proof.
  induction l as [|r l IH] using rev_ind; [done|].
  rewrite !count_success_snoc, length_app. simpl. destruct (success r); simpl; lia.
Qed.

(** A union is duplicate free and holds exactly what some result holds. *)
Definition is_union (f : AgentResult -> list string) (l : list AgentResult) (u : list string) : Prop :=
  NoDup u /\ forall x, x ∈ u <-> exists r, r ∈ l /\ x ∈ f r.

Lemma is_union_snoc f l r u :
  is_union f l u -> is_union f (l ++ [r]) (merge_new u (f r)).
Proof.
  intros [Hnd Hin]. destruct (merge_new_spec u (f r)) as [Hnd' Hin']. split; [auto|].
  intros x. rewrite Hin', Hin. split.
  - intros [(q & ? & ?)|?]; [exists q|exists r]; set_solver.
  - intros (q & [?| ->%list_elem_of_singleton]%elem_of_app & ?); [left; by exists q|by right].
Qed.

Lemma is_union_nil f : is_union f [] [].
Proof.
  split; [constructor|]. intros x. split; [by intros ?%not_elem_of_nil|].
  by intros (? & ?%not_elem_of_nil & _).
Qed.

Lemma add32_succ n : n + 1 <= u32_max -> 0 <= n -> add32 n 1 = n + 1.
Proof. unfold add32, u32_max. intros. apply Z.mod_small. lia. Qed.

(** Collecting results loses nothing: after adding the results of
    at most [u32::MAX] agents, the results are listed in order, the two
    counters are the numbers of successes and failures and add up to the
    number of agents (no counter wraps), [all_succeeded] holds exactly when
    there is a result and all succeeded, and each of the four merged lists
    holds every entry of every agent exactly once. *)
Theorem collect_correct team l :
  Z.of_nat (length l) <= u32_max ->
  let rs := collect team l in
  agent_results rs = l /\
  success_count rs = Z.of_nat (count_success true l) /\
  failure_count rs = Z.of_nat (count_success false l) /\
  total_agents rs = Z.of_nat (length l) /\
  (all_succeeded rs = true <-> l <> [] /\ forall r, r ∈ l -> success r = true) /\
  is_union files_read l (all_files_read rs) /\
  is_union files_written l (all_files_written rs) /\
  is_union commands_executed l (all_commands rs) /\
  is_union tools_used l (all_tools_used rs).
Proof.
  intros Hlen rs.
  assert (Hmain : agent_results rs = l /\
    success_count rs = Z.of_nat (count_success true l) /\
    failure_count rs = Z.of_nat (count_success false l) /\
    is_union files_read l (all_files_read rs) /\
    is_union files_written l (all_files_written rs) /\
    is_union commands_executed l (all_commands rs) /\
    is_union tools_used l (all_tools_used rs)).
  { unfold rs. clear rs. induction l as [|r l IH] using rev_ind.
    { split_and!; try done; apply is_union_nil. }
    rewrite length_app in Hlen. simpl in Hlen.
    destruct IH as (Hl & Hs & Hf & H1 & H2 & H3 & H4); [lia|].
    pose proof (count_success_total l) as Ht.
    rewrite collect_snoc, !count_success_snoc. simpl. rewrite Hl, Hs, Hf.
    split_and!; [done| | |by apply is_union_snoc..];
      destruct (success r); simpl; rewrite ?add32_succ; lia. }
  destruct Hmain as (Hl & Hs & Hf & H1 & H2 & H3 & H4).
  pose proof (count_success_total l) as Ht.
  split_and!; try done.
  - unfold total_agents. rewrite Hs, Hf. unfold add32, u32_max in *. rewrite Z.mod_small; lia.
  - unfold all_succeeded. rewrite Hs, Hf, andb_true_iff, Z.eqb_eq, Z.ltb_lt.
    assert (Hz : count_success false l = 0%nat <-> forall r, r ∈ l -> success r = true).
    { unfold count_success. split.
      - intros Hnil%length_zero_iff_nil r Hr. destruct (success r) eqn:Hsr; [done|].
        exfalso. apply (not_elem_of_nil r). rewrite <- Hnil. apply elem_of_retain.
        by rewrite Hsr.
      - intros Hall. apply length_zero_iff_nil. destruct (retain _ l) as [|r q] eqn:Hq; [done|].
        assert (Hr : r ∈ retain (fun r => Bool.eqb (success r) false) l) by (rewrite Hq; by left).
        apply elem_of_retain in Hr as [Hr Hb]. by rewrite (Hall r Hr) in Hb. }
    rewrite <- Hz. destruct l as [|r l].
    { split; [intros [_ Hz']; cbn [length] in Ht; lia|by intros [? _]]. }
    split; [intros [? ?]; split; [done|lia]|]. intros [_ Hz']. cbn [length] in Ht. lia.
Qed.
End Results.

Arguments mkResult {_}.
Arguments mkResults {_}.

Lemma collect_correct_witness :
  let l := [@agent_success flat_json "a" "done"; @agent_failure flat_json "b" "no"] in
  Z.of_nat (length l) <= u32_max /\ total_agents (collect None l) = 2.
Proof.
  intros l. split; [unfold u32_max; simpl; lia|].
  apply (@collect_correct flat_json None l). unfold u32_max; simpl; lia.
Defined.

(** The tool policy of a sub-agent: a blacklisted tool is never
    allowed, whatever the whitelist says; otherwise an empty whitelist allows
    every tool and a non-empty one exactly its members.  Deriving the agent
    policy from the team policy keeps both lists. *)
Theorem tool_policy_decides p tool :
  is_tool_allowed tool (from_team_policy p) = true <->
  (tool ∉ tool_blacklist p) /\ (tool_whitelist p = ∅ \/ tool ∈ tool_whitelist p).
Proof.
  unfold is_tool_allowed, from_team_policy. simpl.
  case_bool_decide as Hd; [naive_solver|]. case_bool_decide as He; simpl; [naive_solver|].
  rewrite bool_decide_eq_true. naive_solver.
Qed.
