(* ===== verification/TeamExecutor.v ===== *)
(** * TeamExecutor: [engine/team/executor.rs]

    Execution of a team of sub-agents in parallel, in sequence or along its
    dependency graph, and the store of teams.  Running one sub-agent (a model
    conversation) and the order in which concurrent tasks finish belong to the
    environment: [Runtime].  The clock and the abort channel are arguments. *)

From stdpp Require Import base gmap strings list fin_maps relations sorting.
From Stdlib Require Import ZArith Lia.
From S2P Require Import Prelude Text Float64 Json TeamTypes TeamPolicy Scheduler SchedulerGraph.
From S2P Require Import SchedulerSort SchedulerRun.

#[local] Open Scope Z_scope.

Record TeamError := mkTeamError {
  error_code : string; error_message : string; error_agent : option string }.

(** [Display for TeamError]. *)
Definition team_error_to_string (e : TeamError) : string :=
  match error_agent e with
  | Some a => "[" +:+ error_code e +:+ "] " +:+ a +:+ ": " +:+ error_message e
  | None => "[" +:+ error_code e +:+ "]: " +:+ error_message e
  end.

(** [Display for TeamStatus]. *)
Definition team_status_to_string (s : TeamStatus) : string :=
  match s with
  | TeamPending => "pending" | TeamRunning => "running" | TeamCompleted => "completed"
  | TeamFailed => "failed" | TeamAborted => "aborted"
  end.

(** A spawned sub-agent: its id, the prompt it got and its policy. *)
Record Task := mkTask { task_agent : string; task_prompt : string; task_policy : AgentPolicy }.

(** [serde_json]'s conversions of a [TeamPolicy]. *)
Class PolicyCodec `{Json} := {
  policy_to_value : TeamPolicy -> option Value;
  policy_of_value : Value -> option TeamPolicy
}.

(** What one sub-agent returns ([None]: the task panicked), and which of the
    running tasks the [k]-th [join_next] yields. *)
Class Runtime `{Json} := {
  run_agent : Task -> option (result AgentResult TeamError);
  join_next : nat -> list Task -> nat
}.

(** [JoinSet::join_next]: one of the running tasks leaves the set. *)
Definition join_one `{Runtime} (k : nat) (running : list Task) : option (Task * list Task) :=
  let i := (join_next k running mod length running)%nat in
  (fun t => (t, remove_at i running)) <$> running !! i.

(** The order in which [while let Some(..) = join_next()] sees the tasks. *)
Fixpoint drain `{Runtime} (k n : nat) (running : list Task) : list Task :=
  match n with
  | O => []
  | S n' =>
      match join_one k running with
      | Some (t, rest) => t :: drain (S k) n' rest
      | None => []
      end
  end.

Section Executor.
Context `{J : Json} `{!PolicyCodec} `{R : !Runtime} `{HashOrder}.

Record TeamResult := mkTeamResult {
  result_team : AgentTeam;
  result_success : bool;
  result_error : option string;
  result_duration : Z
}.

Record TeamConfig := mkConfig {
  config_name : option string;
  config_mode : TeamMode;
  config_budget : option TeamBudget;
  config_cwd : option string;
  config_model : option string;
  config_max_turns : option Z;
  config_policy : option TeamPolicy
}.

(** [Default for TeamConfig]. *)
Definition default_config : TeamConfig := mkConfig None Parallel None None None (Some 10) None.

(** The executor's mutable state: the stored teams and, for the teams being
    run, the value of the abort channel. *)
Record TeamExecutor := mkExecutor {
  teams : gmap string AgentTeam;
  abort_handles : gmap string bool;
  default_cwd : string;
  exec_policy : TeamPolicy
}.

Definition with_teams (m : gmap string AgentTeam) (x : TeamExecutor) : TeamExecutor :=
  mkExecutor m (abort_handles x) (default_cwd x) (exec_policy x).
Definition with_handles (m : gmap string bool) (x : TeamExecutor) : TeamExecutor :=
  mkExecutor (teams x) m (default_cwd x) (exec_policy x).
Definition store_team (t : AgentTeam) (x : TeamExecutor) : TeamExecutor :=
  with_teams (<[team_id t := t]> (teams x)) x.

Definition set_shared (sh : SharedState) (t : AgentTeam) : AgentTeam :=
  with_outcome (team_status t) sh (started_at t) (completed_at t) t.

(** [create_team]; [id] is the prefix of a fresh UUID. *)
Definition create_team (now id task : string) (c : TeamConfig) (x : TeamExecutor) :
    AgentTeam * TeamExecutor :=
  let policy := match config_policy c with Some p => p | None => exec_policy x end in
  let sh := shared_set "policy" (default json_null (policy_to_value policy)) empty_shared in
  let sh := match config_max_turns c with
            | Some n => shared_set "max_turns" (json_int n) sh
            | None => sh
            end in
  let t := mkTeam id (config_name c) task (config_mode c) TeamPending [] (config_budget c) sh
             now None None 0 f64_zero
             (Some (default (default_cwd x) (config_cwd c))) in
  (t, store_team t x).

Definition invalid_state (t : AgentTeam) : TeamError :=
  mkTeamError "invalid_state"
    ("Team is already " +:+ team_status_to_string (team_status t) +:+
     " and cannot accept new agents") None.

(** [add_parallel_agents] and [add_agent]: the caller's team and the store. *)
Definition exec_add_parallel (count : nat) (prefix : string) (t : AgentTeam) (x : TeamExecutor) :
    result (AgentTeam * TeamExecutor) TeamError :=
  if bool_decide (team_status t = TeamPending) then
    let t' := create_parallel_agents count prefix t in Ok (t', store_team t' x)
  else Err (invalid_state t).

Definition exec_add_agent (a : SubAgent) (t : AgentTeam) (x : TeamExecutor) :
    result (AgentTeam * TeamExecutor) TeamError :=
  if bool_decide (team_status t = TeamPending) then
    let t' := add_agent a t in Ok (t', store_team t' x)
  else Err (invalid_state t).

(** [get_team_policy]. *)
Definition get_team_policy (t : AgentTeam) (x : TeamExecutor) : TeamPolicy :=
  default (exec_policy x) (shared_get "policy" (shared_state t) ≫= policy_of_value).

(** The end of the three modes: shared state, totals, status and result. *)
Definition finalize (now what : string) (any_failed : bool) (sh : SharedState) (t : AgentTeam) :
    TeamResult :=
  let t := calculate_totals (set_shared sh t) in
  let t := if any_failed then team_fail now what t else team_complete now t in
  mkTeamResult t (negb any_failed) (if any_failed then Some what else None) 0.

(** The outcome of a sub-agent applied to the team's entry for it. *)
Definition tokens_of (r : AgentResult) : Z := from_option total 0 (usage r).

Definition record_outcome (o : result AgentResult TeamError) (a : SubAgent) : SubAgent :=
  match o with
  | Ok r =>
      if success r then agent_complete (default "" (text r)) (tokens_of r) (result_cost r) a
      else agent_fail (default "" (error r)) a
  | Err e => agent_fail (error_message e) a
  end.

Definition outcome_ok (o : result AgentResult TeamError) : bool :=
  match o with Ok r => success r | Err _ => false end.

(** ** Parallel mode *)

(** One round of the collecting loop. *)
Definition collect_parallel (st : AgentTeam * SharedState * bool) (tk : Task) :
    AgentTeam * SharedState * bool :=
  let '(t, sh, any_failed) := st in
  match run_agent tk with
  | None => (t, sh, true)
  | Some o =>
      let id := task_agent tk in
      (edit_agent id (record_outcome o) t,
       shared_set ("agent_" +:+ id +:+ "_complete") (json_bool true) sh,
       match get_agent id t with
       | Some _ => any_failed || negb (outcome_ok o)
       | None => any_failed
       end)
  end.

Definition parallel_tasks (p : TeamPolicy) (t : AgentTeam) : list Task :=
  (fun a => mkTask (agent_id a) (agent_prompt a) (from_team_policy p)) <$> agents t.

(** [execute_parallel]. *)
Definition execute_parallel (now : string) (t : AgentTeam) (x : TeamExecutor) : TeamResult :=
  let tasks := parallel_tasks (get_team_policy t x) t in
  let '(t', sh, any_failed) :=
    foldl collect_parallel (t, shared_state t, false) (drain 0 (length tasks) tasks) in
  finalize now "One or more agents failed" any_failed sh t'.

(** ** Sequence mode *)

Definition newline : string := String.String (Ascii.ascii_of_nat 10) String.EmptyString.

Definition sequence_prompt (prompt : string) (prev : option string) : string :=
  match prev with
  | Some p => prompt +:+ newline +:+ newline +:+ "Previous agent result:" +:+ newline +:+ p +:+
              newline +:+ newline +:+ "Continue from where the previous agent left off."
  | None => prompt
  end.

Record SeqState := mkSeq {
  seq_done : list SubAgent; seq_prev : option string; seq_failed : bool;
  seq_shared : SharedState }.

(** One round of the loop; [aborted] is what the abort channel holds then.
    The agent runs inside the loop, so that a panic ends it: [None]. *)
Definition sequence_step (p : TeamPolicy) (aborted : bool) (st : SeqState) (a : SubAgent) :
    option SeqState :=
  if aborted then
    Some (mkSeq (seq_done st ++ [agent_skip "Team aborted" a]) (seq_prev st) true (seq_shared st))
  else
    match run_agent (mkTask (agent_id a) (sequence_prompt (agent_prompt a) (seq_prev st))
                       (from_team_policy p)) with
    | None => None
    | Some o =>
        let seq_done' := seq_done st ++ [record_outcome o a] in
        match o with
        | Ok r =>
            if success r then
              let txt := default "" (text r) in
              Some (mkSeq seq_done' (Some txt) (seq_failed st)
                      (shared_set ("agent_" +:+ agent_id a +:+ "_result") (json_string txt)
                         (seq_shared st)))
            else Some (mkSeq seq_done' None true (seq_shared st))
        | Err e => Some (mkSeq seq_done' None true (seq_shared st))
        end
    end.

(** [aborted k]: what the channel holds when agent [k] is about to start. *)
Fixpoint sequence_loop (p : TeamPolicy) (aborted : nat -> bool) (k : nat) (st : SeqState)
    (l : list SubAgent) : option SeqState :=
  match l with
  | [] => Some st
  | a :: l' => st' ← sequence_step p (aborted k) st a; sequence_loop p aborted (S k) st' l'
  end.

(** [execute_sequence]. *)
Definition execute_sequence (now : string) (aborted : nat -> bool) (t : AgentTeam)
    (x : TeamExecutor) : option TeamResult :=
  st ← sequence_loop (get_team_policy t x) aborted 0 (mkSeq [] None false (shared_state t))
         (agents t);
  Some (finalize now "One or more agents failed in sequence" (seq_failed st) (seq_shared st)
          (with_agents (seq_done st) t)).

(** ** Graph mode *)

(** The state of the loop of [execute_dag].  [dag_spawned] logs the ids in
    the order in which they were started. *)
Record DagRun := mkRun {
  dag_team : AgentTeam;
  dag_sched : DagScheduler;
  dag_running : list Task;
  dag_shared : SharedState;
  dag_failed : bool;
  dag_spawned : list string
}.

(** The loop over the ready nodes. *)
Definition start_one (p : TeamPolicy) (st : DagRun) (id : string) : DagRun :=
  let prompt := from_option agent_prompt "" (get_agent id (dag_team st)) in
  match start_node id (dag_sched st) with
  | Err _ => st
  | Ok s' =>
      mkRun (edit_agent id agent_start (dag_team st)) s'
        (dag_running st ++ [mkTask id prompt (from_team_policy p)])
        (dag_shared st) (dag_failed st) (dag_spawned st ++ [id])
  end.

(** Ignoring the error of a scheduler operation: [let _ = ..]. *)
Definition ignore_err (s : DagScheduler) (r : result DagScheduler SchedulerError) : DagScheduler :=
  match r with Ok s' => s' | Err _ => s end.

(** On abort: pending agents are skipped and their nodes fail. *)
Definition abort_one (s : DagScheduler) (a : SubAgent) : DagScheduler :=
  if bool_decide (agent_status a = AgentPending)
  then ignore_err s (fail_node (agent_id a) (Some "Team aborted") s) else s.

Definition abort_agents (l : list SubAgent) : list SubAgent :=
  (fun a => if bool_decide (agent_status a = AgentPending)
            then agent_skip "Team aborted" a else a) <$> l.

Definition dag_abort (st : DagRun) : DagRun :=
  let l := agents (dag_team st) in
  mkRun (with_agents (abort_agents l) (dag_team st)) (foldl abort_one (dag_sched st) l)
    (dag_running st) (dag_shared st) true (dag_spawned st).

(** Team agents whose node is skipped become skipped. *)
Definition sync_skipped (s : DagScheduler) (l : list SubAgent) : list SubAgent :=
  (fun a => match nodes s !! agent_id a with
            | Some n => if bool_decide (status n = Skipped) then agent_skip "Dependency failed" a else a
            | None => a
            end) <$> l.

(** A sub-agent failed: fail its node, skip the dependents, record. *)
Definition dag_failure (id : string) (node_error : option string) (agent_error : string)
    (st : DagRun) : DagRun :=
  let s1 := ignore_err (dag_sched st) (fail_node id node_error (dag_sched st)) in
  let s2 := match skip_dependents id "Dependency failed" s1 with
            | Some (s', _) => s'
            | None => s1
            end in
  let t := edit_agent id (agent_fail agent_error) (dag_team st) in
  mkRun (with_agents (sync_skipped s2 (agents t)) t) s2 (dag_running st) (dag_shared st) true
    (dag_spawned st).

(** The [match] on what [join_next] returned. *)
Definition dag_join (tk : Task) (st : DagRun) : DagRun :=
  let id := task_agent tk in
  match run_agent tk with
  | None => mkRun (dag_team st) (dag_sched st) (dag_running st) (dag_shared st) true (dag_spawned st)
  | Some (Ok r) =>
      if success r then
        mkRun (edit_agent id (record_outcome (Ok r)) (dag_team st))
          (ignore_err (dag_sched st) (complete_node id (dag_sched st))) (dag_running st)
          (match text r with
           | Some txt => shared_set ("agent_" +:+ id +:+ "_result") (json_string txt) (dag_shared st)
           | None => dag_shared st
           end) (dag_failed st) (dag_spawned st)
      else dag_failure id (error r) (default "" (error r)) st
  | Some (Err e) => dag_failure id (Some (error_message e)) (error_message e) st
  end.

Definition dag_set_running (l : list Task) (st : DagRun) : DagRun :=
  mkRun (dag_team st) (dag_sched st) l (dag_shared st) (dag_failed st) (dag_spawned st).

Definition running_count_of (t : AgentTeam) : nat :=
  length (List.filter (is_status AgentRunning) (agents t)).

(** Starting what is ready. *)
Definition dag_start (p : TeamPolicy) (st : DagRun) : DagRun :=
  foldl (start_one p) st
    (get_ready_nodes (completed_agent_ids (dag_team st)) (running_count_of (dag_team st))
       (dag_sched st)).

(** One round of the loop; the flag says whether to go on. *)
Definition dag_round (p : TeamPolicy) (aborted : bool) (k : nat) (st : DagRun) : DagRun * bool :=
  if aborted then (dag_abort st, false)
  else
    let st1 := dag_start p st in
    match dag_running st1 with
    | [] =>
        if is_complete (dag_sched st1) then (st1, true)
        else (mkRun (dag_team st1) (dag_sched st1) [] (dag_shared st1) true (dag_spawned st1), false)
    | running =>
        match join_one k running with
        | Some (tk, rest) => (dag_join tk (dag_set_running rest st1), true)
        | None => (st1, false)
        end
    end.

(** [while !scheduler.is_complete()].  [None] is lack of fuel. *)
Fixpoint dag_loop (p : TeamPolicy) (aborted : nat -> bool) (fuel k : nat) (st : DagRun) :
    option DagRun :=
  if is_complete (dag_sched st) then Some st
  else
    match fuel with
    | O => None
    | S fuel' =>
        let '(st', go_on) := dag_round p (aborted k) k st in
        if go_on then dag_loop p aborted fuel' (S k) st' else Some st'
    end.

(** The part of [execute_dag] after the scheduler is built. *)
Definition run_dag (now : string) (aborted : nat -> bool) (s : DagScheduler) (t : AgentTeam)
    (x : TeamExecutor) : option (TeamResult * list string) :=
  st ← dag_loop (get_team_policy t x) aborted (S (size (nodes s))) 0
         (mkRun t s [] (shared_state t) false []);
  Some (finalize now "One or more agents failed in DAG execution" (dag_failed st) (dag_shared st)
          (dag_team st), dag_spawned st).

(** [execute_dag]: the result, the ids started, and whether the store is
    updated (the two early returns leave it alone). *)
Definition execute_dag (now : string) (aborted : nat -> bool) (t : AgentTeam)
    (x : TeamExecutor) : option (TeamResult * list string * bool) :=
  let refuse what e := Some (mkTeamResult t false (Some (what +:+ message e)) 0, [], false) in
  match from_team (agents t) with
  | None => None
  | Some (Err e) => refuse "Failed to create DAG scheduler: " e
  | Some (Ok s) =>
      match build s with
      | None => None
      | Some (Err e) => refuse "Invalid DAG structure: " e
      | Some (Ok s') => '(r, spawned) ← run_dag now aborted s' t x; Some (r, spawned, true)
      end
  end.

(** ** [execute] *)

(** Starting: the checks, the abort handle, the stored running team. *)
Definition begin_execute (now : string) (t : AgentTeam) (x : TeamExecutor) :
    result (AgentTeam * TeamExecutor) string :=
  match agents t with
  | [] => Err "Team has no agents to execute"
  | _ =>
      if bool_decide (team_status t = TeamPending) then
        let t' := team_start now t in
        Ok (t', store_team t' (with_handles (<[team_id t := false]> (abort_handles x)) x))
      else Err ("Team is already " +:+ team_status_to_string (team_status t))
  end.

Definition run_mode (now : string) (aborted : nat -> bool) (t : AgentTeam) (x : TeamExecutor) :
    option (TeamResult * bool) :=
  match team_mode t with
  | Parallel => Some (execute_parallel now t x, true)
  | Sequence => r ← execute_sequence now aborted t x; Some (r, true)
  | Dag => '(r, _, stored) ← execute_dag now aborted t x; Some (r, stored)
  end.

(** Finishing: the final team goes to the store the mode reached, and the
    abort handle goes away. *)
Definition end_execute (r : TeamResult) (stored : bool) (x : TeamExecutor) : TeamExecutor :=
  let x1 := if stored then store_team (result_team r) x else x in
  with_handles (delete (team_id (result_team r)) (abort_handles x1)) x1.

(** [execute]; [x_end] is the executor's state when the mode finishes, after
    whatever other calls did meanwhile. *)
Definition execute (now1 now2 : string) (elapsed : Z) (aborted : nat -> bool)
    (meanwhile : TeamExecutor -> TeamExecutor) (t : AgentTeam) (x : TeamExecutor) :
    option (TeamResult * TeamExecutor) :=
  match begin_execute now1 t x with
  | Err e => Some (mkTeamResult t false (Some e) elapsed, x)
  | Ok (t', x1) =>
      '(r, stored) ← run_mode now2 aborted t' x1;
      Some (mkTeamResult (result_team r) (result_success r) (result_error r) elapsed,
            end_execute r stored (meanwhile x1))
  end.

(** ** The other operations on the store *)

(** [get_team_status], [remove_team], [collect_results]. *)
Definition get_team_status (id : string) (x : TeamExecutor) : option AgentTeam := teams x !! id.
Definition remove_team (id : string) (x : TeamExecutor) : option AgentTeam * TeamExecutor :=
  (teams x !! id, with_teams (delete id (teams x)) x).
Definition exec_collect_results (id : string) (x : TeamExecutor) : option (gmap string string) :=
  collect_results <$> teams x !! id.

(** [list_teams]. *)
Definition list_teams (x : TeamExecutor) : list AgentTeam := hash_values (teams x).

(** [abort_team]: raise the abort channel; a stored running team becomes
    aborted. *)
Definition abort_team (now id : string) (x : TeamExecutor) : bool * TeamExecutor :=
  let x1 := match abort_handles x !! id with
            | Some _ => with_handles (<[id := true]> (abort_handles x)) x
            | None => x
            end in
  match teams x1 !! id with
  | Some t =>
      if bool_decide (team_status t = TeamRunning) then
        (true, with_teams (<[id := team_abort now "User requested abort" t]> (teams x1)) x1)
      else (false, x1)
  | None => (false, x1)
  end.

(** [collect_team_results]: the result made from one agent. *)
Definition result_of_agent (a : SubAgent) : option AgentResult :=
  match agent_status a with
  | AgentCompleted =>
      Some (with_cost (cost_usd a) (agent_success (agent_id a) (default "" (agent_result a))))
  | AgentFailed => Some (agent_failure (agent_id a) (default "" (agent_error a)))
  | AgentSkipped =>
      Some (add_metadata "skip_reason"
              (json_string (default "Unknown" (agent_metadata a !! "skip_reason")))
              (agent_failure (agent_id a) "Agent was skipped"))
  | AgentPending | AgentRunning => None
  end.

Definition collect_team_results (id : string) (x : TeamExecutor) : option TeamResults :=
  t ← teams x !! id;
  Some (build_combined_text (collect (Some id) (omap result_of_agent (agents t)))).
End Executor.

(** ** Parallel mode: independence from the completion order *)

Section Drain.
Context `{R : Runtime}.

Lemma join_one_some k running :
  running <> [] -> exists t rest, join_one k running = Some (t, rest) /\ running ≡ₚ t :: rest.
Proof.
  intros Hne. unfold join_one. set (i := (_ mod _)%nat).
  assert (Hi : (i < length running)%nat).
  { apply Nat.mod_upper_bound. by destruct running. }
  destruct (lookup_lt_is_Some_2 _ _ Hi) as [t Ht]. rewrite Ht. simpl.
  eexists _, _. split; [done|]. by apply remove_at_perm.
Qed.

Lemma drain_perm k n running : length running = n -> drain k n running ≡ₚ running.
Proof.
  revert k running. induction n as [|n IH]; intros k running Hn; simpl.
  - by apply length_zero_iff_nil in Hn as ->.
  - destruct (join_one_some k running) as (t & rest & Hj & Hp); [by intros ->|].
    rewrite Hj. rewrite (IH (S k) rest); [by rewrite Hp|].
    apply Permutation_length in Hp. simpl in Hp. lia.
Qed.
End Drain.

Lemma edit_first_nodup id f l :
  NoDup (agent_id <$> l) ->
  edit_first id f l = (fun a => if String.eqb (agent_id a) id then f a else a) <$> l.
Proof.
  induction l as [|a l IH]; csimpl; [done|]. intros Hnd. apply NoDup_cons in Hnd as [Ha Hnd].
  destruct (String.eqb_spec (agent_id a) id) as [He|Hne]; [|by rewrite IH].
  f_equal. rewrite <- (list_fmap_id l) at 1. apply list_fmap_ext. intros i b Hb.
  destruct (String.eqb_spec (agent_id b) id) as [Hbe|]; [|done].
  exfalso. apply Ha. rewrite He, <- Hbe. apply list_elem_of_fmap. exists b.
  split; [done|]. by eapply list_elem_of_lookup_2.
Qed.

Lemma record_outcome_id `{Json} o a : agent_id (record_outcome o a) = agent_id a.
Proof. destruct o as [r|e]; simpl; [by destruct (success r)|done]. Qed.

Section Parallel.
Context `{J : Json} `{!PolicyCodec} `{R : !Runtime}.

(** The effect of one finished task on any agent. *)
Definition apply_task (a : SubAgent) (tk : Task) : SubAgent :=
  if String.eqb (agent_id a) (task_agent tk) then
    match run_agent tk with Some o => record_outcome o a | None => a end
  else a.

Definition task_failed (tk : Task) : bool :=
  match run_agent tk with Some o => negb (outcome_ok o) | None => true end.

Lemma apply_task_id a tk : agent_id (apply_task a tk) = agent_id a.
Proof. unfold apply_task. cases. by apply record_outcome_id. Qed.

Lemma find_agent_some t tk :
  task_agent tk ∈ agent_id <$> agents t -> exists a, get_agent (task_agent tk) t = Some a.
Proof.
  unfold get_agent. intros (a & Ha & Hin)%list_elem_of_fmap.
  destruct (List.find _ (agents t)) as [b|] eqn:Hf; [by exists b|]. exfalso.
  apply list_elem_of_In in Hin. apply (List.find_none _ _ Hf) in Hin. simpl in Hin.
  by rewrite Ha, String.eqb_refl in Hin.
Qed.

Lemma collect_parallel_fold l t sh failed :
  NoDup (agent_id <$> agents t) ->
  (forall tk, tk ∈ l -> task_agent tk ∈ agent_id <$> agents t) ->
  let st := foldl collect_parallel (t, sh, failed) l in
  agents st.1.1 = (fun a => foldl apply_task a l) <$> agents t /\
  st.2 = failed || existsb task_failed l.
Proof.
  revert t sh failed. induction l as [|tk l IH]; intros t sh failed Hnd Hl.
  { simpl. by rewrite list_fmap_id, orb_false_r. }
  cbn [foldl existsb].
  assert (Hstep : let st := collect_parallel (t, sh, failed) tk in
            agents st.1.1 = (fun a => apply_task a tk) <$> agents t /\
            st.2 = failed || task_failed tk).
  { unfold collect_parallel, apply_task, task_failed.
    destruct (find_agent_some t tk) as [a Ha]; [apply Hl; by left|].
    destruct (run_agent tk) as [o|]; simpl.
    - rewrite Ha. split; [|done]. by apply edit_first_nodup.
    - rewrite orb_true_r. split; [|done]. rewrite <- (list_fmap_id (agents t)) at 1.
      apply list_fmap_ext. intros i b _. by destruct (String.eqb _ _). }
  destruct (collect_parallel (t, sh, failed) tk) as [[t1 sh1] f1]. simpl in Hstep.
  destruct Hstep as [Ht1 Hf1].
  assert (Hids : agent_id <$> agents t1 = agent_id <$> agents t).
  { rewrite Ht1, <- list_fmap_compose. apply list_fmap_ext. intros i b _. apply apply_task_id. }
  destruct (IH t1 sh1 f1) as [Ha Hb].
  - by rewrite Hids.
  - intros tk' Htk. rewrite Hids. apply Hl. by right.
  - rewrite Ha, Hb, Ht1, Hf1, <- list_fmap_compose, orb_assoc. done.
Qed.

Lemma apply_tasks_once l a tk :
  NoDup (task_agent <$> l) -> tk ∈ l -> task_agent tk = agent_id a ->
  foldl apply_task a l = apply_task a tk.
Proof.
  intros Hnd (l1 & l2 & ->)%list_elem_of_split Htk.
  rewrite fmap_app in Hnd. csimpl in Hnd. apply NoDup_app in Hnd as (_ & Hd1 & Hnd2).
  apply NoDup_cons in Hnd2 as [Hd2 _].
  assert (Hskip : forall l b, agent_id b = agent_id a -> task_agent tk ∉ task_agent <$> l ->
            foldl apply_task b l = b).
  { induction l as [|u l IH]; intros b Hb Hn; [done|]. csimpl in Hn. simpl.
    apply not_elem_of_cons in Hn as [Hu Hn]. unfold apply_task at 2.
    destruct (String.eqb_spec (agent_id b) (task_agent u)); [congruence|by apply IH]. }
  rewrite foldl_app. simpl. rewrite (Hskip l1); [|done|].
  - apply Hskip; [apply apply_task_id|done].
  - intros Hin. apply (Hd1 _ Hin). by left.
Qed.

(** Parallel execution does not depend on the order in which the
    sub-agents finish: with distinct ids, every agent ends as its own
    outcome makes it (an agent whose task panicked stays as it was), the run
    succeeds exactly when every agent returned a success, and the team is
    completed or failed accordingly, with the error set on failure. *)
Theorem execute_parallel_correct now t x :
  NoDup (agent_id <$> agents t) ->
  let r := execute_parallel now t x in
  let outcome a := run_agent (mkTask (agent_id a) (agent_prompt a)
                                (from_team_policy (get_team_policy t x))) in
  agents (result_team r) =
    (fun a => match outcome a with Some o => record_outcome o a | None => a end) <$> agents t /\
  (result_success r = true <->
     forall a, a ∈ agents t -> exists o, outcome a = Some o /\ outcome_ok o = true) /\
  team_status (result_team r) = (if result_success r then TeamCompleted else TeamFailed) /\
  (result_error r = None <-> result_success r = true).
Proof.
  intros Hnd r outcome. subst r. unfold execute_parallel.
  set (tasks := parallel_tasks _ _).
  pose proof (drain_perm 0 (length tasks) tasks eq_refl) as Hp.
  set (l := drain _ _ _) in *.
  assert (Hids : task_agent <$> tasks = agent_id <$> agents t).
  { unfold tasks, parallel_tasks. by rewrite <- list_fmap_compose. }
  destruct (collect_parallel_fold l t (shared_state t) false Hnd) as [Ha Hf].
  { intros tk Htk. rewrite <- Hids. apply list_elem_of_fmap. exists tk. by rewrite <- Hp. }
  destruct (foldl collect_parallel _ l) as [[t' sh] failed]. simpl in Ha, Hf.
  assert (Hagents : agents t' =
    (fun a => match outcome a with Some o => record_outcome o a | None => a end) <$> agents t).
  { rewrite Ha. apply list_fmap_ext. intros i a Hi.
    set (tk := mkTask (agent_id a) (agent_prompt a) (from_team_policy (get_team_policy t x))).
    rewrite (apply_tasks_once l a tk); [|by rewrite Hp, Hids| |done].
    - unfold apply_task. simpl. by rewrite String.eqb_refl.
    - rewrite Hp. apply list_elem_of_fmap. exists a. split; [done|]. by eapply list_elem_of_lookup_2. }
  assert (Hfail : failed = false <->
    forall a, a ∈ agents t -> exists o, outcome a = Some o /\ outcome_ok o = true).
  { rewrite Hf, <- not_true_iff_false, (existsb_perm _ _ _ Hp), existsb_elem. split.
    - intros Hn a Hin. unfold outcome. destruct (run_agent _) as [o|] eqn:Ho.
      + exists o. split; [done|]. destruct (outcome_ok o) eqn:Hok; [done|]. exfalso. apply Hn.
        eexists. split; [apply list_elem_of_fmap; exists a; done|].
        unfold task_failed. by rewrite Ho, Hok.
      + exfalso. apply Hn. eexists. split; [apply list_elem_of_fmap; exists a; done|].
        unfold task_failed. by rewrite Ho.
    - intros Hall (tk & (a & -> & Hin)%list_elem_of_fmap & Hfl).
      destruct (Hall a Hin) as (o & Ho & Hok). unfold task_failed in Hfl. unfold outcome in Ho.
      by rewrite Ho, Hok in Hfl. }
  rewrite <- Hfail. unfold finalize. by destruct failed.
Qed.
End Parallel.

(** ** Sequence mode: what each agent sees and what it leaves *)

Section Sequence.
Context `{J : Json} `{!PolicyCodec} `{R : !Runtime}.

(** The text handed to agent [k], read off the finished agents: the result of
    the agent before it when that one completed, nothing when it failed; an
    aborted agent hands on what it would have received. *)
Fixpoint handed (aborted : nat -> bool) (l : list SubAgent) (k : nat) : option string :=
  match k with
  | O => None
  | S k' =>
      if aborted k' then handed aborted l k'
      else match l !! k' with
           | Some b => if bool_decide (agent_status b = AgentCompleted) then agent_result b else None
           | None => None
           end
  end.

(** What agent [a] at position [k] becomes. *)
Definition sequence_outcome (p : TeamPolicy) (aborted : nat -> bool) (l : list SubAgent)
    (k : nat) (a b : SubAgent) : Prop :=
  if aborted k then b = agent_skip "Team aborted" a
  else exists o, run_agent (mkTask (agent_id a) (sequence_prompt (agent_prompt a) (handed aborted l k))
                              (from_team_policy p)) = Some o /\ b = record_outcome o a.

Lemma handed_prefix aborted l l' k :
  (k <= length l)%nat -> handed aborted (l ++ l') k = handed aborted l k.
Proof.
  induction k as [|k IH]; intros Hk; simpl; [done|].
  destruct (aborted k); [apply IH; lia|]. by rewrite lookup_app_l by lia.
Qed.

Lemma handed_snoc aborted l b :
  handed aborted (l ++ [b]) (S (length l)) =
  if aborted (length l) then handed aborted l (length l)
  else if bool_decide (agent_status b = AgentCompleted) then agent_result b else None.
Proof. simpl. by rewrite list_lookup_middle, handed_prefix by done. Qed.

Record seq_inv (p : TeamPolicy) (aborted : nat -> bool) (input : list SubAgent) (st : SeqState) :
    Prop := mkSeqInv {
  seq_length : length (seq_done st) = length input;
  seq_outcomes : forall k a, input !! k = Some a -> exists b, seq_done st !! k = Some b /\
    sequence_outcome p aborted (seq_done st) k a b;
  seq_handed : seq_prev st = handed aborted (seq_done st) (length input);
  seq_success : seq_failed st = false <->
    forall b, b ∈ seq_done st -> agent_status b = AgentCompleted
}.

Lemma record_outcome_completed o a :
  agent_status (record_outcome o a) = AgentCompleted <-> outcome_ok o = true.
Proof. destruct o as [r|e]; simpl; [|done]. by destruct (success r). Qed.

Lemma sequence_step_inv p aborted input st a st' :
  seq_inv p aborted input st ->
  sequence_step p (aborted (length input)) st a = Some st' ->
  seq_inv p aborted (input ++ [a]) st'.
Proof.
  intros [Hlen Hout Hprev Hok] Hstep.
  assert (Hb : exists b, seq_done st' = seq_done st ++ [b] /\
    sequence_outcome p aborted (seq_done st) (length input) a b /\
    (seq_failed st' = false <-> seq_failed st = false /\ agent_status b = AgentCompleted) /\
    seq_prev st' = handed aborted (seq_done st ++ [b]) (S (length input))).
  { unfold sequence_step, sequence_outcome in *. rewrite <- Hlen in *.
    setoid_rewrite handed_snoc. destruct (aborted (length (seq_done st))) eqn:Ha.
    { injection Hstep as <-. eexists. simpl. split_and!; [done|done| |done].
      split; [done|by intros [_ ?]]. }
    rewrite Hprev in Hstep. destruct (run_agent _) as [o|] eqn:Ho; [|done].
    exists (record_outcome o a). destruct o as [r|e]; simpl in *.
    - destruct (success r) eqn:Hsr; injection Hstep as <-; simpl;
        (split_and!; [done|exists (Ok r); simpl; by rewrite Hsr| |done]); (split; [done|by intros [? ?]]).
    - injection Hstep as <-. simpl.
      split_and!; [done|by exists (Err e)| |done]. split; [done|by intros [_ ?]]. }
  destruct Hb as (b & Hdone & Hb & Hfail & Hp). split.
  - rewrite Hdone, !length_app. simpl. lia.
  - intros k c Hk. rewrite Hdone. destruct (decide (k < length input)%nat) as [Hlt|Hge].
    + rewrite lookup_app_l in Hk by done. destruct (Hout k c Hk) as (d & Hd & Hcd).
      exists d. split; [by apply lookup_app_l_Some|]. unfold sequence_outcome in *.
      by rewrite handed_prefix by lia.
    + pose proof (lookup_lt_Some _ _ _ Hk) as Hkl. rewrite length_app in Hkl. simpl in Hkl.
      assert (k = length input) as -> by lia. rewrite list_lookup_middle in Hk by done.
      injection Hk as <-. exists b. rewrite list_lookup_middle by done. split; [done|].
      unfold sequence_outcome in *. by rewrite handed_prefix by lia.
  - rewrite Hp, Hdone, length_app. simpl. by rewrite Nat.add_1_r.
  - rewrite Hfail, Hdone, Hok. split.
    + intros [Hall Hbc] c Hc. apply elem_of_app in Hc as [?|Hc]; [auto|].
      by apply list_elem_of_singleton in Hc as ->.
    + intros Hall. split; [intros; apply Hall, elem_of_app; by left|].
      apply Hall, elem_of_app. right. by left.
Qed.

Lemma sequence_loop_inv p aborted input st l st' :
  seq_inv p aborted input st ->
  sequence_loop p aborted (length input) st l = Some st' ->
  seq_inv p aborted (input ++ l) st'.
Proof.
  revert input st. induction l as [|a l IH]; intros input st Hinv; simpl.
  { intros [= <-]. by rewrite app_nil_r. }
  destruct (sequence_step p (aborted (length input)) st a) as [st1|] eqn:Hs; [|done]. simpl.
  intros Hl. replace (input ++ a :: l) with ((input ++ [a]) ++ l) by (by rewrite <- (assoc_L (++))).
  apply (IH (input ++ [a]) st1); [by eapply sequence_step_inv|].
  rewrite length_app. simpl. by rewrite Nat.add_1_r.
Qed.

(** Sequential execution, agent by agent: no agent is dropped; each
    one that is not aborted runs once, on its own prompt extended with the
    text of the agent before it exactly when that agent completed (so a
    failure interrupts the hand-over but not the sequence), and is recorded
    as its outcome; an aborted one is skipped; and the run succeeds exactly
    when every agent completed. *)
Theorem execute_sequence_correct now aborted t x r :
  execute_sequence now aborted t x = Some r ->
  let final := agents (result_team r) in
  length final = length (agents t) /\
  (forall k a, agents t !! k = Some a -> exists b, final !! k = Some b /\
     sequence_outcome (get_team_policy t x) aborted final k a b) /\
  (result_success r = true <-> forall b, b ∈ final -> agent_status b = AgentCompleted) /\
  team_status (result_team r) = (if result_success r then TeamCompleted else TeamFailed).
Proof.
  unfold execute_sequence. intros Hr. cbv zeta.
  destruct (sequence_loop _ _ _ _ _) as [st|] eqn:Hl; [|done]. injection Hr as <-.
  apply (sequence_loop_inv _ _ []) in Hl as [Hlen Hout Hprev Hok].
  2:{ split; [done|intros k a Hk; by rewrite lookup_nil in Hk|done|].
      simpl. split; [by intros _ b ?%not_elem_of_nil|done]. }
  assert (Hag : forall f sh, agents (result_team
            (finalize now "One or more agents failed in sequence" f sh
               (with_agents (seq_done st) t))) = seq_done st) by (intros [] sh; done).
  rewrite Hag. split_and!; [done|done| |by destruct (seq_failed st)].
  rewrite <- Hok. by destruct (seq_failed st).
Qed.
End Sequence.
