(* ===== verification/TeamDag.v ===== *)
(** * TeamDag: graph execution and the store of teams

    Termination of the loop of [execute_dag], what it does with the scheduler
    [from_team] gives it, and the life of a team in the store of the
    executor. *)

From stdpp Require Import base gmap strings list fin_maps relations sorting.
From Stdlib Require Import ZArith Lia.
From S2P Require Import Prelude Text Float64 Json TeamTypes TeamPolicy Scheduler SchedulerGraph.
From S2P Require Import SchedulerSort SchedulerRun TeamExecutor.

#[local] Open Scope Z_scope.

(** ** Building a team's scheduler *)

Section FromTeam.
Context `{HashOrder}.

(** [build] reads the nodes only. *)
Lemma build_again s s' : build s = Some (Ok s') -> build s' = Some (Ok s') /\ nodes s' = nodes s.
Proof.
  unfold build. destruct (build_nodes _ _ _) as [[D G]|e] eqn:Hn; [|done].
  destruct (detect_cycles _) as [[u|e]|] eqn:Hd; [|done|done]. intros [= <-]. simpl.
  split; [|done]. rewrite Hn. simpl. by rewrite Hd.
Qed.

Lemma add_agents_nodes l s s' :
  add_agents l s = Ok s' ->
  nodes s ⊆ nodes s' /\ forall a, a ∈ l -> nodes s' !! agent_id a = Some (node_of_agent a).
Proof.
  revert s. induction l as [|a l IH]; intros s; simpl.
  { intros [= ->]. split; [done|by intros ? ?%not_elem_of_nil]. }
  unfold add_node. case_bool_decide as Hd; [done|]. apply eq_None_not_Some in Hd.
  intros Hl. destruct (IH _ Hl) as [Hsub Hin]. simpl in Hsub. split.
  - etrans; [|exact Hsub]. by apply insert_subseteq.
  - intros b Hb. apply elem_of_cons in Hb as [->|Hb]; [|auto].
    eapply lookup_weaken; [|exact Hsub]. apply lookup_insert_eq.
Qed.

Lemma from_team_nodes l s :
  from_team l = Some (Ok s) ->
  build s = Some (Ok s) /\ max_parallelism s = 0%nat /\
  forall a, a ∈ l -> nodes s !! agent_id a = Some (node_of_agent a).
Proof.
  intros Hl. pose proof (from_team_no_slots l s Hl) as Hz. unfold from_team in Hl.
  destruct (add_agents l new) as [s1|e] eqn:Ha; [|done].
  destruct (build_again _ _ Hl) as [Hb Hn]. split_and!; [done|done|].
  intros a Hin. rewrite Hn. by apply (add_agents_nodes _ _ _ Ha).
Qed.

Lemma not_complete s i n : nodes s !! i = Some n -> is_done n = false -> is_complete s = false.
Proof.
  intros Hi Hn. apply not_true_iff_false. unfold is_complete. rewrite forallb_elem.
  intros Hall. rewrite Hall in Hn; [done|]. apply elem_of_hash_values. by exists i.
Qed.
End FromTeam.

Section Dag.
Context `{J : Json} `{!PolicyCodec} `{R : !Runtime} `{HashOrder}.

(** A team in graph mode never runs: whatever its graph, as long as
    it is a valid one with an agent still to run, [execute_dag] starts no
    sub-agent at all and reports failure, because the scheduler built by
    [from_team] has a parallelism of zero.  Unless aborted first, it leaves
    every agent as it was. *)
Theorem dag_team_never_runs now aborted t x s a :
  from_team (agents t) = Some (Ok s) ->
  a ∈ agents t -> agent_status a = AgentPending ->
  exists r, execute_dag now aborted t x = Some (r, [], true) /\
    result_success r = false /\
    result_error r = Some "One or more agents failed in DAG execution"%string /\
    team_status (result_team r) = TeamFailed /\
    (aborted 0%nat = false -> agents (result_team r) = agents t).
Proof.
  intros Hs Ha Hst. destruct (from_team_nodes _ _ Hs) as (Hb & Hz & Hn).
  assert (Hc : is_complete s = false).
  { apply (not_complete s (agent_id a) (node_of_agent a)); [auto|].
    unfold is_done, node_of_agent. simpl. by rewrite Hst. }
  unfold execute_dag. rewrite Hs, Hb. unfold run_dag. cbn [dag_loop dag_sched]. rewrite Hc.
  unfold dag_round. destruct (aborted 0%nat).
  - eexists. simpl. by split_and!.
  - unfold dag_start. cbn [dag_team dag_sched dag_running].
    assert (Hg : forall c k, get_ready_nodes c k s = []).
    { intros c k. unfold get_ready_nodes. by rewrite Hz. }
    rewrite Hg. cbn [foldl dag_running dag_sched]. rewrite Hc.
    eexists. simpl. by split_and!.
Qed.
End Dag.

(** ** Termination of the loop, for any scheduler *)

Section Termination.
Context `{J : Json} `{!PolicyCodec} `{R : !Runtime} `{HashOrder}.

(** The nodes still waiting. *)
Definition waiting (m : gmap string DagNode) : gset string :=
  dom (filter (fun e => status e.2 = Pending) m).

Lemma elem_of_waiting m i :
  i ∈ waiting m <-> exists n, m !! i = Some n /\ status n = Pending.
Proof.
  unfold waiting. rewrite elem_of_dom. unfold is_Some.
  setoid_rewrite map_lookup_filter_Some. done.
Qed.

(** A scheduler operation that neither adds waiting nodes nor breaks the
    keys. *)
Definition advances (s s' : DagScheduler) : Prop :=
  (well_keyed (nodes s) -> well_keyed (nodes s')) /\ waiting (nodes s') ⊆ waiting (nodes s).

Lemma advances_refl s : advances s s.
Proof. by split. Qed.

Lemma advances_trans s1 s2 s3 : advances s1 s2 -> advances s2 s3 -> advances s1 s3.
Proof. intros [? ?] [? ?]. split; [auto|by etrans]. Qed.

Lemma edit_node_advances i f s s' :
  (forall n, id (f n) = id n /\ dependencies (f n) = dependencies n /\ status (f n) <> Pending) ->
  edit_node i f s = Ok s' -> advances s s' /\ i ∉ waiting (nodes s').
Proof.
  intros Hf. unfold edit_node. destruct (nodes s !! i) as [n|] eqn:Hn; [|done].
  intros [= <-]. destruct (Hf n) as (Hid & Hde & Hst). split; [split|]; simpl.
  - intros Hk j m. rewrite lookup_insert. case_decide; [|apply Hk].
    intros [= <-]. rewrite Hid, Hde. subst. by apply Hk.
  - intros j. rewrite !elem_of_waiting. intros (m & Hm & Hp). revert Hm.
    rewrite lookup_insert. case_decide; [|by exists m]. by intros [= <-].
  - rewrite elem_of_waiting, lookup_insert_eq. intros (m & [= <-] & ?). done.
Qed.

Lemma ignore_err_advances s r :
  (forall s', r = Ok s' -> advances s s') -> advances s (ignore_err s r).
Proof. intros Hr. destruct r; simpl; [by apply Hr|apply advances_refl]. Qed.

Lemma skip_loop_advances deps reason fuel m queue skipped m' skipped' s :
  skip_loop deps reason fuel m queue skipped = Some (m', skipped') ->
  advances (with_nodes m s) (with_nodes m' s).
Proof.
  revert m queue skipped. induction fuel as [|fuel IH]; intros m [|i rest] skipped; simpl;
    [by intros [= <- _]; apply advances_refl|done|by intros [= <- _]; apply advances_refl|].
  destruct (m !! i) as [n|] eqn:Hi; [|by apply IH]. destruct (can_schedule n); [|by apply IH].
  intros Hl. eapply advances_trans; [|by eapply IH].
  assert (He : edit_node i (skip_node reason) (with_nodes m s) =
               Ok (with_nodes (<[i := skip_node reason n]> m) s)).
  { unfold edit_node. simpl. by rewrite Hi. }
  by apply (edit_node_advances i (skip_node reason) _ _ ltac:(done)) in He as [? _].
Qed.

Lemma dag_failure_advances i ne ae st : advances (dag_sched st) (dag_sched (dag_failure i ne ae st)).
Proof.
  unfold dag_failure. simpl.
  assert (H1 : advances (dag_sched st) (ignore_err (dag_sched st) (fail_node i ne (dag_sched st)))).
  { apply ignore_err_advances. intros s' Hs'. eapply edit_node_advances; [|exact Hs'].
    intros n. by destruct ne. }
  set (s1 := ignore_err _ _) in *. eapply advances_trans; [exact H1|].
  unfold skip_dependents. destruct (skip_loop _ _ _ _ _ _) as [[m' sk]|] eqn:Hl;
    [|apply advances_refl].
  apply (skip_loop_advances _ _ _ _ _ _ _ _ s1) in Hl. by destruct s1.
Qed.

Lemma dag_join_advances tk st : advances (dag_sched st) (dag_sched (dag_join tk st)) /\
  dag_running (dag_join tk st) = dag_running st.
Proof.
  unfold dag_join. destruct (run_agent tk) as [[r|e]|]; [|by split; [apply dag_failure_advances|]
    |by split; [apply advances_refl|]].
  destruct (success r); [|by split; [apply dag_failure_advances|]]. split; [|done]. simpl.
  apply ignore_err_advances. intros s' Hs'. eapply edit_node_advances; [|exact Hs']. done.
Qed.

(** Starting distinct waiting nodes: each leaves the waiting set and joins
    the running tasks. *)
Lemma start_all p l st :
  NoDup l -> (forall i, i ∈ l -> i ∈ waiting (nodes (dag_sched st))) ->
  let st' := foldl (start_one p) st l in
  advances (dag_sched st) (dag_sched st') /\
  (length (dag_running st') + size (waiting (nodes (dag_sched st'))) <=
   length (dag_running st) + size (waiting (nodes (dag_sched st))))%nat.
Proof.
  revert st. induction l as [|i l IH]; intros st Hnd Hl; [by split; [apply advances_refl|]|].
  apply NoDup_cons in Hnd as [Hi Hnd]. cbn [foldl].
  assert (Hw : i ∈ waiting (nodes (dag_sched st))) by (apply Hl; by left).
  destruct (proj1 (elem_of_waiting _ _) Hw) as (n & Hn & Hp).
  set (st1 := start_one p st i).
  assert (Hs1 : start_node i (dag_sched st) = Ok (dag_sched st1) /\
                length (dag_running st1) = S (length (dag_running st))).
  { unfold st1, start_one, start_node, edit_node. rewrite Hn. simpl. split; [done|].
    rewrite length_app. simpl. lia. }
  destruct Hs1 as [Hs1 Hr1].
  destruct (edit_node_advances i (set_status Running) _ _ ltac:(done) Hs1) as [Hadv Hni].
  assert (Hother : forall j, j <> i -> j ∈ waiting (nodes (dag_sched st)) ->
            j ∈ waiting (nodes (dag_sched st1))).
  { intros j Hji (m & Hm & Hpm)%elem_of_waiting. apply elem_of_waiting. exists m. split; [|done].
    unfold start_node, edit_node in Hs1. rewrite Hn in Hs1. injection Hs1 as <-. simpl.
    by rewrite lookup_insert_ne. }
  destruct (IH st1 Hnd) as [Hadv' Hle].
  { intros j Hj. apply Hother; [congruence|]. apply Hl. by right. }
  split; [by eapply advances_trans|]. etrans; [exact Hle|]. rewrite Hr1.
  assert (size (waiting (nodes (dag_sched st1))) < size (waiting (nodes (dag_sched st))))%nat; [|lia].
  apply subset_size. destruct Hadv as [_ Hsub]. set_solver.
Qed.

Lemma ready_waiting completed k s i :
  well_keyed (nodes s) -> i ∈ get_ready_nodes completed k s -> i ∈ waiting (nodes s).
Proof.
  intros Hk Hi. destruct (ready_ids completed s Hk) as [_ Hin]. unfold get_ready_nodes in Hi.
  destruct (Nat.leb _ _); [by apply not_elem_of_nil in Hi|].
  assert (Hi' : i ∈ sort_ids (nodes s) (id <$> ready_nodes completed s)) by (by eapply subseteq_take).
  unfold sort_ids in Hi'. rewrite sort_by_perm in Hi'. apply Hin in Hi' as (n & ? & ? & _).
  apply elem_of_waiting. by exists n.
Qed.

Lemma ready_nodup completed k s :
  well_keyed (nodes s) -> NoDup (get_ready_nodes completed k s).
Proof.
  intros Hk. destruct (ready_ids completed s Hk) as [Hnd _]. unfold get_ready_nodes.
  destruct (Nat.leb _ _); [constructor|].
  apply (sublist_NoDup _ (sort_ids (nodes s) (id <$> ready_nodes completed s)));
    [unfold sort_ids; by rewrite sort_by_perm|apply sublist_take].
Qed.

(** A round that goes on without finishing joins a task. *)
Lemma dag_round_decreases p ab k st st' :
  well_keyed (nodes (dag_sched st)) -> dag_round p ab k st = (st', true) ->
  well_keyed (nodes (dag_sched st')) /\
  (is_complete (dag_sched st') = true \/
   S (length (dag_running st') + size (waiting (nodes (dag_sched st')))) <=
   length (dag_running st) + size (waiting (nodes (dag_sched st))))%nat.
Proof.
  intros Hk. unfold dag_round. destruct ab; [done|]. set (st1 := dag_start p st).
  destruct (start_all p (get_ready_nodes (completed_agent_ids (dag_team st))
    (running_count_of (dag_team st)) (dag_sched st)) st) as [Hadv Hle].
  { by apply ready_nodup. }
  { intros i. by apply ready_waiting. }
  change (foldl (start_one p) st _) with st1 in Hadv, Hle. simpl in Hle.
  assert (Hk1 : well_keyed (nodes (dag_sched st1))) by (by apply Hadv).
  destruct (dag_running st1) as [|tk0 run] eqn:Hrun.
  - destruct (is_complete (dag_sched st1)) eqn:Hc; intros [= <-]. split; [done|by left].
  - destruct (join_one_some k (tk0 :: run)) as (tk & rest & Hj & Hp); [done|]. rewrite Hj.
    intros [= <-]. destruct (dag_join_advances tk (dag_set_running rest st1)) as [[Hkk Hsub] Hr].
    simpl in Hkk, Hsub. split; [by apply Hkk|]. right. rewrite Hr. simpl.
    apply Permutation_length in Hp. apply subseteq_size in Hsub. simpl in Hp, Hle. lia.
Qed.

(** Claim C38. The loop of [execute_dag] terminates: on any scheduler with its
    nodes under their own ids (cycles and parallelism included), whatever
    the sub-agents return or panic with and in whatever order they finish,
    the loop ends within one round per node and one more. *)
Theorem run_dag_terminates now aborted s t x :
  well_keyed (nodes s) -> exists o, run_dag now aborted s t x = Some o.
Proof.
  intros Hk. unfold run_dag. set (p := get_team_policy t x).
  assert (Hloop : forall fuel k st, well_keyed (nodes (dag_sched st)) ->
    (length (dag_running st) + size (waiting (nodes (dag_sched st))) < fuel)%nat ->
    exists st', dag_loop p aborted fuel k st = Some st').
  { induction fuel as [|fuel IH]; intros k st Hks Hf; [lia|]. cbn [dag_loop].
    destruct (is_complete (dag_sched st)); [by eexists|].
    destruct (dag_round p (aborted k) k st) as [st' [|]] eqn:Hr; [|by eexists].
    destruct (dag_round_decreases _ _ _ _ _ Hks Hr) as [Hk' [Hc|Hle]].
    - destruct fuel; cbn [dag_loop]; rewrite Hc; by eexists.
    - apply IH; [done|lia]. }
  destruct (Hloop (S (size (nodes s))) 0%nat (mkRun t s [] (shared_state t) false [])) as [st' Hst'].
  - done.
  - simpl. assert (size (waiting (nodes s)) <= size (nodes s))%nat; [|lia].
    rewrite <- size_dom. apply subseteq_size. intros i (n & ? & _)%elem_of_waiting.
    by eapply elem_of_dom_2.
  - rewrite Hst'. by eexists.
Qed.
End Termination.

(** ** The life of a team in the store *)

Section Store.
Context `{J : Json} `{!PolicyCodec} `{R : !Runtime} `{HashOrder}.

Lemma finalize_status now what f sh t :
  let r := finalize now what f sh t in
  team_status (result_team r) = (if f then TeamFailed else TeamCompleted) /\
  team_id (result_team r) = team_id t.
Proof. by destruct f. Qed.

Lemma collect_parallel_id l st : team_id (foldl collect_parallel st l).1.1 = team_id st.1.1.
Proof.
  revert st. induction l as [|tk l IH]; intros [[t sh] f]; [done|]. cbn [foldl]. rewrite IH.
  unfold collect_parallel. by destruct (run_agent tk).
Qed.

Lemma start_all_team_id p l st :
  team_id (dag_team (foldl (start_one p) st l)) = team_id (dag_team st).
Proof.
  revert st. induction l as [|i l IH]; intros st; [done|]. cbn [foldl]. rewrite IH.
  unfold start_one. by destruct (start_node _ _).
Qed.

Lemma dag_join_team_id tk st : team_id (dag_team (dag_join tk st)) = team_id (dag_team st).
Proof. unfold dag_join. destruct (run_agent tk) as [[r|e]|]; [destruct (success r)|..]; done. Qed.

Lemma dag_round_team_id p ab k st :
  team_id (dag_team (dag_round p ab k st).1) = team_id (dag_team st).
Proof.
  unfold dag_round. destruct ab; [done|].
  rewrite <- (start_all_team_id p (get_ready_nodes (completed_agent_ids (dag_team st))
              (running_count_of (dag_team st)) (dag_sched st)) st).
  fold (dag_start p st). destruct (dag_running (dag_start p st)).
  - by destruct (is_complete _).
  - destruct (join_one _ _) as [[tk rest]|]; [|done]. cbn [fst]. by rewrite dag_join_team_id.
Qed.

Lemma dag_loop_team_id p ab fuel k st st' :
  dag_loop p ab fuel k st = Some st' -> team_id (dag_team st') = team_id (dag_team st).
Proof.
  revert k st. induction fuel as [|fuel IH]; intros k st; cbn [dag_loop];
    (destruct (is_complete (dag_sched st)); [by intros [= <-]|]); [done|].
  pose proof (dag_round_team_id p (ab k) k st) as Hid.
  destruct (dag_round p (ab k) k st) as [st1 [|]]; simpl in Hid.
  - intros Hl. by rewrite (IH _ _ Hl).
  - by intros [= <-].
Qed.

(** What a mode returns: a finished team to store, or, for a refused graph,
    the team as it was. *)
Lemma run_mode_spec now ab t x r stored :
  run_mode now ab t x = Some (r, stored) ->
  team_id (result_team r) = team_id t /\
  (if stored then team_status (result_team r) = TeamCompleted \/
                  team_status (result_team r) = TeamFailed
   else result_team r = t /\ result_success r = false).
Proof.
  unfold run_mode. destruct (team_mode t).
  - intros [= <- <-]. unfold execute_parallel.
    pose proof (collect_parallel_id
      (drain 0 (length (parallel_tasks (get_team_policy t x) t))
         (parallel_tasks (get_team_policy t x) t)) (t, shared_state t, false)) as Hid.
    destruct (foldl collect_parallel _ _) as [[t' sh] f]. simpl in Hid.
    destruct (finalize_status now "One or more agents failed" f sh t') as [-> ->].
    split; [done|]. destruct f; [by right|by left].
  - unfold execute_sequence. destruct (sequence_loop _ _ _ _ _) as [st|]; [|done].
    intros [= <- <-].
    destruct (finalize_status now "One or more agents failed in sequence" (seq_failed st)
      (seq_shared st) (with_agents (seq_done st) t)) as [-> ->].
    split; [done|]. destruct (seq_failed st); [by right|by left].
  - unfold execute_dag. destruct (from_team (agents t)) as [[s|e]|]; [| |done].
    2:{ by intros [= <- <-]. }
    destruct (build s) as [[s'|e]|]; [| |done]; [|by intros [= <- <-]].
    unfold run_dag. destruct (dag_loop _ _ _ _ _) as [st|] eqn:Hl; [|done]. intros [= <- <-].
    apply dag_loop_team_id in Hl. simpl in Hl.
    destruct (finalize_status now "One or more agents failed in DAG execution" (dag_failed st)
      (dag_shared st) (dag_team st)) as [-> ->].
    split; [done|]. destruct (dag_failed st); [by right|by left].
Qed.

(** An abort is forgotten: when [execute] ends by storing its team,
    the stored team is the one [execute] returns, completed or failed, even
    if [abort_team] marked the stored team aborted while it ran; the abort
    handle is gone either way. *)
Theorem abort_overwritten now1 now2 now3 elapsed ab t x r x' :
  team_status t = TeamPending -> agents t <> [] -> team_mode t <> Dag ->
  execute now1 now2 elapsed ab (fun y => (abort_team now3 (team_id t) y).2) t x = Some (r, x') ->
  teams x' !! team_id t = Some (result_team r) /\
  (team_status (result_team r) = TeamCompleted \/ team_status (result_team r) = TeamFailed) /\
  abort_handles x' !! team_id t = None.
Proof.
  intros Hst Hne Hmode. unfold execute, begin_execute.
  destruct (agents t) eqn:Hag; [done|]. rewrite bool_decide_true by done. clear Hne.
  set (t1 := team_start now1 t). set (x1 := store_team t1 _).
  destruct (run_mode now2 ab t1 x1) as [[r0 stored]|] eqn:Hr; [|done]. intros [= <- <-].
  assert (stored = true) as ->.
  { unfold run_mode in Hr. assert (team_mode t1 = team_mode t) as Hm by done. rewrite Hm in Hr.
    destruct (team_mode t); [by injection Hr|by destruct (execute_sequence _ _ _ _); [injection Hr|]|done]. }
  destruct (run_mode_spec _ _ _ _ _ _ Hr) as [Hid Hfin]. simpl in *.
  change (team_id t1) with (team_id t) in Hid. rewrite Hid.
  split_and!; [apply lookup_insert_eq|done|apply lookup_delete_eq].
Qed.

(** A team whose graph is refused is stuck: [execute] reports the
    failure, but the store keeps the team as running, so that every later
    attempt to execute the stored team is refused as already running. *)
Theorem refused_team_stays_running now1 now2 elapsed ab t x e :
  team_status t = TeamPending -> agents t <> [] -> team_mode t = Dag ->
  from_team (agents t) = Some (Err e) ->
  exists r x' t', execute now1 now2 elapsed ab Datatypes.id t x = Some (r, x') /\
    result_success r = false /\
    result_error r = Some ("Failed to create DAG scheduler: " +:+ message e) /\
    teams x' !! team_id t = Some t' /\ team_status t' = TeamRunning /\
    forall n1 n2 el ab' mw,
      execute n1 n2 el ab' mw t' x' =
      Some (mkTeamResult t' false (Some "Team is already running"%string) el, x').
Proof.
  intros Hst Hne Hmode He. unfold execute at 1. unfold begin_execute at 1.
  destruct (agents t) as [|a l] eqn:Hag; [done|]. rewrite bool_decide_true by done.
  set (t1 := team_start now1 t). set (x1 := store_team t1 _).
  assert (Hr : run_mode now2 ab t1 x1 =
    Some (mkTeamResult t1 false (Some ("Failed to create DAG scheduler: " +:+ message e)) 0, false)).
  { unfold run_mode. change (team_mode t1) with (team_mode t). rewrite Hmode.
    unfold execute_dag. change (agents t1) with (agents t). by rewrite Hag, He. }
  rewrite Hr. eexists _, _, t1. split; [done|]. simpl.
  split_and!; [done|done|apply lookup_insert_eq|done|].
  intros. unfold execute, begin_execute. change (agents t1) with (agents t). by rewrite Hag.
Qed.

(** The structured results of a team never carry the tokens its
    agents used: whatever the agents spent, the total usage collected by
    [collect_team_results] is zero, while the number of results and their
    texts follow the agents that ended. *)
Theorem collect_loses_usage id x t rs :
  teams x !! id = Some t -> collect_team_results id x = Some rs ->
  total_usage rs = new_usage 0 0 /\
  agent_results rs = omap result_of_agent (agents t) /\
  combined_text rs = match omap text (agent_results rs) with
                     | [] => None
                     | texts => Some (String.concat separator texts)
                     end.
Proof.
  intros Ht. unfold collect_team_results. rewrite Ht. simpl. intros [= <-].
  assert (Hnone : forall r, r ∈ omap result_of_agent (agents t) -> usage r = None).
  { intros r (a & _ & Ha)%list_elem_of_omap. unfold result_of_agent in Ha.
    by destruct (agent_status a); simplify_eq/=. }
  assert (Hmain : forall l, (forall r, r ∈ l -> usage r = None) ->
            total_usage (collect (Some id) l) = new_usage 0 0 /\
            agent_results (collect (Some id) l) = l /\ combined_text (collect (Some id) l) = None).
  { induction l as [|r l IH] using rev_ind; intros Hl; [done|]. rewrite collect_snoc. simpl.
    destruct IH as (-> & -> & ->); [intros; apply Hl, elem_of_app; by left|].
    rewrite Hl by (apply elem_of_app; right; by left). done. }
  destruct (Hmain _ Hnone) as (Hu & Hr & Hc). unfold build_combined_text.
  destruct (omap text _) eqn:Ho; simpl; rewrite ?Hr, ?Ho in *; by rewrite ?Hu, ?Hr.
Qed.
End Store.

(** ** A concrete environment *)

Section Demo.
#[local] Existing Instances canonical_order flat_json.

Definition demo_codec : PolicyCodec :=
  {| policy_to_value := fun _ => None; policy_of_value := fun _ => None |}.

(** Every agent answers its own id; the last task to start finishes first. *)
Definition demo_runtime : Runtime :=
  {| run_agent := fun tk => Some (Ok (agent_success (task_agent tk) (task_agent tk)));
     join_next := fun _ l => (length l - 1)%nat |}.

#[local] Existing Instances demo_codec demo_runtime.

Definition demo_executor : TeamExecutor := mkExecutor ∅ ∅ "/tmp" default_policy.

Definition demo_team (m : TeamMode) (deps : list string) : AgentTeam :=
  mkTeam "t" None "task" m TeamPending
    [new_agent "a" "first"; foldr agent_with_dependency (new_agent "b" "second") deps]
    None empty_shared "now" None None 0 f64_zero None.

Definition demo_scheduler : DagScheduler :=
  match from_team (agents (demo_team Dag ["a"])) with Some (Ok s) => s | _ => new end.

Lemma execute_parallel_correct_witness :
  NoDup (agent_id <$> agents (demo_team Parallel [])) /\
  result_success (execute_parallel "later" (demo_team Parallel []) demo_executor) = true.
Proof.
  assert (Hnd : NoDup (agent_id <$> agents (demo_team Parallel []))) by (by apply (bool_decide_unpack _)).
  split; [exact Hnd|].
  destruct (execute_parallel_correct "later" _ demo_executor Hnd) as (_ & Hs & _). apply Hs.
  intros a Ha. eexists. split; reflexivity.
Defined.

Lemma execute_sequence_correct_witness :
  exists r, execute_sequence "later" (fun _ => false) (demo_team Sequence []) demo_executor = Some r /\
    length (agents (result_team r)) = 2%nat.
Proof.
  destruct (is_some_true (execute_sequence "later" (fun _ => false) (demo_team Sequence [])
    demo_executor)) as [r Hr]; [by vm_compute|]. exists r. split; [exact Hr|].
  by apply (execute_sequence_correct _ _ _ _ _ Hr).
Defined.

Lemma dag_team_never_runs_witness :
  exists r, execute_dag "later" (fun _ => false) (demo_team Dag ["a"]) demo_executor = Some (r, [], true) /\
    result_success r = false.
Proof.
  destruct (dag_team_never_runs "later" (fun _ => false) (demo_team Dag ["a"]) demo_executor
    demo_scheduler (new_agent "a" "first")) as (r & Hr & Hs & _).
  - vm_compute. reflexivity.
  - by left.
  - reflexivity.
  - by exists r.
Defined.

Lemma run_dag_terminates_witness :
  well_keyed (nodes diamond) /\
  exists o, run_dag "later" (fun _ => false) diamond (demo_team Dag []) demo_executor = Some o.
Proof. split; [apply diamond_keyed|]. apply run_dag_terminates, diamond_keyed. Defined.

(** With a positive parallelism the same loop does run a graph. *)
Example run_dag_diamond :
  snd <$> run_dag "later" (fun _ => false) diamond_built
    (with_agents (new_agent "a" "" :: new_agent "b" "" :: new_agent "c" "" :: [new_agent "d" ""])
       (demo_team Dag [])) demo_executor = Some ["a"; "c"; "b"; "d"].
Proof. by vm_compute. Qed.

Lemma abort_overwritten_witness :
  exists r x', execute "1" "2" 0 (fun _ => true) (fun y => (abort_team "3" "t" y).2)
      (demo_team Sequence []) demo_executor = Some (r, x') /\
    abort_handles x' !! "t"%string = None.
Proof.
  destruct (is_some_true (execute "1" "2" 0 (fun _ => true) (fun y => (abort_team "3" "t" y).2)
    (demo_team Sequence []) demo_executor)) as [[r x'] Hr]; [by vm_compute|].
  exists r, x'. split; [exact Hr|].
  by apply (abort_overwritten "1" "2" "3" 0 (fun _ => true) (demo_team Sequence [])
              demo_executor r x' eq_refl ltac:(done) ltac:(done) Hr).
Defined.

Lemma refused_team_stays_running_witness :
  exists r x' t', execute "1" "2" 0 (fun _ => false) Datatypes.id (demo_team Dag ["b"]) demo_executor
      = Some (r, x') /\ teams x' !! "t"%string = Some t' /\ team_status t' = TeamRunning.
Proof.
  destruct (refused_team_stays_running "1" "2" 0 (fun _ => false) (demo_team Dag ["b"])
    demo_executor (mkError "cycle_detected" "DAG contains a cycle involving node 'b'" (Some "b")))
    as (r & x' & t' & He & _ & _ & Ht & Hs & _);
    [reflexivity|discriminate|reflexivity|vm_compute; reflexivity|].
  by exists r, x', t'.
Defined.

Definition spent_team : AgentTeam :=
  with_agents [agent_complete "done" 1200 (f64_of_Z 1) (new_agent "a" "first")]
    (demo_team Parallel []).

Lemma collect_loses_usage_witness :
  exists rs, collect_team_results "t" (store_team spent_team demo_executor) = Some rs /\
    total_usage rs = new_usage 0 0.
Proof.
  destruct (is_some_true (collect_team_results "t" (store_team spent_team demo_executor)))
    as [rs Hrs]; [by vm_compute|]. exists rs. split; [exact Hrs|].
  apply (collect_loses_usage "t" (store_team spent_team demo_executor) spent_team rs); [|exact Hrs].
  apply lookup_insert_eq.
Defined.
End Demo.
