(* ===== verification/ToolHealth.v ===== *)
(** * ToolHealth: [engine/tool_health.rs]

    Success and failure counts per tool, and the automaton that degrades,
    disables and recovers tools.  The clock is an argument (milliseconds);
    times are stored as RFC 3339 text, as the code stores them. *)

From stdpp Require Import base gmap strings list fin_maps.
From Stdlib Require Import ZArith Lia.
From S2P Require Import Prelude Text Float64.

#[local] Open Scope Z_scope.

(** [chrono]'s [to_rfc3339] and [parse_from_rfc3339], to the millisecond. *)
Class Clock := {
  to_rfc3339 : Z -> string;
  parse_rfc3339 : string -> option Z
}.

(** Parsing what was printed gives the instant back. *)
Class ClockLaws `{Clock} := { parse_print : forall t, parse_rfc3339 (to_rfc3339 t) = Some t }.

Inductive ToolStatus := Healthy | Degraded | Disabled.

#[export] Instance ToolStatus_eq_dec : EqDecision ToolStatus.
Proof. solve_decision. Defined.

Record ToolHealthRecord := mkRecord {
  record_tool : string;
  total_calls : Z;
  success_count : Z;
  failure_count : Z;
  timeout_count : Z;
  recent_failures : list string;
  tool_status : ToolStatus;
  consecutive_failures : Z;
  last_status_change : string
}.

Record ToolHealthTracker := mkTracker {
  records : gmap string ToolHealthRecord;
  degrade_threshold : Z;
  disable_threshold : Z;
  recovery_minutes : Z
}.

(** [ToolHealthTracker::new]. *)
Definition new_tracker : ToolHealthTracker := mkTracker ∅ 3 6 30.

Definition with_records (m : gmap string ToolHealthRecord) (t : ToolHealthTracker) :=
  mkTracker m (degrade_threshold t) (disable_threshold t) (recovery_minutes t).

Section Health.
Context `{Clock}.

(** [ToolHealthRecord::new]. *)
Definition new_record (now : Z) (name : string) : ToolHealthRecord :=
  mkRecord name 0 0 0 0 [] Healthy 0 (to_rfc3339 now).

(** [records.entry(name).or_insert_with(..)], then an edit. *)
Definition entry (now : Z) (name : string) (t : ToolHealthTracker) : ToolHealthRecord :=
  default (new_record now name) (records t !! name).

Definition edit (now : Z) (name : string) (f : ToolHealthRecord -> ToolHealthRecord)
    (t : ToolHealthTracker) : ToolHealthTracker :=
  with_records (<[name := f (entry now name t)]> (records t)) t.

(** The body of [record_success]. *)
Definition success_edit (now : Z) (r : ToolHealthRecord) : ToolHealthRecord :=
  let s := add64 (success_count r) 1 in
  let recover := bool_decide (tool_status r = Degraded) && Z.eqb (s mod 5) 0 in
  mkRecord (record_tool r) (add64 (total_calls r) 1) s (failure_count r) (timeout_count r)
    (recent_failures r) (if recover then Healthy else tool_status r) 0
    (if recover then to_rfc3339 now else last_status_change r).

Definition record_success (now : Z) (name : string) (t : ToolHealthTracker) : ToolHealthTracker :=
  edit now name (success_edit now) t.

(** The body of [record_failure]. *)
Definition failure_edit (now : Z) (degrade disable : Z) (reason : string) (r : ToolHealthRecord) :
    ToolHealthRecord :=
  let c := add32 (consecutive_failures r) 1 in
  let recent := recent_failures r ++ [reason] in
  let recent := if Nat.ltb 10 (length recent) then drop 1 recent else recent in
  let '(st, changed) :=
    if Z.leb disable c then (Disabled, to_rfc3339 now)
    else if Z.leb degrade c then (Degraded, to_rfc3339 now)
    else (tool_status r, last_status_change r) in
  mkRecord (record_tool r) (add64 (total_calls r) 1) (success_count r)
    (add64 (failure_count r) 1) (timeout_count r) recent st c changed.

Definition record_failure (now : Z) (name reason : string) (t : ToolHealthTracker) :
    ToolHealthTracker :=
  edit now name (failure_edit now (degrade_threshold t) (disable_threshold t) reason) t.

(** [reset_tool]. *)
Definition reset_tool (name : string) (t : ToolHealthTracker) : ToolHealthTracker :=
  with_records (delete name (records t)) t.

(** [maybe_recover]; [num_minutes] truncates. *)
Definition maybe_recover (now minutes : Z) (r : ToolHealthRecord) : ToolHealthRecord :=
  if bool_decide (tool_status r = Healthy) then r
  else match parse_rfc3339 (last_status_change r) with
       | None => r
       | Some changed =>
           if Z.leb minutes (Z.quot (now - changed) 60000) then
             mkRecord (record_tool r) (total_calls r) (success_count r) (failure_count r)
               (timeout_count r) (recent_failures r) Healthy 0 (to_rfc3339 now)
           else r
       end.

(** [is_available]. *)
Definition is_available (now : Z) (name : string) (t : ToolHealthTracker) :
    bool * ToolHealthTracker :=
  match records t !! name with
  | None => (true, t)
  | Some r =>
      let r' := maybe_recover now (recovery_minutes t) r in
      (negb (bool_decide (tool_status r' = Disabled)),
       with_records (<[name := r']> (records t)) t)
  end.

Definition recover_all (now : Z) (t : ToolHealthTracker) : ToolHealthTracker :=
  with_records (maybe_recover now (recovery_minutes t) <$> records t) t.

Section Listing.
Context `{HashOrder}.

(** [disabled_tools], [degraded_tools]. *)
Definition with_status (s : ToolStatus) (t : ToolHealthTracker) : list string :=
  (List.filter (fun e => bool_decide (tool_status e.2 = s)) (hash_iter (records t))).*1.
Definition disabled_tools : ToolHealthTracker -> list string := with_status Disabled.
Definition degraded_tools : ToolHealthTracker -> list string := with_status Degraded.

Definition status_rank (s : ToolStatus) : Z :=
  match s with Disabled => 0 | Degraded => 1 | Healthy => 2 end.

(** The comparison of [snapshot]: not [Greater]. *)
Definition snapshot_le (a b : ToolHealthRecord) : bool :=
  match Z.compare (status_rank (tool_status a)) (status_rank (tool_status b)) with
  | Lt => true
  | Gt => false
  | Eq => match Z.compare (total_calls b) (total_calls a) with
          | Lt => true
          | Gt => false
          | Eq => str_leb (record_tool a) (record_tool b)
          end
  end.

(** [snapshot]: the records, sorted, and the recovered tracker. *)
Definition snapshot (now : Z) (t : ToolHealthTracker) :
    list ToolHealthRecord * ToolHealthTracker :=
  let t' := recover_all now t in
  (sort_by snapshot_le (hash_values (records t')), t').

(** [get_warnings]: one warning per record that is still degraded or
    disabled; the percentage is printed by [format!]. *)
Inductive Warning :=
| WarnDegraded (tool : string) (rate : f64) (consecutive : Z)
| WarnDisabled (tool last_failure : string).

Definition warning_of (r : ToolHealthRecord) : option Warning :=
  match tool_status r with
  | Degraded =>
      Some (WarnDegraded (record_tool r)
              (if Z.ltb 0 (total_calls r)
               then f64_mul (f64_div (f64_of_Z (failure_count r)) (f64_of_Z (total_calls r)))
                      (f64_of_Z 100)
               else f64_zero) (consecutive_failures r))
  | Disabled =>
      Some (WarnDisabled (record_tool r) (default "unknown"%string (last (recent_failures r))))
  | Healthy => None
  end.

Definition get_warnings (now : Z) (t : ToolHealthTracker) : list Warning * ToolHealthTracker :=
  let t' := recover_all now t in (omap warning_of (hash_values (records t')), t').
End Listing.

(** ** The invariant of the automaton *)

(** Thresholds in order, and every record consistent: the last failures are
    bounded, and the status never lags behind the run of failures. *)
Record record_inv (t : ToolHealthTracker) (r : ToolHealthRecord) : Prop := mkRecordInv {
  inv_recent : (length (recent_failures r) <= 10)%nat;
  inv_counts : total_calls r = add64 (success_count r) (failure_count r);
  inv_consecutive : 0 <= consecutive_failures r <= u32_max;
  inv_healthy : tool_status r = Healthy -> consecutive_failures r < degrade_threshold t;
  inv_degraded : tool_status r = Degraded -> consecutive_failures r < disable_threshold t
}.

Definition tracker_inv (t : ToolHealthTracker) : Prop :=
  0 < degrade_threshold t <= disable_threshold t /\ disable_threshold t <= u32_max /\
  forall name r, records t !! name = Some r -> record_inv t r.

(** The operations of the tracker, at any times. *)
Inductive tracker_step : ToolHealthTracker -> ToolHealthTracker -> Prop :=
| step_success now name t : tracker_step t (record_success now name t)
| step_failure now name reason t r :
    records t !! name = Some r -> consecutive_failures r < u32_max ->
    tracker_step t (record_failure now name reason t)
| step_first_failure now name reason t :
    records t !! name = None -> tracker_step t (record_failure now name reason t)
| step_reset name t : tracker_step t (reset_tool name t)
| step_available now name t : tracker_step t (is_available now name t).2
| step_recover now t : tracker_step t (recover_all now t).

Lemma add64_add_l a b : add64 (add64 a b) 1 = add64 (add64 a 1) b.
Proof.
  unfold add64, wrap64. rewrite !Zplus_mod_idemp_l. f_equal. lia.
Qed.

Lemma add64_add_r a b : add64 (add64 a b) 1 = add64 a (add64 b 1).
Proof. unfold add64, wrap64. rewrite Zplus_mod_idemp_l, Zplus_mod_idemp_r. f_equal. lia. Qed.

Lemma new_record_inv now name t : 0 < degrade_threshold t -> record_inv t (new_record now name).
Proof. intros. split; simpl; try done; unfold u32_max; lia. Qed.

Lemma success_edit_inv now t r :
  0 < degrade_threshold t <= disable_threshold t -> record_inv t r ->
  record_inv t (success_edit now r).
Proof.
  intros Hd [H1 H2 H3 H4 H5]. split; simpl; [done| |unfold u32_max; lia|lia|lia].
  by rewrite H2, add64_add_l.
Qed.

Lemma failure_edit_inv now reason t r :
  consecutive_failures r < u32_max -> record_inv t r ->
  record_inv t (failure_edit now (degrade_threshold t) (disable_threshold t) reason r).
Proof.
  intros Hc [H1 H2 H3 H4 H5]. unfold failure_edit.
  assert (Ha : add32 (consecutive_failures r) 1 = consecutive_failures r + 1).
  { unfold add32, u32_max in *. apply Z.mod_small. lia. }
  assert (Hlen : (length (if Nat.ltb 10 (length (recent_failures r ++ [reason]))
    then drop 1 (recent_failures r ++ [reason]) else recent_failures r ++ [reason]) <= 10)%nat).
  { rewrite !length_app. simpl length. destruct (Nat.ltb_spec 10 (length (recent_failures r) + 1)).
    - rewrite length_drop, length_app. simpl. lia.
    - rewrite length_app. simpl. lia. }
  rewrite Ha. destruct (Z.leb_spec (disable_threshold t) (consecutive_failures r + 1)).
  - split; cbn -[drop]; [exact Hlen|by rewrite H2, add64_add_r|lia|done|done].
  - destruct (Z.leb_spec (degrade_threshold t) (consecutive_failures r + 1));
      split; cbn -[drop]; first [exact Hlen|by rewrite H2, add64_add_r|lia|done].
Qed.

Lemma maybe_recover_inv now t r :
  0 < degrade_threshold t -> record_inv t r -> record_inv t (maybe_recover now (recovery_minutes t) r).
Proof.
  intros Hd Hr. unfold maybe_recover. case_bool_decide; [done|].
  destruct (parse_rfc3339 _); [|done]. destruct (Z.leb _ _); [|done].
  destruct Hr as [H1 H2 H3 H4 H5]. split; simpl; [done|done|unfold u32_max; lia|lia|done].
Qed.

Lemma edit_inv now name f t :
  tracker_inv t -> record_inv t (f (entry now name t)) -> tracker_inv (edit now name f t).
Proof.
  intros (Hd & Hm & Hr) Hf. split; [done|split; [done|]]. intros n r. simpl.
  rewrite lookup_insert. case_decide; [intros [= <-]|intros Hn; apply Hr in Hn].
  - by destruct Hf; split.
  - by destruct Hn; split.
Qed.

Lemma entry_inv now name t : tracker_inv t -> record_inv t (entry now name t).
Proof.
  intros (Hd & Hm & Hr). unfold entry. destruct (records t !! name) eqn:Hn; simpl; [by eapply Hr|].
  apply new_record_inv. lia.
Qed.

Lemma tracker_step_inv t t' : tracker_inv t -> tracker_step t t' -> tracker_inv t'.
Proof.
  intros Hinv Hs. pose proof Hinv as (Hd & Hm & Hr).
  destruct Hs as [now name t|now name reason t r Hn Hc|now name reason t Hn|name t|now name t|now t].
  - apply edit_inv; [done|]. apply success_edit_inv; [done|by apply entry_inv].
  - apply edit_inv; [done|]. apply failure_edit_inv; [|by apply entry_inv].
    unfold entry. by rewrite Hn.
  - apply edit_inv; [done|]. apply failure_edit_inv; [|by apply entry_inv].
    unfold entry. rewrite Hn. simpl. unfold u32_max. lia.
  - split; [done|split; [done|]]. intros n r. simpl. rewrite lookup_delete_Some.
    intros [_ Hn]. apply Hr in Hn. by destruct Hn; split.
  - unfold is_available. destruct (records t !! name) as [r|] eqn:Hn; [|done]. simpl.
    split; [done|split; [done|]]. intros n r'. simpl. rewrite lookup_insert.
    case_decide; [intros [= <-]|intros Hn'; apply Hr in Hn'; by destruct Hn'; split].
    assert (Hi : record_inv t (maybe_recover now (recovery_minutes t) r)).
    { apply maybe_recover_inv; [lia|by eapply Hr]. }
    by destruct Hi; split.
  - split; [done|split; [done|]]. intros n r. simpl. rewrite lookup_fmap.
    destruct (records t !! n) as [r0|] eqn:Hn; [|done]. intros [= <-].
    assert (Hi : record_inv t (maybe_recover now (recovery_minutes t) r0)).
    { apply maybe_recover_inv; [lia|by eapply Hr]. }
    by destruct Hi; split.
Qed.

(** In every state the tracker can reach, whatever operations run
    at whatever times: at most ten failure reasons are kept per tool, the
    call count is the sum of the two outcome counts (modulo [2^64]), a
    healthy tool has fewer consecutive failures than the degrade threshold
    and a degraded one fewer than the disable threshold. *)
Theorem tracker_invariant t :
  reachable (fun s => s = new_tracker) tracker_step t ->
  forall name r, records t !! name = Some r -> record_inv t r.
Proof.
  intros Ht. apply (reachable_invariant _ _ tracker_inv) in Ht; [apply Ht| |].
  - intros s ->. split; [simpl; lia|]. split; [simpl; unfold u32_max; lia|].
    intros name r. simpl. by rewrite lookup_empty.
  - intros s s'. apply tracker_step_inv.
Qed.

(** ** A run of failures disables, time re-enables *)

Context `{!ClockLaws}.

Lemma failures_consecutive now name reasons t :
  0 <= consecutive_failures (entry now name t) ->
  consecutive_failures (entry now name t) + Z.of_nat (length reasons) <= u32_max ->
  let t' := foldl (fun t reason => record_failure now name reason t) t reasons in
  consecutive_failures (entry now name t') =
    consecutive_failures (entry now name t) + Z.of_nat (length reasons) /\
  disable_threshold t' = disable_threshold t /\ degrade_threshold t' = degrade_threshold t /\
  recovery_minutes t' = recovery_minutes t.
Proof.
  revert t. induction reasons as [|reason reasons IH]; intros t Hc Hlen; simpl; [lia|].
  set (t1 := record_failure now name reason t).
  assert (H1 : consecutive_failures (entry now name t1) =
               consecutive_failures (entry now name t) + 1).
  { unfold t1, record_failure, edit. unfold entry at 1. simpl. rewrite lookup_insert_eq. simpl.
    unfold failure_edit. simpl in Hlen.
    assert (add32 (consecutive_failures (entry now name t)) 1 =
            consecutive_failures (entry now name t) + 1) as ->.
    { unfold add32, u32_max in *. apply Z.mod_small. lia. }
    by destruct (Z.leb _ _); [|destruct (Z.leb _ _)]. }
  simpl in Hlen. destruct (IH t1) as (Hc' & Hrest); [lia|lia|]. split; [|done]. lia.
Qed.

(** Enough failures in a row disable a tool, and only time brings it back: when
    the failures recorded at [now] bring the run up to the disable threshold,
    [is_available] answers [false] at any later instant less than
    [recovery_minutes] away and [true] from then on, and the recovery clears the
    run of failures. *)
Lemma failures_disable now name reasons t later :
  reasons <> [] -> 0 <= consecutive_failures (entry now name t) ->
  disable_threshold t <= consecutive_failures (entry now name t) + Z.of_nat (length reasons) <= u32_max ->
  0 <= recovery_minutes t -> now <= later ->
  let t' := foldl (fun t reason => record_failure now name reason t) t reasons in
  let '(available, t'') := is_available later name t' in
  (available = true <-> recovery_minutes t * 60000 <= later - now) /\
  (available = true -> exists r, records t'' !! name = Some r /\
     tool_status r = Healthy /\ consecutive_failures r = 0).
Proof.
  intros Hne Hc Hlen Hrm Hlater t'. unfold t'. clear t'.
  destruct reasons as [|reason reasons _] using rev_ind; [done|].
  rewrite foldl_app. simpl. rewrite length_app in *. simpl in *.
  destruct (failures_consecutive now name reasons t) as (Hc' & Hdt & Hgt & Hrt); [lia|lia|].
  set (t1 := foldl _ t reasons) in *. unfold is_available, record_failure, edit. simpl.
  rewrite lookup_insert_eq. unfold failure_edit.
  assert (add32 (consecutive_failures (entry now name t1)) 1 =
          consecutive_failures (entry now name t1) + 1) as ->.
  { unfold add32, u32_max in *. apply Z.mod_small. lia. }
  rewrite (proj2 (Z.leb_le _ _)) by lia. unfold maybe_recover. simpl. rewrite parse_print.
  assert (Hq : 60000 * Z.quot (later - now) 60000 <= later - now <
               60000 * Z.quot (later - now) 60000 + 60000).
  { rewrite Z.quot_div_nonneg by lia. pose proof (Z.div_mod (later - now) 60000 ltac:(lia)).
    pose proof (Z.mod_pos_bound (later - now) 60000 ltac:(lia)). lia. }
  rewrite Hrt. destruct (Z.leb_spec (recovery_minutes t) (Z.quot (later - now) 60000)); simpl.
  - split; [split; [lia|done]|]. intros _. eexists. rewrite lookup_insert_eq. done.
  - split; [split; [done|lia]|done].
Qed.

(** A success clears the run of failures but does not by itself re-enable a
    disabled tool. *)
Lemma success_keeps_disabled now name t r :
  records t !! name = Some r -> tool_status r = Disabled ->
  exists r', records (record_success now name t) !! name = Some r' /\ tool_status r' = Disabled.
Proof.
  intros Hr Hs. unfold record_success, edit, entry. rewrite Hr. simpl. rewrite lookup_insert_eq.
  eexists. split; [done|]. simpl. by rewrite Hs.
Qed.
End Health.

(** A concrete clock for the witnesses. *)
Definition demo_clock : Clock :=
  {| to_rfc3339 := fun t => String.string_of_list_ascii
        (replicate (Z.to_nat t) (Ascii.ascii_of_nat 49) ++
         replicate (Z.to_nat (- t)) (Ascii.ascii_of_nat 48));
     parse_rfc3339 := fun s =>
        let l := String.list_ascii_of_string s in
        Some (match l with
              | c :: _ => if Ascii.eqb c (Ascii.ascii_of_nat 48) then - Z.of_nat (length l)
                          else Z.of_nat (length l)
              | [] => 0
              end) |}.

Lemma demo_clock_laws : @ClockLaws demo_clock.
Proof.
  split. intros t. simpl. rewrite String.list_ascii_of_string_of_list_ascii. f_equal.
  destruct t as [|p|p]; [done| |].
  - simpl Z.to_nat at 2. rewrite app_nil_r. rewrite length_replicate.
    destruct (Z.to_nat (Z.pos p)) as [|n] eqn:Hn; simpl; lia.
  - change (Z.to_nat (Z.neg p)) with 0%nat. simpl app. rewrite length_replicate.
    destruct (Z.to_nat (- Z.neg p)) as [|n] eqn:Hn; simpl; lia.
Qed.

Lemma tracker_invariant_witness :
  exists r, records (@record_success demo_clock 0 "Bash" new_tracker) !! "Bash"%string = Some r /\
    (length (recent_failures r) <= 10)%nat.
Proof.
  exists (@success_edit demo_clock 0 (@entry demo_clock 0 "Bash" new_tracker)).
  assert (Hl : records (@record_success demo_clock 0 "Bash" new_tracker) !! "Bash"%string =
               Some (@success_edit demo_clock 0 (@entry demo_clock 0 "Bash" new_tracker))).
  { apply lookup_insert_eq. }
  split; [exact Hl|].
  refine (inv_recent _ _ (@tracker_invariant demo_clock _ _ "Bash" _ Hl)).
  eapply reach_step; [by apply reach_init|]. apply step_success.
Defined.
