(* ===== verification/ToolExec.v ===== *)
(** * ToolExec: [tools/executor.rs] and [tools/trait_def.rs]

    Running the tool calls a model asks for: validation, permission, the
    interactive prompt and the directory grants it can leave, the call itself,
    and the bookkeeping that gives every request its result.

    What the tools do is their own: a [Tool] carries its methods.  The user's
    answers, the moment of an abort and the result store on disk are the
    environment ([ExecEnv]).  The state the executor shares with the rest of the
    daemon is a [Bridge]. *)

From stdpp Require Import base gmap strings list fin_maps.
From Stdlib Require Import ZArith Lia.
From S2P Require Import Prelude Text Permissions Json Paths Float64 ToolHealth.
Import Manager.

#[local] Open Scope Z_scope.

Section Executor.
Context `{J : Json} `{FS : FileSystem} `{Clk : Clock}.

(** ** Data: [trait_def.rs] *)

Record ToolResult := mkToolResult { data : Value; is_error : bool }.

Inductive ValidationResult :=
| Valid
| Invalid (message : string) (code : option string).

Inductive ToolPermissionCheckResult :=
| CheckAllow (updated_input : Value)
| CheckAsk (message : string) (updated_input : Value)
| CheckDeny (message : string).

Inductive ToolError :=
| ExecutionFailed (e : string)
| Timeout (ms : Z)
| Aborted
| Io (e : string)
| Serialization (e : string).

(** [Display for ToolError]. *)
Definition tool_error_to_string (e : ToolError) : string :=
  match e with
  | ExecutionFailed s => "Tool execution failed: " +:+ s
  | Timeout ms => "Tool timed out after " +:+ show_nat (Z.to_nat ms) +:+ "ms"
  | Aborted => "Tool was aborted"
  | Io s => "IO error: " +:+ s
  | Serialization s => "Serialization error: " +:+ s
  end.

(** The part of [ToolContext] the executor reads. *)
Record ToolContext := mkToolContext {
  cwd : Path;
  abort_signal : bool;
  tool_result_store : option (string -> string -> option string)
}.

(** [dyn Tool]: a call sees the two live grant lists. *)
Record Tool := mkTool {
  name : string;
  aliases : list string;
  is_read_only : Value -> bool;
  is_concurrency_safe : Value -> bool;
  max_result_size_chars : nat;
  aborts_internally : bool;
  validate_input : Value -> ToolContext -> ValidationResult;
  check_permissions : Value -> ToolContext -> ToolPermissionCheckResult;
  call : Value -> ToolContext -> list Path -> list Path -> result ToolResult ToolError
}.

Record ToolUseRequest := mkRequest { req_id : string; req_name : string; input : Value }.

Record ToolExecutionResult := mkExec {
  tool_use_id : string; result_name : string; output : Value; failed : bool }.

(** The event a prompt sends. *)
Record PermissionRequest := mkPrompt {
  prompt_tool : string; prompt_input : Value; prompt_id : string;
  prompt_timeout : Z; target_path : option string }.

(** [PermissionBridge], with the configuration files written, the prompts
    sent and the tool calls begun (newest last). *)
Record Bridge := mkBridge {
  manager : ToolPermissionContext;
  granted_dirs : list Path;
  granted_write_dirs : list Path;
  saved : list ToolPermissionContext;
  prompts : list PermissionRequest;
  called : list string
}.

Definition set_manager (m : ToolPermissionContext) (b : Bridge) : Bridge :=
  mkBridge m (granted_dirs b) (granted_write_dirs b) (saved b) (prompts b) (called b).
Definition set_granted (l : list Path) (b : Bridge) : Bridge :=
  mkBridge (manager b) l (granted_write_dirs b) (saved b) (prompts b) (called b).
Definition set_write (l : list Path) (b : Bridge) : Bridge :=
  mkBridge (manager b) (granted_dirs b) l (saved b) (prompts b) (called b).
Definition save_config (b : Bridge) : Bridge :=
  mkBridge (manager b) (granted_dirs b) (granted_write_dirs b) (saved b ++ [manager b])
    (prompts b) (called b).
Definition send_prompt (p : PermissionRequest) (b : Bridge) : Bridge :=
  mkBridge (manager b) (granted_dirs b) (granted_write_dirs b) (saved b) (prompts b ++ [p])
    (called b).
Definition log_call (id : string) (b : Bridge) : Bridge :=
  mkBridge (manager b) (granted_dirs b) (granted_write_dirs b) (saved b) (prompts b)
    (called b ++ [id]).

(** What the wait on the gate ends with. *)
Inductive Wait :=
| Answered (d : Gate.PermissionDecision)
| ChannelClosed
| TimedOut.

Record ExecEnv := mkEnv {
  answer : string -> Wait;          (* the end of the wait on a prompt *)
  abort_wins : string -> bool;      (* the abort fires before the call ends *)
  tool_output_threshold : nat;      (* [config::tool_output_threshold()] *)
  dispatched_at : string -> Z       (* the clock when a request is dispatched *)
}.

(** What a batch of requests works on: the bridge and the daemon's health
    tracker, when there is one. *)
Record World := mkWorld { bridge : Bridge; tool_health : option ToolHealthTracker }.

Definition fail_with (tool : Tool) (req : ToolUseRequest) (msg : string) : ToolExecutionResult :=
  mkExec (req_id req) (name tool) (json_string msg) true.

(** ** Calling a tool *)

(** [call_tool_with_abort]: a tool that manages its own cancellation is not
    raced. *)
Definition call_tool_with_abort (e : ExecEnv) (tool : Tool) (req : ToolUseRequest)
    (ctx : ToolContext) (b : Bridge) : result ToolResult ToolError * Bridge :=
  let b' := log_call (req_id req) b in
  let run := call tool (input req) ctx (granted_dirs b) (granted_write_dirs b) in
  (if aborts_internally tool then run
   else if abort_wins e (req_id req) then Err Aborted else run, b').

Definition truncated_note (n : nat) : string :=
  string_of (Ascii.ascii_of_nat <$> [10; 10]%nat) +:+
  "[Result truncated: output exceeded " +:+ show_nat n +:+ " characters]".

(** [maybe_persist_or_truncate]. *)
Definition maybe_persist_or_truncate (d : Value) (max_size_chars : nat) (ctx : ToolContext)
    (id : string) : Value :=
  match to_json_string d with
  | None => d
  | Some serialized =>
      if Nat.leb (str_len serialized) max_size_chars then d
      else
        let persisted :=
          store ← tool_result_store ctx;
          store (match as_str d with Some s => s | None => default "" (to_json_string d) end) id in
        match persisted with
        | Some formatted => json_string formatted
        | None => json_string (truncate_chars max_size_chars serialized +:+
                               truncated_note max_size_chars)
        end
  end.

(** The end of both paths: wrap what the call returned. *)
Definition wrap_result (e : ExecEnv) (tool : Tool) (req : ToolUseRequest) (ctx : ToolContext)
    (r : result ToolResult ToolError) : ToolExecutionResult :=
  match r with
  | Ok res =>
      let max_size := Nat.min (max_result_size_chars tool) (tool_output_threshold e) in
      mkExec (req_id req) (name tool)
        (maybe_persist_or_truncate (data res) max_size ctx (req_id req)) (is_error res)
  | Err err => fail_with tool req ("Tool execution error: " +:+ tool_error_to_string err)
  end.

(** [execute_tool]: the direct, fail-closed path. *)
Definition execute_tool (e : ExecEnv) (tool : Tool) (req : ToolUseRequest) (ctx : ToolContext)
    (b : Bridge) : ToolExecutionResult * Bridge :=
  let proceed := let '(r, b') := call_tool_with_abort e tool req ctx b in
                 (wrap_result e tool req ctx r, b') in
  match validate_input tool (input req) ctx with
  | Invalid m _ => (fail_with tool req ("Validation error: " +:+ m), b)
  | Valid =>
      match check_permissions tool (input req) ctx with
      | CheckAllow _ => proceed
      | CheckDeny m => (fail_with tool req ("Permission denied: " +:+ m), b)
      | CheckAsk m _ =>
          if is_read_only tool (input req) then proceed
          else (fail_with tool req
                  ("Permission denied: confirmation required for non-read-only tool '" +:+
                   name tool +:+ "' (" +:+ m +:+
                   "); interactive permission channel not available in direct execution mode"), b)
      end
  end.

(** [call_tool_and_wrap]: with the early exit on an abort; the error object
    it returns is built by [json!]. *)
Context (abort_output : Value).

Definition call_tool_and_wrap (e : ExecEnv) (tool : Tool) (req : ToolUseRequest)
    (ctx : ToolContext) (b : Bridge) : ToolExecutionResult * Bridge :=
  if abort_signal ctx then (mkExec (req_id req) (name tool) abort_output true, b)
  else let '(r, b') := call_tool_with_abort e tool req ctx b in (wrap_result e tool req ctx r, b').

(** ** Targets outside the working directory *)

Definition lexical_target (path : string) (cwd : Path) : option Path :=
  if is_empty path then None
  else match resolve_and_validate_path path cwd [] with
       | Ok _ => None
       | Err _ => Some (normalize_path (join cwd (components path)))
       end.

(** [out_of_cwd_search_target]. *)
Definition out_of_cwd_search_target (tool : string) (v : Value) (cwd : Path) : option Path :=
  if negb (String.eqb tool "GlobTool") && negb (String.eqb tool "GrepTool")
     && negb (String.eqb tool "FileRead") then None
  else
    path ← str_field v (if String.eqb tool "FileRead" then "file_path" else "path");
    lexical_target (trim path) cwd.

(** [out_of_cwd_write_target]. *)
Definition out_of_cwd_write_target (tool : string) (v : Value) (cwd : Path) : option Path :=
  if negb (String.eqb tool "FileWrite") && negb (String.eqb tool "FileEdit")
     && negb (String.eqb tool "NotebookEditTool") then None
  else
    path ← str_field v (if String.eqb tool "NotebookEditTool" then "notebook_path" else "file_path");
    lexical_target (trim path) cwd.

(** [dir_granted], [push_granted_dir]. *)
Definition dir_granted (dirs : list Path) (target : Path) : bool :=
  existsb (path_starts_with target) dirs.
Definition push_granted_dir (dirs : list Path) (d : Path) : list Path := dirs ++ [d].

(** [Drop for OneShotGrantGuard]: the first entry equal to [d] goes. *)
Definition drop_grant (d : Path) (dirs : list Path) : list Path :=
  match position (fun x => bool_decide (x = d)) dirs with
  | Some i => remove_at i dirs
  | None => dirs
  end.

(** ** The prompt *)

(** Which grant a prompt is about, if any. *)
Inductive Grant := SearchGrant (d : Path) | WriteGrant (d : Path) | NoGrant.

(** What to do with a request the manager answers [Ask] for: call without a
    prompt, or prompt. *)
Definition ask_route (tool : Tool) (req : ToolUseRequest) (ctx : ToolContext) (b : Bridge) :
    option Grant :=
  if is_read_only tool (input req) then
    match out_of_cwd_search_target (name tool) (input req) (cwd ctx) with
    | None => None
    | Some target => if dir_granted (granted_dirs b) target then None else Some (SearchGrant target)
    end
  else
    match out_of_cwd_write_target (name tool) (input req) (cwd ctx) with
    | Some target =>
        if dir_granted (granted_write_dirs b) target then None else Some (WriteGrant target)
    | None => Some NoGrant
    end.

Definition decision_of (w : Wait) : Gate.PermissionDecision :=
  match w with Answered d => d | ChannelClosed | TimedOut => Gate.Deny end.

Definition grant_path (g : Grant) : option Path :=
  match g with SearchGrant d | WriteGrant d => Some d | NoGrant => None end.

(** A one-shot "Allow": the grant exists for exactly this call. *)
Definition allow_once (e : ExecEnv) (tool : Tool) (req : ToolUseRequest) (ctx : ToolContext)
    (g : Grant) (b : Bridge) : ToolExecutionResult * Bridge :=
  match g with
  | SearchGrant d =>
      let b1 := set_granted (push_granted_dir (granted_dirs b) d) b in
      let '(r, b2) := call_tool_and_wrap e tool req ctx b1 in
      (r, set_granted (drop_grant d (granted_dirs b2)) b2)
  | WriteGrant d =>
      let b1 := set_write (push_granted_dir (granted_write_dirs b) d) b in
      let '(r, b2) := call_tool_and_wrap e tool req ctx b1 in
      (r, set_write (drop_grant d (granted_write_dirs b2)) b2)
  | NoGrant => call_tool_and_wrap e tool req ctx b
  end.

Definition maybe_save (persist : bool) (b : Bridge) : Bridge := if persist then save_config b else b.

(** The directory an "Always allow" opens. *)
Definition always_dir (tool : Tool) (g : Grant) : option Path :=
  match g with
  | SearchGrant d => Some (if String.eqb (name tool) "FileRead" then default d (parent d) else d)
  | WriteGrant d => Some (default d (parent d))
  | NoGrant => None
  end.

(** "Always allow": a directory grant, or a whole-tool rule when the prompt
    was not about a directory. *)
Definition allow_always (persist : bool) (tool : Tool) (rule : option string) (g : Grant)
    (b : Bridge) : Bridge :=
  match g with
  | SearchGrant d =>
      let dir := if String.eqb (name tool) "FileRead" then default d (parent d) else d in
      let b1 := set_granted (push_granted_dir (granted_dirs b) dir) b in
      maybe_save persist (set_manager (push_search_dir (join_slash dir) (manager b1)) b1)
  | WriteGrant d =>
      let dir := default d (parent d) in
      let b1 := set_write (push_granted_dir (granted_write_dirs b) dir) b in
      maybe_save persist (set_manager (push_write_dir (join_slash dir) (manager b1)) b1)
  | NoGrant =>
      maybe_save persist
        (set_manager (add_allow_always_rule "user" (name tool) rule (manager b)) b)
  end.

(** [execute_tool_with_permission]. *)
Definition execute_tool_with_permission (e : ExecEnv) (tool : Tool) (req : ToolUseRequest)
    (ctx : ToolContext) (b : Bridge) : ToolExecutionResult * Bridge :=
  match validate_input tool (input req) ctx with
  | Invalid m _ => (fail_with tool req ("Validation error: " +:+ m), b)
  | Valid =>
      match check_permission (manager b) (name tool) (to_json_string (input req)) with
      | Allow => call_tool_and_wrap e tool req ctx b
      | Deny m => (fail_with tool req ("Permission denied: " +:+ m), b)
      | Ask _ =>
          match ask_route tool req ctx b with
          | None => call_tool_and_wrap e tool req ctx b
          | Some g =>
              let timeout := ask_timeout_duration (manager b) in
              let b1 := send_prompt
                          (mkPrompt (name tool) (input req) (req_id req) (Z.max timeout 1)
                             (join_slash <$> grant_path g)) b in
              match decision_of (answer e (req_id req)) with
              | Gate.Allow => allow_once e tool req ctx g b1
              | Gate.AllowAlways rule =>
                  call_tool_and_wrap e tool req ctx
                    (allow_always (persist_grants (manager b)) tool rule g b1)
              | Gate.Deny => (fail_with tool req "Permission denied by user", b1)
              end
          end
      end
  end.

(** ** Many requests *)

(** [dispatch_tool]: the tracker is asked first, and may recover the tool. *)
Definition disabled_msg (tool : Tool) : string :=
  string_of (Ascii.ascii_of_nat <$> [240; 159; 154; 171]%nat) +:+ " Tool '" +:+ name tool +:+
  "' is temporarily disabled after repeated failures. Use an alternative tool or try again later.".

Definition ask_health (now : Z) (tool : Tool) (h : option ToolHealthTracker) :
    bool * option ToolHealthTracker :=
  match h with
  | None => (true, None)
  | Some t => let '(ok, t') := is_available now (name tool) t in (ok, Some t')
  end.

Definition dispatch_tool (e : ExecEnv) (gated : bool) (tool : Tool) (req : ToolUseRequest)
    (ctx : ToolContext) (w : World) : ToolExecutionResult * World :=
  let '(ok, h) := ask_health (dispatched_at e (req_id req)) tool (tool_health w) in
  if negb ok then (fail_with tool req (disabled_msg tool), mkWorld (bridge w) h)
  else
    let '(r, b) := if gated then execute_tool_with_permission e tool req ctx (bridge w)
                   else execute_tool e tool req ctx (bridge w) in
    (r, mkWorld b h).

(** [find_tool]. *)
Definition find_tool (tools : list Tool) (n : string) : option Tool :=
  let n := to_ascii_lowercase n in
  List.find (fun t => String.eqb (to_ascii_lowercase (name t)) n
                      || existsb (fun a => String.eqb (to_ascii_lowercase a) n) (aliases t)) tools.

(** The three work lists of [execute_tools]. *)
Record Plan := mkPlan {
  concurrent : list (nat * ToolUseRequest * Tool);
  sequential : list (nat * ToolUseRequest * Tool);
  not_found : list (nat * ToolUseRequest)
}.

Definition plan_one (tools : list Tool) (p : Plan) (idx : nat) (req : ToolUseRequest) : Plan :=
  match find_tool tools (req_name req) with
  | Some t =>
      if is_concurrency_safe t (input req)
      then mkPlan (concurrent p ++ [(idx, req, t)]) (sequential p) (not_found p)
      else mkPlan (concurrent p) (sequential p ++ [(idx, req, t)]) (not_found p)
  | None => mkPlan (concurrent p) (sequential p) (not_found p ++ [(idx, req)])
  end.

Fixpoint plan_from (tools : list Tool) (p : Plan) (idx : nat) (reqs : list ToolUseRequest) : Plan :=
  match reqs with
  | [] => p
  | r :: rest => plan_from tools (plan_one tools p idx r) (S idx) rest
  end.

(** Running work items in some order, writing each result into its slot. *)
Definition run_item (e : ExecEnv) (gated : bool) (ctx : ToolContext)
    (st : list (option ToolExecutionResult) * World) (item : nat * ToolUseRequest * Tool) :
    list (option ToolExecutionResult) * World :=
  let '(idx, req, tool) := item in
  let '(r, w) := dispatch_tool e gated tool req ctx st.2 in
  (<[idx := Some r]> st.1, w).

Definition not_found_result (req : ToolUseRequest) : ToolExecutionResult :=
  mkExec (req_id req) (req_name req)
    (json_string ("Tool '" +:+ req_name req +:+ "' not found")) true.

Definition unfilled (req : ToolUseRequest) : ToolExecutionResult :=
  mkExec (req_id req) (req_name req)
    (json_string "Internal error: tool execution slot not filled") true.

(** [execute_tools]; [order] is the order in which the concurrent calls
    happen to run. *)
Definition execute_tools (e : ExecEnv) (gated : bool)
    (order : list (nat * ToolUseRequest * Tool) -> list (nat * ToolUseRequest * Tool))
    (tools : list Tool) (reqs : list ToolUseRequest) (ctx : ToolContext) (w : World) :
    list ToolExecutionResult * World :=
  let p := plan_from tools (mkPlan [] [] []) 0 reqs in
  let st0 := (replicate (length reqs) None, w) in
  let st1 := foldl (run_item e gated ctx) st0 (order (concurrent p)) in
  let '(slots, w') := foldl (run_item e gated ctx) st1 (sequential p) in
  let slots := foldl (fun sl '(idx, req) => <[idx := Some (not_found_result req)]> sl) slots
                 (not_found p) in
  (zip_with (fun slot req => default (unfilled req) slot) slots reqs, w').
End Executor.
