(* ===== verification/ToolExecProofs.v ===== *)
(** * ToolExecProofs: what the tool executor guarantees

    A tool runs only when validation, rules and user let it; a grant reaches
    exactly as far as the answer that made it; every request gets its own
    result. *)

From stdpp Require Import base gmap strings list fin_maps.
From Stdlib Require Import ZArith Lia.
From S2P Require Import Prelude Text Permissions Json Paths Float64 ToolHealth ToolExec.
Import Manager.

#[local] Open Scope Z_scope.

(** ** One-shot grants on the shared list *)

Lemma position_app_new {A} (f : A -> bool) l x :
  (forall y, y ∈ l -> f y = false) -> f x = true -> position f (l ++ [x]) = Some (length l).
Proof.
  intros Hl Hx. induction l as [|y l IH]; simpl; [by rewrite Hx|].
  rewrite (Hl y) by (by left). rewrite IH; [done|]. intros z Hz. apply Hl. by right.
Qed.

Lemma drop_grant_fresh d dirs : d ∉ dirs -> drop_grant d (push_granted_dir dirs d) = dirs.
Proof.
  intros Hd. unfold drop_grant, push_granted_dir. rewrite position_app_new.
  - unfold remove_at. rewrite take_app_length, drop_ge; [apply app_nil_r|].
    rewrite length_app. simpl. lia.
  - intros y Hy. apply bool_decide_eq_false. by intros ->.
  - by apply bool_decide_eq_true.
Qed.

Lemma occ_drop_grant d x dirs :
  occ x (drop_grant d dirs) = (occ x dirs - if decide (x = d) then 1 else 0)%nat.
Proof.
  unfold drop_grant. induction dirs as [|y dirs IH]; simpl; [by case_decide|].
  case_bool_decide as Hy; simpl.
  - subst y. unfold remove_at. simpl. rewrite drop_0. case_decide; simpl; lia.
  - destruct (position _ dirs) as [i|]; simpl in *.
    + unfold remove_at in *. simpl. rewrite IH. repeat case_decide; subst; simpl; lia || done.
    + rewrite IH. repeat case_decide; subst; simpl; lia || done.
Qed.

(** Concurrent calls interleave their pushes and drops on one list. *)
Inductive grant_op := PushGrant (d : Path) | DropGrant (d : Path).

Definition apply_op (dirs : list Path) (o : grant_op) : list Path :=
  match o with
  | PushGrant d => push_granted_dir dirs d
  | DropGrant d => drop_grant d dirs
  end.

Definition pushes (d : Path) (ops : list grant_op) : nat :=
  sum_list ((fun o => match o with PushGrant d' => if decide (d = d') then 1 else 0 | _ => 0 end)%nat <$> ops).
Definition drops (d : Path) (ops : list grant_op) : nat :=
  sum_list ((fun o => match o with DropGrant d' => if decide (d = d') then 1 else 0 | _ => 0 end)%nat <$> ops).

Lemma pushes_snoc d ops o :
  pushes d (ops ++ [o]) =
  (pushes d ops + match o with PushGrant d' => if decide (d = d') then 1 else 0 | _ => 0 end)%nat.
Proof. unfold pushes. rewrite fmap_app, sum_list_with_app. simpl. lia. Qed.

Lemma drops_snoc d ops o :
  drops d (ops ++ [o]) =
  (drops d ops + match o with DropGrant d' => if decide (d = d') then 1 else 0 | _ => 0 end)%nat.
Proof. unfold drops. rewrite fmap_app, sum_list_with_app. simpl. lia. Qed.

(** One-shot grants never interfere: however the pushes and drops of
    concurrent tool calls interleave on the shared grant list, as long as each
    call drops its grant after pushing it, once every call has ended the list
    holds each directory exactly as often as before; a grant made by someone
    else is never lost and a one-shot grant never stays. *)
Theorem one_shot_grants_balanced dirs ops :
  (forall k d, drops d (take k ops) <= pushes d (take k ops))%nat ->
  (forall d, drops d ops = pushes d ops) ->
  forall d, occ d (foldl apply_op dirs ops) = occ d dirs.
Proof.
  intros Hpre Hend d.
  assert (Hgen : forall k, (k <= length ops)%nat ->
            (occ d (foldl apply_op dirs (take k ops)) + drops d (take k ops) =
             occ d dirs + pushes d (take k ops))%nat).
  { induction k as [|k IH]; intros Hk; [done|].
    destruct (lookup_lt_is_Some_2 ops k) as [o Ho]; [lia|].
    specialize (IH ltac:(lia)). pose proof (Hpre (S k) d) as Hle.
    rewrite (take_S_r _ _ _ Ho) in Hle |- *.
    rewrite drops_snoc, pushes_snoc in Hle |- *. rewrite foldl_app. destruct o as [d'|d']; simpl in *.
    - unfold push_granted_dir. rewrite occ_app. simpl. case_decide; lia.
    - rewrite occ_drop_grant. case_decide; lia. }
  specialize (Hgen (length ops) ltac:(lia)). rewrite firstn_all in Hgen.
  specialize (Hend d). lia.
Qed.

(** ** The gated path *)

Section Gated.
Context `{J : Json} `{FS : FileSystem} (abort_output : Value).

Lemma starts_with_refl p : path_starts_with p p = true.
Proof. by apply starts_with_iff. Qed.

Lemma ask_route_fresh tool req ctx b g :
  ask_route tool req ctx b = Some g ->
  match g with
  | SearchGrant d => d ∉ granted_dirs b
  | WriteGrant d => d ∉ granted_write_dirs b
  | NoGrant => True
  end.
Proof.
  assert (Hfresh : forall dirs d, dir_granted dirs d = false -> d ∉ dirs).
  { intros dirs d Hg Hin. apply not_true_iff_false in Hg. apply Hg, existsb_elem.
    exists d. split; [done|apply starts_with_refl]. }
  unfold ask_route. destruct (is_read_only tool (input req)).
  - destruct (out_of_cwd_search_target _ _ _) as [t|]; [|done].
    destruct (dir_granted (granted_dirs b) t) eqn:Hg; [done|]. intros [= <-]. by apply Hfresh.
  - destruct (out_of_cwd_write_target _ _ _) as [t|]; [|by intros [= <-]].
    destruct (dir_granted (granted_write_dirs b) t) eqn:Hg; [done|]. intros [= <-]. by apply Hfresh.
Qed.

(** A call changes nothing of the bridge but the log. *)
Lemma call_frame e tool req ctx b :
  let '(r, b') := call_tool_and_wrap abort_output e tool req ctx b in
  b' = (if abort_signal ctx then b else log_call (req_id req) b) /\
  (abort_signal ctx = true -> failed r = true) /\
  tool_use_id r = req_id req /\ result_name r = name tool.
Proof.
  unfold call_tool_and_wrap. destruct (abort_signal ctx); [done|].
  unfold call_tool_with_abort, wrap_result. by repeat case_match; simplify_eq/=.
Qed.

Lemma allow_once_frame e tool req ctx b g :
  ask_route tool req ctx b = Some g ->
  forall b1, granted_dirs b1 = granted_dirs b -> granted_write_dirs b1 = granted_write_dirs b ->
  let '(r, b') := allow_once abort_output e tool req ctx g b1 in
  b' = (if abort_signal ctx then b1 else log_call (req_id req) b1) /\
  (abort_signal ctx = true -> failed r = true) /\
  tool_use_id r = req_id req /\ result_name r = name tool.
Proof.
  intros Hg b1 Hd Hw. pose proof (ask_route_fresh _ _ _ _ _ Hg) as Hfresh.
  unfold allow_once. destruct g as [d|d|]; [..|apply call_frame].
  - set (b2 := set_granted _ b1). pose proof (call_frame e tool req ctx b2) as Hc.
    destruct (call_tool_and_wrap _ _ _ _ _ b2) as [r b3]. destruct Hc as (-> & Hc).
    split; [|done]. rewrite <- Hd in Hfresh. unfold b2.
    destruct (abort_signal ctx); simpl; rewrite drop_grant_fresh by done; by destruct b1.
  - set (b2 := set_write _ b1). pose proof (call_frame e tool req ctx b2) as Hc.
    destruct (call_tool_and_wrap _ _ _ _ _ b2) as [r b3]. destruct Hc as (-> & Hc).
    split; [|done]. rewrite <- Hw in Hfresh. unfold b2.
    destruct (abort_signal ctx); simpl; rewrite drop_grant_fresh by done; by destruct b1.
Qed.

(** The request needs no prompt: it reads, and its search target, if it has
    one outside the project, lies in a granted directory; or it writes outside
    the project, to a target in a directory granted for writing. *)
Definition needs_no_prompt (tool : Tool) (req : ToolUseRequest) (ctx : ToolContext) (b : Bridge) :
    Prop :=
  if is_read_only tool (input req) then
    forall t, out_of_cwd_search_target (name tool) (input req) (cwd ctx) = Some t ->
              exists d, d ∈ granted_dirs b /\ d `prefix_of` t
  else
    exists t d, out_of_cwd_write_target (name tool) (input req) (cwd ctx) = Some t /\
                d ∈ granted_write_dirs b /\ d `prefix_of` t.

(** The wait ended with a yes: no timeout, no closed channel. *)
Definition user_agreed (e : ExecEnv) (req : ToolUseRequest) : Prop :=
  answer e (req_id req) = Answered Gate.Allow \/
  exists rule, answer e (req_id req) = Answered (Gate.AllowAlways rule).

(** The decision the gated path should come to: the request is valid, and the
    rules allow it, or they ask and it needs no prompt or the user said yes. *)
Definition permitted (e : ExecEnv) (tool : Tool) (req : ToolUseRequest) (ctx : ToolContext)
    (b : Bridge) : Prop :=
  validate_input tool (input req) ctx = Valid /\
  match check_permission (manager b) (name tool) (to_json_string (input req)) with
  | Allow => True
  | Deny _ => False
  | Ask _ => needs_no_prompt tool req ctx b \/ user_agreed e req
  end.

Lemma dir_granted_iff dirs t :
  dir_granted dirs t = true <-> exists d, d ∈ dirs /\ d `prefix_of` t.
Proof.
  unfold dir_granted. rewrite existsb_elem. by setoid_rewrite starts_with_iff.
Qed.

Lemma ask_route_none tool req ctx b :
  ask_route tool req ctx b = None <-> needs_no_prompt tool req ctx b.
Proof.
  unfold ask_route, needs_no_prompt. destruct (is_read_only tool (input req)).
  - destruct (out_of_cwd_search_target _ _ _) as [t|]; [|naive_solver].
    pose proof (dir_granted_iff (granted_dirs b) t) as Hg.
    destruct (dir_granted (granted_dirs b) t); naive_solver.
  - destruct (out_of_cwd_write_target _ _ _) as [t|]; [|naive_solver].
    pose proof (dir_granted_iff (granted_write_dirs b) t) as Hg.
    destruct (dir_granted (granted_write_dirs b) t); naive_solver.
Qed.

Lemma decision_agreed e req :
  decision_of (answer e (req_id req)) <> Gate.Deny <-> user_agreed e req.
Proof. unfold user_agreed. destruct (answer e (req_id req)) as [[]| |]; naive_solver. Qed.

Lemma maybe_save_fields p b :
  called (maybe_save p b) = called b /\ manager (maybe_save p b) = manager b /\
  granted_dirs (maybe_save p b) = granted_dirs b /\
  granted_write_dirs (maybe_save p b) = granted_write_dirs b.
Proof. by destruct p. Qed.

Lemma allow_always_called p tool rule g b : called (allow_always p tool rule g b) = called b.
Proof. destruct g, p; done. Qed.

(** The same, with the executor's own notions of prompt and decision. *)
Lemma gated_call_core e tool req ctx b :
  let '(r, b') := execute_tool_with_permission abort_output e tool req ctx b in
  tool_use_id r = req_id req /\
  (called b' = called b ++ [req_id req] <->
     (validate_input tool (input req) ctx = Valid /\
      match check_permission (manager b) (name tool) (to_json_string (input req)) with
      | Allow => True
      | Deny _ => False
      | Ask _ => ask_route tool req ctx b = None \/ decision_of (answer e (req_id req)) <> Gate.Deny
      end) /\ abort_signal ctx = false) /\
  (called b' <> called b ++ [req_id req] -> called b' = called b /\ failed r = true).
Proof.
  assert (Hneq : forall l (x : string), l <> l ++ [x]).
  { intros l x Hl. apply (f_equal length) in Hl. rewrite length_app in Hl. simpl in Hl. lia. }
  unfold execute_tool_with_permission.
  destruct (validate_input tool (input req) ctx) as [|m c]; simpl.
  2:{ split; [done|]. split; [|done]. split; [by intros ?%Hneq|by intros [[? _] _]]. }
  assert (Hcall : forall b1 (P : Prop), called b1 = called b -> P ->
    let '(r, b') := call_tool_and_wrap abort_output e tool req ctx b1 in
    tool_use_id r = req_id req /\
    (called b' = called b ++ [req_id req] <-> (Valid = Valid /\ P) /\ abort_signal ctx = false) /\
    (called b' <> called b ++ [req_id req] -> called b' = called b /\ failed r = true)).
  { intros b1 P Hb1 HP. pose proof (call_frame e tool req ctx b1) as Hc.
    destruct (call_tool_and_wrap _ _ _ _ _ b1) as [r b2]. destruct Hc as (-> & Hf & Hid & _).
    split; [done|]. destruct (abort_signal ctx); simpl; rewrite Hb1.
    - split; [|auto]. split; [by intros ?%Hneq|by intros [_ ?]].
    - split; [by split|]. by intros Hx. }
  destruct (check_permission _ _ _) as [|m|m].
  - by apply (Hcall b True).
  - destruct (ask_route tool req ctx b) as [g|] eqn:Hg.
    2:{ apply Hcall; [done|by left]. }
    set (b1 := send_prompt _ b).
    assert (Hyes : decision_of (answer e (req_id req)) <> Gate.Deny ->
      Some g = None \/ decision_of (answer e (req_id req)) <> Gate.Deny) by (by right).
    destruct (decision_of (answer e (req_id req))) as [| |rule] eqn:Hdec.
    + pose proof (allow_once_frame e tool req ctx b g Hg b1 eq_refl eq_refl) as Hc.
      destruct (allow_once _ _ _ _ _ g b1) as [r b2]. destruct Hc as (-> & Hf & Hid & _).
      split; [done|]. destruct (abort_signal ctx); simpl.
      * split; [|auto]. split; [by intros ?%Hneq|by intros [_ ?]].
      * split; [|by intros Hx]. split; [|done]. intros _. split; [|done]. split; [done|by right].
    + simpl. split; [done|]. split; [|done].
      split; [by intros ?%Hneq|by intros [[_ [?|?]] _]].
    + apply Hcall; [by rewrite allow_always_called|by right].
  - simpl. split; [done|]. split; [|done]. split; [by intros ?%Hneq|by intros [[_ ?] _]].
Qed.

(** Claim C14. No call without permission: on the gated path the tool is
    called at most once and exactly when the request is permitted and the
    turn is not already aborted; whenever it is not called the result is an
    error, and in every case the result carries the id of the request. *)
Theorem gated_call_iff_permitted e tool req ctx b :
  let '(r, b') := execute_tool_with_permission abort_output e tool req ctx b in
  tool_use_id r = req_id req /\
  (called b' = called b ++ [req_id req] <->
     permitted e tool req ctx b /\ abort_signal ctx = false) /\
  (called b' <> called b ++ [req_id req] -> called b' = called b /\ failed r = true).
Proof.
  pose proof (gated_call_core e tool req ctx b) as Hc. unfold permitted.
  destruct (execute_tool_with_permission _ _ _ _ _ b) as [r b'].
  destruct (check_permission _ _ _) as [|m|m]; [exact Hc| |exact Hc].
  rewrite ask_route_none, decision_agreed in Hc. exact Hc.
Qed.

(** What a gated execution may leave behind: nothing, or the grant of an
    "Always allow" answer. *)
Definition left_behind (tool : Tool) (g : Grant) (rule : option string) (b b' : Bridge) : Prop :=
  match g with
  | SearchGrant d =>
      let dir := if String.eqb (name tool) "FileRead" then default d (parent d) else d in
      granted_dirs b' = granted_dirs b ++ [dir] /\
      granted_write_dirs b' = granted_write_dirs b /\
      manager b' = push_search_dir (join_slash dir) (manager b)
  | WriteGrant d =>
      granted_dirs b' = granted_dirs b /\
      granted_write_dirs b' = granted_write_dirs b ++ [default d (parent d)] /\
      manager b' = push_write_dir (join_slash (default d (parent d))) (manager b)
  | NoGrant =>
      granted_dirs b' = granted_dirs b /\ granted_write_dirs b' = granted_write_dirs b /\
      manager b' = add_allow_always_rule "user" (name tool) rule (manager b)
  end.

Lemma allow_always_left p tool rule g b : left_behind tool g rule b (allow_always p tool rule g b).
Proof. destruct g, p; done. Qed.

(** A permission decision reaches exactly as far as it says.
    Running a request leaves the grant lists and the rules as they were
    (a one-shot "Allow" included, whose directory is gone when the call
    ends), except after an "Always allow" answer to its own prompt, which
    leaves: for a search outside the project that one directory in the
    search list, for a write outside the project the target's parent in the
    write list, and only otherwise a rule for the tool.  So a read grant
    never becomes a write grant, and a tool rule never opens a directory. *)
Theorem grants_scoped e tool req ctx b :
  let '(_, b') := execute_tool_with_permission abort_output e tool req ctx b in
  (granted_dirs b' = granted_dirs b /\ granted_write_dirs b' = granted_write_dirs b /\
   manager b' = manager b) \/
  (exists g rule, ask_route tool req ctx b = Some g /\
     answer e (req_id req) = Answered (Gate.AllowAlways rule) /\ left_behind tool g rule b b').
Proof.
  unfold execute_tool_with_permission.
  destruct (validate_input tool (input req) ctx) as [|m c]; [|by left].
  assert (Hcall : forall b1, exists r b2, call_tool_and_wrap abort_output e tool req ctx b1 = (r, b2) /\
    granted_dirs b2 = granted_dirs b1 /\ granted_write_dirs b2 = granted_write_dirs b1 /\
    manager b2 = manager b1).
  { intros b1. pose proof (call_frame e tool req ctx b1) as Hc.
    destruct (call_tool_and_wrap _ _ _ _ _ b1) as [r b2]. destruct Hc as (-> & _).
    eexists _, _. split; [done|]. by destruct (abort_signal ctx). }
  destruct (check_permission _ _ _) as [|m|m]; [|..|by left].
  - destruct (Hcall b) as (r & b2 & -> & H1 & H2 & H3). by left.
  - destruct (ask_route tool req ctx b) as [g|] eqn:Hg.
    2:{ destruct (Hcall b) as (r & b2 & -> & H1 & H2 & H3). by left. }
    set (b1 := send_prompt _ b).
    destruct (answer e (req_id req)) as [d| |] eqn:Ha; simpl; [|by left|by left].
    destruct d as [| |rule]; [|by left|].
    + pose proof (allow_once_frame e tool req ctx b g Hg b1 eq_refl eq_refl) as Hc.
      destruct (allow_once _ _ _ _ _ g b1) as [r b2]. destruct Hc as (-> & _). left.
      by destruct (abort_signal ctx).
    + destruct (Hcall (allow_always (persist_grants (manager b)) tool rule g b1))
        as (r & b2 & -> & H1 & H2 & H3). right. exists g, rule. split; [done|]. split; [done|].
      pose proof (allow_always_left (persist_grants (manager b)) tool rule g b1) as Hl.
      unfold left_behind in *. destruct g; simpl in *; by rewrite H1, H2, H3.
Qed.

Lemma parent_prefix d : path_starts_with d (default d (parent d)) = true.
Proof.
  apply starts_with_iff. unfold parent. destruct (last d) as [c|]; [|done].
  destruct c; try done; exists (drop (length d - 1) d); simpl; by rewrite take_drop.
Qed.

(** "Always allow" is remembered: after that answer to a prompt
    about a directory, the same request (and any other request of the tool
    for the same target) needs no further prompt. *)
Theorem always_allow_remembered e tool req ctx b g rule r b' req' :
  execute_tool_with_permission abort_output e tool req ctx b = (r, b') ->
  validate_input tool (input req) ctx = Valid ->
  (exists m, check_permission (manager b) (name tool) (to_json_string (input req)) = Ask m) ->
  ask_route tool req ctx b = Some g -> g <> NoGrant ->
  answer e (req_id req) = Answered (Gate.AllowAlways rule) ->
  ask_route tool req' ctx b = Some g ->
  ask_route tool req' ctx b' = None.
Proof.
  intros Hexec Hv [m Hm] Hg Hne Ha Hg'. unfold execute_tool_with_permission in Hexec.
  rewrite Hv, Hm, Hg, Ha in Hexec. simpl in Hexec.
  set (b1 := send_prompt _ b) in *.
  set (b2 := allow_always _ _ _ _ _) in *.
  pose proof (call_frame e tool req ctx b2) as Hc. rewrite Hexec in Hc. destruct Hc as (Hb' & _).
  pose proof (allow_always_left (persist_grants (manager b)) tool rule g b1) as Hl.
  fold b2 in Hl.
  assert (Hd : granted_dirs b' = granted_dirs b2 /\ granted_write_dirs b' = granted_write_dirs b2).
  { subst b'. by destruct (abort_signal ctx). }
  destruct Hd as [Hd Hw]. clear Hg Hexec. unfold ask_route in *.
  assert (Hgr : forall dirs t dir, path_starts_with t dir = true ->
            dir_granted (dirs ++ [dir]) t = true).
  { intros dirs t dir Ht. apply existsb_elem. exists dir. split; [set_solver|done]. }
  destruct (is_read_only tool (input req')).
  - destruct (out_of_cwd_search_target _ _ _) as [t|]; [|done].
    destruct (dir_granted (granted_dirs b) t); [done|]. injection Hg' as <-.
    destruct Hl as (Hl & _). rewrite Hd, Hl, Hgr; [done|].
    destruct (String.eqb (name tool) "FileRead"); [apply parent_prefix|apply starts_with_refl].
  - destruct (out_of_cwd_write_target _ _ _) as [t|]; [|by injection Hg' as <-].
    destruct (dir_granted (granted_write_dirs b) t); [done|]. injection Hg' as <-.
    destruct Hl as (_ & Hl & _). rewrite Hw, Hl, Hgr; [done|apply parent_prefix].
Qed.

(** ** Output bounds *)

(** Large outputs never reach the model whole: an output whose
    serialization fits the limit is passed on unchanged; otherwise it is
    replaced by the block of the result store when the store takes it, and
    else by at most the limit's number of characters, a prefix of the
    serialization, with the truncation note. *)
Theorem output_bounded d max ctx id s :
  to_json_string d = Some s ->
  let out := maybe_persist_or_truncate d max ctx id in
  ((str_len s <= max)%nat -> out = d) /\
  ((max < str_len s)%nat ->
     match tool_result_store ctx ≫= fun store => store (default s (as_str d)) id with
     | Some block => out = json_string block
     | None => exists t, out = json_string (t +:+ truncated_note max) /\
                    bytes_of t `prefix_of` bytes_of s /\ (char_count (bytes_of t) <= max)%nat
     end).
Proof.
  intros Hs out. subst out. unfold maybe_persist_or_truncate. rewrite Hs.
  destruct (Nat.leb_spec (str_len s) max) as [Hle|Hgt]; [split; [done|lia]|].
  split; [lia|]. intros _.
  replace (match as_str d with Some s0 => s0 | None => default "" (Some s) end)
    with (default s (as_str d)) by (by destruct (as_str d)).
  simpl. destruct (tool_result_store ctx) as [store|]; simpl;
    [destruct (store (default s (as_str d)) id); [done|]|];
    exists (truncate_chars max s); (split; [done|]); unfold truncate_chars;
    rewrite String.list_ascii_of_string_of_list_ascii;
    (split; [apply take_chars_prefix|apply take_chars_count]).
Qed.
End Gated.

(** ** One result per request *)

Section Many.
Context `{J : Json} `{FS : FileSystem} `{Clk : Clock} (abort_output : Value).
Context (e : ExecEnv) (gated : bool) (ctx : ToolContext).
Context (tools : list Tool) (reqs : list ToolUseRequest).

Abbreviation dispatch := (dispatch_tool abort_output e gated).

Lemma plan_from_spec l done p :
  reqs = done ++ l ->
  let p' := plan_from tools p (length done) l in
  (forall idx req t, (idx, req, t) ∈ concurrent p' ++ sequential p' ->
     (idx, req, t) ∈ concurrent p ++ sequential p \/
     reqs !! idx = Some req /\ find_tool tools (req_name req) = Some t) /\
  (forall idx req, (idx, req) ∈ not_found p' ->
     (idx, req) ∈ not_found p \/
     reqs !! idx = Some req /\ find_tool tools (req_name req) = None) /\
  (forall idx req, (length done <= idx)%nat -> reqs !! idx = Some req ->
     (exists t, (idx, req, t) ∈ concurrent p' ++ sequential p') \/ (idx, req) ∈ not_found p') /\
  (forall x, x ∈ concurrent p ++ sequential p -> x ∈ concurrent p' ++ sequential p') /\
  (forall x, x ∈ not_found p -> x ∈ not_found p').
Proof.
  revert done p. induction l as [|q l IH]; intros done p Hreqs; simpl.
  { split_and!; try (by left); try done.
    intros idx req Hle Hidx. rewrite Hreqs, app_nil_r in Hidx.
    apply lookup_lt_Some in Hidx. lia. }
  assert (Hq : reqs !! length done = Some q) by (rewrite Hreqs; by apply list_lookup_middle).
  destruct (IH (done ++ [q]) (plan_one tools p (length done) q)) as (H1 & H2 & H3 & H4 & H5).
  { by rewrite Hreqs, <- (assoc_L (++)). }
  rewrite length_app in *. simpl in *. rewrite Nat.add_1_r in *.
  unfold plan_one in *. destruct (find_tool tools (req_name q)) as [t|] eqn:Ht.
  - assert (Hone : exists c s, plan_one tools p (length done) q = mkPlan c s (not_found p) /\
       forall x, x ∈ c ++ s <-> x ∈ concurrent p ++ sequential p \/ x = (length done, q, t)).
    { unfold plan_one. rewrite Ht.
      destruct (is_concurrency_safe t (input q)); eexists _, _; split; try done;
        intros x; set_solver. }
    destruct Hone as (c & s & Hone & Hcs). unfold plan_one in Hone. rewrite Ht in Hone.
    rewrite Hone in *. simpl in *. split_and!; [| | | |by auto].
    + intros idx req t' Hin. destruct (H1 _ _ _ Hin) as [Hc|?]; [|by right].
      apply Hcs in Hc as [?|[= -> -> ->]]; [by left|by right].
    + done.
    + intros idx req Hle Hidx. destruct (decide (idx = length done)) as [->|Hne].
      * left. exists t. apply H4, Hcs. right. congruence.
      * apply H3; [lia|done].
    + intros x Hx. apply H4, Hcs. by left.
  - simpl in *. split_and!; [done| | |done|].
    + intros idx req Hin. destruct (H2 _ _ Hin) as [Hc|?]; [|by right].
      apply elem_of_app in Hc as [?|Hc]; [by left|right].
      apply list_elem_of_singleton in Hc as [= -> ->]. done.
    + intros idx req Hle Hidx. destruct (decide (idx = length done)) as [->|Hne].
      * right. apply H5, elem_of_app. right. apply list_elem_of_singleton. congruence.
      * apply H3; [lia|done].
    + intros x Hx. apply H5, elem_of_app. by left.
Qed.

(** What a filled slot holds. *)
Definition result_for (req : ToolUseRequest) (r : ToolExecutionResult) : Prop :=
  match find_tool tools (req_name req) with
  | Some t => exists w, r = (dispatch t req ctx w).1
  | None => r = not_found_result req
  end.

Definition good_slots (sl : list (option ToolExecutionResult)) : Prop :=
  length sl = length reqs /\
  forall idx r req, sl !! idx = Some (Some r) -> reqs !! idx = Some req -> result_for req r.

Definition filled (sl : list (option ToolExecutionResult)) (idx : nat) : Prop :=
  exists r, sl !! idx = Some (Some r).

Lemma good_insert sl idx req r :
  good_slots sl -> reqs !! idx = Some req -> result_for req r ->
  good_slots (<[idx := Some r]> sl) /\ filled (<[idx := Some r]> sl) idx /\
  forall j, filled sl j -> filled (<[idx := Some r]> sl) j.
Proof.
  intros [Hlen Hgood] Hreq Hr.
  assert (Hlt : (idx < length sl)%nat) by (rewrite Hlen; by eapply lookup_lt_Some).
  split_and!.
  - split; [by rewrite length_insert|]. intros j r' req'. destruct (decide (idx = j)) as [<-|Hne].
    + rewrite list_lookup_insert_eq by done. intros [= <-] Hj. congruence.
    + rewrite list_lookup_insert_ne by done. apply Hgood.
  - exists r. by apply list_lookup_insert_eq.
  - intros j [r' Hj]. destruct (decide (idx = j)) as [<-|Hne].
    + exists r. by apply list_lookup_insert_eq.
    + exists r'. by rewrite list_lookup_insert_ne.
Qed.

Lemma run_items_good l sl b :
  (forall idx req t, (idx, req, t) ∈ l ->
     reqs !! idx = Some req /\ find_tool tools (req_name req) = Some t) ->
  good_slots sl ->
  let sl' := (foldl (run_item abort_output e gated ctx) (sl, b) l).1 in
  good_slots sl' /\ (forall idx req t, (idx, req, t) ∈ l -> filled sl' idx) /\
  forall j, filled sl j -> filled sl' j.
Proof.
  revert sl b. induction l as [|[[idx req] t] l IH]; intros sl b Hl Hg.
  { split_and!; [done|by intros ? ? ? ?%not_elem_of_nil|done]. }
  destruct (Hl idx req t) as [Hreq Ht]; [by left|]. cbn [foldl]. unfold run_item at 2.
  destruct (dispatch t req ctx b) as [r b'] eqn:Hd. simpl.
  destruct (good_insert sl idx req r Hg Hreq) as (Hg' & Hf & Hkeep).
  { unfold result_for. rewrite Ht. exists b. by rewrite Hd. }
  rewrite Hd. simpl.
  destruct (IH (<[idx:=Some r]> sl) b') as (H1 & H2 & H3); [intros; apply Hl; by right|done|].
  split_and!; [done| |auto]. intros idx' req' t' Hin. apply elem_of_cons in Hin as [[= -> -> ->]|Hin];
    [by apply H3|by eapply H2].
Qed.

Lemma not_found_good l sl :
  (forall idx req, (idx, req) ∈ l ->
     reqs !! idx = Some req /\ find_tool tools (req_name req) = None) ->
  good_slots sl ->
  let sl' := foldl (fun sl '(idx, req) => <[idx := Some (not_found_result req)]> sl) sl l in
  good_slots sl' /\ (forall idx req, (idx, req) ∈ l -> filled sl' idx) /\
  forall j, filled sl j -> filled sl' j.
Proof.
  revert sl. induction l as [|[idx req] l IH]; intros sl Hl Hg.
  { split_and!; [done|by intros ? ? ?%not_elem_of_nil|done]. }
  destruct (Hl idx req) as [Hreq Ht]; [by left|]. cbn [foldl].
  destruct (good_insert sl idx req (not_found_result req) Hg Hreq) as (Hg' & Hf & Hkeep).
  { unfold result_for. by rewrite Ht. }
  destruct (IH _ ltac:(intros; apply Hl; by right) Hg') as (H1 & H2 & H3).
  split_and!; [done| |auto]. intros idx' req' Hin. apply elem_of_cons in Hin as [[= -> ->]|Hin];
    [by apply H3|by eapply H2].
Qed.

(** Whatever path it takes, a result carries the id of its request. *)
Lemma execute_tool_id tool req b :
  tool_use_id (execute_tool e tool req ctx b).1 = req_id req.
Proof.
  unfold execute_tool, call_tool_with_abort, wrap_result.
  repeat (case_match; simplify_eq/=; try done).
Qed.

Lemma dispatch_id t req w : tool_use_id (dispatch t req ctx w).1 = req_id req.
Proof.
  unfold dispatch_tool. destruct (ask_health _ t (tool_health w)) as [[] h]; [|done]. simpl.
  destruct gated.
  - pose proof (gated_call_core abort_output e t req ctx (bridge w)) as Hc.
    by destruct (execute_tool_with_permission _ _ _ _ _ _) as [r b], Hc.
  - pose proof (execute_tool_id t req (bridge w)) as Hi.
    by destruct (execute_tool _ _ _ _ _).
Qed.

Lemma result_for_id req r : result_for req r -> tool_use_id r = req_id req.
Proof.
  unfold result_for. destruct (find_tool tools (req_name req)); [|by intros ->].
  intros [w ->]. apply dispatch_id.
Qed.

Lemma results_ids (results : list ToolExecutionResult) :
  length results = length reqs ->
  (forall k req, reqs !! k = Some req -> exists r, results !! k = Some r /\ result_for req r) ->
  (tool_use_id <$> results) = (req_id <$> reqs).
Proof.
  intros Hlen Hall. apply list_eq. intros k. rewrite !list_lookup_fmap.
  destruct (reqs !! k) as [req|] eqn:Hk.
  - destruct (Hall k req Hk) as (r & -> & Hr). simpl. by rewrite (result_for_id req r).
  - apply lookup_ge_None in Hk. rewrite lookup_ge_None_2 by lia. done.
Qed.

(** All slots are filled with their requests' results. *)
Lemma execute_tools_results order w :
  (forall l, order l ≡ₚ l) ->
  let results := (execute_tools abort_output e gated order tools reqs ctx w).1 in
  length results = length reqs /\
  forall k req, reqs !! k = Some req -> exists r, results !! k = Some r /\ result_for req r.
Proof.
  intros Horder. unfold execute_tools.
  pose proof (plan_from_spec reqs [] (mkPlan [] [] []) eq_refl) as (H1 & H2 & H3 & _).
  simpl in H1, H2, H3. set (p := plan_from _ _ _ _) in *.
  assert (Hitem : forall idx req t, (idx, req, t) ∈ concurrent p ++ sequential p ->
            reqs !! idx = Some req /\ find_tool tools (req_name req) = Some t).
  { intros idx req t Hin. destruct (H1 _ _ _ Hin) as [Hc|?]; [by apply not_elem_of_nil in Hc|done]. }
  assert (Hg0 : good_slots (replicate (length reqs) None)).
  { split; [apply length_replicate|]. intros idx r req Hs _.
    by apply lookup_replicate in Hs as [? _]. }
  destruct (run_items_good (order (concurrent p)) (replicate (length reqs) None) w) as (Hg1 & Hf1 & _); [|exact Hg0|].
  { intros idx req t Hin. rewrite Horder in Hin. apply Hitem, elem_of_app. by left. }
  destruct (foldl _ (replicate (length reqs) None, w) (order (concurrent p))) as [sl1 b1].
  simpl in Hg1, Hf1.
  destruct (run_items_good (sequential p) sl1 b1) as (Hg2 & Hf2 & Hk2); [|exact Hg1|].
  { intros idx req t Hin. apply Hitem, elem_of_app. by right. }
  destruct (foldl _ (sl1, b1) (sequential p)) as [sl2 b2]. simpl in Hg2, Hf2, Hk2.
  destruct (not_found_good (not_found p) sl2) as (Hg3 & Hf3 & Hk3); [|exact Hg2|].
  { intros idx req Hin. destruct (H2 _ _ Hin) as [Hc|?]; [by apply not_elem_of_nil in Hc|done]. }
  set (sl3 := foldl _ sl2 (not_found p)) in *. simpl.
  destruct Hg3 as [Hlen Hgood]. split.
  - rewrite length_zip_with. lia.
  - intros k req Hreq.
    assert (Hfill : filled sl3 k).
    { destruct (H3 k req ltac:(lia) Hreq) as [[t Hin]|Hin]; [|by eapply Hf3].
      apply elem_of_app in Hin as [Hin|Hin]; [|by apply Hk3; eapply Hf2].
      apply Hk3, Hk2. eapply Hf1. by rewrite Horder. }
    destruct Hfill as [r Hr]. exists r. split; [|by eapply Hgood].
    rewrite lookup_zip_with, Hr. simpl. by rewrite Hreq.
Qed.

Lemma execute_tools_ids order w :
  (forall l, order l ≡ₚ l) ->
  (tool_use_id <$> (execute_tools abort_output e gated order tools reqs ctx w).1) = (req_id <$> reqs).
Proof. intros Ho. destruct (execute_tools_results order w Ho) as [Hlen Hall]. by apply results_ids. Qed.

(** Every request gets exactly its own result: whatever tools run
    concurrently and in whatever order, [execute_tools] returns one result
    per request in the order of the requests; the result of a request whose
    name resolves is what dispatching that tool on that request returned,
    and a request whose name does not resolve gets the not-found error.  The
    "slot not filled" fallback is never used, and the results answer the ids
    of the requests one for one. *)
Theorem one_result_per_request order b :
  (forall l, order l ≡ₚ l) ->
  let results := (execute_tools abort_output e gated order tools reqs ctx b).1 in
  (tool_use_id <$> results) = (req_id <$> reqs) /\
  forall k req, reqs !! k = Some req -> exists r, results !! k = Some r /\ result_for req r.
Proof.
  intros Horder results. split; [by apply execute_tools_ids|by apply execute_tools_results].
Qed.
End Many.

(** ** A concrete project *)

Section Demo.
#[local] Existing Instances flat_json symlink_fs demo_clock.

(** A writer and a reader that answer their grants; [/p] is the project. *)
Definition demo_ctx : ToolContext := mkToolContext [RootDir; Normal "p"] false None.

Definition demo_tool (n : string) (ro : bool) : Tool :=
  mkTool n [] (fun _ => ro) (fun _ => ro) 1000 false (fun _ _ => Valid)
    (fun v _ => CheckAsk "confirm" v) (fun _ _ _ _ => Ok (mkToolResult (FStr "ok") false)).

Definition demo_bridge : Bridge := mkBridge default_context [] [] [] [] [].

Definition demo_env (w : Wait) : ExecEnv := mkEnv (fun _ => w) (fun _ => false) 1000 (fun _ => 0).

Definition write_req (path : string) : ToolUseRequest :=
  mkRequest "tu_1" "FileWrite" (FObj [("file_path", FStr path)]).

Lemma one_shot_grants_balanced_witness :
  let a := [RootDir; Normal "a"] in
  let ops := [PushGrant a; PushGrant a; DropGrant a; DropGrant a] in
  occ a (foldl apply_op [a] ops) = 1%nat.
Proof.
  intros a ops.
  assert (Hle : forall k d, (drops d (take k ops) <= pushes d (take k ops))%nat).
  { intros k d. unfold ops, drops, pushes.
    do 5 (destruct k as [|k]; [simpl; repeat case_decide; simpl; lia|]).
    simpl. repeat case_decide; simpl; lia. }
  assert (Heq : forall d, drops d ops = pushes d ops).
  { intros d. unfold ops, drops, pushes. simpl. repeat case_decide; simpl; lia. }
  rewrite (one_shot_grants_balanced [a] ops Hle Heq a). vm_compute. reflexivity.
Defined.

(** "Always allow" of a write to [/q/f] opens [/q], and a write to [/q/g]
    then runs without a prompt. *)
Lemma always_allow_remembered_witness :
  let tool := demo_tool "FileWrite" false in
  let e := demo_env (Answered (Gate.AllowAlways None)) in
  let b' := (execute_tool_with_permission FNull e tool (write_req "/q/f") demo_ctx demo_bridge).2 in
  granted_write_dirs b' = [[RootDir; Normal "q"]] /\
  ask_route tool (write_req "/q/f") demo_ctx b' = None.
Proof.
  intros tool e b'. split; [reflexivity|].
  destruct (@execute_tool_with_permission flat_json symlink_fs FNull e tool (write_req "/q/f") demo_ctx demo_bridge)
    as [r b1] eqn:Hb.
  apply (@always_allow_remembered flat_json symlink_fs FNull e tool (write_req "/q/f") demo_ctx demo_bridge
           (WriteGrant [RootDir; Normal "q"; Normal "f"]) None r b1 (write_req "/q/f") Hb).
  - reflexivity.
  - by exists (ask_msg "FileWrite").
  - reflexivity.
  - discriminate.
  - reflexivity.
  - reflexivity.
Defined.

Lemma output_bounded_witness :
  exists t, maybe_persist_or_truncate (FStr "abcdef") 3 demo_ctx "tu_1" =
            json_string (t +:+ truncated_note 3) /\ (char_count (bytes_of t) <= 3)%nat.
Proof.
  destruct (@output_bounded flat_json (FStr "abcdef") 3 demo_ctx "tu_1" "abcdef" eq_refl) as [_ Hout].
  destruct (Hout ltac:(vm_compute; lia)) as (t & Ht & _ & Hc). exists t. split; [exact Ht|exact Hc].
Defined.

Lemma one_result_per_request_witness :
  let reqs := [write_req "/p/f"; mkRequest "tu_2" "Nope" FNull] in
  let out := (execute_tools FNull (demo_env TimedOut) true reverse
                [demo_tool "FileWrite" false] reqs demo_ctx (mkWorld demo_bridge (Some new_tracker))).1 in
  (tool_use_id <$> out) = ["tu_1"; "tu_2"]%string /\ (failed <$> out) = [true; true].
Proof.
  intros reqs out. split; [|reflexivity].
  apply (@one_result_per_request flat_json symlink_fs demo_clock FNull (demo_env TimedOut) true demo_ctx
           [demo_tool "FileWrite" false] reqs reverse (mkWorld demo_bridge (Some new_tracker))).
  intros l. apply reverse_Permutation.
Defined.
End Demo.
