(* ===== verification/Resilience.v ===== *)
(** * Resilience: [api/retry.rs] and [api/fallback.rs]

    Exponential backoff and the chain of fallback models an overloaded query
    walks through. *)

From stdpp Require Import base gmap strings list fin_maps.
From Stdlib Require Import ZArith Lia.
From S2P Require Import Prelude.

#[local] Open Scope Z_scope.

(** ** Backoff *)

Record RetryConfig := mkRetry { max_retries : Z; initial_delay_ms : Z; max_delay_ms : Z }.

(** [Default for RetryConfig]. *)
Definition default_retry : RetryConfig := mkRetry 3 1000 30000.

(** [u64::saturating_pow]. *)
Definition sat_pow64 (b e : Z) : Z := Z.min (b ^ e) u64_max.

(** [calculate_backoff], in milliseconds. *)
Definition calculate_backoff (attempt : Z) (c : RetryConfig) : Z :=
  Z.min (sat_mul64 (initial_delay_ms c) (sat_pow64 2 attempt)) (max_delay_ms c).

(** Backoff is what its comment says, at every attempt number: the
    saturating arithmetic computes exactly [min(initial * 2^attempt, max)] in
    the integers (no wrap-around, whatever the attempt), so the delay never
    exceeds the maximum and never decreases from one attempt to the next. *)
Theorem backoff_exact attempt c :
  is_u32 attempt -> is_u64 (initial_delay_ms c) -> is_u64 (max_delay_ms c) ->
  calculate_backoff attempt c = Z.min (initial_delay_ms c * 2 ^ attempt) (max_delay_ms c) /\
  0 <= calculate_backoff attempt c <= max_delay_ms c /\
  calculate_backoff attempt c <= calculate_backoff (attempt + 1) c.
Proof.
  intros [Ha _] [Hi1 Hi2] [Hm1 Hm2].
  assert (Hexact : forall n, 0 <= n ->
    calculate_backoff n c = Z.min (initial_delay_ms c * 2 ^ n) (max_delay_ms c)).
  { intros n Hn. unfold calculate_backoff, sat_mul64, sat_pow64.
    pose proof (Z.pow_pos_nonneg 2 n ltac:(lia) Hn) as Hp.
    destruct (Z.le_gt_cases (2 ^ n) u64_max) as [Hle|Hgt].
    - rewrite (Z.min_l (2 ^ n)) by lia. lia.
    - rewrite (Z.min_r (2 ^ n)) by lia.
      destruct (Z.eq_dec (initial_delay_ms c) 0) as [->|Hne]; [lia|].
      assert (u64_max <= initial_delay_ms c * u64_max) by nia.
      assert (u64_max <= initial_delay_ms c * 2 ^ n) by nia. lia. }
  rewrite !Hexact by lia. pose proof (Z.pow_pos_nonneg 2 attempt ltac:(lia) Ha) as Hp.
  rewrite Z.pow_add_r by lia. change (2 ^ 1) with 2. split; [done|]. split; nia.
Qed.

Lemma backoff_exact_witness :
  calculate_backoff 64 default_retry = 30000 /\
  calculate_backoff 3 default_retry <= calculate_backoff 4 default_retry.
Proof.
  split; [reflexivity|].
  apply (backoff_exact 3 default_retry); vm_compute; intuition discriminate.
Defined.

(** ** The fallback chain *)

(** The fields of [BaoclawConfig] the controller reads; a profile is its
    model. *)
Record ChainConfig := mkChainConfig {
  model : string;
  fallback_models : list string;
  model_profiles : gmap string string;
  primary_profile : option string;
  fallback_profiles : list string;
  config_max_retries : Z
}.

Inductive FallbackAction :=
| Retry (model : string) (attempt : Z) (delay : Z)
| Fallback (from to : string)
| Exhausted (models_tried : list string) (total_retries : Z).

Record FallbackController := mkController {
  chain : list string;
  current_index : nat;
  retry_count : Z;
  max_retries_per_model : Z;
  total_retries : Z;
  server_error_count : Z
}.

(** The chain [new] builds: profiles when there are any. *)
Definition model_chain (c : ChainConfig) : list string :=
  if bool_decide (model_profiles c = ∅) then model c :: fallback_models c
  else
    default (model c) (primary_profile c ≫= fun p => model_profiles c !! p)
    :: omap (fun p => model_profiles c !! p) (fallback_profiles c).

(** [FallbackController::new]. *)
Definition new_controller (c : ChainConfig) : FallbackController :=
  mkController (model_chain c) 0 0 (config_max_retries c) 0 0.

(** [self.chain[i]]; the index stays within the chain ([chain_bound]). *)
Definition model_at (f : FallbackController) (i : nat) : string := nth i (chain f) EmptyString.

(** [current_model]. *)
Definition current_model (f : FallbackController) : string := model_at f (current_index f).

Definition next_model (f : FallbackController) : FallbackController :=
  mkController (chain f) (S (current_index f)) 0 (max_retries_per_model f) (total_retries f) 0.

(** [on_rate_limit]. *)
Definition on_rate_limit (f : FallbackController) : FallbackAction * FallbackController :=
  let rc := add32 (retry_count f) 1 in
  let f1 := mkController (chain f) (current_index f) rc (max_retries_per_model f)
              (add32 (total_retries f) 1) (server_error_count f) in
  if Z.ltb rc (max_retries_per_model f) then
    (Retry (current_model f1) rc (calculate_backoff (rc - 1) default_retry), f1)
  else if Nat.ltb (S (current_index f)) (length (chain f)) then
    (Fallback (current_model f1) (model_at f1 (S (current_index f))), next_model f1)
  else (Exhausted (chain f1) (total_retries f1), f1).

(** [on_server_error], [on_server_error_exhausted], [reset]. *)
Definition on_server_error (f : FallbackController) : FallbackController :=
  mkController (chain f) (current_index f) (retry_count f) (max_retries_per_model f)
    (total_retries f) (add32 (server_error_count f) 1).

Definition on_server_error_exhausted (f : FallbackController) :
    FallbackAction * FallbackController :=
  if Nat.ltb (S (current_index f)) (length (chain f)) then
    (Fallback (current_model f) (model_at f (S (current_index f))), next_model f)
  else (Exhausted (chain f) (total_retries f), f).

Definition reset (f : FallbackController) : FallbackController :=
  mkController (chain f) 0 0 (max_retries_per_model f) 0 (server_error_count f).

(** *** The schedule of a rate-limited query *)

Fixpoint rate_limits (n : nat) (f : FallbackController) : list FallbackAction * FallbackController :=
  match n with
  | O => ([], f)
  | S n' =>
      let '(acts, f') := rate_limits n' f in
      let '(a, f'') := on_rate_limit f' in (acts ++ [a], f'')
  end.

(** Attempts per model: a configured 0 still makes one. *)
Definition per_model (m : Z) : Z := Z.max 1 m.

(** What the [n]-th rate limit (from 0) of a fresh controller does. *)
Definition scheduled (l : list string) (m : Z) (n : nat) : FallbackAction :=
  let k := Z.of_nat n / per_model m in
  let j := Z.of_nat n mod per_model m in
  if Z.ltb (j + 1) (per_model m) then
    Retry (nth (Z.to_nat k) l EmptyString) (j + 1) (calculate_backoff j default_retry)
  else if Z.ltb (k + 1) (Z.of_nat (length l)) then
    Fallback (nth (Z.to_nat k) l EmptyString) (nth (Z.to_nat (k + 1)) l EmptyString)
  else Exhausted l (Z.of_nat n + 1).

(** The controller after [n] rate limits, while the chain lasts. *)
Definition controller_at (l : list string) (m : Z) (n : nat) (f : FallbackController) : Prop :=
  chain f = l /\ max_retries_per_model f = m /\ total_retries f = Z.of_nat n /\
  current_index f = Z.to_nat (Z.of_nat n / per_model m) /\
  retry_count f = Z.of_nat n mod per_model m.

Lemma rate_limit_step l m n f :
  0 <= m <= u32_max -> Z.of_nat n + 1 < Z.of_nat (length l) * per_model m ->
  Z.of_nat n + 1 <= u32_max -> controller_at l m n f ->
  (on_rate_limit f).1 = scheduled l m n /\ controller_at l m (S n) (on_rate_limit f).2.
Proof.
  intros Hm Hn Hu (Hc & Hmr & Ht & Hi & Hr).
  assert (Hpm : 0 < per_model m) by (unfold per_model; lia).
  pose proof (Z.div_mod (Z.of_nat n) (per_model m) ltac:(lia)) as Hdm.
  pose proof (Z.mod_pos_bound (Z.of_nat n) (per_model m) Hpm) as Hj.
  pose proof (Z.div_pos (Z.of_nat n) (per_model m) ltac:(lia) Hpm) as Hk.
  set (k := Z.of_nat n / per_model m) in *. set (j := Z.of_nat n mod per_model m) in *.
  assert (Hadd : forall x, 0 <= x -> x + 1 <= u32_max -> add32 x 1 = x + 1).
  { intros x ? ?. unfold add32, u32_max in *. apply Z.mod_small. lia. }
  assert (Hj1 : j + 1 <= u32_max) by (unfold per_model, u32_max in *; lia).
  unfold on_rate_limit, scheduled. fold k j.
  rewrite Hr, Hmr, Hc, Ht, Hi, !Hadd by lia.
  destruct (Z.ltb_spec (j + 1) m) as [Hlt|Hge].
  - assert (Hpmm : per_model m = m) by (unfold per_model; lia).
    rewrite (proj2 (Z.ltb_lt (j + 1) (per_model m))) by lia. simpl.
    split; [by rewrite Z.add_simpl_r|].
    unfold controller_at; simpl; split_and!; [done|done|lia|..].
    + f_equal. apply (Z.div_unique _ _ _ (j + 1)); lia.
    + apply (Z.mod_unique _ _ k); lia.
  - rewrite (proj2 (Z.ltb_ge (j + 1) (per_model m))) by (unfold per_model in *; lia).
    assert (Hjm : j + 1 = per_model m) by (unfold per_model in *; lia).
    assert (Hkl : k + 1 < Z.of_nat (length l)) by nia.
    rewrite (proj2 (Nat.ltb_lt _ _)) by lia. rewrite (proj2 (Z.ltb_lt _ _)) by lia. simpl.
    split; [unfold current_model, model_at; simpl; do 2 f_equal; lia|].
    unfold controller_at; simpl; split_and!; [done|done|lia|..].
    + rewrite <- Z2Nat.inj_succ by lia. f_equal. apply (Z.div_unique _ _ _ 0); lia.
    + apply (Z.mod_unique _ _ (k + 1)); lia.
Qed.

Lemma rate_limits_at c n :
  0 <= config_max_retries c <= u32_max ->
  Z.of_nat n < Z.of_nat (length (model_chain c)) * per_model (config_max_retries c) ->
  Z.of_nat n <= u32_max ->
  let '(acts, f) := rate_limits n (new_controller c) in
  acts = scheduled (model_chain c) (config_max_retries c) <$> seq 0 n /\
  controller_at (model_chain c) (config_max_retries c) n f.
Proof.
  intros Hm. induction n as [|n IH]; intros Hn Hu.
  - simpl. split; [done|]. unfold controller_at. simpl. by rewrite Z.div_0_l, Z.mod_0_l by (unfold per_model; lia).
  - specialize (IH ltac:(lia) ltac:(lia)). cbn [rate_limits].
    destruct (rate_limits n (new_controller c)) as [acts f]. destruct IH as [-> Hf].
    destruct (rate_limit_step (model_chain c) (config_max_retries c) n f Hm ltac:(lia) ltac:(lia) Hf) as [Ha Hf'].
    destruct (on_rate_limit f) as [a f']. simpl in Ha, Hf'. subst a. split; [|done].
    by rewrite seq_S, fmap_app.
Qed.

(** The fallback chain is walked exactly once: a fresh controller
    that only meets rate limits retries each model (with growing backoff) one
    time less than the configured attempts, falls back to the next model, and
    answers [Exhausted] at rate limit number [models * attempts], not before,
    with every model tried and every attempt counted; the model index never
    leaves the chain. *)
Theorem fallback_schedule c n :
  let l := model_chain c in
  let m := config_max_retries c in
  0 <= m <= u32_max -> Z.of_nat (length l) * per_model m <= u32_max ->
  Z.of_nat n = Z.of_nat (length l) * per_model m ->
  (rate_limits n (new_controller c)).1 = scheduled l m <$> seq 0 n /\
  scheduled l m (n - 1) = Exhausted l (Z.of_nat n) /\
  (forall i, (i < n - 1)%nat -> forall tried total, scheduled l m i <> Exhausted tried total).
Proof.
  intros l m Hm Hb Hn.
  assert (Hpm : 0 < per_model m) by (unfold per_model; lia).
  assert (Hl : (0 < length l)%nat).
  { unfold l, model_chain. case_bool_decide; simpl; lia. }
  destruct n as [|n]; [nia|].
  pose proof (rate_limits_at c n Hm ltac:(fold l m; lia) ltac:(lia)) as Hat. fold l m in Hat.
  cbn [rate_limits]. destruct (rate_limits n (new_controller c)) as [acts f].
  destruct Hat as [-> (Hc & Hmr & Ht & Hi & Hr)].
  assert (Hk : Z.of_nat n / per_model m = Z.of_nat (length l) - 1).
  { symmetry. apply (Z.div_unique _ _ _ (per_model m - 1)); lia. }
  assert (Hj : Z.of_nat n mod per_model m = per_model m - 1).
  { symmetry. apply (Z.mod_unique _ _ (Z.of_nat (length l) - 1)); lia. }
  assert (Hlast : scheduled l m n = Exhausted l (Z.of_nat n + 1)).
  { unfold scheduled. rewrite Hk, Hj. rewrite (proj2 (Z.ltb_ge _ _)) by lia.
    by rewrite (proj2 (Z.ltb_ge _ _)) by lia. }
  replace (S n - 1)%nat with n by lia. split_and!.
  - rewrite seq_S, fmap_app, Nat.add_0_l. cbn [fmap list_fmap]. rewrite Hlast.
    unfold on_rate_limit. rewrite Hr, Hmr, Hc, Ht, Hi, Hj, Hk.
    assert (add32 (per_model m - 1) 1 = per_model m) as ->.
    { unfold add32, per_model, u32_max in *. rewrite Z.mod_small; lia. }
    assert (add32 (Z.of_nat n) 1 = Z.of_nat n + 1) as ->.
    { unfold add32, u32_max in *. rewrite Z.mod_small; lia. }
    rewrite (proj2 (Z.ltb_ge _ _)) by (unfold per_model; lia).
    by rewrite (proj2 (Nat.ltb_ge _ _)) by lia.
  - rewrite Hlast. f_equal. lia.
  - intros i Hi' tried total. unfold scheduled.
    pose proof (Z.div_mod (Z.of_nat i) (per_model m) ltac:(lia)) as Hdm.
    pose proof (Z.mod_pos_bound (Z.of_nat i) (per_model m) Hpm) as Hji.
    destruct (Z.ltb_spec (Z.of_nat i mod per_model m + 1) (per_model m)); [done|].
    rewrite (proj2 (Z.ltb_lt _ _)) by nia. done.
Qed.

Lemma fallback_schedule_witness :
  let c := mkChainConfig "a" ["b"] ∅ None [] 2 in
  (rate_limits 4 (new_controller c)).1 =
    [Retry "a" 1 1000; Fallback "a" "b"; Retry "b" 1 1000; Exhausted ["a"; "b"] 4].
Proof.
  intros c.
  destruct (fallback_schedule c 4) as [-> _]; [vm_compute; intuition discriminate..|reflexivity|].
  reflexivity.
Defined.

(** [reset] keeps the count of server errors: a new query starts with the
    errors of the previous one. *)
Example reset_keeps_server_errors :
  server_error_count (reset (on_server_error (new_controller (mkChainConfig "a" [] ∅ None [] 3)))) = 1.
Proof. reflexivity. Qed.
