(* ===== verification/Sse.v ===== *)
(** * Sse: [mcp/sse.rs]

    The server-sent-event parser of the MCP HTTP transports: bytes in
    arbitrary chunks, decoded as UTF-8, cut at blank lines into events. *)

From stdpp Require Import base strings list.
From Stdlib Require Import ZArith Lia.
From S2P Require Import Prelude Text.

#[local] Open Scope nat_scope.

(** ** UTF-8: [std::str::from_utf8]

    The well-formed byte sequences of Unicode's table 3-7. *)

Definition code (b : byte) : nat := Ascii.nat_of_ascii b.
Definition within (lo hi : nat) (b : byte) : bool := Nat.leb lo (code b) && Nat.leb (code b) hi.
Definition cont : byte -> bool := within 128 191.

(** The length of the well-formed character at the head, if there is one. *)
Definition char_len (l : list byte) : option nat :=
  match l with
  | [] => None
  | b :: l' =>
      if within 0 127 b then Some 1
      else if within 194 223 b then
        match l' with c1 :: _ => if cont c1 then Some 2 else None | _ => None end
      else if within 224 239 b then
        match l' with
        | c1 :: c2 :: _ =>
            if (if Nat.eqb (code b) 224 then within 160 191 c1
                else if Nat.eqb (code b) 237 then within 128 159 c1 else cont c1) && cont c2
            then Some 3 else None
        | _ => None
        end
      else if within 240 244 b then
        match l' with
        | c1 :: c2 :: c3 :: _ =>
            if (if Nat.eqb (code b) 240 then within 144 191 c1
                else if Nat.eqb (code b) 244 then within 128 143 c1 else cont c1)
               && cont c2 && cont c3
            then Some 4 else None
        | _ => None
        end
      else None
  end.

(** [valid_up_to]: the longest well-formed prefix, and what follows it. *)
Fixpoint split_valid (fuel : nat) (l : list byte) : list byte * list byte :=
  match fuel with
  | O => ([], l)
  | S fuel' =>
      match char_len l with
      | None => ([], l)
      | Some n => let '(v, r) := split_valid fuel' (drop n l) in (take n l ++ v, r)
      end
  end.

Definition decode (l : list byte) : list byte * list byte := split_valid (length l) l.

(** ** The parser *)

Definition colon : byte := Ascii.ascii_of_nat 58.
Definition space : byte := Ascii.ascii_of_nat 32.

Record SseEvent := mkEvent { event : option (list byte); data : list byte }.

Record SseParser := mkParser { pending_bytes : list byte; buffer : list byte }.

Definition new_parser : SseParser := mkParser [] [].

(** [contains] and [replace] of a CR-LF pair by LF. *)
Fixpoint contains_crlf (l : list byte) : bool :=
  match l with
  | a :: ((b :: _) as l') => (Ascii.eqb a CR && Ascii.eqb b LF) || contains_crlf l'
  | _ => false
  end.

Fixpoint replace_crlf (l : list byte) : list byte :=
  match l with
  | [] => []
  | a :: l' =>
      match l' with
      | b :: l'' => if Ascii.eqb a CR && Ascii.eqb b LF then LF :: replace_crlf l''
                    else a :: replace_crlf l'
      | [] => [a]
      end
  end.

(** [feed]. *)
Definition feed (p : SseParser) (chunk : list byte) : SseParser :=
  let '(text, rest) := decode (pending_bytes p ++ chunk) in
  let buf := buffer p ++ text in
  mkParser rest (if contains_crlf buf then replace_crlf buf else buf).

(** The position of the first blank line: [find] of two LFs. *)
Fixpoint find_blank (l : list byte) : option nat :=
  match l with
  | a :: ((b :: _) as l') =>
      if Ascii.eqb a LF && Ascii.eqb b LF then Some 0 else S <$> find_blank l'
  | _ => None
  end.

(** [split_once(':')]. *)
Fixpoint split_colon (l : list byte) : option (list byte * list byte) :=
  match l with
  | [] => None
  | b :: l' => if Ascii.eqb b colon then Some ([], l')
               else '(f, v) ← split_colon l'; Some (b :: f, v)
  end.

Definition strip_space (l : list byte) : list byte :=
  match l with b :: l' => if Ascii.eqb b space then l' else l | [] => l end.

(** One line of [parse_event_block]: the event name and the data lines. *)
Definition parse_line (st : option (list byte) * list (list byte)) (line : list byte) :
    option (list byte) * list (list byte) :=
  match line with
  | b :: _ => if Ascii.eqb b colon then st
              else
                let '(field, value) :=
                  match split_colon line with
                  | Some (f, v) => (f, strip_space v)
                  | None => (line, [])
                  end in
                if bool_decide (field = bytes_of "event") then (Some value, st.2)
                else if bool_decide (field = bytes_of "data") then (st.1, st.2 ++ [value])
                else st
  | [] => st
  end.

Fixpoint join_lf (l : list (list byte)) : list byte :=
  match l with [] => [] | [x] => x | x :: l' => x ++ LF :: join_lf l' end.

(** [parse_event_block]. *)
Definition parse_event_block (block : list byte) : option SseEvent :=
  let '(ev, data_lines) := foldl parse_line (None, []) (lines block) in
  match data_lines with
  | [] => None
  | _ => Some (mkEvent ev (join_lf data_lines))
  end.

(** [next_event]: the block up to the blank line leaves the buffer whether or
    not it parses to an event. *)
Definition next_event (p : SseParser) : option SseEvent * SseParser :=
  match find_blank (buffer p) with
  | None => (None, p)
  | Some sep => (parse_event_block (take (sep + 2) (buffer p)),
                 mkParser (pending_bytes p) (drop (sep + 2) (buffer p)))
  end.

(** The callers' loop, [while let Some(event) = parser.next_event()]. *)
Fixpoint pump (fuel : nat) (p : SseParser) : list SseEvent * SseParser :=
  match fuel with
  | O => ([], p)
  | S fuel' =>
      match next_event p with
      | (None, p') => ([], p')
      | (Some e, p') => let '(es, p'') := pump fuel' p' in (e :: es, p'')
      end
  end.

(** One byte of the buffer at least goes with each event. *)
Definition pump_all (p : SseParser) : list SseEvent * SseParser := pump (length (buffer p)) p.

Example sse_ex1 :
  pump_all (feed new_parser (bytes_of "event: endpoint" ++ [LF] ++ bytes_of "data: /m" ++ [LF; LF]))
  = ([mkEvent (Some (bytes_of "endpoint")) (bytes_of "/m")], new_parser).
Proof. vm_compute. reflexivity. Qed.

(** ** Decoding and chunks *)

Lemma char_len_bounds l n : char_len l = Some n -> 0 < n <= length l.
Proof. unfold char_len. intros Hc. repeat case_match; simplify_eq/=; lia. Qed.

(** A well-formed character stays one whatever follows. *)
Lemma char_len_app l m n : char_len l = Some n -> char_len (l ++ m) = Some n.
Proof.
  unfold char_len. intros Hc.
  destruct l as [|b [|c1 [|c2 [|c3 l]]]]; simpl in *; repeat case_match; simplify_eq/=; done.
Qed.

Lemma split_valid_fuel f1 f2 l :
  length l <= f1 -> length l <= f2 -> split_valid f1 l = split_valid f2 l.
Proof.
  revert f2 l. induction f1 as [|f1 IH]; intros f2 l H1 H2.
  - destruct l; [|simpl in H1; lia]. by destruct f2.
  - destruct f2 as [|f2]; [destruct l; [done|simpl in H2; lia]|]. simpl.
    destruct (char_len l) as [n|] eqn:Hc; [|done]. apply char_len_bounds in Hc.
    rewrite (IH f2); [done|rewrite length_drop; lia..].
Qed.

Lemma decode_unfold l :
  decode l = match char_len l with
             | None => ([], l)
             | Some n => let '(v, r) := decode (drop n l) in (take n l ++ v, r)
             end.
Proof.
  unfold decode. destruct (length l) as [|k] eqn:Hl.
  { by destruct l. }
  simpl. destruct (char_len l) as [n|] eqn:Hc; [|done]. apply char_len_bounds in Hc.
  rewrite (split_valid_fuel k (length (drop n l))); [done|rewrite length_drop; lia..].
Qed.

Lemma decode_split l v r : decode l = (v, r) -> l = v ++ r.
Proof.
  revert v r. induction l as [l IH] using (well_founded_induction (well_founded_ltof _ length)).
  intros v r. rewrite decode_unfold. destruct (char_len l) as [n|] eqn:Hc; [|by intros [= <- <-]].
  apply char_len_bounds in Hc. destruct (decode (drop n l)) as [v' r'] eqn:Hd. intros [= <- <-].
  rewrite <- (assoc_L (++)), <- (IH (drop n l) ltac:(unfold ltof; rewrite length_drop; lia) _ _ Hd).
  by rewrite take_drop.
Qed.

(** Decoding in two steps: what the first leaves is the start of the second. *)
Lemma decode_app l m v r :
  decode l = (v, r) -> decode (l ++ m) = (let '(v', r') := decode (r ++ m) in (v ++ v', r')).
Proof.
  revert v r. induction l as [l IH] using (well_founded_induction (well_founded_ltof _ length)).
  intros v r. rewrite (decode_unfold l). destruct (char_len l) as [n|] eqn:Hc.
  2:{ intros [= <- <-]. by destruct (decode (l ++ m)). }
  pose proof (char_len_bounds _ _ Hc) as Hn.
  destruct (decode (drop n l)) as [v1 r1] eqn:Hd. intros [= <- <-].
  rewrite (decode_unfold (l ++ m)), (char_len_app l m n Hc).
  rewrite drop_app_le, take_app_le by lia.
  rewrite (IH (drop n l) ltac:(unfold ltof; rewrite length_drop; lia) v1 r1 Hd).
  destruct (decode (r1 ++ m)) as [v2 r2]. by rewrite (assoc_L (++)).
Qed.

(** ** CR-LF and chunks *)

(** No carriage return follows another. *)
Fixpoint no_crcr (l : list byte) : bool :=
  match l with
  | a :: ((b :: _) as l') => negb (Ascii.eqb a CR && Ascii.eqb b CR) && no_crcr l'
  | _ => true
  end.

Lemma no_crcr_tail a l : no_crcr (a :: l) = true -> no_crcr l = true.
Proof. destruct l; [done|]. simpl. by intros [_ ?]%andb_true_iff. Qed.

Lemma replace_without l : contains_crlf l = false -> replace_crlf l = l.
Proof.
  induction l as [|a [|b l] IH]; [done|done|]. intros Hc.
  apply orb_false_iff in Hc as [Hab Hc].
  change (replace_crlf (a :: b :: l)) with
    (if Ascii.eqb a CR && Ascii.eqb b LF then LF :: replace_crlf l else a :: replace_crlf (b :: l)).
  by rewrite Hab, IH.
Qed.

Lemma feed_buffer p chunk :
  feed p chunk = (let '(text, rest) := decode (pending_bytes p ++ chunk) in
                  mkParser rest (replace_crlf (buffer p ++ text))).
Proof.
  unfold feed. destruct (decode _) as [text rest]. f_equal.
  destruct (contains_crlf _) eqn:Hc; [done|]. by rewrite replace_without.
Qed.

Lemma replace_head (a b : byte) (l : list byte) :
  Ascii.eqb a CR && Ascii.eqb b LF = false ->
  replace_crlf (a :: b :: l) = a :: replace_crlf (b :: l).
Proof. intros Hab. simpl. by rewrite Hab. Qed.

(** Replacing a first part early changes nothing, unless two carriage returns
    meet. *)
Lemma replace_app u v :
  no_crcr (u ++ v) = true -> replace_crlf (replace_crlf u ++ v) = replace_crlf (u ++ v).
Proof.
  induction u as [u IH] using (well_founded_induction (well_founded_ltof _ length)). intros Hn.
  destruct u as [|a [|b u]]; [done|done|].
  destruct (Ascii.eqb a CR && Ascii.eqb b LF) eqn:Hab.
  - simpl. rewrite Hab.
    assert (Hn' : no_crcr (u ++ v) = true) by (by do 2 apply no_crcr_tail in Hn).
    specialize (IH u ltac:(unfold ltof; simpl; lia) Hn').
    destruct (replace_crlf u ++ v) as [|c w] eqn:Hw; simpl in *; rewrite Hw; [by rewrite <- IH|].
    change (Ascii.eqb LF CR) with false. simpl. by rewrite <- IH.
  - rewrite (replace_head a b u) by done.
    specialize (IH (b :: u) ltac:(unfold ltof; simpl; lia) (no_crcr_tail _ _ Hn)).
    assert (Hhead : exists w, replace_crlf (b :: u) = b :: w \/
                         (b = CR /\ replace_crlf (b :: u) = LF :: w)).
    { destruct u as [|c u]; [by exists []; left|]. simpl.
      destruct (Ascii.eqb b CR && Ascii.eqb c LF) eqn:Hbc; [|by eexists; left].
      apply andb_true_iff in Hbc as [->%Ascii.eqb_eq _]. eexists. by right. }
    destruct Hhead as [w [Hw|[-> Hw]]].
    + rewrite Hw in IH |- *.
      change (replace_crlf (a :: b :: (w ++ v)) = replace_crlf (a :: b :: (u ++ v))).
      rewrite !(replace_head a b) by done. f_equal. exact IH.
    + rewrite Hw in IH |- *.
      assert (Ha : Ascii.eqb a CR = false).
      { simpl in Hn. apply andb_true_iff in Hn as [Hn _]. apply negb_true_iff in Hn.
        change (Ascii.eqb CR CR) with true in Hn. by rewrite andb_true_r in Hn. }
      change (replace_crlf (a :: LF :: (w ++ v)) = replace_crlf (a :: CR :: (u ++ v))).
      rewrite !(replace_head a) by (by rewrite Ha). f_equal. exact IH.
Qed.

Lemma feed_feed p c1 c2 :
  no_crcr (buffer p ++ (decode (pending_bytes p ++ c1 ++ c2)).1) = true ->
  feed (feed p c1) c2 = feed p (c1 ++ c2).
Proof.
  intros Hn. rewrite !feed_buffer. rewrite (assoc_L (++)) in Hn |- *.
  destruct (decode (pending_bytes p ++ c1)) as [v1 r1] eqn:Hd. simpl.
  rewrite (decode_app _ c2 _ _ Hd) in Hn |- *.
  destruct (decode (r1 ++ c2)) as [v2 r2]. simpl in Hn. f_equal.
  rewrite (assoc_L (++)) in Hn |- *. by apply replace_app.
Qed.

Definition feed_all (p : SseParser) (chunks : list (list byte)) : SseParser := foldl feed p chunks.

Lemma decode_prefix_text l m : (decode l).1 `prefix_of` (decode (l ++ m)).1.
Proof.
  destruct (decode l) as [v r] eqn:Hd. rewrite (decode_app _ m _ _ Hd).
  destruct (decode (r ++ m)) as [v2 r2]. simpl. by exists v2.
Qed.

Lemma no_crcr_prefix l m : l `prefix_of` m -> no_crcr m = true -> no_crcr l = true.
Proof.
  intros [k ->]. induction l as [|a [|b l] IH]; [done|done|]. simpl.
  intros [Hab Hr]%andb_true_iff. rewrite Hab. apply IH. exact Hr.
Qed.

(** Parsing does not depend on how the network cuts the stream:
    feeding any sequence of chunks (splitting UTF-8 characters, CR-LF pairs
    and events anywhere) leaves the parser in the state that feeding their
    concatenation at once leaves, provided the decoded text never holds two
    carriage returns in a row. *)
Theorem chunks_irrelevant p chunk chunks :
  no_crcr (buffer p ++ (decode (pending_bytes p ++ chunk ++ concat chunks)).1) = true ->
  feed_all p (chunk :: chunks) = feed p (chunk ++ concat chunks).
Proof.
  revert chunk. induction chunks as [|c chunks IH] using rev_ind; intros chunk Hn.
  { simpl. by rewrite app_nil_r. }
  rewrite concat_app in Hn |- *. simpl in Hn |- *. rewrite app_nil_r in Hn |- *.
  rewrite (assoc_L (++)) in Hn |- *.
  change (foldl feed (feed p chunk) (chunks ++ [c])) with (feed_all p ((chunk :: chunks) ++ [c])).
  unfold feed_all. rewrite foldl_app. simpl. fold (feed_all p (chunk :: chunks)).
  change (foldl feed (feed p chunk) chunks) with (feed_all p (chunk :: chunks)).
  rewrite <- !(assoc_L (++)) in Hn.
  rewrite IH; [apply feed_feed; by rewrite <- !(assoc_L (++))|].
  eapply no_crcr_prefix; [|exact Hn]. apply prefix_app.
  rewrite !(assoc_L (++)). apply decode_prefix_text.
Qed.

Lemma chunks_irrelevant_witness :
  let c1 := bytes_of "data: a" ++ [CR] in
  let c2 := [LF; CR] in
  let c3 := [LF] in
  pump_all (feed_all new_parser [c1; c2; c3]) = ([mkEvent None (bytes_of "a")], new_parser).
Proof.
  intros c1 c2 c3.
  refine (eq_trans (f_equal pump_all (chunks_irrelevant new_parser c1 [c2; c3] _)) _);
    vm_compute; reflexivity.
Defined.

(** ** Two ways to lose events *)

(** A byte no character starts with. *)
Definition never_starts (b : byte) : bool :=
  negb (within 0 127 b || within 194 244 b).

Lemma never_starts_stuck b l : never_starts b = true -> decode (b :: l) = ([], b :: l).
Proof.
  intros Hb. rewrite decode_unfold.
  assert (char_len (b :: l) = None) as ->; [|done].
  unfold never_starts, within in Hb. unfold char_len, within.
  repeat case_match; try done; exfalso; bool_hyps;
    repeat match goal with H : _ \/ _ |- _ => destruct H end; bool_hyps; lia.
Qed.

(** One ill-formed byte stops the transport for good: once the
    undecoded bytes begin with a byte that starts no UTF-8 character, no later
    chunk is ever decoded; the text stays as it was, all input piles up in the
    pending bytes, and no further event is produced from it. *)
Theorem ill_formed_byte_stalls p b l chunks :
  pending_bytes p = b :: l -> never_starts b = true -> contains_crlf (buffer p) = false ->
  feed_all p chunks = mkParser (pending_bytes p ++ concat chunks) (buffer p).
Proof.
  revert p l. induction chunks as [|c chunks IH]; intros p l Hp Hb Hc; simpl.
  - rewrite app_nil_r. by destruct p.
  - assert (Hf : feed p c = mkParser (pending_bytes p ++ c) (buffer p)).
    { unfold feed. rewrite Hp. simpl. rewrite never_starts_stuck by done.
      by rewrite app_nil_r, Hc. }
    fold (feed_all (feed p c) chunks). rewrite Hf. rewrite (IH _ (l ++ c)); simpl; [|by rewrite Hp|done|done].
    by rewrite <- (assoc_L (++)).
Qed.

Lemma ill_formed_byte_stalls_witness :
  let p := feed new_parser [Ascii.ascii_of_nat 255] in
  pump_all (feed_all p [bytes_of "data: a" ++ [LF; LF]]) =
    ([], mkParser (Ascii.ascii_of_nat 255 :: bytes_of "data: a" ++ [LF; LF]) []).
Proof.
  intros p. rewrite (ill_formed_byte_stalls p (Ascii.ascii_of_nat 255) []); reflexivity.
Defined.

(** A block without data hides what follows: when the first block of
    the buffer carries no [data] line (a keep-alive comment, say), the callers'
    loop takes it for the end of the input and delivers nothing, although
    running the loop again on what it left would deliver the events behind. *)
Theorem dataless_block_hides_events p sep :
  find_blank (buffer p) = Some sep ->
  parse_event_block (take (sep + 2) (buffer p)) = None ->
  pump_all p = ([], mkParser (pending_bytes p) (drop (sep + 2) (buffer p))).
Proof.
  intros Hs Hp. unfold pump_all.
  destruct (length (buffer p)) as [|k] eqn:Hl.
  - destruct (buffer p); [done|simpl in Hl; lia].
  - simpl. unfold next_event. by rewrite Hs, Hp.
Qed.

Lemma dataless_block_hides_events_witness :
  let p := feed new_parser (bytes_of ": ping" ++ [LF; LF] ++ bytes_of "data: a" ++ [LF; LF]) in
  pump_all p = ([], mkParser [] (bytes_of "data: a" ++ [LF; LF])) /\
  (pump_all (pump_all p).2).1 = [mkEvent None (bytes_of "a")].
Proof.
  intros p. split; [|vm_compute; reflexivity].
  rewrite (dataless_block_hides_events p 6); vm_compute; reflexivity.
Defined.
