(* ===== verification/Messages.v ===== *)
(** * Messages: [models/message.rs], [engine/tool_loop.rs],
    [engine/tool_repair.rs] and [engine/abort_helpers.rs]

    The history of a conversation and the discipline it must keep for the model
    API: every tool use of an assistant message is answered by a tool result,
    and no tool result answers nothing.  Fresh ids and timestamps are
    arguments. *)

From stdpp Require Import base gmap strings list.
From Stdlib Require Import ZArith Lia.
From S2P Require Import Prelude Text Float64 Json Paths Permissions ToolHealth ToolExec.

#[local] Open Scope Z_scope.

Section Messages.
Context `{J : Json}.

(** ** Data: [models/message.rs] *)

Record Source := mkSource { source_type : string; media_type : string; source_data : string }.

Inductive ContentBlock :=
| Text (text : string)
| ToolUse (id tool : string) (input : Value)
| Thinking (thinking : string)
| Image (source : Source)
| Document (source : Source).

Record Usage := mkUsage {
  input_tokens : Z; output_tokens : Z;
  cache_creation_input_tokens : option Z; cache_read_input_tokens : option Z
}.

Record ToolUseResult := mkUseResult { answered_id : string; answer_output : Value; answer_error : bool }.

Inductive SystemSubtype := CompactBoundary | LocalCommand | Attachment.

Record ApiUserMessage := mkUserMessage { user_role : string; user_content : Value }.

Record ApiAssistantMessage := mkAssistantMessage {
  assistant_role : string; blocks : list ContentBlock;
  stop_reason : option string; usage : option Usage
}.

Inductive MessageContent :=
| User (message : ApiUserMessage) (is_meta : bool) (tool_use_result : option ToolUseResult)
| Assistant (message : ApiAssistantMessage) (cost_usd : f64) (duration_ms : Z)
| System (subtype : SystemSubtype) (text : string)
| Progress (progress_id : string) (progress_data : Value).

Record Message := mkMessage { uuid : string; timestamp : string; content : MessageContent }.

(** The id and the time a new message gets. *)
Record Stamp := mkStamp { fresh_uuid : string; fresh_time : string }.

Definition stamped (s : Stamp) (c : MessageContent) : Message :=
  mkMessage (fresh_uuid s) (fresh_time s) c.

Definition with_user_content (v : Value) (m : Message) : Message :=
  match content m with
  | User u meta r => mkMessage (uuid m) (timestamp m) (User (mkUserMessage (user_role u) v) meta r)
  | _ => m
  end.

Definition is_user (m : Message) : bool := match content m with User _ _ _ => true | _ => false end.
Definition is_assistant (m : Message) : bool :=
  match content m with Assistant _ _ _ => true | _ => false end.
Definition is_system (m : Message) : bool :=
  match content m with System _ _ => true | _ => false end.

(** ** Tool uses and results: [engine/tool_loop.rs] *)

(** [extract_tool_uses]. *)
Definition extract_tool_uses (l : list ContentBlock) : list ToolUseRequest :=
  omap (fun b => match b with ToolUse id n v => Some (mkRequest id n v) | _ => None end) l.

Definition block_uses (l : list ContentBlock) : list string :=
  omap (fun b => match b with ToolUse id _ _ => Some id | _ => None end) l.

(** The id of a [tool_result] block. *)
Definition is_tool_result (b : Value) : bool := bool_decide (str_field b "type" = Some "tool_result"%string).

Definition result_id (b : Value) : option string :=
  if is_tool_result b then str_field b "tool_use_id" else None.

(** [extract_tool_result_ids]. *)
Definition extract_tool_result_ids (u : ApiUserMessage) : list string :=
  match as_array (user_content u) with
  | Some arr => omap result_id arr
  | None => []
  end.

(** [extract_text]. *)
Definition extract_text (l : list ContentBlock) : option string :=
  match omap (fun b => match b with Text t => Some t | _ => None end) l with
  | [] => None
  | texts => Some (String.concat "" texts)
  end.

(** [strip_base64_images]; out of fuel the value is returned as it is
    ([strip_fuel_enough]: the size of the value is enough fuel). *)
Fixpoint strip_fuel (fuel : nat) (v : Value) : Value :=
  match fuel with
  | O => v
  | S fuel' =>
      match as_str v with
      | Some s =>
          if Z.ltb 10000 (Z.of_nat (str_len s)) then
            match json_parse s with
            | Some parsed => json_string (default s (to_json_string (strip_fuel fuel' parsed)))
            | None =>
                if str_contains s "iVBOR" || str_contains s "data:image"
                then json_string "[image data removed to save context]" else v
            end
          else v
      | None =>
          match as_object v with
          | Some fields =>
              json_object
                ((fun '(k, x) =>
                    let image :=
                      String.eqb k "data" &&
                      match as_str x with
                      | Some s => Z.ltb 1000 (Z.of_nat (str_len s)) &&
                                  (starts_with s "iVBOR" || starts_with s "/9j/")
                      | None => false
                      end in
                    (k, if image then json_string "[image: base64 data removed]"
                        else strip_fuel fuel' x)) <$> fields)
          | None =>
              match as_array v with
              | Some arr => json_array (strip_fuel fuel' <$> arr)
              | None => v
              end
          end
      end
  end.

Definition strip_base64_images (v : Value) : Value := strip_fuel (S (json_size v)) v.

Definition MAX_TOOL_RESULT_CHARS : Z := 200000.

Definition truncated_total (s : string) : string :=
  truncate_chars (Z.to_nat MAX_TOOL_RESULT_CHARS) s +:+
  string_of (Ascii.ascii_of_nat <$> [10; 10; 91; 226; 128; 166]%nat) +:+
  " truncated, " +:+ show_nat (str_len s) +:+ " total chars]".

Definition limited (s : string) : Value :=
  if Z.ltb MAX_TOOL_RESULT_CHARS (Z.of_nat (str_len s)) then json_string (truncated_total s) else json_string s.

(** The content of one result block; [is_null] tests for [Value::Null]. *)
Definition result_content (output : Value) : Value :=
  let raw := strip_base64_images output in
  match as_str raw with
  | Some s => limited s
  | None =>
      if is_null raw then json_string ""
      else match as_array raw with
           | Some arr => json_array arr
           | None => limited (default "" (to_json_string raw))
           end
  end.

Definition result_block (r : ToolExecutionResult) : Value :=
  json_object [("type", json_string "tool_result"); ("tool_use_id", json_string (tool_use_id r));
               ("content", result_content (output r)); ("is_error", json_bool (failed r))]%string.

(** [build_tool_result_message]. *)
Definition build_tool_result_message (s : Stamp) (l : list ToolExecutionResult) : Message :=
  stamped s (User (mkUserMessage "user" (json_array (result_block <$> l))) false None).

(** [accumulate_usage]. *)
Definition add_field (v : Value) (key : string) (n : Z) : Z :=
  match json_get v key ≫= as_u64 with Some d => add64 n d | None => n end.

Definition add_cached (v : Value) (key : string) (n : option Z) : option Z :=
  match json_get v key ≫= as_u64 with Some d => Some (add64 (default 0 n) d) | None => n end.

Definition accumulate_usage (delta : Value) (u : Usage) : Usage :=
  mkUsage (add_field delta "input_tokens" (input_tokens u))
    (add_field delta "output_tokens" (output_tokens u))
    (add_cached delta "cache_creation_input_tokens" (cache_creation_input_tokens u))
    (add_cached delta "cache_read_input_tokens" (cache_read_input_tokens u)).

(** ** Repairing a history: [engine/tool_repair.rs] *)

Definition uses_of (m : Message) : list string :=
  match content m with Assistant a _ _ => block_uses (blocks a) | _ => [] end.
Definition results_of (m : Message) : list string :=
  match content m with User u _ _ => extract_tool_result_ids u | _ => [] end.

(** [collect_tool_ids]. *)
Definition collect_tool_ids (h : list Message) : gset string * gset string :=
  (list_to_set (h ≫= uses_of), list_to_set (h ≫= results_of)).

(** [is_retained_block]. *)
Definition is_retained_block (orphans : gset string) (b : Value) : bool :=
  negb (is_tool_result b) ||
  match str_field b "tool_use_id" with
  | Some id => negb (bool_decide (id ∈ orphans))
  | None => true
  end.

(** [strip_orphan_tool_result_blocks]: the repaired history and the number of
    blocks removed. *)
Fixpoint strip_orphan_tool_result_blocks (orphans : gset string) (h : list Message) :
    list Message * nat :=
  match h with
  | [] => ([], 0%nat)
  | m :: rest =>
      let '(rest', n) := strip_orphan_tool_result_blocks orphans rest in
      match content m with
      | User u _ _ =>
          match as_array (user_content u) with
          | Some arr =>
              let kept := retain (is_retained_block orphans) arr in
              let n' := (length arr - length kept + n)%nat in
              match kept with
              | [] => (rest', n')
              | _ => (with_user_content (json_array kept) m :: rest', n')
              end
          | None => (m :: rest', n)
          end
      | _ => (m :: rest', n)
      end
  end.

(** One message of [validate_and_fix_tool_messages]. *)
Definition fix_message (orphan_uses orphan_results : gset string) (m : Message) : option Message :=
  match content m with
  | System _ _ => None
  | Assistant a _ _ =>
      if existsb (fun id => bool_decide (id ∈ orphan_uses)) (block_uses (blocks a)) then None
      else Some m
  | User u _ _ =>
      match extract_tool_result_ids u with
      | [] => Some m
      | _ =>
          match as_array (user_content u) with
          | Some arr =>
              if existsb (is_retained_block orphan_results) arr
              then Some (with_user_content (json_array (retain (is_retained_block orphan_results) arr)) m)
              else None
          | None => Some m
          end
      end
  | Progress _ _ => Some m
  end.

(** [validate_and_fix_tool_messages]. *)
Definition validate_and_fix_tool_messages (h : list Message) : list Message :=
  let '(uses, results) := collect_tool_ids h in
  omap (fix_message (uses ∖ results) (results ∖ uses)) h.

(** ** After an abort: [cleanup_orphan_tool_uses] *)

Definition aborted_block (id : string) : Value :=
  json_object [("type", json_string "tool_result"); ("tool_use_id", json_string id);
               ("content", json_array [json_object [("type", json_string "text");
                                                    ("text", json_string "Tool execution aborted by user.")]]);
               ("is_error", json_bool true)]%string.

Definition cleanup_orphan_tool_uses (s : Stamp) (h : list Message) : list Message * nat :=
  match last h ≫= fun m => match content m with Assistant a _ _ => Some (block_uses (blocks a)) | _ => None end with
  | None | Some [] => (h, 0%nat)
  | Some ids =>
      (h ++ [stamped s (User (mkUserMessage "user" (json_array (aborted_block <$> ids))) true None)],
       length ids)
  end.
(** ** The discipline of a history *)

(** Blocks that are all tool results. *)
Definition results_only (m : Message) : bool :=
  match content m with
  | User u _ None => match as_array (user_content u) with
                     | Some arr => forallb is_tool_result arr
                     | None => false
                     end
  | _ => false
  end.

(** [scan pending h]: every message of [h] answers exactly the tool uses of the
    message before it, in order and with nothing but results, [pending] being
    those before the first; the answer is what the last message leaves open. *)
Fixpoint scan (pending : list string) (h : list Message) : option (list string) :=
  match h with
  | [] => Some pending
  | m :: rest =>
      if bool_decide (results_of m = pending) && (bool_decide (pending = []) || results_only m)
      then scan (uses_of m) rest else None
  end.

Definition paired (h : list Message) : Prop := scan [] h = Some [].

Lemma scan_app p h1 h2 : scan p (h1 ++ h2) = (q ← scan p h1; scan q h2).
Proof. revert p. induction h1 as [|m h1 IH]; intros p; simpl; [done|]. by case_match. Qed.

Lemma scan_snoc p h m q :
  scan p h = Some q -> results_of m = q -> q = [] \/ results_only m = true ->
  scan p (h ++ [m]) = Some (uses_of m).
Proof.
  intros Hs Hr Hq. rewrite scan_app, Hs. simpl. rewrite bool_decide_eq_true_2 by done.
  destruct Hq as [->|Hq]; [by rewrite bool_decide_eq_true_2|by rewrite Hq, orb_true_r].
Qed.

Lemma scan_cons_inv p m h q :
  scan p (m :: h) = Some q ->
  results_of m = p /\ (p = [] \/ results_only m = true) /\ scan (uses_of m) h = Some q.
Proof.
  simpl. case_bool_decide as Hr; [|done]. case_bool_decide as Hp; simpl; [naive_solver|].
  destruct (results_only m); [naive_solver|done].
Qed.

(** A split in the middle of a well-formed history: what is open there is what
    the message before leaves. *)
Lemma scan_split p h q k m :
  scan p h = Some q -> h !! k = Some m -> scan p (take (S k) h) = Some (uses_of m).
Proof.
  revert p k. induction h as [|m' h IH]; intros p k Hs Hk; [done|].
  apply scan_cons_inv in Hs as (Hr & Hp & Hs). simpl take. cbn [scan].
  rewrite bool_decide_eq_true_2 by done.
  replace (bool_decide (p = []) || results_only m') with true.
  2:{ destruct Hp as [->|Hp]; [by rewrite bool_decide_eq_true_2|by rewrite Hp, orb_true_r]. }
  simpl. destruct k as [|k]; simpl in Hk; [by injection Hk as ->|by apply IH].
Qed.

(** What comes after a point where nothing is open stands on its own. *)
Lemma scan_drop p h q k : scan p h = Some q -> scan p (take k h) = Some [] -> scan [] (drop k h) = Some q.
Proof.
  intros Hs Ht. rewrite <- (take_drop k h), scan_app, Ht in Hs. exact Hs.
Qed.

Lemma scan_lookup p h q k m m' :
  scan p h = Some q -> h !! k = Some m -> h !! S k = Some m' ->
  results_of m' = uses_of m /\ (uses_of m = [] \/ results_only m' = true).
Proof.
  intros Hs Hk Hk'. pose proof (scan_split p h q k m Hs Hk) as Ht.
  rewrite <- (take_drop (S k) h), scan_app, Ht in Hs. simpl in Hs.
  erewrite drop_S in Hs by exact Hk'.
  apply scan_cons_inv in Hs as (H1 & H2 & _). done.
Qed.

Lemma requests_ids l : req_id <$> extract_tool_uses l = block_uses l.
Proof.
  unfold extract_tool_uses, block_uses. induction l as [|b l IH]; [done|].
  destruct b; try exact IH. exact (f_equal (cons _) IH).
Qed.

Lemma user_no_uses m : is_user m = true -> uses_of m = [].
Proof. unfold is_user, uses_of. by destruct (content m). Qed.

Lemma assistant_no_results m : is_assistant m = true -> results_of m = [].
Proof. unfold is_assistant, results_of. by destruct (content m). Qed.
End Messages.

(** ** What a repair guarantees *)

Section Repair.
Context `{JL : JsonLaws}.

Lemma result_id_retained orphans arr :
  omap result_id (retain (is_retained_block orphans) arr) =
  retain (fun id => negb (bool_decide (id ∈ orphans))) (omap result_id arr).
Proof.
  induction arr as [|b arr IH]; [done|].
  change (retain (is_retained_block orphans) (b :: arr)) with
    (if is_retained_block orphans b then b :: retain (is_retained_block orphans) arr
     else retain (is_retained_block orphans) arr).
  change (omap result_id (b :: arr)) with
    (match result_id b with Some id => id :: omap result_id arr | None => omap result_id arr end).
  assert (Hb : match result_id b with
               | Some id => is_retained_block orphans b = negb (bool_decide (id ∈ orphans))
               | None => True
               end).
  { unfold result_id, is_retained_block. destruct (is_tool_result b); [|done]. simpl.
    by destruct (str_field b "tool_use_id"). }
  destruct (result_id b) as [id|] eqn:Hid.
  - simpl. rewrite Hb. destruct (negb _); [|exact IH].
    change (omap result_id (b :: ?l)) with
      (match result_id b with Some id => id :: omap result_id l | None => omap result_id l end).
    by rewrite Hid, IH.
  - destruct (is_retained_block orphans b); [|exact IH].
    change (omap result_id (b :: ?l)) with
      (match result_id b with Some id => id :: omap result_id l | None => omap result_id l end).
    by rewrite Hid, IH.
Qed.

Lemma retained_none orphans arr :
  existsb (is_retained_block orphans) arr = false ->
  retain (fun id => negb (bool_decide (id ∈ orphans))) (omap result_id arr) = [].
Proof.
  intros Hn. rewrite <- result_id_retained.
  replace (retain (is_retained_block orphans) arr) with (@nil Value); [done|].
  induction arr as [|b arr IH]; [done|]. simpl in *. apply orb_false_iff in Hn as [-> Hn]. by apply IH.
Qed.

(** A kept message keeps its tool uses, none of them an orphan, and of its
    results those that are not orphans. *)
Lemma fix_message_some ou orr m m' :
  fix_message ou orr m = Some m' ->
  uses_of m' = uses_of m /\ (forall id, id ∈ uses_of m -> id ∉ ou) /\
  results_of m' = retain (fun id => negb (bool_decide (id ∈ orr))) (results_of m) /\
  is_system m' = false.
Proof.
  unfold fix_message, uses_of, results_of, is_system. destruct (content m) as [u meta tr|a c d|sub t|pid pd] eqn:Hc.
  - destruct (extract_tool_result_ids u) as [|id ids] eqn:Hids.
    { intros [= <-]. rewrite Hc, Hids. split_and!; try done. intros ? ?%not_elem_of_nil. done. }
    unfold extract_tool_result_ids in Hids. destruct (as_array (user_content u)) as [arr|] eqn:Harr; [|done].
    destruct (existsb _ arr); [|done]. intros [= <-].
    unfold with_user_content. rewrite Hc. simpl. split_and!; try done.
    { intros ? ?%not_elem_of_nil. done. }
    unfold extract_tool_result_ids. simpl. rewrite as_array_array, result_id_retained. by rewrite Hids.
  - destruct (existsb _ (block_uses (blocks a))) eqn:He; [done|]. intros [= <-]. rewrite Hc.
    split_and!; try done. intros id Hin Ho. apply not_true_iff_false in He. apply He, existsb_elem.
    exists id. split; [done|by apply bool_decide_eq_true_2].
  - done.
  - intros [= <-]. rewrite Hc. split_and!; try done. intros ? ?%not_elem_of_nil. done.
Qed.

(** What the repair drops: system messages, assistant messages with an orphaned
    use, and user messages whose results are all orphans. *)
Lemma fix_message_none ou orr m :
  fix_message ou orr m = None ->
  (exists sub t, content m = System sub t) \/ (exists id, id ∈ uses_of m /\ id ∈ ou) \/
  uses_of m = [] /\ retain (fun id => negb (bool_decide (id ∈ orr))) (results_of m) = [].
Proof.
  unfold fix_message, uses_of, results_of. destruct (content m) as [u meta tr|a c d|sub t|pid pd] eqn:Hc.
  - unfold extract_tool_result_ids. destruct (as_array (user_content u)) as [arr|] eqn:Harr; [|done].
    destruct (omap result_id arr) as [|id ids] eqn:Hids; [done|].
    destruct (existsb _ arr) eqn:He; [done|]. intros _. right. right. split; [done|].
    rewrite <- Hids. by apply retained_none.
  - destruct (existsb _ (block_uses (blocks a))) eqn:He; [|done]. intros _. right. left.
    apply existsb_elem in He as (id & Hin & Ho). exists id. split; [done|by apply bool_decide_eq_true_1 in Ho].
  - eauto.
  - done.
Qed.

(** No assistant message has an answered tool use beside an unanswered one. *)
Definition unmixed (h : list Message) : Prop :=
  forall m, m ∈ h ->
    (forall id, id ∈ uses_of m -> id ∈ h ≫= results_of) \/
    (forall id, id ∈ uses_of m -> id ∉ h ≫= results_of).

Lemma fix_message_clean m :
  fix_message ∅ ∅ m = (if is_system m then None else Some m).
Proof.
  unfold fix_message, is_system. destruct m as [i t c]. simpl.
  destruct c as [u meta tr|a cost d|sub txt|pid pd]; simpl; try done.
  - unfold extract_tool_result_ids. destruct (as_array (user_content u)) as [arr|] eqn:Harr; [|done].
    destruct (omap result_id arr) as [|id ids] eqn:Hids; [done|].
    assert (Hall : forall b, is_retained_block ∅ b = true).
    { intros b. unfold is_retained_block. destruct (is_tool_result b); [|done]. simpl.
      destruct (str_field b "tool_use_id"); [|done]. rewrite bool_decide_eq_false_2; [done|set_solver]. }
    replace (retain (is_retained_block ∅) arr) with arr.
    2:{ clear -Hall. induction arr as [|b arr IH]; [done|]. simpl. by rewrite Hall, <- IH. }
    destruct arr as [|b arr]; [done|]. simpl existsb. rewrite Hall. simpl.
    unfold with_user_content. simpl. rewrite (array_eta _ _ Harr). by destruct u.
  - replace (existsb _ (block_uses (blocks a))) with false; [done|].
    symmetry. apply not_true_iff_false. intros (id & _ & Hid)%existsb_elem.
    apply bool_decide_eq_true_1 in Hid. set_solver.
Qed.

Lemma repair_identity h :
  (forall id, id ∈ h ≫= uses_of <-> id ∈ h ≫= results_of) ->
  validate_and_fix_tool_messages h = retain (fun m => negb (is_system m)) h.
Proof.
  intros Heq. unfold validate_and_fix_tool_messages. simpl.
  assert (Hd : forall A B : list string, (forall id, id ∈ A <-> id ∈ B) ->
            list_to_set (C := gset string) A ∖ list_to_set B = ∅) by set_solver.
  rewrite !Hd by (done || (intros; symmetry; apply Heq)). clear Heq Hd.
  induction h as [|m h IH]; [done|].
  change (omap (fix_message ∅ ∅) (m :: h)) with
    (match fix_message ∅ ∅ m with Some y => y :: omap (fix_message ∅ ∅) h
                                | None => omap (fix_message ∅ ∅) h end).
  rewrite fix_message_clean. simpl. destruct (is_system m); simpl; by rewrite IH.
Qed.

(** What [validate_and_fix_tool_messages] guarantees of the messages
    it lets through to the model: every tool use among them is answered by one
    of them; every tool result among them answers one of them, provided no
    assistant message of the history had an answered tool use beside an
    unanswered one; no system message is left; and a history without orphans
    loses nothing else. *)
Theorem repair_pairs h :
  let h' := validate_and_fix_tool_messages h in
  (forall id, id ∈ h' ≫= uses_of -> id ∈ h' ≫= results_of) /\
  (unmixed h -> forall id, id ∈ h' ≫= results_of -> id ∈ h' ≫= uses_of) /\
  (forall m, m ∈ h' -> is_system m = false) /\
  ((forall id, id ∈ h ≫= uses_of <-> id ∈ h ≫= results_of) ->
   h' = retain (fun m => negb (is_system m)) h).
Proof.
  pose proof (repair_identity h) as Hclean. revert Hclean.
  unfold validate_and_fix_tool_messages. simpl.
  set (U := list_to_set (C := gset string) (h ≫= uses_of)). set (R := list_to_set (h ≫= results_of)).
  set (h' := omap _ h). intros Hclean.
  assert (Hin : forall m', m' ∈ h' <-> exists m, m ∈ h /\ fix_message (U ∖ R) (R ∖ U) m = Some m').
  { intros m'. unfold h'. by rewrite list_elem_of_omap. }
  assert (Hkept : forall id (l : list string), id ∈ U -> id ∈ l ->
            id ∈ retain (fun id => negb (bool_decide (id ∈ R ∖ U))) l).
  { intros id l HU Hl. apply elem_of_retain. split; [done|]. apply negb_true_iff, bool_decide_eq_false_2.
    by intros [_ ?]%elem_of_difference. }
  split_and!.
  - intros id (m' & Hid & Hm')%list_elem_of_bind. apply Hin in Hm' as (m & Hm & Hf).
    destruct (fix_message_some _ _ _ _ Hf) as (Hu & Hno & _). rewrite Hu in Hid.
    assert (HU : id ∈ U) by (apply elem_of_list_to_set, list_elem_of_bind; eauto).
    assert (HR : id ∈ R).
    { destruct (decide (id ∈ R)) as [?|Hn]; [done|]. exfalso. by apply (Hno id Hid), elem_of_difference. }
    apply elem_of_list_to_set, list_elem_of_bind in HR as (r & Hr & Hrh).
    destruct (fix_message (U ∖ R) (R ∖ U) r) as [r'|] eqn:Hfr.
    + apply list_elem_of_bind. exists r'. split; [|apply Hin; eauto].
      destruct (fix_message_some _ _ _ _ Hfr) as (_ & _ & -> & _). by apply Hkept.
    + exfalso. destruct (fix_message_none _ _ _ Hfr) as [(sub & t & Hc)|[(i & Hi & _)|[_ Hnil]]].
      * unfold results_of in Hr. rewrite Hc in Hr. by apply not_elem_of_nil in Hr.
      * unfold results_of, uses_of in *. destruct (content r); by apply not_elem_of_nil in Hr || apply not_elem_of_nil in Hi.
      * specialize (Hkept id _ HU Hr). rewrite Hnil in Hkept. by apply not_elem_of_nil in Hkept.
  - intros Hmix id (m' & Hid & Hm')%list_elem_of_bind. apply Hin in Hm' as (m & Hm & Hf).
    destruct (fix_message_some _ _ _ _ Hf) as (_ & _ & Hr & _). rewrite Hr in Hid.
    apply elem_of_retain in Hid as [Hid Ho]. apply negb_true_iff, bool_decide_eq_false_1 in Ho.
    assert (HR : id ∈ h ≫= results_of) by (apply list_elem_of_bind; eauto).
    assert (HU : id ∈ U).
    { destruct (decide (id ∈ U)) as [?|Hn]; [done|]. exfalso. apply Ho, elem_of_difference.
      split; [by apply elem_of_list_to_set|done]. }
    apply elem_of_list_to_set, list_elem_of_bind in HU as (a & Ha & Hah).
    apply list_elem_of_bind. exists a. split; [done|]. apply Hin. exists a. split; [done|].
    destruct (fix_message (U ∖ R) (R ∖ U) a) as [a'|] eqn:Hfa.
    + f_equal. unfold fix_message in Hfa. unfold uses_of in Ha.
      destruct (content a); try (by apply not_elem_of_nil in Ha).
      destruct (existsb _ _); congruence.
    + exfalso. destruct (fix_message_none _ _ _ Hfa) as [(sub & t & Hc)|[(i & Hi & Hio)|[Hnil _]]].
      * unfold uses_of in Ha. rewrite Hc in Ha. by apply not_elem_of_nil in Ha.
      * destruct (Hmix a Hah) as [Hall|Hall]; [|by apply (Hall id Ha)].
        apply elem_of_difference in Hio as [_ Hio]. by apply Hio, elem_of_list_to_set, Hall.
      * rewrite Hnil in Ha. by apply not_elem_of_nil in Ha.
  - intros m' Hm'. apply Hin in Hm' as (m & _ & Hf).
    by destruct (fix_message_some _ _ _ _ Hf) as (_ & _ & _ & Hs).
  - exact Hclean.
Qed.
(** ** Messages that answer *)

Lemma block_id (b : string -> Value) (ids : list string) :
  (forall id, result_id (b id) = Some id) -> omap result_id (b <$> ids) = ids.
Proof.
  intros Hb. induction ids as [|id ids IH]; [done|].
  change (omap result_id (b <$> id :: ids)) with
    (match result_id (b id) with Some i => i :: omap result_id (b <$> ids)
                               | None => omap result_id (b <$> ids) end).
  by rewrite Hb, IH.
Qed.

Lemma result_block_id fields id :
  NoDup fields.*1 -> assoc fields "type"%string = Some (json_string "tool_result") ->
  assoc fields "tool_use_id"%string = Some (json_string id) ->
  is_tool_result (json_object fields) = true /\ result_id (json_object fields) = Some id.
Proof.
  intros Hnd Ht Hi. assert (Hr : is_tool_result (json_object fields) = true).
  { unfold is_tool_result, str_field. rewrite json_get_object, Ht by done. simpl.
    rewrite as_str_string. by apply bool_decide_eq_true_2. }
  split; [done|]. unfold result_id. rewrite Hr. unfold str_field.
  rewrite json_get_object, Hi by done. simpl. by rewrite as_str_string.
Qed.

Lemma result_fields_nodup : NoDup ["type"; "tool_use_id"; "content"; "is_error"]%string.
Proof. by apply (bool_decide_unpack _). Qed.

Lemma aborted_block_id id : is_tool_result (aborted_block id) = true /\ result_id (aborted_block id) = Some id.
Proof. apply result_block_id; [apply result_fields_nodup|done|done]. Qed.

Lemma result_block_of r :
  is_tool_result (result_block r) = true /\ result_id (result_block r) = Some (tool_use_id r).
Proof. apply result_block_id; [apply result_fields_nodup|done|done]. Qed.

(** A message of tool-result blocks closes the uses it answers. *)
Lemma answer_closes p h ids (b : list Value) s meta :
  scan p h = Some ids -> omap result_id b = ids -> forallb is_tool_result b = true ->
  scan p (h ++ [stamped s (User (mkUserMessage "user" (json_array b)) meta None)]) = Some [].
Proof.
  intros Hs Hids Hb. erewrite scan_snoc; [done|exact Hs| |].
  - unfold results_of, extract_tool_result_ids. simpl. by rewrite as_array_array.
  - right. unfold results_only. simpl. by rewrite as_array_array.
Qed.

(** Recording the results of the uses left open closes the history. *)
Lemma results_close h s l :
  scan [] h = Some (tool_use_id <$> l) -> paired (h ++ [build_tool_result_message s l]).
Proof.
  intros Hs. eapply answer_closes; [exact Hs| |].
  - clear Hs. induction l as [|r l IH]; [done|].
    change (omap result_id (result_block <$> r :: l)) with
      (match result_id (result_block r) with Some i => i :: omap result_id (result_block <$> l)
                                           | None => omap result_id (result_block <$> l) end).
    rewrite (proj2 (result_block_of r)), IH. done.
  - apply forallb_elem. intros x (r & -> & _)%list_elem_of_fmap. apply result_block_of.
Qed.

(** After an abort the history is fit for the next query: whatever
    tool uses the last message of a well-formed history leaves open,
    [cleanup_orphan_tool_uses] appends one message that answers exactly those,
    returns their number, and otherwise changes nothing; doing it again changes
    nothing. *)
Theorem cleanup_closes s h ids :
  scan [] h = Some ids ->
  let '(h', n) := cleanup_orphan_tool_uses s h in
  paired h' /\ n = length ids /\ (exists tail, h' = h ++ tail) /\ (ids = [] -> h' = h) /\
  cleanup_orphan_tool_uses s h' = (h', 0%nat).
Proof.
  intros Hs. unfold cleanup_orphan_tool_uses.
  assert (Hlast : match last h with Some m => uses_of m = ids | None => ids = [] end).
  { destruct (last h) as [m|] eqn:Hl.
    - apply last_Some in Hl as [h0 ->]. rewrite scan_app in Hs.
      destruct (scan [] h0) as [q|]; [|done]. simpl in Hs. case_match; [|done]. by injection Hs.
    - apply last_None in Hl as ->. by injection Hs as <-. }
  assert (Hopen : (last h ≫= fun m => match content m with
              | Assistant a _ _ => Some (block_uses (blocks a)) | _ => None end) = Some ids \/
              ids = [] /\ (last h ≫= fun m => match content m with
              | Assistant a _ _ => Some (block_uses (blocks a)) | _ => None end) = None).
  { destruct (last h) as [m|]; [|by right]. simpl. unfold uses_of in Hlast.
    destruct (content m); try by right. left. by rewrite Hlast. }
  destruct Hopen as [Ho|[-> Ho]]; rewrite Ho.
  2:{ split_and!; try done; [exists []; by rewrite app_nil_r|by rewrite Ho]. }
  destruct ids as [|id ids].
  { split_and!; try done; [exists []; by rewrite app_nil_r|by rewrite Ho]. }
  split_and!; try done.
  - eapply answer_closes; [exact Hs|apply block_id; intros; apply aborted_block_id|].
    apply forallb_elem. intros x (i & -> & _)%list_elem_of_fmap. apply aborted_block_id.
  - by eexists.
  - by rewrite last_snoc.
Qed.

(** ** Stripping images: the size of a value is enough fuel *)

Lemma strip_fuel_enough n k v : (json_size v < n)%nat -> (json_size v < k)%nat -> strip_fuel n v = strip_fuel k v.
Proof.
  revert k v. induction n as [|n IH]; intros [|k] v Hn Hk; try lia. cbn [strip_fuel].
  destruct (as_str v) as [s|] eqn:Hs.
  - destruct (Z.ltb _ _); [|done]. destruct (json_parse s) as [x|] eqn:Hx; [|done].
    pose proof (size_parse v s x Hs Hx). by rewrite (IH k) by lia.
  - destruct (as_object v) as [fs|] eqn:Ho.
    + f_equal. apply list_fmap_ext. intros i [key x] Hin%list_elem_of_lookup_2.
      pose proof (size_object v fs key x Ho Hin). by rewrite (IH k) by lia.
    + destruct (as_array v) as [l|] eqn:Ha; [|done]. f_equal. apply list_fmap_ext.
      intros i x Hin%list_elem_of_lookup_2. pose proof (size_array v l x Ha Hin). by rewrite (IH k) by lia.
Qed.
End Repair.

(** ** Concrete histories *)

Section Demo.
#[local] Existing Instances flat_json flat_json_laws.

Definition demo_stamp : Stamp := mkStamp "u" "t".

Definition asks (ids : list string) : Message :=
  stamped demo_stamp
    (Assistant (mkAssistantMessage "assistant" ((fun id => ToolUse id "Bash" FNull) <$> ids) None None)
       f64_zero 0).

Definition answers (ids : list string) : Message :=
  build_tool_result_message demo_stamp ((fun id => mkExec id "Bash" (FStr "ok") false) <$> ids).

Definition says (t : string) : Message :=
  stamped demo_stamp (User (mkUserMessage "user" (FStr t)) false None).

(** An assistant message with an answered and an unanswered tool use is dropped
    whole, and the answer of the first stays behind without its use. *)
Example repair_leaves_orphan_result :
  let h := [says "hi"; asks ["a"; "b"]; answers ["a"]] in
  (validate_and_fix_tool_messages h ≫= uses_of) = [] /\
  (validate_and_fix_tool_messages h ≫= results_of) = ["a"]%string.
Proof. vm_compute. split; reflexivity. Qed.

Lemma repair_pairs_witness :
  let h := [says "hi"; asks ["a"]; answers ["a"]; asks ["b"]] in
  unmixed h /\ forall id, id ∈ validate_and_fix_tool_messages h ≫= results_of ->
                          id ∈ validate_and_fix_tool_messages h ≫= uses_of.
Proof.
  intros h.
  assert (Hu : unmixed h).
  { intros m Hm. unfold h in Hm. repeat (apply elem_of_cons in Hm as [->|Hm]);
      [left|left|left|right|by apply not_elem_of_nil in Hm];
      intros id Hid; vm_compute in Hid |- *; set_solver. }
  split; [exact Hu|]. exact (proj1 (proj2 (repair_pairs h)) Hu).
Defined.

Lemma cleanup_closes_witness :
  paired (cleanup_orphan_tool_uses demo_stamp [says "hi"; asks ["a"; "b"]]).1.
Proof.
  pose proof (cleanup_closes demo_stamp [says "hi"; asks ["a"; "b"]] ["a"; "b"]%string eq_refl) as Hc.
  destruct (cleanup_orphan_tool_uses _ _) as [h' n]. exact (proj1 Hc).
Defined.
End Demo.
