(* ===== verification/Stream.v ===== *)
(** * Stream: [engine/stream_ingest.rs] and [engine/cost_tracker.rs]

    One answer of the model, read event by event into content blocks, with the
    tokens it used and their price.  The moment of an abort is an item of the
    stream. *)

From stdpp Require Import base gmap strings list.
From Stdlib Require Import ZArith Lia.
From S2P Require Import Prelude Text Float64 Json Paths Permissions ToolHealth ToolExec Messages.

#[local] Open Scope Z_scope.

(** ** Prices: [engine/cost_tracker.rs] *)

Record ModelPricing := mkPricing {
  input_per_mtok : f64; output_per_mtok : f64; cache_write_per_mtok : f64; cache_read_per_mtok : f64
}.

Definition DEFAULT_PRICING : ModelPricing :=
  mkPricing (f64_of_Z 3) (f64_of_Z 15) (f64_ratio 375 100) (f64_ratio 3 10).

(** The table [CostTracker::new] fills. *)
Definition builtin_pricing : gmap string ModelPricing :=
  <["claude-3-5-haiku-20241022"%string :=
      mkPricing (f64_ratio 8 10) (f64_of_Z 4) (f64_of_Z 1) (f64_ratio 8 100)]>
  (<["claude-opus-4-20250514"%string :=
      mkPricing (f64_of_Z 15) (f64_of_Z 75) (f64_ratio 1875 100) (f64_ratio 150 100)]>
  (<["claude-sonnet-4-20250514"%string :=
      mkPricing (f64_of_Z 3) (f64_of_Z 15) (f64_ratio 375 100) (f64_ratio 3 10)]> ∅)).

Definition EMPTY_USAGE : Usage := mkUsage 0 0 None None.

Record CostTracker := mkCost { current_query_cost : f64; total_cost : f64; tracked_usage : Usage }.

Definition new_cost_tracker : CostTracker := mkCost f64_zero f64_zero EMPTY_USAGE.

Definition pricing_of (model : string) : ModelPricing :=
  default DEFAULT_PRICING (builtin_pricing !! model).

(** [calculate_cost]. *)
Definition mtok_cost (tokens : Z) (price : f64) : f64 :=
  f64_mul (f64_div (f64_of_Z tokens) (f64_of_Z 1000000)) price.

Definition calculate_cost (u : Usage) (model : string) : f64 :=
  let p := pricing_of model in
  f64_add (f64_add (f64_add (mtok_cost (input_tokens u) (input_per_mtok p))
                            (mtok_cost (output_tokens u) (output_per_mtok p)))
                   (mtok_cost (default 0 (cache_creation_input_tokens u)) (cache_write_per_mtok p)))
          (mtok_cost (default 0 (cache_read_input_tokens u)) (cache_read_per_mtok p)).

(** [per_million_prices]. *)
Definition per_million_prices (model : string) : f64 * f64 :=
  (input_per_mtok (pricing_of model), output_per_mtok (pricing_of model)).

(** [CostTracker::accumulate]. *)
Definition add_opt (n d : option Z) : option Z :=
  match d with Some k => Some (add64 (default 0 n) k) | None => n end.

Definition accumulate (u : Usage) (model : string) (c : CostTracker) : CostTracker :=
  let cost := calculate_cost u model in
  let t := tracked_usage c in
  mkCost (f64_add (current_query_cost c) cost) (f64_add (total_cost c) cost)
    (mkUsage (add64 (input_tokens t) (input_tokens u)) (add64 (output_tokens t) (output_tokens u))
       (add_opt (cache_creation_input_tokens t) (cache_creation_input_tokens u))
       (add_opt (cache_read_input_tokens t) (cache_read_input_tokens u))).

(** [CostTracker::reset_query]. *)
Definition reset_query (c : CostTracker) : CostTracker :=
  mkCost f64_zero (total_cost c) (tracked_usage c).

Section Stream.
Context `{J : Json}.

(** ** Events: [api/client.rs] *)

Inductive ApiStreamEvent :=
| MessageStart (message : Value)
| ContentBlockStart (content_block : Value)
| ContentBlockDelta (delta : Value)
| ContentBlockStop
| MessageDelta (delta usage : Value)
| MessageStop
| Ping
| ErrorEvent (error_type message : string).

(** What the loop of [ingest_stream_events] meets next: an event, a broken
    stream, or the abort signal. *)
Inductive StreamItem :=
| Event (e : ApiStreamEvent)
| Broken (error : string)
| AbortFires.

Record EngineError := mkEngineError {
  error_code : string; error_message : string; error_details : option Value }.

(** The variables of the loop. *)
Record IngestState := mkIngest {
  done_blocks : list ContentBlock;
  current_text : string;
  current_tool_id : string;
  current_tool_name : string;
  current_tool_input_json : string;
  current_thinking_text : string;
  seen_stop_reason : option string;
  current_block_type : string;
  total_usage : Usage;
  cost : CostTracker
}.

Definition fresh_ingest (u : Usage) (c : CostTracker) : IngestState :=
  mkIngest [] "" "" "" "" "" None "" u c.

Definition with_kind (k : string) (s : IngestState) : IngestState :=
  mkIngest (done_blocks s) (current_text s) (current_tool_id s) (current_tool_name s)
    (current_tool_input_json s) (current_thinking_text s) (seen_stop_reason s) k (total_usage s) (cost s).
Definition with_text (t : string) (s : IngestState) : IngestState :=
  mkIngest (done_blocks s) t (current_tool_id s) (current_tool_name s)
    (current_tool_input_json s) (current_thinking_text s) (seen_stop_reason s) (current_block_type s)
    (total_usage s) (cost s).
Definition with_tool (id n json : string) (s : IngestState) : IngestState :=
  mkIngest (done_blocks s) (current_text s) id n json (current_thinking_text s) (seen_stop_reason s)
    (current_block_type s) (total_usage s) (cost s).
Definition with_thinking (t : string) (s : IngestState) : IngestState :=
  mkIngest (done_blocks s) (current_text s) (current_tool_id s) (current_tool_name s)
    (current_tool_input_json s) t (seen_stop_reason s) (current_block_type s) (total_usage s) (cost s).
Definition push_block (b : ContentBlock) (s : IngestState) : IngestState :=
  mkIngest (done_blocks s ++ [b]) (current_text s) (current_tool_id s) (current_tool_name s)
    (current_tool_input_json s) (current_thinking_text s) (seen_stop_reason s) (current_block_type s)
    (total_usage s) (cost s).
Definition with_stop (r : option string) (s : IngestState) : IngestState :=
  mkIngest (done_blocks s) (current_text s) (current_tool_id s) (current_tool_name s)
    (current_tool_input_json s) (current_thinking_text s) r (current_block_type s) (total_usage s) (cost s).
Definition charge (u : Usage) (c : CostTracker) (s : IngestState) : IngestState :=
  mkIngest (done_blocks s) (current_text s) (current_tool_id s) (current_tool_name s)
    (current_tool_input_json s) (current_thinking_text s) (seen_stop_reason s) (current_block_type s) u c.

Definition text_field (v : Value) (key : string) : string := default "" (str_field v key).

(** [ContentBlockStart]. *)
Definition on_block_start (b : Value) (s : IngestState) : IngestState :=
  let kind := text_field b "type" in
  let s := with_kind kind s in
  if String.eqb kind "text" then with_text "" s
  else if String.eqb kind "tool_use" then
    let json := match json_get b "input" with
                | Some v => match as_object v with
                            | Some (_ :: _) => default "" (to_json_string v)
                            | _ => ""
                            end
                | None => ""
                end in
    with_tool (text_field b "id") (text_field b "name") json s
  else if String.eqb kind "thinking" then with_thinking "" s
  else s.

(** [ContentBlockDelta]. *)
Definition on_block_delta (d : Value) (s : IngestState) : IngestState :=
  let kind := text_field d "type" in
  if String.eqb kind "text_delta" then
    match str_field d "text" with Some t => with_text (current_text s +:+ t) s | None => s end
  else if String.eqb kind "input_json_delta" then
    match str_field d "partial_json" with
    | Some t => with_tool (current_tool_id s) (current_tool_name s) (current_tool_input_json s +:+ t) s
    | None => s
    end
  else if String.eqb kind "thinking_delta" then
    match str_field d "thinking" with
    | Some t => with_thinking (current_thinking_text s +:+ t) s
    | None => s
    end
  else s.

(** [ContentBlockStop]. *)
Definition on_block_stop (s : IngestState) : IngestState :=
  let kind := current_block_type s in
  with_kind ""
    (if String.eqb kind "text" then
       if is_empty (current_text s) then s else push_block (Text (current_text s)) s
     else if String.eqb kind "tool_use" then
       push_block (ToolUse (current_tool_id s) (current_tool_name s)
                     (default (json_object []) (json_parse (current_tool_input_json s)))) s
     else if String.eqb kind "thinking" then
       if is_empty (current_thinking_text s) then s
       else push_block (Thinking (current_thinking_text s)) s
     else s).

(** The usage two of the events carry. *)
Definition usage_of (v : Value) : Usage :=
  mkUsage (default 0 (json_get v "input_tokens" ≫= as_u64))
    (default 0 (json_get v "output_tokens" ≫= as_u64))
    (json_get v "cache_creation_input_tokens" ≫= as_u64)
    (json_get v "cache_read_input_tokens" ≫= as_u64).

Definition on_usage (model : string) (v : Value) (s : IngestState) : IngestState :=
  charge (accumulate_usage v (total_usage s)) (accumulate (usage_of v) model (cost s)) s.

(** The events that do not end the loop. *)
Definition on_event (model : string) (e : ApiStreamEvent) (s : IngestState) : IngestState :=
  match e with
  | MessageStart m => match json_get m "usage" with Some v => on_usage model v s | None => s end
  | ContentBlockStart b => on_block_start b s
  | ContentBlockDelta d => on_block_delta d s
  | ContentBlockStop => on_block_stop s
  | MessageDelta d u =>
      on_usage model u
        (match str_field d "stop_reason" with Some r => with_stop (Some r) s | None => s end)
  | MessageStop | Ping | ErrorEvent _ _ => s
  end.

Inductive StreamIngest :=
| Continue (content_blocks : list ContentBlock) (stop : option string)
| Aborted
| Fatal (e : EngineError).

(** The loop. *)
Fixpoint ingest (model : string) (l : list StreamItem) (s : IngestState) : StreamIngest * IngestState :=
  match l with
  | [] => (Continue (done_blocks s) (seen_stop_reason s), s)
  | AbortFires :: _ => (Aborted, s)
  | Broken e :: _ => (Fatal (mkEngineError "stream_error" e None), s)
  | Event MessageStop :: _ => (Continue (done_blocks s) (seen_stop_reason s), s)
  | Event (ErrorEvent ty m) :: _ => (Fatal (mkEngineError ty m None), s)
  | Event e :: rest => ingest model rest (on_event model e s)
  end.

(** The last message, when it is the user's, goes with a failed call. *)
Definition pop_user (h : list Message) : list Message :=
  match last h with
  | Some m => if is_user m then take (length h - 1) h else h
  | None => h
  end.

(** Whether the stream broke before any content block was complete. *)
Fixpoint broke_empty (model : string) (l : list StreamItem) (s : IngestState) : bool :=
  match l with
  | Broken _ :: _ => match done_blocks s with [] => true | _ => false end
  | [] | AbortFires :: _ | Event MessageStop :: _ | Event (ErrorEvent _ _) :: _ => false
  | Event e :: rest => broke_empty model rest (on_event model e s)
  end.

(** [ingest_stream_events], with its effect on the history. *)
Definition ingest_stream_events (stamp : Stamp) (model : string) (l : list StreamItem)
    (u : Usage) (c : CostTracker) (h : list Message) :
    StreamIngest * Usage * CostTracker * list Message :=
  let '(r, s) := ingest model l (fresh_ingest u c) in
  let h' := match r with
            | Aborted => (cleanup_orphan_tool_uses stamp h).1
            | Fatal _ => if broke_empty model l (fresh_ingest u c) then pop_user h else h
            | Continue _ _ => h
            end in
  (r, total_usage s, cost s, h').

(** ** Reassembly *)

(** The events a provider sends for a block, its text cut into any pieces. *)
Definition start_event (fields : list (string * Value)) : StreamItem :=
  Event (ContentBlockStart (json_object fields)).

Definition delta_event (kind key piece : string) : StreamItem :=
  Event (ContentBlockDelta (json_object [("type", json_string kind); (key, json_string piece)]%string)).

Inductive streamed : ContentBlock -> list StreamItem -> Prop :=
| streamed_text pieces :
    String.concat "" pieces <> ""%string ->
    streamed (Text (String.concat "" pieces))
      (start_event [("type", json_string "text")]%string
       :: (delta_event "text_delta" "text" <$> pieces) ++ [Event ContentBlockStop])
| streamed_tool id n pieces v :
    json_parse (String.concat "" pieces) = Some v ->
    streamed (ToolUse id n v)
      (start_event [("type", json_string "tool_use"); ("id", json_string id); ("name", json_string n)]%string
       :: (delta_event "input_json_delta" "partial_json" <$> pieces) ++ [Event ContentBlockStop])
| streamed_thinking pieces :
    String.concat "" pieces <> ""%string ->
    streamed (Thinking (String.concat "" pieces))
      (start_event [("type", json_string "thinking")]%string
       :: (delta_event "thinking_delta" "thinking" <$> pieces) ++ [Event ContentBlockStop]).
End Stream.

Section Reassembly.
Context `{JL : JsonLaws}.

Lemma concat_cons x l : String.concat "" (x :: l) = x +:+ String.concat "" l.
Proof. destruct l; simpl; [by rewrite append_empty|done]. Qed.

Lemma field_object fs k t :
  NoDup fs.*1 -> assoc fs k = Some (json_string t) -> str_field (json_object fs) k = Some t.
Proof. intros Hnd Ha. unfold str_field. rewrite json_get_object, Ha by done. apply as_str_string. Qed.

(** The fields of a delta, for two different keys. *)
Lemma delta_fields kind key piece :
  key <> "type"%string ->
  let d := json_object [("type", json_string kind); (key, json_string piece)]%string in
  str_field d "type" = Some kind /\ str_field d key = Some piece.
Proof.
  intros Hne d.
  assert (Hnd : NoDup [("type", json_string kind); (key, json_string piece)]%string.*1).
  { simpl. apply NoDup_cons. split; [|apply NoDup_singleton]. by intros ?%list_elem_of_singleton. }
  split; apply field_object; try done. simpl.
  destruct (String.eqb_spec key "type"); [done|]. by rewrite String.eqb_refl.
Qed.

Lemma text_deltas model pieces rest s :
  ingest model ((delta_event "text_delta" "text" <$> pieces) ++ rest) s =
  ingest model rest (with_text (current_text s +:+ String.concat "" pieces) s).
Proof.
  revert s. induction pieces as [|x l IH]; intros s.
  { simpl. rewrite append_empty. by destruct s. }
  rewrite concat_cons. cbn [fmap list_fmap app ingest delta_event on_event]. rewrite IH. f_equal.
  unfold on_block_delta, text_field. destruct (delta_fields "text_delta" "text" x) as [-> ->]; [done|].
  destruct s. unfold with_text. simpl. by rewrite append_assoc.
Qed.

Lemma tool_deltas model pieces rest s :
  ingest model ((delta_event "input_json_delta" "partial_json" <$> pieces) ++ rest) s =
  ingest model rest (with_tool (current_tool_id s) (current_tool_name s)
                       (current_tool_input_json s +:+ String.concat "" pieces) s).
Proof.
  revert s. induction pieces as [|x l IH]; intros s.
  { simpl. rewrite append_empty. by destruct s. }
  rewrite concat_cons. cbn [fmap list_fmap app ingest delta_event on_event]. rewrite IH. f_equal.
  unfold on_block_delta, text_field.
  destruct (delta_fields "input_json_delta" "partial_json" x) as [-> ->]; [done|].
  destruct s. unfold with_tool. simpl. by rewrite append_assoc.
Qed.

Lemma thinking_deltas model pieces rest s :
  ingest model ((delta_event "thinking_delta" "thinking" <$> pieces) ++ rest) s =
  ingest model rest (with_thinking (current_thinking_text s +:+ String.concat "" pieces) s).
Proof.
  revert s. induction pieces as [|x l IH]; intros s.
  { simpl. rewrite append_empty. by destruct s. }
  rewrite concat_cons. cbn [fmap list_fmap app ingest delta_event on_event]. rewrite IH. f_equal.
  unfold on_block_delta, text_field.
  destruct (delta_fields "thinking_delta" "thinking" x) as [-> ->]; [done|].
  destruct s. unfold with_thinking. simpl. by rewrite append_assoc.
Qed.

(** What one block's events do, from any state. *)
Definition appended (b : list ContentBlock) (s s' : IngestState) : Prop :=
  done_blocks s' = done_blocks s ++ b /\ seen_stop_reason s' = seen_stop_reason s /\
  total_usage s' = total_usage s /\ cost s' = cost s.

Lemma not_empty s : s <> ""%string -> is_empty s = false.
Proof. by destruct s. Qed.

Lemma type_field fs k t :
  NoDup fs.*1 -> assoc fs "type"%string = Some (json_string t) ->
  text_field (json_object fs) "type" = t /\
  (assoc fs k = None -> json_get (json_object fs) k = None).
Proof.
  intros Hnd Ha. unfold text_field. rewrite (field_object fs _ t) by done.
  split; [done|]. by rewrite json_get_object.
Qed.

Lemma streamed_block model b es rest s :
  streamed b es ->
  exists s', ingest model (es ++ rest) s = ingest model rest s' /\ appended [b] s s'.
Proof.
  intros [pieces Hp|id n pieces v Hv|pieces Hp].
  - assert (Hnd : NoDup [("type", json_string "text")]%string.*1) by apply NoDup_singleton.
    cbn [app start_event ingest on_event]. rewrite <- (assoc_L (++)), text_deltas. eexists.
    split; [reflexivity|]. unfold on_block_start.
    destruct (type_field _ "input" "text" Hnd eq_refl) as [-> _]. simpl.
    unfold on_block_stop. simpl. by rewrite not_empty.
  - set (fs := [("type", json_string "tool_use"); ("id", json_string id); ("name", json_string n)]%string).
    assert (Hnd : NoDup fs.*1) by (by apply (bool_decide_unpack (NoDup ["type"; "id"; "name"]%string))).
    cbn [app start_event ingest on_event]. rewrite <- (assoc_L (++)), tool_deltas. eexists.
    split; [reflexivity|]. unfold on_block_start. fold fs.
    destruct (type_field fs "input" "tool_use" Hnd eq_refl) as [-> Hin]. rewrite Hin by done.
    unfold text_field. rewrite (field_object fs "id" id), (field_object fs "name" n) by done.
    unfold appended, on_block_stop, push_block, with_tool, with_kind. simpl.
    change ("" +:+ String.concat "" pieces) with (String.concat "" pieces). by rewrite Hv.
  - assert (Hnd : NoDup [("type", json_string "thinking")]%string.*1) by apply NoDup_singleton.
    cbn [app start_event ingest on_event]. rewrite <- (assoc_L (++)), thinking_deltas. eexists.
    split; [reflexivity|]. unfold on_block_start.
    destruct (type_field _ "input" "thinking" Hnd eq_refl) as [-> _]. simpl.
    unfold on_block_stop. simpl. by rewrite not_empty.
Qed.

Lemma streamed_blocks model bs ess rest s :
  Forall2 streamed bs ess ->
  exists s', ingest model (concat ess ++ rest) s = ingest model rest s' /\ appended bs s s'.
Proof.
  intros Hall. revert s. induction Hall as [|b es bs' ess' Hb _ IH]; intros s.
  { exists s. split; [done|]. unfold appended. by rewrite app_nil_r. }
  simpl concat. rewrite <- (assoc_L (++)).
  destruct (streamed_block model b es (concat ess' ++ rest) s Hb) as (s1 & -> & H1).
  destruct (IH s1) as (s' & -> & H2). exists s'. split; [done|].
  unfold appended in *. destruct H2 as (-> & -> & -> & ->), H1 as (-> & -> & -> & ->).
  by rewrite <- (assoc_L (++)).
Qed.

(** The answer of the model is put together faithfully: however a
    provider cuts the texts, thoughts and tool arguments of its blocks into
    deltas, the ingested turn holds exactly those blocks in their order, with
    nothing of one in another, and usage and cost are those the stream started
    with. *)
Theorem stream_reassembles model u c bs ess :
  Forall2 streamed bs ess ->
  let '(r, s) := ingest model (concat ess ++ [Event MessageStop]) (fresh_ingest u c) in
  r = Continue bs None /\ total_usage s = u /\ cost s = c.
Proof.
  intros Hall.
  destruct (streamed_blocks model bs ess [Event MessageStop] (fresh_ingest u c) Hall) as (s' & -> & H1 & H2 & H3 & H4).
  simpl in *. by rewrite H1, H2, H3, H4.
Qed.
End Reassembly.

Section Demo.
#[local] Existing Instances flat_json flat_json_laws.

Lemma stream_reassembles_witness :
  let text := start_event [("type", FStr "text")]%string ::
              (delta_event "text_delta" "text" <$> ["he"; ""; "llo"]%string) ++ [Event ContentBlockStop] in
  let tool := start_event [("type", FStr "tool_use"); ("id", FStr "tu"); ("name", FStr "Bash")]%string ::
              (delta_event "input_json_delta" "partial_json" <$> ["{"; "}"]%string) ++ [Event ContentBlockStop] in
  (ingest "m" (text ++ tool ++ [Event MessageStop]) (fresh_ingest EMPTY_USAGE new_cost_tracker)).1 =
  Continue [Text "hello"; ToolUse "tu" "Bash" (FObj [])] None.
Proof.
  intros text tool.
  pose proof (stream_reassembles "m" EMPTY_USAGE new_cost_tracker
                [Text "hello"; ToolUse "tu" "Bash" (FObj [])] [text; tool]) as Hs.
  change (concat [text; tool] ++ [Event MessageStop]) with (text ++ tool ++ [Event MessageStop]) in Hs.
  destruct (ingest _ _ _) as [r s]. apply Hs.
  apply Forall2_cons; split; [|apply Forall2_cons; split; [|by apply Forall2_nil]].
  - exact (streamed_text ["he"; ""; "llo"]%string ltac:(discriminate)).
  - exact (streamed_tool "tu" "Bash" ["{"; "}"]%string (FObj []) eq_refl).
Defined.
End Demo.
