(* ===== verification/Compact.v ===== *)
(** * Compact: [engine/compact] and the compaction tracker of
    [engine/query_engine.rs]

    Shrinking a history that no longer fits the model's context: summaries put
    in the place of old messages, old turns dropped, large tool results
    cleared.  What the model streams for a summary is an argument. *)

From stdpp Require Import base gmap strings list.
From Stdlib Require Import ZArith Lia.
From S2P Require Import Prelude Text Float64 Json Paths Permissions ToolHealth ToolExec Messages Stream.

#[local] Open Scope Z_scope.

(** ** The adaptive tracker *)

Record CompactFeedback := mkFeedback {
  compression_ratio : f64; tokens_before : Z; tokens_after : Z;
  user_repeated_topic : bool; feedback_time : string
}.

Record AdaptiveCompactTracker := mkAdaptive {
  history : list CompactFeedback; keep_recent : Z;
  avg_compression_ratio : f64; avg_loss_score : f64; compact_count : Z
}.

(** [AdaptiveCompactTracker::new]. *)
Definition new_adaptive : AdaptiveCompactTracker := mkAdaptive [] 10 f64_zero f64_zero 0.

(** The mean of a list, as [sum / len]. *)
Definition f64_mean (l : list f64) : f64 := f64_div (f64_sum l) (f64_of_Z (Z.of_nat (length l))).

(** The adjustment at the end of [record_compact]. *)
Definition adjust_keep (loss ratio : f64) (keep : Z) : Z :=
  if f64_lt (f64_ratio 15 100) loss then Z.min (keep + 4) 30
  else if f64_lt ratio (f64_ratio 3 10) && f64_lt loss (f64_ratio 5 100) then
    if Z.ltb 6 keep then keep - 2 else 6
  else if f64_lt loss (f64_ratio 5 100) && f64_lt (f64_ratio 6 10) ratio then
    if Z.ltb 8 keep then keep - 1 else 8
  else keep.

(** [record_compact], on the tokens before, saved and after. *)
Definition record_compact (now : string) (before saved after : Z) (repeated : bool)
    (t : AdaptiveCompactTracker) : AdaptiveCompactTracker :=
  let ratio := if Z.ltb 0 before then f64_div (f64_of_Z saved) (f64_of_Z before) else f64_zero in
  let h := history t ++ [mkFeedback ratio before after repeated now] in
  let h := if Nat.ltb 50 (length h) then drop (length h - 50) h else h in
  let avg := f64_mean (compression_ratio <$> h) in
  let loss := f64_mean ((fun f => if user_repeated_topic f then f64_ratio 3 10 else f64_zero) <$> h) in
  mkAdaptive h (adjust_keep loss avg (keep_recent t)) avg loss (add32 (compact_count t) 1).

Definition ADAPTIVE_KEEP_RECENT_MIN : Z := 8.
Definition ADAPTIVE_KEEP_RECENT_MAX : Z := 30.

(** [adaptive_keep_recent]. *)
Definition adaptive_keep_recent (t : AdaptiveCompactTracker) : nat :=
  Z.to_nat (Z.max ADAPTIVE_KEEP_RECENT_MIN (Z.min (keep_recent t) ADAPTIVE_KEEP_RECENT_MAX)).

(** The knobs of [micro_compact]. *)
Record MicroCompactConfig := mkMicro { min_age_secs : Z; min_chars : Z }.

Section Compact.
Context `{J : Json} `{Clk : Clock}.

(** ** Estimating tokens: [estimate_tokens] *)

Definition serialized_len (v : Value) : Z := Z.of_nat (str_len (default "" (to_json_string v))).

Definition block_len (b : ContentBlock) : Z :=
  match b with
  | Text t => Z.of_nat (str_len t)
  | ToolUse _ _ v => serialized_len v
  | Thinking t => Z.of_nat (str_len t)
  | Image s | Document s => Z.of_nat (str_len (source_data s))
  end.

Definition message_len (m : Message) : Z :=
  match content m with
  | User u _ _ => serialized_len (user_content u)
  | Assistant a _ _ => foldr (fun b n => block_len b + n) 0 (blocks a)
  | System _ t => Z.of_nat (str_len t)
  | Progress _ v => serialized_len v
  end.

Definition estimate_tokens (h : list Message) : Z :=
  foldr (fun m n => message_len m + n) 0 h / 4.

(** [record_compact_feedback]. *)
Definition record_compact_feedback (now : string) (before : Z) (h : list Message)
    (t : AdaptiveCompactTracker) : AdaptiveCompactTracker :=
  let after := estimate_tokens h in
  record_compact now before (sat_sub64 before after) after false t.

(** ** Where to cut: [adjust_compact_split] *)

(** The scan for the results of [ids], from index [idx] on. *)
Fixpoint find_results (ids : list string) (l : list Message) (idx : nat) (found : gset string) :
    gset string * nat :=
  match l with
  | [] => (found, idx)
  | m :: rest =>
      match content m with
      | User u _ _ =>
          let found' := found ∪ list_to_set (retain (fun id => bool_decide (id ∈ ids))
                                               (extract_tool_result_ids u)) in
          if Nat.eqb (size found') (length ids) then (found', idx)
          else find_results ids rest (S idx) found'
      | _ => find_results ids rest (S idx) found
      end
  end.

Definition adjust_compact_split (h : list Message) (split : nat) : nat :=
  if Nat.ltb 0 split && Nat.ltb split (length h) then
    match from_option uses_of [] (h !! (split - 1)%nat) with
    | [] => split
    | ids =>
        let '(found, next) := find_results ids (drop split h) split ∅ in
        if Nat.eqb (size found) (length ids) then S next
        else if Nat.ltb 1 split then (split - 1)%nat else split
    end
  else split.

(** ** Summaries *)

(** What a summary request meets: a stream, or the error it is refused with. *)
Definition SummaryReply : Type := result (list StreamItem) string.

(** The loop of [compact_messages] over the stream: the texts of the deltas; a
    broken stream ends it, an error event does not. *)
Fixpoint gather_summary (text : string) (l : list StreamItem) : result string EngineError :=
  match l with
  | [] | Broken _ :: _ => Ok text
  | AbortFires :: _ => Err (mkEngineError "compact_aborted" "User aborted compaction" None)
  | Event (ContentBlockDelta d) :: rest => gather_summary (text +:+ default "" (str_field d "text")) rest
  | Event _ :: rest => gather_summary text rest
  end.

Definition compact_summary (r : SummaryReply) : result string EngineError :=
  match r with
  | Err e => Err (mkEngineError "compact_failed" ("Failed to call summary API: " +:+ e) None)
  | Ok l => gather_summary "" l
  end.

(** The loop of [context_overflow_compact]: errors end it, and an abort keeps
    what there is. *)
Fixpoint gather_overflow (text : string) (l : list StreamItem) : result string string :=
  match l with
  | [] | AbortFires :: _ | Event MessageStop :: _ => Ok text
  | Broken e :: _ => Err e
  | Event (ErrorEvent ty m) :: _ => Err (ty +:+ ": " +:+ m)
  | Event (ContentBlockDelta d) :: rest => gather_overflow (text +:+ default "" (str_field d "text")) rest
  | Event _ :: rest => gather_overflow text rest
  end.

Definition overflow_text (r : SummaryReply) : result string string :=
  match r with Err e => Err e | Ok l => gather_overflow "" l end.

(** ** The compactions *)

(** [compact_messages]: [summary] is the reply to the summary request. *)
Definition compact_messages (s : Stamp) (keep : nat) (summary : SummaryReply)
    (h : list Message) : result (list Message) EngineError :=
  if Nat.leb (length h) keep then Ok h
  else
    let old_count := adjust_compact_split h (length h - keep) in
    match compact_summary summary with
    | Err e => Err e
    | Ok text =>
        let text := if is_empty (trim text)
                    then "[Previous conversation (" +:+ show_nat old_count +:+ " messages) was compacted]"
                    else text in
        Ok (stamped s (System CompactBoundary text) :: drop old_count h)
    end.

(** A turn starts at a user message that is not a tool result. *)
Definition is_turn_start (m : Message) : bool :=
  match content m with
  | User u _ None =>
      negb (match as_array (user_content u) with
            | Some arr => forallb is_tool_result arr
            | None => false
            end)
  | _ => false
  end.

Fixpoint turn_starts (i : nat) (h : list Message) : list nat :=
  match h with
  | [] => []
  | m :: rest => if is_turn_start m then i :: turn_starts (S i) rest else turn_starts (S i) rest
  end.

(** [reactive_compact]. *)
Definition reactive_compact (target : option Z) (h : list Message) : list Message :=
  if Nat.leb (length h) 4 then h
  else
    let starts := turn_starts 0 h in
    let n := length starts in
    if Nat.leb n 2 then h
    else
      let drop_count :=
        match target with
        | Some t =>
            let per_turn := estimate_tokens h / Z.max (Z.of_nat n) 1 in
            Nat.min (Z.to_nat (Z.max (t / Z.max per_turn 1) 1)) (n / 2)
        | None => Nat.max (n / 5) 1
        end in
      if Nat.leb n drop_count then h
      else drop (nth drop_count starts 0%nat) h.

(** [session_memory_compact]: the flag tells whether it compacted. *)
Definition session_memory_compact (s : Stamp) (summary : string) (h : list Message) :
    list Message * bool :=
  if is_empty summary then (h, false)
  else if Nat.leb (length h) 10 then (h, false)
  else
    (stamped s (System CompactBoundary ("[Session Memory]" +:+ string_of [Ascii.ascii_of_nat 10] +:+ summary))
     :: drop (length h - 10) h, true).

(** [context_overflow_compact]. *)
Definition pop_assistant (h : list Message) : list Message :=
  match last h with
  | Some m => if is_assistant m then take (length h - 1) h else h
  | None => h
  end.

Definition overflow_shrink (s : Stamp) (t : AdaptiveCompactTracker) (summary : SummaryReply)
    (h : list Message) : list Message :=
  let keep := Nat.min (adaptive_keep_recent t) (Nat.max (length h - 2) 1) in
  if Nat.leb (length h) keep then h
  else
    let recent := drop (adjust_compact_split h (length h - keep)) h in
    match overflow_text summary with
    | Ok text =>
        if is_empty text then if Nat.ltb 10 (length recent) then reactive_compact None recent else recent
        else stamped s (System CompactBoundary text) :: recent
    | Err _ => if Nat.ltb 10 (length recent) then reactive_compact None recent else recent
    end.

Definition context_overflow_compact (s : Stamp) (t : AdaptiveCompactTracker)
    (summary : SummaryReply) (h : list Message) : list Message :=
  let h1 := pop_assistant h in
  match last h1 with
  | Some user_msg => overflow_shrink s t summary (take (length h1 - 1) h1) ++ [user_msg]
  | None => overflow_shrink s t summary h1
  end.

(** ** Clearing old tool results: [micro_compact] *)

Definition tool_names (h : list Message) : gmap string string :=
  foldl (fun names m =>
           match content m with
           | Assistant a _ _ =>
               foldl (fun names b => match b with ToolUse id n _ => <[id := n]> names | _ => names end)
                 names (blocks a)
           | _ => names
           end) ∅ h.

(** One block of an old message; the placeholder opens with a bracket and a
    dash of three bytes. *)
Definition clear_block (cfg : MicroCompactConfig) (names : gmap string string) (b : Value) : Value :=
  if is_tool_result b then
    match json_get b "content" with
    | Some c =>
        let chars := char_count (bytes_of (default "" (to_json_string c))) in
        if Z.ltb (min_chars cfg) (Z.of_nat chars) then
          let label := match str_field b "tool_use_id" ≫= fun id => names !! id with
                       | Some n => n +:+ " output, "
                       | None => ""
                       end in
          json_set b "content"
            (json_string ("[Old tool result cleared " +:+
               string_of (Ascii.ascii_of_nat <$> [226; 128; 148]%nat) +:+ " " +:+ label +:+
               "originally " +:+ show_nat chars +:+ " chars]"))
        else b
    | None => b
    end
  else b.

Definition clear_message (now : Z) (cfg : MicroCompactConfig) (names : gmap string string)
    (m : Message) : Message :=
  match parse_rfc3339 (timestamp m) with
  | None => m
  | Some t =>
      if Z.ltb (Z.max 0 (now - t)) (min_age_secs cfg * 1000) then m
      else match content m with
           | User u _ _ =>
               match as_array (user_content u) with
               | Some arr => with_user_content (json_array (clear_block cfg names <$> arr)) m
               | None => m
               end
           | _ => m
           end
  end.

Definition micro_compact (now : Z) (cfg : MicroCompactConfig) (h : list Message) : list Message :=
  let start := (length h - 4)%nat in
  (clear_message now cfg (tool_names h) <$> take start h) ++ drop start h.
End Compact.

(** ** What compaction keeps *)

Section Keeps.
Context `{JL : JsonLaws} `{Clk : Clock}.

(** No message uses the same id twice. *)
Definition distinct_uses (h : list Message) : Prop := forall m, m ∈ h -> NoDup (uses_of m).

Lemma uses_or_results m : uses_of m = [] \/ results_of m = [].
Proof. unfold uses_of, results_of. destruct (content m); auto. Qed.

Lemma retain_members (l : list string) : retain (fun id => bool_decide (id ∈ l)) l = l.
Proof.
  assert (Hs : forall k, (forall x, x ∈ k -> x ∈ l) -> retain (fun id => bool_decide (id ∈ l)) k = k).
  { induction k as [|x k IH]; [done|]. intros Hk. simpl. rewrite bool_decide_eq_true_2 by (apply Hk; by left).
    by rewrite IH by (intros; apply Hk; by right). }
  by apply Hs.
Qed.

(** The results of an answered message are found at once. *)
Lemma find_results_next m l idx :
  results_of m <> [] -> NoDup (results_of m) ->
  find_results (results_of m) (m :: l) idx ∅ = (list_to_set (results_of m), idx).
Proof.
  intros Hne Hnd. simpl. unfold results_of in *. destruct (content m) as [u meta tr| | |]; try done.
  rewrite retain_members, !union_empty_l_L.
  by rewrite size_list_to_set, Nat.eqb_refl.
Qed.

(** The adjusted split falls where nothing is open, and moves by one at most. *)
Lemma adjust_split_closed h q split :
  scan [] h = Some q -> distinct_uses h -> (0 < split < length h)%nat ->
  let k := adjust_compact_split h split in
  (k = split \/ k = S split) /\ scan [] (take k h) = Some [].
Proof.
  intros Hs Hd Hlt. unfold adjust_compact_split.
  replace (Nat.ltb 0 split && Nat.ltb split (length h)) with true
    by (symmetry; apply andb_true_iff; split; apply Nat.ltb_lt; lia).
  destruct split as [|j]; [lia|]. simpl (S j - 1)%nat. rewrite Nat.sub_0_r.
  destruct (lookup_lt_is_Some_2 h j) as [m Hm]; [lia|].
  destruct (lookup_lt_is_Some_2 h (S j)) as [m' Hm']; [lia|].
  rewrite Hm. simpl from_option. pose proof (scan_split [] h q j m Hs Hm) as Hj.
  destruct (uses_of m) as [|id ids] eqn:Hu; [by split; [left|]|].
  destruct (scan_lookup [] h q j m m' Hs Hm Hm') as [Hr _]. rewrite Hu in Hr.
  erewrite drop_S by exact Hm'. rewrite <- Hr.
  assert (Hnd : NoDup (results_of m')).
  { rewrite Hr, <- Hu. by eapply Hd, list_elem_of_lookup_2. }
  rewrite find_results_next by (done || by rewrite Hr).
  rewrite size_list_to_set, Nat.eqb_refl by done. split; [by right|].
  rewrite (scan_split [] h q (S j) m' Hs Hm').
  destruct (uses_or_results m') as [->|Hn]; [done|by rewrite Hn in Hr].
Qed.

(** Putting a boundary before what follows a closed point. *)
Lemma boundary_scan s sub t h : scan [] (stamped s (System sub t) :: h) = scan [] h.
Proof. done. Qed.

Lemma compact_messages_scan s keep summary h h' q :
  scan [] h = Some q -> distinct_uses h -> (0 < keep)%nat ->
  compact_messages s keep summary h = Ok h' ->
  scan [] h' = Some q /\ (length h' <= S (Nat.max keep (length h - 1)))%nat /\
  ((keep < length h)%nat -> (length h' <= S keep)%nat).
Proof.
  intros Hs Hd Hk. unfold compact_messages. destruct (Nat.leb_spec (length h) keep) as [Hle|Hgt].
  { intros [= <-]. split_and!; [done|lia|lia]. }
  destruct (compact_summary summary) as [text|]; [|done]. intros [= <-].
  destruct (adjust_split_closed h q (length h - keep) Hs Hd) as [Hk' Hc]; [lia|].
  rewrite boundary_scan. split; [eapply scan_drop; [exact Hs|exact Hc]|]. cbn [length]. rewrite length_drop. lia.
Qed.

Lemma turn_starts_spec i h k :
  k ∈ turn_starts i h -> (i <= k)%nat /\ exists m, h !! (k - i)%nat = Some m /\ is_turn_start m = true.
Proof.
  revert i. induction h as [|m h IH]; intros i; simpl; [by intros ?%not_elem_of_nil|].
  assert (Hr : k ∈ turn_starts (S i) h ->
            (i <= k)%nat /\ exists m', (m :: h) !! (k - i)%nat = Some m' /\ is_turn_start m' = true).
  { intros (Hle & m' & Hm' & Ht)%IH. split; [lia|]. exists m'.
    by replace (k - i)%nat with (S (k - S i)) by lia. }
  destruct (is_turn_start m) eqn:Ht; [|done]. intros [->|?]%elem_of_cons; [|auto].
  split; [lia|]. exists m. by rewrite Nat.sub_diag.
Qed.

(** A turn start answers nothing, in a history where results come alone. *)
Lemma turn_start_closed p h q k m :
  scan p h = Some q -> h !! k = Some m -> is_turn_start m = true -> k <> 0%nat ->
  scan p (take k h) = Some [].
Proof.
  intros Hs Hm Ht Hk. destruct k as [|j]; [done|].
  destruct (lookup_lt_is_Some_2 h j) as [m0 Hm0].
  { apply lookup_lt_Some in Hm. lia. }
  rewrite (scan_split p h q j m0 Hs Hm0). f_equal.
  destruct (scan_lookup p h q j m0 m Hs Hm0 Hm) as [Hr [Hu|Ho]]; [done|].
  unfold is_turn_start in Ht. unfold results_only in Ho.
  destruct (content m) as [u meta [|]| | |]; try done.
  destruct (as_array (user_content u)); [|done]. by rewrite Ho in Ht.
Qed.

Lemma reactive_scan target h q :
  scan [] h = Some q ->
  scan [] (reactive_compact target h) = Some q /\
  (exists k, reactive_compact target h = drop k h).
Proof.
  intros Hs. unfold reactive_compact.
  assert (Hid : scan [] h = Some q /\ exists k, h = drop k h) by (split; [done|by exists 0%nat]).
  destruct (Nat.leb (length h) 4); [done|]. destruct (Nat.leb _ 2); [done|].
  set (starts := turn_starts 0 h). set (d := match target with Some _ => _ | None => _ end).
  destruct (Nat.leb_spec (length starts) d) as [_|Hlt]; [done|].
  split; [|by eexists].
  assert (Hin : nth d starts 0%nat ∈ starts) by (apply list_elem_of_In, nth_In; lia).
  apply turn_starts_spec in Hin as (_ & m & Hm & Ht). rewrite Nat.sub_0_r in Hm.
  destruct (nth d starts 0%nat) as [|k] eqn:Hn; [done|].
  eapply scan_drop; [exact Hs|]. by eapply turn_start_closed.
Qed.

Lemma scan_init h m q :
  scan [] (h ++ [m]) = Some q ->
  exists p, scan [] h = Some p /\ results_of m = p /\ (p = [] \/ results_only m = true) /\ uses_of m = q.
Proof.
  rewrite scan_app. destruct (scan [] h) as [p|]; [|done]. intros Hs.
  change (scan p [m] = Some q) in Hs.
  apply scan_cons_inv in Hs as (H1 & H2 & [= H3]). eauto.
Qed.

Lemma overflow_shrink_scan s t summary h q :
  scan [] h = Some q -> distinct_uses h -> scan [] (overflow_shrink s t summary h) = Some q.
Proof.
  intros Hs Hd. unfold overflow_shrink. set (keep := Nat.min _ _).
  destruct (Nat.leb_spec (length h) keep) as [?|Hgt]; [done|].
  assert (Hpos : (0 < keep)%nat).
  { unfold keep, adaptive_keep_recent, ADAPTIVE_KEEP_RECENT_MIN, ADAPTIVE_KEEP_RECENT_MAX. lia. }
  destruct (adjust_split_closed h q (length h - keep) Hs Hd ltac:(lia)) as [_ Hc].
  pose proof (scan_drop [] h q _ Hs Hc) as Hr. set (recent := drop _ h) in *.
  assert (Hrx : scan [] (if Nat.ltb 10 (length recent) then reactive_compact None recent else recent) = Some q).
  { case_match; [by apply reactive_scan|done]. }
  destruct (overflow_text summary) as [text|]; [|done]. by destruct (is_empty text).
Qed.

Lemma distinct_take h k : distinct_uses h -> distinct_uses (take k h).
Proof. intros Hd m Hm. apply Hd. rewrite <- (take_drop k h). set_solver. Qed.

Lemma other_no_uses m : is_assistant m = false -> uses_of m = [].
Proof. unfold uses_of, is_assistant. by destruct (content m). Qed.

(** Whatever calls are open at the end, none is without the last answer. *)
Lemma pop_assistant_scan h q : scan [] h = Some q -> paired (pop_assistant h).
Proof.
  unfold paired, pop_assistant. intros Hs. destruct (last h) as [m|] eqn:Hl.
  - apply last_Some in Hl as [h0 ->]. destruct (scan_init _ _ _ Hs) as (p & Hp & Hr & _ & Hu).
    destruct (is_assistant m) eqn:Ha; [|by rewrite Hs, <- Hu, other_no_uses].
    rewrite length_app. simpl. rewrite Nat.add_sub, take_app_length.
    by rewrite <- Hr, assistant_no_results in Hp.
  - apply last_None in Hl as ->. done.
Qed.

Lemma clear_block_type cfg names b :
  is_tool_result (clear_block cfg names b) = is_tool_result b /\
  result_id (clear_block cfg names b) = result_id b.
Proof.
  assert (Hset : forall v, is_some (json_get b "content") = true ->
            is_tool_result (json_set b "content" v) = is_tool_result b /\
            result_id (json_set b "content" v) = result_id b).
  { intros v Hc. unfold result_id, is_tool_result, str_field. by rewrite !json_get_set. }
  unfold clear_block. destruct (is_tool_result b) eqn:Ht; [|done].
  destruct (json_get b "content") as [c|] eqn:Hc; [|done].
  case_match; [|done]. by apply Hset.
Qed.

Lemma clear_message_same now cfg names m :
  uses_of (clear_message now cfg names m) = uses_of m /\
  results_of (clear_message now cfg names m) = results_of m /\
  (results_only m = true -> results_only (clear_message now cfg names m) = true).
Proof.
  unfold clear_message. destruct (parse_rfc3339 _); [|done]. case_match; [done|].
  unfold uses_of, results_of, results_only. destruct (content m) as [u meta tr| | |] eqn:Hc; try (by rewrite Hc).
  destruct (as_array (user_content u)) as [arr|] eqn:Ha; [|by rewrite Hc, Ha].
  unfold with_user_content. rewrite Hc. simpl. unfold extract_tool_result_ids. simpl.
  rewrite as_array_array, Ha. split_and!; [done| |].
  - clear Ha. induction arr as [|b arr IH]; [done|].
    change (omap result_id (clear_block cfg names <$> b :: arr)) with
      (match result_id (clear_block cfg names b) with
       | Some i => i :: omap result_id (clear_block cfg names <$> arr)
       | None => omap result_id (clear_block cfg names <$> arr) end).
    rewrite (proj2 (clear_block_type cfg names b)), IH. done.
  - destruct tr; [done|]. rewrite !forallb_elem. intros Hall x (b & -> & Hb)%list_elem_of_fmap.
    rewrite (proj1 (clear_block_type cfg names b)). by apply Hall.
Qed.

Lemma scan_map (f : Message -> Message) p h q :
  (forall m, uses_of (f m) = uses_of m /\ results_of (f m) = results_of m /\
             (results_only m = true -> results_only (f m) = true)) ->
  scan p h = Some q -> scan p (f <$> h) = Some q.
Proof.
  intros Hf. revert p. induction h as [|m h IH]; intros p; [done|].
  intros (Hr & Hp & Hs)%scan_cons_inv. destruct (Hf m) as (H1 & H2 & H3).
  cbn [fmap list_fmap scan]. rewrite H2, bool_decide_eq_true_2, H1 by done. simpl.
  destruct Hp as [->|Hp]; [|rewrite H3 by done].
  - rewrite bool_decide_eq_true_2 by done. by apply IH.
  - rewrite orb_true_r. by apply IH.
Qed.

Lemma micro_scan now cfg h q : scan [] h = Some q -> scan [] (micro_compact now cfg h) = Some q.
Proof.
  intros Hs. unfold micro_compact. rewrite <- (take_drop (length h - 4) h) in Hs.
  rewrite scan_app in Hs |- *. destruct (scan [] (take _ h)) as [p|] eqn:Hp; [|done].
  by rewrite (scan_map _ _ _ p (clear_message_same now cfg (tool_names h)) Hp).
Qed.

Lemma context_overflow_scan s t summary h q :
  scan [] h = Some q -> distinct_uses h -> paired (context_overflow_compact s t summary h).
Proof.
  intros Hp Hd. unfold context_overflow_compact. pose proof (pop_assistant_scan h q Hp) as Hp1.
  assert (Hd1 : distinct_uses (pop_assistant h)).
  { unfold pop_assistant. destruct (last h); [|done]. case_match; [by apply distinct_take|done]. }
  destruct (last (pop_assistant h)) as [m|] eqn:Hl; [|by apply overflow_shrink_scan].
  apply last_Some in Hl as [h0 Hh]. rewrite Hh in *.
  rewrite length_app. simpl. rewrite Nat.add_sub, take_app_length.
  apply scan_init in Hp1 as (p & Hs & Hr & Ho & Hu). unfold paired.
  replace (Some []) with (Some (uses_of m)) by (by rewrite Hu).
  eapply scan_snoc; [|exact Hr|exact Ho]. apply overflow_shrink_scan; [done|].
  intros x Hx. apply Hd1, elem_of_app. by left.
Qed.

(** Claim C32. Compaction never separates a tool call from its answer.  On a
    history in which every message answers exactly the calls of the message
    before it, with the calls [q] open at its end, and in which no message uses
    an id twice: summarizing ([compact_messages], whatever the summary says),
    dropping old turns ([reactive_compact]) and clearing old results
    ([micro_compact]) leave such a history with the same calls open, and
    recovering from an overflow ([context_overflow_compact], whether or not the
    summary succeeds), which takes back a last answer of the model, leaves one
    with none open.  A summary keeps at most one message more than asked. *)
Theorem compaction_keeps_pairs s keep summary t target now cfg h q :
  scan [] h = Some q -> distinct_uses h -> (0 < keep)%nat ->
  (forall h', compact_messages s keep summary h = Ok h' ->
     scan [] h' = Some q /\ ((keep < length h)%nat -> (length h' <= S keep)%nat)) /\
  scan [] (reactive_compact target h) = Some q /\
  scan [] (micro_compact now cfg h) = Some q /\
  scan [] (context_overflow_compact s t summary h) = Some [].
Proof.
  intros Hp Hd Hk. split_and!.
  - intros h' Hc. destruct (compact_messages_scan s keep summary h h' q Hp Hd Hk Hc) as (H1 & _ & H3). done.
  - by apply reactive_scan.
  - by apply micro_scan.
  - by eapply context_overflow_scan.
Qed.
End Keeps.

(** ** Concrete histories *)

Section Demo.
#[local] Existing Instances flat_json flat_json_laws demo_clock.

(** Two questions, and a long run of tool calls after them. *)
Definition long_history : list Message :=
  [says "hi"; says "do it"] ++ concat (replicate 6 [asks ["a"]; answers ["a"]]).

(** Compaction from the session summary takes the last ten messages wherever
    that cuts: here before an answer. *)
Example session_memory_cuts_pair :
  let h := long_history ++ [says "go on"] in
  paired h /\ scan [] (session_memory_compact demo_stamp "notes" h).1 = None.
Proof. vm_compute. split; reflexivity. Qed.

(** A summary stream that reports an error still counts as a summary: the
    history it should have condensed is replaced by a placeholder. *)
Example failed_summary_loses_history :
  length <$> (match compact_messages demo_stamp 8 (Ok [Event (ErrorEvent "overloaded_error" "busy")]) long_history
              with Ok h => Some h | Err _ => None end) = Some 9%nat.
Proof. vm_compute. reflexivity. Qed.

Lemma compaction_keeps_pairs_witness :
  let h := long_history ++ [asks ["a"; "b"]] in
  scan [] h = Some ["a"; "b"] /\ scan [] (reactive_compact None h) = Some ["a"; "b"] /\
  paired (context_overflow_compact demo_stamp new_adaptive (Err "overloaded"%string) h).
Proof.
  intros h.
  destruct (compaction_keeps_pairs demo_stamp 4 (Err "overloaded"%string) new_adaptive None 0
              (mkMicro 0 0) h ["a"; "b"]) as (_ & H & _ & Hp).
  - reflexivity.
  - intros m Hm. apply (bool_decide_unpack (NoDup (uses_of m))).
    revert m Hm. apply Forall_forall. apply (bool_decide_unpack _). vm_compute. exact I.
  - lia.
  - split_and!; [reflexivity|exact H|exact Hp].
Defined.
End Demo.
