(* ===== verification/Query.v ===== *)
(** * Query: [engine/query_loop.rs] and [engine/failover.rs]

    The loop that answers one query: call the model (falling back over models
    and compacting when it must), run the tools it asks for, and stop at an
    answer, a limit or an error.  One iteration is one step; what the outside
    contributes to an iteration is an [Iter]. *)

From stdpp Require Import base gmap strings list.
From Stdlib Require Import ZArith Lia SpecFloat.
From S2P Require Import Prelude Text Float64 Json Paths Permissions ToolHealth ToolExec Messages.
From S2P Require Import Resilience Stream Compact.

#[local] Open Scope Z_scope.

Definition MAX_COMPACT_FAILURES : Z := 3.
Definition MAX_SERVER_RETRIES : Z := 3.
Definition MAX_EMPTY_STREAM_RETRIES : Z := 2.
Definition MAX_OVERFLOW_COMPACT_RETRIES : Z := 2.

(** ** Errors of a call: [api/client.rs] *)

Inductive ApiError :=
| HttpError (status : Z) (message : string)
| NetworkError (e : string)
| ParseError (e : string)
| RateLimited
| ServerError (status : Z)
| AuthError
| BadRequest (message : string).

(** [Display for ApiError]. *)
Definition show_Z (n : Z) : string := show_nat (Z.to_nat n).

Definition api_error_to_string (e : ApiError) : string :=
  match e with
  | HttpError s m => "HTTP error: status " +:+ show_Z s +:+ ", message: " +:+ m
  | NetworkError m => "Network error: " +:+ m
  | ParseError m => "Parse error: " +:+ m
  | RateLimited => "Rate limited (429)"
  | ServerError s => "Server error (" +:+ show_Z s +:+ ")"
  | AuthError => "Auth error (401)"
  | BadRequest m => "Bad request (400): " +:+ m
  end.

(** The letters [to_lowercase] turns into ASCII: the capitals, and the Kelvin
    sign (three bytes). *)
Fixpoint lower_letters (l : list byte) : list byte :=
  match l with
  | a :: l' =>
      match l' with
      | b :: c :: l'' =>
          if Ascii.eqb a (Ascii.ascii_of_nat 226) && Ascii.eqb b (Ascii.ascii_of_nat 132)
             && Ascii.eqb c (Ascii.ascii_of_nat 170)
          then Ascii.ascii_of_nat 107 :: lower_letters l''
          else lower_byte a :: lower_letters l'
      | _ => lower_byte a :: lower_letters l'
      end
  | [] => []
  end.

(** The test for a context overflow: some word in the lower-cased message. *)
Definition looks_like_overflow (message : string) : bool :=
  let m := string_of (lower_letters (bytes_of message)) in
  str_contains m "context" || str_contains m "token" || str_contains m "too large"
  || str_contains m "too long".

(** [BudgetStatus] of the token counter. *)
Inductive BudgetStatus := BudgetNormal | BudgetCompact | BudgetWarning | BudgetBlocking.

Inductive QueryStatus := Complete | MaxTurns | QueryAborted | QueryError.

Section Query.
Context `{J : Json} `{FS : FileSystem} `{Clk : Clock}.

(** The object [json!] builds for an aborted tool, and [format!("{:.4}")]. *)
Context (abort_output : Value) (format_cost : f64 -> string).

(** ** State and environment *)

Record QueryConfig := mkConfig {
  config_model : string;
  query_fallback_models : list string;
  retries_per_model : Z;
  max_turns : option Z;
  max_budget_usd : option f64;
  max_tokens_budget : option Z;
  micro : MicroCompactConfig;
  tools : list Tool;
  gated : bool
}.

(** The variables of [run_query_loop]. *)
Record Query := mkQuery {
  messages : list Message;
  turn_count : Z;
  query_usage : Usage;
  query_cost : CostTracker;
  warned_70 : bool;
  warned_90 : bool;
  budget_grace_turn : option Z;
  empty_stream_retries : Z;
  overflow_retries : Z;
  controller : FallbackController;
  compact_fail_count : Z;
  adaptive : AdaptiveCompactTracker;
  world : World
}.

Inductive Reply :=
| Streaming (items : list StreamItem)
| Refused (e : ApiError)
| NoAnswer.                       (* the five-minute timeout *)

(** One iteration's share of the outside. *)
Record Iter := mkIter {
  aborted : bool;
  stamp : nat -> Stamp;           (* for the messages made in it *)
  now : Z;
  now_text : string;
  budget_status : BudgetStatus;
  session_memory : option string;
  mid_summary : SummaryReply;
  failover_summary : SummaryReply;
  overflow_summary : SummaryReply;
  reply : Reply;
  exec : ExecEnv;
  order : list (nat * ToolUseRequest * Tool) -> list (nat * ToolUseRequest * Tool);
  tool_context : ToolContext;
  recorded_at : Z
}.

Record QueryResult := mkResult {
  status : QueryStatus; result_error : option EngineError;
  result_text : option string; result_stop : option string; num_turns : Z
}.

Inductive Step := Next (q : Query) | Finished (r : QueryResult) (q : Query).

Definition set_messages (h : list Message) (q : Query) : Query :=
  mkQuery h (turn_count q) (query_usage q) (query_cost q) (warned_70 q) (warned_90 q)
    (budget_grace_turn q) (empty_stream_retries q) (overflow_retries q) (controller q)
    (compact_fail_count q) (adaptive q) (world q).
Definition set_turns (n : Z) (q : Query) : Query :=
  mkQuery (messages q) n (query_usage q) (query_cost q) (warned_70 q) (warned_90 q)
    (budget_grace_turn q) (empty_stream_retries q) (overflow_retries q) (controller q)
    (compact_fail_count q) (adaptive q) (world q).
Definition set_spent (u : Usage) (c : CostTracker) (q : Query) : Query :=
  mkQuery (messages q) (turn_count q) u c (warned_70 q) (warned_90 q)
    (budget_grace_turn q) (empty_stream_retries q) (overflow_retries q) (controller q)
    (compact_fail_count q) (adaptive q) (world q).
Definition set_warned (a b : bool) (q : Query) : Query :=
  mkQuery (messages q) (turn_count q) (query_usage q) (query_cost q) a b
    (budget_grace_turn q) (empty_stream_retries q) (overflow_retries q) (controller q)
    (compact_fail_count q) (adaptive q) (world q).
Definition set_grace (g : option Z) (q : Query) : Query :=
  mkQuery (messages q) (turn_count q) (query_usage q) (query_cost q) (warned_70 q) (warned_90 q)
    g (empty_stream_retries q) (overflow_retries q) (controller q)
    (compact_fail_count q) (adaptive q) (world q).
Definition set_retries (e o : Z) (q : Query) : Query :=
  mkQuery (messages q) (turn_count q) (query_usage q) (query_cost q) (warned_70 q) (warned_90 q)
    (budget_grace_turn q) e o (controller q) (compact_fail_count q) (adaptive q) (world q).
Definition set_controller (f : FallbackController) (q : Query) : Query :=
  mkQuery (messages q) (turn_count q) (query_usage q) (query_cost q) (warned_70 q) (warned_90 q)
    (budget_grace_turn q) (empty_stream_retries q) (overflow_retries q) f
    (compact_fail_count q) (adaptive q) (world q).
Definition set_compaction (n : Z) (t : AdaptiveCompactTracker) (q : Query) : Query :=
  mkQuery (messages q) (turn_count q) (query_usage q) (query_cost q) (warned_70 q) (warned_90 q)
    (budget_grace_turn q) (empty_stream_retries q) (overflow_retries q) (controller q) n t (world q).
Definition set_world (w : World) (q : Query) : Query :=
  mkQuery (messages q) (turn_count q) (query_usage q) (query_cost q) (warned_70 q) (warned_90 q)
    (budget_grace_turn q) (empty_stream_retries q) (overflow_retries q) (controller q)
    (compact_fail_count q) (adaptive q) w.

Definition user_text (s : Stamp) (t : string) : Message :=
  stamped s (User (mkUserMessage "user" (json_string t)) false None).

Definition push (m : Message) (q : Query) : Query := set_messages (messages q ++ [m]) q.

(** The query a config starts with; [BaoclawConfig]'s other fields are the
    defaults. *)
Definition query_chain (c : QueryConfig) : ChainConfig :=
  mkChainConfig (config_model c) (query_fallback_models c) ∅ None [] (retries_per_model c).

Definition new_query (c : QueryConfig) (h : list Message) (fails : Z) (t : AdaptiveCompactTracker)
    (w : World) : Query :=
  mkQuery h 0 EMPTY_USAGE (reset_query new_cost_tracker) false false None 0 0 (new_controller (query_chain c)) fails t w.

(** ** The top of the loop *)

Definition max_turns_text : string :=
  "[System: Iteration budget EXHAUSTED. You MUST produce your final response NOW. Do NOT use any tools.]".
Definition budget_text : string :=
  "[System: Resource budget EXHAUSTED (cost/token limit). You MUST produce your final response NOW. Do NOT use any tools.]".
Definition warn_70_text : string :=
  "[System: Iteration budget at 70%. Prioritize wrapping up the current task.]".
Definition warn_90_text : string :=
  "[System: Iteration budget at 90% (CRITICAL). You must produce a final answer now. Do NOT start new sub-tasks.]".

Definition tokens_used (q : Query) : Z :=
  sat_add64 (input_tokens (query_usage q)) (output_tokens (query_usage q)).

Definition cost_hit (c : QueryConfig) (q : Query) : bool :=
  match max_budget_usd c with Some b => f64_ge (current_query_cost (query_cost q)) b | None => false end.
Definition token_hit (c : QueryConfig) (q : Query) : bool :=
  match max_tokens_budget c with Some t => Z.leb t (tokens_used q) | None => false end.

Definition budget_error (c : QueryConfig) (q : Query) : EngineError :=
  let which := if cost_hit c q && token_hit c q then "cost and token budgets"
               else if cost_hit c q then "cost budget" else "token budget" in
  mkEngineError "budget_exceeded"
    ("Query " +:+ which +:+ " reached: stopped after " +:+ show_Z (turn_count q) +:+ " turn(s), $" +:+
     format_cost (current_query_cost (query_cost q)) +:+ ", " +:+ show_Z (tokens_used q) +:+ " tokens") None.

Definition finish (s : QueryStatus) (e : option EngineError) (t stop : option string) (q : Query) : Step :=
  Finished (mkResult s e t stop (turn_count q)) q.

(** The abort test. *)
Definition check_abort (i : Iter) (q : Query) : Step :=
  if aborted i then
    finish QueryAborted None None None
      (set_messages (cleanup_orphan_tool_uses (stamp i 0) (messages q)).1 q)
  else Next q.

(** The cost and token budgets. *)
Definition check_budget (c : QueryConfig) (i : Iter) (q : Query) : Step :=
  if cost_hit c q || token_hit c q then
    if match budget_grace_turn q with Some g => Z.ltb g (turn_count q) | None => false end
    then finish QueryError (Some (budget_error c q)) None None q
    else match budget_grace_turn q with
         | None => Next (set_grace (Some (turn_count q)) (push (user_text (stamp i 0) budget_text) q))
         | Some _ => Next q
         end
  else Next q.

(** [inject_iteration_budget_warnings]; the ratio is computed in [f32]. *)
Definition turn_ratio (n m : Z) : spec_float := f32_div (f32_of_Z n) (f32_of_Z m).

Definition inject_iteration_budget_warnings (c : QueryConfig) (i : Iter) (q : Query) : Query :=
  match max_turns c with
  | None => q
  | Some m =>
      let ratio := turn_ratio (turn_count q) m in
      let q := if f64_ge ratio (f32_ratio 7 10) && negb (warned_70 q)
               then push (user_text (stamp i 1) warn_70_text) (set_warned true (warned_90 q) q) else q in
      if f64_ge ratio (f32_ratio 9 10) && negb (warned_90 q)
      then push (user_text (stamp i 2) warn_90_text) (set_warned (warned_70 q) true q) else q
  end.

(** The turn limit: one more call past it, then the end. *)
Definition check_turns (c : QueryConfig) (i : Iter) (q : Query) : Step :=
  match max_turns c with
  | None => Next q
  | Some m =>
      if Z.leb m (turn_count q) then
        if Z.ltb m (turn_count q) then finish MaxTurns None None None q
        else Next (push (user_text (stamp i 3) max_turns_text) q)
      else Next q
  end.

Definition compacted (i : Iter) (before : Z) (h : list Message) (q : Query) : Query :=
  set_compaction 0 (record_compact_feedback (now_text i) before h (adaptive q)) (set_messages h q).

(** [enforce_token_budget]. *)
Definition enforce_token_budget (i : Iter) (q : Query) : Query :=
  match budget_status i with
  | BudgetCompact | BudgetBlocking =>
      if Nat.ltb 5 (length (messages q)) then
        if Z.leb MAX_COMPACT_FAILURES (compact_fail_count q) then q
        else
          let before := estimate_tokens (messages q) in
          let '(h, ok) := match session_memory i with
                          | Some t => session_memory_compact (stamp i 4) t (messages q)
                          | None => (messages q, false)
                          end in
          if ok then compacted i before h q
          else match compact_messages (stamp i 4) (adaptive_keep_recent (adaptive q)) (mid_summary i)
                       (messages q) with
               | Ok h => compacted i before h q
               | Err _ => set_compaction (compact_fail_count q + 1) (adaptive q) q
               end
      else q
  | BudgetNormal | BudgetWarning => q
  end.

(** ** Calling the model: [call_api_with_fallback] *)

Inductive ApiCallOutcome :=
| Stream (items : list StreamItem)
| RetryCall (slept : Z)
| FatalCall (e : EngineError).

Definition exhausted_error (tried : list string) (total : Z) : EngineError :=
  mkEngineError "all_models_exhausted"
    ("All models exhausted after " +:+ show_Z total +:+ " retries. Tried: " +:+ String.concat ", " tried)
    (Some (json_object [("models_tried", json_array (json_string <$> tried));
                        ("total_retries", json_int total)]%string)).

Definition fatal (e : EngineError) (q : Query) : ApiCallOutcome * Query :=
  (FatalCall e, set_messages (pop_user (messages q)) q).

(** A rate limit. *)
Definition on_rate_limited (q : Query) : ApiCallOutcome * Query :=
  let '(a, f) := on_rate_limit (controller q) in
  let q := set_controller f q in
  match a with
  | Resilience.Retry _ _ delay => (RetryCall delay, q)
  | Resilience.Fallback _ _ => (RetryCall 0, q)
  | Exhausted tried total => fatal (exhausted_error tried total) q
  end.

(** A server error. *)
Definition on_server_failure (status : Z) (q : Query) : ApiCallOutcome * Query :=
  let n := server_error_count (controller q) in
  if Z.ltb n MAX_SERVER_RETRIES then
    (RetryCall (mul64 1000 (2 ^ n)), set_controller (on_server_error (controller q)) q)
  else
    let '(a, f) := on_server_error_exhausted (controller q) in
    let q := set_controller f q in
    match a with
    | Resilience.Fallback _ _ => (RetryCall 0, q)
    | _ => fatal (mkEngineError "api_server_error"
                    ("Server error " +:+ show_Z status +:+ " after exhausting retries and fallbacks") None) q
    end.

(** A bad request: compact and try again when it looks like an overflow. *)
Definition on_bad_request (i : Iter) (m : string) (q : Query) : ApiCallOutcome * Query :=
  let err := mkEngineError "api_bad_request" m None in
  if looks_like_overflow m then
    if Z.leb MAX_COMPACT_FAILURES (compact_fail_count q) then
      (RetryCall 0, set_messages (reactive_compact None (messages q)) q)
    else
      let before := estimate_tokens (messages q) in
      match compact_messages (stamp i 5) (adaptive_keep_recent (adaptive q)) (failover_summary i)
              (messages q) with
      | Ok h => (RetryCall 0, compacted i before h q)
      | Err _ => fatal err (set_messages (reactive_compact None (messages q))
                              (set_compaction (compact_fail_count q + 1) (adaptive q) q))
      end
  else fatal err q.

Definition call_api_with_fallback (i : Iter) (q : Query) : ApiCallOutcome * Query :=
  match reply i with
  | NoAnswer => fatal (mkEngineError "timeout" "API call timed out after 5 minutes" None) q
  | Streaming items => (Stream items, q)
  | Refused RateLimited => on_rate_limited q
  | Refused (ServerError s) => on_server_failure s q
  | Refused (BadRequest m) => on_bad_request i m q
  | Refused e => fatal (mkEngineError "api_error" (api_error_to_string e) None) q
  end.

(** ** A turn with tools: [execute_tool_turn] *)

(** One result, in the health tracker: successes under any name, failures of
    the tools there are. *)
Definition record_result (at_ : Z) (l : list Tool) (t : ToolHealthTracker) (r : ToolExecutionResult) :
    ToolHealthTracker :=
  if failed r then
    if existsb (fun tool => String.eqb (name tool) (result_name r)) l
    then record_failure at_ (result_name r)
           (truncate_chars 200 (default "" (to_json_string (output r)))) t
    else t
  else record_success at_ (result_name r) t.

Definition record_results (at_ : Z) (l : list Tool) (rs : list ToolExecutionResult) (w : World) : World :=
  mkWorld (bridge w) ((fun t => foldl (record_result at_ l) t rs) <$> tool_health w).

Definition execute_tool_turn (c : QueryConfig) (i : Iter) (uses : list ToolUseRequest) (q : Query) :
    Query :=
  let '(rs, w) := execute_tools abort_output (exec i) (gated c) (order i) (tools c) uses (tool_context i)
                    (world q) in
  push (build_tool_result_message (stamp i 8) rs) (set_world (record_results (recorded_at i) (tools c) rs w) q).

(** ** The body of the loop *)

(** The answer of the model, in the history. *)
Definition record_assistant_turn (i : Iter) (bs : list ContentBlock) (stop : option string) (q : Query) :
    Query :=
  push (stamped (stamp i 7)
          (Assistant (mkAssistantMessage "assistant" bs stop None) (current_query_cost (query_cost q)) 0)) q.

(** An answer without any content: again, a few times. *)
Definition empty_answer (stop : option string) (q : Query) : Step :=
  if Z.ltb (empty_stream_retries q) MAX_EMPTY_STREAM_RETRIES then
    let q := set_retries (empty_stream_retries q + 1) (overflow_retries q) q in
    Next (set_messages (pop_assistant (messages q)) q)
  else
    finish QueryError
      (Some (mkEngineError "empty_stream"
               ("Model returned an empty stream (no content) after " +:+
                show_Z (empty_stream_retries q) +:+ " retries") None))
      None stop q.

(** No tools: the query is complete. *)
Definition complete_answer (bs : list ContentBlock) (stop : option string) (q : Query) : Step :=
  finish Complete None (extract_text bs) stop q.

(** After a turn without tool uses. *)
Definition without_tools (i : Iter) (bs : list ContentBlock) (stop : option string) (q : Query) : Step :=
  if bool_decide (stop = Some "model_context_window_exceeded"%string) then
    if Z.leb MAX_OVERFLOW_COMPACT_RETRIES (overflow_retries q) then
      finish QueryError
        (Some (mkEngineError "context_overflow" "Context window still exceeded after repeated compactions" None))
        None stop q
    else
      let q := set_retries (empty_stream_retries q) (overflow_retries q + 1) q in
      Next (set_messages (context_overflow_compact (stamp i 6) (adaptive q) (overflow_summary i) (messages q)) q)
  else match bs with [] => empty_answer stop q | _ => complete_answer bs stop q end.

(** From the stream of an answer to the end of the iteration. *)
Definition answer_turn (c : QueryConfig) (i : Iter) (items : list StreamItem) (q : Query) : Step :=
  let '(r, u, cost, h) := ingest_stream_events (stamp i 0) (config_model c) items (query_usage q)
                            (query_cost q) (messages q) in
  let q := set_messages h (set_spent u cost q) in
  match r with
  | Aborted => finish QueryAborted None None None q
  | Fatal e => finish QueryError (Some e) None None q
  | Continue bs stop =>
      let q := match bs with [] => q | _ => set_retries 0 0 q end in
      let q := record_assistant_turn i bs stop q in
      match extract_tool_uses bs with
      | [] => without_tools i bs stop q
      | uses => let q := execute_tool_turn c i uses q in Next (set_turns (add32 (turn_count q) 1) q)
      end
  end.

Definition call_turn (c : QueryConfig) (i : Iter) (q : Query) : Step :=
  let '(out, q) := call_api_with_fallback i q in
  match out with
  | RetryCall _ => Next q
  | FatalCall e => finish QueryError (Some e) None None q
  | Stream items => answer_turn c i items q
  end.

Definition and_then (s : Step) (k : Query -> Step) : Step :=
  match s with Next q => k q | Finished r q => Finished r q end.

(** The part of an iteration before the call. *)
Definition prepare_turn (c : QueryConfig) (i : Iter) (q : Query) : Step :=
  and_then (check_abort i q) (fun q =>
  and_then (check_budget c i q) (fun q =>
  and_then (check_turns c i (inject_iteration_budget_warnings c i q)) (fun q =>
  let q := set_messages (micro_compact (now i) (micro c) (messages q)) q in
  Next (enforce_token_budget i q)))).

(** One iteration of [run_query_loop]. *)
Definition iteration (c : QueryConfig) (i : Iter) (q : Query) : Step :=
  and_then (prepare_turn c i q) (call_turn c i).

(** [n] iterations at most. *)
Fixpoint run (c : QueryConfig) (env : nat -> Iter) (k n : nat) (q : Query) : Step :=
  match n with
  | O => Next q
  | S n' => and_then (iteration c (env k) q) (run c env (S k) n')
  end.
End Query.
