(* ===== verification/QueryProofs.v ===== *)
(** * QueryProofs: what the query loop guarantees

    Its limits hold, it ends unless the context overflows in the two ways
    nothing counts, its history keeps tool calls and answers together, and a
    tool that keeps failing is cut off. *)

From stdpp Require Import base gmap strings list.
From Stdlib Require Import ZArith Lia SpecFloat.
From S2P Require Import Prelude Text Float64 Json Paths Permissions ToolHealth ToolExec ToolExecProofs.
From S2P Require Import Messages Resilience Stream Compact Query.

#[local] Open Scope Z_scope.

Section Loop.
Context `{J : Json} `{FS : FileSystem} `{Clk : Clock}.
Context (abort_output : Value) (format_cost : f64 -> string).

#[local] Abbreviation iteration := (iteration abort_output format_cost).
#[local] Abbreviation run := (run abort_output format_cost).
#[local] Abbreviation prepare_turn := (prepare_turn format_cost).
#[local] Abbreviation call_turn := (call_turn abort_output).

(** ** Before the call, only the history and its compaction change *)

Record same_run (q q' : Query) : Prop := mkSameRun {
  same_turns : turn_count q' = turn_count q;
  same_empty : empty_stream_retries q' = empty_stream_retries q;
  same_overflow : overflow_retries q' = overflow_retries q;
  same_controller : controller q' = controller q;
  same_world : world q' = world q
}.

Lemma same_refl q : same_run q q.
Proof. done. Qed.

Lemma same_trans q1 q2 q3 : same_run q1 q2 -> same_run q2 q3 -> same_run q1 q3.
Proof. intros [] []. split; congruence. Qed.

Definition state_of (s : Step) : Query := match s with Next q | Finished _ q => q end.

Lemma check_abort_same i q : same_run q (state_of (check_abort i q)).
Proof. unfold check_abort. by destruct (aborted i). Qed.

Lemma check_budget_same c i q : same_run q (state_of (check_budget format_cost c i q)).
Proof. unfold check_budget. repeat case_match; done. Qed.

Lemma inject_same c i q : same_run q (inject_iteration_budget_warnings c i q).
Proof. unfold inject_iteration_budget_warnings. repeat case_match; done. Qed.

Lemma check_turns_same c i q : same_run q (state_of (check_turns c i q)).
Proof. unfold check_turns. repeat case_match; done. Qed.

Lemma enforce_same i q : same_run q (enforce_token_budget i q).
Proof. unfold enforce_token_budget, compacted. repeat case_match; done. Qed.

Lemma prepare_same c i q : same_run q (state_of (prepare_turn c i q)).
Proof.
  unfold prepare_turn. pose proof (check_abort_same i q) as H1.
  destruct (check_abort i q) as [q1|r q1]; simpl in *; [|done].
  pose proof (check_budget_same c i q1) as H2.
  destruct (check_budget _ c i q1) as [q2|r q2]; simpl in *; [|by eapply same_trans].
  pose proof (inject_same c i q2) as H3. set (q3 := inject_iteration_budget_warnings c i q2) in *.
  pose proof (check_turns_same c i q3) as H4.
  destruct (check_turns c i q3) as [q4|r q4]; simpl in *.
  - eapply same_trans; [exact H1|]. eapply same_trans; [exact H2|]. eapply same_trans; [exact H3|].
    eapply same_trans; [exact H4|]. eapply same_trans; [|apply enforce_same]. done.
  - eapply same_trans; [exact H1|]. eapply same_trans; [exact H2|]. by eapply same_trans.
Qed.

(** A prepared call is within the turn limit. *)
Lemma prepare_within c i q q' m :
  prepare_turn c i q = Next q' -> max_turns c = Some m -> turn_count q <= m.
Proof.
  intros Hp Hm. unfold prepare_turn in Hp. pose proof (check_abort_same i q) as H1.
  destruct (check_abort i q) as [q1|]; simpl in *; [|done].
  pose proof (check_budget_same c i q1) as H2.
  destruct (check_budget _ c i q1) as [q2|]; simpl in *; [|done].
  pose proof (inject_same c i q2) as H3. set (q3 := inject_iteration_budget_warnings c i q2) in *.
  assert (Ht : turn_count q3 = turn_count q).
  { by rewrite (same_turns _ _ H3), (same_turns _ _ H2), (same_turns _ _ H1). }
  unfold check_turns in Hp. rewrite Hm, Ht in Hp.
  destruct (Z.leb_spec m (turn_count q)); [|lia].
  destruct (Z.ltb_spec m (turn_count q)); [done|lia].
Qed.

(** ** What one call does *)

(** The world after a batch of tool calls, and after [k] of them. *)
Definition batch_world (c : QueryConfig) (i : Iter) (uses : list ToolUseRequest) (w : World) : World :=
  let '(rs, w') := execute_tools abort_output (exec i) (gated c) (order i) (tools c) uses (tool_context i) w in
  record_results (recorded_at i) (tools c) rs w'.

Inductive ran (c : QueryConfig) : nat -> World -> World -> Prop :=
| ran_none w : ran c 0 w w
| ran_batch k w w' i uses : ran c k w w' -> uses <> [] -> ran c (S k) w (batch_world c i uses w').

Lemma execute_tool_turn_state c i uses q :
  let q' := execute_tool_turn abort_output c i uses q in
  world q' = batch_world c i uses (world q) /\ turn_count q' = turn_count q /\
  empty_stream_retries q' = empty_stream_retries q /\ overflow_retries q' = overflow_retries q /\
  controller q' = controller q.
Proof.
  unfold execute_tool_turn, batch_world. by destruct (execute_tools _ _ _ _ _ _ _ _) as [rs w].
Qed.

(** The three ways a stream lets the loop go on. *)
Inductive went_on (c : QueryConfig) (i : Iter) (q q' : Query) : list ContentBlock -> option string -> Prop :=
| ran_tools bs stop :
    extract_tool_uses bs <> [] -> turn_count q' = add32 (turn_count q) 1 ->
    empty_stream_retries q' = 0 -> overflow_retries q' = 0 ->
    world q' = batch_world c i (extract_tool_uses bs) (world q) -> went_on c i q q' bs stop
| overflowed bs :
    extract_tool_uses bs = [] -> turn_count q' = turn_count q -> world q' = world q ->
    (empty_stream_retries q' = match bs with [] => empty_stream_retries q | _ => 0 end) ->
    (match bs with [] => overflow_retries q | _ => 0 end < MAX_OVERFLOW_COMPACT_RETRIES) ->
    (overflow_retries q' = match bs with [] => overflow_retries q | _ => 0 end + 1) ->
    went_on c i q q' bs (Some "model_context_window_exceeded"%string)
| came_empty stop :
    empty_stream_retries q < MAX_EMPTY_STREAM_RETRIES -> turn_count q' = turn_count q ->
    world q' = world q -> empty_stream_retries q' = empty_stream_retries q + 1 ->
    overflow_retries q' = overflow_retries q -> went_on c i q q' [] stop.

Lemma answer_turn_next c i items q q' :
  answer_turn abort_output c i items q = Next q' ->
  controller q' = controller q /\
  exists bs stop,
    (ingest (config_model c) items (fresh_ingest (query_usage q) (query_cost q))).1 = Continue bs stop /\
    went_on c i q q' bs stop.
Proof.
  unfold answer_turn, ingest_stream_events.
  destruct (ingest _ items _) as [[bs stop| |e] s]; simpl; [|done|done].
  set (q1 := match bs with [] => _ | _ => _ end).
  assert (H1 : turn_count q1 = turn_count q /\ world q1 = world q /\ controller q1 = controller q /\
    empty_stream_retries q1 = match bs with [] => empty_stream_retries q | _ => 0 end /\
    overflow_retries q1 = match bs with [] => overflow_retries q | _ => 0 end) by (subst q1; by destruct bs).
  destruct H1 as (H1 & H2 & H3 & H4 & H5). clearbody q1.
  set (q2 := record_assistant_turn i bs stop q1).
  destruct (extract_tool_uses bs) as [|use uses] eqn:Hu.
  - unfold without_tools, empty_answer, complete_answer. case_bool_decide as Hstop.
    + destruct (Z.leb_spec MAX_OVERFLOW_COMPACT_RETRIES (overflow_retries q2)) as [|Hlt]; [done|].
      intros [= <-]. simpl in *. split; [done|]. exists bs, stop. split; [done|]. subst stop.
      apply overflowed; simpl; try done; by rewrite H5 in *.
    + destruct bs as [|b bs]; [|done].
      destruct (Z.ltb_spec (empty_stream_retries q2) MAX_EMPTY_STREAM_RETRIES) as [Hlt|]; [|done].
      intros [= <-]. simpl in *. split; [done|]. exists [], stop. split; [done|].
      apply came_empty; simpl; congruence.
  - intros [= <-]. rewrite <- Hu.
    pose proof (execute_tool_turn_state c i (extract_tool_uses bs) q2) as (E1 & E2 & E3 & E4 & E5).
    cbn [set_turns turn_count world controller empty_stream_retries overflow_retries].
    split; [by rewrite E5|]. exists bs, stop. split; [done|]. destruct bs as [|b bs]; [done|].
    apply ran_tools; simpl in *; congruence.
Qed.

(** A transient error costs one unit of what is left of the fallback chain. *)
Definition chain_left (f : FallbackController) : Z :=
  (Z.of_nat (length (chain f)) - 1 - Z.of_nat (current_index f)) * (per_model (max_retries_per_model f) + 3) +
  (per_model (max_retries_per_model f) - 1 - retry_count f) + (MAX_SERVER_RETRIES - server_error_count f).

Record chain_ok (f : FallbackController) : Prop := mkChainOk {
  ok_index : (current_index f < length (chain f))%nat;
  ok_retries : 0 <= retry_count f <= per_model (max_retries_per_model f) - 1;
  ok_errors : 0 <= server_error_count f <= MAX_SERVER_RETRIES;
  ok_limit : 0 <= max_retries_per_model f <= u32_max
}.

Lemma chain_left_nonneg f : chain_ok f -> 0 <= chain_left f.
Proof. intros []. unfold chain_left, per_model in *. nia. Qed.

Lemma next_model_left f :
  chain_ok f -> (S (current_index f) < length (chain f))%nat ->
  chain_ok (next_model f) /\ chain_left (next_model f) < chain_left f.
Proof.
  intros [] Hn. unfold chain_left, MAX_SERVER_RETRIES in *. split; [split|]; simpl; try lia;
    unfold per_model, MAX_SERVER_RETRIES in *; nia.
Qed.

Lemma rate_limited_next q d q' :
  chain_ok (controller q) -> on_rate_limited q = (RetryCall d, q') ->
  exists f, q' = set_controller f q /\ chain_ok f /\ chain_left f < chain_left (controller q).
Proof.
  intros Hok. unfold on_rate_limited, on_rate_limit. pose proof Hok as [Hi Hr Hs Hm].
  set (f := controller q) in *.
  assert (Hadd : add32 (retry_count f) 1 = retry_count f + 1).
  { unfold add32, per_model, u32_max in *. apply Z.mod_small. lia. }
  rewrite Hadd. destruct (Z.ltb_spec (retry_count f + 1) (max_retries_per_model f)) as [Hlt|Hge].
  { intros [= <- <-]. eexists. split; [done|]. split; [split|]; simpl; try done;
      unfold chain_left, per_model in *; simpl; lia. }
  destruct (Nat.ltb_spec (S (current_index f)) (length (chain f))) as [Hn|]; [|done].
  intros [= <- <-]. eexists. split; [done|].
  destruct (next_model_left f Hok Hn) as [[] Hl]. split; [by split|exact Hl].
Qed.

Lemma server_failure_next s q d q' :
  chain_ok (controller q) -> on_server_failure s q = (RetryCall d, q') ->
  exists f, q' = set_controller f q /\ chain_ok f /\ chain_left f < chain_left (controller q).
Proof.
  intros Hok. unfold on_server_failure, on_server_error_exhausted. pose proof Hok as [Hi Hr Hs Hm].
  set (f := controller q) in *. destruct (Z.ltb_spec (server_error_count f) MAX_SERVER_RETRIES) as [Hlt|Hge].
  { intros [= <- <-]. eexists. split; [done|]. unfold on_server_error.
    assert (Hadd : add32 (server_error_count f) 1 = server_error_count f + 1).
    { unfold add32, MAX_SERVER_RETRIES in *. apply Z.mod_small. lia. }
    rewrite Hadd. split; [split|]; simpl; try done; try lia. unfold chain_left. simpl. lia. }
  destruct (Nat.ltb_spec (S (current_index f)) (length (chain f))) as [Hn|]; [|done].
  intros [= <- <-]. eexists. split; [done|]. by apply next_model_left.
Qed.

(** ** Termination *)

(** A reply that does not say the context overflows, except by an empty
    answer or one that calls tools. *)
Definition ends_well (c : QueryConfig) (i : Iter) : Prop :=
  match reply i with
  | Refused (BadRequest m) => looks_like_overflow m = false
  | Streaming items => forall u cost bs,
      (ingest (config_model c) items (fresh_ingest u cost)).1 =
        Continue bs (Some "model_context_window_exceeded"%string) ->
      bs = [] \/ extract_tool_uses bs <> []
  | _ => True
  end.

Record run_ok (m : Z) (q : Query) : Prop := mkRunOk {
  ok_turns : 0 <= turn_count q <= m + 1;
  ok_empty : 0 <= empty_stream_retries q <= MAX_EMPTY_STREAM_RETRIES;
  ok_overflow : 0 <= overflow_retries q <= MAX_OVERFLOW_COMPACT_RETRIES;
  ok_chain : chain_ok (controller q)
}.

Definition left_of (m : Z) (q : Query) : Z :=
  (m + 1 - turn_count q) * 5 + (MAX_EMPTY_STREAM_RETRIES - empty_stream_retries q) +
  (MAX_OVERFLOW_COMPACT_RETRIES - overflow_retries q) + chain_left (controller q).

Lemma left_nonneg m q : run_ok m q -> 0 <= left_of m q.
Proof. intros [H1 H2 H3 H4%chain_left_nonneg]. unfold left_of. lia. Qed.

Lemma same_left m q q' : same_run q q' -> run_ok m q -> run_ok m q' /\ left_of m q' = left_of m q.
Proof.
  intros [H1 H2 H3 H4 H5] []. unfold left_of. rewrite H1, H2, H3, H4. split; [|done].
  split; by rewrite ?H1, ?H2, ?H3, ?H4.
Qed.

Lemma set_controller_left m q f :
  run_ok m q -> chain_ok f -> chain_left f < chain_left (controller q) ->
  run_ok m (set_controller f q) /\ left_of m (set_controller f q) < left_of m q.
Proof. intros [] Hf Hl. split; [by split|]. unfold left_of. simpl. lia. Qed.

Lemma bad_request_next i m d q q' :
  on_bad_request i m q = (RetryCall d, q') -> looks_like_overflow m = true /\ same_run q q'.
Proof.
  unfold on_bad_request, compacted, fatal. destruct (looks_like_overflow m); [|done].
  repeat case_match; intros [= <- <-]; by split.
Qed.

(** A refused call is no stream. *)
Lemma refused_no_stream i e q items q' :
  reply i = Refused e -> call_api_with_fallback i q <> (Stream items, q').
Proof.
  intros Hr. unfold call_api_with_fallback. rewrite Hr. unfold on_rate_limited, on_server_failure, on_bad_request, fatal.
  by repeat case_match.
Qed.

(** The answers [ends_well] excludes. *)
Definition partial_overflow (bs : list ContentBlock) (stop : option string) : Prop :=
  stop = Some "model_context_window_exceeded"%string /\ bs <> [] /\ extract_tool_uses bs = [].

(** What is left shrinks, but for an answer cut by the context, which gives
    back the retries used up. *)
Lemma went_on_left c i q q' bs stop m :
  m < u32_max -> run_ok m q -> turn_count q <= m -> controller q' = controller q -> went_on c i q q' bs stop ->
  run_ok m q' /\ left_of m q' <= left_of m q + 3 /\ (left_of m q' < left_of m q \/ partial_overflow bs stop).
Proof.
  intros Hu32 [H1 H2 H3 H4] Hm Hc Hw. unfold left_of. rewrite Hc.
  assert (Hadd : add32 (turn_count q) 1 = turn_count q + 1) by (unfold add32, u32_max in *; apply Z.mod_small; lia).
  unfold MAX_EMPTY_STREAM_RETRIES, MAX_OVERFLOW_COMPACT_RETRIES in *.
  destruct Hw as [bs stop Hu Ht Hm0 Ho Hw|bs Hu Ht Hw Hm0 Hlt Ho|stop Hlt Ht Hw Hm0 Ho]; rewrite ?Hadd in *;
    unfold MAX_EMPTY_STREAM_RETRIES, MAX_OVERFLOW_COMPACT_RETRIES in *.
  - split; [split; rewrite ?Hc; try done; unfold MAX_EMPTY_STREAM_RETRIES, MAX_OVERFLOW_COMPACT_RETRIES; lia|].
    split; [lia|left; lia].
  - destruct bs as [|b bs].
    + split; [split; rewrite ?Hc; try done; unfold MAX_EMPTY_STREAM_RETRIES, MAX_OVERFLOW_COMPACT_RETRIES; lia|].
      split; [lia|left; lia].
    + split; [split; rewrite ?Hc; try done; unfold MAX_EMPTY_STREAM_RETRIES, MAX_OVERFLOW_COMPACT_RETRIES; lia|].
      split; [lia|right]. by split_and!.
  - split; [split; rewrite ?Hc; try done; unfold MAX_EMPTY_STREAM_RETRIES, MAX_OVERFLOW_COMPACT_RETRIES; lia|].
    split; [lia|left; lia].
Qed.

Lemma call_turn_left c i q q' m :
  m < u32_max -> run_ok m q -> turn_count q <= m -> call_turn c i q = Next q' ->
  run_ok m q' /\ left_of m q' <= left_of m q + 3 /\ (ends_well c i -> left_of m q' < left_of m q).
Proof.
  intros Hu32 Hok Hm. unfold Query.call_turn, ends_well in *.
  destruct (call_api_with_fallback i q) as [[items|d|e] q1] eqn:Hr; [| |done].
  - destruct (reply i) as [items'|err|] eqn:Hi; [|by eapply refused_no_stream in Hr|];
      unfold call_api_with_fallback in Hr; rewrite Hi in Hr; [injection Hr as -> ->|done].
    intros Ha. apply answer_turn_next in Ha as (Hc & bs & stop & Hin & Hw).
    destruct (went_on_left c i _ _ bs stop m Hu32 Hok Hm Hc Hw) as (Hok' & Hle & Hlt).
    split; [done|split; [done|]]. intros He. destruct Hlt as [|(-> & Hbs & Hu)]; [done|].
    by destruct (He _ _ _ Hin).
  - intros [= <-]. unfold call_api_with_fallback in Hr. destruct (reply i) as [|[]|]; try done.
    + destruct (rate_limited_next q d q1 (ok_chain _ _ Hok) Hr) as (f & -> & Hf & Hl).
      destruct (set_controller_left m q f Hok Hf Hl). split; [done|split; [lia|done]].
    + destruct (server_failure_next status q d q1 (ok_chain _ _ Hok) Hr) as (f & -> & Hf & Hl).
      destruct (set_controller_left m q f Hok Hf Hl). split; [done|split; [lia|done]].
    + apply bad_request_next in Hr as [Hov Hs]. destruct (same_left m q q1 Hs Hok) as [Hok' ->].
      split; [done|split; [lia|]]. intros. congruence.
Qed.

Lemma iteration_left c i q q' m :
  m < u32_max -> max_turns c = Some m -> run_ok m q -> iteration c i q = Next q' ->
  run_ok m q' /\ left_of m q' <= left_of m q + 3 /\ (ends_well c i -> left_of m q' < left_of m q).
Proof.
  intros Hu32 Hm Hok. unfold Query.iteration. pose proof (prepare_same c i q) as Hs.
  destruct (prepare_turn c i q) as [q1|] eqn:Hp; simpl in *; [|done].
  pose proof (prepare_within c i q q1 m Hp Hm) as Ht.
  destruct (same_left m q q1 Hs Hok) as [Hok1 <-]. apply call_turn_left; [done|done|].
  by rewrite (same_turns _ _ Hs).
Qed.

(** How many of some positions are still to come. *)
Definition ahead (k : nat) (l : list nat) : nat := length (List.filter (Nat.leb k) l).

Lemma ahead_step k l : (ahead (S k) l <= ahead k l)%nat /\ (k ∈ l -> (ahead (S k) l < ahead k l)%nat).
Proof.
  unfold ahead. induction l as [|j l [IH1 IH2]]; cbn [List.filter]; [split; [done|by intros ?%not_elem_of_nil]|].
  rewrite elem_of_cons. destruct (Nat.leb_spec (S k) j), (Nat.leb_spec k j); cbn [length]; try lia; split; try lia;
    intros [->|Hin]; try lia; specialize (IH2 Hin); lia.
Qed.

Lemma run_ends c env m l n k q :
  m < u32_max -> max_turns c = Some m -> (forall j, j ∉ l -> ends_well c (env j)) -> run_ok m q ->
  left_of m q + 4 * Z.of_nat (ahead k l) < Z.of_nat n ->
  exists r q', run c env k n q = Finished r q'.
Proof.
  intros Hu32 Hm He. revert k q. induction n as [|n IH]; intros k q Hok Hn.
  { pose proof (left_nonneg m q Hok). lia. }
  cbn [Query.run]. destruct (iteration c (env k) q) as [q1|r q1] eqn:Hi; simpl; [|eauto].
  destruct (iteration_left c (env k) q q1 m Hu32 Hm Hok Hi) as (Hok1 & Hle & Hlt).
  destruct (ahead_step k l) as [Ha1 Ha2]. apply IH; [done|].
  destruct (decide (k ∈ l)) as [Hin|Hin]; [specialize (Ha2 Hin)|specialize (Hlt (He k Hin))]; lia.
Qed.

(** Claim C3. A query ends. Under a turn limit below the largest [u32],
    whatever the model answers, whichever calls are rate limited, fail, time out
    or break off, and whatever the tools do, [run_query_loop] reaches a result
    within a number of iterations fixed by the configuration and the replies
    that report a context overflow: five for every turn and four more, the
    attempts of the fallback chain with three server errors for each model, and
    four for every reply, at the positions [l], that refuses the request for an
    overflow or breaks an answer without tool calls off with one. So only such
    replies coming over and over keep a query going. *)
Theorem query_ends c env h fails t w m l n :
  max_turns c = Some m -> 0 <= m < u32_max -> 0 <= retries_per_model c <= u32_max ->
  (forall j, j ∉ l -> ends_well c (env j)) ->
  (m + 1) * 5 + 4 + 4 * Z.of_nat (length l) +
    Z.of_nat (S (length (query_fallback_models c))) * (per_model (retries_per_model c) + 3) <= Z.of_nat n ->
  exists r q', run c env 0 n (new_query c h fails t w) = Finished r q'.
Proof.
  intros Hm [Hpos Hu32] Hret He Hn.
  assert (Hl : length (model_chain (query_chain c)) = S (length (query_fallback_models c))) by done.
  assert (Ha : (ahead 0 l <= length l)%nat) by apply List.filter_length_le.
  eapply run_ends; [exact Hu32|exact Hm|exact He| |].
  - split; simpl; unfold MAX_EMPTY_STREAM_RETRIES, MAX_OVERFLOW_COMPACT_RETRIES; try lia.
    split; simpl; rewrite ?Hl; unfold per_model, MAX_SERVER_RETRIES; lia.
  - unfold left_of, chain_left, MAX_EMPTY_STREAM_RETRIES, MAX_OVERFLOW_COMPACT_RETRIES,
      MAX_SERVER_RETRIES. cbn [turn_count empty_stream_retries overflow_retries controller new_query
      new_controller chain current_index retry_count max_retries_per_model server_error_count query_chain
      config_max_retries]. rewrite Hl. lia.
Qed.

(** ** The turn limit *)

Definition same_core (q q' : Query) : Prop := turn_count q' = turn_count q /\ world q' = world q.

Lemma call_api_core i q out q' : call_api_with_fallback i q = (out, q') -> same_core q q'.
Proof.
  unfold call_api_with_fallback, on_rate_limited, on_server_failure, on_bad_request, fatal, compacted.
  by repeat case_match; intros [= <- <-].
Qed.

Lemma without_tools_core i bs stop q : same_core q (state_of (without_tools i bs stop q)).
Proof. unfold without_tools, empty_answer, complete_answer. repeat case_match; done. Qed.

(** A result reports the turns of its query, and only the check of the limit
    answers [MaxTurns]. *)
Definition reports (s : Step) : Prop :=
  match s with
  | Next _ => True
  | Finished r q => num_turns r = turn_count q /\ status r <> MaxTurns
  end.

Lemma without_tools_reports i bs stop q : reports (without_tools i bs stop q).
Proof. unfold without_tools, empty_answer, complete_answer. repeat case_match; done. Qed.

Lemma call_turn_core c i q :
  reports (call_turn c i q) /\
  (same_core q (state_of (call_turn c i q)) \/
   exists q' uses, call_turn c i q = Next q' /\ uses <> [] /\ turn_count q' = add32 (turn_count q) 1 /\
     world q' = batch_world c i uses (world q)).
Proof.
  unfold Query.call_turn. destruct (call_api_with_fallback i q) as [out q1] eqn:Hc.
  apply call_api_core in Hc as [Ht Hw]. destruct out as [items| |e]; [|by split; [|left]..].
  unfold same_core. rewrite <- Ht, <- Hw.
  unfold answer_turn. destruct (ingest_stream_events _ _ _ _ _ _) as [[[r u] cost] h].
  destruct r as [bs stop| |e]; [|by split; [|left]..].
  set (q2 := match bs with [] => _ | _ => _ end).
  assert (H2 : same_core q1 q2) by (subst q2; by destruct bs). clearbody q2.
  set (q3 := record_assistant_turn i bs stop q2). assert (H3 : same_core q1 q3) by done.
  destruct H3 as [H3 H4]. clearbody q3. destruct (extract_tool_uses bs) as [|use uses] eqn:Hu.
  - split; [apply without_tools_reports|left]. rewrite <- H3, <- H4. apply without_tools_core.
  - split; [done|right]. eexists _, (use :: uses). split; [done|]. split; [done|].
    pose proof (execute_tool_turn_state c i (use :: uses) q3) as (E1 & E2 & _).
    cbn [set_turns turn_count world]. by rewrite E1, E2, H3, H4.
Qed.

(** The check of the limit is the one to answer [MaxTurns]. *)
Lemma prepare_finished c i q r q' :
  prepare_turn c i q = Finished r q' ->
  num_turns r = turn_count q' /\
  (status r = MaxTurns -> exists m, max_turns c = Some m /\ m < turn_count q').
Proof.
  unfold prepare_turn, check_abort. destruct (aborted i); [by intros [= <- <-]|]. simpl.
  destruct (check_budget _ c i q) as [q1|r1 q1] eqn:Hb; simpl.
  2:{ intros [= <- <-]. unfold check_budget in Hb. repeat case_match; try done; by injection Hb as <- <-. }
  unfold check_turns. destruct (max_turns c) as [m|]; [|done].
  destruct (Z.leb _ _); [|done]. destruct (Z.ltb_spec m (turn_count (inject_iteration_budget_warnings c i q1))); [|done].
  intros [= <- <-]. split; [done|]. eauto.
Qed.

Lemma run_turns c env m k n q j w0 :
  max_turns c = Some m -> m < u32_max -> ran c j w0 (world q) -> turn_count q = Z.of_nat j -> Z.of_nat j <= m + 1 ->
  let s := run c env k n q in
  (exists j', ran c j' w0 (world (state_of s)) /\ turn_count (state_of s) = Z.of_nat j' /\ Z.of_nat j' <= m + 1) /\
  match s with
  | Next _ => True
  | Finished r q' => num_turns r = turn_count q' /\ (status r = MaxTurns -> turn_count q' = m + 1)
  end.
Proof.
  intros Hm Hu32. revert k q j. induction n as [|n IH]; intros k q j Hr Ht Hj; cbn [Query.run].
  { split; [|done]. eauto. }
  unfold Query.iteration. pose proof (prepare_same c (env k) q) as Hs.
  destruct (prepare_turn c (env k) q) as [q1|r q1] eqn:Hp; simpl in *.
  2:{ destruct Hs as [S1 _ _ _ S5]. rewrite S1, S5. split; [eauto|].
      destruct (prepare_finished _ _ _ _ _ Hp) as [Hn Hx]. rewrite S1 in *. split; [done|].
      intros (m' & Hm' & Hlt)%Hx. simplify_eq. lia. }
  pose proof (prepare_within c (env k) q q1 m Hp Hm) as Hle. destruct Hs as [S1 _ _ _ S5].
  destruct (call_turn_core c (env k) q1) as [Hrep [[H1 H2]|(q2 & uses & -> & Hu & H1 & H2)]].
  - destruct (call_turn c (env k) q1) as [q2|r q2]; simpl in *.
    + apply (IH (S k) q2 j); congruence.
    + split; [|by destruct Hrep as [? ?]]. exists j. by rewrite H1, H2, S1, S5.
  - assert (Hadd : add32 (turn_count q1) 1 = turn_count q1 + 1) by (unfold add32, u32_max in *; apply Z.mod_small; lia).
    simpl. apply (IH (S k) q2 (S j)); [|lia|lia]. rewrite H2, S5. by apply ran_batch.
Qed.

(** Claim C5. The turn limit holds whatever happens. However the model answers
    and however often calls fail, a query limited to [m] turns, [m] below the
    largest [u32] (past which the counter cannot go), runs at most [m + 1] batches of tool calls (the last one in answer to the demand for a
    final response): the tools, the permissions and the health of the tools
    change by these batches alone, as many as the turns it counts; the result
    reports that number, and a result [MaxTurns] comes exactly past the limit. *)
Theorem tool_turns_bounded c env h fails t w m n :
  max_turns c = Some m -> 0 <= m < u32_max ->
  let s := run c env 0 n (new_query c h fails t w) in
  (exists j, ran c j w (world (state_of s)) /\ turn_count (state_of s) = Z.of_nat j /\ Z.of_nat j <= m + 1) /\
  match s with
  | Next _ => True
  | Finished r q' => num_turns r = turn_count q' /\ (status r = MaxTurns -> turn_count q' = m + 1)
  end.
Proof. intros Hm Hpos. apply (run_turns c env m 0 n _ 0); [done|lia|apply ran_none|done|simpl; lia]. Qed.

(** A limit of the largest [u32] is none: the counter, which wraps, is never past it. *)
Lemma largest_limit_is_none c i q r q' :
  max_turns c = Some u32_max -> turn_count q <= u32_max -> check_turns c i q <> Finished r q'.
Proof.
  intros Hm Ht. unfold check_turns. rewrite Hm. destruct (Z.leb _ _); [|done].
  by rewrite (proj2 (Z.ltb_ge _ _) Ht).
Qed.

(** ** Where nothing counts *)

(** A context overflow reported by refusing the request (the summary of the
    history succeeds), or at the end of a partial answer without tool calls. *)
Definition reports_overflow (c : QueryConfig) (i : Iter) : Prop :=
  match reply i with
  | Refused (BadRequest m) => looks_like_overflow m = true /\ exists t, compact_summary (failover_summary i) = Ok t
  | Streaming items => forall u cost, exists b bs,
      (ingest (config_model c) items (fresh_ingest u cost)).1 =
        Continue (b :: bs) (Some "model_context_window_exceeded"%string) /\
      extract_tool_uses (b :: bs) = []
  | _ => False
  end.

(** No limit is reached: the turn limit, or the grace turn of the budgets. *)
Definition within (c : QueryConfig) (q : Query) : Prop :=
  (forall m, max_turns c = Some m -> turn_count q <= m) /\
  (forall g, budget_grace_turn q = Some g -> turn_count q <= g).

Lemma enforce_grace i q : budget_grace_turn (enforce_token_budget i q) = budget_grace_turn q.
Proof. unfold enforce_token_budget, compacted. repeat case_match; done. Qed.

Lemma inject_grace c i q : budget_grace_turn (inject_iteration_budget_warnings c i q) = budget_grace_turn q.
Proof. unfold inject_iteration_budget_warnings. repeat case_match; done. Qed.

Lemma prepare_passes c i q :
  aborted i = false -> within c q -> exists q1, prepare_turn c i q = Next q1 /\ within c q1.
Proof.
  intros Ha [Hm Hg]. unfold prepare_turn, check_abort. rewrite Ha. simpl.
  assert (Hb : exists q1, check_budget format_cost c i q = Next q1 /\ within c q1).
  { unfold check_budget. destruct (cost_hit c q || token_hit c q); [|by exists q].
    destruct (budget_grace_turn q) as [g|] eqn:Hgt.
    - rewrite (proj2 (Z.ltb_ge _ _)) by (by apply Hg). exists q. split; [done|]. split; [done|]. by rewrite Hgt.
    - eexists. split; [done|]. split; [done|]. intros g [= <-]. simpl. lia. }
  destruct Hb as (q1 & -> & Hm1 & Hg1). simpl.
  pose proof (inject_same c i q1) as Hs. pose proof (inject_grace c i q1) as Hig.
  set (q2 := inject_iteration_budget_warnings c i q1) in *.
  assert (Ht : exists q3, check_turns c i q2 = Next q3 /\ turn_count q3 = turn_count q1 /\
                          budget_grace_turn q3 = budget_grace_turn q1).
  { unfold check_turns. rewrite (same_turns _ _ Hs). destruct (max_turns c) as [m|] eqn:Hmc.
    - destruct (Z.leb _ _); [|exists q2; split; [done|by rewrite (same_turns _ _ Hs)]].
      rewrite (proj2 (Z.ltb_ge _ _)) by (by apply Hm1). eexists. split; [done|]. simpl.
      by rewrite (same_turns _ _ Hs).
    - exists q2. split; [done|by rewrite (same_turns _ _ Hs)]. }
  destruct Ht as (q3 & -> & H3 & H4). simpl. eexists. split; [done|].
  split; rewrite ?enforce_grace, ?(same_turns _ _ (enforce_same _ _)); simpl; rewrite ?H3, ?H4; done.
Qed.

Lemma overflow_call_again c i q :
  reports_overflow c i -> within c q -> exists q', call_turn c i q = Next q' /\ within c q'.
Proof.
  intros Hr Hw. unfold Query.call_turn, call_api_with_fallback, reports_overflow in *.
  destruct (reply i) as [items|[]|]; try done.
  - destruct (Hr (query_usage q) (query_cost q)) as (b & bs & Hin & Hu).
    unfold answer_turn, ingest_stream_events. destruct (ingest _ items _) as [out s]. simpl in Hin. subst out.
    rewrite Hu. unfold without_tools, empty_answer, complete_answer. rewrite bool_decide_eq_true_2 by done. simpl. by eexists.
  - destruct Hr as [Hl [t Hs]]. unfold on_bad_request. rewrite Hl.
    destruct (Z.leb MAX_COMPACT_FAILURES (compact_fail_count q)); [by eexists|].
    unfold compact_messages. rewrite Hs. by destruct (Nat.leb _ _); eexists.
Qed.

(** The loop has no end of its own when the context overflows: as
    long as the model refuses the request as too large (and the history can be
    summarized), or breaks off partial answers for the same reason, the loop
    goes on, through any number of iterations, whatever the turn limit, the
    cost and token budgets, the retries of an overflow and the fallback chain:
    none of them counts these iterations. *)
Theorem overflow_never_ends c env k n q :
  (forall j, aborted (env j) = false /\ reports_overflow c (env j)) -> within c q ->
  exists q', run c env k n q = Next q' /\ within c q'.
Proof.
  intros He. revert k q. induction n as [|n IH]; intros k q Hw; [by exists q|].
  destruct (He k) as [Ha Hr]. cbn [Query.run]. unfold Query.iteration.
  destruct (prepare_passes c (env k) q Ha Hw) as (q1 & -> & Hw1). simpl.
  destruct (overflow_call_again c (env k) q1 Hr Hw1) as (q2 & -> & Hw2). simpl. by apply IH.
Qed.
End Loop.

(** ** The history *)

Section History.
Context `{JL : JsonLaws} `{FS : FileSystem} `{Clk : Clock}.
Context (abort_output : Value) (format_cost : f64 -> string).

(** Every tool call answered, no id used twice in one message. *)
Definition sound (h : list Message) : Prop := paired h /\ distinct_uses h.

(** Only the tool calls of the last message may be open. *)
Definition well_formed (h : list Message) : Prop := (exists ids, scan [] h = Some ids) /\ distinct_uses h.

Lemma distinct_app h1 h2 : distinct_uses (h1 ++ h2) <-> distinct_uses h1 /\ distinct_uses h2.
Proof.
  unfold distinct_uses. split.
  - intros Hd. split; intros m Hm; apply Hd, elem_of_app; auto.
  - intros [H1 H2] m [?|?]%elem_of_app; auto.
Qed.

Lemma distinct_drop k h : distinct_uses h -> distinct_uses (drop k h).
Proof. intros Hd. rewrite <- (take_drop k h) in Hd. by apply distinct_app in Hd as [_ ?]. Qed.

Lemma distinct_one m : NoDup (uses_of m) -> distinct_uses [m].
Proof. by intros Hm m' ->%list_elem_of_singleton. Qed.

Lemma distinct_quiet m : uses_of m = [] -> distinct_uses [m].
Proof. intros Hm. apply distinct_one. rewrite Hm. apply NoDup_nil_2. Qed.

Lemma distinct_map (f : Message -> Message) h :
  (forall m, uses_of (f m) = uses_of m) -> distinct_uses h -> distinct_uses (f <$> h).
Proof. intros Hf Hd m (m' & -> & Hm)%list_elem_of_fmap. rewrite Hf. by apply Hd. Qed.

(** A message without tool calls and results. *)
Lemma sound_quiet h m : sound h -> uses_of m = [] -> results_of m = [] -> sound (h ++ [m]).
Proof.
  intros [Hp Hd] Hu Hr. split; [|apply distinct_app; split; [done|by apply distinct_quiet]].
  unfold paired. erewrite scan_snoc; [by rewrite Hu|exact Hp|done|by left].
Qed.

Lemma user_text_quiet s t : uses_of (user_text s t) = [] /\ results_of (user_text s t) = [].
Proof. split; [done|]. unfold results_of, extract_tool_result_ids. simpl. by rewrite as_array_string. Qed.

Lemma push_text s t q : sound (messages q) -> sound (messages (push (user_text s t) q)).
Proof. intros Hs. destruct (user_text_quiet s t). by apply sound_quiet. Qed.

Lemma cleanup_paired s h : paired h -> (cleanup_orphan_tool_uses s h).1 = h.
Proof.
  intros Hp. unfold cleanup_orphan_tool_uses. destruct (last h) as [m|] eqn:Hl; [|done].
  apply last_Some in Hl as [h0 ->]. apply scan_init in Hp as (p & _ & _ & _ & Hu). unfold uses_of in Hu.
  simpl. destruct (content m); try done. by rewrite Hu.
Qed.

Lemma pop_user_well h : sound h -> well_formed (pop_user h).
Proof.
  intros [Hp Hd]. unfold pop_user. destruct (last h) as [m|] eqn:Hl; [|by split; [exists []|]].
  apply last_Some in Hl as [h0 ->]. destruct (is_user m); [|by split; [exists []|]].
  rewrite length_app. simpl. rewrite Nat.add_sub, take_app_length. apply distinct_app in Hd as [Hd _].
  apply scan_init in Hp as (p & Hs & _). by split; [exists p|].
Qed.

Lemma sound_well h : sound h -> well_formed h.
Proof. intros [Hp Hd]. split; [by exists []|done]. Qed.

(** ** The compactions *)

Lemma micro_sound now cfg h : sound h -> sound (micro_compact now cfg h).
Proof.
  intros [Hp Hd]. split; [by apply micro_scan|]. unfold micro_compact.
  rewrite <- (take_drop (length h - 4) h) in Hd. apply distinct_app in Hd as [H1 H2].
  apply distinct_app. split; [|done]. apply distinct_map; [|done]. intros m. apply clear_message_same.
Qed.

Lemma compact_sound s keep summary h h' :
  sound h -> (0 < keep)%nat -> compact_messages s keep summary h = Ok h' -> sound h'.
Proof.
  intros [Hp Hd] Hk Hc. split; [by eapply compact_messages_scan|]. unfold compact_messages in Hc.
  destruct (Nat.leb _ _); [by injection Hc as <-|]. destruct (compact_summary summary); [|done]. injection Hc as <-.
  apply (distinct_app [_]). split; [by apply distinct_quiet|by apply distinct_drop].
Qed.

Lemma reactive_sound target h : sound h -> sound (reactive_compact target h).
Proof.
  intros [Hp Hd]. destruct (reactive_scan target h [] Hp) as [Hs [k Hk]]. split; [done|].
  rewrite Hk. by apply distinct_drop.
Qed.

Lemma keep_positive t : (0 < adaptive_keep_recent t)%nat.
Proof. unfold adaptive_keep_recent, ADAPTIVE_KEEP_RECENT_MIN, ADAPTIVE_KEEP_RECENT_MAX. lia. Qed.

Lemma shrink_distinct s t summary h : distinct_uses h -> distinct_uses (overflow_shrink s t summary h).
Proof.
  intros Hd. unfold overflow_shrink. destruct (Nat.leb _ _); [done|].
  set (recent := drop _ h). assert (Hr : distinct_uses recent) by (by apply distinct_drop).
  assert (Hx : distinct_uses (if Nat.ltb 10 (length recent) then reactive_compact None recent else recent)).
  { case_match; [|done]. unfold reactive_compact. repeat case_match; try done; by apply distinct_drop. }
  destruct (overflow_text summary) as [text|]; [|done]. destruct (is_empty text); [done|].
  apply (distinct_app [_]). split; [by apply distinct_quiet|done].
Qed.

Lemma overflow_sound s t summary h : sound h -> sound (context_overflow_compact s t summary h).
Proof.
  intros [Hp Hd]. split.
  { eapply context_overflow_scan; done. }
  unfold context_overflow_compact.
  assert (Hd1 : distinct_uses (pop_assistant h)).
  { unfold pop_assistant. destruct (last h); [|done]. case_match; [by apply distinct_take|done]. }
  destruct (last (pop_assistant h)) as [m|] eqn:Hl; [|by apply shrink_distinct].
  apply distinct_app. split; [by apply shrink_distinct, distinct_take|].
  apply distinct_one, Hd1. by apply last_Some_elem_of.
Qed.

Lemma pop_assistant_sound h : sound h -> sound (pop_assistant h).
Proof.
  intros [Hp Hd]. split; [by eapply pop_assistant_scan|]. unfold pop_assistant.
  destruct (last h); [|done]. case_match; [by apply distinct_take|done].
Qed.

(** ** The loop *)

(** An environment the pairing needs: no session summary (its compaction cuts
    anywhere), each call run once in whatever order, and an answer whose tool
    calls have different ids. *)
Record orderly (c : QueryConfig) (i : Iter) : Prop := mkOrderly {
  no_session_memory : session_memory i = None;
  runs_each_once : forall l, order i l ≡ₚ l;
  distinct_ids : forall items, reply i = Streaming items -> forall u cost bs stop,
    (ingest (config_model c) items (fresh_ingest u cost)).1 = Continue bs stop -> NoDup (block_uses bs)
}.

Lemma abort_sound i q : sound (messages q) -> sound (messages (state_of (check_abort i q))).
Proof. intros Hs. unfold check_abort. destruct (aborted i); [|done]. simpl. rewrite cleanup_paired; [done|apply Hs]. Qed.

Lemma budget_sound c i q : sound (messages q) -> sound (messages (state_of (check_budget format_cost c i q))).
Proof. intros Hs. unfold check_budget. repeat case_match; try done. by apply (push_text _ _ q). Qed.

Lemma inject_sound c i q : sound (messages q) -> sound (messages (inject_iteration_budget_warnings c i q)).
Proof.
  intros Hs. unfold inject_iteration_budget_warnings. destruct (max_turns c); [|done].
  set (q1 := if _ && negb (warned_70 q) then _ else q).
  assert (H1 : sound (messages q1)) by (subst q1; case_match; [by apply push_text|done]).
  case_match; [by apply push_text|done].
Qed.

Lemma turns_sound c i q : sound (messages q) -> sound (messages (state_of (check_turns c i q))).
Proof. intros Hs. unfold check_turns. repeat case_match; try done. by apply (push_text _ _ q). Qed.

Lemma enforce_sound i q :
  session_memory i = None -> sound (messages q) -> sound (messages (enforce_token_budget i q)).
Proof.
  intros Hm Hs. unfold enforce_token_budget. rewrite Hm.
  assert (Hc : forall q', q' = match compact_messages (stamp i 4) (adaptive_keep_recent (adaptive q)) (mid_summary i)
                       (messages q) with
               | Ok h => compacted i (estimate_tokens (messages q)) h q
               | Err _ => set_compaction (compact_fail_count q + 1) (adaptive q) q
               end -> sound (messages q')).
  { intros q' ->. destruct (compact_messages _ _ _ _) as [h|] eqn:Hc; [|done].
    simpl. eapply compact_sound; [exact Hs|apply keep_positive|exact Hc]. }
  destruct (budget_status i); try done; (destruct (Nat.ltb _ _); [|done]);
    (destruct (Z.leb _ _); [done|]); by apply Hc.
Qed.

Lemma prepare_sound c i q :
  session_memory i = None -> sound (messages q) -> sound (messages (state_of (prepare_turn format_cost c i q))).
Proof.
  intros Hm Hs. unfold prepare_turn. pose proof (abort_sound i q Hs) as H1.
  destruct (check_abort i q) as [q1|]; simpl in *; [|done]. pose proof (budget_sound c i q1 H1) as H2.
  destruct (check_budget _ c i q1) as [q2|]; simpl in *; [|done].
  pose proof (turns_sound c i _ (inject_sound c i q2 H2)) as H3.
  destruct (check_turns c i _) as [q3|]; simpl in *; [|done].
  apply enforce_sound; [done|]. simpl. by apply micro_sound.
Qed.

Lemma call_api_sound i q out q' :
  call_api_with_fallback i q = (out, q') -> sound (messages q) ->
  match out with FatalCall _ => well_formed (messages q') | _ => sound (messages q') end.
Proof.
  intros Hc Hs. unfold call_api_with_fallback, on_rate_limited, on_server_failure, fatal in Hc.
  assert (Hp : well_formed (pop_user (messages q))) by (by apply pop_user_well).
  destruct (reply i) as [|[]|]; try (by repeat case_match; simplify_eq/=).
  unfold on_bad_request, fatal in Hc. destruct (looks_like_overflow _); [|by simplify_eq/=].
  destruct (Z.leb _ _); [simplify_eq/=; by apply reactive_sound|].
  destruct (compact_messages _ _ _ _) as [h|] eqn:Hm; simplify_eq/=.
  - eapply compact_sound; [exact Hs|apply keep_positive|exact Hm].
  - by apply pop_user_well, reactive_sound.
Qed.

(** The answer and the results of its tool calls. *)
Lemma tool_turn_sound c i bs stop q :
  (forall l, order i l ≡ₚ l) -> NoDup (block_uses bs) -> sound (messages q) ->
  sound (messages (execute_tool_turn abort_output c i (extract_tool_uses bs)
                     (record_assistant_turn i bs stop q))).
Proof.
  intros Ho Hn [Hp Hd]. unfold execute_tool_turn.
  set (q1 := record_assistant_turn i bs stop q).
  pose proof (execute_tools_ids abort_output (exec i) (gated c) (tool_context i) (tools c)
                (extract_tool_uses bs) (order i) (world q1) Ho) as Hids.
  destruct (execute_tools _ _ _ _ _ _ _ _) as [rs w]. simpl in Hids |- *.
  assert (Hs : scan [] (messages q1) = Some (tool_use_id <$> rs)).
  { rewrite Hids, requests_ids.
    apply (scan_snoc [] (messages q) (stamped (stamp i 7) (Assistant (mkAssistantMessage "assistant" bs stop None)
                                        (current_query_cost (query_cost q)) 0)) [] Hp); [done|by left]. }
  split; [by apply results_close|]. apply distinct_app. split; [|by apply distinct_quiet].
  apply distinct_app. split; [done|by apply distinct_one].
Qed.

Definition step_sound (s : Step) : Prop :=
  match s with
  | Next q => sound (messages q)
  | Finished r q => well_formed (messages q) /\ (status r <> QueryError -> sound (messages q))
  end.

Lemma without_tools_sound i bs stop q : sound (messages q) -> step_sound (without_tools i bs stop q).
Proof.
  intros Hs. pose proof (sound_well _ Hs). unfold without_tools, empty_answer, complete_answer, finish.
  case_bool_decide; [destruct (Z.leb _ _); [done|]; simpl; by apply overflow_sound|].
  destruct bs; [|done]. destruct (Z.ltb _ _); [|done]. simpl. by apply pop_assistant_sound.
Qed.

Lemma answer_turn_sound c i items q :
  orderly c i -> reply i = Streaming items -> sound (messages q) ->
  step_sound (answer_turn abort_output c i items q).
Proof.
  intros [_ Ho Hd] Hr Hs. unfold answer_turn, ingest_stream_events.
  specialize (Hd items Hr (query_usage q) (query_cost q)).
  destruct (ingest _ items _) as [[bs stop| |e] s]; simpl.
  - set (q1 := match bs with [] => _ | _ => _ end).
    assert (H1 : messages q1 = messages q) by (subst q1; by destruct bs). clearbody q1.
    specialize (Hd bs stop eq_refl). destruct (extract_tool_uses bs) as [|use uses] eqn:Hu.
    + apply without_tools_sound. apply sound_quiet; [by rewrite H1| |done].
      change (block_uses bs = []). by rewrite <- requests_ids, Hu.
    + rewrite <- Hu. apply tool_turn_sound; [done|done|by rewrite H1].
  - rewrite cleanup_paired by apply Hs. split; [by apply sound_well|done].
  - split; [|done]. case_match; [by apply pop_user_well|by apply sound_well].
Qed.

Lemma iteration_sound c i q :
  orderly c i -> sound (messages q) -> step_sound (iteration abort_output format_cost c i q).
Proof.
  intros Hi Hs. unfold iteration. pose proof (prepare_sound c i q (no_session_memory _ _ Hi) Hs) as H1.
  destruct (prepare_turn _ c i q) as [q1|r q1]; simpl in *; [|split; [by apply sound_well|done]].
  unfold call_turn. destruct (call_api_with_fallback i q1) as [out q2] eqn:Hc.
  pose proof (call_api_sound i q1 out q2 Hc H1) as H2. destruct out as [items| |e]; [|done|by split].
  unfold call_api_with_fallback in Hc. destruct (reply i) as [items'|err|] eqn:Hr; [|exfalso|done].
  - injection Hc as -> ->. by apply answer_turn_sound.
  - by apply (refused_no_stream i err q1 items q2 Hr); unfold call_api_with_fallback; rewrite Hr.
Qed.

Lemma run_sound c env k n q :
  (forall j, orderly c (env j)) -> sound (messages q) -> step_sound (run abort_output format_cost c env k n q).
Proof.
  intros He. revert k q. induction n as [|n IH]; intros k q Hs; [done|]. cbn [run].
  pose proof (iteration_sound c (env k) q (He k) Hs) as H1.
  destruct (iteration _ _ c (env k) q) as [q1|r q1]; simpl; [by apply IH|done].
Qed.

(** Claim C4. The history a query sends to the model is always legal, where the
    session has no session memory (the compaction from it cuts anywhere, as
    [session_memory_cuts_pair] shows) and the tool calls of one answer have
    different ids: starting from a history in which every message answers
    exactly the tool calls before it, each call by one result, the loop
    reaches, at the top of every iteration and whatever the calls, the tools,
    the other compactions and the retries do, a history in which every message
    answers exactly the tool calls before it; so does every query that ends
    complete, at its turn limit or aborted, and after an error at most the tool
    calls of the last message are left without their answers.  The tools of a
    turn may end in any order, each once. *)
Theorem query_history_paired c env k n q :
  (forall j, orderly c (env j)) -> paired (messages q) -> distinct_uses (messages q) ->
  match run abort_output format_cost c env k n q with
  | Next q' => paired (messages q')
  | Finished r q' => (exists open, scan [] (messages q') = Some open) /\
                     (status r <> QueryError -> paired (messages q'))
  end.
Proof.
  intros He Hp Hd. pose proof (run_sound c env k n q He (conj Hp Hd)) as Hrun.
  destruct (run _ _ c env k n q) as [q'|r q']; [apply Hrun|].
  destruct Hrun as [[Hw _] Hsnd]. split; [done|]. intros Hne. by apply Hsnd.
Qed.
End History.

(** ** Tools that keep failing *)

Section Health.
Context `{J : Json} `{FS : FileSystem} `{CL : ClockLaws}.
Context (abort_output : Value).

Definition failure_reason (r : ToolExecutionResult) : string :=
  truncate_chars 200 (default "" (to_json_string (output r))).

Lemma record_failures at_ l tool rs t :
  tool ∈ l -> Forall (fun r => failed r = true /\ result_name r = name tool) rs ->
  foldl (record_result at_ l) t rs =
  foldl (fun t reason => record_failure at_ (name tool) reason t) t (failure_reason <$> rs).
Proof.
  intros Hin Hrs. revert t. induction Hrs as [|r rs [Hf Hn] _ IH]; intros t; [done|].
  cbn [foldl fmap list_fmap]. rewrite IH. unfold record_result. rewrite Hf, Hn.
  replace (existsb (fun x => String.eqb (name x) (name tool)) l) with true; [done|].
  symmetry. apply existsb_elem. exists tool. split; [done|apply String.eqb_refl].
Qed.

(** A tool that keeps failing is cut off, end to end: when the failed
    calls of a turn, recorded as the loop records them, bring the failures of a
    tool in a row up to the threshold, then for [recovery_minutes] every request
    for it is refused, without running it or asking the user, and without any
    effect on grants, rules, prompts or the configuration; after that time the
    request is executed like any other. *)
Theorem failing_tool_cut_off at_ l tool rs t b e gate req ctx :
  tool ∈ l -> rs <> [] -> Forall (fun r => failed r = true /\ result_name r = name tool) rs ->
  0 <= consecutive_failures (entry at_ (name tool) t) ->
  disable_threshold t <=
    consecutive_failures (entry at_ (name tool) t) + Z.of_nat (length rs) <= u32_max ->
  0 <= recovery_minutes t -> at_ <= dispatched_at e (req_id req) ->
  let w := record_results at_ l rs (mkWorld b (Some t)) in
  let '(r, w') := dispatch_tool abort_output e gate tool req ctx w in
  if decide (recovery_minutes t * 60000 <= dispatched_at e (req_id req) - at_) then
    (r, bridge w') = if gate then execute_tool_with_permission abort_output e tool req ctx b
                     else execute_tool e tool req ctx b
  else r = fail_with tool req (disabled_msg tool) /\ bridge w' = b.
Proof.
  intros Hin Hne Hrs Hc Hth Hrec Hat. cbv zeta. unfold record_results, dispatch_tool. simpl.
  rewrite (record_failures at_ l tool rs t Hin Hrs).
  pose proof (failures_disable at_ (name tool) (failure_reason <$> rs) t (dispatched_at e (req_id req))) as Hd.
  rewrite length_fmap in Hd. cbv zeta in Hd.
  destruct (is_available _ (name tool) _) as [ok t'].
  destruct Hd as [Hd _]; [by destruct rs|done|done|done|done|].
  destruct ok; simpl.
  - specialize (proj1 Hd eq_refl) as Hle.
    by destruct gate; [destruct (execute_tool_with_permission _ _ _ _ _ _)|destruct (execute_tool _ _ _ _ _)];
      case_decide.
  - case_decide as Hx; [by apply Hd in Hx|done].
Qed.
End Health.

(** ** Concrete queries *)

Section Demo.
#[local] Existing Instances flat_json flat_json_laws symlink_fs demo_clock demo_clock_laws.


Definition demo_config (m : option Z) : QueryConfig :=
  mkConfig "m" ["n"%string] 2 m None None (mkMicro 3600 1000) [demo_tool "Bash" true] true.

Definition demo_iter (r : Reply) : Iter :=
  mkIter false (fun _ => demo_stamp) 0 "t" BudgetNormal None (Ok []) (Ok []) (Ok [])
    r (demo_env ChannelClosed) (fun l => l) demo_ctx 0.

Definition demo_query (c : QueryConfig) : Query :=
  new_query c [says "hi"] 0 new_adaptive (mkWorld demo_bridge (Some new_tracker)).

Definition demo_run (c : QueryConfig) (env : nat -> Iter) (n : nat) : Step :=
  run FNull (fun _ => "0"%string) c env 0 n (demo_query c).

(** An answer that calls a tool, and one that says something. *)
Definition tool_call (id : string) : Reply :=
  Streaming [start_event [("type", FStr "tool_use"); ("id", FStr id); ("name", FStr "Bash")]%string;
             Event ContentBlockStop; Event MessageStop].

Definition says_words (stop : string) : Reply :=
  Streaming [start_event [("type", FStr "text")]%string; delta_event "text_delta" "text" "done";
             Event ContentBlockStop;
             Event (MessageDelta (FObj [("stop_reason", FStr stop)]%string) (FObj [])); Event MessageStop].

(** The first call is rate limited, the second answered with a tool call, the
    third with words. *)
Definition demo_day (k : nat) : Iter :=
  demo_iter (match k with 0%nat => Refused RateLimited | 1%nat => tool_call "a" | _ => says_words "end_turn" end).

Example demo_day_answers :
  match demo_run (demo_config (Some 5)) demo_day 3 with
  | Finished r q => status r = Complete /\ result_text r = Some "done"%string /\ num_turns r = 1 /\
                    (uses_of <$> messages q) = [[]; ["a"]; []; []]%string
  | Next _ => False
  end.
Proof. vm_compute. by split_and!. Qed.

Lemma tool_call_ingested id u cost :
  (ingest "m" [start_event [("type", FStr "tool_use"); ("id", FStr id); ("name", FStr "Bash")]%string;
               Event ContentBlockStop; Event MessageStop] (fresh_ingest u cost)).1 =
  Continue [ToolUse id "Bash" (FObj [])] None.
Proof. reflexivity. Qed.

(** The first request is refused for an overflow, then a tool is called each time. *)
Definition overflow_once (k : nat) : Iter :=
  demo_iter (match k with 0%nat => Refused (BadRequest "prompt is too long") | _ => tool_call "a" end).

Lemma query_ends_witness : exists r q', demo_run (demo_config (Some 1)) overflow_once 28 = Finished r q'.
Proof.
  apply (@query_ends flat_json symlink_fs demo_clock FNull (fun _ => "0"%string) (demo_config (Some 1))
           overflow_once [says "hi"] 0 new_adaptive (mkWorld demo_bridge (Some new_tracker)) 1 [0%nat] 28).
  - reflexivity.
  - unfold u32_max. lia.
  - vm_compute. intuition discriminate.
  - intros [|k] Hk; [by destruct Hk; left|]. intros u cost bs Hs. rewrite (tool_call_ingested "a") in Hs. discriminate.
  - vm_compute. discriminate.
Defined.

(** What a bound on the result says of a query known to end there. *)
Lemma past_limit (s : Step) t :
  match s with
  | Next _ => True
  | Finished r q' => num_turns r = turn_count q' /\ (status r = MaxTurns -> turn_count q' = t)
  end ->
  match s with Finished r _ => match status r with MaxTurns => true | _ => false end | Next _ => false end = true ->
  turn_count (state_of s) = t.
Proof. destruct s as [|r q]; [done|]. intros [_ H] Hs. apply H. by destruct (status r). Qed.

Lemma tool_turns_bounded_witness :
  turn_count (state_of (demo_run (demo_config (Some 1)) (fun _ => demo_iter (tool_call "a")) 9)) = 1 + 1.
Proof.
  unfold demo_run, demo_query. assert (Hpos : 0 <= 1 < u32_max) by (unfold u32_max; lia).
  pose proof (@tool_turns_bounded flat_json symlink_fs demo_clock FNull (fun _ => "0"%string)
                (demo_config (Some 1)) (fun _ => demo_iter (tool_call "a")) [says "hi"] 0
                new_adaptive (mkWorld demo_bridge (Some new_tracker)) 1 9 eq_refl Hpos) as Hres.
  destruct Hres as [_ Hres]. apply past_limit; [exact Hres|vm_compute; reflexivity].
Defined.

Lemma overflow_never_ends_witness :
  exists q', demo_run (demo_config (Some 0))
    (fun k => demo_iter (if Nat.even k then Refused (BadRequest "prompt is too long")
                         else says_words "model_context_window_exceeded")) 100 = Next q'.
Proof.
  destruct (@overflow_never_ends flat_json symlink_fs demo_clock FNull (fun _ => "0"%string) (demo_config (Some 0))
    (fun k => demo_iter (if Nat.even k then Refused (BadRequest "prompt is too long")
                         else says_words "model_context_window_exceeded")) 0 100 (demo_query (demo_config (Some 0)))) as (q' & Hq & _).
  - intros k. split; [reflexivity|]. unfold reports_overflow. simpl. destruct (Nat.even k).
    + split; [reflexivity|]. by exists ""%string.
    + intros u cost. by eexists _, _.
  - split; [intros m [= <-]; reflexivity|done].
  - by exists q'.
Defined.

Lemma demo_day_orderly k : orderly (demo_config (Some 5)) (demo_day k).
Proof.
  split; [done|done|]. intros items Hr u cost bs stop.
  destruct k as [|[|k]]; simpl in Hr; [done|injection Hr as <-..].
  - change (config_model (demo_config (Some 5))) with "m"%string. rewrite (tool_call_ingested "a").
    intros [= <- _]. apply NoDup_singleton.
  - intros [= <- _]. apply NoDup_nil_2.
Qed.

Lemma query_history_paired_witness :
  match demo_run (demo_config (Some 5)) demo_day 3 with
  | Next q' => paired (messages q')
  | Finished r q' => (exists open, scan [] (messages q') = Some open) /\
                     (status r <> QueryError -> paired (messages q'))
  end.
Proof.
  apply (@query_history_paired flat_json flat_json_laws symlink_fs demo_clock FNull (fun _ => "0"%string)
           (demo_config (Some 5)) demo_day 0 3 (demo_query (demo_config (Some 5))) demo_day_orderly eq_refl).
  intros m ->%list_elem_of_singleton. apply NoDup_nil_2.
Defined.

(** A call that times out after a tool turn drops the message with the results
    of the tools, and leaves their calls open. *)
Example timeout_drops_results :
  match demo_run (demo_config None) (fun k => demo_iter (match k with 0%nat => tool_call "a" | _ => NoAnswer end)) 2 with
  | Finished r q => status r = QueryError /\ scan [] (messages q) = Some ["a"%string]
  | Next _ => False
  end.
Proof. vm_compute. by split. Qed.

(** At the turn limit every retry of the call repeats the demand for a final
    answer: three rate limits, three demands. *)
Example final_demand_repeats :
  match demo_run (demo_config (Some 0)) (fun _ => demo_iter (Refused RateLimited)) 3 with
  | Next q => length (messages q) = 4%nat
  | Finished _ _ => False
  end.
Proof. vm_compute. reflexivity. Qed.

(** Six failures of a tool in one turn, and a request one minute later. *)
Lemma failing_tool_cut_off_witness :
  let tool := demo_tool "Bash" false in
  let rs := replicate 6 (mkExec "tu" "Bash" (FStr "boom") true) in
  let e := mkEnv (fun _ => TimedOut) (fun _ => false) 1000 (fun _ => 60000) in
  let req := mkRequest "tu_7" "Bash" FNull in
  (dispatch_tool FNull e true tool req demo_ctx
     (record_results 0 [tool] rs (mkWorld demo_bridge (Some new_tracker)))).1 =
  fail_with tool req (disabled_msg tool).
Proof.
  intros tool rs e req.
  pose proof (@failing_tool_cut_off flat_json symlink_fs demo_clock demo_clock_laws FNull 0 [tool] tool rs
                new_tracker demo_bridge e true req demo_ctx) as Hf.
  cbv zeta in Hf. destruct (dispatch_tool _ _ _ _ _ _ _) as [r w'].
  assert (Hd : ~ recovery_minutes new_tracker * 60000 <= dispatched_at e (req_id req) - 0) by (simpl; lia).
  destruct (decide _) as [|_]; [by destruct Hd|].
  apply Hf; [by left|done| |vm_compute; discriminate|vm_compute; split; discriminate|vm_compute; discriminate..].
  repeat constructor.
Defined.
End Demo.
