(* ===== verification/Rpc.v ===== *)
(** * Rpc: JSON-RPC messages ([ipc/protocol.rs])

    The envelope every server of the daemon speaks: requests, responses, error
    responses and notifications, told apart by the fields they have, one JSON
    object per line.  A type that goes over the wire is an instance of [Codec];
    [CodecLaws] is what a codec promises: what it writes it reads back, and
    whatever it reads is a value it could have written. *)

From stdpp Require Import base gmap strings list countable.
From Stdlib Require Import ZArith Lia.
From S2P Require Import Prelude Text Json.

#[local] Open Scope Z_scope.
#[local] Open Scope string_scope.

(** ** Codecs *)

Class Codec `{Json} (A : Type) := {
  encode : A -> Value;
  decode : Value -> option A
}.

Class CodecLaws `{Json} {A : Type} (C : Codec A) (ok : A -> Prop) := {
  decode_encode : forall a, ok a -> decode (encode a) = Some a;
  decode_ok : forall v a, decode v = Some a -> ok a
}.

Section Messages.
Context `{J : Json}.

(** A required field of a derived struct. *)
Definition field {A} `{!Codec A} (v : Value) (k : string) : option A :=
  json_get v k ≫= decode.

(** [Option::<Value>::deserialize]: [null] is [None]. *)
Definition nullable (v : Value) : option Value := if is_null v then None else Some v.

#[export] Instance value_codec : Codec Value := {| encode v := v; decode v := Some v |}.

#[export] Instance string_codec : Codec string := {| encode := json_string; decode := as_str |}.

(** [i32]: an integer of 64 bits that fits. *)
Definition decode_i32 (v : Value) : option Z :=
  match as_i64 v with
  | Some n => if (Z.leb (- 2 ^ 31) n && Z.leb n (2 ^ 31 - 1))%bool then Some n else None
  | None => None
  end.

(** ** Request ids: a number or a string, whichever fits first *)

Inductive RequestId :=
| Number (n : Z)
| StringId (s : string).

#[export] Instance RequestId_eq_dec : EqDecision RequestId.
Proof. solve_decision. Defined.

#[export] Instance RequestId_countable : Countable RequestId.
Proof.
  apply (inj_countable'
    (fun i => match i with Number n => inl n | StringId s => inr s end)
    (fun x => match x with inl n => Number n | inr s => StringId s end)).
  by intros [].
Defined.

Definition encode_id (i : RequestId) : Value :=
  match i with Number n => json_int n | StringId s => json_string s end.

Definition decode_id (v : Value) : option RequestId :=
  match as_i64 v with
  | Some n => Some (Number n)
  | None => StringId <$> as_str v
  end.

#[export] Instance id_codec : Codec RequestId := {| encode := encode_id; decode := decode_id |}.

(** ** The messages *)

Record JsonRpcRequest := mkRequest {
  rq_jsonrpc : string;
  rq_method : string;
  rq_params : Value;
  rq_id : RequestId
}.

Record JsonRpcResponse := mkResponse {
  rs_jsonrpc : string;
  rs_result : Value;
  rs_id : RequestId
}.

Record JsonRpcError := mkError {
  err_code : Z;
  err_message : string;
  err_data : option Value
}.

Record JsonRpcErrorResponse := mkErrorResponse {
  er_jsonrpc : string;
  er_error : JsonRpcError;
  er_id : option RequestId
}.

Record JsonRpcNotification := mkNotification {
  nt_jsonrpc : string;
  nt_method : string;
  nt_params : Value
}.

Inductive JsonRpcMessage :=
| Request (r : JsonRpcRequest)
| Response (r : JsonRpcResponse)
| ErrorResponse (e : JsonRpcErrorResponse)
| Notification (n : JsonRpcNotification).

(** The constructors of the source. *)
Definition success (id : RequestId) (r : Value) : JsonRpcResponse := mkResponse "2.0" r id.
Definition error_response (id : option RequestId) (code : Z) (message : string) : JsonRpcErrorResponse :=
  mkErrorResponse "2.0" (mkError code message None) id.
Definition notification (method : string) (params : Value) : JsonRpcNotification :=
  mkNotification "2.0" method params.

(** ** The derived codecs

    A struct is read from an object, field by field; a missing [params] is
    [null], a missing or [null] [data] and [id] of an error is [None].  The
    error object is also read from an array of its three fields, as derived
    deserialization accepts. *)

#[export] Instance request_codec : Codec JsonRpcRequest := {|
  encode r := json_object [("jsonrpc", json_string (rq_jsonrpc r)); ("method", json_string (rq_method r));
                           ("params", rq_params r); ("id", encode (rq_id r))];
  decode v :=
    j ← field v "jsonrpc"; m ← field v "method"; i ← field v "id";
    Some (mkRequest j m (default json_null (json_get v "params")) i)
|}.

#[export] Instance response_codec : Codec JsonRpcResponse := {|
  encode r := json_object [("jsonrpc", json_string (rs_jsonrpc r)); ("result", rs_result r);
                           ("id", encode (rs_id r))];
  decode v :=
    j ← field v "jsonrpc"; r ← field v "result"; i ← field v "id"; Some (mkResponse j r i)
|}.

#[export] Instance error_codec : Codec JsonRpcError := {|
  encode e := json_object ([("code", json_int (err_code e)); ("message", json_string (err_message e))]
                           ++ match err_data e with Some d => [("data", d)] | None => [] end);
  decode v :=
    match as_array v with
    | Some [c; m; d] => code ← decode_i32 c; message ← decode m; Some (mkError code message (nullable d))
    | Some _ => None
    | None =>
        code ← json_get v "code" ≫= decode_i32; message ← field v "message";
        Some (mkError code message (json_get v "data" ≫= nullable))
    end
|}.

#[export] Instance error_response_codec : Codec JsonRpcErrorResponse := {|
  encode e := json_object [("jsonrpc", json_string (er_jsonrpc e)); ("error", encode (er_error e));
                           ("id", match er_id e with Some i => encode i | None => json_null end)];
  decode v :=
    j ← field v "jsonrpc"; e ← field v "error";
    match json_get v "id" ≫= nullable with
    | Some i => i' ← decode i; Some (mkErrorResponse j e (Some i'))
    | None => Some (mkErrorResponse j e None)
    end
|}.

#[export] Instance notification_codec : Codec JsonRpcNotification := {|
  encode n := json_object [("jsonrpc", json_string (nt_jsonrpc n)); ("method", json_string (nt_method n));
                           ("params", nt_params n)];
  decode v :=
    j ← field v "jsonrpc"; m ← field v "method";
    Some (mkNotification j m (default json_null (json_get v "params")))
|}.

(** ** The union *)

Inductive DecodeError :=
| NotJson           (* the line is not JSON *)
| NotAnObject       (* "JSON-RPC message must be an object" *)
| BadShape          (* a field is missing or of the wrong type *)
| Undetermined.     (* no [method], [result] or [error] *)

Definition shaped {A} (f : A -> JsonRpcMessage) (o : option A) : result JsonRpcMessage DecodeError :=
  match o with Some a => Ok (f a) | None => Err BadShape end.

(** [JsonRpcMessage::deserialize]. *)
Definition decode_message (v : Value) : result JsonRpcMessage DecodeError :=
  match as_object v with
  | None => Err NotAnObject
  | Some _ =>
      let has_method := is_some (json_get v "method") in
      let has_id := match json_get v "id" with Some i => negb (is_null i) | None => false end in
      let has_result := is_some (json_get v "result") in
      let has_error := is_some (json_get v "error") in
      if has_error then shaped ErrorResponse (decode v)
      else if has_result then shaped Response (decode v)
      else if (has_method && has_id)%bool then shaped Request (decode v)
      else if has_method then shaped Notification (decode v)
      else Err Undetermined
  end.

(** [JsonRpcMessage::serialize]. *)
Definition encode_message (m : JsonRpcMessage) : Value :=
  match m with
  | Request r => encode r
  | Response r => encode r
  | ErrorResponse e => encode e
  | Notification n => encode n
  end.

Definition newline : string := String.String (Ascii.ascii_of_nat 10) "".

Definition encode_ndjson (m : JsonRpcMessage) : option string :=
  text ← to_json_string (encode_message m); Some (text +:+ newline).

Definition decode_ndjson_line (line : string) : result JsonRpcMessage DecodeError :=
  match json_parse (trim line) with
  | Some v => decode_message v
  | None => Err NotJson
  end.

(** The id a message answers, when it is an answer. *)
Definition response_id (m : JsonRpcMessage) : option RequestId :=
  match m with
  | Response r => Some (rs_id r)
  | ErrorResponse e => er_id e
  | _ => None
  end.

(** What can be on the wire: numbers fit their types, and the data of an error
    is not [null], which reads back as no data. *)
Definition id_fits (i : RequestId) : Prop :=
  match i with Number n => is_i64 n | StringId _ => True end.

Definition error_fits (e : JsonRpcError) : Prop :=
  is_i32 (err_code e) /\ match err_data e with Some d => is_null d = false | None => True end.

Definition message_fits (m : JsonRpcMessage) : Prop :=
  match m with
  | Request r => id_fits (rq_id r)
  | Response r => id_fits (rs_id r)
  | ErrorResponse e => error_fits (er_error e) /\ match er_id e with Some i => id_fits i | None => True end
  | Notification _ => True
  end.
End Messages.

(** ** The codecs keep their promise *)

(** Reading the fields of an object just built. *)
Ltac distinct_keys := apply (bool_decide_unpack _); vm_compute; exact I.
Ltac read_fields :=
  unfold field; repeat (rewrite json_get_object by distinct_keys); simpl;
  rewrite ?as_str_string; simpl.

Section Codecs.
Context {J : Json} {JL : JsonLaws}.

#[export] Instance id_codec_laws : CodecLaws id_codec id_fits.
Proof.
  split.
  - intros [n|s] Hn; simpl; unfold decode_id; simpl.
    + by rewrite as_i64_int.
    + by rewrite as_i64_string, as_str_string.
  - intros v i. simpl. unfold decode_id. destruct (as_i64 v) as [n|] eqn:E.
    + intros [= <-]. by apply (as_i64_range v).
    + destruct (as_str v); [|done]. by intros [= <-].
Qed.

Lemma decode_encode_id i : id_fits i -> decode_id (encode_id i) = Some i.
Proof. apply (decode_encode (CodecLaws := id_codec_laws)). Qed.

Lemma is_null_id i : is_null (encode_id i) = false.
Proof. destruct i; simpl; [apply is_null_int|apply is_null_string]. Qed.

Lemma decode_i32_int n : is_i32 n -> decode_i32 (json_int n) = Some n.
Proof.
  unfold is_i32, decode_i32. intros Hn. rewrite as_i64_int by (unfold is_i64; lia).
  by rewrite (proj2 (Z.leb_le _ _)), (proj2 (Z.leb_le _ _)) by lia.
Qed.

Lemma decode_i32_ok v n : decode_i32 v = Some n -> is_i32 n.
Proof.
  unfold decode_i32. destruct (as_i64 v); [|done]. case_match eqn:E; [|done]. intros [= <-].
  apply andb_true_iff in E as [?%Z.leb_le ?%Z.leb_le]. by unfold is_i32.
Qed.

Lemma nullable_ok v d : nullable v = Some d -> is_null d = false.
Proof. unfold nullable. destruct (is_null v) eqn:E; [done|]. by intros [= <-]. Qed.

Lemma nullable_value v : is_null v = false -> nullable v = Some v.
Proof. unfold nullable. by intros ->. Qed.

#[export] Instance error_codec_laws : CodecLaws error_codec error_fits.
Proof.
  split.
  - intros [c m d] [Hc Hd]. simpl in Hc, Hd. simpl. rewrite as_array_object.
    destruct d as [d|]; read_fields; rewrite (decode_i32_int c Hc); simpl; [|done].
    by rewrite (nullable_value d Hd).
  - intros v e. simpl. destruct (as_array v) as [[|c [|m [|d [|? ?]]]]|]; try done.
    + destruct (decode_i32 c) as [n|] eqn:En; [|done]. destruct (as_str m); [|done].
      simpl. intros [= <-]. split; [by apply (decode_i32_ok c)|]. simpl.
      destruct (nullable d) eqn:E; [by apply (nullable_ok d)|done].
    + destruct (json_get v "code" ≫= decode_i32) as [n|] eqn:En; [|done].
      destruct (field v "message"); [|done]. simpl. intros [= <-]. split; simpl.
      * apply bind_Some in En as (c & _ & Hc). by apply (decode_i32_ok c).
      * destruct (json_get v "data" ≫= nullable) eqn:E; [|done].
        apply bind_Some in E as (w & _ & Hw). by apply (nullable_ok w).
Qed.

Lemma field_id_ok v k i : field v k = Some i -> id_fits i.
Proof.
  unfold field. intros (x & _ & Hx)%bind_Some. by apply (decode_ok (CodecLaws := id_codec_laws) x).
Qed.

#[export] Instance request_codec_laws : CodecLaws request_codec (fun r => id_fits (rq_id r)).
Proof.
  split.
  - intros [j m p i] Hi. simpl in *. read_fields. by rewrite decode_encode_id.
  - intros v r. simpl. intros (j & _ & (m & _ & (i & Hi & [= <-])%bind_Some)%bind_Some)%bind_Some.
    by apply (field_id_ok v "id").
Qed.

#[export] Instance response_codec_laws : CodecLaws response_codec (fun r => id_fits (rs_id r)).
Proof.
  split.
  - intros [j r i] Hi. simpl in *. read_fields. by rewrite decode_encode_id.
  - intros v r. simpl. intros (j & _ & (m & _ & (i & Hi & [= <-])%bind_Some)%bind_Some)%bind_Some.
    by apply (field_id_ok v "id").
Qed.

#[export] Instance notification_codec_laws : CodecLaws notification_codec (fun _ => True).
Proof. split; [|done]. intros [j m p] _. simpl. by read_fields. Qed.

#[export] Instance error_response_codec_laws :
  CodecLaws error_response_codec
    (fun e => error_fits (er_error e) /\ match er_id e with Some i => id_fits i | None => True end).
Proof.
  split.
  - intros [j e i] [He Hi]. simpl in He, Hi. cbn [encode decode error_response_codec er_jsonrpc er_error er_id].
    read_fields. pose proof (decode_encode (CodecLaws := error_codec_laws) e He) as He2.
    simpl in He2. rewrite He2. simpl.
    destruct i as [i|]; simpl.
    + rewrite nullable_value by apply is_null_id. simpl. by rewrite decode_encode_id.
    + unfold nullable. by rewrite is_null_null.
  - intros v e. cbn [decode error_response_codec].
    intros (j & _ & (x & Hx & Hr)%bind_Some)%bind_Some.
    apply bind_Some in Hx as (w & _ & Hw). apply (decode_ok (CodecLaws := error_codec_laws)) in Hw.
    destruct (json_get v "id" ≫= nullable) as [i|]; [|by simplify_eq].
    apply bind_Some in Hr as (i' & Hi & [= <-]). split; [done|].
    by apply (decode_ok (CodecLaws := id_codec_laws) i).
Qed.

(** ** The union *)

Lemma shaped_ok {A} (f : A -> JsonRpcMessage) o m : shaped f o = Ok m -> exists a, o = Some a /\ m = f a.
Proof. destruct o; [|done]. intros [= <-]. eauto. Qed.

(** The kind of a message that was written is recognised by its fields. *)
Lemma decode_encode_message m : message_fits m -> decode_message (encode_message m) = Ok m.
Proof.
  intros Hm. unfold decode_message.
  assert (exists fs, encode_message m = json_object fs) as [fs Hfs] by (destruct m; eexists; reflexivity).
  pose proof (as_object_object fs) as [o Ho]%is_some_true. rewrite Hfs, Ho, <- Hfs.
  destruct m as [r|r|e|n]; simpl in Hm.
  - pose proof (decode_encode (CodecLaws := request_codec_laws) r Hm) as Hd.
    cbn [encode_message]. rewrite Hd. cbn [encode request_codec]. read_fields.
    by rewrite is_null_id.
  - pose proof (decode_encode (CodecLaws := response_codec_laws) r Hm) as Hd.
    cbn [encode_message]. rewrite Hd. cbn [encode response_codec]. by read_fields.
  - pose proof (decode_encode (CodecLaws := error_response_codec_laws) e Hm) as Hd.
    cbn [encode_message]. rewrite Hd. cbn [encode error_response_codec]. by read_fields.
  - pose proof (decode_encode (CodecLaws := notification_codec_laws) n I) as Hd.
    cbn [encode_message]. rewrite Hd. cbn [encode notification_codec]. by read_fields.
Qed.

Lemma decode_message_fits v m : decode_message v = Ok m -> message_fits m.
Proof.
  unfold decode_message. destruct (as_object v); [|done].
  repeat case_match; try done; intros (a & Ha & ->)%shaped_ok; simpl; try done;
    first [ by apply (decode_ok (CodecLaws := error_response_codec_laws) v)
          | by apply (decode_ok (CodecLaws := response_codec_laws) v)
          | by apply (decode_ok (CodecLaws := request_codec_laws) v) ].
Qed.

(** ** Lines *)

(** The line of an object: braces are not white space, the line feed is. *)
Lemma trim_line_end n l :
  let brace := Ascii.ascii_of_nat 125 in
  trim_with (reverse <$> whitespace) (S n) (Ascii.ascii_of_nat 10 :: brace :: l) = brace :: l.
Proof. destruct n; reflexivity. Qed.

Lemma trim_object t : trim ("{" +:+ t +:+ "}" +:+ newline) = "{" +:+ t +:+ "}".
Proof.
  assert (Hs : trim_start ("{" +:+ t +:+ "}" +:+ newline) = "{" +:+ t +:+ "}" +:+ newline).
  { unfold trim_start. rewrite trim_with_stop by reflexivity. apply string_of_bytes. }
  unfold trim. rewrite Hs. unfold trim_end.
  assert (Hb : reverse (bytes_of ("{" +:+ t +:+ "}" +:+ newline)) =
               Ascii.ascii_of_nat 10 :: Ascii.ascii_of_nat 125 :: reverse (bytes_of ("{" +:+ t))).
  { rewrite (append_assoc "{" t), bytes_of_app, reverse_app. reflexivity. }
  rewrite Hb. change (str_len ("{" +:+ t +:+ "}" +:+ newline))
    with (S (str_len (t +:+ "}" +:+ newline))).
  rewrite trim_line_end, reverse_cons, reverse_involutive.
  change [Ascii.ascii_of_nat 125] with (bytes_of "}").
  rewrite <- bytes_of_app, string_of_bytes. by rewrite append_assoc.
Qed.
(** Claim C34. A message written as one line of newline-delimited JSON reads back
    as itself: the four kinds are told apart by their fields, ids keep their
    type, an absent id or absent error data stays absent, and the framing is
    removed.  The JSON library is assumed to read back the text it wrote for
    this message; [message_fits] asks that numbers fit their types and that
    the data of an error is not [null]. *)
Theorem ndjson_roundtrip (m : JsonRpcMessage) (line : string) :
  message_fits m ->
  (forall text, to_json_string (encode_message m) = Some text ->
                json_parse text = Some (encode_message m)) ->
  encode_ndjson m = Some line ->
  decode_ndjson_line line = Ok m.
Proof.
  unfold encode_ndjson, decode_ndjson_line. intros Hm Hread (text & Ht & [= <-])%bind_Some.
  specialize (Hread _ Ht).
  assert (exists t, text = "{" +:+ t +:+ "}") as [t ->].
  { destruct m; eapply text_object; exact Ht. }
  rewrite <- !append_assoc, trim_object, Hread. by apply decode_encode_message.
Qed.

(** Claim C35. Whatever value the decoder accepts, the message it makes is one
    the encoder can write and the decoder reads again: numbers are in range,
    a [null] data or id has become an absence, and decoding what the message
    encodes to gives the same message, whatever unknown fields, missing
    [params] or array-shaped error object the first value had. *)
Theorem decode_canonical (v : Value) (m : JsonRpcMessage) :
  decode_message v = Ok m ->
  message_fits m /\ decode_message (encode_message m) = Ok m.
Proof. intros Hv%decode_message_fits. split; [done|by apply decode_encode_message]. Qed.
End Codecs.

(** ** Witnesses *)

(** An answer to the request 7, and the text the library makes of it. *)
Definition answer_7 `{Json} : JsonRpcMessage :=
  ErrorResponse (error_response (Some (Number 7)) (-32601) "no such method").

Definition answer_7_value : flat := @encode_message flat_json (@answer_7 flat_json).
Definition answer_7_text : string := flat_print answer_7_value.

Definition answer_json : Json :=
  flat_json_with (fun s => if String.eqb s answer_7_text
                           then Some answer_7_value else None).

Lemma answer_json_laws : @JsonLaws answer_json.
Proof.
  apply flat_json_with_laws. intros s x. destruct (String.eqb_spec s answer_7_text) as [->|]; [|done].
  intros [= <-]. apply Nat.leb_le. vm_compute. reflexivity.
Qed.

Lemma ndjson_roundtrip_witness :
  exists line, @encode_ndjson answer_json answer_7 = Some line /\
               @decode_ndjson_line answer_json line = Ok answer_7.
Proof.
  exists (answer_7_text +:+ newline). split; [vm_compute; reflexivity|].
  apply (@ndjson_roundtrip answer_json answer_json_laws).
  - split; [split; [split; vm_compute; discriminate|exact I]|split; vm_compute; discriminate].
  - intros text [= <-]. vm_compute. reflexivity.
  - vm_compute. reflexivity.
Defined.

(** A server's error whose object is an array, without a version of its own. *)
Definition odd_error : flat :=
  FObj [("error", FArr [FInt (-5); FStr "busy"; FNull]); ("jsonrpc", FStr "2.0"); ("trace", FBool true)].

Definition odd_error_message : @JsonRpcMessage flat_json :=
  @ErrorResponse flat_json (@mkErrorResponse flat_json "2.0" (@mkError flat_json (-5) "busy" None) None).

Lemma odd_error_read : @decode_message flat_json odd_error = Ok odd_error_message.
Proof. reflexivity. Qed.

Lemma decode_canonical_witness :
  @message_fits flat_json odd_error_message /\
  @decode_message flat_json (@encode_message flat_json odd_error_message) = Ok odd_error_message.
Proof. exact (@decode_canonical flat_json flat_json_laws odd_error odd_error_message odd_error_read). Defined.

(** A request whose id is [null] is taken for a notification, and a message
    with a result is a response whatever else it has. *)
Example null_id_is_notification :
  @decode_message flat_json (FObj [("jsonrpc", FStr "2.0"); ("method", FStr "ping"); ("id", FNull)])
  = Ok (@Notification flat_json (@mkNotification flat_json "2.0" "ping" FNull)).
Proof. reflexivity. Qed.

Example result_wins :
  @decode_message flat_json
    (FObj [("jsonrpc", FStr "2.0"); ("method", FStr "m"); ("id", FInt 1); ("result", FBool true)])
  = Ok (@Response flat_json (@mkResponse flat_json "2.0" (FBool true) (Number 1))).
Proof. reflexivity. Qed.

(** Error data that is [null] is lost on the way: the reason for the
    condition on data above. *)
Example null_data_lost :
  @decode flat_json _ (@error_codec flat_json)
    (@encode flat_json _ (@error_codec flat_json) (@mkError flat_json 1 "x" (Some FNull)))
  = Some (@mkError flat_json 1 "x" None).
Proof. reflexivity. Qed.
