(* ===== verification/Mcp.v ===== *)
(** * Mcp: the MCP client ([mcp/client.rs], [mcp/demux.rs], [mcp/types.rs], [mcp/mod.rs])

    Many calls share one connection.  Each registers under a fresh id, hands
    its request to the transport and waits for the answer, a timeout or an
    abort; a reader routes what arrives to the call it answers, answers the
    server's own requests, and at the end of the connection lets go of
    everything.  The interleavings are sequences of [Event]s; [step] is what
    each does.  What happens between two suspension points of a task is one
    event; the transport is an argument of the events. *)

From stdpp Require Import base gmap strings list countable relations.
From Stdlib Require Import ZArith Lia.
From S2P Require Import Prelude Text Json Rpc.

#[local] Open Scope Z_scope.
#[local] Open Scope string_scope.

Inductive McpError :=
| Spawn (e : string)
| Connect (e : string)
| Timeout (ms : Z)
| Closed
| Cancelled
| Remote (code : Z) (message : string)
| Io (e : string)
| Serialization (e : string)
| Protocol (what : string).

Section Client.
Context `{J : Json}.

(** ** State *)

(** The receiving end of a call's one-shot channel. *)
Inductive Chan :=
| Empty                        (* the sending half is alive *)
| Sent (m : JsonRpcMessage)
| Dropped.                     (* the sending half is gone without a value *)

(** Where a call stands in [request_internal]. *)
Inductive CallState :=
| Registered                   (* the id is taken and pending *)
| Sending                      (* inside [sender.send] *)
| Waiting                      (* inside the [select!] *)
| Cancelling                   (* aborted, telling the server *)
| Finished (r : result Value McpError).

Record Call := mkCall {
  call_id : RequestId;
  call_method : string;
  call_params : Value;
  call_timeout : Z;            (* milliseconds *)
  call_abortable : bool;       (* an abort signal was given *)
  call_chan : Chan;
  call_state : CallState
}.

Record Client := mkClient {
  sender : bool;                     (* [Some] until shutdown *)
  pending : gmap RequestId nat;      (* id to call *)
  next_id : Z;
  counter : Z;                       (* [ListChangedSignal] *)
  list_changed : Z;                  (* the watched value *)
  reading : bool;                    (* the reader is in its loop *)
  closed : bool;                     (* [done_rx] *)
  calls : list Call;
  written : list JsonRpcMessage      (* handed to the transport *)
}.

Definition open : Client := mkClient true ∅ 1 0 0 true false [] [].

Definition set_state (st : CallState) (c : Call) : Call :=
  mkCall (call_id c) (call_method c) (call_params c) (call_timeout c) (call_abortable c) (call_chan c) st.

Definition set_chan (ch : Chan) (c : Call) : Call :=
  mkCall (call_id c) (call_method c) (call_params c) (call_timeout c) (call_abortable c) ch (call_state c).

(** Dropping the sending half. *)
Definition drop_chan (c : Call) : Call :=
  match call_chan c with Empty => set_chan Dropped c | _ => c end.

Definition with_calls (p : gmap RequestId nat) (cs : list Call) (c : Client) : Client :=
  mkClient (sender c) p (next_id c) (counter c) (list_changed c) (reading c) (closed c) cs (written c).

Definition write (m : JsonRpcMessage) (c : Client) : Client :=
  mkClient (sender c) (pending c) (next_id c) (counter c) (list_changed c) (reading c) (closed c)
           (calls c) (written c ++ [m]).

Definition stop_reading (c : Client) : Client :=
  mkClient (sender c) (pending c) (next_id c) (counter c) (list_changed c) false (closed c)
           (calls c) (written c).

Definition update (k : nat) (f : Call -> Call) (c : Client) : Client :=
  with_calls (pending c) (alter f k (calls c)) c.

(** [pending.remove(&id)], the sending half dropped. *)
Definition forget (id : RequestId) (c : Client) : Client :=
  match pending c !! id with
  | Some k => with_calls (delete id (pending c)) (alter drop_chan k (calls c)) c
  | None => c
  end.

(** [pending.remove(&id)] and [tx.send(m)]. *)
Definition deliver (id : RequestId) (m : JsonRpcMessage) (c : Client) : Client :=
  match pending c !! id with
  | Some k => with_calls (delete id (pending c)) (alter (set_chan (Sent m)) k (calls c)) c
  | None => c
  end.

(** ** [route_inbound] *)

Definition bump (c : Client) : Client :=
  let n := add64 (counter c) 1 in
  mkClient (sender c) (pending c) (next_id c) n n (reading c) (closed c) (calls c) (written c).

Definition unsupported : string := "server-to-client requests are not supported".

Definition route_inbound (msg : JsonRpcMessage) (c : Client) : Client * option JsonRpcMessage :=
  match msg with
  | Response resp => (deliver (rs_id resp) msg c, None)
  | ErrorResponse err =>
      match er_id err with
      | Some id => (deliver id msg c, None)
      | None => (c, None)
      end
  | Request req =>
      (c, Some (if String.eqb (rq_method req) "ping"
                then Response (success (rq_id req) (json_object []))
                else ErrorResponse (error_response (Some (rq_id req)) (-32601) unsupported)))
  | Notification n =>
      (if String.eqb (nt_method n) "notifications/tools/list_changed" then bump c else c, None)
  end.

(** ** [request_internal], cut at its suspension points *)

(** The first lines: a fresh id, its channel, the pending entry. *)
Definition register (method : string) (params : Value) (timeout : Z) (abortable : bool) (c : Client) : Client :=
  let id := Number (next_id c) in
  let c := forget id c in
  let k := length (calls c) in
  mkClient (sender c) (<[id := k]> (pending c)) (add_i64 (next_id c) 1) (counter c) (list_changed c)
           (reading c) (closed c)
           (calls c ++ [mkCall id method params timeout abortable Empty Registered]) (written c).

Definition finish (k : nat) (r : result Value McpError) : Client -> Client :=
  update k (set_state (Finished r)).

(** Reading the sender, and the start of the send. *)
Definition start_send (k : nat) (call : Call) (c : Client) : Client :=
  if sender c
  then write (Request (mkRequest "2.0" (call_method call) (call_params call) (call_id call)))
             (update k (set_state Sending) c)
  else finish k (Err Closed) (forget (call_id call) c).

(** The send returns. *)
Definition end_send (k : nat) (call : Call) (e : option McpError) (c : Client) : Client :=
  match e with
  | None => update k (set_state Waiting) c
  | Some e => finish k (Err e) (forget (call_id call) c)
  end.

(** What the value of the channel means. *)
Definition outcome (m : JsonRpcMessage) : result Value McpError :=
  match m with
  | Response resp => Ok (rs_result resp)
  | ErrorResponse err => Err (Remote (err_code (er_error err)) (err_message (er_error err)))
  | _ => Err (Protocol "mismatched JSON-RPC message")
  end.

Definition receive (k : nat) (call : Call) (c : Client) : option Client :=
  match call_chan call with
  | Sent m => Some (finish k (outcome m) c)
  | Dropped => Some (finish k (Err Closed) c)
  | Empty => None
  end.

(** The deadline passes; the channel is polled first. *)
Definition time_out (k : nat) (call : Call) (c : Client) : option Client :=
  match call_chan call with
  | Empty => Some (finish k (Err (Timeout (call_timeout call))) (forget (call_id call) c))
  | _ => None
  end.

(** The abort branch: first the entry, then the notification. *)
Definition abort_call (k : nat) (call : Call) (c : Client) : option Client :=
  if call_abortable call
  then Some (update k (set_state Cancelling) (forget (call_id call) c))
  else None.

Definition cancel_notification (id : RequestId) : JsonRpcMessage :=
  Notification (notification "notifications/cancelled"
    (json_object [("requestId", encode_id id); ("reason", json_string "user requested cancellation")])).

Definition end_abort (k : nat) (call : Call) (c : Client) : Client :=
  let c := if sender c then write (cancel_notification (call_id call)) c else c in
  finish k (Err Cancelled) c.

(** ** The reader *)

(** One message; [delivered] says whether a reply reached the server. *)
Definition read_one (msg : JsonRpcMessage) (delivered : bool) (c : Client) : Client :=
  match route_inbound msg c with
  | (c, None) => c
  | (c, Some reply) => if (sender c && delivered)%bool then write reply c else stop_reading c
  end.

(** [lock_pending().clear()] and [done_tx.send(true)]. *)
Definition drain (c : Client) : Client :=
  mkClient (sender c) ∅ (next_id c) (counter c) (list_changed c) (reading c) true
           (foldr (fun e cs => alter drop_chan (e.2) cs) (calls c) (map_to_list (pending c)))
           (written c).

(** [shutdown]. *)
Definition shutdown (c : Client) : Client :=
  mkClient false (pending c) (next_id c) (counter c) (list_changed c) (reading c) (closed c)
           (calls c) (written c).

(** ** Events *)

Inductive Event :=
| Issue (method : string) (params : Value) (timeout : Z) (abortable : bool)
| StartSend (k : nat)
| EndSend (k : nat) (e : option McpError)
| Receive (k : nat)
| TimeOut (k : nat)
| Abort_ (k : nat)
| EndAbort (k : nat)
| Inbound (msg : JsonRpcMessage) (delivered : bool)
| InboundEnd
| Drain
| Shutdown.

(** A step of the call [k] in state [st]. *)
Definition call_step (k : nat) (st : Call -> bool) (f : Call -> option Client) (c : Client) : option Client :=
  match calls c !! k with
  | Some call => if st call then f call else None
  | None => None
  end.

Definition registered (c : Call) : bool := match call_state c with Registered => true | _ => false end.
Definition sending (c : Call) : bool := match call_state c with Sending => true | _ => false end.
Definition waiting (c : Call) : bool := match call_state c with Waiting => true | _ => false end.
Definition cancelling (c : Call) : bool := match call_state c with Cancelling => true | _ => false end.

Definition step (e : Event) (c : Client) : option Client :=
  match e with
  | Issue m p t a => Some (register m p t a c)
  | StartSend k => call_step k registered (fun call => Some (start_send k call c)) c
  | EndSend k e => call_step k sending (fun call => Some (end_send k call e c)) c
  | Receive k => call_step k waiting (fun call => receive k call c) c
  | TimeOut k => call_step k waiting (fun call => time_out k call c) c
  | Abort_ k => call_step k waiting (fun call => abort_call k call c) c
  | EndAbort k => call_step k cancelling (fun call => Some (end_abort k call c)) c
  | Inbound m d => if reading c then Some (read_one m d c) else None
  | InboundEnd => if reading c then Some (stop_reading c) else None
  | Drain => if (negb (reading c) && negb (closed c))%bool then Some (drain c) else None
  | Shutdown => Some (shutdown c)
  end.

(** The runs of a connection, with what happened so far. *)
Inductive runs : list Event -> Client -> Prop :=
| runs_open : runs [] open
| runs_step es e c c' : runs es c -> step e c = Some c' -> runs (es ++ [e]) c'.
End Client.

(** ** Results of the server ([mcp/types.rs]) and the catalog *)
Section Results.
Context `{J : Json}.

Record McpToolDef := mkToolDef {
  def_name : string;
  def_description : option string;
  def_schema : Value
}.

(** One entry of a [tools/list] result; one without a string name is skipped. *)
Definition parse_tool_def (t : Value) : option McpToolDef :=
  name ← str_field t "name";
  Some (mkToolDef name (str_field t "description") (default (json_object []) (json_get t "inputSchema"))).

Definition parse_tool_defs (r : Value) : list McpToolDef :=
  omap parse_tool_def (default [] (json_get r "tools" ≫= as_array)).

Record CallToolOutcome := mkOutcome { data : Value; is_error : bool }.

Definition is_text (item : Value) : bool :=
  match str_field item "type" with Some t => String.eqb t "text" | None => false end.

(** The texts joined by newlines; the whole array as well when something in it
    is not text. *)
Definition map_call_result (r : Value) : CallToolOutcome :=
  let is_err := default false (json_get r "isError" ≫= as_bool) in
  let data :=
    match json_get r "content" ≫= as_array with
    | Some ((_ :: _) as items) =>
        let texts := (fun i => default "" (str_field i "text")) <$> List.filter is_text items in
        let joined := String.concat newline texts in
        if forallb is_text items then json_string joined
        else json_object [("text", json_string joined); ("content", json_array items)]
    | _ => default (json_string "") (json_get r "structuredContent")
    end in
  mkOutcome data is_err.

Definition MCP_MAX_LIST_PAGES : nat := 100.

Definition cursor_params (cursor : option string) : Value :=
  json_object match cursor with Some c => [("cursor", json_string c)] | None => [] end.

Definition next_cursor (r : Value) : option string :=
  match str_field r "nextCursor" with
  | Some s => if is_empty s then None else Some s
  | None => None
  end.

(** [list_tools]: the [i]-th request for a page may fail. *)
Fixpoint list_pages (request : nat -> Value -> result Value McpError) (pages i : nat)
    (cursor : option string) (out : list McpToolDef) : result (list McpToolDef) McpError :=
  match pages with
  | O => Ok out
  | S pages =>
      let? r := request i (cursor_params cursor) in
      let out := (out ++ parse_tool_defs r)%list in
      match next_cursor r with
      | None => Ok out
      | Some c => list_pages request pages (S i) (Some c) out
      end
  end.

Definition list_tools (request : nat -> Value -> result Value McpError) : result (list McpToolDef) McpError :=
  list_pages request MCP_MAX_LIST_PAGES 0 None [].

(** The pages a server hands out from the [i]-th request on: each asked for
    with the cursor of the page before. *)
Inductive served (request : nat -> Value -> result Value McpError) :
    nat -> option string -> list Value -> option string -> Prop :=
| served_none i cursor : served request i cursor [] cursor
| served_page i cursor r rest last :
    request i (cursor_params cursor) = Ok r ->
    (rest <> [] -> next_cursor r <> None) ->
    served request (S i) (next_cursor r) rest last ->
    served request i cursor (r :: rest) last.

Lemma list_pages_served request n i cursor out tools :
  list_pages request n i cursor out = Ok tools ->
  exists pages last, served request i cursor pages last /\ (length pages <= n)%nat /\
    tools = (out ++ concat (parse_tool_defs <$> pages))%list /\
    (last = None \/ length pages = n).
Proof.
  revert i cursor out. induction n as [|n IH]; intros i cursor out; simpl.
  { intros [= <-]. exists [], cursor. split; [constructor|]. simpl. rewrite app_nil_r. eauto. }
  destruct (request i (cursor_params cursor)) as [r|e] eqn:Er; [|done].
  destruct (next_cursor r) as [c|] eqn:Ec.
  - intros (pages & last & Hs & Hl & -> & Hend)%IH. exists (r :: pages), last. split.
    + econstructor; [done|by rewrite Ec|by rewrite Ec].
    + simpl. rewrite <- (assoc_L app). split; [lia|]. split; [done|]. destruct Hend; [by left|right; lia].
  - intros [= <-]. exists [r], None. split.
    + econstructor; [done|done|rewrite Ec; constructor].
    + simpl. rewrite app_nil_r. split; [lia|]. split; [done|by left].
Qed.

(** Fetching the catalog ends after at most a hundred pages whatever
    cursors the server hands out, and the catalog is the tools of the pages in
    order, each page asked for with the cursor of the one before; short of the
    cap it is complete: the last page had no further cursor. *)
Theorem list_tools_pages (request : nat -> Value -> result Value McpError) (tools : list McpToolDef) :
  list_tools request = Ok tools ->
  exists pages last, served request 0 None pages last /\ (length pages <= 100)%nat /\
    tools = concat (parse_tool_defs <$> pages) /\ (last = None \/ length pages = 100%nat).
Proof. apply (list_pages_served request MCP_MAX_LIST_PAGES 0 None []). Qed.
End Results.

(** ** The contract: a request-reply service

    What a caller sees of each of its calls, in the order of issue: it is
    open, then replied or lost, then returned.  A reply carries the id of its
    call, an open call takes one reply, and what a call returns is its reply
    or an error of the client's own. *)
Section Contract.
Context `{J : Json}.

Inductive Slot :=
| Open
| Replied (m : JsonRpcMessage)
| Lost
| Returned (r : result Value McpError).

(** The id of the [k]-th call: the counter starts at 1 and wraps. *)
Definition nth_id (k : nat) : Z := add_i64 0 (1 + Z.of_nat k).

Inductive spec_step : list Slot -> list Slot -> Prop :=
| spec_issue ss : spec_step ss (ss ++ [Open])
| spec_reply ss k m :
    ss !! k = Some Open -> response_id m = Some (Number (nth_id k)) ->
    spec_step ss (<[k := Replied m]> ss)
| spec_lose ss k : ss !! k = Some Open -> spec_step ss (<[k := Lost]> ss)
| spec_return ss k m :
    ss !! k = Some (Replied m) -> spec_step ss (<[k := Returned (outcome m)]> ss)
| spec_fail ss k s e :
    ss !! k = Some s -> (forall r, s <> Returned r) ->
    spec_step ss (<[k := Returned (Err e)]> ss).

Definition abs_call (c : Call) : Slot :=
  match call_state c with
  | Finished r => Returned r
  | _ => match call_chan c with Empty => Open | Sent m => Replied m | Dropped => Lost end
  end.

Definition abs (c : Client) : list Slot := abs_call <$> calls c.

(** ** The invariant *)

(** A call in itself, after the events [es]: an answer in its channel came in
    and carries its id; a call whose channel is empty is still under way; a
    value returned is the result of the response in the channel. *)
Record call_inv (es : list Event) (k : nat) (c : Call) : Prop := {
  inv_id : call_id c = Number (nth_id k);
  inv_sent m : call_chan c = Sent m ->
    response_id m = Some (Number (nth_id k)) /\ exists d, Inbound m d ∈ es;
  inv_empty : call_chan c = Empty ->
    match call_state c with Registered | Sending | Waiting => True | _ => False end;
  inv_finished v : call_state c = Finished (Ok v) ->
    exists r, call_chan c = Sent (Response r) /\ rs_result r = v
}.

Record client_inv (es : list Event) (c : Client) : Prop := {
  inv_bound : Z.of_nat (length (calls c)) < 2 ^ 64;
  inv_next : next_id c = nth_id (length (calls c));
  inv_calls k call : calls c !! k = Some call -> call_inv es k call;
  inv_pending id k : pending c !! id = Some k <->
    exists call, calls c !! k = Some call /\ call_id call = id /\ call_chan call = Empty
}.

Lemma nth_id_inj k1 k2 :
  Z.of_nat k1 < 2 ^ 64 -> Z.of_nat k2 < 2 ^ 64 -> nth_id k1 = nth_id k2 -> k1 = k2.
Proof. unfold nth_id, add_i64. intros H1 H2 H. Z.to_euclidean_division_equations. lia. Qed.

Lemma nth_id_next k : add_i64 (nth_id k) 1 = nth_id (S k).
Proof.
  unfold nth_id, add_i64. rewrite Nat2Z.inj_succ. f_equal.
  set (z := 0 + (1 + Z.of_nat k) + 2 ^ 63).
  replace (z mod 2 ^ 64 - 2 ^ 63 + 1 + 2 ^ 63) with (z mod 2 ^ 64 + 1) by lia.
  rewrite Z.add_mod_idemp_l by lia. f_equal. unfold z. lia.
Qed.

Lemma call_inv_more es e k c : call_inv es k c -> call_inv (es ++ [e]) k c.
Proof.
  intros [Hid Hsent Hempty Hfin]. split; try done.
  intros m Hm. destruct (Hsent m Hm) as [? [d Hd]]. split; [done|]. exists d.
  apply elem_of_app. by left.
Qed.

(** ** Updating one call *)

Lemma lookup_alter_call (f : Call -> Call) (k : nat) (cs : list Call) (j : nat) call :
  alter f k cs !! j = Some call ->
  exists call0, cs !! j = Some call0 /\ call = if decide (j = k) then f call0 else call0.
Proof.
  destruct (decide (j = k)) as [->|Hne].
  - rewrite list_lookup_alter_eq. intros (c0 & Hc & ->)%fmap_Some. exists c0. done.
  - rewrite list_lookup_alter_ne by done. exists call. done.
Qed.

(** A change that leaves the channel alone leaves the pending calls alone. *)
Lemma inv_update es (f : Call -> Call) k c :
  client_inv es c ->
  (forall call, calls c !! k = Some call ->
     call_id (f call) = call_id call /\ call_chan (f call) = call_chan call /\ call_inv es k (f call)) ->
  client_inv es (update k f c).
Proof.
  intros [Hb Hn Hc Hp] Hf. split; simpl.
  - by rewrite length_alter.
  - by rewrite length_alter.
  - intros j call (c0 & Hj & ->)%lookup_alter_call. case_decide; [|by apply Hc].
    subst. by apply Hf.
  - intros id j. rewrite Hp. destruct (decide (j = k)) as [->|Hne].
    + rewrite list_lookup_alter_eq. destruct (calls c !! k) as [c0|] eqn:E; simpl; [|naive_solver].
      destruct (Hf c0 eq_refl) as (Hid & Hch & _). split; intros (call & [= <-] & H1 & H2); eexists;
        repeat split; congruence.
    + by rewrite list_lookup_alter_ne.
Qed.

(** Settling a call: its channel is filled or dropped and its entry removed. *)
Lemma inv_settle es (f : Call -> Call) k c call :
  client_inv es c ->
  calls c !! k = Some call ->
  call_id (f call) = call_id call -> call_chan (f call) <> Empty -> call_inv es k (f call) ->
  client_inv es (with_calls (delete (call_id call) (pending c)) (alter f k (calls c)) c).
Proof.
  intros [Hb Hn Hc Hp] Hk Hid Hch Hf. split; simpl.
  - by rewrite length_alter.
  - by rewrite length_alter.
  - intros j call' (c0 & Hj & ->)%lookup_alter_call. case_decide; [|by apply Hc].
    subst. by simplify_eq.
  - intros id j. rewrite lookup_delete_Some, Hp. destruct (decide (j = k)) as [->|Hne].
    + rewrite list_lookup_alter_eq, Hk. simpl. split.
      * intros (Hne & call' & ? & ? & ?). simplify_eq.
      * intros (call' & ? & ? & ?). simplify_eq.
    + rewrite list_lookup_alter_ne by done. split; [naive_solver|].
      intros (call' & Hj & <- & He). split; [|naive_solver]. intros Heq.
      rewrite (inv_id _ _ _ (Hc _ _ Hk)), (inv_id _ _ _ (Hc _ _ Hj)) in Heq. injection Heq as Heq.
      apply Hne. symmetry. apply lookup_lt_Some in Hk, Hj. apply nth_id_inj; [lia|lia|done].
Qed.

Lemma drop_chan_id c : call_id (drop_chan c) = call_id c.
Proof. unfold drop_chan. by destruct (call_chan c). Qed.

Lemma drop_chan_state c : call_state (drop_chan c) = call_state c.
Proof. unfold drop_chan. by destruct (call_chan c). Qed.

Lemma drop_chan_full c : call_chan c <> Empty -> drop_chan c = c.
Proof. unfold drop_chan. by destruct (call_chan c). Qed.

Lemma drop_chan_not_empty c : call_chan (drop_chan c) <> Empty.
Proof. unfold drop_chan. destruct (call_chan c) eqn:E; simpl; congruence. Qed.

Lemma drop_chan_sent c m : call_chan (drop_chan c) = Sent m -> call_chan c = Sent m.
Proof. unfold drop_chan. destruct (call_chan c) eqn:E; simpl; congruence. Qed.

Lemma alter_lookup (f : Call -> Call) (k : nat) (cs : list Call) call : cs !! k = Some call -> alter f k cs = <[k := f call]> cs.
Proof.
  intros Hk. apply list_eq. intros j. destruct (decide (j = k)) as [->|Hne].
  - rewrite list_lookup_alter_eq, Hk, list_lookup_insert_eq by (by apply lookup_lt_Some in Hk). done.
  - by rewrite list_lookup_alter_ne, list_lookup_insert_ne by done.
Qed.

Lemma with_calls_id c : with_calls (pending c) (calls c) c = c.
Proof. by destruct c. Qed.

(** Only the call's own entry is under its id. *)
Lemma own_entry es c k call j :
  client_inv es c -> calls c !! k = Some call -> pending c !! call_id call = Some j -> j = k.
Proof.
  intros [Hb Hn Hc Hp] Hk (call' & Hj & Hid & _)%Hp.
  rewrite (inv_id _ _ _ (Hc _ _ Hk)), (inv_id _ _ _ (Hc _ _ Hj)) in Hid. injection Hid as Hid.
  apply lookup_lt_Some in Hk, Hj. apply nth_id_inj; [lia|lia|done].
Qed.

Lemma forget_own es c k call :
  client_inv es c -> calls c !! k = Some call ->
  forget (call_id call) c =
  with_calls (delete (call_id call) (pending c)) (alter drop_chan k (calls c)) c.
Proof.
  intros Hinv Hk. unfold forget. destruct (pending c !! call_id call) as [j|] eqn:E.
  - by rewrite (own_entry es c k call j).
  - rewrite delete_id by done. rewrite (alter_lookup _ _ _ _ Hk), drop_chan_full.
    + by rewrite list_insert_id, with_calls_id.
    + intros He. assert (pending c !! call_id call = Some k) by (apply (inv_pending _ _ Hinv); eauto).
      congruence.
Qed.

(** Giving a call up: its entry goes, its state is set. *)
Lemma forget_set es c k call st :
  client_inv es c -> calls c !! k = Some call ->
  update k (set_state st) (forget (call_id call) c) =
  with_calls (delete (call_id call) (pending c)) (alter (fun x => set_state st (drop_chan x)) k (calls c)) c.
Proof.
  intros Hinv Hk. rewrite (forget_own es c k call) by done. unfold update, with_calls. simpl.
  f_equal. rewrite !(alter_lookup _ k (calls c) call Hk).
  rewrite (alter_lookup _ _ _ (drop_chan call)), list_insert_insert_eq; [done|].
  apply list_lookup_insert_eq. by apply lookup_lt_Some in Hk.
Qed.

Lemma inv_give_up es c k call st :
  client_inv es c -> calls c !! k = Some call -> (forall v, st <> Finished (Ok v)) ->
  client_inv es (update k (set_state st) (forget (call_id call) c)).
Proof.
  intros Hinv Hk Hst. rewrite (forget_set es) by done. apply inv_settle; [done|done|..].
  - apply drop_chan_id.
  - apply drop_chan_not_empty.
  - destruct (inv_calls _ _ Hinv _ _ Hk) as [Hid Hsent Hempty Hfin]. split; simpl.
    + by rewrite drop_chan_id.
    + intros m Hm%drop_chan_sent. exact (Hsent m Hm).
    + intros He. by apply (drop_chan_not_empty call) in He.
    + intros v Hv. by apply (Hst v) in Hv.
Qed.

(** A change of state that keeps a call under way. *)
Lemma inv_advance es c k call st :
  client_inv es c -> calls c !! k = Some call ->
  match st with Registered | Sending | Waiting => True | _ => call_chan call <> Empty end ->
  (forall v, st = Finished (Ok v) -> exists r, call_chan call = Sent (Response r) /\ rs_result r = v) ->
  client_inv es (update k (set_state st) c).
Proof.
  intros Hinv Hk Hst Hok. apply inv_update; [done|]. intros call' Hk'. simplify_eq.
  destruct (inv_calls _ _ Hinv _ _ Hk) as [Hid Hsent Hempty Hfin].
  split; [done|]. split; [done|]. split; simpl; try done.
  intros He. destruct st; try done.
Qed.

Lemma inv_deliver es c id m d :
  client_inv es c -> response_id m = Some id -> Inbound m d ∈ es -> client_inv es (deliver id m c).
Proof.
  intros Hinv Hid Hin. unfold deliver. destruct (pending c !! id) as [k|] eqn:E; [|done].
  apply (inv_pending _ _ Hinv) in E as (call & Hk & <- & He).
  apply inv_settle; [done|done|done|done|].
  destruct (inv_calls _ _ Hinv _ _ Hk) as [Hcid Hsent Hempty Hfin]. split; simpl; try done.
  - intros m' [= <-]. rewrite <- Hcid. eauto.
  - intros v Hv. specialize (Hempty He). by rewrite Hv in Hempty.
Qed.

Lemma inv_fields es c c' :
  client_inv es c -> pending c' = pending c -> next_id c' = next_id c -> calls c' = calls c ->
  client_inv es c'.
Proof. intros [Hb Hn Hc Hp] E1 E2 E3. split; rewrite ?E1, ?E2, ?E3; done. Qed.

(** ** Registering, draining *)

Lemma fresh_forget es c :
  client_inv es c -> forget (Number (next_id c)) c = c.
Proof.
  intros Hinv. unfold forget. destruct (pending c !! Number (next_id c)) as [j|] eqn:E; [|done].
  destruct (inv_pending _ _ Hinv (Number (next_id c)) j) as [(call & Hj & Hid & _) _]; [done|].
  rewrite (inv_id _ _ _ (inv_calls _ _ Hinv _ _ Hj)), (inv_next _ _ Hinv) in Hid.
  injection Hid as Hid. apply lookup_lt_Some in Hj. pose proof (inv_bound _ _ Hinv).
  apply nth_id_inj in Hid; lia.
Qed.

Lemma inv_register es c m p t a :
  client_inv es c -> Z.of_nat (S (length (calls c))) < 2 ^ 64 -> client_inv es (register m p t a c).
Proof.
  intros Hinv Hbound. unfold register. rewrite (fresh_forget es) by done.
  destruct Hinv as [Hb Hn Hc Hp]. split; simpl; rewrite ?length_app; simpl.
  - lia.
  - by rewrite Hn, nth_id_next, Nat.add_1_r.
  - intros k call [[_ Hk]|[-> Hk]]%lookup_snoc_Some; [by apply Hc|]. subst call.
    split; simpl; try done. by rewrite Hn.
  - intros id k. rewrite lookup_insert_Some, Hp. split.
    + intros [[<- <-]|[Hne (call & Hk & ? & ?)]].
      * eexists. rewrite lookup_app_r, Nat.sub_diag by lia. done.
      * exists call. rewrite lookup_app_l by (by apply lookup_lt_Some in Hk). done.
    + intros (call & [[_ Hk]|[-> Hk]]%lookup_snoc_Some & Hid & He).
      * right. split; [|eauto]. intros <-.
        rewrite (inv_id _ _ _ (Hc _ _ Hk)), Hn in Hid. injection Hid as Hid.
        apply lookup_lt_Some in Hk. apply nth_id_inj in Hid; lia.
      * left. subst call. by simpl in Hid.
Qed.

(** Dropping every pending sender drops the channels that were empty. *)
Lemma drop_all_lookup (l : list (RequestId * nat)) (cs : list Call) (k : nat) :
  foldr (fun e cs => alter drop_chan (e.2) cs) cs l !! k =
  if bool_decide (k ∈ l.*2) then drop_chan <$> cs !! k else cs !! k.
Proof.
  induction l as [|[id j] l IH]; [done|]. cbn [foldr snd fmap list_fmap].
  destruct (decide (k = j)) as [->|Hne].
  - rewrite list_lookup_alter_eq, IH. rewrite (bool_decide_true (j ∈ j :: l.*2)) by (by left).
    case_bool_decide; [|done]. destruct (cs !! j) as [c|]; simpl; [|done].
    f_equal. apply drop_chan_full, drop_chan_not_empty.
  - rewrite list_lookup_alter_ne, IH by done.
    rewrite (bool_decide_iff (k ∈ l.*2) (k ∈ j :: l.*2)); [done|].
    rewrite elem_of_cons. naive_solver.
Qed.

Lemma drain_calls es c : client_inv es c -> calls (drain c) = drop_chan <$> calls c.
Proof.
  intros Hinv. simpl. apply list_eq. intros k. rewrite drop_all_lookup, list_lookup_fmap.
  case_bool_decide as Hin; [done|]. destruct (calls c !! k) as [call|] eqn:Hk; [|done]. simpl.
  f_equal. symmetry. apply drop_chan_full. intros He. apply Hin.
  apply list_elem_of_fmap. exists (call_id call, k). split; [done|].
  apply elem_of_map_to_list, (inv_pending _ _ Hinv). eauto.
Qed.

Lemma inv_drain es c : client_inv es c -> client_inv es (drain c).
Proof.
  intros Hinv. pose proof (drain_calls es c Hinv) as Hd. destruct Hinv as [Hb Hn Hc Hp].
  split; rewrite ?Hd, ?length_fmap; [done|done|..].
  - intros k call. rewrite list_lookup_fmap. intros (c0 & Hk & ->)%fmap_Some.
    destruct (Hc _ _ Hk) as [Hid Hsent Hempty Hfin]. split.
    + by rewrite drop_chan_id.
    + intros m Hm%drop_chan_sent. exact (Hsent m Hm).
    + by intros He%drop_chan_not_empty.
    + rewrite drop_chan_state. intros v Hv. destruct (Hfin v Hv) as (r & Hr & <-).
      exists r. rewrite drop_chan_full by congruence. done.
  - intros id k. change (pending (drain c)) with (∅ : gmap RequestId nat). rewrite lookup_empty.
    split; [done|]. intros (call & Hk & _ & He). rewrite list_lookup_fmap in Hk.
    apply fmap_Some in Hk as (c0 & _ & ->). by apply drop_chan_not_empty in He.
Qed.

(** ** Every step keeps the invariant *)

Lemma inv_more es e c : client_inv es c -> client_inv (es ++ [e]) c.
Proof. intros [Hb Hn Hc Hp]. split; try done. intros k call Hk. by apply call_inv_more, Hc. Qed.

Lemma inv_open : client_inv [] open.
Proof.
  split; simpl; try done. intros id k. rewrite lookup_empty. split; [done|].
  by intros (call & Hk & _).
Qed.

Lemma inv_write es m c : client_inv es c -> client_inv es (write m c).
Proof. intros Hinv. by apply (inv_fields es c). Qed.

Lemma call_step_some k st f c c' :
  call_step k st f c = Some c' -> exists call, calls c !! k = Some call /\ st call = true /\ f call = Some c'.
Proof. unfold call_step. destruct (calls c !! k) as [call|]; [|done]. destruct (st call) eqn:E; [|done]. eauto. Qed.

Lemma inv_route es m d c reply c' :
  client_inv es c -> Inbound m d ∈ es -> route_inbound m c = (c', reply) -> client_inv es c'.
Proof.
  intros Hinv Hin. destruct m as [r|r|e|n]; simpl.
  - by intros [= <- <-].
  - intros [= <- <-]. by apply (inv_deliver es c _ (Response r) d).
  - destruct (er_id e) as [id|] eqn:E; intros [= <- <-]; [|done].
    by apply (inv_deliver es c _ (ErrorResponse e) d).
  - destruct (String.eqb _ _); intros [= <- <-]; [|done]. by apply (inv_fields es c).
Qed.

Lemma inv_read es m d c : client_inv es c -> Inbound m d ∈ es -> client_inv es (read_one m d c).
Proof.
  intros Hinv Hin. unfold read_one. destruct (route_inbound m c) as [c1 [reply|]] eqn:E;
    apply (inv_route es m d) in E; try done.
  destruct (sender c1 && d)%bool; [by apply inv_write|by apply (inv_fields es c1)].
Qed.

Lemma inv_receive es k call c c' :
  client_inv es c -> calls c !! k = Some call -> receive k call c = Some c' -> client_inv es c'.
Proof.
  intros Hinv Hk. unfold receive, finish. destruct (call_chan call) as [|m|] eqn:E; [done|..];
    intros [= <-]; apply (inv_advance es c k call); simpl; try done; try congruence.
  destruct m; try done. simpl. intros v [= <-]. eauto.
Qed.

Lemma inv_step es e c c' :
  client_inv es c -> Z.of_nat (S (length (calls c))) < 2 ^ 64 -> step e c = Some c' ->
  client_inv (es ++ [e]) c'.
Proof.
  intros Hinv%(inv_more _ e) Hb. destruct e as [m p t a|k|k err|k|k|k|k|m d| | |]; simpl.
  - intros [= <-]. by apply inv_register.
  - intros (call & Hk & Hst & [= <-])%call_step_some. unfold start_send. destruct (sender c).
    + by apply inv_write, (inv_advance _ c k call).
    + by apply inv_give_up.
  - intros (call & Hk & Hst & [= <-])%call_step_some. destruct err; simpl.
    + by apply inv_give_up.
    + by apply (inv_advance _ c k call).
  - intros (call & Hk & Hst & Hr)%call_step_some. by apply (inv_receive _ k call c).
  - intros (call & Hk & Hst & Hr)%call_step_some. unfold time_out in Hr.
    destruct (call_chan call); [|done|done]. injection Hr as <-. by apply inv_give_up.
  - intros (call & Hk & Hst & Hr)%call_step_some. unfold abort_call in Hr.
    destruct (call_abortable call); [|done]. injection Hr as <-. by apply inv_give_up.
  - intros (call & Hk & Hst & [= <-])%call_step_some. unfold end_abort, finish.
    assert (call_chan call <> Empty).
    { intros He. pose proof (inv_empty _ _ _ (inv_calls _ _ Hinv _ _ Hk) He) as Hs.
      unfold cancelling in Hst. by destruct (call_state call). }
    destruct (sender c); [apply (inv_advance _ _ k call)|apply (inv_advance _ c k call)]; try done.
    by apply inv_write.
  - destruct (reading c); [|done]. intros [= <-]. apply (inv_read _ m d); [done|].
    apply elem_of_app. right. by left.
  - destruct (reading c); [|done]. intros [= <-]. by apply (inv_fields _ c).
  - destruct (_ && _)%bool; [|done]. intros [= <-]. by apply inv_drain.
  - intros [= <-]. by apply (inv_fields _ c).
Qed.

Lemma forget_calls_length id c : length (calls (forget id c)) = length (calls c).
Proof. unfold forget. destruct (pending c !! id); simpl; [by rewrite length_alter|done]. Qed.

Lemma deliver_calls_length id m c : length (calls (deliver id m c)) = length (calls c).
Proof. unfold deliver. destruct (pending c !! id); simpl; [by rewrite length_alter|done]. Qed.

Lemma route_calls_length m c : length (calls (route_inbound m c).1) = length (calls c).
Proof.
  destruct m as [r|r|e|n]; simpl; [done|apply deliver_calls_length|..].
  - destruct (er_id e); [apply deliver_calls_length|done].
  - by destruct (String.eqb _ _).
Qed.

Lemma read_calls_length m d c : length (calls (read_one m d c)) = length (calls c).
Proof.
  unfold read_one. pose proof (route_calls_length m c) as Hl.
  destruct (route_inbound m c) as [c1 [r|]]; simpl in Hl; [|done]. by destruct (_ && _)%bool.
Qed.

Lemma drain_calls_length c : length (calls (drain c)) = length (calls c).
Proof.
  simpl. induction (map_to_list (pending c)) as [|e l IH]; simpl; [done|]. by rewrite length_alter.
Qed.

Lemma update_calls_length k f c : length (calls (update k f c)) = length (calls c).
Proof. simpl. by rewrite length_alter. Qed.

Lemma step_calls_length e c c' :
  step e c = Some c' -> (length (calls c') <= S (length (calls c)))%nat.
Proof.
  pose proof update_calls_length as Hu. pose proof forget_calls_length as Hf.
  pose proof drain_calls_length as Hd. pose proof read_calls_length as Hr.
  destruct e; simpl; unfold call_step, receive, time_out, abort_call; intros Hs;
    repeat case_match; try done; injection Hs as <-;
    unfold start_send, end_send, end_abort, finish, register; simpl;
    rewrite ?length_app; repeat case_match; simpl;
    rewrite ?length_alter, ?Hf, ?Hr; simpl; try lia.
  specialize (Hd c). simpl in Hd. lia.
Qed.

Lemma runs_inv es c :
  runs es c -> Z.of_nat (length es) < 2 ^ 64 ->
  client_inv es c /\ (length (calls c) <= length es)%nat.
Proof.
  induction 1 as [|es e c c' Hr IH Hs]; intros Hb; [split; [apply inv_open|done]|].
  rewrite length_app in Hb. simpl in Hb. destruct IH as [Hinv Hl]; [lia|].
  pose proof (step_calls_length e c c' Hs). rewrite length_app. simpl. split; [|lia].
  apply (inv_step es e c c'); [done|lia|done].
Qed.

(** ** Every step is some steps of the contract *)

Lemma abs_set k f c call :
  calls c !! k = Some call ->
  abs_call <$> alter f k (calls c) = <[k := abs_call (f call)]> (abs c).
Proof. intros Hk. rewrite (alter_lookup _ _ _ _ Hk). apply list_fmap_insert. Qed.

Lemma abs_lookup c k call : calls c !! k = Some call -> abs c !! k = Some (abs_call call).
Proof. intros Hk. unfold abs. by rewrite list_lookup_fmap, Hk. Qed.

Lemma abs_same k f c call :
  calls c !! k = Some call -> abs_call (f call) = abs_call call -> abs (update k f c) = abs c.
Proof.
  intros Hk Hf. unfold abs at 1. simpl. rewrite (abs_set _ _ _ _ Hk), Hf.
  apply list_insert_id. by apply abs_lookup.
Qed.

Lemma abs_active call :
  match call_state call with Finished _ => False | _ => True end ->
  abs_call call = match call_chan call with Empty => Open | Sent m => Replied m | Dropped => Lost end.
Proof. unfold abs_call. by destruct (call_state call). Qed.

Lemma abs_not_returned call :
  match call_state call with Finished _ => False | _ => True end ->
  forall r, abs_call call <> Returned r.
Proof. intros Hc r. rewrite abs_active by done. by destruct (call_chan call). Qed.

(** Giving up ends the call with an error, whatever had become of it. *)
Lemma sim_give_up es c k call e :
  client_inv es c -> calls c !! k = Some call ->
  match call_state call with Finished _ => False | _ => True end ->
  rtc spec_step (abs c) (abs (finish k (Err e) (forget (call_id call) c))).
Proof.
  intros Hinv Hk Hst. apply rtc_once. unfold finish. rewrite (forget_set es) by done.
  unfold abs at 2. simpl. rewrite (abs_set _ _ _ _ Hk).
  apply (spec_fail _ k (abs_call call)); [by apply abs_lookup|by apply abs_not_returned].
Qed.

(** Losing the channel of an open call. *)
Lemma sim_forget es c k call :
  client_inv es c -> calls c !! k = Some call ->
  match call_state call with Finished _ => False | _ => True end ->
  rtc spec_step (abs c) (abs (update k (set_state Cancelling) (forget (call_id call) c))).
Proof.
  intros Hinv Hk Hst. rewrite (forget_set es) by done. unfold abs at 2. simpl.
  rewrite (abs_set _ _ _ _ Hk). pose proof (abs_lookup _ _ _ Hk) as Ha. rewrite abs_active in Ha by done.
  unfold abs_call at 1. simpl. unfold drop_chan. destruct (call_chan call) eqn:E; simpl; rewrite ?E.
  - apply rtc_once. by apply spec_lose.
  - rewrite list_insert_id by done. apply rtc_refl.
  - rewrite list_insert_id by done. apply rtc_refl.
Qed.

Lemma sim_deliver es c id m d :
  client_inv es c -> response_id m = Some id -> Inbound m d ∈ es ->
  rtc spec_step (abs c) (abs (deliver id m c)).
Proof.
  intros Hinv Hid Hin. unfold deliver. destruct (pending c !! id) as [k|] eqn:E; [|apply rtc_refl].
  apply (inv_pending _ _ Hinv) in E as (call & Hk & <- & He).
  destruct (inv_calls _ _ Hinv _ _ Hk) as [Hcid _ Hempty _]. specialize (Hempty He).
  unfold abs at 2. simpl. rewrite (abs_set _ _ _ _ Hk). apply rtc_once.
  rewrite abs_active by (simpl; by destruct (call_state call)). simpl.
  apply spec_reply; [|congruence]. rewrite (abs_lookup _ _ _ Hk), abs_active by (by destruct (call_state call)).
  by rewrite He.
Qed.

Lemma sim_lose_all (ss : list Slot) (f : Slot -> Slot) :
  (forall s, f s = s \/ (s = Open /\ f s = Lost)) -> rtc spec_step ss (f <$> ss).
Proof.
  intros Hf. enough (forall pre : list Slot, rtc spec_step (pre ++ ss)%list (pre ++ (f <$> ss))%list)
    as H by apply (H []).
  induction ss as [|s ss IH]; intros pre; simpl; [apply rtc_refl|].
  transitivity (pre ++ f s :: ss)%list.
  - destruct (Hf s) as [->|[-> ->]]; [apply rtc_refl|]. apply rtc_once.
    replace (pre ++ Lost :: ss)%list with (<[length pre := Lost]> (pre ++ Open :: ss)%list).
    + apply spec_lose. by apply list_lookup_middle.
    + by rewrite insert_app_r_alt, Nat.sub_diag by lia.
  - specialize (IH (pre ++ [f s])%list). rewrite <- !(assoc_L app) in IH. exact IH.
Qed.

Lemma abs_calls c c' : calls c' = calls c -> abs c' = abs c.
Proof. unfold abs. by intros ->. Qed.

Lemma sim_read es m d c :
  client_inv es c -> Inbound m d ∈ es -> rtc spec_step (abs c) (abs (read_one m d c)).
Proof.
  intros Hinv Hin. unfold read_one. destruct m as [r|r|e|n]; simpl.
  - destruct (_ && _)%bool; apply rtc_refl.
  - by apply (sim_deliver es c _ (Response r) d).
  - destruct (er_id e) as [id|] eqn:E; [|apply rtc_refl].
    by apply (sim_deliver es c _ (ErrorResponse e) d).
  - destruct (String.eqb _ _); apply rtc_refl.
Qed.

Lemma sim_receive k call c c' :
  calls c !! k = Some call -> waiting call = true -> receive k call c = Some c' ->
  rtc spec_step (abs c) (abs c').
Proof.
  intros Hk Hw Hr. pose proof (abs_lookup _ _ _ Hk) as Ha.
  assert (Hst : match call_state call with Finished _ => False | _ => True end)
    by (unfold waiting in Hw; by destruct (call_state call)).
  assert (Hfin : forall r, abs (finish k r c) = <[k := Returned r]> (abs c)).
  { intros r. unfold abs at 1. simpl. by rewrite (abs_set _ _ _ _ Hk). }
  rewrite abs_active in Ha by done. unfold receive in Hr.
  destruct (call_chan call) as [|m|]; [done|..]; injection Hr as <-; rewrite Hfin; apply rtc_once.
  - by apply spec_return.
  - by apply (spec_fail _ k Lost).
Qed.

Lemma sim_drain es c : client_inv es c -> rtc spec_step (abs c) (abs (drain c)).
Proof.
  intros Hinv. unfold abs at 2. rewrite (drain_calls es) by done.
  assert (Hcomp : abs_call <$> (drop_chan <$> calls c) =
                  (fun s => match s with Open => Lost | _ => s end) <$> abs c).
  { unfold abs. rewrite <- !list_fmap_compose. apply list_fmap_ext. intros k call Hk. simpl.
    destruct (inv_calls _ _ Hinv _ _ Hk) as [_ _ Hempty _].
    unfold abs_call. rewrite drop_chan_state. unfold drop_chan.
    destruct (call_state call), (call_chan call) eqn:E; simpl; rewrite ?E; try done;
      by specialize (Hempty eq_refl). }
  rewrite Hcomp. apply sim_lose_all. intros []; eauto.
Qed.

Lemma sim_step es e c c' :
  client_inv es c -> Z.of_nat (S (length (calls c))) < 2 ^ 64 -> step e c = Some c' ->
  rtc spec_step (abs c) (abs c').
Proof.
  intros Hinv%(inv_more _ e) Hb. destruct e as [m p t a|k|k err|k|k|k|k|m d| | |]; simpl.
  - intros [= <-]. unfold register. rewrite (fresh_forget _ c Hinv). unfold abs. simpl.
    rewrite fmap_app. apply rtc_once, spec_issue.
  - intros (call & Hk & Hst & [= <-])%call_step_some. unfold registered in Hst. unfold start_send.
    destruct (sender c).
    + rewrite (abs_calls (update k (set_state Sending) c) (write _ _)) by done. rewrite (abs_same k _ c call Hk).
      * apply rtc_refl.
      * unfold abs_call. simpl. by destruct (call_state call).
    + apply (sim_give_up _ c k call _ Hinv Hk). by destruct (call_state call).
  - intros (call & Hk & Hst & [= <-])%call_step_some. unfold sending in Hst. destruct err; simpl.
    + apply (sim_give_up _ c k call _ Hinv Hk). by destruct (call_state call).
    + rewrite (abs_same k _ c call Hk); [apply rtc_refl|].
      unfold abs_call. simpl. by destruct (call_state call).
  - intros (call & Hk & Hst & Hr)%call_step_some. by apply (sim_receive k call).
  - intros (call & Hk & Hst & Hr)%call_step_some. unfold waiting in Hst. unfold time_out in Hr.
    destruct (call_chan call); [|done|done]. injection Hr as <-.
    apply (sim_give_up _ c k call _ Hinv Hk). by destruct (call_state call).
  - intros (call & Hk & Hst & Hr)%call_step_some. unfold waiting in Hst. unfold abort_call in Hr.
    destruct (call_abortable call); [|done]. injection Hr as <-.
    apply (sim_forget _ c k call Hinv Hk). by destruct (call_state call).
  - intros (call & Hk & Hst & [= <-])%call_step_some. unfold cancelling in Hst. apply rtc_once.
    unfold end_abort. unfold abs at 2.
    assert (Hcs : calls (finish k (Err Cancelled) (if sender c then write (cancel_notification (call_id call)) c else c))
                  = alter (set_state (Finished (Err Cancelled))) k (calls c)) by (by destruct (sender c)).
    rewrite Hcs, (abs_set _ _ _ _ Hk).
    apply (spec_fail _ k (abs_call call)); [by apply abs_lookup|].
    apply abs_not_returned. by destruct (call_state call).
  - destruct (reading c); [|done]. intros [= <-]. apply (sim_read (es ++ [Inbound m d])%list m d); [done|].
    apply elem_of_app. right. by left.
  - destruct (reading c); [|done]. intros [= <-]. apply rtc_refl.
  - destruct (_ && _)%bool; [|done]. intros [= <-]. by apply (sim_drain _ c Hinv).
  - intros [= <-]. apply rtc_refl.
Qed.

(** Claim C15. The client implements the request-reply contract: over every
    interleaving of calls, sends, inbound messages, timeouts, aborts and the end
    of the connection (fewer than 2^64 events, so that the wrapping counter has
    not come round), what the calls went through is a run of the contract: an
    open call takes at most one reply, one with its own id; late, duplicate and
    unknown answers change nothing; and a call returns its reply or an error of
    the client's own, once. *)
Theorem client_refines_contract (es : list Event) (c : Client) :
  runs es c -> Z.of_nat (length es) < 2 ^ 64 -> rtc spec_step [] (abs c).
Proof.
  induction 1 as [|es e c c' Hr IH Hs]; intros Hb; [apply rtc_refl|].
  rewrite length_app in Hb. simpl in Hb.
  destruct (runs_inv es c Hr) as [Hinv Hl]; [lia|].
  transitivity (abs c); [apply IH; lia|]. apply (sim_step es e c c'); [done|lia|done].
Qed.

(** What a call returns as a value is what the server answered to
    that call: a response with the call's own id did arrive, and its result is
    the value.  Ids count up from 1, so an answer to an earlier call that gave
    up can never be taken for the answer to a later one. *)
Theorem value_is_own_answer (es : list Event) (c : Client) (k : nat) (call : Call) (v : Value) :
  runs es c -> Z.of_nat (length es) < 2 ^ 64 ->
  calls c !! k = Some call -> call_state call = Finished (Ok v) ->
  call_id call = Number (nth_id k) /\
  exists r d, Inbound (Response r) d ∈ es /\ rs_id r = call_id call /\ rs_result r = v.
Proof.
  intros Hr Hb Hk Hv. destruct (runs_inv es c Hr Hb) as [Hinv _].
  destruct (inv_calls _ _ Hinv _ _ Hk) as [Hid Hsent _ Hfin]. split; [done|].
  destruct (Hfin v Hv) as (r & Hch & Hres). destruct (Hsent _ Hch) as [Hrid [d Hd]].
  exists r, d. simpl in Hrid. split; [done|]. split; [|done]. rewrite Hid. by simplify_eq.
Qed.

(** The end of the connection strands no call: once the reader has
    drained the pending calls, every call that is waiting can return at once,
    with the answer that reached it or with [Closed], without its timeout. *)
Theorem drain_frees_calls (es : list Event) (c c' : Client) (k : nat) (call : Call) :
  runs es c -> Z.of_nat (length es) < 2 ^ 64 -> step Drain c = Some c' ->
  calls c' !! k = Some call -> call_state call = Waiting ->
  pending c' = ∅ /\
  exists c'' r, step (Receive k) c' = Some c'' /\ calls c'' !! k = Some (set_state (Finished r) call) /\
    (r = Err Closed \/ exists m, call_chan call = Sent m /\ r = outcome m).
Proof.
  intros Hr Hb Hs Hk Hw. destruct (runs_inv es c Hr Hb) as [Hinv _]. simpl in Hs.
  destruct (_ && _)%bool; [|done]. injection Hs as <-. split; [done|].
  simpl. unfold call_step, waiting. rewrite Hk, Hw.
  rewrite (drain_calls es c Hinv), list_lookup_fmap in Hk. apply fmap_Some in Hk as (c0 & Hk & ->).
  assert (Hk' : calls (drain c) !! k = Some (drop_chan c0))
    by (by rewrite (drain_calls es c Hinv), list_lookup_fmap, Hk).
  assert (Hfin : forall r, calls (finish k r (drain c)) !! k = Some (set_state (Finished r) (drop_chan c0))).
  { intros r. cbn [finish update calls with_calls]. by rewrite list_lookup_alter_eq, Hk'. }
  unfold receive. destruct (call_chan (drop_chan c0)) as [|m|] eqn:E.
  - by apply drop_chan_not_empty in E.
  - eexists _, (outcome m). split; [done|]. split; [apply Hfin|]. right. eauto.
  - eexists _, (Err Closed). split; [done|]. split; [apply Hfin|]. by left.
Qed.
End Contract.

(** ** Witnesses *)
Section Runs.
Context `{J : Json}.

Definition run (es : list Event) : option Client :=
  foldl (fun o e => o ≫= step e) (Some open) es.

Lemma run_runs es c : run es = Some c -> runs es c.
Proof.
  unfold run. revert c. induction es as [|e es IH] using rev_ind; intros c; simpl.
  - intros [= <-]. constructor.
  - rewrite foldl_app. simpl. intros (c0 & Hc0 & Hs)%bind_Some. by apply (runs_step es e c0), Hs; apply IH.
Qed.
End Runs.

(** Two calls whose answers arrive in the other order, and a duplicate. *)
Definition two_calls : list (@Event flat_json) :=
  let answer n v := @Inbound flat_json (@Response flat_json (@success flat_json (Number n) (FStr v))) true in
  [@Issue flat_json "tools/call" FNull 1000 false; StartSend 0; EndSend 0 None;
   @Issue flat_json "tools/call" FNull 1000 true; StartSend 1; EndSend 1 None;
   answer 2 "second"; answer 1 "first"; answer 2 "again"; Receive 1; Receive 0].

Definition after (es : list (@Event flat_json)) : @Client flat_json := default (@open flat_json) (run es).

Lemma run_after es : is_some (run es) = true -> runs es (after es).
Proof. intros [c Hc]%is_some_true. unfold after. rewrite Hc. by apply run_runs. Qed.

Lemma two_calls_run : runs two_calls (after two_calls).
Proof. apply run_after. vm_compute. reflexivity. Qed.

Lemma client_refines_contract_witness :
  @abs flat_json (after two_calls) =
    [@Returned flat_json (Ok (FStr "first")); @Returned flat_json (Ok (FStr "second"))] /\
  rtc (@spec_step flat_json) [] (@abs flat_json (after two_calls)).
Proof.
  split; [reflexivity|].
  apply (@client_refines_contract flat_json two_calls _ two_calls_run). vm_compute. reflexivity.
Defined.

Definition second_call : @Call flat_json :=
  @mkCall flat_json (Number 2) "tools/call" FNull 1000 true
    (@Sent flat_json (@Response flat_json (@success flat_json (Number 2) (FStr "second"))))
    (@Finished flat_json (Ok (FStr "second"))).

Lemma value_is_own_answer_witness :
  call_id second_call = Number (nth_id 1) /\
  exists r d, @Inbound flat_json (Response r) d ∈ two_calls /\ rs_id r = call_id second_call /\
              @rs_result flat_json r = FStr "second".
Proof.
  apply (@value_is_own_answer flat_json two_calls (after two_calls) 1 second_call (FStr "second") two_calls_run);
    [vm_compute; reflexivity|reflexivity|reflexivity].
Defined.

(** The connection ends while a call waits. *)
Definition cut_off : list (@Event flat_json) :=
  [@Issue flat_json "tools/call" FNull 1000 false; StartSend 0; EndSend 0 None; InboundEnd].

Lemma cut_off_run : runs cut_off (after cut_off).
Proof. apply run_after. vm_compute. reflexivity. Qed.

Definition cut_off_call : @Call flat_json :=
  @mkCall flat_json (Number 1) "tools/call" FNull 1000 false (@Dropped flat_json) (@Waiting flat_json).

Lemma drain_frees_calls_witness :
  exists c', step (@Drain flat_json) (after cut_off) = Some c' /\ pending c' = ∅ /\
    exists c'' r, step (@Receive flat_json 0) c' = Some c'' /\
      calls c'' !! 0%nat = Some (set_state (Finished r) cut_off_call) /\
      (r = Err Closed \/ exists m, call_chan cut_off_call = Sent m /\ r = outcome m).
Proof.
  exists (drain (after cut_off)). split; [reflexivity|].
  apply (@drain_frees_calls flat_json cut_off (after cut_off) (drain (after cut_off)) 0 cut_off_call cut_off_run);
    [vm_compute; reflexivity|reflexivity|reflexivity|reflexivity].
Defined.

(** A call issued after the drain has nobody to free it: if the transport
    still takes the request, only the timeout ends it. *)
Example late_call_waits :
  let c := after (cut_off ++ [@Drain flat_json; @Issue flat_json "tools/call" FNull 1000 false;
                              StartSend 1; EndSend 1 None])%list in
  is_some (step (@Receive flat_json 1) c) = false /\
  is_some (step (@Drain flat_json) c) = false /\
  is_some (step (@TimeOut flat_json 1) c) = true.
Proof. vm_compute. repeat split. Qed.

(** A server with two pages. *)
Definition two_pages (i : nat) (params : flat) : result flat McpError :=
  match i with
  | O => Ok (FObj [("tools", FArr [FObj [("name", FStr "read")]; FObj []]); ("nextCursor", FStr "p2")])
  | _ => Ok (FObj [("tools", FArr [FObj [("name", FStr "write")]]); ("nextCursor", FStr "")])
  end.

Definition two_pages_tools : list (@McpToolDef flat_json) :=
  [@mkToolDef flat_json "read" None (FObj []); @mkToolDef flat_json "write" None (FObj [])].

Lemma list_tools_pages_witness :
  exists pages last, @served flat_json two_pages 0 None pages last /\ (length pages <= 100)%nat /\
    two_pages_tools = concat ((@parse_tool_defs flat_json) <$> pages) /\
    (last = None \/ length pages = 100%nat).
Proof. apply (@list_tools_pages flat_json two_pages two_pages_tools). reflexivity. Defined.
