(* ===== verification/Catalog.v ===== *)
(** * Catalog: remote tools in the live catalog ([mcp/manager.rs], [mcp/bridge.rs],
      [mcp/mod.rs], [tools/registry.rs])

    Each MCP server fetches a list of tool definitions; the manager turns them
    into tools with composite names and publishes them, a bucket per server,
    into the registry, whose snapshot is what the executor searches by name.
    The model covers naming, publication at boot and at a refresh, the bridge
    and the forwarding of a call; the state machine that keeps a server
    connected is not modelled, a slot's state is whatever it left. *)

From stdpp Require Import base gmap strings list sorting.
From Stdlib Require Import ZArith Lia.
From S2P Require Import Prelude Text Json Paths Rpc Mcp ToolExec.

#[local] Open Scope string_scope.

(** ** Names *)

Definition is_alphanumeric (b : byte) : bool :=
  let n := Ascii.nat_of_ascii b in
  (Nat.leb 48 n && Nat.leb n 57) || (Nat.leb 65 n && Nat.leb n 90) || (Nat.leb 97 n && Nat.leb n 122).

Definition underscore : byte := Ascii.ascii_of_nat 95.
Definition hyphen : byte := Ascii.ascii_of_nat 45.

(** One character: its first byte decides, the others go with it. *)
Definition sanitize_byte (b : byte) : byte :=
  if (is_alphanumeric b || Ascii.eqb b underscore || Ascii.eqb b hyphen)%bool then b else underscore.

Definition sanitize_segment (raw fallback : string) : string :=
  let s := string_of (sanitize_byte <$> List.filter (fun b => negb (is_continuation b)) (bytes_of raw)) in
  if is_empty s then fallback else s.

Definition MCP_TOOL_PREFIX : string := "mcp__".

Definition composite_tool_name (server tool : string) : string :=
  MCP_TOOL_PREFIX +:+ sanitize_segment server "server" +:+ "__" +:+ sanitize_segment tool "tool".

Section Catalog.
Context `{J : Json} `{FS : FileSystem}.

(** ** The manager's slots *)

Inductive ServerRuntimeState :=
| Connecting
| Ready
| Disconnected
| Failed
| Skipped.

#[export] Instance state_eq_dec : EqDecision ServerRuntimeState.
Proof. solve_decision. Defined.

Record ServerSlot := mkSlot {
  slot_state : ServerRuntimeState;
  tool_defs : list McpToolDef;
  slot_reason : option string
}.

(** [HashMap<String, Arc<ServerSlot>>]. *)
Abbreviation Slots := (gmap string ServerSlot).

Inductive McpCallError :=
| CallDisconnected (state : ServerRuntimeState) (reason : option string)
| CallRemote (code : Z) (message : string)
| CallLost
| CallTimeout (ms : Z)
| CallCancelled.

(** What a call of a tool on the client of a server returns. *)
Context (client_call : string -> string -> Value -> bool -> result CallToolOutcome McpError).

(** [call_tool_cancellable]. *)
Definition call_tool (slots : Slots) (server tool : string) (arguments : Value) (abort : bool) :
    result CallToolOutcome McpCallError :=
  match slots !! server with
  | None => Err (CallDisconnected Skipped (Some ("unknown MCP server '" +:+ server +:+ "'")))
  | Some slot =>
      if bool_decide (slot_state slot = Ready)
      then match client_call server tool arguments abort with
           | Ok outcome => Ok outcome
           | Err (Remote code message) => Err (CallRemote code message)
           | Err (Mcp.Timeout ms) => Err (CallTimeout ms)
           | Err Cancelled => Err CallCancelled
           | Err _ => Err CallLost
           end
      else Err (CallDisconnected (slot_state slot) (slot_reason slot))
  end.

(** ** The bridge *)

(** The state as its JSON text. *)
Definition quoted (s : string) : string :=
  let q := String.String (Ascii.ascii_of_nat 34) "" in q +:+ s +:+ q.

Definition state_text (s : ServerRuntimeState) : string :=
  quoted match s with
         | Connecting => "connecting" | Ready => "ready" | Disconnected => "disconnected"
         | Failed => "failed" | Skipped => "skipped"
         end.

Definition dash : string := string_of (Ascii.ascii_of_nat <$> [226; 128; 148]%nat).

Definition not_connected_text (server : string) (s : ServerRuntimeState) : string :=
  "MCP server '" +:+ server +:+ "' is not connected (state: " +:+ state_text s +:+
  "). It may reconnect automatically " +:+ dash +:+ " retry shortly.".

Definition lost_text (server : string) : string :=
  "Connection to MCP server '" +:+ server +:+
  "' was lost during the call; it will reconnect in the background.".

(** [McpToolBridge::call]. *)
Definition bridge_call (slots : Slots) (server : string) (def : McpToolDef) (input : Value) (ctx : ToolContext) :
    result ToolResult ToolError :=
  match call_tool slots server (def_name def) input (abort_signal ctx) with
  | Ok outcome => Ok (mkToolResult (Mcp.data outcome) (Mcp.is_error outcome))
  | Err (CallRemote code message) =>
      Ok (mkToolResult (json_object [("error", json_string message); ("code", json_int code)]) true)
  | Err (CallDisconnected state reason) =>
      Ok (mkToolResult (json_object [("error", json_string (not_connected_text server state));
                                     ("detail", match reason with Some r => json_string r | None => json_null end)])
                       true)
  | Err CallLost => Ok (mkToolResult (json_object [("error", json_string (lost_text server))]) true)
  | Err (CallTimeout ms) => Err (ToolExec.Timeout ms)
  | Err CallCancelled => Err Aborted
  end.

(** The bridge as a tool: the defaults of the trait, and an abort of its own. *)
Definition bridge_tool (slots : Slots) (server : string) (def : McpToolDef) : Tool :=
  let n := composite_tool_name server (def_name def) in
  mkTool n [] (fun _ => false) (fun _ => false) (Z.to_nat 200000) true
    (fun _ _ => Valid)
    (fun _ _ => CheckAsk ("Tool '" +:+ n +:+ "' requires permission") json_null)
    (fun input ctx _ _ => bridge_call slots server def input ctx).

(** ** The registry *)

Record ToolRegistry := mkRegistry {
  head : list Tool;
  tail : option (list Tool);
  buckets : gmap string (list Tool)
}.

Definition new_registry (h : list Tool) : ToolRegistry := mkRegistry h None ∅.

(** [None] is the panic of a second installation. *)
Definition install_tail (t : list Tool) (r : ToolRegistry) : option ToolRegistry :=
  match tail r with
  | None => Some (mkRegistry (head r) (Some t) (buckets r))
  | Some _ => None
  end.

Definition replace_server_tools (server : string) (tools : list Tool) (r : ToolRegistry) : ToolRegistry :=
  mkRegistry (head r) (tail r) (<[server := tools]> (buckets r)).

(** A [BTreeMap] in key order; a [HashMap] sorted by its keys. *)
Definition key_le {V} (a b : string * V) : bool := str_leb a.1 b.1.
Definition sorted_entries {V} (m : gmap string V) : list (string * V) := sort_by key_le (map_to_list m).

Definition bucket_tools (r : ToolRegistry) : list Tool := concat (sorted_entries (buckets r)).*2.

Definition snapshot (r : ToolRegistry) : list Tool :=
  head r ++ bucket_tools r ++ default [] (tail r).

Definition snapshot_without (names : list string) (r : ToolRegistry) : list Tool :=
  List.filter (fun t => negb (existsb (String.eqb (name t)) names)) (snapshot r).

(** ** Publication *)

Definition lower_name (t : Tool) : string := to_ascii_lowercase (name t).

(** The loop over the definitions of one server: names already [seen] are
    skipped.  The names are ASCII, so lowering them is. *)
Fixpoint build_bridges (slots : Slots) (server : string) (defs : list McpToolDef) (seen : gset string) :
    list Tool * gset string :=
  match defs with
  | [] => ([], seen)
  | d :: rest =>
      let t := bridge_tool slots server d in
      if bool_decide (lower_name t ∈ seen) then build_bridges slots server rest seen
      else let '(ts, seen) := build_bridges slots server rest ({[lower_name t]} ∪ seen) in
           (t :: ts, seen)
  end.

Definition unpublished (slot : ServerSlot) : bool :=
  (negb (bool_decide (slot_state slot = Ready)) && Nat.eqb (length (tool_defs slot)) 0)%bool.

(** One server of [boot_and_register]. *)
Definition boot_slot (slots : Slots) (st : ToolRegistry * gset string * nat) (e : string * ServerSlot) :
    ToolRegistry * gset string * nat :=
  let '(reg, seen, published) := st in
  if unpublished (e.2) then st
  else let '(ts, seen) := build_bridges slots (e.1) (tool_defs (e.2)) seen in
       (replace_server_tools (e.1) ts reg, seen, (published + length ts)%nat).

Definition boot_and_register (slots : Slots) (reg : ToolRegistry) : ToolRegistry * nat :=
  let '(reg, _, published) := foldl (boot_slot slots) (reg, ∅, 0%nat) (sorted_entries slots) in
  (reg, published).

(** [republish_server]: the names of this server only. *)
Definition republish_server (slots : Slots) (server : string) (slot : ServerSlot) (reg : ToolRegistry) : ToolRegistry :=
  replace_server_tools server (build_bridges slots server (tool_defs slot) ∅).1 reg.

(** ** What the boot publishes *)

Definition bucket_names (r : ToolRegistry) : list string := lower_name <$> bucket_tools r.

Lemma build_bridges_spec slots server defs seen ts seen' :
  build_bridges slots server defs seen = (ts, seen') ->
  NoDup (lower_name <$> ts) /\
  (forall n, n ∈ lower_name <$> ts -> n ∉ seen) /\
  (forall n, n ∈ seen' <-> n ∈ seen \/ n ∈ lower_name <$> ts) /\
  (forall t, t ∈ ts -> exists d, d ∈ defs /\ t = bridge_tool slots server d) /\
  (forall d, d ∈ defs -> lower_name (bridge_tool slots server d) ∈ seen').
Proof.
  revert seen ts seen'. induction defs as [|d defs IH]; intros seen ts seen'; simpl.
  { intros [= <- <-]. simpl. split_and!; [constructor|set_solver..]. }
  case_bool_decide as Hseen.
  - intros (H1 & H2 & H3 & H4 & H5)%IH. split_and!; [done|done|done|..].
    + intros t (d' & Hd & ->)%H4. exists d'. split; [by right|done].
    + intros d' [->|Hd]%elem_of_cons; [apply H3; by left|by apply H5].
  - destruct (build_bridges slots server defs _) as [ts0 seen0] eqn:E. intros [= <- <-].
    apply IH in E as (H1 & H2 & H3 & H4 & H5). rewrite fmap_cons. split_and!.
    + constructor; [|done]. intros Hin. apply (H2 _ Hin). set_solver.
    + intros n [->|Hn]%elem_of_cons; [done|]. specialize (H2 n Hn). set_solver.
    + intros n. rewrite H3, elem_of_cons. set_solver.
    + intros t [->|Ht]%elem_of_cons; [exists d; split; [by left|done]|].
      apply H4 in Ht as (d' & Hd & ->). exists d'. split; [by right|done].
    + intros d' [->|Hd]%elem_of_cons; [apply H3; set_solver|by apply H5].
Qed.

Lemma sorted_entries_perm {V} (m : gmap string V) : sorted_entries m ≡ₚ map_to_list m.
Proof. apply sort_by_perm. Qed.

Lemma bucket_tools_insert reg server ts :
  buckets reg !! server = None ->
  bucket_tools (replace_server_tools server ts reg) ≡ₚ ts ++ bucket_tools reg.
Proof.
  intros Hn. unfold bucket_tools, replace_server_tools. simpl.
  rewrite !sorted_entries_perm, map_to_list_insert by done. done.
Qed.

Lemma bucket_tools_empty h tl : bucket_tools (mkRegistry h tl ∅) = [].
Proof. unfold bucket_tools, sorted_entries. simpl. by rewrite map_to_list_empty. Qed.

(** The state of the boot loop after some of the servers. *)
Record boot_inv (slots : Slots) (es : list (string * ServerSlot)) (st : ToolRegistry * gset string * nat) : Prop := {
  boot_distinct : NoDup (bucket_names st.1.1);
  boot_seen n : n ∈ st.1.2 <-> n ∈ bucket_names st.1.1;
  boot_count : st.2 = length (bucket_tools st.1.1);
  boot_keys server : is_Some (buckets st.1.1 !! server) -> server ∈ es.*1;
  boot_bridges t : t ∈ bucket_tools st.1.1 ->
    exists server slot d, (server, slot) ∈ es /\ d ∈ tool_defs slot /\ t = bridge_tool slots server d;
  boot_covered server slot d : (server, slot) ∈ es -> d ∈ tool_defs slot ->
    lower_name (bridge_tool slots server d) ∈ bucket_names st.1.1
}.

Lemma boot_inv_start slots h tl : boot_inv slots [] (mkRegistry h tl ∅, ∅, 0%nat).
Proof.
  split; unfold bucket_names; cbn [fst snd]; rewrite ?bucket_tools_empty; simpl.
  - constructor.
  - set_solver.
  - done.
  - intros s [? Hs]. by rewrite lookup_empty in Hs.
  - intros t Ht. by apply not_elem_of_nil in Ht.
  - intros s sl d Hin. by apply not_elem_of_nil in Hin.
Qed.

Lemma unpublished_defs slot : unpublished slot = true -> tool_defs slot = [].
Proof.
  unfold unpublished. intros [_ Hl%Nat.eqb_eq]%andb_true_iff. by destruct (tool_defs slot).
Qed.

Lemma boot_inv_step slots es st e :
  boot_inv slots es st -> e.1 ∉ es.*1 -> boot_inv slots (es ++ [e]) (boot_slot slots st e).
Proof.
  destruct st as [[reg seen] n], e as [server slot]. simpl. intros [Hd Hs Hn Hk Hb Hc] Hfresh. simpl in *.
  destruct (unpublished slot) eqn:Hu.
  { apply unpublished_defs in Hu. split; simpl; try done.
    - intros s Hin%Hk. rewrite fmap_app. apply elem_of_app. by left.
    - intros t (s & sl & d & Hin & ? & ?)%Hb. exists s, sl, d. split; [apply elem_of_app; by left|done].
    - intros s sl d [Hin|Hin]%elem_of_app Hdef; [by apply (Hc s sl)|].
      apply list_elem_of_singleton in Hin. simplify_eq. rewrite Hu in Hdef.
      by apply not_elem_of_nil in Hdef. }
  destruct (build_bridges slots server (tool_defs slot) seen) as [ts seen'] eqn:E.
  apply build_bridges_spec in E as (H1 & H2 & H3 & H4 & H5).
  assert (Hnone : buckets reg !! server = None).
  { destruct (buckets reg !! server) eqn:En; [|done]. exfalso. apply Hfresh, Hk. by rewrite En. }
  pose proof (bucket_tools_insert reg server ts Hnone) as Hp.
  assert (Hnames : bucket_names (replace_server_tools server ts reg) ≡ₚ (lower_name <$> ts) ++ bucket_names reg)
    by (unfold bucket_names; by rewrite Hp, fmap_app).
  split; simpl.
  - rewrite Hnames. apply NoDup_app. split; [done|]. split; [|done]. intros x Hx. rewrite <- Hs. by apply H2.
  - intros x. rewrite Hnames, elem_of_app, H3, Hs. tauto.
  - rewrite Hp, length_app, Hn. lia.
  - intros s. rewrite lookup_insert_is_Some, fmap_app, elem_of_app. intros [->|[_ Hin]].
    + right. by left.
    + left. by apply Hk.
  - intros t. rewrite Hp, elem_of_app. intros [(d & Hdef & ->)%H4|(s & sl & d & Hin & ? & ?)%Hb].
    + exists server, slot, d. split; [apply elem_of_app; right; by left|done].
    + exists s, sl, d. split; [apply elem_of_app; by left|done].
  - intros s sl d Hin Hdef. rewrite Hnames, elem_of_app.
    apply elem_of_app in Hin as [Hin|Hin%list_elem_of_singleton].
    + right. by apply (Hc s sl).
    + simplify_eq. apply H5, H3 in Hdef as [Hdef%Hs|Hdef]; [by right|by left].
Qed.

Lemma boot_inv_all slots es h tl :
  NoDup es.*1 ->
  boot_inv slots es (foldl (boot_slot slots) (mkRegistry h tl ∅, ∅, 0%nat) es).
Proof.
  induction es as [|e es IH] using rev_ind; intros Hnd; [apply boot_inv_start|].
  rewrite fmap_app in Hnd. apply NoDup_app in Hnd as (Hnd & Hfresh & _).
  rewrite foldl_app. simpl. apply boot_inv_step; [by apply IH|].
  intros Hin. apply (Hfresh _ Hin). by left.
Qed.

(** Searching by name among tools whose names differ. *)
Lemma find_tool_unique ts t :
  NoDup (lower_name <$> ts) -> (forall x, x ∈ ts -> aliases x = []) -> t ∈ ts ->
  find_tool ts (name t) = Some t.
Proof.
  unfold find_tool. induction ts as [|x ts IH]; [by intros _ _ ?%not_elem_of_nil|].
  rewrite fmap_cons, NoDup_cons. intros [Hx Hnd] Hal Hin. simpl. rewrite (Hal x) by (by left). simpl.
  destruct (String.eqb_spec (to_ascii_lowercase (name x)) (to_ascii_lowercase (name t))) as [He|Hne]; simpl.
  - apply elem_of_cons in Hin as [->|Hin]; [done|]. exfalso. apply Hx.
    apply list_elem_of_fmap. by exists t.
  - apply elem_of_cons in Hin as [->|Hin]; [done|]. apply IH; [done| |done].
    intros y Hy. apply Hal. by right.
Qed.

Lemma find_tool_app ts1 ts2 n :
  find_tool (ts1 ++ ts2) n = match find_tool ts1 n with Some t => Some t | None => find_tool ts2 n end.
Proof. unfold find_tool. induction ts1 as [|x ts1 IH]; simpl; [done|]. by destruct (_ || _)%bool. Qed.

Lemma find_tool_lower ts n n' :
  to_ascii_lowercase n = to_ascii_lowercase n' -> find_tool ts n = find_tool ts n'.
Proof. unfold find_tool. by intros ->. Qed.

(** Publication at boot: whatever the servers called their tools, the
    published names differ, also when compared without case as the executor
    does; every tool a server listed is reachable under its composite name
    (when several share a name, the one of the first server in name order);
    and the executor, searching the whole catalog for the name of a published
    tool that no built-in tool answers to, finds that very tool. *)
Theorem boot_catalog_reachable (slots : Slots) (h : list Tool) (tl : option (list Tool)) :
  let '(reg, published) := boot_and_register slots (mkRegistry h tl ∅) in
  NoDup (bucket_names reg) /\ published = length (bucket_tools reg) /\
  (forall server slot d, slots !! server = Some slot -> d ∈ tool_defs slot ->
     exists server' slot' d', slots !! server' = Some slot' /\ d' ∈ tool_defs slot' /\
       lower_name (bridge_tool slots server' d') = lower_name (bridge_tool slots server d) /\
       find_tool (bucket_tools reg) (composite_tool_name server (def_name d))
       = Some (bridge_tool slots server' d')) /\
  (forall t, t ∈ bucket_tools reg -> find_tool h (name t) = None ->
     find_tool (snapshot reg) (name t) = Some t).
Proof.
  unfold boot_and_register.
  assert (Hnd : NoDup (sorted_entries slots).*1)
    by (rewrite sorted_entries_perm; apply NoDup_fst_map_to_list).
  pose proof (boot_inv_all slots (sorted_entries slots) h tl Hnd) as Hinv.
  assert (Hhead : head (foldl (boot_slot slots) (mkRegistry h tl ∅, ∅, 0%nat) (sorted_entries slots)).1.1 = h).
  { clear Hinv Hnd. induction (sorted_entries slots) as [|e es IH] using rev_ind; [done|].
    rewrite foldl_app. simpl. destruct (foldl _ _ es) as [[reg seen] n]. simpl in *.
    destruct (unpublished e.2); [done|]. by destruct (build_bridges _ _ _ _). }
  destruct (foldl _ _ _) as [[reg seen] n]. destruct Hinv as [Hd Hs Hn Hk Hb Hc]. simpl in *.
  assert (Hal : forall x, x ∈ bucket_tools reg -> aliases x = []) by (by intros x (? & ? & ? & _ & _ & ->)%Hb).
  assert (Hfind : forall t, t ∈ bucket_tools reg -> find_tool (bucket_tools reg) (name t) = Some t)
    by (intros t Ht; by apply find_tool_unique).
  split; [done|]. split; [done|]. split.
  - intros server slot d Hslot Hdef.
    assert (Hin : lower_name (bridge_tool slots server d) ∈ bucket_names reg).
    { apply (Hc server slot); [|done]. rewrite sorted_entries_perm. by apply elem_of_map_to_list. }
    apply list_elem_of_fmap in Hin as (t & Hlow & Ht). pose proof (Hfind t Ht) as Hf.
    apply Hb in Ht as (server' & slot' & d' & Hin' & Hdef' & ->).
    rewrite sorted_entries_perm, elem_of_map_to_list in Hin'.
    exists server', slot', d'. split; [done|]. split; [done|]. split; [done|].
    rewrite <- Hf. by apply find_tool_lower.
  - intros t Ht Hh. unfold snapshot. by rewrite find_tool_app, Hhead, Hh, find_tool_app, Hfind.
Qed.
End Catalog.

(** ** A refresh *)

Definition no_client : string -> string -> flat -> bool -> result (@CallToolOutcome flat_json) McpError :=
  fun _ _ _ _ => Err Closed.

Definition def_named (n : string) : @McpToolDef flat_json := @mkToolDef flat_json n None (FObj []).

Definition colliding_slots : gmap string (@ServerSlot flat_json) :=
  {[ "a" := @mkSlot flat_json Ready [def_named "b__c"] None;
     "a__b" := @mkSlot flat_json Ready [def_named "c"] None ]}.

Definition catalog_names (r : @ToolRegistry flat_json) : list string :=
  (fun t => @name flat_json t) <$> @snapshot flat_json r.

Definition booted : @ToolRegistry flat_json :=
  (@boot_and_register flat_json no_client colliding_slots (@new_registry flat_json [])).1.

(** At boot the second tool of that name is skipped; the next refresh of its
    server looks at its own names only and publishes it: two tools answer to
    one name, and the executor always takes the other server's. *)
Example refresh_collides :
  catalog_names booted = ["mcp__a__b__c"] /\
  match colliding_slots !! "a__b" with
  | Some slot =>
      catalog_names (@republish_server flat_json no_client colliding_slots "a__b" slot booted)
      = ["mcp__a__b__c"; "mcp__a__b__c"]
  | None => False
  end.
Proof. vm_compute. split; reflexivity. Qed.

Example sanitized_names :
  sanitize_segment "do.thing/2" "x" = "do_thing_2" /\ sanitize_segment "" "server" = "server" /\
  sanitize_segment (string_of (utf8 [229; 183; 165; 229; 133; 183]%nat)) "x" = "__".
Proof. vm_compute. repeat split. Qed.
