(* ===== verification/FileCache.v ===== *)
(** * FileCache: the cache of files already read ([infra/file_cache.rs])

    A bounded map from canonical paths to metadata, the least recently
    accessed entry leaving when a new one comes in full.  The disk is a value,
    so that it can differ from one operation to the next; the clock and the
    order in which a hash map is scanned are arguments.  The contract is a
    recency list. *)

From stdpp Require Import base gmap strings list sorting countable.
From Stdlib Require Import ZArith Lia.
From S2P Require Import Prelude Text Paths.

#[local] Open Scope Z_scope.

#[export] Instance Component_countable : Countable Component.
Proof.
  apply (inj_countable'
    (fun c => match c with RootDir => inl 0%nat | CurDir => inl 1%nat | ParentDir => inl 2%nat
                         | Normal s => inr s end)
    (fun x => match x with inl 0%nat => RootDir | inl 1%nat => CurDir | inl _ => ParentDir
                         | inr s => Normal s end)).
  by intros [].
Defined.

(** What the operating system answers at one moment. *)
Record Disk := mkDisk {
  disk_fs : FileSystem;
  contents : Path -> option string;     (* [read_to_string(p).ok()] *)
  modified : Path -> option Z;          (* [metadata(p).modified()] *)
  file_len : Path -> option Z           (* [metadata(p).len()] *)
}.

Definition canonical (d : Disk) (p : Path) : option Path := @canonicalize (disk_fs d) p.

(** ** FNV-1a, 64 bits *)

Definition fnv_offset : Z := 0xcbf29ce484222325.
Definition fnv_prime : Z := 0x100000001b3.

Definition fnv1a_hash (s : string) : Z :=
  foldl (fun h b => mul64 (Z.lxor h (Z.of_nat (Ascii.nat_of_ascii b))) fnv_prime) fnv_offset (bytes_of s).

(** The published test vectors of FNV-1a. *)
Example fnv_empty : fnv1a_hash "" = 0xcbf29ce484222325. Proof. reflexivity. Qed.
Example fnv_a : fnv1a_hash "a" = 0xaf63dc4c8601ec8c. Proof. reflexivity. Qed.
Example fnv_foobar : fnv1a_hash "foobar" = 0x85944171f73967e8. Proof. vm_compute. reflexivity. Qed.

(** ** The cache *)

Record FileCacheEntry := mkEntry {
  entry_path : Path;
  content_hash : Z;
  mtime : Z;
  last_accessed : Z;
  line_count : nat
}.

Inductive CacheStatus := Hit | Changed | Miss.

Record FileCache := mkCache {
  entries : gmap Path FileCacheEntry;
  max_entries : nat
}.

Definition new (max_entries : nat) : FileCache := mkCache ∅ max_entries.
Definition default_capacity : FileCache := new 100.

(** The first of the entries with the least key: [Iterator::min_by_key]. *)
Fixpoint min_by_access (l : list (Path * FileCacheEntry)) : option (Path * FileCacheEntry) :=
  match l with
  | [] => None
  | e :: rest =>
      match min_by_access rest with
      | Some m => Some (if Z.leb (last_accessed e.2) (last_accessed m.2) then e else m)
      | None => Some e
      end
  end.

Section Cache.
(** The order in which a hash map of paths is scanned. *)
Context (iter : gmap Path FileCacheEntry -> list (Path * FileCacheEntry)).

Definition lru_key (c : FileCache) : option Path := fst <$> min_by_access (iter (entries c)).

Definition check (d : Disk) (p : Path) (c : FileCache) : CacheStatus :=
  match canonical d p with
  | None => Miss
  | Some q =>
      match entries c !! q with
      | Some e =>
          match contents d q with
          | Some text => if Z.eqb (fnv1a_hash text) (content_hash e) then Hit else Changed
          | None => Changed
          end
      | None => Miss
      end
  end.

(** [canonicalize(path)], or the path itself. *)
Definition key_of (d : Disk) (p : Path) : Path := default p (canonical d p).

Definition evict (q : Path) (c : FileCache) : gmap Path FileCacheEntry :=
  if (Nat.leb (max_entries c) (size (entries c)) && negb (is_some (entries c !! q)))%bool
  then match lru_key c with Some k => delete k (entries c) | None => entries c end
  else entries c.

Definition record (d : Disk) (now : Z) (p : Path) (content : string) (c : FileCache) : FileCache :=
  let q := key_of d p in
  let e := mkEntry q (fnv1a_hash content) (default now (modified d q)) now
                   (length (lines (bytes_of content))) in
  mkCache (<[q := e]> (evict q c)) (max_entries c).

(** The line that stands for a file already read. *)
Definition stub_text (e : FileCacheEntry) : string :=
  "[File cache hit: " +:+ join_slash (entry_path e) +:+ " " +:+
  string_of (Ascii.ascii_of_nat <$> [226; 128; 148]%nat) +:+ " content unchanged (" +:+
  show_nat (line_count e) +:+ " lines). Previously read content is still valid.]".

Definition build_stub (d : Disk) (p : Path) (c : FileCache) : option string :=
  stub_text <$> entries c !! key_of d p.

Definition touch_entry (now : Z) (e : FileCacheEntry) : FileCacheEntry :=
  mkEntry (entry_path e) (content_hash e) (mtime e) now (line_count e).

Definition touch (d : Disk) (now : Z) (p : Path) (c : FileCache) : FileCache :=
  mkCache (alter (touch_entry now) (key_of d p) (entries c)) (max_entries c).

Definition clear (c : FileCache) : FileCache := mkCache ∅ (max_entries c).

Definition len (c : FileCache) : nat := size (entries c).
Definition is_empty (c : FileCache) : bool := Nat.eqb (len c) 0.

(** ** The operations of a history *)

Inductive Op :=
| Recorded (d : Disk) (p : Path) (content : string)
| Touched (d : Disk) (p : Path)
| Cleared.

Definition apply_op (now : Z) (o : Op) (c : FileCache) : FileCache :=
  match o with
  | Recorded d p content => record d now p content c
  | Touched d p => touch d now p c
  | Cleared => clear c
  end.

Definition history (ops : list (Z * Op)) (c : FileCache) : FileCache :=
  foldl (fun c '(now, o) => apply_op now o c) c ops.

(** ** The contract: a recency list

    Most recent first: a path with the hash and the line count of its last
    recording.  It holds the capacity, or one entry if the capacity is 0. *)
Abbreviation Recency := (list (Path * (Z * nat))).

Definition others {A} (q : Path) (l : list (Path * A)) : list (Path * A) := List.filter (fun x => negb (bool_decide (x.1 = q))) l.

Definition found (q : Path) (l : Recency) : option (Z * nat) :=
  snd <$> List.find (fun x => bool_decide (x.1 = q)) l.

Definition spec_op (capacity : nat) (o : Op) (l : Recency) : Recency :=
  match o with
  | Recorded d p content =>
      let q := key_of d p in
      take (Nat.max 1 capacity) ((q, (fnv1a_hash content, length (lines (bytes_of content)))) :: others q l)
  | Touched d p =>
      let q := key_of d p in
      match found q l with Some x => (q, x) :: others q l | None => l end
  | Cleared => []
  end.

Definition spec_history (capacity : nat) (ops : list (Z * Op)) (l : Recency) : Recency :=
  foldl (fun l '(_, o) => spec_op capacity o l) l ops.

(** What [check] has to answer. *)
Definition spec_check (d : Disk) (p : Path) (l : Recency) : CacheStatus :=
  match canonical d p ≫= (fun q => (fun x => (q, x)) <$> found q l) with
  | None => Miss
  | Some (q, (h, _)) =>
      match contents d q with
      | Some text => if Z.eqb (fnv1a_hash text) h then Hit else Changed
      | None => Changed
      end
  end.
End Cache.

(** ** The cache is the recency list *)
Section Refinement.
Context (iter : gmap Path FileCacheEntry -> list (Path * FileCacheEntry)).
Context (iter_perm : forall m, iter m ≡ₚ map_to_list m).

Definition newer (a b : Path * FileCacheEntry) : Prop := last_accessed b.2 < last_accessed a.2.
Definition view (x : Path * FileCacheEntry) : Path * (Z * nat) := (x.1, (content_hash x.2, line_count x.2)).

(** The entries in the order of their last access, all before [now]. *)
Record rep (now : Z) (c : FileCache) (full : list (Path * FileCacheEntry)) : Prop := {
  rep_perm : map_to_list (entries c) ≡ₚ full;
  rep_sorted : StronglySorted newer full;
  rep_before x : x ∈ full -> last_accessed x.2 < now;
  rep_bound : (length full <= Nat.max 1 (max_entries c))%nat
}.

Lemma others_view q full : others q (view <$> full) = view <$> others q full.
Proof.
  unfold others. induction full as [|x full IH]; [done|]. rewrite fmap_cons. cbn [List.filter].
  change (view x).1 with x.1. case_bool_decide; cbn [negb]; [done|]. by rewrite IH, fmap_cons.
Qed.

Lemma elem_of_others {A} q (l : list (Path * A)) x : x ∈ others q l <-> x ∈ l /\ x.1 <> q.
Proof.
  unfold others. rewrite list_elem_of_In, filter_In, <- list_elem_of_In.
  by rewrite negb_true_iff, bool_decide_eq_false.
Qed.

Lemma others_absent {A} q (l : list (Path * A)) : q ∉ l.*1 -> others q l = l.
Proof.
  induction l as [|x l IH]; [done|]. rewrite fmap_cons, not_elem_of_cons. intros [Hq Hl].
  unfold others in *. simpl. rewrite bool_decide_false by congruence. simpl. by rewrite IH.
Qed.

Lemma others_length {A} q (l : list (Path * A)) : (length (others q l) <= length l)%nat.
Proof. apply retain_length_le. Qed.

Lemma others_sorted q full : StronglySorted newer full -> StronglySorted newer (others q full).
Proof.
  induction 1 as [|x full Hs IH Hx]; [constructor|]. unfold others in *. simpl.
  case_bool_decide; simpl; [done|]. constructor; [done|].
  rewrite list.Forall_forall in *. intros y Hy. apply (elem_of_others q full y) in Hy as [Hy _].
  by apply Hx.
Qed.

Lemma delete_perm (q : Path) (m : gmap Path FileCacheEntry) (full : list (Path * FileCacheEntry)) :
  map_to_list m ≡ₚ full -> map_to_list (delete q m) ≡ₚ others q full.
Proof.
  intros Hp. assert (Hd : q ∉ (map_to_list (delete q m)).*1).
  { intros ([k e] & Hk & Hin)%list_elem_of_fmap. simpl in Hk. subst k.
    apply elem_of_map_to_list in Hin. by rewrite lookup_delete_eq in Hin. }
  rewrite <- (others_absent q (map_to_list (delete q m))) by done.
  unfold others. rewrite <- Hp. destruct (m !! q) as [e|] eqn:E.
  - rewrite <- (map_to_list_delete m q e E). simpl. by rewrite bool_decide_true.
  - by rewrite delete_id.
Qed.

Lemma insert_perm (q : Path) (e : FileCacheEntry) (m : gmap Path FileCacheEntry) (full : list (Path * FileCacheEntry)) :
  map_to_list m ≡ₚ full -> map_to_list (<[q := e]> m) ≡ₚ (q, e) :: others q full.
Proof.
  intros Hp. rewrite <- insert_delete_eq, map_to_list_insert by apply lookup_delete_eq.
  by rewrite (delete_perm q m full).
Qed.

Lemma keys_distinct (m : gmap Path FileCacheEntry) (full : list (Path * FileCacheEntry)) : map_to_list m ≡ₚ full -> NoDup full.*1.
Proof. intros <-. apply NoDup_fst_map_to_list. Qed.

Lemma rep_lookup now c full q :
  rep now c full -> entries c !! q = snd <$> List.find (fun x => bool_decide (x.1 = q)) full.
Proof.
  intros [Hp _ _ _]. pose proof (keys_distinct _ _ Hp) as Hnd.
  destruct (List.find _ full) as [[k e]|] eqn:E; simpl.
  - apply find_some in E as [Hin Hk]. simpl in Hk. apply bool_decide_eq_true in Hk. subst k.
    apply elem_of_map_to_list. rewrite Hp. by apply list_elem_of_In.
  - destruct (entries c !! q) as [e|] eqn:El; [|done].
    apply elem_of_map_to_list in El. rewrite Hp, list_elem_of_In in El.
    apply (find_none _ _ E) in El. simpl in El. by rewrite bool_decide_true in El.
Qed.

Lemma found_view q full :
  found q (view <$> full) =
  (fun e => (content_hash e, line_count e)) <$> (snd <$> List.find (fun x => bool_decide (x.1 = q)) full).
Proof.
  unfold found. induction full as [|x full IH]; [done|]. simpl. case_bool_decide; [done|]. apply IH.
Qed.

(** The scan finds the entry accessed first: the last of the recency list. *)
Lemma min_by_access_least l m :
  min_by_access l = Some m -> m ∈ l /\ forall x, x ∈ l -> last_accessed m.2 <= last_accessed x.2.
Proof.
  revert m. induction l as [|e l IH]; intros m; [done|]. simpl.
  destruct (min_by_access l) as [m'|] eqn:E.
  - destruct (IH m' eq_refl) as [Hin Hle]. intros [= <-].
    destruct (Z.leb_spec (last_accessed e.2) (last_accessed m'.2)) as [Hl|Hl]; split.
    + by left.
    + intros x [->|Hx]%elem_of_cons; [done|]. specialize (Hle x Hx). lia.
    + by right.
    + intros x [->|Hx]%elem_of_cons; [lia|]. by apply Hle.
  - intros [= <-]. split; [by left|]. intros x [->|Hx]%elem_of_cons; [done|].
    destruct l; [by apply not_elem_of_nil in Hx|]. simpl in E. by destruct (min_by_access l).
Qed.

Lemma min_by_access_some l : l <> [] -> is_Some (min_by_access l).
Proof. destruct l as [|e l]; [done|]. intros _. simpl. destruct (min_by_access l); eauto. Qed.

Lemma sorted_last full x y :
  StronglySorted newer (full ++ [x]) -> y ∈ full ++ [x] -> last_accessed y.2 <= last_accessed x.2 -> y = x.
Proof.
  induction full as [|z full IH]; simpl.
  - intros _ Hy _. by apply list_elem_of_singleton in Hy.
  - intros [Hs Hz]%StronglySorted_inv [->|Hy]%elem_of_cons Hle; [|by apply IH].
    rewrite list.Forall_forall in Hz. assert (Hx : x ∈ full ++ [x]) by (rewrite elem_of_app; right; by left).
    apply Hz in Hx. unfold newer in Hx. lia.
Qed.

Lemma lru_key_last now c full x :
  rep now c (full ++ [x]) -> lru_key iter c = Some x.1.
Proof.
  intros [Hp Hs _ _]. unfold lru_key.
  destruct (min_by_access_some (iter (entries c))) as [m Hm].
  { intros Hn. pose proof (iter_perm (entries c)) as Hi. rewrite Hn, Hp in Hi.
    apply Permutation_nil in Hi. by destruct full. }
  rewrite Hm. simpl. apply min_by_access_least in Hm as [Hin Hle].
  rewrite iter_perm, Hp in Hin. f_equal. f_equal. apply (sorted_last full x m Hs Hin).
  apply Hle. rewrite iter_perm, Hp. apply elem_of_app. right. by left.
Qed.

(** ** Each operation *)

Lemma newest now full x :
  (forall y, y ∈ full -> last_accessed y.2 < now) -> last_accessed x.2 = now ->
  StronglySorted newer full -> StronglySorted newer (x :: full).
Proof.
  intros Hb Hx Hs. constructor; [done|]. rewrite list.Forall_forall. intros y Hy%Hb. unfold newer. lia.
Qed.

Lemma evict_rep now c full q :
  rep now c full -> q ∉ full.*1 ->
  exists full', map_to_list (evict iter q c) ≡ₚ full' /\ StronglySorted newer full' /\
    (forall x, x ∈ full' -> x ∈ full) /\
    view <$> full' = take (Nat.max 1 (max_entries c) - 1) (view <$> full).
Proof.
  intros Hrep Hq. pose proof Hrep as [Hp Hs Hb Hl]. unfold evict.
  assert (Hsize : size (entries c) = length full) by (by rewrite <- length_map_to_list, Hp).
  assert (Hnone : entries c !! q = None).
  { destruct (entries c !! q) as [e|] eqn:E; [|done]. exfalso. apply Hq, list_elem_of_fmap.
    exists (q, e). split; [done|]. rewrite <- Hp. by apply elem_of_map_to_list. }
  rewrite Hsize, Hnone. cbn [is_some negb]. rewrite andb_true_r.
  destruct (Nat.leb_spec (max_entries c) (length full)) as [Hfull|Hroom].
  - destruct full as [|x full _] using rev_ind.
    + unfold lru_key. replace (iter (entries c)) with (@nil (Path * FileCacheEntry)).
      { exists []. simpl. rewrite take_nil. split_and!; [done|constructor|done|done]. }
      symmetry. apply Permutation_nil. by rewrite iter_perm, Hp.
    + rewrite (lru_key_last now c full x Hrep). pose proof (keys_distinct _ _ Hp) as Hnd.
      rewrite fmap_app in Hnd. apply list.NoDup_app in Hnd as (_ & Hx & _).
      assert (Ho : others x.1 (full ++ [x]) = full).
      { unfold others. rewrite filter_app. simpl. rewrite bool_decide_true by done. simpl.
        rewrite app_nil_r. apply others_absent. intros Hin. apply (Hx _ Hin). by left. }
      exists full. split_and!.
      * by rewrite (delete_perm x.1 _ _ Hp), Ho.
      * rewrite <- Ho. by apply others_sorted.
      * intros y Hy. apply elem_of_app. by left.
      * rewrite length_app in Hfull, Hl. simpl in Hfull, Hl. rewrite fmap_app.
        replace (Nat.max 1 (max_entries c) - 1)%nat with (length (view <$> full)) by (rewrite length_fmap; lia).
        by rewrite take_app_length.
  - exists full. split_and!; [done|done|done|]. rewrite take_ge; [done|]. rewrite length_fmap. lia.
Qed.

Lemma others_take {A} q n (l : list (Path * A)) : q ∉ l.*1 -> others q (take n l) = take n l.
Proof.
  intros Hq. apply others_absent. intros Hin. apply Hq. rewrite <- (take_drop n l), fmap_app.
  apply elem_of_app. by left.
Qed.

Lemma others_shorter {A} q (l : list (Path * A)) : q ∈ l.*1 -> (length (others q l) < length l)%nat.
Proof.
  induction l as [|x l IH]; [by intros ?%not_elem_of_nil|]. rewrite fmap_cons, elem_of_cons.
  pose proof (others_length q l) as Hl. unfold others in *. simpl.
  case_bool_decide as Hx; simpl; [lia|]. intros [->|Hin%IH]; [done|lia].
Qed.

Lemma record_rep now now' d p content c full :
  rep now c full -> now <= now' ->
  exists full', rep (now' + 1) (record iter d now' p content c) full' /\
    view <$> full' = spec_op (max_entries c) (Recorded d p content) (view <$> full).
Proof.
  intros Hrep Hnow. pose proof Hrep as [Hp Hs Hb Hl]. cbn [spec_op]. unfold record. set (q := key_of d p).
  set (e := mkEntry q _ _ now' _).
  assert (Hstep : exists full1, map_to_list (<[q := e]> (evict iter q c)) ≡ₚ (q, e) :: full1 /\
    StronglySorted newer full1 /\ (forall x, x ∈ full1 -> x ∈ full) /\
    view <$> full1 = take (Nat.max 1 (max_entries c) - 1) (others q (view <$> full))).
  { destruct (decide (q ∈ full.*1)) as [Hin|Hnin].
    - assert (Hsome : is_some (entries c !! q) = true).
      { apply list_elem_of_fmap in Hin as ([k e0] & Hk & Hin). simpl in Hk. subst k.
        rewrite <- Hp, elem_of_map_to_list in Hin. by rewrite Hin. }
      unfold evict. rewrite Hsome, andb_false_r. exists (others q full). split_and!.
      + by apply insert_perm.
      + by apply others_sorted.
      + by intros x [Hx _]%elem_of_others.
      + rewrite others_view, take_ge; [done|]. rewrite length_fmap.
        assert (length (others q full) < length full)%nat; [|lia].
        by apply others_shorter.
    - destruct (evict_rep now c full q Hrep Hnin) as (full1 & Hp1 & Hs1 & Hin1 & Hv1).
      assert (Hq1 : q ∉ full1.*1).
      { intros (x & -> & Hx)%list_elem_of_fmap. apply Hnin, list_elem_of_fmap. eauto. }
      exists full1. split_and!; [|done|done|].
      + rewrite (insert_perm q e _ _ Hp1). by rewrite others_absent.
      + rewrite Hv1, others_view, others_absent by done. done. }
  destruct Hstep as (full1 & Hp1 & Hs1 & Hin1 & Hv1). exists ((q, e) :: full1). split.
  - split; simpl.
    + exact Hp1.
    + apply (newest now'); [|done|done]. intros y Hy%Hin1%Hb. lia.
    + intros x [->|Hx]%elem_of_cons; [simpl; lia|]. apply Hin1, Hb in Hx. lia.
    + assert (Hlen : length full1 = length (view <$> full1)) by (by rewrite length_fmap).
      rewrite Hlen, Hv1, length_take. lia.
  - rewrite fmap_cons, Hv1. destruct (Nat.max 1 (max_entries c)) as [|n] eqn:E; [lia|].
    simpl. by rewrite Nat.sub_0_r.
Qed.

Lemma rep_later now now' c full : rep now c full -> now <= now' -> rep now' c full.
Proof. intros [Hp Hs Hb Hl] Hn. split; try done. intros x Hx%Hb. lia. Qed.

Lemma touch_rep now now' d p c full :
  rep now c full -> now <= now' ->
  exists full', rep (now' + 1) (touch d now' p c) full' /\
    view <$> full' = spec_op (max_entries c) (Touched d p) (view <$> full).
Proof.
  intros Hrep Hnow. pose proof Hrep as [Hp Hs Hb Hl]. cbn [spec_op]. unfold touch. set (q := key_of d p).
  rewrite found_view, <- (rep_lookup now c full q Hrep).
  destruct (entries c !! q) as [e|] eqn:E; simpl.
  - replace (alter (touch_entry now') q (entries c)) with (<[q := touch_entry now' e]> (entries c)).
    + exists ((q, touch_entry now' e) :: others q full). split; [|by rewrite others_view]. split; simpl.
      * by apply insert_perm.
      * apply (newest now'); [|done|by apply others_sorted]. intros y [Hy%Hb _]%elem_of_others. lia.
      * intros x [->|[Hx%Hb _]%elem_of_others]%elem_of_cons; simpl; lia.
      * assert (q ∈ full.*1) as Hin%others_shorter; [|lia]. apply list_elem_of_fmap. exists (q, e).
        split; [done|]. rewrite <- Hp. by apply elem_of_map_to_list.
    + apply map_eq. intros k. destruct (decide (q = k)) as [<-|Hne].
      * by rewrite lookup_insert_eq, lookup_alter_eq, E.
      * by rewrite lookup_insert_ne, lookup_alter_ne.
  - exists full. split; [|done]. replace (alter (touch_entry now') q (entries c)) with (entries c).
    + apply (rep_later now); [|lia]. by split.
    + apply map_eq. intros k. destruct (decide (q = k)) as [<-|Hne].
      * by rewrite lookup_alter_eq, E.
      * by rewrite lookup_alter_ne.
Qed.

Lemma op_rep now now' o c full :
  rep now c full -> now <= now' ->
  exists full', rep (now' + 1) (apply_op iter now' o c) full' /\
    view <$> full' = spec_op (max_entries c) o (view <$> full).
Proof.
  destruct o as [d p content|d p|]; simpl.
  - apply record_rep.
  - apply touch_rep.
  - intros Hrep Hnow. exists []. split; [|done]. split; simpl.
    + by rewrite map_to_list_empty.
    + constructor.
    + by intros x ?%not_elem_of_nil.
    + lia.
Qed.

Lemma op_capacity now o c : max_entries (apply_op iter now o c) = max_entries c.
Proof. by destruct o. Qed.

(** The clock moves between any two operations. *)
Fixpoint increasing (t : Z) (ops : list (Z * Op)) : Prop :=
  match ops with
  | [] => True
  | (now, _) :: rest => t <= now /\ increasing (now + 1) rest
  end.

Lemma history_rep ops t c full :
  rep t c full -> increasing t ops ->
  exists t' full', rep t' (history iter ops c) full' /\
    view <$> full' = spec_history (max_entries c) ops (view <$> full) /\
    max_entries (history iter ops c) = max_entries c.
Proof.
  revert t c full. induction ops as [|[now o] ops IH]; intros t c full Hrep; simpl; [eauto|].
  intros [Ht Hrest]. destruct (op_rep t now o c full Hrep Ht) as (full1 & Hrep1 & Hv1).
  destruct (IH _ _ _ Hrep1 Hrest) as (t' & full' & Hrep' & Hv' & Hm'). exists t', full'.
  rewrite op_capacity in Hv', Hm'. rewrite Hv1 in Hv'. done.
Qed.

Lemma rep_new cap : rep 0 (new cap) [].
Proof.
  split; simpl; [by rewrite map_to_list_empty|constructor|by intros x ?%not_elem_of_nil|lia].
Qed.

(** Claim C33. The cache is an LRU list: after any sequence of recordings,
    touches and clears, whatever the disk answers at each and in whatever order
    hash maps are scanned, the map holds exactly the paths, hashes and line
    counts of the recency list, in particular never more than its capacity (or
    one entry for capacity 0), the evicted path is the least recently accessed,
    and [check] answers what the list says.  Two operations never share an
    instant. *)
Theorem cache_is_lru (cap : nat) (ops : list (Z * Op)) :
  increasing 0 ops ->
  let c := history iter ops (new cap) in
  let l := spec_history cap ops [] in
  len c = length l /\ (len c <= Nat.max 1 cap)%nat /\
  (forall q, (fun e => (content_hash e, line_count e)) <$> entries c !! q = found q l) /\
  (forall d p, check d p c = spec_check d p l).
Proof.
  intros Hinc c l.
  destruct (history_rep ops 0 (new cap) [] (rep_new cap) Hinc) as (t & full & Hrep & Hv & Hm).
  change (view <$> full = l) in Hv. change (rep t c full) in Hrep.
  assert (Hfound : forall q, (fun e => (content_hash e, line_count e)) <$> entries c !! q = found q l).
  { intros q. rewrite <- Hv, found_view. by rewrite (rep_lookup t c full q Hrep). }
  destruct Hrep as [Hp Hs Hb Hl]. change (max_entries c = cap) in Hm. rewrite Hm in Hl.
  assert (Hlen : len c = length full) by (unfold len; by rewrite <- length_map_to_list, Hp).
  split_and!; [by rewrite Hlen, <- Hv, length_fmap|lia|done|].
  intros d p. unfold check, spec_check. destruct (canonical d p) as [q|]; [|done]. simpl.
  rewrite <- Hfound. by destruct (entries c !! q).
Qed.
End Refinement.

(** ** A history *)

(** A disk on which every path is canonical and [/a], [/b], [/c] have texts. *)
Definition small_disk : Disk := mkDisk
  {| path_exists p := bool_decide (p ∈ [components "/a"; components "/b"; components "/c"]);
     canonicalize p := if bool_decide (p ∈ [components "/a"; components "/b"; components "/c"])
                       then Some p else None |}
  (fun p => if bool_decide (p = components "/a") then Some "aaa"%string
            else if bool_decide (p = components "/b") then Some "bbb"%string
            else if bool_decide (p = components "/c") then Some "ccc"%string else None)
  (fun _ => Some 0) (fun _ => Some 3).

Definition three_reads : list (Z * Op) :=
  [(1, Recorded small_disk (components "/a") "aaa"); (2, Recorded small_disk (components "/b") "bbb");
   (3, Touched small_disk (components "/a")); (4, Recorded small_disk (components "/c") "ccc")].

(** With room for two, the touch saves [/a] and [/b] goes. *)
Lemma cache_is_lru_witness :
  let c := history map_to_list three_reads (new 2) in
  let l := spec_history 2 three_reads [] in
  (check small_disk (components "/a") c, check small_disk (components "/b") c) = (Hit, Miss) /\
  len c = length l /\ (len c <= 2)%nat /\
  (forall q, (fun e => (content_hash e, line_count e)) <$> entries c !! q = found q l) /\
  (forall d p, check d p c = spec_check d p l).
Proof.
  split; [vm_compute; reflexivity|].
  apply (cache_is_lru map_to_list (fun m => reflexivity (map_to_list m)) 2 three_reads).
  repeat split; vm_compute; discriminate.
Defined.

(** Capacity 0 still holds the file recorded last. *)
Example capacity_zero :
  check small_disk (components "/a")
    (history map_to_list [(1, Recorded small_disk (components "/a") "aaa")] (new 0)) = Hit.
Proof. vm_compute. reflexivity. Qed.
