(* ===== verification/FileRead.v ===== *)
(** * FileRead: reading files ([tools/builtins/file_read_tool.rs], [engine/warmup.rs])

    The tool the model reads files with: a full read goes through the file
    cache and answers with a stub when the file is known and unchanged, a
    partial read cuts out lines.  [warm_file] fills the same cache ahead of
    time. *)

From stdpp Require Import base gmap strings list.
From Stdlib Require Import ZArith Lia.
From S2P Require Import Prelude Text Json Paths ToolExec FileCache.

#[local] Open Scope Z_scope.
#[local] Open Scope string_scope.

Section FileRead.
Context `{J : Json}.
(** The text of an I/O error, and the scan of the cache. *)
Context (io_error : string).
Context (iter : gmap Path FileCacheEntry -> list (Path * FileCacheEntry)).

Definition MAX_FILE_BYTES : Z := 10 * 1024 * 1024.

Definition oversized_text : string :=
  "File exceeds the " +:+ show_nat (Z.to_nat MAX_FILE_BYTES) +:+ " byte safety limit".

Definition reject_oversized_file (d : Disk) (p : Path) : result unit ToolError :=
  match file_len d p with
  | None => Err (ExecutionFailed ("Failed to inspect file: " +:+ io_error))
  | Some size => if Z.ltb MAX_FILE_BYTES size then Err (ExecutionFailed oversized_text) else Ok tt
  end.

(** The messages of [resolve_and_validate_path]. *)
Definition resolve_message (path : string) (e : ResolveError) : string :=
  match e with
  | EmptyPath => "Path cannot be empty"
  | OutsideBoundaries => "Path '" +:+ path +:+ "' is outside the allowed working directories"
  | SymlinkEscape =>
      "Path '" +:+ path +:+ "' resolves through a symlink outside the allowed working directories"
  end.

Definition read_result (content : string) (p : Path) (total lines_read offset : Z) (extra : list (string * Value)) :
    ToolResult :=
  mkToolResult (json_object ([("content", json_string content); ("file_path", json_string (join_slash p));
                              ("total_lines", json_int total); ("lines_read", json_int lines_read);
                              ("offset", json_int offset)] ++ extra)) false.

Definition read_failed : ToolError := ExecutionFailed ("Failed to read file: " +:+ io_error).

Definition text_lines (content : string) : list (list byte) := lines (bytes_of content).
Definition count_lines (content : string) : Z := Z.of_nat (length (text_lines content)).

(** A full read with a cache, under the cache's lock. *)
Definition cached_read (d : Disk) (now : Z) (p : Path) (c : FileCache) :
    result ToolResult ToolError * FileCache :=
  match check d p c with
  | Hit =>
      let c := touch d now p c in
      let stub := default "[File cache hit: content unchanged.]" (build_stub d p c) in
      match contents d p with
      | None => (Err read_failed, c)
      | Some content =>
          let n := count_lines content in
          (Ok (read_result stub p n n 0 [("cache_hit", json_bool true)]), c)
      end
  | _ =>
      match contents d p with
      | None => (Err read_failed, c)
      | Some content =>
          let n := count_lines content in
          (Ok (read_result content p n n 0 []), record iter d now p content c)
      end
  end.

(** [lines[start..end]]: [None] is the panic of a range that runs backwards
    or past the end. *)
Definition slice {A} (start end_ : Z) (l : list A) : option (list A) :=
  if (Z.leb start end_ && Z.leb end_ (Z.of_nat (length l)))%bool
  then Some (take (Z.to_nat (end_ - start)) (drop (Z.to_nat start) l)) else None.

(** [min(offset, total)]; the end of the range adds the limit in [usize]. *)
Definition range_start (offset total : Z) : Z := Z.min offset total.
Definition range_end (start : Z) (limit : option Z) (total : Z) : Z :=
  match limit with Some l => Z.min (add64 start l) total | None => total end.

Definition join_lines (ls : list (list byte)) : string :=
  String.concat (string_of [LF]) (string_of <$> ls).

Definition partial_read (d : Disk) (p : Path) (offset : Z) (limit : option Z) :
    option (result ToolResult ToolError) :=
  match contents d p with
  | None => Some (Err read_failed)
  | Some content =>
      let total := count_lines content in
      let start := range_start offset total in
      let end_ := range_end start limit total in
      selected ← slice start end_ (text_lines content);
      Some (Ok (read_result (join_lines selected) p total (end_ - start) start []))
  end.

(** [FileReadTool::call]; [None] is a panic. *)
Definition file_read (d : Disk) (now : Z) (cwd : Path) (dirs : list Path) (input : Value)
    (cache : option FileCache) : option (result ToolResult ToolError) * option FileCache :=
  match str_field input "file_path" with
  | None => (Some (Err (ExecutionFailed "Missing 'file_path' field")), cache)
  | Some path =>
      match resolve_and_validate_path (fs := disk_fs d) path cwd dirs with
      | Err e => (Some (Err (ExecutionFailed (resolve_message path e))), cache)
      | Ok p =>
          match reject_oversized_file d p with
          | Err e => (Some (Err e), cache)
          | Ok _ =>
              let offset := default 0 (json_get input "offset" ≫= as_u64) in
              let limit := json_get input "limit" ≫= as_u64 in
              match cache with
              | Some c =>
                  if (Z.eqb offset 0 && negb (is_some limit))%bool
                  then let '(r, c) := cached_read d now p c in (Some r, Some c)
                  else (partial_read d p offset limit, cache)
              | None => (partial_read d p offset limit, cache)
              end
          end
      end
  end.

(** ** Warming ([warmup.rs]) *)

Definition warm_file (d : Disk) (now : Z) (p : Path) (c : FileCache) : bool * FileCache :=
  match file_len d p with
  | None => (false, c)
  | Some size =>
      if Z.ltb 1048576 size then (false, c)
      else match contents d p with
           | None => (false, c)
           | Some content => (true, record iter d now p content c)
           end
  end.

(** ** Partial reads *)

Lemma range_fits offset limit total :
  0 <= offset -> 0 <= limit <= u64_max -> 0 <= total ->
  let start := range_start offset total in
  start + limit <= u64_max ->
  start <= range_end start (Some limit) total <= total /\
  range_end start (Some limit) total = Z.min (start + limit) total.
Proof.
  intros Ho Hl Ht start Hs. unfold range_end, add64. rewrite wrap64_small.
  - unfold start, range_start in *. lia.
  - unfold is_u64, start, range_start in *. lia.
Qed.

Lemma slice_some {A} start end_ (l : list A) :
  start <= end_ -> end_ <= Z.of_nat (length l) ->
  slice start end_ l = Some (take (Z.to_nat (end_ - start)) (drop (Z.to_nat start) l)).
Proof. intros H1 H2. unfold slice. by rewrite (proj2 (Z.leb_le _ _) H1), (proj2 (Z.leb_le _ _) H2). Qed.

(** A partial read returns exactly the lines asked for, joined by
    line feeds: from the offset (or the end of the file) on, at most [limit] of
    them; unless offset and limit do not fit in 64 bits together, in which case
    the range wraps around, runs backwards and the tool panics. *)
Theorem partial_read_correct (d : Disk) (p : Path) (content : string) (offset limit : Z) :
  contents d p = Some content ->
  0 <= offset -> 0 <= limit <= u64_max -> count_lines content <= u64_max ->
  let total := count_lines content in
  let start := Z.min offset total in
  let selected := take (Z.to_nat limit) (drop (Z.to_nat start) (text_lines content)) in
  (start + limit <= u64_max ->
     partial_read d p offset (Some limit) =
     Some (Ok (read_result (join_lines selected) p total (Z.of_nat (length selected)) start []))) /\
  (u64_max < start + limit -> partial_read d p offset (Some limit) = None).
Proof.
  intros Hc Ho Hl Ht total start selected. unfold partial_read. rewrite Hc.
  fold total. change (range_start offset total) with start.
  assert (Htot : total = Z.of_nat (length (text_lines content))) by reflexivity.
  assert (Hstart : 0 <= start <= total) by (unfold start; lia). split; intros Hs.
  - destruct (range_fits offset limit total) as [Hr He]; [lia|lia|lia|exact Hs|].
    change (range_start offset total) with start in Hr, He. rewrite He in Hr |- *.
    rewrite slice_some by lia. cbn [mbind option_bind].
    assert (Hsel : take (Z.to_nat (Z.min (start + limit) total - start)) (drop (Z.to_nat start) (text_lines content))
                   = selected).
    { unfold selected. destruct (Z.le_gt_cases (start + limit) total) as [Hle|Hgt].
      - f_equal. lia.
      - rewrite !take_ge; [done|..]; rewrite length_drop; lia. }
    rewrite Hsel. do 3 f_equal. unfold selected. rewrite length_take, length_drop. lia.
  - assert (He : range_end start (Some limit) total = Z.min (start + limit - 2 ^ 64) total).
    { unfold range_end, add64, wrap64, u64_max in *. do 2 f_equal.
      symmetry. apply (Z.mod_unique _ _ 1); lia. }
    rewrite He. unfold slice, u64_max in *. rewrite (proj2 (Z.leb_gt _ _)); [done|]. lia.
Qed.

(** ** Full reads *)

Lemma check_recorded d d' now p content c q :
  key_of d p = q -> canonical d' p = Some q -> contents d' q = Some content ->
  check d' p (record iter d now p content c) = Hit.
Proof.
  intros Hk Hq Ht. unfold check, record. rewrite Hq, Hk. simpl.
  by rewrite lookup_insert_eq, Ht, Z.eqb_refl.
Qed.

Lemma build_stub_touched d now now' p content c :
  build_stub d p (touch d now' p (record iter d now p content c)) =
  Some (stub_text (mkEntry (key_of d p) (fnv1a_hash content) 0 0 (length (text_lines content)))).
Proof.
  unfold build_stub, touch, record. simpl. by rewrite lookup_alter_eq, lookup_insert_eq.
Qed.

(** A full read of a file that is not in the cache, or has changed,
    returns its text and records it; as long as the disk then stays as it is,
    the next full read of it is answered with the stub instead. *)
Theorem full_read_once (d : Disk) (now now' : Z) (p q : Path) (c : FileCache) (content : string) :
  canonical d p = Some q -> contents d p = Some content -> contents d q = Some content ->
  check d p c <> Hit ->
  let n := count_lines content in
  let '(first, c1) := cached_read d now p c in
  first = Ok (read_result content p n n 0 []) /\
  (cached_read d now' p c1).1 =
  Ok (read_result (stub_text (mkEntry q (fnv1a_hash content) 0 0 (length (text_lines content)))) p n n 0
        [("cache_hit", json_bool true)]).
Proof.
  intros Hq Hp Hc Hmiss n. assert (Hk : key_of d p = q) by (unfold key_of; by rewrite Hq).
  pose proof (build_stub_touched d now now' p content c) as Hstub.
  pose proof (check_recorded d d now p content c q Hk Hq Hc) as Hhit.
  unfold cached_read. rewrite Hp.
  destruct (check d p c); [done| |]; (split; [done|]); cbn beta iota; rewrite Hhit, Hstub, Hk; done.
Qed.

(** A file warmed ahead of time is withheld from the model: after
    [warm_file] took it in, the model's own first full read of it returns the
    stub, "previously read content is still valid", with the path and the
    number of lines and nothing of the text. *)
Theorem warmed_file_withheld (d : Disk) (now now' : Z) (cwd : Path) (dirs : list Path) (input : Value)
    (path content : string) (p q : Path) (c c' : FileCache) :
  warm_file d now p c = (true, c') ->
  canonical d p = Some q -> contents d p = Some content -> contents d q = Some content ->
  str_field input "file_path" = Some path ->
  resolve_and_validate_path (fs := disk_fs d) path cwd dirs = Ok p ->
  json_get input "offset" = None -> json_get input "limit" = None ->
  let n := count_lines content in
  (file_read d now' cwd dirs input (Some c')).1 =
  Some (Ok (read_result (stub_text (mkEntry q (fnv1a_hash content) 0 0 (length (text_lines content)))) p n n 0
              [("cache_hit", json_bool true)])).
Proof.
  intros Hwarm Hq Hp Hc Hpath Hres Hoff Hlim n. unfold warm_file in Hwarm.
  destruct (file_len d p) as [size|] eqn:Hsize; [|done].
  destruct (Z.ltb_spec 1048576 size) as [|Hsmall]; [done|]. rewrite Hp in Hwarm. injection Hwarm as <-.
  assert (Hk : key_of d p = q) by (unfold key_of; by rewrite Hq).
  assert (Hok : reject_oversized_file d p = Ok tt).
  { unfold reject_oversized_file. rewrite Hsize. destruct (Z.ltb_spec MAX_FILE_BYTES size); [|done].
    unfold MAX_FILE_BYTES in *. lia. }
  unfold file_read. rewrite Hpath, Hres, Hok, Hoff, Hlim. simpl. unfold cached_read.
  rewrite (check_recorded d d now p content c q Hk Hq Hc), Hp, (build_stub_touched d now now' p content c), Hk.
  done.
Qed.
End FileRead.

(** ** Witnesses *)

Definition read_a : flat := FObj [("file_path", FStr "/a")].
Definition abc_disk : Disk := mkDisk {| path_exists _ := true; canonicalize p := Some p |}
  (fun p => if bool_decide (p = components "/a") then Some ("x" +:+ string_of [LF] +:+ "y")%string else None)
  (fun _ => Some 0) (fun _ => Some 3).

Lemma partial_read_correct_witness :
  @partial_read flat_json "e" abc_disk (components "/a") 1 (Some 5) =
    Some (Ok (@read_result flat_json "y" (components "/a") 2 1 1 [])) /\
  @partial_read flat_json "e" abc_disk (components "/a") 1 (Some u64_max) = None.
Proof.
  split.
  - apply (@partial_read_correct flat_json "e" abc_disk (components "/a") ("x" +:+ string_of [LF] +:+ "y") 1 5);
      vm_compute; try reflexivity; try (split; discriminate); discriminate.
  - apply (@partial_read_correct flat_json "e" abc_disk (components "/a") ("x" +:+ string_of [LF] +:+ "y") 1 u64_max);
      vm_compute; try reflexivity; try (split; discriminate); discriminate.
Defined.

Definition stub_a : string := "[File cache hit: /a " +:+ string_of (Ascii.ascii_of_nat <$> [226; 128; 148]%nat)
  +:+ " content unchanged (2 lines). Previously read content is still valid.]".

Lemma full_read_once_witness :
  (@cached_read flat_json "e" map_to_list abc_disk 8 (components "/a")
     (@cached_read flat_json "e" map_to_list abc_disk 7 (components "/a") (new 2)).2).1
  = Ok (@read_result flat_json stub_a (components "/a") 2 2 0 [("cache_hit", FBool true)]).
Proof.
  apply (@full_read_once flat_json "e" map_to_list abc_disk 7 8 (components "/a") (components "/a") (new 2)
           ("x" +:+ string_of [LF] +:+ "y")); [reflexivity..|vm_compute; discriminate].
Defined.

Lemma warmed_file_withheld_witness :
  (@file_read flat_json "e" map_to_list abc_disk 8 [RootDir] [] read_a
     (Some (warm_file map_to_list abc_disk 7 (components "/a") (new 2)).2)).1
  = Some (Ok (@read_result flat_json stub_a (components "/a") 2 2 0 [("cache_hit", FBool true)])).
Proof.
  apply (@warmed_file_withheld flat_json "e" map_to_list abc_disk 7 8 [RootDir] [] read_a "/a"
           ("x" +:+ string_of [LF] +:+ "y") (components "/a") (components "/a") (new 2)); reflexivity.
Defined.
