(* ===== verification/FileEdit.v ===== *)
(** * FileEdit: the tools that write files ([tools/builtins/file_edit_tool.rs],
    [file_write_tool.rs], [backup.rs])

    Replacing a text that occurs once, writing a whole file, and the copy both
    make before they write.  The disk is the one [FileRead] reads; what writing
    does to it is an interface with the documented behaviour of the operating
    system. *)

From stdpp Require Import base gmap strings list.
From Stdlib Require Import ZArith Lia.
From S2P Require Import Prelude Text Json Paths ToolExec FileCache FileRead.

#[local] Open Scope string_scope.

(** Operations that change the disk, with whether they succeed.  [apart p q]
    says that the two names never stand for one file. *)
Class DiskOps := {
  write_file : Disk -> Path -> string -> Disk * bool;    (* [tokio::fs::write] *)
  copy_file : Disk -> Path -> Path -> Disk * bool;       (* [tokio::fs::copy] *)
  create_dir_all : Disk -> Path -> Disk * bool;          (* [tokio::fs::create_dir_all] *)
  apart : Path -> Path -> Prop
}.

(** A failed write may have cut the file, so nothing is said of it. *)
Class DiskLaws `{DiskOps} := {
  write_done : forall d p s, (write_file d p s).2 = true -> contents (write_file d p s).1 p = Some s;
  write_exists : forall d p s, (write_file d p s).2 = true -> @path_exists (disk_fs (write_file d p s).1) p = true;
  write_frame : forall d p s q, apart p q -> contents (write_file d p s).1 q = contents d q;
  copy_done : forall d p q, apart q p -> (copy_file d p q).2 = true -> contents (copy_file d p q).1 q = contents d p;
  copy_frame : forall d p q r, apart q r -> contents (copy_file d p q).1 r = contents d r;
  mkdir_frame : forall d p q, contents (create_dir_all d p).1 q = contents d q
}.

(** ** Occurrences *)

(** [content.matches(p).count()] of a text that is not empty: occurrences that
    do not overlap, from the left. *)
Fixpoint count_from (fuel : nat) (p l : list byte) : nat :=
  match fuel, find_bytes p l with
  | S fuel, Some i => S (count_from fuel p (drop (i + length p) l))
  | _, _ => O
  end.

(** The empty text occurs around every character. *)
Definition count_matches (p l : list byte) : nat :=
  match p with [] => S (char_count l) | _ => count_from (length l) p l end.

(** [content.replacen(p, new, 1)]. *)
Definition replace_first (p new l : list byte) : list byte :=
  match find_bytes p l with Some i => (take i l ++ new ++ drop (i + length p) l)%list | None => l end.

(** ** Backups: [backup.rs] *)

Definition name_text (p : Path) : string := match file_name p with [Normal n] => n | _ => "" end.

Definition backup_dir (cwd : Path) : Path := join (join cwd [Normal ".baoclaw"]) [Normal "backups"].
Definition backup_path (stamp : string) (p cwd : Path) : Path :=
  join (backup_dir cwd) [Normal (name_text p +:+ "_" +:+ stamp)].

Section Tools.
Context `{J : Json} `{W : DiskOps} (io_error : string).

(** [stamp] is the time to the second. *)
Definition backup_file_before_write (stamp : string) (d : Disk) (p cwd : Path) : Disk * bool :=
  if negb (@path_exists (disk_fs d) p) then (d, true)
  else let '(d, made) := create_dir_all d (backup_dir cwd) in
       if made then copy_file d p (backup_path stamp p cwd) else (d, false).

(** ** [FileEditTool] *)

Definition invalid (message : string) : ValidationResult := Invalid message None.

Definition non_empty_field (v : Value) (key : string) : bool :=
  match str_field v key with Some s => negb (Text.is_empty s) | None => false end.

Definition validate_edit (v : Value) : ValidationResult :=
  if negb (non_empty_field v "file_path") then invalid "Missing or empty 'file_path' field"
  else if negb (non_empty_field v "old_string") then
    invalid "Missing or empty 'old_string' field (to create a new file, use FileWrite instead)"
  else if negb (is_some (str_field v "new_string")) then invalid "Missing 'new_string' field"
  else Valid.

Definition missing_field (key : string) : ToolError := ExecutionFailed ("Missing '" +:+ key +:+ "' field").
Definition write_failed : ToolError := ExecutionFailed ("Failed to write file: " +:+ io_error).

Definition refused (message : string) (p : Path) : ToolResult :=
  mkToolResult (json_object [("error", json_string message); ("file_path", json_string (join_slash p))]) true.

Definition edited (old new : string) (p : Path) : ToolResult :=
  mkToolResult (json_object [("file_path", json_string (join_slash p)); ("old_string", json_string old);
                             ("new_string", json_string new)]) false.

(** The end of the call: the content is read, searched and written. *)
Definition replace_once (d : Disk) (p : Path) (old new : string) : result ToolResult ToolError * Disk :=
  match contents d p with
  | None => (Err (read_failed io_error), d)
  | Some content =>
      let n := count_matches (bytes_of old) (bytes_of content) in
      if Nat.eqb n 0 then (Ok (refused "old_string not found in file" p), d)
      else if Nat.ltb 1 n then
        (Ok (refused ("old_string found " +:+ show_nat n +:+ " times, expected exactly 1") p), d)
      else
        let '(d, ok) := write_file d p (string_of (replace_first (bytes_of old) (bytes_of new) (bytes_of content))) in
        (if ok then Ok (edited old new p) else Err write_failed, d)
  end.

Definition file_edit (d : Disk) (stamp : string) (cwd : Path) (dirs : list Path) (input : Value) :
    result ToolResult ToolError * Disk :=
  match str_field input "file_path", str_field input "old_string", str_field input "new_string" with
  | None, _, _ => (Err (missing_field "file_path"), d)
  | _, None, _ => (Err (missing_field "old_string"), d)
  | _, _, None => (Err (missing_field "new_string"), d)
  | Some path, Some old, Some new =>
      match resolve_and_validate_path (fs := disk_fs d) path cwd dirs with
      | Err e => (Err (ExecutionFailed (resolve_message path e)), d)
      | Ok p =>
          match reject_oversized_file io_error d p with
          | Err e => (Err e, d)
          | Ok _ => replace_once (backup_file_before_write stamp d p cwd).1 p old new
          end
      end
  end.

(** ** [FileWriteTool] *)

Definition validate_write (v : Value) : ValidationResult :=
  if negb (non_empty_field v "file_path") then invalid "Missing or empty 'file_path' field"
  else if negb (is_some (str_field v "content")) then invalid "Missing 'content' field"
  else Valid.

Definition oversized_content : string :=
  "Content exceeds the " +:+ show_nat (Z.to_nat MAX_FILE_BYTES) +:+ " byte safety limit".

(** The directories above a file are created first. *)
Definition with_parents (d : Disk) (p : Path) : Disk * bool :=
  match parent p with Some dir => create_dir_all d dir | None => (d, true) end.

Definition written (content : string) (p : Path) : ToolResult :=
  mkToolResult (json_object [("file_path", json_string (join_slash p));
                             ("bytes_written", json_int (Z.of_nat (str_len content)))]) false.

Definition file_write (d : Disk) (stamp : string) (cwd : Path) (dirs : list Path) (input : Value) :
    result ToolResult ToolError * Disk :=
  match str_field input "file_path", str_field input "content" with
  | None, _ => (Err (missing_field "file_path"), d)
  | _, None => (Err (missing_field "content"), d)
  | Some path, Some content =>
      if Z.ltb MAX_FILE_BYTES (Z.of_nat (str_len content)) then (Err (ExecutionFailed oversized_content), d)
      else match resolve_and_validate_path (fs := disk_fs d) path cwd dirs with
           | Err e => (Err (ExecutionFailed (resolve_message path e)), d)
           | Ok p =>
               let d := (backup_file_before_write stamp d p cwd).1 in
               let '(d, made) := with_parents d p in
               if made then
                 let '(d, ok) := write_file d p content in
                 (if ok then Ok (written content p) else Err write_failed, d)
               else (Err (ExecutionFailed ("Failed to create directories: " +:+ io_error)), d)
           end
  end.
End Tools.

(** ** Counting occurrences *)

#[local] Open Scope list_scope.

(** The text occurs after [a], and nowhere before. *)
Definition first_at (p l a b : list byte) : Prop :=
  l = a ++ p ++ b /\ forall a' b', l = a' ++ p ++ b' -> (length a <= length a')%nat.

Definition absent (p l : list byte) : Prop := forall a b, l <> a ++ p ++ b.

Lemma first_found p l a b : first_at p l a b -> find_bytes p l = Some (length a).
Proof. intros [Hl Hf]. apply find_bytes_some. by exists a, b. Qed.

Lemma found_first p l i : find_bytes p l = Some i -> exists a b, first_at p l a b /\ length a = i.
Proof. intros (a & b & Hl & Ha & Hf)%find_bytes_some. subst i. exists a, b. by repeat split. Qed.

Lemma drop_occurrence (p a b : list byte) : drop (length a + length p) (a ++ p ++ b) = b.
Proof. rewrite (assoc_L (++)), drop_app_length' by (rewrite length_app; lia). done. Qed.

Lemma count_none n p l : p <> [] -> (length l <= n)%nat -> count_from n p l = 0%nat <-> absent p l.
Proof.
  intros Hp Hn. unfold absent. rewrite <- find_bytes_none. destruct n as [|n]; cbn.
  - destruct l; [|simpl in Hn; lia]. split; [|done]. intros _. apply find_bytes_none. intros a b He. symmetry in He.
    by apply app_nil in He as [_ [-> _]%app_nil].
  - by destruct (find_bytes p l).
Qed.

Lemma count_first n p l a b : p <> [] -> (length l <= n)%nat -> first_at p l a b ->
  exists m, count_from n p l = S (count_from m p b) /\ (length b <= m)%nat.
Proof.
  intros Hp Hn Hf. pose proof (first_found _ _ _ _ Hf) as Hi. destruct Hf as [-> _].
  rewrite !length_app in Hn. destruct p as [|c p]; [done|]. simpl in Hn. destruct n as [|n]; [lia|].
  exists n. split; [|lia]. cbn [count_from]. by rewrite Hi, drop_occurrence.
Qed.

(** Exactly one match: a first occurrence and none behind it. *)
Lemma count_one p l : p <> [] -> count_matches p l = 1%nat <-> exists a b, first_at p l a b /\ absent p b.
Proof.
  intros Hp. assert (Hc : count_matches p l = count_from (length l) p l) by (by destruct p). rewrite Hc. split.
  - intros H1. destruct (find_bytes p l) as [i|] eqn:Hi.
    + apply found_first in Hi as (a & b & Hf & _). exists a, b. split; [done|].
      destruct (count_first (length l) p l a b Hp ltac:(lia) Hf) as (m & Hm & Hb). rewrite Hm in H1.
      apply (count_none m); [done|lia|]. lia.
    + pose proof (proj1 (find_bytes_none p l) Hi) as Ha. apply (count_none (length l)) in Ha; [congruence|done|lia].
  - intros (a & b & Hf & Hb). destruct (count_first (length l) p l a b Hp ltac:(lia) Hf) as (m & Hm & Hl). rewrite Hm.
    f_equal. by apply count_none.
Qed.

Lemma count_zero p l : p <> [] -> count_matches p l = 0%nat <-> absent p l.
Proof. intros Hp. rewrite <- (count_none (length l) p l Hp) by lia. by destruct p. Qed.

Lemma replace_at p new l a b : first_at p l a b -> replace_first p new l = a ++ new ++ b.
Proof.
  intros Hf. unfold replace_first. rewrite (first_found _ _ _ _ Hf). destruct Hf as [-> _].
  by rewrite take_app_length, drop_occurrence.
Qed.

(** ** Edits and writes *)

Section Laws.
Context `{J : Json} {W : DiskOps} {DL : DiskLaws} (io_error : string).

Lemma backup_frame stamp d p cwd q :
  apart (backup_path stamp p cwd) q -> contents (backup_file_before_write stamp d p cwd).1 q = contents d q.
Proof.
  intros Hq. unfold backup_file_before_write. destruct (negb _); [done|].
  pose proof (mkdir_frame d (backup_dir cwd) q) as Hm. destruct (create_dir_all d _) as [d1 made]. simpl in Hm.
  destruct made; [|done]. by rewrite copy_frame.
Qed.

Lemma backup_holds stamp d p cwd :
  apart (backup_path stamp p cwd) p -> @path_exists (disk_fs d) p = true ->
  (backup_file_before_write stamp d p cwd).2 = true ->
  contents (backup_file_before_write stamp d p cwd).1 (backup_path stamp p cwd) = contents d p.
Proof.
  intros Hq He. unfold backup_file_before_write. rewrite He. cbn [negb].
  pose proof (mkdir_frame d (backup_dir cwd) p) as Hm. destruct (create_dir_all d _) as [d1 made]. simpl in Hm.
  destruct made; [|done]. intros Hc. by rewrite copy_done.
Qed.

Lemma valid_edit_fields input :
  validate_edit input = Valid -> exists path old new, str_field input "file_path" = Some path /\
    str_field input "old_string" = Some old /\ str_field input "new_string" = Some new /\ bytes_of old <> [].
Proof.
  unfold validate_edit, non_empty_field, invalid. destruct (str_field input "file_path") as [path|]; [|done].
  destruct (str_field input "old_string") as [old|]; [|by destruct (Text.is_empty path)].
  destruct (str_field input "new_string") as [new|]; destruct (Text.is_empty path), old; try done.
  intros _. by eexists _, _, _.
Qed.

(** What [replace_once] does with a file that can be read. *)
Lemma replaced_once d p old new content :
  contents d p = Some content -> bytes_of old <> [] ->
  let '(r, d') := replace_once io_error d p old new in
  (forall q, apart p q -> contents d' q = contents d q) /\
  match r with
  | Ok res =>
      if is_error res
      then contents d' p = Some content /\ ~ (exists a b, first_at (bytes_of old) (bytes_of content) a b /\ absent (bytes_of old) b)
      else exists a b, first_at (bytes_of old) (bytes_of content) a b /\ absent (bytes_of old) b /\
             contents d' p = Some (string_of (a ++ bytes_of new ++ b))
  | Err e => e = write_failed io_error /\ exists a b, first_at (bytes_of old) (bytes_of content) a b /\ absent (bytes_of old) b
  end.
Proof.
  intros Hc Ho. unfold replace_once. rewrite Hc. pose proof (count_one (bytes_of old) (bytes_of content) Ho) as H1.
  destruct (Nat.eqb_spec (count_matches (bytes_of old) (bytes_of content)) 0) as [H0|H0].
  { cbn. split_and!; [done..|]. rewrite <- H1, H0. done. }
  destruct (Nat.ltb_spec 1 (count_matches (bytes_of old) (bytes_of content))) as [H2|H2].
  { cbn. split_and!; [done..|]. rewrite <- H1. lia. }
  assert (Hone : count_matches (bytes_of old) (bytes_of content) = 1%nat) by lia.
  apply H1 in Hone as (a & b & Hf & Hb). rewrite (replace_at _ _ _ _ _ Hf).
  pose proof (fun q => write_frame d p (string_of (a ++ bytes_of new ++ b)) q) as Hw.
  pose proof (write_done d p (string_of (a ++ bytes_of new ++ b))) as Hd.
  destruct (write_file d p _) as [d' [|]]; simpl in *; (split; [done|]).
  - exists a, b. by split_and!; [..|apply Hd].
  - split; [done|]. by exists a, b.
Qed.

(** Claim C25. An edit replaces the one place it is meant for: when the old text
    occurs, and not again behind its first occurrence, the file afterwards is
    what stood before it, the new text and what stood behind it; when it does
    not occur or occurs again, the edit is refused and the file is as it was;
    every other file keeps its contents, but for the backup, which holds the
    former text; and a file over the limit is not touched at all. *)
Theorem edit_replaces_exactly_one (d : Disk) (stamp : string) (cwd : Path) (dirs : list Path) (input : Value)
    (path old new content : string) (p : Path) (size : Z)
    (Hv : validate_edit input = Valid) (Hp : str_field input "file_path" = Some path)
    (Ho : str_field input "old_string" = Some old) (Hn : str_field input "new_string" = Some new)
    (Hr : resolve_and_validate_path (fs := disk_fs d) path cwd dirs = Ok p) (Hs : file_len d p = Some size)
    (Hc : contents d p = Some content) (Hb : apart (backup_path stamp p cwd) p) :
  let '(r, d') := file_edit io_error d stamp cwd dirs input in
  let once a b := first_at (bytes_of old) (bytes_of content) a b /\ absent (bytes_of old) b in
  (forall q, apart p q -> apart (backup_path stamp p cwd) q -> contents d' q = contents d q) /\
  ((MAX_FILE_BYTES < size)%Z -> r = Err (ExecutionFailed oversized_text) /\ d' = d) /\
  ((size <= MAX_FILE_BYTES)%Z ->
     match r with
     | Ok res => if is_error res then contents d' p = Some content /\ ~ (exists a b, once a b)
                 else exists a b, once a b /\ contents d' p = Some (string_of (a ++ bytes_of new ++ b))
     | Err e => e = write_failed io_error /\ exists a b, once a b
     end /\
     (apart p (backup_path stamp p cwd) -> @path_exists (disk_fs d) p = true ->
      (backup_file_before_write stamp d p cwd).2 = true -> contents d' (backup_path stamp p cwd) = Some content)).
Proof.
  destruct (valid_edit_fields input Hv) as (path' & old' & new' & _ & Ho' & _ & Hne). rewrite Ho in Ho'. injection Ho' as <-.
  unfold file_edit. rewrite Hp, Ho, Hn, Hr. unfold reject_oversized_file. rewrite Hs.
  destruct (Z.ltb_spec MAX_FILE_BYTES size) as [Hl|Hl]; [split_and!; [done..|lia]|].
  pose proof (fun q => backup_frame stamp d p cwd q) as Hbf. pose proof (backup_holds stamp d p cwd Hb) as Hbh.
  pose proof (replaced_once (backup_file_before_write stamp d p cwd).1 p old new content) as H.
  rewrite Hbf in H by done. specialize (H Hc Hne). destruct (replace_once _ _ _ _ _) as [r d'].
  destruct H as [Hfr Hres]. split_and!.
  - intros q Hq Hbq. by rewrite Hfr, Hbf.
  - intros ?. lia.
  - intros _. split.
    + destruct r as [res|e]; [|exact Hres]. destruct (is_error res); [exact Hres|].
      destruct Hres as (a & b & Hf & Ha & Hw). by exists a, b.
    + intros Hpb He Hok. by rewrite Hfr, Hbh.
Qed.

(** A write leaves exactly what was asked for, the former text in the
    backup, and every other file alone. *)
Theorem write_replaces_all (d : Disk) (stamp : string) (cwd : Path) (dirs : list Path) (input : Value) (path content : string)
    (p : Path) (Hp : str_field input "file_path" = Some path) (Ht : str_field input "content" = Some content)
    (Hr : resolve_and_validate_path (fs := disk_fs d) path cwd dirs = Ok p) :
  let '(r, d') := file_write io_error d stamp cwd dirs input in
  (forall q, apart p q -> apart (backup_path stamp p cwd) q -> contents d' q = contents d q) /\
  ((MAX_FILE_BYTES < Z.of_nat (str_len content))%Z -> r = Err (ExecutionFailed oversized_content) /\ d' = d) /\
  (is_ok r = true -> r = Ok (written content p) /\ contents d' p = Some content /\
     (apart p (backup_path stamp p cwd) -> apart (backup_path stamp p cwd) p -> @path_exists (disk_fs d) p = true ->
      (backup_file_before_write stamp d p cwd).2 = true -> contents d' (backup_path stamp p cwd) = contents d p)).
Proof.
  unfold file_write. rewrite Hp, Ht, Hr. destruct (Z.ltb_spec MAX_FILE_BYTES (Z.of_nat (str_len content))) as [Hl|Hl]; [done|].
  pose proof (fun q => backup_frame stamp d p cwd q) as Hbf. pose proof (fun Hb => backup_holds stamp d p cwd Hb) as Hbh.
  destruct (backup_file_before_write stamp d p cwd) as [d1 ok1]. cbn [fst snd] in *.
  assert (Hm : forall q, contents (with_parents d1 p).1 q = contents d1 q).
  { intros q. unfold with_parents. destruct (parent p); [|done]. apply mkdir_frame. }
  destruct (with_parents d1 p) as [d2 [|]]; cbn [fst] in Hm.
  2: { split_and!; [|lia|done]. intros q Hq Hbq. by rewrite Hm, Hbf. }
  pose proof (fun q => write_frame d2 p content q) as Hw. pose proof (write_done d2 p content) as Hd.
  destruct (write_file d2 p content) as [d3 ok]. cbn [fst snd] in *. split_and!; [|lia|].
  - intros q Hq Hbq. by rewrite Hw, Hm, Hbf.
  - destruct ok; [|done]. intros _. split_and!; [done|by apply Hd|]. intros Hpb Hb He Hok. by rewrite Hw, Hm, Hbh.
Qed.
End Laws.

(** ** On a concrete disk *)

Section Demo.
#[local] Existing Instances flat_json flat_json_laws.

(** A disk without links or failures. *)
Definition put (d : Disk) (p : Path) (s : string) : Disk :=
  mkDisk {| path_exists q := bool_decide (q = p) || @path_exists (disk_fs d) q;
            canonicalize q := if bool_decide (q = p) then Some p else @canonicalize (disk_fs d) q |}
         (fun q => if bool_decide (q = p) then Some s else contents d q) (modified d)
         (fun q => if bool_decide (q = p) then Some (Z.of_nat (str_len s)) else file_len d q).

#[local] Instance plain_ops : DiskOps := {|
  write_file d p s := (put d p s, true);
  copy_file d p q := match contents d p with Some s => (put d q s, true) | None => (d, false) end;
  create_dir_all d _ := (d, true);
  apart p q := p <> q
|}.

#[local] Instance plain_laws : DiskLaws.
Proof.
  split; cbn.
  - intros d p s _. by rewrite bool_decide_true.
  - intros d p s _. by rewrite bool_decide_true.
  - intros d p s q Hq. by rewrite bool_decide_false by congruence.
  - intros d p q Hq. destruct (contents d p) as [s|] eqn:Hc; [|done]. intros _. cbn. by rewrite bool_decide_true.
  - intros d p q r Hq. destruct (contents d p) as [s|]; [|done]. cbn. by rewrite bool_decide_false by congruence.
  - done.
Qed.

Definition work : Path := components "/w".
Definition empty_disk : Disk :=
  mkDisk {| path_exists p := bool_decide (p = work); canonicalize p := if bool_decide (p = work) then Some work else None |}
         (fun _ => None) (fun _ => None) (fun _ => None).

Definition file_a : Path := components "/w/a".
Definition with_text (s : string) : Disk := put empty_disk file_a s.
Definition edit_of (old new : string) : Value :=
  FObj [("file_path", FStr "a"); ("old_string", FStr old); ("new_string", FStr new)].

Definition texts_after (d : Disk) (ps : list Path) : list (option string) := contents d <$> ps.

Lemma edit_replaces_exactly_one_witness :
  contents (file_edit "e" (with_text "one two") "20250101_120000" work [] (edit_of "two" "2")).2 file_a = Some "one 2".
Proof.
  pose proof (edit_replaces_exactly_one "e" (with_text "one two") "20250101_120000" work [] (edit_of "two" "2")
                "a" "two" "2" "one two" file_a 7) as H.
  destruct (file_edit "e" (with_text "one two") "20250101_120000" work [] (edit_of "two" "2")) as [r d'] eqn:He.
  destruct H as (_ & _ & H); [reflexivity..|apply (bool_decide_unpack _); vm_compute; exact I|].
  destruct H as [Hr _]; [vm_compute; discriminate|].
  assert (Hok : match r with Ok res => is_error res = false | Err _ => False end).
  { apply (f_equal fst) in He. cbn [fst] in He. rewrite <- He. vm_compute. reflexivity. }
  destruct r as [res|e]; [|destruct Hok]. rewrite Hok in Hr. destruct Hr as (a & b & [[Hf _] _] & Hd). cbn [snd]. rewrite Hd.
  apply (f_equal snd) in He. cbn [snd] in He. rewrite <- Hd, <- He. vm_compute. reflexivity.
Defined.

Definition label_of (r : result ToolResult ToolError) : string :=
  match r with
  | Ok res => match str_field (data res) "error" with Some m => m | None => "done" end
  | Err e => tool_error_to_string e
  end.

(** Matches are counted without overlap: a text that occurs twice, the second
    time overlapping the first, passes for one that occurs once. *)
Example overlap_passes :
  let '(r, d) := file_edit "e" (with_text "aaa") "t" work [] (edit_of "aa" "b") in
  label_of r = "done" /\ contents d file_a = Some "ba".
Proof. vm_compute. split; reflexivity. Qed.

(** The name of a backup has the file's name and the second: of two edits in
    one second, and of two files of one name, only the last backup is left. *)
Example backup_overwritten :
  let d := (file_edit "e" (with_text "one") "t" work [] (edit_of "one" "two")).2 in
  let d := (file_edit "e" d "t" work [] (edit_of "two" "three")).2 in
  texts_after d [file_a; backup_path "t" file_a work] = [Some "three"; Some "two"].
Proof. vm_compute. reflexivity. Qed.

(** An edit that is refused has made its backup all the same. *)
Example refused_edit_backs_up :
  let '(r, d) := file_edit "e" (with_text "one") "t" work [] (edit_of "two" "three") in
  label_of r = "old_string not found in file" /\ contents d (backup_path "t" file_a work) = Some "one".
Proof. vm_compute. split; reflexivity. Qed.

Lemma write_replaces_all_witness :
  let d := with_text "one" in
  let r := file_write "e" d "t" work [] (FObj [("file_path", FStr "a"); ("content", FStr "two")]) in
  contents r.2 file_a = Some "two" /\ contents r.2 (backup_path "t" file_a work) = Some "one".
Proof.
  intros d r. pose proof (write_replaces_all "e" d "t" work [] (FObj [("file_path", FStr "a"); ("content", FStr "two")])
    "a" "two" file_a eq_refl eq_refl eq_refl) as H. fold r in H. assert (Hok : is_ok r.1 = true) by (vm_compute; reflexivity).
  destruct r as [r d']. destruct H as (_ & _ & H). destruct (H Hok) as (_ & Hc & Hb). split; [exact Hc|].
  apply Hb; [apply (bool_decide_unpack _); vm_compute; exact I..|reflexivity|reflexivity].
Defined.
End Demo.
