(* ===== verification/Notebook.v ===== *)
(** * Notebook: the tools that edit structured files
    ([tools/builtins/notebook_edit_tool.rs], [todo_write_tool.rs])

    The cells of a notebook and the to-do list of a project.  Both tools read
    a file, change the value in it and write the file again. *)

From stdpp Require Import base gmap strings list.
From Stdlib Require Import ZArith Lia.
From S2P Require Import Prelude Text Json Paths ToolExec FileCache FileRead FileEdit.

#[local] Open Scope string_scope.

Section Notebook.
Context `{J : Json} {W : DiskOps} (io_error : string).
(** [to_string_pretty], and the text of a JSON error. *)
Context (pretty : Value -> option string) (json_error : string -> string).

(** ** Cells

    [None] is a panic: indexing a value that is no object. *)

Definition no_cells : ToolError := ExecutionFailed "Invalid notebook: missing cells array".

(** [get_cells_mut]: indexing adds a missing key. *)
Definition get_cells (nb : Value) : option (result (list Value) ToolError) :=
  match json_get nb "cells" with
  | Some v => Some (match as_array v with Some cells => Ok cells | None => Err no_cells end)
  | None => match json_insert nb "cells" json_null with Some _ => Some (Err no_cells) | None => None end
  end.

Definition out_of_range (what : string) (i : Z) (dots : string) (n : nat) : ToolError :=
  ExecutionFailed (what +:+ " " +:+ show_nat (Z.to_nat i) +:+ " out of range (0" +:+ dots +:+ show_nat n +:+ ")").

Definition new_cell (cell_type : string) (source : Value) : Value :=
  json_object ([("cell_type", json_string cell_type); ("source", source); ("metadata", json_object [])] ++
               if String.eqb cell_type "code" then [("outputs", json_array []); ("execution_count", json_null)] else [])%list.

(** [Vec::insert]. *)
Definition insert_at {A} (i : nat) (x : A) (l : list A) : list A := (take i l ++ x :: drop i l)%list.

Definition insert_cell (i : Z) (cell_type : string) (source : Value) (cells : list Value) : option (result (list Value) ToolError) :=
  Some (if Z.ltb (Z.of_nat (length cells)) i then Err (out_of_range "cell_index" i "..=" (length cells))
        else Ok (insert_at (Z.to_nat i) (new_cell cell_type source) cells)).

Definition replace_cell (i : Z) (source : Value) (cells : list Value) : option (result (list Value) ToolError) :=
  match (if Z.ltb i (Z.of_nat (length cells)) then cells !! Z.to_nat i else None) with
  | None => Some (Err (out_of_range "cell_index" i ".." (length cells)))
  | Some cell => cell ← json_insert cell "source" source; Some (Ok (<[Z.to_nat i := cell]> cells))
  end.

Definition delete_cell (i : Z) (cells : list Value) : option (result (list Value) ToolError) :=
  Some (if Z.leb (Z.of_nat (length cells)) i then Err (out_of_range "cell_index" i ".." (length cells))
        else Ok (remove_at (Z.to_nat i) cells)).

Definition move_cell (from to : Z) (cells : list Value) : option (result (list Value) ToolError) :=
  if Z.leb (Z.of_nat (length cells)) from then Some (Err (out_of_range "from_index" from ".." (length cells)))
  else if Z.ltb (Z.of_nat (length cells)) to then Some (Err (out_of_range "to_index" to "..=" (length cells)))
  else match cells !! Z.to_nat from with
       | None => None
       | Some cell =>
           let at_ := if Z.ltb from to then (to - 1)%Z else to in
           Some (Ok (insert_at (Z.to_nat at_) cell (remove_at (Z.to_nat from) cells)))
       end.

(** Editing the cells of a notebook in place. *)
Definition edit_cells (f : list Value -> option (result (list Value) ToolError)) (nb : Value) : option (result Value ToolError) :=
  match get_cells nb with
  | None => None
  | Some (Err e) => Some (Err e)
  | Some (Ok cells) =>
      match f cells with
      | None => None
      | Some (Err e) => Some (Err e)
      | Some (Ok cells) => nb ← json_insert nb "cells" (json_array cells); Some (Ok nb)
      end
  end.

Definition index_field (v : Value) (key : string) : option Z := json_get v key ≫= as_u64.

Definition missing (text : string) : option (result Value ToolError) := Some (Err (ExecutionFailed ("Missing " +:+ text))).

(** The operation named in the input. *)
Definition edit_notebook (operation : string) (input : Value) (nb : Value) : option (result Value ToolError) :=
  let source := default (json_array []) (json_get input "source") in
  if String.eqb operation "insert_cell" then
    match index_field input "cell_index" with
    | Some i => edit_cells (insert_cell i (default "code" (str_field input "cell_type")) source) nb
    | None => missing "'cell_index'"
    end
  else if String.eqb operation "replace_cell" then
    match index_field input "cell_index" with Some i => edit_cells (replace_cell i source) nb | None => missing "'cell_index'" end
  else if String.eqb operation "delete_cell" then
    match index_field input "cell_index" with Some i => edit_cells (delete_cell i) nb | None => missing "'cell_index'" end
  else if String.eqb operation "move_cell" then
    match index_field input "cell_index", index_field input "to_index" with
    | Some i, Some j => edit_cells (move_cell i j) nb
    | None, _ => missing "'cell_index' (from)"
    | _, None => missing "'to_index'"
    end
  else Some (Err (ExecutionFailed ("Unknown operation: " +:+ operation))).

Definition cell_count (nb : Value) : nat :=
  match json_get nb "cells" ≫= as_array with Some l => length l | None => 0%nat end.

Definition notebook_too_large : string := "Notebook exceeds the " +:+ show_nat (Z.to_nat MAX_FILE_BYTES) +:+ " byte safety limit".

(** [NotebookEditTool::call]; [None] is a panic. *)
Definition notebook_edit (d : Disk) (cwd : Path) (granted : list Path) (input : Value) :
    option (result ToolResult ToolError) * Disk :=
  let stop e := (Some (Err (ExecutionFailed e)), d) in
  match str_field input "notebook_path" with
  | None => stop "Missing 'notebook_path'"
  | Some path =>
      match resolve_and_validate_path (fs := disk_fs d) path cwd granted with
      | Err e => stop (resolve_message path e)
      | Ok p =>
          match file_len d p with
          | None => stop ("Failed to inspect notebook: " +:+ io_error)
          | Some size =>
              if Z.ltb MAX_FILE_BYTES size then stop notebook_too_large
              else match str_field input "operation" with
                   | None => stop "Missing 'operation'"
                   | Some operation =>
                       match contents d p with
                       | None => stop ("Failed to read notebook: " +:+ io_error)
                       | Some text =>
                           match json_parse text with
                           | None => stop ("Invalid notebook JSON: " +:+ json_error text)
                           | Some nb =>
                               match edit_notebook operation input nb with
                               | None => (None, d)
                               | Some (Err e) => (Some (Err e), d)
                               | Some (Ok nb) =>
                                   match pretty nb with
                                   | None => stop ("Failed to serialize: " +:+ io_error)
                                   | Some out =>
                                       let '(d, ok) := write_file d p out in
                                       (Some (if ok then
                                          Ok (mkToolResult (json_object [("success", json_bool true); ("operation", json_string operation);
                                                                         ("cell_count", json_int (Z.of_nat (cell_count nb)))]) false)
                                        else Err (ExecutionFailed ("Failed to write notebook: " +:+ io_error))), d)
                                   end
                               end
                           end
                       end
                   end
          end
      end
  end.

(** ** The to-do list *)

Record TodoItem := mkTodo { todo_text : string; todo_completed : bool; todo_priority : string; todo_created : string }.

Definition todo_value (i : TodoItem) : Value :=
  json_object [("text", json_string (todo_text i)); ("completed", json_bool (todo_completed i));
               ("priority", json_string (todo_priority i)); ("created_at", json_string (todo_created i))].

Definition todo_of (v : Value) : option TodoItem :=
  t ← str_field v "text"; c ← json_get v "completed" ≫= as_bool; p ← str_field v "priority"; a ← str_field v "created_at";
  Some (mkTodo t c p a).

Definition todo_list_value (l : list TodoItem) : Value := json_array (todo_value <$> l).
Definition todo_list_of (v : Value) : option (list TodoItem) := as_array v ≫= mapM todo_of.

Definition todo_dir (cwd : Path) : Path := join cwd [Normal ".baoclaw"].
Definition todo_path (cwd : Path) : Path := join (todo_dir cwd) [Normal "todo.json"].

(** A corrupt file is an error, not an empty list. *)
Definition load_todos (d : Disk) (cwd : Path) : result (list TodoItem) ToolError :=
  let p := todo_path cwd in
  if @path_exists (disk_fs d) p then
    match contents d p with
    | None => Err (ExecutionFailed ("Failed to read todo.json: " +:+ io_error))
    | Some text =>
        match json_parse text ≫= todo_list_of with
        | Some items => Ok items
        | None => Err (ExecutionFailed ("todo.json is corrupted (" +:+ json_error text +:+ "). Repair or remove " +:+ join_slash p +:+
                                        " before using the todo tool."))
        end
    end
  else Ok [].

(** A number, or a text that reads as one. *)
Definition todo_index (input : Value) : option Z :=
  v ← json_get input "index";
  match as_u64 v with Some n => Some n | None => as_str v ≫= parse_uint u64_max end.

Definition todo_answer (key : string) (v : Value) (n : nat) : Value := json_object [(key, v); ("total", json_int (Z.of_nat n))].

(** The list after an operation, with the answer. *)
Definition todo_apply (now : string) (operation : string) (input : Value) (items : list TodoItem) :
    result (Value * list TodoItem) ToolError :=
  let indexed name (f : nat -> TodoItem -> Value * list TodoItem) :=
    match todo_index input with
    | None => Err (ExecutionFailed ("Missing 'index' for " +:+ name +:+ " operation"))
    | Some i =>
        match (if Z.ltb i (Z.of_nat (length items)) then items !! Z.to_nat i else None) with
        | None => Err (out_of_range "index" i ".." (length items))
        | Some item => Ok (f (Z.to_nat i) item)
        end
    end in
  if String.eqb operation "add" then
    match str_field input "text" with
    | None => Err (ExecutionFailed "Missing 'text' for add operation")
    | Some text =>
        let item := mkTodo text false (default "medium" (str_field input "priority")) now in
        let items := (items ++ [item])%list in
        Ok (todo_answer "added" (todo_value item) (length items), items)
    end
  else if String.eqb operation "complete" then
    indexed "complete" (fun i item =>
      let item := mkTodo (todo_text item) true (todo_priority item) (todo_created item) in
      (todo_answer "completed" (todo_value item) (length items), <[i := item]> items))
  else if String.eqb operation "remove" then
    indexed "remove" (fun i item => (todo_answer "removed" (todo_value item) (length items - 1), remove_at i items))
  else if String.eqb operation "list" then Ok (todo_answer "items" (todo_list_value items) (length items), items)
  else Err (ExecutionFailed ("Unknown operation: " +:+ operation)).

(** [TodoWriteTool::call]. *)
Definition todo_call (d : Disk) (now : string) (cwd : Path) (input : Value) : result ToolResult ToolError * Disk :=
  match str_field input "operation" with
  | None => (Err (ExecutionFailed "Missing 'operation'"), d)
  | Some operation =>
      match load_todos d cwd with
      | Err e => (Err e, d)
      | Ok items =>
          match todo_apply now operation input items with
          | Err e => (Err e, d)
          | Ok (answer, items) =>
              if String.eqb operation "list" then (Ok (mkToolResult answer false), d)
              else
                let '(d, made) := create_dir_all d (todo_dir cwd) in
                if made then
                  match pretty (todo_list_value items) with
                  | None => (Err (ExecutionFailed ("Failed to serialize: " +:+ io_error)), d)
                  | Some text =>
                      let '(d, ok) := write_file d (todo_path cwd) text in
                      (if ok then Ok (mkToolResult answer false)
                       else Err (ExecutionFailed ("Failed to write todo.json: " +:+ io_error)), d)
                  end
                else (Err (ExecutionFailed ("Failed to create .baoclaw dir: " +:+ io_error)), d)
          end
      end
  end.
End Notebook.

(** ** What the operations do *)

#[local] Open Scope list_scope.

Lemma remove_insert_at {A} (i : nat) (x : A) (l : list A) : (i <= length l)%nat -> remove_at i (insert_at i x l) = l.
Proof.
  intros Hi. unfold remove_at, insert_at. rewrite take_app_length' by (rewrite length_take; lia).
  rewrite cons_middle, (assoc_L (++)), drop_app_length' by (rewrite length_app, length_take; simpl; lia). apply take_drop.
Qed.

Lemma lookup_insert_at {A} (i : nat) (x : A) (l : list A) : (i <= length l)%nat -> insert_at i x l !! i = Some x.
Proof. intros Hi. unfold insert_at. rewrite lookup_app_r by (rewrite length_take; lia). rewrite length_take. by replace (i - _)%nat with 0%nat by lia. Qed.

Lemma insert_at_perm {A} (i : nat) (x : A) (l : list A) : insert_at i x l ≡ₚ x :: l.
Proof. unfold insert_at. rewrite <- Permutation_middle. by rewrite take_drop. Qed.

Section NotebookLaws.
Context `{J : Json} {JL : JsonLaws} {W : DiskOps} {DL : DiskLaws} (io_error : string).
Context (pretty : Value -> option string) (json_error : string -> string).

(** Moving a cell within the bounds keeps all cells and the order of the
    others, and puts it at the target, or one place before it when it moves
    towards the end; outside the bounds it is refused. *)
Theorem moved_cell (from to : Z) (cells : list Value) (H0 : (0 <= from)%Z) (H1 : (0 <= to)%Z) :
  match move_cell from to cells with
  | None => False
  | Some (Err _) => (Z.of_nat (length cells) <= from \/ Z.of_nat (length cells) < to)%Z
  | Some (Ok cells') =>
      let at_ := Z.to_nat (if Z.ltb from to then to - 1 else to) in
      cells' ≡ₚ cells /\ cells' !! at_ = cells !! Z.to_nat from /\ remove_at at_ cells' = remove_at (Z.to_nat from) cells
  end.
Proof.
  unfold move_cell. destruct (Z.leb_spec (Z.of_nat (length cells)) from) as [|Hf]; [by left|].
  destruct (Z.ltb_spec (Z.of_nat (length cells)) to) as [|Ht]; [by right|].
  destruct (lookup_lt_is_Some_2 cells (Z.to_nat from)) as [cell Hc]; [lia|]. rewrite Hc. cbv beta iota zeta.
  set (at_ := Z.to_nat (if Z.ltb from to then (to - 1)%Z else to)).
  assert (Ha : (at_ <= length (remove_at (Z.to_nat from) cells))%nat).
  { rewrite remove_at_length by lia. unfold at_. destruct (Z.ltb_spec from to); lia. }
  split_and!; [|by apply lookup_insert_at|by apply remove_insert_at].
  rewrite insert_at_perm. symmetry. by apply remove_at_perm.
Qed.

(** An edit of the cells changes the cells and nothing else of the notebook. *)
Lemma edit_cells_frame f nb v cells cells' :
  json_get nb "cells" = Some v -> as_array v = Some cells -> f cells = Some (Ok cells') ->
  exists nb', edit_cells f nb = Some (Ok nb') /\ json_get nb' "cells" ≫= as_array = Some cells' /\
    forall k, k <> "cells" -> json_get nb' k = json_get nb k.
Proof.
  intros Hn Hv Hf. unfold edit_cells, get_cells. rewrite Hn, Hv, Hf.
  destruct (is_some_true _ (insert_some nb "cells" (json_array cells') v Hn)) as [nb' Hi]. rewrite Hi. exists nb'.
  pose proof (insert_get _ _ _ _ Hi) as Hg. split_and!; [done| |].
  - rewrite Hg, String.eqb_refl. cbn. apply as_array_array.
  - intros k Hk. rewrite Hg. by destruct (String.eqb_spec k "cells").
Qed.

(** ** The list and its file *)

Lemma todo_of_value i : todo_of (todo_value i) = Some i.
Proof.
  unfold todo_of, todo_value, str_field. rewrite !json_get_object by (apply (bool_decide_unpack _); vm_compute; exact I).
  cbn. rewrite !as_str_string. cbn. rewrite as_bool_bool. by destruct i.
Qed.

Lemma todo_list_of_value l : todo_list_of (todo_list_value l) = Some l.
Proof.
  unfold todo_list_of, todo_list_value. rewrite as_array_array. apply mapM_fmap_Some. apply todo_of_value.
Qed.

Context (pretty_parse : forall l s, pretty (todo_list_value l) = Some s -> json_parse s = Some (todo_list_value l)).

(** The file of the to-do list is the list: a call whose operation makes
    sense answers it from the list the file holds and leaves the new list in
    the file; a call that is refused, or only lists, leaves the disk alone;
    only a failing write can spoil the file. *)
Theorem todo_file_is_list (d : Disk) (now : string) (cwd : Path) (input : Value) (operation : string) (items : list TodoItem)
    (Hop : str_field input "operation" = Some operation) (Hl : load_todos io_error json_error d cwd = Ok items) :
  let '(r, d') := todo_call io_error pretty json_error d now cwd input in
  match todo_apply now operation input items with
  | Err e => r = Err e /\ d' = d
  | Ok (answer, items') =>
      match r with
      | Ok res => res = mkToolResult answer false /\ load_todos io_error json_error d' cwd = Ok items'
      | Err _ => operation <> "list"
      end
  end.
Proof.
  unfold todo_call. rewrite Hop, Hl. destruct (todo_apply now operation input items) as [[answer items']|e] eqn:Ha; [|done].
  destruct (String.eqb_spec operation "list") as [->|Hne].
  { split; [done|]. rewrite Hl. by injection Ha as _ <-. }
  destruct (create_dir_all d (todo_dir cwd)) as [d1 [|]]; [|done].
  destruct (pretty (todo_list_value items')) as [text|] eqn:Hp; [|done].
  pose proof (write_done d1 (todo_path cwd) text) as Hd. pose proof (write_exists d1 (todo_path cwd) text) as He.
  destruct (write_file d1 (todo_path cwd) text) as [d2 [|]]; cbn [fst snd] in *; [|done]. split; [done|].
  unfold load_todos. rewrite He, Hd by done. rewrite (pretty_parse _ _ Hp). cbn [mbind option_bind]. by rewrite todo_list_of_value.
Qed.
End NotebookLaws.

(** ** On concrete values *)

Section Demo.
#[local] Existing Instances flat_json flat_json_laws.

Definition cells_demo : list Value := (FStr <$> ["a"; "b"; "c"]) : list flat.

(** Moving a cell to the next index leaves everything in place. *)
Example move_to_next_is_nothing : move_cell 0 1 cells_demo = Some (Ok cells_demo).
Proof. reflexivity. Qed.

Example move_past_the_next : move_cell 0 2 cells_demo = Some (Ok ((FStr <$> ["b"; "a"; "c"]) : list flat)).
Proof. reflexivity. Qed.

(** A notebook that is a list makes the tool panic. *)
Example list_notebook_panics : edit_notebook "delete_cell" (FObj [("cell_index", FInt 0)]) (FArr []) = None.
Proof. reflexivity. Qed.
End Demo.
