(* ===== verification/Spec.v ===== *)
(** * Spec: feature specifications and their task lists ([engine/spec_engine.rs])

    A feature has three documents and a configuration; the tasks are a Markdown
    list of checkboxes, read to a tree, changed and written again.  Texts are
    bytes.  The decimal digits of the regular expressions are an argument,
    since [\d] stands for those of every script. *)

From stdpp Require Import base gmap strings list.
From Stdlib Require Import ZArith Lia.
From S2P Require Import Prelude Text TextProofs Json Paths FileCache FileEdit.

#[local] Open Scope string_scope.
#[local] Open Scope nat_scope.

Abbreviation text := (list byte).

Inductive TaskStatus := NotStarted | InProgress | Completed.

#[export] Instance TaskStatus_eq_dec : EqDecision TaskStatus.
Proof. solve_decision. Defined.

#[warnings="-register-all"]
Inductive TaskItem := mkItem (id description : text) (status : TaskStatus) (requirement_ref : option string) (children : list TaskItem).

Definition item_id (t : TaskItem) : text := let '(mkItem i _ _ _ _) := t in i.
Definition description (t : TaskItem) : text := let '(mkItem _ d _ _ _) := t in d.
Definition status (t : TaskItem) : TaskStatus := let '(mkItem _ _ s _ _) := t in s.
Definition requirement_ref (t : TaskItem) : option string := let '(mkItem _ _ _ r _) := t in r.
Definition children (t : TaskItem) : list TaskItem := let '(mkItem _ _ _ _ c) := t in c.
Definition with_children (c : list TaskItem) (t : TaskItem) : TaskItem := let '(mkItem i d s r _) := t in mkItem i d s r c.
Definition with_status (s : TaskStatus) (t : TaskItem) : TaskItem := let '(mkItem i d _ r c) := t in mkItem i d s r c.

Record TaskDocument := mkDoc { preamble : text; doc_tasks : list TaskItem; postamble : text }.

Record TaskProgress := mkProgress { total : nat; done_count : nat; in_progress : nat }.

(** ** The regular expressions *)

(** The longest run of characters of a class, and what follows. *)
Fixpoint run (cs : list text) (fuel : nat) (l : text) : list text * text :=
  match fuel with
  | O => ([], l)
  | S fuel =>
      match strip_any cs l with
      | Some r => let '(ys, r') := run cs fuel r in (take (length l - length r) l :: ys, r')
      | None => ([], l)
      end
  end.

Definition white_run (l : text) : list text * text := run whitespace (length l) l.

(** [\s+(.+)$]: all the white space, but one character when nothing follows. *)
Definition after_white (l : text) : option text :=
  match white_run l with
  | ([], _) => None
  | (ys, []) => match ys with [_] => None | _ => last ys end
  | (_, r) => Some r
  end.

Definition dash : byte := Ascii.ascii_of_nat 45.
Definition cross : byte := Ascii.ascii_of_nat 120.
Definition star : byte := Ascii.ascii_of_nat 42.
Definition space : byte := Ascii.ascii_of_nat 32.
Definition period : byte := Ascii.ascii_of_nat 46.
Definition underscore : byte := Ascii.ascii_of_nat 95.

Definition status_of_char (c : byte) : option TaskStatus :=
  if Ascii.eqb c cross then Some Completed else if Ascii.eqb c dash then Some InProgress
  else if Ascii.eqb c space then Some NotStarted else None.

Definition skip_star (r : text) : text := match r with b :: r' => if Ascii.eqb b star then r' else r | [] => r end.

(** A line with a checkbox ([get_checkbox_re]): white space, a dash, the box, an
    optional star, white space, the text. *)
Definition checkbox (line : text) : option (nat * TaskStatus * text) :=
  let '(ws, r) := white_run line in
  r ← strip (bytes_of "- [") r;
  match r with
  | [] => None
  | c :: r =>
      s ← status_of_char c;
      r ← strip (bytes_of "]") r;
      raw ← after_white (skip_star r);
      Some (length (concat ws), s, raw)
  end.

(** What [get_req_re] captures where the match begins, trimmed. *)
Definition requirement_words : list text :=
  [utf8 [233; 156; 128; 230; 177; 130]; bytes_of "Requirements"; bytes_of "Requirement"].

Definition match_requirement (l : text) : option string :=
  r ← strip [underscore] l;
  r ← strip_any ((fun w => w ++ bytes_of ":")%list <$> requirement_words) r;
  let body := take_until (Ascii.eqb underscore) r in
  if (Nat.ltb 0 (length body) && Nat.ltb (length body) (length r))%bool then Some (trim (string_of body)) else None.

(** The first place that matches. *)
Fixpoint extract_requirement_ref (l : text) : option string :=
  match match_requirement l with
  | Some r => Some r
  | None => match l with [] => None | _ :: l => extract_requirement_ref l end
  end.

Section Parse.
Context (digit_chars : list text).

(** Groups of a period and digits. *)
Fixpoint dotted (fuel : nat) (l : text) : text * text :=
  match fuel, strip [period] l with
  | S fuel, Some r =>
      match run digit_chars (length r) r with
      | ([], _) => ([], l)
      | (ds, r) => let '(more, r) := dotted fuel r in (period :: concat ds ++ more, r)%list
      end
  | _, _ => ([], l)
  end.

(** [get_id_re]: digits, groups, white space, the text. *)
Definition id_prefix (raw : text) : option (text * text) :=
  match run digit_chars (length raw) raw with
  | ([], _) => None
  | (ds, r) => let '(more, r) := dotted (length r) r in Some (concat ds ++ more, r)%list
  end.

Definition match_id (raw : text) : option (text * text) :=
  '(id, r) ← id_prefix raw; desc ← after_white r; Some (id, desc).

Definition extract_id_and_desc (raw : text) : text * text := default ([], raw) (match_id raw).

(** ** [TaskTracker::parse] *)

(** A line with its indentation and its task. *)
Definition read_line (line : text) : option (nat * TaskItem) :=
  '(indent, s, raw) ← checkbox line;
  let '(id, desc) := extract_id_and_desc raw in
  Some (indent, mkItem id desc s (extract_requirement_ref raw) []).

Definition is_checkbox (line : text) : bool := is_some (checkbox line).

(** [None] is a panic of an index. *)
Fixpoint add_child_at_path (item : TaskItem) (path : list nat) (tasks : list TaskItem) : option (nat * list TaskItem) :=
  match path with
  | [] => Some (length tasks, tasks ++ [item])%list
  | i :: path =>
      t ← tasks !! i;
      '(k, cs) ← add_child_at_path item path (children t);
      Some (k, <[i := with_children cs t]> tasks)
  end.

Abbreviation Stack := (list (nat * list nat)).

(** Tasks on the stack that are not indented less cannot be the parent. *)
Fixpoint pop_to (indent : nat) (stack : Stack) : Stack :=
  match stack with
  | (i, p) :: rest => if Nat.leb indent i then pop_to indent rest else stack
  | [] => []
  end.

Definition top_level (indent : nat) (item : TaskItem) (tasks : list TaskItem) : list TaskItem * Stack :=
  (tasks ++ [item], [(indent, [length tasks])])%list.

Definition place (indent : nat) (item : TaskItem) (tasks : list TaskItem) (stack : Stack) : option (list TaskItem * Stack) :=
  if Nat.eqb indent 0 then Some (top_level indent item tasks)
  else match pop_to indent stack with
       | [] => Some (top_level indent item tasks)
       | (i, path) :: rest =>
           '(k, tasks) ← add_child_at_path item path tasks;
           Some (tasks, (indent, path ++ [k])%list :: (i, path) :: rest)
       end.

Definition blank (line : text) : bool := match bytes_of (trim (string_of line)) with [] => true | _ => false end.

(** The lines before the first task, the tasks, and what follows a blank line
    behind the last; other lines among the tasks are dropped. *)
Fixpoint parse_lines (pre : text) (in_tasks : bool) (tasks : list TaskItem) (stack : Stack) (ls : list text) : option TaskDocument :=
  match ls with
  | [] => Some (mkDoc pre tasks [])
  | line :: rest =>
      match read_line line with
      | Some (indent, item) => '(tasks, stack) ← place indent item tasks stack; parse_lines pre true tasks stack rest
      | None =>
          if in_tasks then
            if (blank line && negb (existsb is_checkbox rest))%bool then Some (mkDoc pre tasks (unlines ls))
            else parse_lines pre true tasks stack rest
          else parse_lines (pre ++ line ++ [LF])%list false tasks stack rest
      end
  end.

Definition parse (content : text) : option TaskDocument := parse_lines [] false [] [] (lines content).

(** ** [TaskTracker::serialize] *)

Definition status_char (s : TaskStatus) : byte := match s with NotStarted => space | InProgress => dash | Completed => cross end.

(** The line of one task. *)
Definition task_line (depth : nat) (t : TaskItem) : text :=
  (replicate (2 * depth) space ++ bytes_of "- [" ++ status_char (status t) :: bytes_of "] " ++
   match item_id t with [] => [] | id => id ++ [space] end ++ description t)%list.

Fixpoint serialize_task (depth : nat) (t : TaskItem) : text :=
  (task_line depth t ++ [LF] ++ (fix go l := match l with [] => [] | c :: l => serialize_task (S depth) c ++ go l end) (children t))%list.

Definition serialize (d : TaskDocument) : text :=
  (preamble d ++ concat (serialize_task 0 <$> doc_tasks d) ++ postamble d)%list.

(** ** Operations on the tree *)

(** The first task with the identifier, parents before children. *)
Fixpoint update_task (id : text) (s : TaskStatus) (t : TaskItem) : option TaskItem :=
  if bool_decide (item_id t = id) then Some (with_status s t)
  else (fun cs => with_children cs t) <$>
       (fix go l := match l with
                    | [] => None
                    | c :: l => match update_task id s c with
                                | Some c => Some (c :: l)
                                | None => cons c <$> go l
                                end
                    end) (children t).

Fixpoint update_status_recursive (id : text) (s : TaskStatus) (l : list TaskItem) : option (list TaskItem) :=
  match l with
  | [] => None
  | t :: l => match update_task id s t with Some t => Some (t :: l) | None => cons t <$> update_status_recursive id s l end
  end.

Definition is_completed (t : TaskItem) : bool := bool_decide (status t = Completed).

Fixpoint auto_complete (t : TaskItem) : TaskItem :=
  match children t with
  | [] => t
  | cs => let cs := auto_complete <$> cs in
          let t := with_children cs t in
          if forallb is_completed cs then with_status Completed t else t
  end.

(** The leaves, in the order of the document. *)
Fixpoint find_next (t : TaskItem) : option TaskItem :=
  match children t with
  | [] => if bool_decide (status t = NotStarted) then Some t else None
  | cs => (fix go l := match l with [] => None | c :: l => match find_next c with Some t => Some t | None => go l end end) cs
  end.

Fixpoint find_next_pending (l : list TaskItem) : option TaskItem :=
  match l with [] => None | t :: l => match find_next t with Some t => Some t | None => find_next_pending l end end.

Fixpoint count_task (p : TaskProgress) (t : TaskItem) : TaskProgress :=
  match children t with
  | [] => mkProgress (S (total p)) (done_count p + if bool_decide (status t = Completed) then 1 else 0)
                     (in_progress p + if bool_decide (status t = InProgress) then 1 else 0)
  | cs => (fix go p l := match l with [] => p | c :: l => go (count_task p c) l end) p cs
  end.

Definition progress (d : TaskDocument) : TaskProgress := foldl count_task (mkProgress 0 0 0) (doc_tasks d).
Definition next_pending (d : TaskDocument) : option TaskItem := find_next_pending (doc_tasks d).
Definition auto_complete_parents (d : TaskDocument) : TaskDocument :=
  mkDoc (preamble d) (auto_complete <$> doc_tasks d) (postamble d).
Definition update_status (id : text) (s : TaskStatus) (d : TaskDocument) : option TaskDocument :=
  (fun l => mkDoc (preamble d) l (postamble d)) <$> update_status_recursive id s (doc_tasks d).
End Parse.

(** ** The documents of a feature: [SpecStore], [SpecEngine] *)

Inductive SpecWorkflow := RequirementsFirst | DesignFirst.
Inductive SpecPhase := Requirements | RequirementsComplete | Design | DesignComplete | Tasks | TasksComplete.
Inductive SpecType := Feature | Bugfix.

Record SpecConfig := mkConfig { workflow : SpecWorkflow; phase : SpecPhase; spec_type : SpecType; created_at : string; updated_at : string }.
Record SpecSummary := mkSummary { feature_name : string; summary_config : SpecConfig; task_progress : TaskProgress }.

Inductive SpecError :=
| NotFound (what : string)
| AlreadyExists (what : string)
| TaskNotFound (what : text)
| PhaseNotAvailable (name : string) (current : SpecPhase)
| SpecIo
| ConfigError.

Definition workflow_name (w : SpecWorkflow) : string := match w with RequirementsFirst => "requirements_first" | DesignFirst => "design_first" end.
Definition phase_name (p : SpecPhase) : string :=
  match p with
  | Requirements => "requirements" | RequirementsComplete => "requirements_complete" | Design => "design"
  | DesignComplete => "design_complete" | Tasks => "tasks" | TasksComplete => "tasks_complete"
  end.
Definition type_name (t : SpecType) : string := match t with Feature => "feature" | Bugfix => "bugfix" end.

(** The variant with a name. *)
Definition named {A} (name : A -> string) (l : list A) (s : string) : option A := List.find (fun x => String.eqb (name x) s) l.
Definition workflow_of : string -> option SpecWorkflow := named workflow_name [RequirementsFirst; DesignFirst].
Definition phase_of : string -> option SpecPhase :=
  named phase_name [Requirements; RequirementsComplete; Design; DesignComplete; Tasks; TasksComplete].
Definition type_of : string -> option SpecType := named type_name [Feature; Bugfix].

Definition base_dir (cwd : Path) : Path := join (join cwd [Normal ".baoclaw"]) [Normal "specs"].
Definition spec_dir (cwd : Path) (feature : string) : Path := join (base_dir cwd) (components feature).
Definition config_path (cwd : Path) (feature : string) : Path := join (spec_dir cwd feature) [Normal ".config.json"].
Definition doc_path (cwd : Path) (feature file : string) : Path := join (spec_dir cwd feature) (components file).

(** The file of a phase. *)
Definition phase_file (name : string) : option string :=
  if String.eqb name "requirements" then Some "requirements.md" else if String.eqb name "design" then Some "design.md"
  else if String.eqb name "tasks" then Some "tasks.md" else None.

Section Store.
Context `{J : Json} {W : DiskOps} (pretty : Value -> option string) (digit_chars : list text).

Definition config_value (c : SpecConfig) : Value :=
  json_object [("workflow", json_string (workflow_name (workflow c))); ("phase", json_string (phase_name (phase c)));
               ("spec_type", json_string (type_name (spec_type c))); ("created_at", json_string (created_at c));
               ("updated_at", json_string (updated_at c))].

Definition config_of (v : Value) : option SpecConfig :=
  w ← str_field v "workflow" ≫= workflow_of; p ← str_field v "phase" ≫= phase_of; t ← str_field v "spec_type" ≫= type_of;
  c ← str_field v "created_at"; u ← str_field v "updated_at"; Some (mkConfig w p t c u).

Definition spec_exists (d : Disk) (cwd : Path) (feature : string) : bool := @path_exists (disk_fs d) (config_path cwd feature).

Definition read_config (d : Disk) (cwd : Path) (feature : string) : result SpecConfig SpecError :=
  if negb (spec_exists d cwd feature) then Err (NotFound feature)
  else match contents d (config_path cwd feature) with
       | None => Err SpecIo
       | Some s => match json_parse s ≫= config_of with Some c => Ok c | None => Err ConfigError end
       end.

(** Writing a file of a feature, its directory first. *)
Definition write_in (d : Disk) (cwd : Path) (feature : string) (p : Path) (s : string) : result unit SpecError * Disk :=
  let '(d, made) := create_dir_all d (spec_dir cwd feature) in
  if made then let '(d, ok) := write_file d p s in (if ok then Ok tt else Err SpecIo, d) else (Err SpecIo, d).

Definition write_config (d : Disk) (cwd : Path) (feature : string) (c : SpecConfig) : result unit SpecError * Disk :=
  match pretty (config_value c) with
  | Some s => write_in d cwd feature (config_path cwd feature) s
  | None => (Err ConfigError, (create_dir_all d (spec_dir cwd feature)).1)
  end.

Definition read_doc (d : Disk) (cwd : Path) (feature file : string) : result string SpecError :=
  if negb (@path_exists (disk_fs d) (doc_path cwd feature file)) then Err (NotFound (feature +:+ "/" +:+ file))
  else match contents d (doc_path cwd feature file) with Some s => Ok s | None => Err SpecIo end.

Definition write_doc (d : Disk) (cwd : Path) (feature file content : string) : result unit SpecError * Disk :=
  write_in d cwd feature (doc_path cwd feature file) content.

Definition create_spec (d : Disk) (now : string) (cwd : Path) (feature : string) (w : SpecWorkflow) (t : SpecType) :
    result SpecConfig SpecError * Disk :=
  if spec_exists d cwd feature then (Err (AlreadyExists feature), d)
  else
    let '(d, made) := create_dir_all d (base_dir cwd) in
    if negb made then (Err SpecIo, d)
    else
      let '(d, made) := create_dir_all d (spec_dir cwd feature) in
      if negb made then (Err SpecIo, d)
      else
        let c := mkConfig w (match w with RequirementsFirst => Requirements | DesignFirst => Design end) t now now in
        let '(r, d) := write_config d cwd feature c in
        (match r with Ok _ => Ok c | Err e => Err e end, d).

(** [None] is a panic of the parser. *)
Definition get_status (d : Disk) (cwd : Path) (feature : string) : option (result TaskProgress SpecError) :=
  match read_doc d cwd feature "tasks.md" with
  | Ok content => doc ← parse digit_chars (bytes_of content); Some (Ok (progress doc))
  | Err _ => Some (Ok (mkProgress 0 0 0))
  end.

Definition get_spec (d : Disk) (cwd : Path) (feature : string) : option (result SpecSummary SpecError) :=
  match read_config d cwd feature with
  | Err e => Some (Err e)
  | Ok c => r ← get_status d cwd feature; Some (match r with Ok p => Ok (mkSummary feature c p) | Err e => Err e end)
  end.

(** The features, by name; [dirs] are the directories of the base directory. *)
Definition list_specs (d : Disk) (cwd : Path) (dirs : list string) : option (list SpecSummary) :=
  foldr (fun name acc => l ← acc;
           match read_config d cwd name with
           | Err _ => Some l
           | Ok _ => r ← get_spec d cwd name; Some (match r with Ok x => x :: l | Err _ => l end)
           end) (Some [])
    (sort_by str_leb (retain (spec_exists d cwd) dirs)).

Definition read_phase_doc (d : Disk) (cwd : Path) (feature name : string) : result string SpecError :=
  match phase_file name with
  | Some file => read_doc d cwd feature file
  | None => match read_config d cwd feature with Ok c => Err (PhaseNotAvailable name (phase c)) | Err e => Err e end
  end.

Definition write_phase_doc (d : Disk) (now : string) (cwd : Path) (feature name content : string) : result unit SpecError * Disk :=
  match phase_file name with
  | None => (match read_config d cwd feature with Ok c => Err (PhaseNotAvailable name (phase c)) | Err e => Err e end, d)
  | Some file =>
      let '(r, d) := write_doc d cwd feature file content in
      match r with
      | Err e => (Err e, d)
      | Ok _ => match read_config d cwd feature with
                | Err e => (Err e, d)
                | Ok c => write_config d cwd feature (mkConfig (workflow c) (phase c) (spec_type c) (created_at c) now)
                end
      end
  end.

Definition next_task (d : Disk) (cwd : Path) (feature : string) : option (result (option TaskItem) SpecError) :=
  match read_doc d cwd feature "tasks.md" with
  | Err e => Some (Err e)
  | Ok content => doc ← parse digit_chars (bytes_of content); Some (Ok (next_pending doc))
  end.

Definition update_task_status (d : Disk) (cwd : Path) (feature : string) (id : text) (s : TaskStatus) :
    option (result unit SpecError) * Disk :=
  match read_doc d cwd feature "tasks.md" with
  | Err e => (Some (Err e), d)
  | Ok content =>
      match parse digit_chars (bytes_of content) with
      | None => (None, d)
      | Some doc =>
          match update_status id s doc with
          | None => (Some (Err (TaskNotFound id)), d)
          | Some doc =>
              let '(r, d) := write_doc d cwd feature "tasks.md" (string_of (serialize (auto_complete_parents doc))) in
              (Some r, d)
          end
      end
  end.

(** [scm_spec_run]: the task that is asked for is not looked at. *)
Definition spec_run (d : Disk) (cwd : Path) (feature : string) (task_id : option string) : option (result (option TaskItem) SpecError) :=
  next_task d cwd feature.
End Store.
