(* ===== verification/SpecProofs.v ===== *)
(** * SpecProofs: task lists survive their file

    Reading what was written gives the same document, so that a status that is
    changed is the status that is read. *)

From stdpp Require Import base gmap strings list.
From Stdlib Require Import ZArith Lia.
From S2P Require Import Prelude Text TextProofs Json Paths FileCache FileEdit Spec.

#[local] Open Scope list_scope.
#[local] Open Scope nat_scope.

Lemma run_spec cs n l ys r : run cs n l = (ys, r) ->
  l = concat ys ++ r /\ Forall (fun y => y ∈ cs) ys /\
  (Forall (fun c => c <> []) cs -> length l <= n -> strip_any cs r = None).
Proof.
  revert l ys r. induction n as [|n IH]; intros l ys r; cbn.
  - intros [= <- <-]. split_and!; [done..|]. intros Hne Hl. destruct l; [|simpl in Hl; lia].
    destruct (strip_any cs []) as [r|] eqn:Hs; [|done]. by apply (strip_any_length cs [] r Hne) in Hs; simpl in Hs; lia.
  - destruct (strip_any cs l) as [l1|] eqn:Hs; [|intros [= <- <-]; by split_and!].
    destruct (run cs n l1) as [ys1 r1] eqn:Hr. intros [= <- <-]. destruct (IH _ _ _ Hr) as (-> & Hys & Hend).
    pose proof Hs as (c & Hc & ->)%strip_any_some. rewrite length_app.
    replace (length c + _ - _) with (length c) by lia. rewrite take_app_length. split_and!.
    + cbn. by rewrite <- (assoc_L (++)).
    + by constructor.
    + intros Hne Hl. apply Hend; [done|]. apply (strip_any_length cs _ _ Hne) in Hs.
      rewrite !length_app in *. lia.
Qed.

Lemma run_chars cs n ys r : class cs -> Forall (fun y => y ∈ cs) ys -> strip_any cs r = None -> length ys <= n ->
  run cs n (concat ys ++ r) = (ys, r).
Proof.
  intros Hcs Hys Hr. revert n. induction Hys as [|y ys Hy _ IH]; intros n Hn.
  - destruct n; cbn; [done|]. by rewrite Hr.
  - destruct n as [|n]; simpl in Hn; [lia|]. cbn. rewrite <- (assoc_L (++)), strip_any_char by done.
    rewrite IH by lia. rewrite length_app. replace (length y + _ - _) with (length y) by lia. by rewrite take_app_length.
Qed.

Lemma concat_length_le {A} (ys : list (list A)) : Forall (fun y => y <> []) ys -> length ys <= length (concat ys).
Proof. induction 1 as [|y ys Hy _ IH]; [done|]. cbn. rewrite length_app. destruct y; [done|]. simpl. lia. Qed.

Lemma run_all cs ys r : class cs -> Forall (fun y => y ∈ cs) ys -> strip_any cs r = None ->
  run cs (length (concat ys ++ r)) (concat ys ++ r) = (ys, r).
Proof.
  intros Hcs Hys Hr. apply run_chars; [done..|]. rewrite length_app. enough (length ys <= length (concat ys)) by lia.
  apply concat_length_le. destruct Hcs as [Hne _]. rewrite Forall_forall in *. intros y Hy. by apply Hne, Hys.
Qed.

(** Nothing in the list is a prefix of another member. *)
Lemma white_solid b l : solid b = true -> strip_any whitespace (b :: l) = None.
Proof. apply strip_any_solid. repeat constructor. Qed.

(** ** White space before a text *)

(** What [\s+(.+)$] captures. *)
Definition raw_ok (raw : text) : Prop := raw <> [] /\ (strip_any whitespace raw = None \/ raw ∈ whitespace).

Lemma white_run_spec l ys r : white_run l = (ys, r) ->
  l = concat ys ++ r /\ Forall (fun y => y ∈ whitespace) ys /\ strip_any whitespace r = None.
Proof.
  intros H. apply run_spec in H as (H1 & H2 & H3). split_and!; [done..|]. apply H3; [apply white_class|done].
Qed.

Lemma after_white_spec l raw : after_white l = Some raw ->
  raw_ok raw /\ exists ws, l = concat ws ++ raw /\ ws <> [] /\ Forall (fun w => w ∈ whitespace) ws.
Proof.
  unfold after_white. destruct (white_run l) as [ys r] eqn:Hr. apply white_run_spec in Hr as (-> & Hys & Hend).
  destruct ys as [|y ys]; [done|]. destruct r as [|b r].
  - destruct ys as [|y2 ys]; [done|]. intros [l' Hl]%last_Some. rewrite Hl in Hys |- *. apply Forall_app in Hys as [Hl' [Hraw _]%Forall_cons].
    split.
    + split; [|by right]. destruct white_class as [Hne _]. rewrite Forall_forall in Hne. by apply Hne.
    + exists l'. split_and!; [rewrite concat_app; cbn; by rewrite !app_nil_r|by intros ->|done].
  - intros [= <-]. split; [split; [done|by left]|]. by exists (y :: ys).
Qed.

Lemma space_white : [space] ∈ whitespace.
Proof. apply (bool_decide_unpack _). vm_compute. exact I. Qed.

Lemma after_space raw : raw_ok raw -> after_white (space :: raw) = Some raw.
Proof.
  intros [Hne [Hs|Hw]]; unfold after_white, white_run.
  - change (space :: raw) with (concat [[space]] ++ raw).
    rewrite (run_all whitespace [[space]] raw white_class); [by destruct raw|apply Forall_singleton, space_white|done].
  - assert (He : space :: raw = concat [[space]; raw] ++ []) by (cbn; by rewrite !app_nil_r).
    rewrite He, (run_all whitespace [[space]; raw] [] white_class); [done| |done].
    apply Forall_cons; split; [apply space_white|by apply Forall_singleton].
Qed.

(** ** The line of a task *)

Lemma status_char_of s : status_of_char (status_char s) = Some s.
Proof. by destruct s. Qed.

Lemma spaces_concat k : replicate k space = concat (replicate k [space]).
Proof. induction k as [|k IH]; [done|]. cbn. by rewrite IH. Qed.

(** A checkbox that is written is read. *)
Lemma checkbox_written k s raw : raw_ok raw ->
  checkbox (replicate k space ++ bytes_of "- [" ++ status_char s :: bytes_of "] " ++ raw) = Some (k, s, raw).
Proof.
  intros Hraw. unfold checkbox, white_run. rewrite spaces_concat.
  rewrite (run_all whitespace (replicate k [space]) _ white_class); [|apply Forall_replicate, space_white|by apply white_solid].
  rewrite <- spaces_concat, length_replicate. rewrite (strip_app (bytes_of "- [")). cbn [mbind option_bind].
  rewrite status_char_of. cbn [mbind option_bind]. change (bytes_of "] " ++ raw) with (bytes_of "]" ++ space :: raw). rewrite strip_app.
  cbn [mbind option_bind]. change (skip_star (space :: raw)) with (space :: raw). by rewrite after_space.
Qed.

Lemma checkbox_raw line k s raw : checkbox line = Some (k, s, raw) -> raw_ok raw /\ exists pre, line = pre ++ raw.
Proof.
  unfold checkbox. destruct (white_run line) as [ws r] eqn:Hw. apply white_run_spec in Hw as (-> & _ & _).
  destruct (strip (bytes_of "- [") r) as [r1|] eqn:H1; [|done]. apply strip_some in H1 as ->. cbn [mbind option_bind].
  destruct r1 as [|c r1]; [done|]. destruct (status_of_char c) as [s'|]; [|done]. cbn [mbind option_bind].
  destruct (strip (bytes_of "]") r1) as [r2|] eqn:H2; [|done]. apply strip_some in H2 as ->. cbn [mbind option_bind].
  assert (H3 : exists p, r2 = p ++ skip_star r2).
  { destruct r2 as [|b r']; [by exists []|]. cbn. destruct (Ascii.eqb b star); [by exists [b]|by exists []]. }
  destruct H3 as [p Hp]. destruct (after_white (skip_star r2)) as [raw'|] eqn:Ha; [|done]. cbn. intros [= <- <- <-].
  apply after_white_spec in Ha as (Hok & ws' & Ha & _). split; [done|]. rewrite Hp, Ha.
  exists (concat ws ++ bytes_of "- [" ++ c :: bytes_of "]" ++ p ++ concat ws'). by rewrite <- !(assoc_L (++)), <- app_comm_cons, <- !(assoc_L (++)).
Qed.

(** ** Requirement references *)

Lemma no_underscore_skip a l : underscore ∉ a -> extract_requirement_ref (a ++ l) = extract_requirement_ref l.
Proof.
  induction a as [|b a IH]; intros Ha; [done|]. cbn [app extract_requirement_ref].
  assert (Hm : match_requirement (b :: a ++ l) = None).
  { unfold match_requirement. cbn [strip]. destruct (Ascii.eqb_spec underscore b) as [<-|]; [by destruct Ha; left|done]. }
  rewrite Hm. apply IH. intros Hin. apply Ha. by right.
Qed.

Definition byte_in (b : byte) (c : text) : bool := existsb (Ascii.eqb b) c.

Lemma byte_in_false b c : byte_in b c = false -> b ∉ c.
Proof.
  intros Hb Hin. apply list_elem_of_In in Hin. assert (existsb (Ascii.eqb b) c = true) as He; [|unfold byte_in in Hb; congruence].
  apply existsb_exists. exists b. split; [done|apply Ascii.eqb_refl].
Qed.

Lemma white_no_underscore w : w ∈ whitespace -> underscore ∉ w.
Proof.
  intros Hw. apply byte_in_false. assert (Ha : forallb (fun w => negb (byte_in underscore w)) whitespace = true) by (vm_compute; reflexivity).
  rewrite forallb_forall in Ha. apply list_elem_of_In in Hw. by apply negb_true_iff, Ha.
Qed.

Lemma white_runs_no_underscore ws : Forall (fun w => w ∈ whitespace) ws -> underscore ∉ concat ws.
Proof.
  induction 1 as [|w ws Hw _ IH]; cbn; [by intros ?%not_elem_of_nil|]. rewrite elem_of_app. intros [H|H]; [|done].
  by apply (white_no_underscore w).
Qed.

(** ** Identifiers *)

(** What is asked of the class of digits: it holds no white space, and its
    characters do not begin with a period and hold no underscore. *)
Record digit_class (cs : list text) : Prop := mkDigits {
  digits_class : class cs;
  digits_plain : forall d, d ∈ cs -> (underscore ∉ d) /\ head d <> Some period;
  digits_black : forall d w, d ∈ cs -> w ∈ whitespace -> ~ (d `prefix_of` w) /\ ~ (w `prefix_of` d)
}.

Section Ids.
Context {digit_chars : list text} (D : digit_class digit_chars).

Lemma digit_not_white d r : d ∈ digit_chars -> strip_any whitespace (d ++ r) = None.
Proof.
  intros Hd. destruct (strip_any whitespace (d ++ r)) as [r'|] eqn:Hs; [|done].
  apply strip_any_some in Hs as (w & Hw & He). destruct (digits_black _ D d w Hd Hw) as [H1 H2].
  by destruct (app_prefix_either _ _ _ _ He).
Qed.

Lemma white_not_digit w r : w ∈ whitespace -> strip_any digit_chars (w ++ r) = None.
Proof.
  intros Hw. destruct (strip_any digit_chars (w ++ r)) as [r'|] eqn:Hs; [|done].
  apply strip_any_some in Hs as (d & Hd & He). destruct (digits_black _ D d w Hd Hw) as [H1 H2].
  by destruct (app_prefix_either _ _ _ _ He).
Qed.

Lemma period_not_digit r : strip_any digit_chars (period :: r) = None.
Proof.
  destruct (strip_any digit_chars (period :: r)) as [r'|] eqn:Hs; [|done].
  apply strip_any_some in Hs as (d & Hd & He). destruct (digits_plain _ D d Hd) as [_ Hh].
  destruct (digits_class _ D) as [Hne _]. rewrite Forall_forall in Hne. specialize (Hne d Hd). destruct d as [|b d]; [done|].
  injection He as <- _. by destruct Hh.
Qed.

Lemma digits_no_underscore ds : Forall (fun d => d ∈ digit_chars) ds -> underscore ∉ concat ds.
Proof.
  induction 1 as [|d ds Hd _ IH]; cbn; [by intros ?%not_elem_of_nil|]. rewrite elem_of_app. intros [H|H]; [|done].
  by destruct (digits_plain _ D d Hd).
Qed.

(** Text that an identifier ends in front of. *)
Definition stops (rest : text) : Prop := exists w r, w ∈ whitespace /\ rest = w ++ r.

Lemma stops_not_period rest : stops rest -> strip [period] rest = None.
Proof.
  intros (w & r & Hw & ->). destruct (strip [period] (w ++ r)) as [r'|] eqn:Hs; [|done]. apply strip_some in Hs.
  assert (strip_any whitespace (w ++ r) = None) as Hn by (rewrite Hs; by apply white_solid).
  by rewrite (strip_any_char whitespace w r white_class Hw) in Hn.
Qed.

Lemma run_digits_stable ds n l r rest :
  run digit_chars n l = (ds, r) -> strip_any digit_chars rest = None ->
  run digit_chars (length (concat ds ++ rest)) (concat ds ++ rest) = (ds, rest).
Proof. intros (_ & Hds & _)%run_spec Hr. apply run_all; [apply D|done..]. Qed.

Lemma dotted_spec n l more r : dotted digit_chars n l = (more, r) ->
  l = more ++ r /\ (underscore ∉ more) /\ (more = [] \/ (exists m, more = period :: m)) /\
  forall rest m, stops rest -> length more <= m -> dotted digit_chars m (more ++ rest) = (more, rest).
Proof.
  assert (Hnil : forall rest m, stops rest -> dotted digit_chars m ([] ++ rest) = ([], rest)).
  { intros rest [|m] Hr; cbn [dotted app]; [done|]. by rewrite stops_not_period. }
  assert (Hu : underscore ∉ ([] : text)) by by intros ?%not_elem_of_nil.
  revert l more r. induction n as [|n IH]; intros l more r; cbn [dotted]; [intros [= <- <-]; by split_and!; [..|left|auto]|].
  destruct (strip [period] l) as [l1|] eqn:Hs; [|intros [= <- <-]; by split_and!; [..|left|auto]]. apply strip_some in Hs as ->.
  destruct (run digit_chars (length l1) l1) as [[|d ds] r1] eqn:Hr; [intros [= <- <-]; by split_and!; [..|left|auto]|].
  destruct (dotted digit_chars n r1) as [more1 r2] eqn:Hd. intros [= <- <-].
  destruct (IH _ _ _ Hd) as (-> & Hu1 & Hm & Hall). pose proof (run_spec _ _ _ _ _ Hr) as (-> & Hds & _). split_and!.
  - cbn. by rewrite <- !(assoc_L (++)).
  - intros [He|[He|He]%elem_of_app]%elem_of_cons; [done| |done]. by apply (digits_no_underscore (d :: ds)).
  - right. by eexists.
  - intros rest m Hrest Hm'. destruct m as [|m]; simpl in Hm'; [lia|]. cbn [dotted app].
    rewrite <- (assoc_L (++)). change (d ++ concat ds) with (concat (d :: ds)).
    change (strip [period] (period :: concat (d :: ds) ++ more1 ++ rest)) with (Some (concat (d :: ds) ++ more1 ++ rest)). cbv beta iota.
    rewrite (run_digits_stable (d :: ds) _ _ _ (more1 ++ rest) Hr).
    2: { destruct Hm as [->|[m' ->]]; [|apply period_not_digit]. destruct Hrest as (w & r & Hw & ->). by apply (white_not_digit w). }
    rewrite Hall; [done|done|]. rewrite length_app in Hm'. lia.
Qed.

Lemma id_prefix_spec raw id r : id_prefix digit_chars raw = Some (id, r) ->
  raw = id ++ r /\ id <> [] /\ (underscore ∉ id) /\ (forall l, strip_any whitespace (id ++ l) = None) /\
  forall rest, stops rest -> id_prefix digit_chars (id ++ rest) = Some (id, rest).
Proof.
  unfold id_prefix at 1. destruct (run digit_chars (length raw) raw) as [[|d ds] r1] eqn:Hr; [done|].
  destruct (dotted digit_chars (length r1) r1) as [more r2] eqn:Hd. intros [= <- <-].
  apply dotted_spec in Hd as (-> & Hu & Hm & Hall). pose proof (run_spec _ _ _ _ _ Hr) as (-> & Hds & _).
  pose proof (proj1 (Forall_cons _ _ _) Hds) as [Hd _].
  assert (Hne : d <> []) by (destruct (digits_class _ D) as [Hne _]; rewrite Forall_forall in Hne; by apply Hne).
  split_and!.
  - by rewrite <- (assoc_L (++)).
  - cbn. by destruct d.
  - rewrite elem_of_app. intros [H|H]; [by apply (digits_no_underscore (d :: ds))|done].
  - intros l. cbn. rewrite <- !(assoc_L (++)). by apply digit_not_white.
  - intros rest Hrest. unfold id_prefix. rewrite <- (assoc_L (++)). change (d ++ concat ds) with (concat (d :: ds)). rewrite (run_digits_stable (d :: ds) _ _ _ (more ++ rest) Hr).
    2: { destruct Hm as [->|[m' ->]]; [|apply period_not_digit]. destruct Hrest as (w & r & Hw & ->). by apply (white_not_digit w). }
    rewrite Hall; [done..|]. rewrite length_app. lia.
Qed.

(** ** Tasks that are read as they are written *)

Definition leaf (t : TaskItem) : TaskItem := with_children [] t.

Definition stable (t : TaskItem) : Prop :=
  forall k s, read_line digit_chars (task_line k (with_status s t)) = Some (2 * k, leaf (with_status s t)).

(** The text behind the box: identifier and description. *)
Definition raw_of (id desc : text) : text := match id with [] => [] | id => id ++ [space] end ++ desc.

Lemma task_line_raw k t :
  task_line k t = replicate (2 * k) space ++ bytes_of "- [" ++ status_char (status t) :: bytes_of "] " ++ raw_of (item_id t) (description t).
Proof. by destruct t as [[] ? ? ? ?]. Qed.

Lemma raw_again raw id desc : raw_ok raw -> extract_id_and_desc digit_chars raw = (id, desc) ->
  raw_ok (raw_of id desc) /\ extract_id_and_desc digit_chars (raw_of id desc) = (id, desc) /\
  extract_requirement_ref (raw_of id desc) = extract_requirement_ref raw.
Proof.
  intros Hraw. unfold extract_id_and_desc. destruct (match_id digit_chars raw) as [[id' desc']|] eqn:Hm.
  2: { cbn. intros [= <- <-]. cbn. by rewrite Hm. }
  cbn. intros [= -> ->]. unfold match_id in Hm. destruct (id_prefix digit_chars raw) as [[id'' r]|] eqn:Hp; [|done]. cbn in Hm.
  destruct (after_white r) as [desc''|] eqn:Ha; [|done]. cbn in Hm. injection Hm as -> ->.
  apply id_prefix_spec in Hp as (-> & Hne & Hu & Hb & Hagain). apply after_white_spec in Ha as (Hdesc & ws & -> & _ & Hws).
  assert (Hr : raw_of id desc = id ++ space :: desc) by (unfold raw_of; destruct id; [done|by rewrite <- (assoc_L (++))]).
  rewrite Hr. split_and!.
  - split; [by destruct id|]. left. apply Hb.
  - unfold match_id. rewrite Hagain by (exists [space], desc; split; [apply space_white|done]). cbn. by rewrite after_space.
  - change (space :: desc) with ([space] ++ desc). rewrite !(assoc_L (++)), !no_underscore_skip; [done| |].
    + rewrite elem_of_app. intros [H|H]; [done|]. by apply (white_runs_no_underscore ws).
    + rewrite elem_of_app, list_elem_of_singleton. by intros [H|H].
Qed.

Lemma read_line_stable line n t : read_line digit_chars line = Some (n, t) -> stable t /\ children t = [] /\
  exists raw pre, line = pre ++ raw /\ (item_id t, description t) = extract_id_and_desc digit_chars raw.
Proof.
  unfold read_line at 1. destruct (checkbox line) as [[[indent s] raw]|] eqn:Hc; [|done]. cbn.
  destruct (extract_id_and_desc digit_chars raw) as [id desc] eqn:He. intros [= <- <-].
  apply checkbox_raw in Hc as (Hraw & pre & ->). split_and!; [|done|by exists raw, pre].
  destruct (raw_again raw id desc Hraw He) as (Hok & He' & Hreq).
  intros k s'. rewrite task_line_raw. unfold read_line. cbn [with_status status item_id description].
  rewrite checkbox_written by done. cbn. by rewrite He', Hreq.
Qed.
End Ids.

(** ** Trees *)

Lemma item_ind (P : TaskItem -> Prop) : (forall t, Forall P (children t) -> P t) -> forall t, P t.
Proof.
  intros H. fix IH 1. intros [i d s r cs]. apply H. cbn. induction cs as [|c cs IHcs]; [constructor|]. by constructor.
Qed.

(** A property of every task of a tree. *)
Fixpoint every (P : TaskItem -> Prop) (t : TaskItem) : Prop :=
  P t /\ (fix go l := match l with [] => True | c :: l => every P c /\ go l end) (children t).

Lemma every_unfold P t : every P t <-> P t /\ Forall (every P) (children t).
Proof.
  destruct t as [i d s r cs]. cbn. apply and_iff_compat_l. induction cs as [|c cs IH]; [by split|]. by rewrite Forall_cons, IH.
Qed.

(** The tasks of a tree with their depth, in the order of the document. *)
Fixpoint flatten (k : nat) (t : TaskItem) : list (nat * TaskItem) :=
  (k, t) :: (fix go l := match l with [] => [] | c :: l => flatten (S k) c ++ go l end) (children t).

Definition flatten_all (k : nat) (l : list TaskItem) : list (nat * TaskItem) := concat (flatten k <$> l).

Lemma flatten_unfold k t : flatten k t = (k, t) :: flatten_all (S k) (children t).
Proof. destruct t as [i d s r cs]. cbn. f_equal. unfold flatten_all. induction cs as [|c cs IH]; [done|]. cbn. by rewrite IH. Qed.

Lemma every_flatten P k t : every P t <-> Forall (fun e => P e.2) (flatten k t).
Proof.
  revert k. induction t as [t IH] using item_ind. intros k. rewrite every_unfold, flatten_unfold, Forall_cons. cbn.
  apply and_iff_compat_l. unfold flatten_all. induction IH as [|c cs Hc _ IHcs]; cbn; [by split|].
  by rewrite Forall_cons, Forall_app, (Hc (S k)), IHcs.
Qed.

Lemma every_flatten_all P k l : Forall (every P) l <-> Forall (fun e => P e.2) (flatten_all k l).
Proof. unfold flatten_all. induction l as [|t l IH]; cbn; [by split|]. by rewrite Forall_cons, Forall_app, (every_flatten P k), IH. Qed.

(** *** Adding children along a path *)

Fixpoint append_at (path : list nat) (cs : list TaskItem) (tasks : list TaskItem) : option (list TaskItem) :=
  match path with
  | [] => Some (tasks ++ cs)
  | i :: path => t ← tasks !! i; cs' ← append_at path cs (children t); Some (<[i := with_children cs' t]> tasks)
  end.

Lemma children_with cs t : children (with_children cs t) = cs.
Proof. by destruct t. Qed.
Lemma with_children_twice a b t : with_children a (with_children b t) = with_children a t.
Proof. by destruct t. Qed.
Lemma with_own_children t : with_children (children t) t = t.
Proof. by destruct t. Qed.

Lemma add_child_append item path tasks :
  snd <$> add_child_at_path item path tasks = append_at path [item] tasks.
Proof.
  revert tasks. induction path as [|i path IH]; intros tasks; cbn; [done|]. destruct (tasks !! i) as [t|]; [|done]. cbn.
  rewrite <- IH. by destruct (add_child_at_path item path (children t)) as [[k cs]|].
Qed.

Lemma append_at_twice path a b tasks tasks' :
  append_at path a tasks = Some tasks' -> append_at path b tasks' = append_at path (a ++ b) tasks.
Proof.
  revert tasks tasks'. induction path as [|i path IH]; intros tasks tasks'; cbn; [intros [= <-]; by rewrite <- (assoc_L (++))|].
  destruct (tasks !! i) as [t|] eqn:Hi; [|done]. cbn. destruct (append_at path a (children t)) as [cs|] eqn:Ha; [|done]. cbn. intros [= <-].
  rewrite list_lookup_insert_eq by by apply lookup_lt_Some in Hi. cbn. rewrite children_with, (IH _ _ Ha).
  destruct (append_at path (a ++ b) (children t)); [|done]. cbn. by rewrite list_insert_insert_eq, with_children_twice.
Qed.

(** Giving a new leaf its children is adding the whole task. *)
Lemma append_below path item tasks k tasks' :
  add_child_at_path (leaf item) path tasks = Some (k, tasks') ->
  append_at (path ++ [k]) (children item) tasks' = append_at path [item] tasks.
Proof.
  revert tasks tasks'. induction path as [|i path IH]; intros tasks tasks'; cbn.
  - intros [= <- <-]. rewrite lookup_app_r, Nat.sub_diag by lia. cbn.
    rewrite insert_app_r_alt, Nat.sub_diag by lia. cbn. by destruct item.
  - destruct (tasks !! i) as [t|] eqn:Hi; [|done]. cbn. destruct (add_child_at_path (leaf item) path (children t)) as [[k' cs]|] eqn:Ha; [|done].
    cbn. intros [= <- <-]. rewrite list_lookup_insert_eq by by apply lookup_lt_Some in Hi. cbn. rewrite children_with, (IH _ _ Ha).
    destruct (append_at path [item] (children t)); [|done]. cbn. by rewrite list_insert_insert_eq, with_children_twice.
Qed.

(** A path that leads to a task. *)
Definition leads_in (tasks : list TaskItem) (path : list nat) : Prop := is_Some (append_at path [] tasks).

Lemma leads_append path cs tasks : leads_in tasks path -> is_Some (append_at path cs tasks).
Proof.
  unfold leads_in. revert tasks. induction path as [|i path IH]; intros tasks; cbn; [by eexists|].
  destruct (tasks !! i) as [t|]; [|by intros []]. cbn. intros [x Hx]. destruct (IH (children t)) as [cs' Hcs].
  { by destruct (append_at path [] (children t)). }
  rewrite Hcs. by eexists.
Qed.

Lemma leads_after path q cs tasks tasks' : append_at path cs tasks = Some tasks' -> leads_in tasks q -> leads_in tasks' q.
Proof.
  unfold leads_in. revert q tasks tasks'. induction path as [|i path IH]; intros q tasks tasks'; cbn.
  - intros [= <-]. destruct q as [|j q]; cbn; [by eexists|]. destruct (tasks !! j) as [t|] eqn:Hj; [|by intros []].
    rewrite (lookup_app_l_Some _ _ _ _ Hj). cbn. destruct (append_at q [] (children t)); [by eexists|by intros []].
  - destruct (tasks !! i) as [t|] eqn:Hi; [|done]. cbn. destruct (append_at path cs (children t)) as [cs'|] eqn:Ha; [|done].
    cbn. intros [= <-]. destruct q as [|j q]; cbn; [by eexists|]. destruct (decide (i = j)) as [<-|Hne].
    + rewrite list_lookup_insert_eq by by apply lookup_lt_Some in Hi. rewrite Hi. cbn. rewrite children_with.
      destruct (append_at q [] (children t)) eqn:Hq; [|by intros []]. intros _.
      destruct (IH q (children t) cs' Ha) as [x Hx]; [by rewrite Hq|]. rewrite Hx. by eexists.
    + rewrite list_lookup_insert_ne by done. destruct (tasks !! j) as [t'|]; [|done]. cbn.
      destruct (append_at q [] (children t')); [by eexists|by intros []].
Qed.

Lemma leads_new path item tasks k tasks' : add_child_at_path item path tasks = Some (k, tasks') -> leads_in tasks' (path ++ [k]).
Proof.
  unfold leads_in. revert tasks tasks'. induction path as [|i path IH]; intros tasks tasks'; cbn.
  - intros [= <- <-]. rewrite lookup_app_r, Nat.sub_diag by lia. by eexists.
  - destruct (tasks !! i) as [t|] eqn:Hi; [|done]. cbn. destruct (add_child_at_path item path (children t)) as [[k' cs]|] eqn:Ha; [|done].
    cbn. intros [= <- <-]. rewrite list_lookup_insert_eq by by apply lookup_lt_Some in Hi. cbn. rewrite children_with.
    destruct (IH _ _ Ha) as [x Hx]. rewrite Hx. by eexists.
Qed.

(** *** Placing the lines of a tree *)

Abbreviation Stack := (list (nat * list nat)).

Fixpoint place_all (l : list (nat * TaskItem)) (tasks : list TaskItem) (stack : Stack) : option (list TaskItem * Stack) :=
  match l with
  | [] => Some (tasks, stack)
  | (n, t) :: l => '(tasks, stack) ← place n t tasks stack; place_all l tasks stack
  end.

Lemma place_all_app l m tasks stack :
  place_all (l ++ m) tasks stack = '(tasks, stack) ← place_all l tasks stack; place_all m tasks stack.
Proof. revert tasks stack. induction l as [|[n t] l IH]; intros tasks stack; [done|]. cbn. destruct (place n t tasks stack) as [[]|]; [apply IH|done]. Qed.

(** The lines of some trees as they are written. *)
Definition as_lines (k : nat) (l : list TaskItem) : list (nat * TaskItem) := (fun e => (2 * e.1, leaf e.2)) <$> flatten_all k l.

Lemma as_lines_cons k t l : as_lines k (t :: l) = (2 * k, leaf t) :: as_lines (S k) (children t) ++ as_lines k l.
Proof. unfold as_lines, flatten_all. cbn [concat fmap list_fmap]. rewrite flatten_unfold. cbn. by rewrite fmap_app. Qed.

Lemma pop_high n hi i p lo : Forall (fun e => n <= e.1) hi -> i < n -> pop_to n (hi ++ (i, p) :: lo) = (i, p) :: lo.
Proof.
  intros Hhi Hi. induction Hhi as [|[j q] hi Hj _ IH]; cbn in *.
  - destruct (Nat.leb_spec n i); [lia|done].
  - destruct (Nat.leb_spec n j); [apply IH|lia].
Qed.

(** Children of the task at [p], whatever deeper tasks the stack still holds. *)
Lemma place_children k cs : Forall (fun c => forall k hi i p lo tasks tasks',
    Forall (fun e => 2 * k <= e.1) hi -> i < 2 * k -> append_at p (children c) tasks = Some tasks' ->
    exists hi', Forall (fun e => 2 * k <= e.1) hi' /\
      place_all (as_lines k (children c)) tasks (hi ++ (i, p) :: lo) = Some (tasks', hi' ++ (i, p) :: lo)) cs ->
  forall hi i p lo tasks tasks', Forall (fun e => 2 * k <= e.1) hi -> i < 2 * k -> append_at p cs tasks = Some tasks' ->
    exists hi', Forall (fun e => 2 * k <= e.1) hi' /\
      place_all (as_lines k cs) tasks (hi ++ (i, p) :: lo) = Some (tasks', hi' ++ (i, p) :: lo).
Proof.
  induction 1 as [|c cs Hc _ IH]; intros hi i p lo tasks tasks' Hhi Hi Ha.
  - exists hi. split; [done|]. cbn. do 2 f_equal. clear -Ha. revert tasks tasks' Ha. induction p as [|j p IH]; intros tasks tasks'; cbn.
    + rewrite app_nil_r. by intros [= <-].
    + destruct (tasks !! j) as [t|] eqn:Hj; [|done]. cbn. destruct (append_at p [] (children t)) as [cs|] eqn:Hc; [|done]. cbn. intros [= <-].
      rewrite <- (IH _ _ Hc), with_own_children. by rewrite list_insert_id.
  - rewrite as_lines_cons. cbn [place_all]. unfold place. destruct (Nat.eqb_spec (2 * k) 0) as [|Hk]; [lia|].
    rewrite pop_high by done. assert (Hl : leads_in tasks p).
    { unfold leads_in. destruct (append_at p [] tasks) as [x|] eqn:Hx; [by eexists|]. exfalso. clear -Ha Hx. revert tasks tasks' Ha Hx.
      induction p as [|j p IH]; intros tasks tasks'; cbn; [done|]. destruct (tasks !! j) as [t|]; [|done]. cbn.
      destruct (append_at p (c :: cs) (children t)) as [y|] eqn:Hy; [|done]. destruct (append_at p [] (children t)) eqn:Hz; [done|]. intros _ _. by apply (IH _ _ Hy). }
    destruct (leads_append p [leaf c] tasks Hl) as [t1 Ht1]. rewrite <- add_child_append in Ht1.
    destruct (add_child_at_path (leaf c) p tasks) as [[j t1']|] eqn:Hadd; [|done]. injection Ht1 as ->. cbn [mbind option_bind].
    pose proof (append_below _ _ _ _ _ Hadd) as Hbelow. destruct (leads_append p [c] tasks Hl) as [t2 Ht2]. rewrite Ht2 in Hbelow.
    rewrite place_all_app.
    destruct (Hc (S k) [] (2 * k) (p ++ [j]) ((i, p) :: lo) t1 t2) as (hi' & Hhi' & Hp); [constructor|lia|done|].
    cbn [app] in Hp. rewrite Hp. cbn [mbind option_bind].
    destruct (IH (hi' ++ [(2 * k, p ++ [j])]) i p lo t2 tasks') as (hi2 & Hhi2 & Hp2); [|done| |].
    + apply Forall_app. split; [|by apply Forall_singleton]. eapply Forall_impl; [exact Hhi'|]. cbn. intros; lia.
    + by rewrite (append_at_twice _ _ _ _ _ Ht2).
    + rewrite <- (assoc_L (++)) in Hp2. exists hi2. by split.
Qed.

Lemma place_below c : forall k hi i p lo tasks tasks',
  Forall (fun e => 2 * k <= e.1) hi -> i < 2 * k -> append_at p (children c) tasks = Some tasks' ->
  exists hi', Forall (fun e => 2 * k <= e.1) hi' /\
    place_all (as_lines k (children c)) tasks (hi ++ (i, p) :: lo) = Some (tasks', hi' ++ (i, p) :: lo).
Proof. induction c as [c IH] using item_ind. intros k. by apply place_children. Qed.

(** The lines of a document put its tasks together again. *)
Lemma place_document l tasks stack : exists stack', place_all (as_lines 0 l) tasks stack = Some (tasks ++ l, stack').
Proof.
  revert tasks stack. induction l as [|t l IH]; intros tasks stack; [exists stack; by rewrite app_nil_r|].
  rewrite as_lines_cons. cbn [place_all]. unfold place, top_level. cbn. rewrite place_all_app.
  destruct (place_below t 1 [] 0 [length tasks] [] (tasks ++ [leaf t]) (tasks ++ [t])) as (hi & _ & Hp); [constructor|lia| |].
  - cbn. rewrite lookup_app_r, Nat.sub_diag by lia. cbn. rewrite insert_app_r_alt, Nat.sub_diag by lia. cbn. by destruct t.
  - cbn [app] in Hp. rewrite Hp. cbn. destruct (IH (tasks ++ [t]) (hi ++ [(0, [length tasks])])) as [st Hs]. exists st.
    by rewrite Hs, <- (assoc_L (++)).
Qed.

(** *** Nothing panics, and every task comes from a line *)

Definition sound (P : TaskItem -> Prop) (tasks : list TaskItem) (stack : Stack) : Prop :=
  Forall (every P) tasks /\ Forall (fun e => leads_in tasks e.2) stack.

Lemma every_append P path cs tasks tasks' :
  (forall t c, P t -> P (with_children c t)) -> append_at path cs tasks = Some tasks' ->
  Forall (every P) tasks -> Forall (every P) cs -> Forall (every P) tasks'.
Proof.
  intros HP. revert tasks tasks'. induction path as [|i path IH]; intros tasks tasks'; cbn.
  - intros [= <-] Ht Hc. by apply Forall_app.
  - destruct (tasks !! i) as [t|] eqn:Hi; [|done]. cbn. destruct (append_at path cs (children t)) as [cs'|] eqn:Ha; [|done]. cbn.
    intros [= <-] Ht Hc. apply Forall_insert; [done|].
    assert (Hev : every P t) by by apply (Forall_lookup_1 _ _ _ _ Ht Hi).
    apply every_unfold in Hev as [H1 H2]. apply every_unfold. rewrite children_with. split; [by apply HP|]. by apply (IH _ _ Ha).
Qed.

Lemma sound_pop P n tasks stack : sound P tasks stack -> sound P tasks (pop_to n stack).
Proof.
  intros [Ht Hs]. split; [done|]. induction Hs as [|[i p] stack He Hs IH]; cbn; [constructor|]. destruct (Nat.leb n i); [done|by constructor].
Qed.

Lemma place_sound P n t tasks stack :
  (forall t c, P t -> P (with_children c t)) -> P t -> children t = [] -> sound P tasks stack ->
  exists tasks' stack', place n t tasks stack = Some (tasks', stack') /\ sound P tasks' stack' /\ tasks' <> [].
Proof.
  intros HP Ht Hc Hs. assert (Hev : every P t) by (apply every_unfold; rewrite Hc; by split).
  assert (Htop : sound P (tasks ++ [t]) [(n, [length tasks])]).
  { split; [apply Forall_app; split; [apply Hs|by constructor]|]. apply Forall_singleton. unfold leads_in. cbn.
    rewrite lookup_app_r, Nat.sub_diag by lia. by eexists. }
  assert (Hne : tasks ++ [t] <> []) by by destruct tasks. unfold place, top_level. destruct (Nat.eqb n 0); [by eexists _, _|].
  apply (sound_pop P n) in Hs. destruct (pop_to n stack) as [|[i p] rest]; [by eexists _, _|]. destruct Hs as [Htasks Hst].
  pose proof Hst as [Hp Hrest]%Forall_cons. destruct (leads_append p [t] tasks Hp) as [t1 Ht1]. pose proof Ht1 as Ht2.
  rewrite <- add_child_append in Ht2. destruct (add_child_at_path t p tasks) as [[k t1']|] eqn:Ha; [|done]. injection Ht2 as ->. cbn.
  eexists _, _. split; [done|]. split; [split|].
  - apply (every_append P p [t] tasks); [done..|by constructor].
  - apply Forall_cons. split; [by apply (leads_new p t tasks)|]. eapply Forall_impl; [exact Hst|]. cbn. intros e He. by apply (leads_after p e.2 [t] tasks).
  - intros ->. destruct p as [|j p]; cbn in Ht1; [by destruct tasks|]. destruct (tasks !! j) eqn:Hj; [|done]. cbn in Ht1.
    destruct (append_at p [t] _) in Ht1; [|done]. injection Ht1 as Ht1. apply (f_equal length) in Ht1. rewrite length_insert in Ht1.
    apply lookup_lt_Some in Hj. simpl in Ht1. lia.
Qed.

(** ** Documents *)

Section Documents.
Context {digit_chars : list text} (D : digit_class digit_chars).

(** A task whose line is read as it is written, and is one line. *)
Definition node_ok (t : TaskItem) : Prop := stable (digit_chars := digit_chars) t /\ plain (item_id t) /\ plain (description t).

Lemma node_ok_children t c : node_ok t -> node_ok (with_children c t).
Proof. unfold node_ok, stable. destruct t. done. Qed.

Lemma node_ok_status t s : node_ok t -> node_ok (with_status s t).
Proof.
  unfold node_ok, stable. intros (H1 & H2 & H3). destruct t as [i de st r cs]. split_and!; [|done..].
  intros k s'. exact (H1 k s').
Qed.

Lemma written_read k t : node_ok t -> read_line digit_chars (task_line k t) = Some (2 * k, leaf t).
Proof. intros [H _]. specialize (H k (status t)). by destruct t. Qed.

Lemma plain_const l : byte_in LF l = false -> byte_in CR l = false -> plain l.
Proof. intros. split; by apply byte_in_false. Qed.

Lemma task_line_plain k t : node_ok t -> plain (task_line k t).
Proof.
  intros (_ & Hi & Hd). rewrite (task_line_raw k t). change (status_char (status t) :: ?x) with ([status_char (status t)] ++ x).
  unfold raw_of. rewrite !plain_app. split_and!; try done.
  - induction (2 * k) as [|n IH]; cbn [replicate]; [by apply plain_const|]. change (plain ([space] ++ replicate n space)).
    apply plain_app. split; [by apply plain_const|done].
  - by apply plain_const.
  - destruct (status t); by apply plain_const.
  - by apply plain_const.
  - destruct (item_id t); [by apply plain_const|]. apply plain_app. split; [done|by apply plain_const].
Qed.

Lemma read_line_none line : read_line digit_chars line = None <-> is_checkbox line = false.
Proof.
  unfold read_line, is_checkbox. destruct (checkbox line) as [[[n s] raw]|]; [|done]. cbn.
  by destruct (extract_id_and_desc digit_chars raw).
Qed.

Lemma read_line_ok line n t : plain line -> read_line digit_chars line = Some (n, t) -> node_ok t /\ children t = [].
Proof.
  intros Hl Hr. destruct (read_line_stable D _ _ _ Hr) as (Hs & Hc & raw & pre & -> & He). split; [|done].
  apply plain_app in Hl as [_ Hraw]. split; [done|]. unfold extract_id_and_desc in He.
  destruct (match_id digit_chars raw) as [[id desc]|] eqn:Hm; cbn in He; injection He as -> ->; [|split; [by apply plain_const|done]].
  unfold match_id in Hm. destruct (id_prefix digit_chars raw) as [[id' r]|] eqn:Hp; [|done]. cbn in Hm.
  destruct (after_white r) as [desc'|] eqn:Ha; [|done]. injection Hm as -> ->.
  apply (id_prefix_spec D) in Hp as (-> & _). apply after_white_spec in Ha as (_ & ws & -> & _). rewrite !plain_app in Hraw. tauto.
Qed.

Record well_formed (d : TaskDocument) : Prop := mkWf {
  wf_preamble : exists ls, preamble d = unlines ls /\ Forall plain ls /\ Forall (fun l => is_checkbox l = false) ls;
  wf_tasks : Forall (every node_ok) (doc_tasks d);
  wf_postamble : exists ls, postamble d = unlines ls /\ Forall plain ls /\ existsb is_checkbox ls = false /\
    match ls with [] => True | l :: _ => blank l = true /\ doc_tasks d <> [] end
}.

Definition tree_lines (k : nat) (l : list TaskItem) : list text := (fun e => task_line e.1 e.2) <$> flatten_all k l.

Lemma serialize_task_lines k t : serialize_task k t = unlines (tree_lines k [t]).
Proof.
  unfold tree_lines, flatten_all. cbn [fmap list_fmap concat]. rewrite app_nil_r. revert k. induction t as [t IH] using item_ind. intros k.
  rewrite flatten_unfold. destruct t as [i de s r cs]. cbn [children] in *. cbn [fmap list_fmap fst snd].
  change (unlines (?a :: ?b)) with ((a ++ [LF]) ++ unlines b). cbn [serialize_task children]. rewrite <- (assoc_L (++)). do 2 f_equal.
  unfold flatten_all. induction IH as [|c cs Hc _ IHcs]; [done|]. cbn [fmap list_fmap concat]. rewrite fmap_app, unlines_app, Hc. by f_equal.
Qed.

Lemma serialize_lines d : serialize d = preamble d ++ unlines (tree_lines 0 (doc_tasks d)) ++ postamble d.
Proof.
  unfold serialize. do 2 f_equal. unfold tree_lines, flatten_all. induction (doc_tasks d) as [|t l IH]; [done|].
  cbn [fmap list_fmap concat]. rewrite IH, fmap_app, unlines_app. f_equal. rewrite serialize_task_lines. unfold tree_lines, flatten_all. cbn [fmap list_fmap concat]. by rewrite app_nil_r.
Qed.

Lemma parse_preamble ls pls rest : Forall (fun l => is_checkbox l = false) ls ->
  parse_lines digit_chars pls false [] [] (ls ++ rest) = parse_lines digit_chars (pls ++ unlines ls) false [] [] rest.
Proof.
  intros Hls. revert pls. induction Hls as [|l ls Hl _ IH]; intros pls; [by rewrite app_nil_r|]. cbn [app parse_lines].
  rewrite (proj2 (read_line_none l) Hl), IH. change (unlines (l :: ls)) with ((l ++ [LF]) ++ unlines ls). by rewrite !(assoc_L (++)).
Qed.

Lemma parse_tree pre b l k tasks stack rest : Forall (every node_ok) l ->
  parse_lines digit_chars pre b tasks stack (tree_lines k l ++ rest) =
  '(tasks, stack) ← place_all (as_lines k l) tasks stack;
  parse_lines digit_chars pre (match l with [] => b | _ => true end) tasks stack rest.
Proof.
  intros Hl. apply (every_flatten_all _ k) in Hl. assert (Hm : match l with [] => b | _ => true end = match flatten_all k l with [] => b | _ => true end).
  { destruct l as [|t l]; [done|]. unfold flatten_all. cbn [fmap list_fmap concat]. by rewrite flatten_unfold. }
  rewrite Hm. clear Hm. unfold tree_lines, as_lines. revert b tasks stack. induction Hl as [|[n t] es Ht _ IH]; intros b tasks stack; [done|].
  cbn [fmap list_fmap app parse_lines place_all fst snd] in *. rewrite (written_read n t Ht). cbn [mbind option_bind].
  destruct (place (2 * n) (leaf t) tasks stack) as [[tasks' stack']|]; [|done]. cbn [mbind option_bind]. rewrite IH. by destruct es.
Qed.

(** Writing and reading back. *)
Lemma roundtrip d : well_formed d -> parse digit_chars (serialize d) = Some d.
Proof.
  intros [(pls & Hp & Hpp & Hpc) Ht (qls & Hq & Hqp & Hqc & Hqb)]. unfold parse. rewrite serialize_lines, Hp, Hq, <- !unlines_app, lines_unlines.
  2: { rewrite !Forall_app. split_and!; [done| |done]. unfold tree_lines. apply Forall_fmap. apply (every_flatten_all _ 0) in Ht.
       eapply Forall_impl; [exact Ht|]. intros e He. by apply task_line_plain. }
  rewrite parse_preamble, parse_tree by done. destruct (place_document (doc_tasks d) [] []) as [st Hst]. rewrite Hst. cbn [mbind option_bind app].
  destruct d as [pre tasks post]. cbn [preamble doc_tasks postamble] in *. subst pre post. destruct qls as [|q qls]; [done|]. destruct Hqb as [Hb Hne].
  cbn in Hqc. apply orb_false_iff in Hqc as [Hqc Hrest]. cbn [parse_lines]. rewrite (proj2 (read_line_none q) Hqc), Hb, Hrest.
  by destruct tasks.
Qed.

(** What is read is well formed, and reading never panics. *)
Lemma parse_well_formed ls pls b tasks stack : Forall plain ls -> Forall plain pls -> Forall (fun l => is_checkbox l = false) pls ->
  sound node_ok tasks stack -> (b = true <-> tasks <> []) ->
  exists d, parse_lines digit_chars (unlines pls) b tasks stack ls = Some d /\ well_formed d.
Proof.
  intros Hls. revert pls b tasks stack. induction Hls as [|l ls Hl Hls IH]; intros pls b tasks stack Hp Hc Hs Hb; cbn [parse_lines].
  - eexists. split; [done|]. split; cbn; [by exists pls|apply Hs|]. by exists [].
  - destruct (read_line digit_chars l) as [[n t]|] eqn:Hr.
    + destruct (read_line_ok l n t Hl Hr) as [Ht Hch].
      destruct (place_sound node_ok n t tasks stack node_ok_children Ht Hch Hs) as (tasks' & stack' & Hpl & Hs' & Hne).
      rewrite Hpl. cbn [mbind option_bind]. by apply IH.
    + apply read_line_none in Hr. destruct b.
      * destruct (blank l && negb (existsb is_checkbox ls))%bool eqn:Hbl; [|by apply IH].
        apply andb_true_iff in Hbl as [Hbl Hno%negb_true_iff]. eexists. split; [done|]. split; cbn [preamble doc_tasks postamble]; [by exists pls|apply Hs|].
        exists (l :: ls). split_and!; [done|by constructor|cbn; by rewrite Hr|done|by apply Hb].
      * assert (Hu : unlines pls ++ l ++ [LF] = unlines (pls ++ [l])) by (rewrite unlines_app; change (unlines [l]) with ((l ++ [LF]) ++ []); by rewrite app_nil_r).
        assert (tasks = []) as ->. { destruct tasks; [done|]. destruct Hb as [_ Hb]. discriminate (Hb ltac:(done)). }
        rewrite Hu. apply IH; [| |done..]; apply Forall_app; by split; [|apply Forall_singleton].
Qed.
End Documents.

(** ** Changing the tree *)

(** What a line shows of a task, and where. *)
Definition shown (e : nat * TaskItem) : nat * text * text * option string * TaskStatus :=
  (e.1, item_id e.2, description e.2, requirement_ref e.2, status e.2).
Definition set_shown (s : TaskStatus) (x : nat * text * text * option string * TaskStatus) : nat * text * text * option string * TaskStatus :=
  (x.1, s).

Definition marks (k : nat) (l : list TaskItem) : list (nat * text * text * option string * TaskStatus) := shown <$> flatten_all k l.

Lemma marks_cons k t l : marks k (t :: l) = shown (k, t) :: marks (S k) (children t) ++ marks k l.
Proof. unfold marks, flatten_all. cbn [fmap list_fmap concat]. rewrite flatten_unfold. cbn [fmap list_fmap app]. by rewrite fmap_app. Qed.

Lemma marks_one k t : marks k [t] = shown (k, t) :: marks (S k) (children t).
Proof. rewrite marks_cons. by rewrite app_nil_r. Qed.

Lemma update_task_children id s t : item_id t <> id ->
  update_task id s t = (fun cs => with_children cs t) <$> update_status_recursive id s (children t).
Proof.
  destruct t as [i d st r cs]. cbn. intros Hne. rewrite bool_decide_false by done. f_equal.
  induction cs as [|c cs IH]; [done|]. cbn. by rewrite IH.
Qed.

Definition before_first (id : text) (a : list (nat * text * text * option string * TaskStatus)) : Prop :=
  Forall (fun x => x.1.1.1.2 <> id) a.

(** The first task with the identifier, in the order of the document, gets the
    status, and nothing else changes. *)
Definition updates (id : text) (s : TaskStatus) (k : nat) (l : list TaskItem) (r : option (list TaskItem)) : Prop :=
  match r with
  | Some l' => exists a x b, marks k l = a ++ x :: b /\ before_first id a /\ x.1.1.1.2 = id /\ marks k l' = a ++ set_shown s x :: b
  | None => before_first id (marks k l)
  end.

Lemma update_one id s t : forall k, updates id s (S k) (children t) (update_status_recursive id s (children t)) ->
  updates id s k [t] ((fun t => [t]) <$> update_task id s t).
Proof.
  intros k IH. unfold updates. rewrite marks_one.
  destruct (decide (item_id t = id)) as [He|Hne].
  - assert (Hu : update_task id s t = Some (with_status s t)) by (destruct t; cbn in *; by rewrite bool_decide_true).
    rewrite Hu. cbn [fmap option_fmap option_map]. exists [], (shown (k, t)), (marks (S k) (children t)). split_and!; [done|constructor|done|].
    rewrite marks_one. by destruct t.
  - rewrite update_task_children by done. unfold updates in IH. destruct (update_status_recursive id s (children t)) as [cs|]; cbn [fmap option_fmap option_map].
    + destruct IH as (a & x & b & -> & Ha & Hx & Hm). exists (shown (k, t) :: a), x, b. split_and!; [done|apply Forall_cons; by split|done|].
      rewrite marks_one, children_with, Hm. by destruct t.
    + apply Forall_cons. by split.
Qed.

Lemma update_list id s l : Forall (fun t => forall k, updates id s k [t] ((fun t => [t]) <$> update_task id s t)) l ->
  forall k, updates id s k l (update_status_recursive id s l).
Proof.
  assert (Hcons : forall k t l, marks k (t :: l) = marks k [t] ++ marks k l).
  { intros k t l'. by rewrite marks_cons, marks_one. }
  intros Hl k. induction Hl as [|t l Ht _ IH]; [constructor|]. specialize (Ht k). cbn [update_status_recursive].
  destruct (update_task id s t) as [t'|]; cbn [updates fmap option_fmap option_map] in Ht.
  - destruct Ht as (a & x & b & Hm & Ha & Hx & Hm'). exists a, x, (b ++ marks k l). rewrite Hcons, (Hcons k t'), Hm, Hm'.
    split_and!; [by rewrite <- (assoc_L (++))|done|done|by rewrite <- (assoc_L (++))].
  - unfold updates in IH |- *. destruct (update_status_recursive id s l) as [l'|]; cbn [fmap option_fmap option_map].
    + destruct IH as (a & x & b & Hm & Ha & Hx & Hm'). exists (marks k [t] ++ a), x, b.
      rewrite Hcons, (Hcons k t l'), Hm, Hm'. split_and!; [by rewrite <- (assoc_L (++))|by apply Forall_app|done|by rewrite <- (assoc_L (++))].
    + rewrite Hcons. by apply Forall_app.
Qed.

Lemma update_correct id s t : forall k, updates id s k [t] ((fun t => [t]) <$> update_task id s t).
Proof. induction t as [t IH] using item_ind. intros k. apply update_one. by apply update_list. Qed.

Lemma update_shown id s l k : updates id s k l (update_status_recursive id s l).
Proof. apply update_list. apply Forall_true. intros t. apply update_correct. Qed.

(** *** Completing parents *)

Lemma auto_complete_unfold t :
  auto_complete t =
  match children t with
  | [] => t
  | _ => let t := with_children (auto_complete <$> children t) t in if forallb is_completed (children t) then with_status Completed t else t
  end.
Proof. destruct t as [i d s r [|c cs]]; [done|]. cbn [auto_complete children]. cbn zeta. by rewrite children_with. Qed.

Lemma auto_children t : children (auto_complete t) = auto_complete <$> children t.
Proof.
  rewrite auto_complete_unfold. destruct (children t) as [|c cs] eqn:Hc; [by rewrite Hc|]. cbn zeta.
  destruct (forallb _ _); [|by rewrite children_with]. by destruct t.
Qed.

Lemma count_unfold p t : count_task p t =
  match children t with
  | [] => mkProgress (S (total p)) (done_count p + if bool_decide (status t = Completed) then 1 else 0)
                     (in_progress p + if bool_decide (status t = InProgress) then 1 else 0)
  | cs => foldl count_task p cs
  end.
Proof.
  destruct t as [i d s r [|c cs]]; [done|]. cbn [count_task children foldl]. generalize (count_task p c). clear. induction cs as [|c' cs IH]; intros p; [done|]. cbn. by rewrite IH.
Qed.

(** Completing parents leaves the leaves alone, and with them the progress. *)
Lemma auto_count t : forall p, count_task p (auto_complete t) = count_task p t.
Proof.
  assert (Hg : forall l, Forall (fun t => forall p, count_task p (auto_complete t) = count_task p t) l ->
    forall p, foldl count_task p (auto_complete <$> l) = foldl count_task p l).
  { induction 1 as [|c l Hc _ IH]; intros p; [done|]. cbn. by rewrite Hc, IH. }
  induction t as [t IH] using item_ind. intros p. specialize (Hg _ IH p). rewrite !(count_unfold p), auto_children.
  destruct (children t) as [|c cs] eqn:Hc; [|exact Hg]. cbn. by rewrite auto_complete_unfold, Hc.
Qed.

Lemma auto_progress d : progress (auto_complete_parents d) = progress d.
Proof.
  unfold progress, auto_complete_parents. cbn [doc_tasks]. generalize (mkProgress 0 0 0). induction (doc_tasks d) as [|t l IH]; intros p; [done|].
  cbn. by rewrite auto_count, IH.
Qed.

(** A parent is completed when it was, or when its children are in the end. *)
Lemma auto_status t : is_completed (auto_complete t) =
  (is_completed t || (negb (bool_decide (children t = [])) && forallb is_completed (auto_complete <$> children t)))%bool.
Proof.
  rewrite auto_complete_unfold. destruct (children t) as [|c cs] eqn:Hc; [by rewrite orb_false_r|]. rewrite bool_decide_false by done. cbn [negb andb].
  cbn zeta. rewrite children_with. destruct (forallb is_completed (auto_complete <$> c :: cs)) eqn:Hf.
  - rewrite orb_true_r. by destruct t.
  - rewrite orb_false_r. by destruct t.
Qed.

(** *** Both keep a document well formed *)

Section Preserved.
Context (P : TaskItem -> Prop) (Hc : forall t c, P t -> P (with_children c t)) (Hs : forall t s, P t -> P (with_status s t)).

Lemma children_status s t : children (with_status s t) = children t.
Proof. by destruct t. Qed.

Lemma every_status s t : every P t -> every P (with_status s t).
Proof. rewrite !every_unfold, children_status. intros [H1 H2]. split; [by apply Hs|done]. Qed.

Lemma auto_every t : every P t -> every P (auto_complete t).
Proof.
  induction t as [t IH] using item_ind. rewrite !every_unfold, auto_children. intros [Ht Hch]. split.
  - rewrite auto_complete_unfold. destruct (children t); [done|]. cbn zeta. destruct (forallb _ _); [apply Hs|]; by apply Hc.
  - apply Forall_fmap. rewrite Forall_forall in *. intros c Hin. by apply IH, Hch.
Qed.

Lemma update_every id s l : forall l', Forall (every P) l -> update_status_recursive id s l = Some l' -> Forall (every P) l'.
Proof.
  assert (Hone : forall t t', every P t -> update_task id s t = Some t' -> every P t').
  { intros t. induction t as [t IH] using item_ind. intros t' Ht. destruct (decide (item_id t = id)) as [He|Hne].
    - assert (Hu : update_task id s t = Some (with_status s t)) by (destruct t; cbn in *; by rewrite bool_decide_true).
      rewrite Hu. intros [= <-]. by apply every_status.
    - rewrite update_task_children by done. apply every_unfold in Ht as [Ht Hch]. intros (cs & Hcs & ->)%fmap_Some.
      apply every_unfold. rewrite children_with. split; [by apply Hc|]. clear -IH Hch Hcs. revert cs Hch Hcs.
      induction IH as [|c cs0 Hc0 _ IHcs]; intros cs Hch; [done|]. cbn. apply Forall_cons in Hch as [H1 H2].
      destruct (update_task id s c) as [c'|] eqn:Hu; [intros [= <-]; constructor; [by apply Hc0|done]|].
      intros (x & Hx & ->)%fmap_Some. constructor; [done|]. by apply IHcs. }
  induction l as [|t l IH]; intros l' Hl; [done|]. cbn. apply Forall_cons in Hl as [Ht Hl].
  destruct (update_task id s t) as [t'|] eqn:Hu; [intros [= <-]; constructor; [by apply (Hone t)|done]|].
  intros (x & Hx & ->)%fmap_Some. constructor; [done|by apply IH].
Qed.
End Preserved.

(** ** The file is the document *)

Lemma parse_total digit_chars content : is_Some (parse digit_chars content).
Proof.
  unfold parse. assert (Hs : sound (fun _ => True) [] []) by (split; constructor).
  assert (Hany : forall n line t, read_line digit_chars line = Some (n, t) -> children t = []).
  { intros n line t. unfold read_line. destruct (checkbox line) as [[[i s] raw]|]; [|done]. cbn.
    destruct (extract_id_and_desc digit_chars raw). by intros [= <- <-]. }
  generalize ([] : text) false. revert Hs. generalize ([] : list TaskItem) ([] : Stack).
  induction (lines content) as [|l ls IH]; intros tasks stack Hs pre b; cbn [parse_lines]; [by eexists|].
  destruct (read_line digit_chars l) as [[n t]|] eqn:Hr.
  - destruct (place_sound (fun _ => True) n t tasks stack) as (tasks' & stack' & -> & Hs' & _); [done|done|by apply (Hany n l)|done|by apply IH].
  - destruct b; [|by apply IH]. destruct (_ && _)%bool; [by eexists|by apply IH].
Qed.

Section Persistence.
Context {digit_chars : list text} (D : digit_class digit_chars).

Lemma read_wf content : CR ∉ content -> exists d, parse digit_chars content = Some d /\ well_formed (digit_chars := digit_chars) d.
Proof.
  intros Hcr. unfold parse. apply (parse_well_formed D (lines content) [] false [] []); [by apply lines_plain|constructor..|split; constructor|].
  split; [done|by intros []].
Qed.

(** Claim C26. A task list survives its file: whatever text without carriage
    returns is read, writing the document and reading it again gives the same
    document, with every task at its depth, its identifier, description,
    status and requirement, and what stands before and behind the list. *)
Theorem tasks_roundtrip (content : text) (Hcr : CR ∉ content) :
  exists d, parse digit_chars content = Some d /\ parse digit_chars (serialize d) = Some d.
Proof. destruct (read_wf content Hcr) as (d & Hp & Hw). exists d. split; [done|]. by apply roundtrip. Qed.

Lemma updated_wf d id s d' : well_formed (digit_chars := digit_chars) d -> update_status id s d = Some d' ->
  well_formed (digit_chars := digit_chars) (auto_complete_parents d').
Proof.
  intros [Hp Ht (qls & Hq & Hqp & Hqc & Hqb)]. unfold update_status. intros (l & Hl & ->)%fmap_Some. split; cbn [preamble doc_tasks postamble auto_complete_parents]; [done| |].
  - apply Forall_fmap. eapply Forall_impl; [exact (update_every _ node_ok_children node_ok_status id s _ l Ht Hl)|].
    intros t. apply auto_every; [apply node_ok_children|apply node_ok_status].
  - exists qls. split_and!; [done..|]. destruct qls; [done|]. destruct Hqb as [Hb Hne]. split; [done|]. clear -Hl Hne.
    destruct (doc_tasks d) as [|t ts]; [done|]. cbn in Hl. destruct (update_task id s t); [by injection Hl as <-|]. by apply fmap_Some in Hl as (x & _ & ->).
Qed.

Context `{J : Json} {W : DiskOps} {DL : DiskLaws} (pretty : Value -> option string).

(** A status that is set is the status that is read: after an update
    that succeeds the first task with the identifier, in the order of the
    document, has the new status and no other task has changed, the file reads
    back as that document with its finished parents completed, and the
    progress that is reported counts it. *)
Theorem status_update_persists (d d' : Disk) (cwd : Path) (feature content : string) (id : text) (s : TaskStatus)
    (Hr : read_doc d cwd feature "tasks.md" = Ok content) (Hcr : CR ∉ bytes_of content)
    (Hu : update_task_status digit_chars d cwd feature id s = (Some (Ok tt), d')) :
  exists doc doc' written, parse digit_chars (bytes_of content) = Some doc /\
    updates id s 0 (doc_tasks doc) (Some (doc_tasks doc')) /\
    read_doc d' cwd feature "tasks.md" = Ok written /\
    parse digit_chars (bytes_of written) = Some (auto_complete_parents doc') /\
    get_status digit_chars d' cwd feature = Some (Ok (progress doc')).
Proof.
  unfold update_task_status in Hu. rewrite Hr in Hu. destruct (read_wf _ Hcr) as (doc & Hp & Hw). rewrite Hp in Hu.
  destruct (update_status id s doc) as [doc'|] eqn:Hup; [|done]. unfold write_doc, write_in in Hu.
  destruct (create_dir_all d (spec_dir cwd feature)) as [d1 [|]]; [|done].
  set (out := serialize (auto_complete_parents doc')) in *. set (p := doc_path cwd feature "tasks.md") in *.
  pose proof (write_done d1 p (string_of out)) as Hd. pose proof (write_exists d1 p (string_of out)) as He.
  destruct (write_file d1 p (string_of out)) as [d2 [|]]; [|done]. injection Hu as <-. cbn [fst snd] in *.
  assert (Hread : read_doc d2 cwd feature "tasks.md" = Ok (string_of out)).
  { unfold read_doc. fold p. by rewrite He, Hd. }
  assert (Hparse : parse digit_chars (bytes_of (string_of out)) = Some (auto_complete_parents doc')).
  { rewrite String.list_ascii_of_string_of_list_ascii. apply roundtrip. by apply (updated_wf doc id s). }
  exists doc, doc', (string_of out). split_and!; [done| |done|done|].
  - unfold update_status in Hup. apply fmap_Some in Hup as (l & Hl & ->). cbn [doc_tasks]. rewrite <- Hl. apply update_shown.
  - unfold get_status. rewrite Hread, Hparse. cbn [mbind option_bind]. by rewrite auto_progress.
Qed.
End Persistence.

(** ** On a concrete list *)

Section Demo.
#[local] Existing Instances flat_json flat_json_laws plain_ops plain_laws.
#[local] Open Scope string_scope.

Definition ascii_digits : list text := (fun n => [Ascii.ascii_of_nat n]) <$> seq 48 10.

Lemma ascii_digit_class : digit_class ascii_digits.
Proof.
  split.
  - apply class_decide; vm_compute; reflexivity.
  - assert (Ha : forallb (fun d => (negb (byte_in underscore d) && negb (bool_decide (head d = Some period)))%bool) ascii_digits = true) by (vm_compute; reflexivity).
    rewrite forallb_forall in Ha. intros d Hd%list_elem_of_In. specialize (Ha d Hd). apply andb_true_iff in Ha as [H1%negb_true_iff H2%negb_true_iff].
    split; [by apply byte_in_false|by apply bool_decide_eq_false in H2].
  - assert (Ha : forallb (fun d => forallb (fun w => negb (bool_decide (d `prefix_of` w)) && negb (bool_decide (w `prefix_of` d)))%bool whitespace) ascii_digits = true) by (vm_compute; reflexivity).
    rewrite forallb_forall in Ha. intros d w Hd%list_elem_of_In Hw%list_elem_of_In. specialize (Ha d Hd). rewrite forallb_forall in Ha.
    specialize (Ha w Hw). apply andb_true_iff in Ha as [H1%negb_true_iff H2%negb_true_iff]. by apply bool_decide_eq_false in H1, H2.
Qed.

Definition text_of_lines (ls : list string) : string := string_of (unlines (bytes_of <$> ls)).

Definition demo_list : string := text_of_lines ["# Tasks"; "- [ ] 1 outer"; "  - [x] 1.1 first"; "  - [-] 1.2 second"; ""; "The end"].

Lemma tasks_roundtrip_witness :
  exists d, parse ascii_digits (bytes_of demo_list) = Some d /\ parse ascii_digits (serialize d) = Some d.
Proof. apply (tasks_roundtrip ascii_digit_class (bytes_of demo_list)). apply byte_in_false. vm_compute. reflexivity. Defined.

Definition cwd_w : Path := components "/w".
Definition with_list (s : string) : Disk := put empty_disk (doc_path cwd_w "f" "tasks.md") s.

(** The text of the list after an update. *)
Definition after_update (s : string) (id : string) (st : TaskStatus) : option string :=
  contents (update_task_status ascii_digits (with_list s) cwd_w "f" (bytes_of id) st).2 (doc_path cwd_w "f" "tasks.md").

Lemma status_update_persists_witness :
  let d' := (update_task_status ascii_digits (with_list demo_list) cwd_w "f" (bytes_of "1.2") Completed).2 in
  contents d' (doc_path cwd_w "f" "tasks.md") = Some (text_of_lines ["# Tasks"; "- [x] 1 outer"; "  - [x] 1.1 first"; "  - [x] 1.2 second"; ""; "The end"]) /\
  exists p, get_status ascii_digits d' cwd_w "f" = Some (Ok p).
Proof.
  intros d'. split; [vm_compute; reflexivity|].
  destruct (status_update_persists ascii_digit_class (with_list demo_list) d' cwd_w "f" demo_list (bytes_of "1.2") Completed)
    as (doc & doc' & w & _ & _ & _ & _ & Hg).
  - reflexivity.
  - apply byte_in_false. vm_compute. reflexivity.
  - apply injective_projections; [vm_compute; reflexivity|reflexivity].
  - by exists (progress doc').
Defined.

(** Lines between the tasks are lost with the first update. *)
Example details_lost :
  after_update (text_of_lines ["- [ ] 1 a"; "  details of a"; "- [ ] 2 b"]) "1" InProgress = Some (text_of_lines ["- [-] 1 a"; "- [ ] 2 b"]).
Proof. vm_compute. reflexivity. Qed.

(** So is a task whose box is marked with a capital letter. *)
Example capital_mark_lost :
  after_update (text_of_lines ["- [ ] 1 a"; "- [X] 2 b"]) "1" InProgress = Some (text_of_lines ["- [-] 1 a"]).
Proof. vm_compute. reflexivity. Qed.

(** A parent that was completed stays so when a child is taken up again, and a
    parent whose children are complete cannot be reset. *)
Example parent_stays_completed :
  after_update (text_of_lines ["- [x] 1 a"; "  - [x] 1.1 b"]) "1.1" InProgress = Some (text_of_lines ["- [x] 1 a"; "  - [-] 1.1 b"]) /\
  after_update (text_of_lines ["- [x] 1 a"; "  - [x] 1.1 b"]) "1" NotStarted = Some (text_of_lines ["- [x] 1 a"; "  - [x] 1.1 b"]).
Proof. vm_compute. split; reflexivity. Qed.

(** Asked to run the second task, the daemon answers with the first. *)
Example run_ignores_task :
  match spec_run ascii_digits (with_list (text_of_lines ["- [ ] 1 a"; "- [ ] 2 b"])) cwd_w "f" (Some "2") with
  | Some (Ok (Some t)) => item_id t = bytes_of "1"
  | _ => False
  end.
Proof. vm_compute. reflexivity. Qed.

(** The name of a feature is a path: an absolute one leaves the project. *)
Example feature_is_path : config_path cwd_w "/etc/x" = components "/etc/x/.config.json".
Proof. reflexivity. Qed.
End Demo.
