(* ===== verification/Tasks.v ===== *)
(** * Tasks: background tasks ([engine/task_manager.rs], [models/task.rs])

    [TaskModel] is the data model of tasks: types, statuses, identifiers and
    their validation.  [Manager] is the manager of background tasks: a task is
    entered, its abort handle after it, a worker drives an engine and at the end
    writes the outcome and removes the handle; [stop_task] signals and then
    marks.  Each step between two lock acquisitions is an event, so that every
    interleaving is a sequence of events. *)

From stdpp Require Import base gmap strings list.
From Stdlib Require Import ZArith Lia.
From S2P Require Import Prelude Text.

#[local] Open Scope Z_scope.
#[local] Open Scope string_scope.

Module TaskModel.

Inductive TaskType := LocalBash | LocalAgent | RemoteAgent | InProcessTeammate | LocalWorkflow | Dream.

Inductive TaskStatus := Pending | Running | Completed | Failed | Killed.

#[export] Instance TaskStatus_eq_dec : EqDecision TaskStatus.
Proof. solve_decision. Defined.

Record TaskState := mkTask {
  id : string;
  task_type : TaskType;
  status : TaskStatus;
  description : string;
  tool_use_id : option string;
  start_time : Z;
  end_time : option Z;
  output_file : string;
  output_offset : Z
}.

Definition is_terminal (s : TaskStatus) : bool :=
  match s with Completed | Failed | Killed => true | _ => false end.

Definition can_transition_to (s next : TaskStatus) : bool :=
  match s, next with
  | Pending, Running | Running, Completed | Running, Failed | Running, Killed => true
  | _, _ => false
  end.

Definition id_prefix (t : TaskType) : byte :=
  Ascii.ascii_of_nat
    match t with
    | LocalBash => 98 | LocalAgent => 97 | RemoteAgent => 114
    | InProcessTeammate => 116 | LocalWorkflow => 119 | Dream => 100
    end%nat.

(** The digit of a random index below 36. *)
Definition id_digit (idx : nat) : byte :=
  Ascii.ascii_of_nat (if Nat.ltb idx 10 then 48 + idx else 97 + idx - 10)%nat.

Definition generate_task_id (t : TaskType) (random : list nat) : string :=
  string_of (id_prefix t :: (id_digit <$> random)).

Definition is_lower_or_digit (b : byte) : bool :=
  let n := Ascii.nat_of_ascii b in
  ((Nat.leb 97 n && Nat.leb n 122) || (Nat.leb 48 n && Nat.leb n 57))%bool.

Definition prefixes : list byte :=
  id_prefix <$> [LocalBash; LocalAgent; RemoteAgent; InProcessTeammate; LocalWorkflow; Dream].

Definition is_valid_task_id (i : string) : bool :=
  match bytes_of i with
  | b :: rest =>
      (Nat.eqb (length (b :: rest)) 9 && existsb (Ascii.eqb b) prefixes && forallb is_lower_or_digit rest)%bool
  | [] => false
  end.

Record ValidationError := mkInvalid { field : string; message : string }.

Definition type_name (t : TaskType) : string :=
  match t with
  | LocalBash => "LocalBash" | LocalAgent => "LocalAgent" | RemoteAgent => "RemoteAgent"
  | InProcessTeammate => "InProcessTeammate" | LocalWorkflow => "LocalWorkflow" | Dream => "Dream"
  end.

Definition char_text (b : byte) : string := String.String b "".

Definition prefix_message (p : byte) (t : TaskType) : string :=
  "task ID prefix '" +:+ char_text p +:+ "' does not match task type " +:+ type_name t +:+
  " (expected '" +:+ char_text (id_prefix t) +:+ "')".

Definition validate (t : TaskState) : result unit ValidationError :=
  if negb (is_valid_task_id (id t))
  then Err (mkInvalid "id" "task ID must be 9 chars: valid prefix + 8 alphanumeric [0-9a-z]")
  else match bytes_of (id t) with
       | [] => Err (mkInvalid "id" "task ID cannot be empty")
       | p :: _ =>
           if negb (Ascii.eqb p (id_prefix (task_type t)))
           then Err (mkInvalid "id" (prefix_message p (task_type t)))
           else if (is_terminal (status t) && negb (is_some (end_time t)))%bool
           then Err (mkInvalid "end_time" "end_time must be set when status is terminal")
           else if (negb (is_terminal (status t)) && is_some (end_time t))%bool
           then Err (mkInvalid "end_time" "end_time must be None when status is not terminal")
           else Ok tt
       end.

(** A terminal status has no successor, every other one has. *)
Lemma terminal_iff_stuck s : is_terminal s = true <-> forall next, can_transition_to s next = false.
Proof.
  split; [by destruct s, next|]. intros H.
  destruct s; try done; [specialize (H Running)|specialize (H Completed)]; done.
Qed.

Lemma below_36 (P : nat -> bool) : forallb P (seq 0 36) = true -> forall i, (i < 36)%nat -> P i = true.
Proof. intros H i Hi. rewrite forallb_elem in H. apply H, elem_of_seq. lia. Qed.

Lemma id_digit_ok i : (i < 36)%nat -> is_lower_or_digit (id_digit i) = true.
Proof. apply (below_36 (fun i => is_lower_or_digit (id_digit i))). vm_compute. reflexivity. Qed.

Lemma id_digit_inj i j : (i < 36)%nat -> (j < 36)%nat -> id_digit i = id_digit j -> i = j.
Proof.
  intros Hi Hj He.
  pose proof (below_36 (fun i => forallb (fun j => negb (Ascii.eqb (id_digit i) (id_digit j)) || Nat.eqb i j)
                                         (seq 0 36)) ltac:(vm_compute; reflexivity) i Hi) as H.
  rewrite forallb_elem in H. specialize (H j ltac:(apply elem_of_seq; lia)). simpl in H.
  rewrite He, Ascii.eqb_refl in H. simpl in H. by apply Nat.eqb_eq.
Qed.

(** The identifiers made for a task pass the validation of a task of that
    type, and determine the type and the random digits they were made of. *)
Lemma generated_id_valid (t : TaskType) (random : list nat) :
  length random = 8%nat -> Forall (fun i => i < 36)%nat random ->
  is_valid_task_id (generate_task_id t random) = true.
Proof.
  intros Hl Hr. unfold is_valid_task_id, generate_task_id.
  rewrite String.list_ascii_of_string_of_list_ascii.
  rewrite !andb_true_iff. split_and!.
  - simpl. by rewrite length_fmap, Hl.
  - by destruct t.
  - apply forallb_elem. intros b (i & -> & Hi)%list_elem_of_fmap. apply id_digit_ok.
    rewrite list.Forall_forall in Hr. by apply Hr.
Qed.

Lemma generate_task_id_inj t1 t2 r1 r2 :
  Forall (fun i => i < 36)%nat r1 -> Forall (fun i => i < 36)%nat r2 ->
  generate_task_id t1 r1 = generate_task_id t2 r2 -> t1 = t2 /\ r1 = r2.
Proof.
  intros H1 H2 He. apply (f_equal bytes_of) in He. unfold generate_task_id in He.
  rewrite !String.list_ascii_of_string_of_list_ascii in He. injection He as Hp Hr. split.
  - by destruct t1, t2.
  - clear Hp. revert r2 H2 Hr. induction H1 as [|i r1 Hi H1 IH]; intros [|j r2] H2 Hr; try done.
    apply Forall_cons in H2 as [Hj H2]. injection Hr as Hij Hr. f_equal; [by apply id_digit_inj|by apply IH].
Qed.
End TaskModel.

Module Manager.

Inductive BgTaskStatus :=
| Running
| Completed
| Failed (e : string)
| Aborted.

Record BackgroundTask := mkTask {
  description : string;
  status : BgTaskStatus;
  created_at : string;
  completed_at : option string;
  task_result : option string
}.

(** What the worker receives from its engine. *)
Inductive EngineEvent :=
| AssistantChunk (content : string)
| ResultEvent (text : option string)
| ErrorEvent (e : string)
| OtherEvent
| ChannelClosed.

Inductive WorkerState :=
| Entered                 (* the task is in the map, its handle is not *)
| Driving                 (* in the loop of events *)
| Ended (error : option string)
| Written                 (* the outcome is in the map *)
| Gone.

Record Worker := mkWorker {
  tid : string;
  signal : bool;            (* the watch channel *)
  aborting : bool;
  final_text : string;
  worker_state : WorkerState
}.

(** A call of [stop_task] between its two halves. *)
Record Stop := mkStop { stop_id : string; sent : bool; answer : option bool }.

Record TaskManager := mkManager {
  tasks : gmap string BackgroundTask;
  abort_handles : gmap string nat;      (* the worker at the other end *)
  workers : list Worker;
  stops : list Stop
}.

Definition new : TaskManager := mkManager ∅ ∅ [] [].

Definition set_worker (st : WorkerState) (w : Worker) : Worker :=
  mkWorker (tid w) (signal w) (aborting w) (final_text w) st.

Definition set_text (s : string) (st : WorkerState) (w : Worker) : Worker :=
  mkWorker (tid w) (signal w) (aborting w) s st.

(** ** [create_task] *)

Definition create (id desc now : string) (m : TaskManager) : TaskManager :=
  mkManager (<[id := mkTask desc Running now None None]> (tasks m)) (abort_handles m)
            (workers m ++ [mkWorker id false false "" Entered]) (stops m).

Definition install_handle (k : nat) (w : Worker) (m : TaskManager) : TaskManager :=
  mkManager (tasks m) (<[tid w := k]> (abort_handles m)) (alter (set_worker Driving) k (workers m)) (stops m).

(** One event of the engine in the worker's loop. *)
Definition on_event (e : EngineEvent) (w : Worker) : Worker :=
  match e with
  | AssistantChunk c => set_text (final_text w +:+ c) Driving w
  | ResultEvent (Some t) => set_text t (Ended None) w
  | ResultEvent None => set_worker (Ended None) w
  | ErrorEvent e => set_worker (Ended (Some e)) w
  | OtherEvent => w
  | ChannelClosed => set_worker (Ended None) w
  end.

(** The other branch of the [select!]: the signal is seen once. *)
Definition observe (w : Worker) : Worker :=
  mkWorker (tid w) (signal w) true (final_text w) (worker_state w).

(** The outcome, unless the task was marked aborted. *)
Definition finalize (error : option string) (text now : string) (t : BackgroundTask) : BackgroundTask :=
  match status t with
  | Aborted => t
  | _ =>
      match error with
      | Some e => mkTask (description t) (Failed e) (created_at t) (Some now) (task_result t)
      | None => mkTask (description t) Completed (created_at t) (Some now) (Some text)
      end
  end.

Definition write_outcome (k : nat) (w : Worker) (error : option string) (now : string) (m : TaskManager) : TaskManager :=
  mkManager (alter (finalize error (final_text w) now) (tid w) (tasks m)) (abort_handles m)
            (alter (set_worker Written) k (workers m)) (stops m).

Definition remove_handle (k : nat) (w : Worker) (m : TaskManager) : TaskManager :=
  mkManager (tasks m) (delete (tid w) (abort_handles m)) (alter (set_worker Gone) k (workers m)) (stops m).

(** ** [stop_task] *)

Definition raise_signal (w : Worker) : Worker :=
  mkWorker (tid w) true (aborting w) (final_text w) (worker_state w).

Definition stop_send (id : string) (m : TaskManager) : TaskManager :=
  match abort_handles m !! id with
  | Some k => mkManager (tasks m) (abort_handles m) (alter raise_signal k (workers m)) (stops m ++ [mkStop id true None])
  | None => mkManager (tasks m) (abort_handles m) (workers m) (stops m ++ [mkStop id false None])
  end.

Definition is_running (t : BackgroundTask) : bool := match status t with Running => true | _ => false end.

Definition stop_mark (j : nat) (s : Stop) (now : string) (m : TaskManager) : TaskManager :=
  let answer_with b := alter (fun s => mkStop (stop_id s) (sent s) (Some b)) j (stops m) in
  match tasks m !! stop_id s with
  | Some t =>
      if is_running t
      then mkManager (<[stop_id s := mkTask (description t) Aborted (created_at t) (Some now) (task_result t)]> (tasks m))
                     (abort_handles m) (workers m) (answer_with true)
      else mkManager (tasks m) (abort_handles m) (workers m) (answer_with (sent s))
  | None => mkManager (tasks m) (abort_handles m) (workers m) (answer_with (sent s))
  end.

(** ** Events *)

Inductive Event :=
| Create (id desc now : string)
| InstallHandle (k : nat)
| EngineSays (k : nat) (e : EngineEvent)
| Observe (k : nat)
| WriteOutcome (k : nat) (now : string)
| RemoveHandle (k : nat)
| StopSend (id : string)
| StopMark (j : nat) (now : string).

Definition step (e : Event) (m : TaskManager) : option TaskManager :=
  match e with
  | Create id desc now => Some (create id desc now m)
  | InstallHandle k =>
      w ← workers m !! k;
      match worker_state w with Entered => Some (install_handle k w m) | _ => None end
  | EngineSays k ev =>
      w ← workers m !! k;
      match worker_state w with
      | Driving => Some (mkManager (tasks m) (abort_handles m) (alter (on_event ev) k (workers m)) (stops m))
      | _ => None
      end
  | Observe k =>
      w ← workers m !! k;
      match worker_state w with
      | Driving => if (signal w && negb (aborting w))%bool
                   then Some (mkManager (tasks m) (abort_handles m) (alter observe k (workers m)) (stops m))
                   else None
      | _ => None
      end
  | WriteOutcome k now =>
      w ← workers m !! k;
      match worker_state w with Ended error => Some (write_outcome k w error now m) | _ => None end
  | RemoveHandle k =>
      w ← workers m !! k;
      match worker_state w with Written => Some (remove_handle k w m) | _ => None end
  | StopSend id => Some (stop_send id m)
  | StopMark j now =>
      s ← stops m !! j;
      match answer s with None => Some (stop_mark j s now m) | Some _ => None end
  end.

(** [list_tasks] and [get_task_status]. *)
Definition list_tasks (order : gmap string BackgroundTask -> list (string * BackgroundTask)) (m : TaskManager) :
    list BackgroundTask := (order (tasks m)).*2.
Definition get_task_status (id : string) (m : TaskManager) : option BackgroundTask := tasks m !! id.

(** Runs in which no identifier is drawn twice. *)
Definition fresh (e : Event) (m : TaskManager) : Prop :=
  match e with Create id _ _ => tasks m !! id = None | _ => True end.

Inductive moves (m m' : TaskManager) : Prop :=
| moves_by e : fresh e m -> step e m = Some m' -> moves m m'.

Definition reaches : TaskManager -> Prop := reachable (fun m => m = new) moves.

(** ** The life cycle *)

(** A worker that has not written its outcome yet. *)
Definition at_work (w : Worker) : bool :=
  match worker_state w with Entered | Driving | Ended _ => true | _ => false end.

(** What a record of a task must look like. *)
Definition well_formed (t : BackgroundTask) : Prop :=
  match status t with
  | Running => completed_at t = None /\ task_result t = None
  | Completed => is_some (completed_at t) = true /\ is_some (task_result t) = true
  | Failed _ | Aborted => is_some (completed_at t) = true /\ task_result t = None
  end.

Record manager_inv (m : TaskManager) : Prop := {
  inv_formed id t : tasks m !! id = Some t -> well_formed t;
  inv_ids : NoDup (tid <$> workers m);
  inv_known w : w ∈ workers m -> is_Some (tasks m !! tid w);
  inv_at_work w t : w ∈ workers m -> at_work w = true -> tasks m !! tid w = Some t ->
    status t = Running \/ status t = Aborted;
  inv_running id t : tasks m !! id = Some t -> status t = Running ->
    exists w, w ∈ workers m /\ tid w = id /\ at_work w = true
}.
Lemma alter_elem (f : Worker -> Worker) (k : nat) (ws : list Worker) w x :
  ws !! k = Some w -> x ∈ alter f k ws -> x = f w \/ exists j, j <> k /\ ws !! j = Some x.
Proof.
  intros Hw [j Hj]%list_elem_of_lookup. destruct (decide (j = k)) as [->|Hne].
  - rewrite list_lookup_alter_eq, Hw in Hj. injection Hj as <-. by left.
  - rewrite list_lookup_alter_ne in Hj by done. right. by exists j.
Qed.

Lemma elem_alter (f : Worker -> Worker) (k : nat) (ws : list Worker) w x :
  ws !! k = Some w -> x ∈ ws -> f w ∈ alter f k ws /\ (x = w \/ x ∈ alter f k ws).
Proof.
  intros Hw [j Hj]%list_elem_of_lookup.
  assert (Hf : alter f k ws !! k = Some (f w)) by (by rewrite list_lookup_alter_eq, Hw). split.
  - by apply list_elem_of_lookup_2 in Hf.
  - destruct (decide (j = k)) as [->|Hne]; [left; congruence|]. right.
    apply (list_elem_of_lookup_2 _ j). by rewrite list_lookup_alter_ne.
Qed.

Lemma alter_tids (f : Worker -> Worker) (k : nat) (ws : list Worker) :
  (forall w, tid (f w) = tid w) -> tid <$> alter f k ws = tid <$> ws.
Proof.
  intros Hf. revert k. induction ws as [|w ws IH]; intros [|k]; [done|done|..]; simpl; f_equal; [apply Hf|apply IH].
Qed.

(** Workers at different places have different tasks. *)
Lemma other_tid m (j k : nat) w x :
  manager_inv m -> workers m !! k = Some w -> workers m !! j = Some x -> j <> k -> tid x <> tid w.
Proof.
  intros Hinv Hk Hj Hne He. apply Hne. apply (NoDup_lookup (tid <$> workers m) j k (tid w)).
  - apply (inv_ids _ Hinv).
  - by rewrite list_lookup_fmap, Hj, <- He.
  - by rewrite list_lookup_fmap, Hk.
Qed.

(** A step of one worker that neither starts nor ends its work. *)
Lemma inv_worker m h f k w ss :
  manager_inv m -> workers m !! k = Some w -> (forall w, tid (f w) = tid w) -> at_work (f w) = at_work w ->
  manager_inv (mkManager (tasks m) h (alter f k (workers m)) ss).
Proof.
  intros Hinv Hk Htid Hwork. pose proof Hinv as [H1 H2 H3 H4 H5].
  pose proof (list_elem_of_lookup_2 _ _ _ Hk) as Hin.
  split; simpl; [done|by rewrite alter_tids|..].
  - intros x [->|(j & _ & Hj)]%(alter_elem f k (workers m) w); [..|done].
    + rewrite Htid. by apply H3.
    + apply H3. by apply list_elem_of_lookup_2 in Hj.
  - intros x t [->|(j & _ & Hj)]%(alter_elem f k (workers m) w); [..|done].
    + rewrite Htid, Hwork. by apply H4.
    + apply H4. by apply list_elem_of_lookup_2 in Hj.
  - intros id t Ht Hr. destruct (H5 id t Ht Hr) as (x & Hx & <- & Hat).
    destruct (elem_alter f k (workers m) w x Hk Hx) as [Hf [->|Hx']]; [|eauto].
    exists (f w). by rewrite Htid, Hwork.
Qed.

Lemma inv_create m id desc now :
  manager_inv m -> tasks m !! id = None -> manager_inv (create id desc now m).
Proof.
  intros [H1 H2 H3 H4 H5] Hfresh.
  assert (Hnew : forall w, w ∈ workers m -> tid w <> id).
  { intros w Hw <-. destruct (H3 w Hw) as [t Ht]. congruence. }
  split; simpl.
  - intros i t [[<- <-]|[_ Ht]]%lookup_insert_Some; [done|by apply (H1 i)].
  - rewrite fmap_app. apply list.NoDup_app. split; [done|]. split; [|apply NoDup_singleton].
    intros i (w & -> & Hw)%list_elem_of_fmap Hi%list_elem_of_singleton. by apply (Hnew w Hw).
  - intros w [Hw|Hw%list_elem_of_singleton]%elem_of_app; apply lookup_insert_is_Some.
    + right. split; [by apply not_eq_sym, Hnew|by apply H3].
    + left. by rewrite Hw.
  - intros w t [Hw|Hw%list_elem_of_singleton]%elem_of_app Hat; [|subst w].
    + rewrite lookup_insert_ne by (by apply not_eq_sym, Hnew). by apply H4.
    + simpl. rewrite lookup_insert_eq. intros [= <-]. by left.
  - intros i t [[<- <-]|[_ Ht]]%lookup_insert_Some Hr.
    + eexists. split; [apply elem_of_app; right; by left|]. done.
    + destruct (H5 i t Ht Hr) as (w & Hw & ? & ?). exists w. split; [apply elem_of_app; by left|done].
Qed.

Lemma finalize_formed error text now t :
  well_formed t -> status t = Running \/ status t = Aborted -> well_formed (finalize error text now t).
Proof.
  unfold well_formed, finalize. intros Hf [Hs|Hs]; rewrite Hs in *; [|by rewrite Hs].
  destruct error; simpl; [by destruct Hf|done].
Qed.

Lemma finalize_not_running error text now t : status (finalize error text now t) <> Running.
Proof. unfold finalize. destruct (status t) eqn:E, error; simpl; congruence. Qed.

Lemma inv_write_outcome m k w error now :
  manager_inv m -> workers m !! k = Some w -> at_work w = true ->
  manager_inv (write_outcome k w error now m).
Proof.
  intros Hinv Hk Hw. pose proof Hinv as [H1 H2 H3 H4 H5].
  pose proof (list_elem_of_lookup_2 _ _ _ Hk) as Hin. destruct (H3 w Hin) as [t0 Ht0].
  pose proof (H4 w t0 Hin Hw Ht0) as Hst. split; simpl.
  - intros id t. destruct (decide (id = tid w)) as [->|Hne].
    + rewrite lookup_alter_eq, Ht0. intros [= <-]. apply finalize_formed; [by apply (H1 (tid w))|done].
    + rewrite lookup_alter_ne by done. apply H1.
  - by rewrite alter_tids.
  - intros x Hx. rewrite lookup_alter_is_Some.
    apply (alter_elem _ k (workers m) w) in Hx as [->|(j & _ & Hj)]; [exact (H3 w Hin)| |done].
    apply H3. by apply list_elem_of_lookup_2 in Hj.
  - intros x t Hx. apply (alter_elem _ k (workers m) w) in Hx as [->|(j & Hne & Hj)]; [done| |done].
    rewrite lookup_alter_ne by (apply not_eq_sym; by apply (other_tid m j k)).
    apply H4. by apply list_elem_of_lookup_2 in Hj.
  - intros id t. destruct (decide (id = tid w)) as [->|Hne].
    + rewrite lookup_alter_eq, Ht0. intros [= <-] Hr. by apply finalize_not_running in Hr.
    + rewrite lookup_alter_ne by done. intros Ht Hr. destruct (H5 id t Ht Hr) as (x & Hx & <- & Hat).
      destruct (elem_alter (set_worker Written) k (workers m) w x Hk Hx) as [_ [->|Hx']]; [done|eauto].
Qed.

Lemma inv_abort m id t now ss :
  manager_inv m -> tasks m !! id = Some t -> status t = Running ->
  manager_inv (mkManager (<[id := mkTask (description t) Aborted (created_at t) (Some now) (task_result t)]> (tasks m))
                 (abort_handles m) (workers m) ss).
Proof.
  intros [H1 H2 H3 H4 H5] Ht Hr. split; simpl; [|done|..].
  - intros i t' [[<- <-]|[_ Ht']]%lookup_insert_Some; [|by apply (H1 i)].
    specialize (H1 id t Ht). unfold well_formed in *. rewrite Hr in H1. simpl. by destruct H1.
  - intros w Hw. apply lookup_insert_is_Some. destruct (decide (id = tid w)); [by left|right].
    split; [done|by apply H3].
  - intros w t' Hw Hat [[_ <-]|[_ Ht']]%lookup_insert_Some; [by right|by apply (H4 w t')].
  - intros i t' [[_ <-]|[_ Ht']]%lookup_insert_Some Hr'; [done|by apply (H5 i t')].
Qed.

Lemma inv_stops m ss : manager_inv m -> manager_inv (mkManager (tasks m) (abort_handles m) (workers m) ss).
Proof. by intros [H1 H2 H3 H4 H5]. Qed.

Lemma invariant_step m m' e : manager_inv m -> fresh e m -> step e m = Some m' -> manager_inv m'.
Proof.
  intros Hinv Hf Hs. destruct e as [id desc now|k|k ev|k|k now|k|id|j now]; simpl in Hs.
  - injection Hs as <-. by apply inv_create.
  - apply bind_Some in Hs as (w & Hk & Hs). destruct (worker_state w) eqn:E; try done. injection Hs as <-.
    apply (inv_worker m _ _ k w); [done|done|done|]. unfold at_work. simpl. by rewrite E.
  - apply bind_Some in Hs as (w & Hk & Hs). destruct (worker_state w) eqn:E; try done. injection Hs as <-.
    apply (inv_worker m _ _ k w); [done|done|..].
    + intros w0. by destruct ev as [|[]| | |].
    + unfold at_work. rewrite E. destruct ev as [|[]| | |]; simpl; try done. by rewrite E.
  - apply bind_Some in Hs as (w & Hk & Hs). destruct (worker_state w) eqn:E; try done.
    destruct (_ && _)%bool; [|done]. injection Hs as <-. by apply (inv_worker m _ _ k w).
  - apply bind_Some in Hs as (w & Hk & Hs). destruct (worker_state w) eqn:E; try done. injection Hs as <-.
    apply inv_write_outcome; [done|done|]. unfold at_work. by rewrite E.
  - apply bind_Some in Hs as (w & Hk & Hs). destruct (worker_state w) eqn:E; try done. injection Hs as <-.
    apply (inv_worker m _ _ k w); [done|done|done|]. unfold at_work. simpl. by rewrite E.
  - injection Hs as <-. unfold stop_send. destruct (abort_handles m !! id) as [k|]; [|by apply inv_stops].
    destruct (workers m !! k) as [w|] eqn:Hk; [by apply (inv_worker m _ _ k w)|].
    replace (alter raise_signal k (workers m)) with (workers m); [by apply inv_stops|].
    apply list_eq. intros i. destruct (decide (i = k)) as [->|Hne].
    + by rewrite list_lookup_alter_eq, Hk.
    + by rewrite list_lookup_alter_ne.
  - apply bind_Some in Hs as (s & Hj & Hs). destruct (answer s); [done|]. injection Hs as <-.
    unfold stop_mark. destruct (tasks m !! stop_id s) as [t|] eqn:Ht; [|by apply inv_stops].
    unfold is_running. destruct (status t) eqn:E; try (by apply inv_stops). by apply inv_abort.
Qed.

Lemma reaches_inv m : reaches m -> manager_inv m.
Proof.
  apply reachable_invariant.
  - intros ? ->. split; simpl; try done; [constructor|by intros w ?%not_elem_of_nil..].
  - intros m1 m2 Hinv [e Hf Hs]. by apply (invariant_step m1 m2 e).
Qed.
(** The life cycle of a background task, over every interleaving of
    creations, engine events, finalizations and stops (identifiers not drawn
    twice): a task is running exactly while its worker has not written the
    outcome and nobody marked it aborted; it has a completion time exactly from
    then on, and a result exactly when it completed; and once it has ended, no
    step changes anything in its record. *)
Theorem task_life_cycle (m : TaskManager) (id : string) (t : BackgroundTask) :
  reaches m -> tasks m !! id = Some t ->
  well_formed t /\
  (status t = Running -> exists w, w ∈ workers m /\ tid w = id /\ at_work w = true) /\
  (status t <> Running -> forall m', moves m m' -> tasks m' !! id = Some t).
Proof.
  intros Hr Ht. pose proof (reaches_inv m Hr) as Hinv. split; [by apply (inv_formed m Hinv id)|].
  split; [by apply (inv_running m Hinv id t)|]. intros Hend m' [e Hf Hs].
  destruct e as [i desc now|k|k ev|k|k now|k|i|j now]; simpl in Hs.
  - injection Hs as <-. simpl. simpl in Hf. rewrite lookup_insert_ne; [done|]. intros ->. congruence.
  - apply bind_Some in Hs as (w & Hk & Hs). destruct (worker_state w); try done. by injection Hs as <-.
  - apply bind_Some in Hs as (w & Hk & Hs). destruct (worker_state w); try done. by injection Hs as <-.
  - apply bind_Some in Hs as (w & Hk & Hs). destruct (worker_state w); try done.
    destruct (_ && _)%bool; [|done]. by injection Hs as <-.
  - apply bind_Some in Hs as (w & Hk & Hs). destruct (worker_state w) eqn:E; try done. injection Hs as <-. simpl.
    destruct (decide (id = tid w)) as [->|Hne]; [|by rewrite lookup_alter_ne].
    rewrite lookup_alter_eq, Ht. simpl.
    destruct (inv_at_work m Hinv w t) as [?|Hab]; try done.
    + by apply list_elem_of_lookup_2 in Hk.
    + unfold at_work. by rewrite E.
    + unfold finalize. by rewrite Hab.
  - apply bind_Some in Hs as (w & Hk & Hs). destruct (worker_state w); try done. by injection Hs as <-.
  - injection Hs as <-. unfold stop_send. by destruct (abort_handles m !! i).
  - apply bind_Some in Hs as (s & Hj & Hs). destruct (answer s); [done|]. injection Hs as <-.
    unfold stop_mark. destruct (tasks m !! stop_id s) as [t'|] eqn:Ht'; [|done].
    unfold is_running. destruct (status t') eqn:E; try done. simpl.
    rewrite lookup_insert_ne; [done|]. intros <-. congruence.
Qed.

(** A refusal is true: when [stop_task] answers [false], the task is unknown or
    has ended. *)
Lemma stop_false_means_ended m j s now :
  stops m !! j = Some s -> stops (stop_mark j s now m) !! j = Some (mkStop (stop_id s) (sent s) (Some false)) ->
  match tasks (stop_mark j s now m) !! stop_id s with Some t => status t <> Running | None => True end.
Proof.
  intros Hj. unfold stop_mark. destruct (tasks m !! stop_id s) as [t|] eqn:Ht; simpl; [|by rewrite Ht].
  unfold is_running. destruct (status t) eqn:E; simpl; rewrite ?Ht, ?E; try done.
  by rewrite list_lookup_alter_eq, Hj.
Qed.

(** ** Runs *)

Definition run (es : list Event) : option TaskManager := foldl (fun o e => o ≫= step e) (Some new) es.

Fixpoint freshness (es : list Event) (m : TaskManager) : bool :=
  match es with
  | [] => true
  | e :: rest =>
      (match e with Create id _ _ => negb (is_some (tasks m !! id)) | _ => true end &&
       match step e m with Some m' => freshness rest m' | None => false end)%bool
  end.

Lemma run_reaches_from es m m' :
  reaches m -> freshness es m = true -> foldl (fun o e => o ≫= step e) (Some m) es = Some m' -> reaches m'.
Proof.
  revert m. induction es as [|e es IH]; intros m Hr; simpl; [by intros _ [= <-]|].
  intros [Hf Hs]%andb_true_iff. destruct (step e m) as [m1|] eqn:E; [|done].
  apply IH; [|done]. apply (reach_step _ _ m); [done|]. apply (moves_by m m1 e); [|done].
  destruct e; try done. simpl. by destruct (tasks m !! id).
Qed.

Definition completed_run : list Event :=
  [Create "t1" "index" "10:00"; InstallHandle 0; EngineSays 0 (AssistantChunk "do"); EngineSays 0 (AssistantChunk "ne");
   EngineSays 0 (ResultEvent None); WriteOutcome 0 "10:05"].

Definition after (es : list Event) : TaskManager := default new (run es).

Lemma completed_reached : reaches (after completed_run).
Proof.
  apply (run_reaches_from completed_run new); [by apply reach_init|vm_compute; reflexivity|].
  vm_compute. reflexivity.
Qed.

Definition completed_task : BackgroundTask := mkTask "index" Completed "10:00" (Some "10:05") (Some "done").

Lemma task_life_cycle_witness :
  well_formed completed_task /\
  (status completed_task = Running ->
     exists w, w ∈ workers (after completed_run) /\ tid w = "t1" /\ at_work w = true) /\
  (status completed_task <> Running ->
     forall m', moves (after completed_run) m' -> tasks m' !! "t1" = Some completed_task).
Proof.
  apply (task_life_cycle (after completed_run) "t1" completed_task completed_reached). vm_compute. reflexivity.
Defined.

(** The documentation promises [false] for a task that has already finished;
    between the outcome and the removal of the handle the answer is [true],
    though the task completed. *)
Example stop_true_after_completion :
  let m := after (completed_run ++ [StopSend "t1"; StopMark 0 "10:06"]) in
  (fun s => answer s) <$> stops m = [Some true] /\ tasks m !! "t1" = Some completed_task.
Proof. vm_compute. split; reflexivity. Qed.

(** A stop that comes between the entry of the task and that of its handle
    marks the task aborted, but its signal has nowhere to go: the engine is
    never told, and runs on. *)
Example early_stop_never_arrives :
  let m := after [Create "t1" "index" "10:00"; StopSend "t1"; StopMark 0 "10:01"; InstallHandle 0] in
  (fun t => status t) <$> tasks m !! "t1" = Some Aborted /\
  (fun s => answer s) <$> stops m = [Some true] /\
  (fun w => (worker_state w, signal w)) <$> workers m = [(Driving, false)] /\
  is_some (step (Observe 0) m) = false.
Proof. vm_compute. repeat split. Qed.

(** Identifiers are eight hexadecimal digits: one drawn twice replaces the
    record of a task that still runs, and then both workers write to it. *)
Example repeated_id_overwrites :
  let m := after [Create "t1" "first" "10:00"; InstallHandle 0; Create "t1" "second" "10:01"; InstallHandle 1;
                  EngineSays 0 (ErrorEvent "boom"); WriteOutcome 0 "10:02";
                  EngineSays 1 (ResultEvent (Some "ok")); WriteOutcome 1 "10:03"] in
  size (tasks m) = 1%nat /\ (fun t => (description t, status t)) <$> tasks m !! "t1" = Some ("second", Completed).
Proof. vm_compute. split; reflexivity. Qed.
End Manager.
