(* ===== verification/Router.v ===== *)
(** * Router: the model router and its budget ([engine/model_router])

    [ModelRouter] picks a model for a prompt by prioritized rules; the
    [BudgetManager] says whether a call can be afforded and keeps the daily and
    monthly spending.  Amounts are [f64]; the date and the hour are
    arguments. *)

From stdpp Require Import base strings list sorting.
From Stdlib Require Import ZArith Lia.
From S2P Require Import Prelude Text Float64.

#[local] Open Scope Z_scope.
#[local] Open Scope string_scope.

(** ** Types ([types.rs]) *)

Record ModelInfo := mkModel {
  name : string;
  provider : string;
  max_tokens : Z;
  cost_per_1k_input : f64;
  cost_per_1k_output : f64;
  capabilities : list string;
  priority : Z
}.

Definition new_model (name provider : string) (max_tokens : Z) (ci co : f64) : ModelInfo :=
  mkModel name provider max_tokens ci co [] 0.

Definition with_capabilities (caps : list string) (m : ModelInfo) : ModelInfo :=
  mkModel (name m) (provider m) (max_tokens m) (cost_per_1k_input m) (cost_per_1k_output m) caps (priority m).

Definition with_priority (p : Z) (m : ModelInfo) : ModelInfo :=
  mkModel (name m) (provider m) (max_tokens m) (cost_per_1k_input m) (cost_per_1k_output m) (capabilities m) p.

Definition has_capability (cap : string) (m : ModelInfo) : bool := existsb (String.eqb cap) (capabilities m).

Definition estimate_cost (m : ModelInfo) (input_tokens output_tokens : Z) : f64 :=
  let input_cost := f64_mul (f64_div (f64_of_Z input_tokens) (f64_of_Z 1000)) (cost_per_1k_input m) in
  let output_cost := f64_mul (f64_div (f64_of_Z output_tokens) (f64_of_Z 1000)) (cost_per_1k_output m) in
  f64_add input_cost output_cost.

Inductive RouteCondition :=
| TaskComplexity (min max : f64)
| MessageLength (min max : nat)
| FileCount (min max : nat)
| TimeOfDay (hour_start hour_end : Z)
| Always.

Definition matches (c : RouteCondition) (prompt : string) (file_count : nat) (complexity : f64) (current_hour : Z) : bool :=
  match c with
  | TaskComplexity lo hi => (f64_ge complexity lo && f64_le complexity hi)%bool
  | MessageLength lo hi => let len := char_count (bytes_of prompt) in (Nat.leb lo len && Nat.leb len hi)%bool
  | FileCount lo hi => (Nat.leb lo file_count && Nat.leb file_count hi)%bool
  | TimeOfDay from to =>
      if Z.leb from to then (Z.leb from current_hour && Z.leb current_hour to)%bool
      else (Z.leb from current_hour || Z.leb current_hour to)%bool
  | Always => true
  end.

Record RoutingRule := mkRule {
  rule_id : string;
  description : string;
  condition : RouteCondition;
  target_model : string;
  rule_priority : Z;
  enabled : bool
}.

Record RoutingDecision := mkDecision { selected_model : string; reason : string; confidence : f64 }.

(** ** The router ([router.rs]) *)

Record ModelRouter := mkRouter { models : list ModelInfo; rules : list RoutingRule }.

Definition sonnet : string := "claude-sonnet-4-20250514".

Definition default_models : list ModelInfo :=
  [ with_priority 10 (with_capabilities ["code"; "reasoning"; "vision"; "tool_use"]
      (new_model sonnet "anthropic" 200000 (f64_ratio 3 1000) (f64_ratio 15 1000)));
    with_priority 5 (with_capabilities ["code"; "reasoning"; "vision"; "tool_use"; "advanced_reasoning"]
      (new_model "claude-opus-4-20250514" "anthropic" 200000 (f64_ratio 15 1000) (f64_ratio 75 1000)));
    with_priority 1 (with_capabilities ["code"; "tool_use"; "fast"]
      (new_model "claude-3-5-haiku-20241022" "anthropic" 200000 (f64_ratio 8 10000) (f64_ratio 4 1000))) ].

Definition new : ModelRouter := mkRouter default_models [].

(** Replacing the first with the same key, or appending. *)
Fixpoint replace_first {A} (same : A -> bool) (x : A) (l : list A) : option (list A) :=
  match l with
  | [] => None
  | y :: l' => if same y then Some (x :: l') else (cons y) <$> replace_first same x l'
  end.

Definition upsert {A} (same : A -> bool) (x : A) (l : list A) : list A :=
  default (l ++ [x])%list (replace_first same x l).

Definition add_model (m : ModelInfo) (r : ModelRouter) : ModelRouter :=
  mkRouter (upsert (fun x => String.eqb (name x) (name m)) m (models r)) (rules r).

Definition remove_model (n : string) (r : ModelRouter) : ModelRouter * bool :=
  let kept := retain (fun m => negb (String.eqb (name m) n)) (models r) in
  (mkRouter kept (rules r), Nat.ltb (length kept) (length (models r))).

Definition add_rule (x : RoutingRule) (r : ModelRouter) : ModelRouter :=
  mkRouter (models r) (upsert (fun y => String.eqb (rule_id y) (rule_id x)) x (rules r)).

Definition remove_rule (i : string) (r : ModelRouter) : ModelRouter * bool :=
  let kept := retain (fun x => negb (String.eqb (rule_id x) i)) (rules r) in
  (mkRouter (models r) kept, Nat.ltb (length kept) (length (rules r))).

Definition set_rules (rs : list RoutingRule) (r : ModelRouter) : ModelRouter := mkRouter (models r) rs.

Definition get_model (n : string) (r : ModelRouter) : option ModelInfo :=
  List.find (fun m => String.eqb (name m) n) (models r).

(** Priority descending, then the id. *)
Definition rule_le (a b : RoutingRule) : bool :=
  (Z.ltb (rule_priority b) (rule_priority a) ||
   (Z.eqb (rule_priority a) (rule_priority b) && str_leb (rule_id a) (rule_id b)))%bool.

(** [max_by_key]: the last of the greatest. *)
Fixpoint max_by_priority (l : list ModelInfo) : option ModelInfo :=
  match l with
  | [] => None
  | m :: l' =>
      match max_by_priority l' with
      | Some best => Some (if Z.ltb (priority best) (priority m) then m else best)
      | None => Some m
      end
  end.

Definition usable (r : ModelRouter) (prompt : string) (file_count : nat) (complexity : f64) (hour : Z) (x : RoutingRule) : bool :=
  (matches (condition x) prompt file_count complexity hour && is_some (get_model (target_model x) r))%bool.

Definition rule_reason (x : RoutingRule) : string := "Rule '" +:+ rule_id x +:+ "': " +:+ description x.

Definition default_model (r : ModelRouter) : string :=
  default sonnet (name <$> max_by_priority (models r)).

Definition route (prompt : string) (file_count : nat) (complexity : f64) (hour : Z) (r : ModelRouter) : RoutingDecision :=
  let sorted := sort_by rule_le (List.filter enabled (rules r)) in
  match List.find (usable r prompt file_count complexity hour) sorted with
  | Some x => mkDecision (target_model x) (rule_reason x) (f64_ratio 85 100)
  | None => mkDecision (default_model r) "No rules matched; using default highest-priority model" (f64_ratio 5 10)
  end.

(** ** The budget ([budget.rs]) *)

Inductive BudgetResult :=
| Allowed
| Warning (message : string)
| Blocked (reason : string).

Record BudgetManager := mkBudget {
  daily_limit : f64;
  monthly_limit : f64;
  current_daily : f64;
  current_monthly : f64;
  last_daily_reset_day : Z;
  last_monthly_reset_month : Z;
  last_reset_year : Z
}.

Record Date := mkDate { day : Z; month : Z; year : Z }.

Definition new_budget (daily monthly : f64) (now : Date) : BudgetManager :=
  mkBudget daily monthly f64_zero f64_zero (day now) (month now) (year now).

Definition reset_monthly (now : Date) (b : BudgetManager) : BudgetManager :=
  if (negb (Z.eqb (month now) (last_monthly_reset_month b)) || negb (Z.eqb (year now) (last_reset_year b)))%bool
  then mkBudget (daily_limit b) (monthly_limit b) (current_daily b) f64_zero (last_daily_reset_day b)
                (month now) (last_reset_year b)
  else b.

Definition reset_daily (now : Date) (b : BudgetManager) : BudgetManager :=
  if (negb (Z.eqb (day now) (last_daily_reset_day b)) ||
      negb (Z.eqb (month now) (last_monthly_reset_month b)) || negb (Z.eqb (year now) (last_reset_year b)))%bool
  then mkBudget (daily_limit b) (monthly_limit b) f64_zero (current_monthly b) (day now)
                (last_monthly_reset_month b) (last_reset_year b)
  else b.

Definition ensure_reset (now : Date) (b : BudgetManager) : BudgetManager :=
  let b := reset_daily now (reset_monthly now b) in
  mkBudget (daily_limit b) (monthly_limit b) (current_daily b) (current_monthly b)
           (last_daily_reset_day b) (last_monthly_reset_month b) (year now).

Definition estimated_cost (m : ModelInfo) (estimated_tokens : Z) : f64 :=
  let input := f64_to_u64 (f64_mul (f64_of_Z estimated_tokens) (f64_ratio 7 10)) in
  let output := f64_to_u64 (f64_mul (f64_of_Z estimated_tokens) (f64_ratio 3 10)) in
  estimate_cost m input output.

Definition monthly_exceeded (b : BudgetManager) (cost : f64) : string :=
  "Monthly budget exceeded: $" +:+ fmt_fixed 2 (current_monthly b) +:+ " spent of $" +:+
  fmt_fixed 2 (monthly_limit b) +:+ " limit, estimated $" +:+ fmt_fixed 4 cost +:+ " for this request".

Definition daily_exhausted (b : BudgetManager) : string :=
  "Daily budget exhausted: $" +:+ fmt_fixed 2 (current_daily b) +:+ " of $" +:+ fmt_fixed 2 (daily_limit b).

Definition daily_near (b : BudgetManager) : string :=
  "Approaching daily budget limit: $" +:+ fmt_fixed 2 (current_daily b) +:+ " / $" +:+
  fmt_fixed 2 (daily_limit b) +:+ " ($" +:+ fmt_fixed 4 (f64_sub (daily_limit b) (current_daily b)) +:+ " remaining)".

Definition daily_exceeded (b : BudgetManager) (cost : f64) : string :=
  "Daily budget would be exceeded: $" +:+ fmt_fixed 2 (current_daily b) +:+ " spent + $" +:+
  fmt_fixed 4 cost +:+ " estimated > $" +:+ fmt_fixed 2 (daily_limit b) +:+ " limit".

(** The decision once the counters are up to date. *)
Definition decide_budget (cost : f64) (b : BudgetManager) : BudgetResult :=
  if (f64_lt f64_zero (monthly_limit b) && f64_lt (monthly_limit b) (f64_add (current_monthly b) cost))%bool
  then Blocked (monthly_exceeded b cost)
  else if f64_lt f64_zero (daily_limit b)
  then
    let projected := f64_add (current_daily b) cost in
    if f64_ge (current_daily b) (daily_limit b) then Blocked (daily_exhausted b)
    else if (f64_lt (f64_mul (daily_limit b) (f64_ratio 9 10)) projected && f64_le projected (daily_limit b))%bool
    then Warning (daily_near b)
    else if f64_lt (daily_limit b) projected then Blocked (daily_exceeded b cost)
    else Allowed
  else Allowed.

Definition can_afford (now : Date) (m : ModelInfo) (estimated_tokens : Z) (b : BudgetManager) : BudgetResult * BudgetManager :=
  let b := ensure_reset now b in (decide_budget (estimated_cost m estimated_tokens) b, b).

Definition record_cost (now : Date) (cost : f64) (b : BudgetManager) : BudgetManager :=
  let b := ensure_reset now b in
  mkBudget (daily_limit b) (monthly_limit b) (f64_add (current_daily b) cost) (f64_add (current_monthly b) cost)
           (last_daily_reset_day b) (last_monthly_reset_month b) (last_reset_year b).

Definition remaining_daily (b : BudgetManager) : f64 := f64_max (f64_sub (daily_limit b) (current_daily b)) f64_zero.
Definition remaining_monthly (b : BudgetManager) : f64 := f64_max (f64_sub (monthly_limit b) (current_monthly b)) f64_zero.

(** ** Routing *)

Lemma rule_le_total a b : rule_le a b = false -> rule_le b a = true.
Proof.
  unfold rule_le. rewrite !orb_false_iff, orb_true_iff, andb_false_iff, andb_true_iff, !Z.ltb_ge, Z.eqb_neq.
  intros [H1 H2]. destruct (Z.eqb_spec (rule_priority b) (rule_priority a)) as [He|Hne].
  - right. split; [done|]. destruct H2 as [|H2]; [congruence|]. by apply str_leb_total.
  - left. apply Z.ltb_lt. lia.
Qed.

Lemma rule_le_trans a b c : rule_le a b = true -> rule_le b c = true -> rule_le a c = true.
Proof.
  unfold rule_le. rewrite !orb_true_iff, !andb_true_iff, !Z.ltb_lt, !Z.eqb_eq.
  intros [H1|[H1 H1']] [H2|[H2 H2']]; [left; lia|left; lia|left; lia|right].
  split; [lia|]. by apply (str_leb_trans _ (rule_id b)).
Qed.

Lemma rule_le_refl a : rule_le a a = true.
Proof. destruct (rule_le a a) eqn:E; [done|]. by rewrite <- (rule_le_total a a E). Qed.

Lemma rule_le_best x y :
  rule_le x y = true ->
  rule_priority y < rule_priority x \/
  rule_priority y = rule_priority x /\ str_leb (rule_id x) (rule_id y) = true.
Proof. unfold rule_le. rewrite orb_true_iff, andb_true_iff, Z.ltb_lt, Z.eqb_eq. intros [?|[??]]; auto. Qed.

(** The first hit in a sorted list precedes every other hit. *)
Lemma find_sorted (p : RoutingRule -> bool) l x :
  StronglySorted (le_rel rule_le) l -> List.find p l = Some x ->
  x ∈ l /\ p x = true /\ forall y, y ∈ l -> p y = true -> rule_le x y = true.
Proof.
  induction 1 as [|z l Hs IH Hz]; [done|]. simpl. destruct (p z) eqn:E.
  - intros [= <-]. split; [by left|]. split; [done|]. intros y [->|Hy]%elem_of_cons _; [apply rule_le_refl|].
    rewrite list.Forall_forall in Hz. by apply Hz.
  - intros (Hin & Hp & Hle)%IH. split; [by right|]. split; [done|].
    intros y [->|Hy]%elem_of_cons Hy'; [congruence|by apply Hle].
Qed.

Lemma max_by_priority_spec l m :
  max_by_priority l = Some m -> m ∈ l /\ forall x, x ∈ l -> priority x <= priority m.
Proof.
  revert m. induction l as [|z l IH]; intros m; [done|]. simpl.
  destruct (max_by_priority l) as [b|] eqn:E.
  - destruct (IH b eq_refl) as [Hin Hmax]. intros [= <-].
    destruct (Z.ltb_spec (priority b) (priority z)); split.
    + by left.
    + intros x [->|Hx%Hmax]%elem_of_cons; lia.
    + by right.
    + intros x [->|Hx]%elem_of_cons; [lia|by apply Hmax].
  - intros [= <-]. split; [by left|]. intros x [->|Hx]%elem_of_cons; [lia|].
    destruct l; [by apply not_elem_of_nil in Hx|]. simpl in E. by destruct (max_by_priority l).
Qed.

Lemma max_by_priority_some l : l <> [] -> is_Some (max_by_priority l).
Proof. destruct l as [|m l]; [done|]. intros _. simpl. destruct (max_by_priority l); eauto. Qed.

Lemma get_model_some n r : is_some (get_model n r) = true -> exists m, m ∈ models r /\ name m = n.
Proof.
  intros [m Hm]%is_some_true. unfold get_model in Hm. apply find_some in Hm as [Hin He].
  exists m. split; [by apply list_elem_of_In|]. by apply String.eqb_eq.
Qed.

(** Routing: the model chosen is the target of the best rule that is
    enabled, matches and names a known model, best meaning the highest priority
    and then the least id; when there is none, it is a model of the highest
    priority.  So with any model registered the choice is a registered model,
    whatever the rules name. *)
Theorem route_correct (prompt : string) (file_count : nat) (complexity : f64) (hour : Z) (r : ModelRouter) :
  let candidate x := x ∈ rules r /\ enabled x = true /\ usable r prompt file_count complexity hour x = true in
  let chosen := selected_model (route prompt file_count complexity hour r) in
  ((exists x, candidate x /\ chosen = target_model x /\
      forall y, candidate y ->
        rule_priority y < rule_priority x \/
        rule_priority y = rule_priority x /\ str_leb (rule_id x) (rule_id y) = true) \/
   ((forall y, ~ candidate y) /\ chosen = default_model r)) /\
  (models r <> [] -> exists m, m ∈ models r /\ name m = chosen) /\
  (models r <> [] -> exists m, m ∈ models r /\ name m = default_model r /\
                               forall x, x ∈ models r -> priority x <= priority m).
Proof.
  intros candidate chosen.
  assert (Hdef : models r <> [] -> exists m, m ∈ models r /\ name m = default_model r /\
                                   forall x, x ∈ models r -> priority x <= priority m).
  { intros [m Hm]%max_by_priority_some. unfold default_model. rewrite Hm. simpl.
    apply max_by_priority_spec in Hm as [Hin Hmax]. by exists m. }
  set (sorted := sort_by rule_le (List.filter enabled (rules r))).
  assert (Hin : forall y, y ∈ sorted <-> y ∈ rules r /\ enabled y = true)
    by (intros y; unfold sorted; by rewrite elem_of_sort_by, elem_of_retain).
  assert (Hs : StronglySorted (le_rel rule_le) sorted).
  { apply Sorted_StronglySorted; [intros a b c; apply rule_le_trans|]. apply sort_by_sorted, rule_le_total. }
  unfold chosen, route. fold sorted.
  destruct (List.find (usable r prompt file_count complexity hour) sorted) as [x|] eqn:E; simpl.
  - apply (find_sorted _ _ _ Hs) in E as (Hx & Hu & Hbest). split_and!; [|intros _|done].
    + left. exists x. split; [by apply Hin in Hx as [??]|]. split; [done|].
      intros y (Hy & He & Hy'). apply rule_le_best, Hbest; [by apply Hin|done].
    + unfold usable in Hu. apply andb_true_iff in Hu as [_ Hm]. by apply get_model_some.
  - split_and!; [right|intros Hne; destruct (Hdef Hne) as (m & ? & ? & _); by exists m|done].
    split; [|done]. intros y (Hy & He & Hu).
    assert (Hys : y ∈ sorted) by (by apply Hin). apply list_elem_of_In in Hys.
    pose proof (find_none _ _ E y Hys). congruence.
Qed.

(** ** The budget *)

(** The daily counter is reset by the day of the month and the year
    alone: [ensure_reset] brings the month it remembers up to date before the
    daily test reads it.  A month later to the day, yesterday's (or last
    month's) spending still counts against today. *)
Theorem daily_reset_ignores_month (now : Date) (b : BudgetManager) :
  current_daily (ensure_reset now b) =
  if (Z.eqb (day now) (last_daily_reset_day b) && Z.eqb (year now) (last_reset_year b))%bool
  then current_daily b else f64_zero.
Proof.
  unfold ensure_reset. simpl. unfold reset_daily, reset_monthly.
  destruct (Z.eqb_spec (month now) (last_monthly_reset_month b)) as [Hm|Hm],
           (Z.eqb_spec (year now) (last_reset_year b)) as [Hy|Hy],
           (Z.eqb_spec (day now) (last_daily_reset_day b)) as [Hd|Hd];
    simpl; rewrite ?(proj2 (Z.eqb_eq _ _) Hm), ?(proj2 (Z.eqb_eq _ _) Hy), ?(proj2 (Z.eqb_eq _ _) Hd),
      ?(proj2 (Z.eqb_neq _ _) Hm), ?(proj2 (Z.eqb_neq _ _) Hy), ?(proj2 (Z.eqb_neq _ _) Hd), ?Z.eqb_refl;
    simpl; reflexivity.
Qed.

(** The monthly counter is reset exactly by a new month or year, and a second
    look on the same date changes nothing. *)
Lemma monthly_reset_correct now b :
  current_monthly (ensure_reset now b) =
  if (Z.eqb (month now) (last_monthly_reset_month b) && Z.eqb (year now) (last_reset_year b))%bool
  then current_monthly b else f64_zero.
Proof.
  unfold ensure_reset, reset_daily, reset_monthly.
  destruct (Z.eqb (month now) (last_monthly_reset_month b)), (Z.eqb (year now) (last_reset_year b));
    simpl; repeat case_match; reflexivity.
Qed.

(** A fraction of the documented reset: on the 15th of April the manager still
    counts what was spent on the 15th of March, and blocks. *)
Example march_spending_blocks_april :
  let b := record_cost (mkDate 15 3 2026) (f64_of_Z 10) (new_budget (f64_of_Z 10) (f64_of_Z 200) (mkDate 15 3 2026)) in
  let haiku := new_model "m" "p" 1000 (f64_ratio 1 1000) (f64_ratio 1 1000) in
  (can_afford (mkDate 15 4 2026) haiku 1000 b).1 = Blocked "Daily budget exhausted: $10.00 of $10.00" /\
  f64_eq (current_monthly (can_afford (mkDate 15 4 2026) haiku 1000 b).2) f64_zero = true /\
  (can_afford (mkDate 16 4 2026) haiku 1000 b).1 = Allowed.
Proof. vm_compute. repeat split. Qed.

(** Of equal priorities the model registered last is the default. *)
Example last_of_equals :
  let m n := with_priority 10 (new_model n "p" 1000 f64_zero f64_zero) in
  selected_model (route "hi" 0 f64_zero 12 (add_model (m "newer") new)) = "newer".
Proof. vm_compute. reflexivity. Qed.

(** A rule over midnight, and one whose target is unknown. *)
Example night_rule :
  let r := add_rule (mkRule "night" "" (TimeOfDay 22 6) "claude-3-5-haiku-20241022" 1 true)
             (add_rule (mkRule "ghost" "" Always "no-such-model" 9 true) new) in
  (selected_model (route "hi" 0 f64_zero 23 r), selected_model (route "hi" 0 f64_zero 12 r))
  = ("claude-3-5-haiku-20241022", sonnet).
Proof. vm_compute. reflexivity. Qed.
