(* ===== verification/Tokens.v ===== *)
(** * Tokens: the token counter ([engine/token_counter.rs])

    The size of the conversation in tokens: the count the model reported for
    its last call, plus a tokenizer's count of what came after.  The counter's
    verdict decides whether the query loop compacts.  The tokenizer is a
    third-party library, an argument; [None] is its failure to load. *)

From stdpp Require Import base gmap strings list.
From Stdlib Require Import ZArith Lia.
From S2P Require Import Prelude Text Float64 Json Paths ToolHealth ToolExec ToolExecProofs Messages Stream Compact Query QueryProofs.

#[local] Open Scope Z_scope.
#[local] Open Scope string_scope.

Section Tokens.
Context `{J : Json}.
Context (tokenizer : option (string -> nat)).

Record TokenCounter := mkCounter {
  last_known_input_tokens : option Z;
  last_known_message_count : nat;
  threshold_ratio : f64;
  context_window : Z
}.

Definition new (context_window : Z) (ratio : f64) : TokenCounter := mkCounter None 0 ratio context_window.

(** ** Counting *)

(** The JSON of a content block, its tag first. *)
Definition source_value (s : Source) : Value :=
  json_object [("type", json_string (source_type s)); ("media_type", json_string (media_type s));
               ("data", json_string (source_data s))].

Definition block_value (b : ContentBlock) : Value :=
  json_object
    match b with
    | Text t => [("type", json_string "text"); ("text", json_string t)]
    | ToolUse i n v => [("type", json_string "tool_use"); ("id", json_string i); ("name", json_string n); ("input", v)]
    | Thinking t => [("type", json_string "thinking"); ("thinking", json_string t)]
    | Image s => [("type", json_string "image"); ("source", source_value s)]
    | Document s => [("type", json_string "document"); ("source", source_value s)]
    end.

Definition extract_text (m : Message) : string :=
  match content m with
  | User message _ _ =>
      match as_str (user_content message) with
      | Some s => s
      | None => default "" (to_json_string (user_content message))
      end
  | Assistant message _ _ => default "" (to_json_string (json_array (block_value <$> blocks message)))
  | System _ text => text
  | Progress _ _ => ""
  end.

Definition count_text_tokens (text : string) : Z :=
  match tokenizer with
  | Some encode => Z.of_nat (encode text)
  | None => sat_mul64 (Z.of_nat (char_count (bytes_of text))) 3 / 4
  end.

Definition count_messages (ms : list Message) : Z :=
  foldl (fun acc m => add64 acc (count_text_tokens (extract_text m))) 0 ms.

Definition calibrate (api_input_tokens : Z) (message_count : nat) (c : TokenCounter) : TokenCounter :=
  mkCounter (Some api_input_tokens) message_count (threshold_ratio c) (context_window c).

Definition estimate (ms : list Message) (c : TokenCounter) : Z :=
  match last_known_input_tokens c with
  | Some baseline =>
      if Nat.leb (last_known_message_count c) (length ms)
      then add64 baseline (count_messages (drop (last_known_message_count c) ms))
      else count_messages ms
  | None => count_messages ms
  end.

(** ** Thresholds *)

Definition compact_threshold (c : TokenCounter) : Z :=
  f64_to_u64 (f64_mul (f64_of_Z (context_window c)) (threshold_ratio c)).
Definition should_compact_given (est : Z) (c : TokenCounter) : bool := Z.ltb (compact_threshold c) est.
Definition should_compact (ms : list Message) (c : TokenCounter) : bool := should_compact_given (estimate ms c) c.

Definition effective_window (c : TokenCounter) : Z := sat_sub64 (context_window c) 33000.
Definition warning_threshold (c : TokenCounter) : Z := sat_sub64 (effective_window c) 20000.
Definition blocking_threshold (c : TokenCounter) : Z := sat_sub64 (effective_window c) 3000.

Definition budget_status_given (est : Z) (c : TokenCounter) : BudgetStatus :=
  if Z.ltb (blocking_threshold c) est then BudgetBlocking
  else if Z.ltb (warning_threshold c) est then BudgetWarning
  else if Z.ltb (compact_threshold c) est then BudgetCompact
  else BudgetNormal.

Definition budget_status_of (ms : list Message) (c : TokenCounter) : BudgetStatus :=
  budget_status_given (estimate ms c) c.

(** [compute_token_budget] of the query loop: the first turn takes the status
    computed before the loop, when there is one. *)
Definition compute_token_budget (ms : list Message) (turn_count : Z) (initial : option (BudgetStatus * Z)) (c : TokenCounter) :
    (BudgetStatus * Z) * option (BudgetStatus * Z) :=
  let now := let est := estimate ms c in (budget_status_given est c, est) in
  if Z.eqb turn_count 0
  then match initial with Some b => (b, None) | None => (now, None) end
  else (now, initial).

(** ** Baselines *)

Record TokenBaseline := mkBaseline { known_tokens : Z; known_count : nat }.

Definition baseline_of (c : TokenCounter) : option TokenBaseline :=
  (fun t => mkBaseline t (last_known_message_count c)) <$> last_known_input_tokens c.

Definition apply_baseline (b : TokenBaseline) (c : TokenCounter) : TokenCounter :=
  mkCounter (Some (known_tokens b)) (known_count b) (threshold_ratio c) (context_window c).
End Tokens.

(** ** Estimates *)
Section Estimates.
Context `{J : Json}.
Context (tokenizer : option (string -> nat)).

Lemma wrap64_idemp_l a b : wrap64 (wrap64 a + b) = wrap64 (a + b).
Proof. unfold wrap64. apply Z.add_mod_idemp_l. lia. Qed.

(** The counted size of one message. *)
Definition size_of (m : Message) : Z := count_text_tokens tokenizer (extract_text m).
Definition total_size (ms : list Message) : Z := foldr (fun m acc => size_of m + acc) 0 ms.

Lemma size_of_range m : 0 <= size_of m.
Proof.
  unfold size_of, count_text_tokens. destruct tokenizer; [lia|]. unfold sat_mul64.
  apply Z.div_pos; [|lia]. unfold u64_max. lia.
Qed.

Lemma total_size_range ms : 0 <= total_size ms.
Proof. induction ms as [|m ms IH]; simpl; [lia|]. pose proof (size_of_range m). lia. Qed.

Lemma total_size_app a b : total_size (a ++ b) = total_size a + total_size b.
Proof. induction a as [|m a IH]; simpl; [done|]. rewrite IH. lia. Qed.

Lemma count_messages_total ms : total_size ms <= u64_max -> count_messages tokenizer ms = total_size ms.
Proof.
  intros Hb. unfold count_messages.
  enough (forall acc, 0 <= acc -> acc + total_size ms <= u64_max ->
            foldl (fun acc m => add64 acc (count_text_tokens tokenizer (extract_text m))) acc ms
            = acc + total_size ms) as H by (rewrite H; lia).
  clear Hb. induction ms as [|m ms IH]; intros acc Ha Hb; simpl in *; [lia|].
  fold (size_of m). pose proof (size_of_range m). pose proof (total_size_range ms).
  unfold add64. rewrite wrap64_small by (unfold is_u64; lia). rewrite IH by lia. lia.
Qed.

(** Estimates (as long as they fit in 64 bits): before any call of the
    model the whole conversation is counted; after one, the reported size of
    its request stands for the messages it was made of, and exactly the
    messages since are counted; a conversation that has become shorter than the
    calibrated one (it was compacted) is counted whole again.  A baseline that
    is saved and restored gives the same estimates. *)
Theorem estimate_correct (c : TokenCounter) (api : Z) (sent since : list Message) :
  is_u64 api -> api + total_size (sent ++ since) <= u64_max ->
  let calibrated := calibrate api (length sent) c in
  (last_known_input_tokens c = None -> estimate tokenizer (sent ++ since) c = total_size (sent ++ since)) /\
  estimate tokenizer (sent ++ since) calibrated = api + total_size since /\
  (forall ms, (length ms < length sent)%nat -> total_size ms <= u64_max ->
     estimate tokenizer ms calibrated = total_size ms) /\
  (forall ms c',
     estimate tokenizer ms (default c' ((fun b => apply_baseline b c') <$> baseline_of calibrated))
     = estimate tokenizer ms calibrated).
Proof.
  intros [Ha0 Ha] Hb calibrated. rewrite total_size_app in Hb.
  pose proof (total_size_range sent). pose proof (total_size_range since). unfold estimate. split_and!.
  - intros ->. apply count_messages_total. rewrite total_size_app. lia.
  - simpl. rewrite length_app, (proj2 (Nat.leb_le _ _)) by lia. rewrite drop_app_length, count_messages_total by lia.
    unfold add64. apply wrap64_small. unfold is_u64. lia.
  - intros ms Hl Hm. simpl. rewrite (proj2 (Nat.leb_gt _ _) Hl). by apply count_messages_total.
  - reflexivity.
Qed.
End Estimates.

(** ** What the status leads to *)
Section Reaction.
Context `{J : Json} `{FS : FileSystem} `{Clk : Clock}.

Definition severity (s : BudgetStatus) : nat :=
  match s with BudgetNormal => 0 | BudgetCompact => 1 | BudgetWarning => 2 | BudgetBlocking => 3 end.

Lemma severity_mono c est est' :
  est <= est' -> (severity (budget_status_given est c) <= severity (budget_status_given est' c))%nat.
Proof.
  intros Hle. unfold budget_status_given.
  destruct (Z.ltb_spec (blocking_threshold c) est), (Z.ltb_spec (blocking_threshold c) est'); simpl; try lia;
  destruct (Z.ltb_spec (warning_threshold c) est), (Z.ltb_spec (warning_threshold c) est'); simpl; try lia;
  destruct (Z.ltb_spec (compact_threshold c) est), (Z.ltb_spec (compact_threshold c) est'); simpl; lia.
Qed.

(** Compaction went through: by the session memory or by a summary. *)
Definition compacts_to (i : Iter) (q q' : Query) : Prop :=
  exists h, q' = compacted i (estimate_tokens (messages q)) h q /\
    ((exists t, session_memory i = Some t /\ session_memory_compact (stamp i 4) t (messages q) = (h, true)) \/
     compact_messages (stamp i 4) (adaptive_keep_recent (adaptive q)) (mid_summary i) (messages q) = Ok h).

(** The reaction to the size of the conversation is not monotone:
    the status grows with the estimate, and with more than five messages and
    the circuit breaker closed a [Compact] or [Blocking] status leads to a
    compaction (or one more counted failure); but [Warning], which lies between
    them, leads to nothing.  So from the warning threshold on, a growing
    conversation is no longer compacted until it blocks. *)
Theorem warning_skips_compaction (c : TokenCounter) (est : Z) (i : Iter) (q : Query) :
  budget_status i = budget_status_given est c ->
  (warning_threshold c < est <= blocking_threshold c -> enforce_token_budget i q = q) /\
  (compact_threshold c < est <= warning_threshold c \/ blocking_threshold c < est ->
   (5 < length (messages q))%nat -> compact_fail_count q < MAX_COMPACT_FAILURES ->
   compacts_to i q (enforce_token_budget i q) \/
   enforce_token_budget i q = set_compaction (compact_fail_count q + 1) (adaptive q) q).
Proof.
  intros Hs. unfold enforce_token_budget. rewrite Hs. split.
  - intros [Hw Hb]. unfold budget_status_given.
    by rewrite (proj2 (Z.ltb_ge _ _) Hb), (proj2 (Z.ltb_lt _ _) Hw).
  - intros Hest Hlen Hfail.
    assert (Hst : budget_status_given est c = BudgetCompact \/ budget_status_given est c = BudgetBlocking).
    { unfold budget_status_given. destruct Hest as [[Hc Hw]|Hb].
      - left. assert (est <= blocking_threshold c) as Hb.
        { unfold blocking_threshold, warning_threshold, sat_sub64 in *. lia. }
        by rewrite (proj2 (Z.ltb_ge _ _) Hb), (proj2 (Z.ltb_ge _ _) Hw), (proj2 (Z.ltb_lt _ _) Hc).
      - right. by rewrite (proj2 (Z.ltb_lt _ _) Hb). }
    rewrite (proj2 (Nat.ltb_lt _ _) Hlen), (proj2 (Z.leb_gt _ _) Hfail).
    destruct Hst as [-> | ->]; unfold compacts_to; destruct (session_memory i) as [t|];
      try (destruct (session_memory_compact (stamp i 4) t (messages q)) as [h []] eqn:E; [left; exists h; eauto 10|]);
      (destruct (compact_messages _ _ _ _) as [h'|]; [left; exists h'; eauto|by right]).
Qed.

(** A window of 36000 tokens or fewer is always blocked, once anything is in
    it; and with the defaults for a window of 128000, the status is never
    [Compact]: the warning starts below the compact threshold. *)
Lemma small_window_blocks c est : context_window c <= 36000 -> 0 < est -> budget_status_given est c = BudgetBlocking.
Proof.
  intros Hw He. unfold budget_status_given. rewrite (proj2 (Z.ltb_lt _ _)); [done|].
  unfold blocking_threshold, effective_window, sat_sub64. lia.
Qed.

Lemma compact_unreachable c est :
  warning_threshold c <= compact_threshold c -> budget_status_given est c <> BudgetCompact.
Proof.
  intros Hw. unfold budget_status_given. destruct (Z.ltb _ est); [done|].
  destruct (Z.ltb_spec (warning_threshold c) est); [done|].
  destruct (Z.ltb_spec (compact_threshold c) est); [lia|done].
Qed.

Example default_ratio_128k :
  let c := new 128000 (f64_ratio 7 10) in
  (warning_threshold c, compact_threshold c, blocking_threshold c) = (75000, 89600, 92000).
Proof. vm_compute. reflexivity. Qed.

Example default_ratio_200k :
  let c := new 200000 (f64_ratio 7 10) in
  (compact_threshold c, warning_threshold c, blocking_threshold c) = (140000, 147000, 164000).
Proof. vm_compute. reflexivity. Qed.
End Reaction.

(** ** Witnesses *)
Section Demo.
#[local] Existing Instances flat_json flat_json_laws symlink_fs demo_clock demo_clock_laws.

Definition note (t : string) : Message := mkMessage "u" "t" (System Attachment t).

(** One token per byte. *)
Definition byte_tokens : option (string -> nat) := Some str_len.

Lemma estimate_correct_witness :
  estimate byte_tokens [note "abc"; note "de"] (calibrate 40 1 (new 128000 (f64_ratio 7 10))) = 42.
Proof.
  apply (estimate_correct byte_tokens (new 128000 (f64_ratio 7 10)) 40 [note "abc"] [note "de"]);
    vm_compute; [split; discriminate|discriminate].
Defined.

Definition with_status (b : BudgetStatus) : Iter :=
  mkIter false (fun _ => demo_stamp) 0 "t" b None (Ok []) (Ok []) (Ok [])
    NoAnswer (demo_env ChannelClosed) (fun l => l) demo_ctx 0.

Lemma warning_skips_compaction_witness :
  enforce_token_budget (with_status BudgetWarning) (demo_query (demo_config None)) = demo_query (demo_config None).
Proof.
  apply (warning_skips_compaction (new 128000 (f64_ratio 7 10)) 80000 (with_status BudgetWarning)
           (demo_query (demo_config None))); [vm_compute; reflexivity|].
  vm_compute. split; [reflexivity|discriminate].
Defined.

(** A baseline outlives a compaction once the conversation has grown past the
    calibrated length again: what is there now is not what was measured. *)
Example stale_baseline :
  let c := calibrate 90000 2 (new 128000 (f64_ratio 7 10)) in
  (estimate byte_tokens [note "summary"] c, estimate byte_tokens [note "summary"; note "next"] c) = (7, 90000).
Proof. vm_compute. reflexivity. Qed.
End Demo.
