(* ===== verification/RuleGate.v ===== *)
(** * RuleGate: the rule-based permission gate ([engine/permission_gate])

    The second gate of the daemon: an ordered list of rules, first match wins,
    behind a cache of what the user granted for a session or for good.  Glob
    patterns are a third-party library, hence an interface; the clock is an
    argument, read once per operation.  The contract of the cache is a map from
    what was asked to what was granted, and never forgets a grant by itself. *)

From stdpp Require Import base gmap strings list.
From Stdlib Require Import ZArith Lia.
From S2P Require Import Prelude Text.

#[local] Open Scope Z_scope.

(** [glob::Pattern::new(pattern)] and then [matches(target)]; [None] for a
    pattern that does not parse. *)
Class Globs := { glob_match : string -> string -> option bool }.

(** ** Data ([types.rs]) *)

Inductive DecisionType := Allow | Deny | AskUser | AllowOnce | AllowSession | AllowPermanent.

#[export] Instance DecisionType_eq : EqDecision DecisionType.
Proof. solve_decision. Defined.

Definition is_allowed (d : DecisionType) : bool :=
  match d with Allow | AllowOnce | AllowSession | AllowPermanent => true | _ => false end.

Definition requires_user_input (d : DecisionType) : bool :=
  match d with AskUser => true | _ => false end.

(** [Display]. *)
Definition show_decision (d : DecisionType) : string :=
  match d with
  | Allow => "allow" | Deny => "deny" | AskUser => "ask"
  | AllowOnce => "once" | AllowSession => "session" | AllowPermanent => "always"
  end.

Record PermissionRule := mkRule {
  rule_id : string;
  description : string;
  rule_tool : string;
  rule_action : string;
  target_pattern : option string;
  require_confirmation : bool;
  auto_deny : bool
}.

Definition new_rule (id desc tool action : string) : PermissionRule :=
  mkRule id desc tool action None false false.

Definition with_target (p : string) (r : PermissionRule) : PermissionRule :=
  mkRule (rule_id r) (description r) (rule_tool r) (rule_action r) (Some p) (require_confirmation r) (auto_deny r).
Definition with_confirmation (r : PermissionRule) : PermissionRule :=
  mkRule (rule_id r) (description r) (rule_tool r) (rule_action r) (target_pattern r) true (auto_deny r).
Definition with_auto_deny (r : PermissionRule) : PermissionRule :=
  mkRule (rule_id r) (description r) (rule_tool r) (rule_action r) (target_pattern r) (require_confirmation r) true.

Section Matching.
Context `{Globs}.

Definition matches_target (target : string) (r : PermissionRule) : bool :=
  match target_pattern r with
  | None => true
  | Some pattern =>
      if String.eqb pattern "*" then true
      else match glob_match pattern target with
           | Some b => b
           | None => str_contains target pattern
           end
  end.

Definition matches_tool_action (tool action : string) (r : PermissionRule) : bool :=
  if (negb (String.eqb (rule_tool r) "*") && negb (String.eqb (rule_tool r) tool))%bool then false
  else if negb (String.eqb (rule_action r) "*") then
    negb (negb (starts_with action (rule_action r)) && negb (String.eqb action (rule_action r)))
  else true.
End Matching.

Record PermissionRequest := mkRequest {
  req_id : string;
  req_tool : string;
  req_action : string;
  req_target : string;
  timestamp : Z
}.

Record EnginePermissionDecision := mkDecision {
  request_id : string;
  decision : DecisionType;
  rule_applied : option string;
  decision_expires_at : option Z
}.

Definition ask_user (id : string) : EnginePermissionDecision := mkDecision id AskUser None None.

Definition from_rule (id : string) (r : PermissionRule) : EnginePermissionDecision :=
  if auto_deny r then mkDecision id Deny (Some (rule_id r)) None
  else if require_confirmation r then mkDecision id AskUser (Some (rule_id r)) None
  else mkDecision id Allow (Some (rule_id r)) None.

Record CacheEntry := mkEntry {
  grant_of : DecisionType;
  entry_tool : string;
  entry_action : string;
  entry_target : string;
  expires_at : option Z
}.

Definition new_entry (now : Z) (d : DecisionType) (tool action target : string) (ttl : option Z) : CacheEntry :=
  mkEntry d tool action target (add64 now <$> ttl).

Definition expired (now : Z) (expiry : option Z) : bool :=
  match expiry with None => false | Some e => Z.leb e now end.

Definition is_expired (now : Z) (e : CacheEntry) : bool := expired now (expires_at e).

Definition entry_matches (tool action target : string) (e : CacheEntry) : bool :=
  (String.eqb (entry_tool e) tool && String.eqb (entry_action e) action && String.eqb (entry_target e) target)%bool.

(** ** The cache ([cache.rs]) *)

Module Cache.
Definition PermissionCache := list CacheEntry.

Definition cleanup (now : Z) (c : PermissionCache) : PermissionCache :=
  retain (fun e => negb (is_expired now e)) c.

(** The loop stops at the first live match; a miss purges what has expired. *)
Fixpoint find_live (now : Z) (tool action target : string) (c : PermissionCache) : option DecisionType :=
  match c with
  | [] => None
  | e :: c' =>
      if (entry_matches tool action target e && negb (is_expired now e))%bool then Some (grant_of e)
      else find_live now tool action target c'
  end.

Definition check_cache (now : Z) (tool action target : string) (c : PermissionCache) :
    option DecisionType * PermissionCache :=
  match find_live now tool action target c with
  | Some d => (Some d, c)
  | None => (None, cleanup now c)
  end.

Definition store (now : Z) (tool action target : string) (d : DecisionType) (ttl : option Z)
    (c : PermissionCache) : PermissionCache :=
  match d with
  | AllowSession | AllowPermanent =>
      retain (fun e => negb (entry_matches tool action target e)) c ++ [new_entry now d tool action target ttl]
  | _ => c
  end.

Definition clear (c : PermissionCache) : PermissionCache := [].
Definition len (c : PermissionCache) : nat := length c.

Definition revoke_cache (tool action target : string) (c : PermissionCache) : nat * PermissionCache :=
  let c' := retain (fun e => negb (entry_matches tool action target e)) c in
  ((length c - length c')%nat, c').
End Cache.

(** ** The gate ([gate.rs]) *)

Module Gate.
Record RuleBasedPermissionGate := mkGate {
  rules : list PermissionRule;
  cache : Cache.PermissionCache
}.

Definition dangerous_commands : list (string * string) :=
  [("default-bash-deny-rmrf", "rm -rf /");
   ("default-bash-deny-rmrf-home", "rm -rf ~");
   ("default-bash-deny-sudo", "sudo ");
   ("default-bash-deny-chmod", "chmod 777");
   ("default-bash-deny-dev-null", "> /dev/sda");
   ("default-bash-deny-fork-bomb", ":(){ :|:& };:");
   ("default-bash-deny-mkfs", "mkfs.");
   ("default-bash-deny-dd", "dd if=")].

Definition safe_commands : list string :=
  ["git status"; "git diff"; "git log"; "git branch"; "ls "; "cat "; "echo "; "find "; "grep ";
   "head "; "tail "; "wc "; "pwd"].

Definition deny_command (c : string * string) : PermissionRule :=
  with_auto_deny (new_rule (c.1) ("Auto-deny dangerous command: " +:+ c.2) "Bash" (c.2)).

Definition allow_command (cmd : string) : PermissionRule :=
  new_rule ("default-bash-allow-" +:+ replace_byte (Ascii.ascii_of_nat 32) (Ascii.ascii_of_nat 45) (trim cmd))
           ("Allow safe command: " +:+ trim cmd) "Bash" cmd.

(** [load_default_rules]: what it pushes. *)
Definition default_rules : list PermissionRule :=
  [new_rule "default-fileread-allow" "FileRead is always allowed" "FileRead" "*";
   with_auto_deny (with_target "*.env"
     (new_rule "default-filewrite-deny-env" "Deny writing to .env files" "FileWrite" "*"));
   with_auto_deny (with_target ".git/*"
     (new_rule "default-filewrite-deny-git" "Deny writing to .git directory" "FileWrite" "*"));
   with_auto_deny (with_target "*/.ssh/*"
     (new_rule "default-filewrite-deny-ssh" "Deny writing to SSH keys" "FileWrite" "*"));
   with_target "*.md"
     (new_rule "default-filewrite-allow-md" "Allow writing markdown files" "FileWrite" "*");
   with_confirmation
     (new_rule "default-filewrite-ask" "FileWrite requires confirmation by default" "FileWrite" "*")] ++
  (deny_command <$> dangerous_commands) ++
  (allow_command <$> safe_commands) ++
  [with_confirmation
     (new_rule "default-bash-ask" "Bash commands require confirmation by default" "Bash" "*");
   with_confirmation
     (new_rule "default-filedelete-ask" "FileDelete requires confirmation" "FileDelete" "*");
   with_confirmation
     (new_rule "default-fileedit-ask" "FileEdit requires confirmation" "FileEdit" "*");
   with_auto_deny (with_target "localhost:*"
     (new_rule "default-webfetch-deny-localhost" "Deny fetching localhost resources" "WebFetch" "*"));
   with_auto_deny (with_target "127.*"
     (new_rule "default-webfetch-deny-internal" "Deny fetching internal/private IPs" "WebFetch" "*"));
   with_auto_deny (with_target "10.*"
     (new_rule "default-webfetch-deny-internal2" "Deny fetching internal IPs (10.x)" "WebFetch" "*"));
   with_confirmation
     (new_rule "default-webfetch-ask" "WebFetch requires confirmation by default" "WebFetch" "*");
   new_rule "default-websearch-allow" "WebSearch is always allowed" "WebSearch" "*"].

Definition new : RuleBasedPermissionGate := mkGate default_rules [].

Section Operations.
Context `{Globs}.

(** The loop over the rules. *)
Fixpoint first_rule (tool action target : string) (rs : list PermissionRule) : option PermissionRule :=
  match rs with
  | [] => None
  | r :: rs' =>
      if negb (matches_tool_action tool action r) then first_rule tool action target rs'
      else if negb (matches_target target r) then first_rule tool action target rs'
      else Some r
  end.

Definition check (now : Z) (id tool action target : string) (g : RuleBasedPermissionGate) :
    EnginePermissionDecision * RuleBasedPermissionGate :=
  let '(cached, c) := Cache.check_cache now tool action target (cache g) in
  let g := mkGate (rules g) c in
  match cached with
  | Some d => (mkDecision id d (Some "cache") None, g)
  | None =>
      match first_rule tool action target (rules g) with
      | Some r => (from_rule id r, g)
      | None => (ask_user id, g)
      end
  end.

(** The fresh id is replaced by that of the request. *)
Definition check_request (now : Z) (fresh : string) (r : PermissionRequest) (g : RuleBasedPermissionGate) :
    EnginePermissionDecision * RuleBasedPermissionGate :=
  let '(d, g) := check now fresh (req_tool r) (req_action r) (req_target r) g in
  (mkDecision (req_id r) (decision d) (rule_applied d) (decision_expires_at d), g).
End Operations.

Definition add_rule (r : PermissionRule) (g : RuleBasedPermissionGate) : RuleBasedPermissionGate :=
  match position (fun x => String.eqb (rule_id x) (rule_id r)) (rules g) with
  | Some i => mkGate (<[i := r]> (rules g)) (cache g)
  | None => mkGate (rules g ++ [r]) (cache g)
  end.

Definition remove_rule (id : string) (g : RuleBasedPermissionGate) : bool * RuleBasedPermissionGate :=
  let rs := retain (fun x => negb (String.eqb (rule_id x) id)) (rules g) in
  (Nat.ltb (length rs) (length (rules g)), mkGate rs (cache g)).

Definition grant (now : Z) (tool action target : string) (d : DecisionType) (duration : option Z)
    (g : RuleBasedPermissionGate) : RuleBasedPermissionGate :=
  match d with
  | AllowSession =>
      let ttl := match duration with Some t => Some t | None => Some (3600 * 24) end in
      mkGate (rules g) (Cache.store now tool action target AllowSession ttl (cache g))
  | AllowPermanent => mkGate (rules g) (Cache.store now tool action target AllowPermanent None (cache g))
  | _ => g
  end.

Definition revoke (tool action target : string) (g : RuleBasedPermissionGate) : nat * RuleBasedPermissionGate :=
  let '(n, c) := Cache.revoke_cache tool action target (cache g) in (n, mkGate (rules g) c).

Definition rule_count (g : RuleBasedPermissionGate) : nat := length (rules g).
Definition clear_cache (g : RuleBasedPermissionGate) : RuleBasedPermissionGate :=
  mkGate (rules g) (Cache.clear (cache g)).
Definition cleanup_cache (now : Z) (g : RuleBasedPermissionGate) : RuleBasedPermissionGate :=
  mkGate (rules g) (Cache.cleanup now (cache g)).
Definition reset (g : RuleBasedPermissionGate) : RuleBasedPermissionGate :=
  mkGate default_rules (Cache.clear (cache g)).
End Gate.

(** ** The prompter ([interactive.rs]) *)

Module Prompter.
(** [truncate]; [None] where the slice panics. *)
Definition truncate (s : string) (max_len : nat) : option string :=
  if Nat.leb (str_len s) max_len then Some s
  else if is_char_boundary (max_len - 3) (bytes_of s)
       then Some (string_of (take (max_len - 3) (bytes_of s)) +:+ "...")
       else None.

(** [{:24}]: padded to 24 characters. *)
Definition pad_24 (s : string) : string :=
  s +:+ string_of (replicate (24 - char_count (bytes_of s)) (Ascii.ascii_of_nat 32)).

Definition field_line (label s : string) : option string :=
  t ← truncate s 24; Some ("║  " +:+ label +:+ pad_24 t +:+ " ║").

Definition quick_actions : list string :=
  ["[y] Allow this once"; "[n] Deny"; "[o] Allow once"; "[s] Allow this session"; "[a] Always allow"].

Definition prompt (r : PermissionRequest) : option string :=
  tool ← field_line "Tool:          " (req_tool r);
  action ← field_line "Action:        " (req_action r);
  target ← field_line "Target:        " (req_target r);
  Some (String.concat (string_of [LF])
    ([""; "╔══════════════════════════════════════════╗"; "║  ⚠️  Permission Request                  ║";
      "╠══════════════════════════════════════════╣"; tool; action; target;
      "╠══════════════════════════════════════════╣"; "║  Available actions:                      ║"] ++
     ((fun a => "║    " +:+ a) <$> quick_actions) ++
     ["╚══════════════════════════════════════════╝"; ""])).

Definition prompt_minimal (r : PermissionRequest) : string :=
  "⚠️  " +:+ req_tool r +:+ " wants to " +:+ req_action r +:+ " on " +:+ req_target r +:+
  " — [y]es/[n]o/[o]nce/[s]ession/[a]lways: ".

Definition one_of (s : string) (l : list string) : bool := existsb (String.eqb s) l.

Definition parse_response (response : string) : option DecisionType :=
  let s := to_lowercase (trim response) in
  if one_of s ["y"; "yes"; "allow"] then Some AllowOnce
  else if one_of s ["n"; "no"; "deny"; "d"] then Some Deny
  else if one_of s ["o"; "once"] then Some AllowOnce
  else if one_of s ["s"; "session"] then Some AllowSession
  else if one_of s ["a"; "always"; "permanent"; "p"] then Some AllowPermanent
  else None.

Definition parse_response_or_error (response : string) : result DecisionType string :=
  match parse_response response with
  | Some d => Ok d
  | None => Err ("Unrecognized response '" +:+ response +:+
                 "'. Valid options: y/yes, n/no, o/once, s/session, a/always")
  end.
End Prompter.

(** ** The contract: a map of grants in front of the rules *)

Module Contract.
Abbreviation Key := (string * string * string)%type.

Inductive Op :=
| Check (id tool action target : string)
| Grant (tool action target : string) (d : DecisionType) (duration : option Z)
| Revoke (tool action target : string)
| AddRule (r : PermissionRule)
| RemoveRule (id : string)
| CleanupCache
| ClearCache
| Reset.

Section Histories.
Context `{Globs}.

(** One operation: its answer, when it is a check, and the new gate. *)
Definition apply (now : Z) (op : Op) (g : Gate.RuleBasedPermissionGate) :
    option EnginePermissionDecision * Gate.RuleBasedPermissionGate :=
  match op with
  | Check id tool action target => let '(d, g) := Gate.check now id tool action target g in (Some d, g)
  | Grant tool action target d dur => (None, Gate.grant now tool action target d dur g)
  | Revoke tool action target => (None, (Gate.revoke tool action target g).2)
  | AddRule r => (None, Gate.add_rule r g)
  | RemoveRule id => (None, (Gate.remove_rule id g).2)
  | CleanupCache => (None, Gate.cleanup_cache now g)
  | ClearCache => (None, Gate.clear_cache g)
  | Reset => (None, Gate.reset g)
  end.

(** The grants by what was asked, each with its expiry; nothing else forgets one
    than a revocation or a clearing. *)
Record Spec := mkSpec {
  spec_rules : list PermissionRule;
  grants : gmap Key (DecisionType * option Z)
}.

Definition granted (now : Z) (k : Key) (s : Spec) : option DecisionType :=
  match grants s !! k with
  | Some (d, expiry) => if expired now expiry then None else Some d
  | None => None
  end.

Definition verdict (id tool action target : string) (rs : list PermissionRule) : EnginePermissionDecision :=
  match List.find (fun r => matches_tool_action tool action r && matches_target target r)%bool rs with
  | Some r => from_rule id r
  | None => ask_user id
  end.

Definition with_rules (rs : list PermissionRule) (s : Spec) : Spec := mkSpec rs (grants s).

Definition spec_apply (now : Z) (op : Op) (s : Spec) : option EnginePermissionDecision * Spec :=
  match op with
  | Check id tool action target =>
      (Some match granted now (tool, action, target) s with
            | Some d => mkDecision id d (Some "cache") None
            | None => verdict id tool action target (spec_rules s)
            end, s)
  | Grant tool action target AllowSession dur =>
      (None, mkSpec (spec_rules s) (<[(tool, action, target) :=
         (AllowSession, Some (add64 now (default 86400 dur)))]> (grants s)))
  | Grant tool action target AllowPermanent _ =>
      (None, mkSpec (spec_rules s) (<[(tool, action, target) := (AllowPermanent, None)]> (grants s)))
  | Grant _ _ _ _ _ => (None, s)
  | Revoke tool action target => (None, mkSpec (spec_rules s) (delete (tool, action, target) (grants s)))
  | AddRule r => (None, with_rules (Gate.rules (Gate.add_rule r (Gate.mkGate (spec_rules s) []))) s)
  | RemoveRule id => (None, with_rules (retain (fun x => negb (String.eqb (rule_id x) id)) (spec_rules s)) s)
  | CleanupCache => (None, s)
  | ClearCache => (None, mkSpec (spec_rules s) ∅)
  | Reset => (None, mkSpec Gate.default_rules ∅)
  end.

Fixpoint answers {S} (step : Z -> Op -> S -> option EnginePermissionDecision * S) (h : list (Z * Op)) (s : S) :
    list (option EnginePermissionDecision) :=
  match h with
  | [] => []
  | (now, op) :: h' => let '(a, s) := step now op s in a :: answers step h' s
  end.

(** The clock does not run backwards. *)
Fixpoint monotone (now : Z) (h : list (Z * Op)) : Prop :=
  match h with [] => True | (t, _) :: h' => now <= t /\ monotone t h' end.

(** ** The cache represents the map *)

Definition key (e : CacheEntry) : Key := (entry_tool e, entry_action e, entry_target e).

Lemma entry_matches_key tool action target e :
  entry_matches tool action target e = bool_decide (key e = (tool, action, target)).
Proof.
  apply bool_eq_iff. unfold entry_matches. rewrite !andb_true_iff, !String.eqb_eq, bool_decide_eq_true.
  unfold key. split; [by intros [[-> ->] ->]|]. by intros [= -> -> ->].
Qed.

Definition holds (e : CacheEntry) : DecisionType * option Z := (grant_of e, expires_at e).

Record rep (now : Z) (c : Cache.PermissionCache) (m : gmap Key (DecisionType * option Z)) : Prop := {
  rep_unique : NoDup (key <$> c);
  rep_sound e : e ∈ c -> m !! key e = Some (holds e);
  rep_complete k d x : m !! k = Some (d, x) -> expired now x = false -> exists e, e ∈ c /\ key e = k
}.

Lemma expired_mono now now' x : now <= now' -> expired now' x = false -> expired now x = false.
Proof. intros Hle. destruct x as [x|]; simpl; [|done]. rewrite !Z.leb_gt. lia. Qed.

Lemma rep_any_later now now' c m : now <= now' -> rep now c m -> rep now' c m.
Proof.
  intros Hle [Hu Hs Hc]. split; [done..|]. intros k d x Hk Hx.
  apply (Hc k d x Hk). by apply (expired_mono now now').
Qed.

Lemma rep_empty now : rep now [] ∅.
Proof. split; [constructor|by intros e Hin%elem_of_nil|intros k d x Hk; by rewrite lookup_empty in Hk]. Qed.

Lemma NoDup_key_retain f c : NoDup (key <$> c) -> NoDup (key <$> retain f c).
Proof.
  intros Hnd. induction c as [|e c IH]; [done|]. apply NoDup_cons in Hnd as [Hin Hnd]. simpl.
  destruct (f e); [|by apply IH]. apply NoDup_cons. split; [|by apply IH].
  intros (e' & He & [Hin' _]%elem_of_retain)%list_elem_of_fmap. apply Hin, list_elem_of_fmap. eauto.
Qed.

Lemma rep_cleanup now c m : rep now c m -> rep now (Cache.cleanup now c) m.
Proof.
  intros [Hu Hs Hc]. split.
  - by apply NoDup_key_retain.
  - intros e [Hin _]%elem_of_retain. by apply Hs.
  - intros k d x Hk Hx. destruct (Hc k d x Hk Hx) as (e & Hin & He). exists e. split; [|done].
    apply elem_of_retain. split; [done|]. specialize (Hs e Hin). rewrite He, Hk in Hs.
    unfold holds in Hs. injection Hs as -> ->. unfold is_expired. by rewrite Hx.
Qed.

Lemma elem_of_other_keys tool action target (c : Cache.PermissionCache) e :
  e ∈ retain (fun e => negb (entry_matches tool action target e)) c <-> e ∈ c /\ key e <> (tool, action, target).
Proof.
  by rewrite elem_of_retain, entry_matches_key, negb_true_iff, bool_decide_eq_false.
Qed.

Lemma rep_revoke now tool action target c m :
  rep now c m -> rep now (Cache.revoke_cache tool action target c).2 (delete (tool, action, target) m).
Proof.
  intros [Hu Hs Hc]. split.
  - by apply NoDup_key_retain.
  - intros e [Hin Hne]%elem_of_other_keys. rewrite lookup_delete_ne by congruence. by apply Hs.
  - intros k d x Hk Hx. apply lookup_delete_Some in Hk as [Hne Hk].
    destruct (Hc k d x Hk Hx) as (e & Hin & He). exists e. split; [|done].
    apply elem_of_other_keys. split; [done|congruence].
Qed.

Lemma rep_store now tool action target d ttl c m :
  is_some (List.find (fun x => bool_decide (x = d)) [AllowSession; AllowPermanent]) = true ->
  rep now c m ->
  rep now (Cache.store now tool action target d ttl c) (<[(tool, action, target) := (d, add64 now <$> ttl)]> m).
Proof.
  intros Hd Hrep. pose proof (rep_revoke now tool action target c m Hrep) as [Hu Hs Hc]. simpl in *.
  assert (Hst : Cache.store now tool action target d ttl c =
                (Cache.revoke_cache tool action target c).2 ++ [new_entry now d tool action target ttl])
    by (destruct d; done).
  rewrite Hst. clear Hd Hst. split.
  - rewrite fmap_app. apply NoDup_app. split; [done|]. split; [|apply NoDup_singleton].
    intros k (e & -> & [_ Hne]%elem_of_other_keys)%list_elem_of_fmap Hk%list_elem_of_singleton. done.
  - intros e [Hin|Hin]%elem_of_app.
    + pose proof Hin as [_ Hne]%elem_of_other_keys. rewrite lookup_insert_ne by congruence.
      specialize (Hs e Hin). by apply lookup_delete_Some in Hs as [_ ?].
    + apply list_elem_of_singleton in Hin as ->. apply lookup_insert_eq.
  - intros k d' x Hk Hx. apply lookup_insert_Some in Hk as [[<- [= -> <-]]|[Hne Hk]].
    + eexists. split; [apply elem_of_app; right; by apply list_elem_of_singleton|done].
    + destruct (Hc k d' x) as (e & Hin & He); [by rewrite lookup_delete_ne|done|].
      exists e. split; [|done]. apply elem_of_app. by left.
Qed.

Lemma rep_find now tool action target c m :
  rep now c m ->
  Cache.find_live now tool action target c =
  match m !! (tool, action, target) with
  | Some (d, x) => if expired now x then None else Some d
  | None => None
  end.
Proof.
  intros Hrep.
  assert (Hf : forall d, Cache.find_live now tool action target c = Some d ->
             exists e, e ∈ c /\ key e = (tool, action, target) /\ is_expired now e = false /\ grant_of e = d).
  { clear Hrep. induction c as [|e c IH]; [done|]. intros d. simpl. rewrite entry_matches_key.
    destruct (bool_decide_reflect (key e = (tool, action, target))) as [He|He]; simpl.
    - destruct (is_expired now e) eqn:Ex; simpl.
      + intros (e' & ? & ?)%IH. exists e'. split; [by right|done].
      + intros [= <-]. exists e. split; [by left|done].
    - intros (e' & ? & ?)%IH. exists e'. split; [by right|done]. }
  assert (Hn : Cache.find_live now tool action target c = None ->
             forall e, e ∈ c -> key e = (tool, action, target) -> is_expired now e = true).
  { clear Hrep Hf. induction c as [|e c IH]; [by intros _ e Hin%elem_of_nil|]. simpl. rewrite entry_matches_key.
    intros HN e' [->|Hin]%elem_of_cons Hk.
    - rewrite bool_decide_true in HN by done. simpl in HN. by destruct (is_expired now e).
    - destruct (bool_decide (key e = (tool, action, target)) && negb (is_expired now e))%bool; [done|].
      by apply (IH HN). }
  destruct Hrep as [Hu Hs Hc]. destruct (Cache.find_live now tool action target c) as [d|] eqn:E.
  - destruct (Hf d eq_refl) as (e & Hin & Hk & Hx & <-). rewrite <- Hk, (Hs e Hin). unfold holds.
    unfold is_expired in Hx. by rewrite Hx.
  - destruct (m !! (tool, action, target)) as [[d x]|] eqn:Em; [|done].
    destruct (expired now x) eqn:Ex; [done|]. destruct (Hc _ _ _ Em Ex) as (e & Hin & Hk).
    specialize (Hn eq_refl e Hin Hk). specialize (Hs e Hin). rewrite Hk, Em in Hs.
    unfold holds in Hs. injection Hs as -> ->. unfold is_expired in Hn. congruence.
Qed.


Lemma first_rule_find tool action target rs :
  Gate.first_rule tool action target rs =
  List.find (fun r => matches_tool_action tool action r && matches_target target r)%bool rs.
Proof.
  induction rs as [|r rs IH]; [done|]. simpl.
  by destruct (matches_tool_action tool action r), (matches_target target r).
Qed.

Definition represents (now : Z) (g : Gate.RuleBasedPermissionGate) (s : Spec) : Prop :=
  Gate.rules g = spec_rules s /\ rep now (Gate.cache g) (grants s).

Lemma check_represents now id tool action target g s :
  represents now g s ->
  let '(d, g') := Gate.check now id tool action target g in
  Some d = (spec_apply now (Check id tool action target) s).1 /\ represents now g' s.
Proof.
  intros [Hr Hc]. simpl. unfold Gate.check, Cache.check_cache, granted, verdict.
  rewrite (rep_find now tool action target _ _ Hc), <- Hr.
  assert (Hpurged : represents now (Gate.mkGate (Gate.rules g) (Cache.cleanup now (Gate.cache g))) s)
    by (split; [done|]; by apply rep_cleanup).
  destruct (grants s !! _) as [[d x]|]; [destruct (expired now x)|]; simpl; [|done|];
    rewrite first_rule_find; by destruct (List.find _ (Gate.rules g)).
Qed.

Lemma grant_represents now tool action target d dur g s :
  represents now g s ->
  represents now (Gate.grant now tool action target d dur g) (spec_apply now (Grant tool action target d dur) s).2.
Proof.
  intros Hrep. destruct Hrep as [Hr Hc] eqn:E. destruct d; try exact Hrep; (split; [done|]); simpl.
  - by destruct dur as [t|]; apply (rep_store now tool action target AllowSession (Some _)).
  - by apply (rep_store now tool action target AllowPermanent None).
Qed.

(** Every operation keeps the representation and gives the contract's answer. *)
Lemma apply_represents now op g s :
  represents now g s ->
  (apply now op g).1 = (spec_apply now op s).1 /\ represents now (apply now op g).2 (spec_apply now op s).2.
Proof.
  intros Hrep. pose proof Hrep as [Hr Hc].
  destruct op as [id tool action target|tool action target d dur|tool action target|r|id| | |]; simpl.
  - pose proof (check_represents now id tool action target g s Hrep) as Hck.
    destruct (Gate.check now id tool action target g) as [d g']. by destruct Hck.
  - split; [by destruct d|]. by apply grant_represents.
  - split; [done|]. split; [done|]. by apply rep_revoke.
  - split; [done|]. unfold Gate.add_rule. rewrite Hr. simpl. by destruct (position _ (spec_rules s)).
  - split; [done|]. split; [|done]. simpl. by rewrite Hr.
  - split; [done|]. split; [done|]. by apply rep_cleanup.
  - split; [done|]. split; [done|]. apply rep_empty.
  - split; [done|]. split; [done|]. apply rep_empty.
Qed.

(** Claim C18. The gate is a map of grants in front of an ordered list of rules:
    over every history whose clock does not run backwards, each check answers
    what the contract says: the grant in force for exactly what is asked, until
    it expires, is revoked or cleared; else the verdict of the first rule that
    matches; else the question to the user.  The purge of expired grants, which
    happens on some operations only, cannot be seen. *)
Theorem gate_refines_contract (h : list (Z * Op)) :
  monotone 0 h ->
  answers apply h Gate.new = answers spec_apply h (mkSpec Gate.default_rules ∅).
Proof.
  assert (Hgen : forall now g s, represents now g s -> monotone now h -> answers apply h g = answers spec_apply h s).
  { induction h as [|[t op] h' IH]; intros now g s Hrep; simpl; [done|]. intros [Hle Hm].
    destruct Hrep as [Hr Hc]. pose proof (rep_any_later now t _ _ Hle Hc) as Hc'.
    destruct (apply_represents t op g s) as [Ha Hrep']; [done|].
    destruct (apply t op g) as [a g'], (spec_apply t op s) as [a' s']. simpl in *. subst a'. f_equal.
    by apply (IH t). }
  intros Hm. apply (Hgen 0); [|done]. split; [done|]. apply rep_empty.
Qed.

(** [revoke] removes at most one entry, and one when the grant is in force. *)
Lemma revoke_count now tool action target g s :
  represents now g s -> is_some (granted now (tool, action, target) s) = true ->
  (0 < (Gate.revoke tool action target g).1)%nat.
Proof.
  intros [Hr Hc] Hg. unfold granted in Hg.
  destruct (grants s !! (tool, action, target)) as [[d x]|] eqn:E; [|done].
  destruct (expired now x) eqn:Ex; [done|]. destruct (rep_complete _ _ _ Hc _ _ _ E Ex) as (e & Hin & Hk).
  simpl. pose proof (retain_length_split (entry_matches tool action target) (Gate.cache g)) as Hsplit.
  assert (Hm : e ∈ retain (entry_matches tool action target) (Gate.cache g)).
  { apply elem_of_retain. split; [done|]. rewrite entry_matches_key. by apply bool_decide_true. }
  apply list_elem_of_lookup in Hm as [i Hi]. apply lookup_lt_Some in Hi.
  change (negb ∘ entry_matches tool action target) with (fun e => negb (entry_matches tool action target e)) in Hsplit.
  lia.
Qed.
End Histories.
End Contract.

(** ** What the default rules let through, and the prompt *)

Section Defaults.
Context `{Globs}.

(** The default rules look at how a command starts: whatever follows
    a command of the safe list (another command chained to it, a redirection, a
    substitution) is allowed with it, without a question and for every target;
    and the deny rules, which are prefixes too, only catch a dangerous command
    at the very beginning. *)
Theorem safe_prefix_allows_all (now : Z) (id rest target : string) (cmd : string) :
  cmd ∈ Gate.safe_commands ->
  decision (Gate.check now id "Bash" (cmd +:+ rest) target Gate.new).1 = Allow /\
  (forall d, d ∈ Gate.dangerous_commands -> starts_with (cmd +:+ rest) (d.2) = false).
Proof.
  unfold Gate.safe_commands, Gate.dangerous_commands. rewrite !list_elem_of_In. intros Hin. split.
  - by repeat (destruct Hin as [<-|Hin]; [by destruct rest|]).
  - intros d Hd. repeat (destruct Hin as [<-|Hin];
      [by repeat (apply elem_of_cons in Hd as [->|Hd]; [reflexivity|]); apply elem_of_nil in Hd|]). done.
Qed.

(** A refusal is not remembered and does not withdraw a grant: only [revoke]
    does. *)
Lemma deny_leaves_grant now tool action target dur g :
  Gate.grant now tool action target Deny dur g = g.
Proof. reflexivity. Qed.
End Defaults.

Lemma truncate_none s n :
  Prompter.truncate s n = None <->
  (n < str_len s)%nat /\ is_char_boundary (n - 3) (bytes_of s) = false.
Proof.
  unfold Prompter.truncate. destruct (Nat.leb_spec (str_len s) n); [split; [done|lia]|].
  destruct (is_char_boundary _ _); split; [done|by intros [_ ?]|done|done].
Qed.

(** The prompt is drawn unless a field longer than 24 bytes has its 22nd byte
    inside a character. *)
Lemma prompt_panics r :
  Prompter.prompt r = None <->
  exists s, s ∈ [req_tool r; req_action r; req_target r] /\
            (24 < str_len s)%nat /\ is_char_boundary 21 (bytes_of s) = false.
Proof.
  assert (Hf : forall label s, Prompter.field_line label s = None <->
            (24 < str_len s)%nat /\ is_char_boundary 21 (bytes_of s) = false).
  { intros label s. rewrite <- (truncate_none s 24). unfold Prompter.field_line.
    by destruct (Prompter.truncate s 24). }
  unfold Prompter.prompt. split.
  - destruct (Prompter.field_line _ (req_tool r)) eqn:E1;
      [|intros _; apply Hf in E1; eexists; split; [|exact E1]; by left].
    destruct (Prompter.field_line _ (req_action r)) eqn:E2;
      [|intros _; apply Hf in E2; eexists; split; [|exact E2]; right; by left].
    destruct (Prompter.field_line _ (req_target r)) eqn:E3; [done|].
    intros _. apply Hf in E3. eexists. split; [|exact E3]. right. right. by left.
  - intros (s & Hs & Hp). repeat (apply elem_of_cons in Hs as [->|Hs]); [| | |by apply elem_of_nil in Hs].
    + by rewrite (proj2 (Hf "Tool:          " _) Hp).
    + rewrite (proj2 (Hf "Action:        " _) Hp). by destruct (Prompter.field_line _ (req_tool r)).
    + rewrite (proj2 (Hf "Target:        " _) Hp).
      destruct (Prompter.field_line _ (req_tool r)); [|done]. by destruct (Prompter.field_line _ (req_action r)).
Qed.

(** ** Witnesses and examples *)

(** Patterns of literal text around one star, for the examples. *)
Definition one_star : Globs := {|
  glob_match pattern target :=
    Some match split_byte (Ascii.ascii_of_nat 42) (bytes_of pattern) with
         | [a; b] => starts_with target (string_of a) &&
                     bool_decide (drop (length (bytes_of target) - length b) (bytes_of target) = b)
         | _ => String.eqb pattern target
         end
|}.

Definition session_history : list (Z * Contract.Op) :=
  [(1, Contract.Check "r1" "Bash" "npm install" ".");
   (2, Contract.Grant "Bash" "npm install" "." AllowSession (Some 100));
   (50, Contract.Check "r2" "Bash" "npm install" ".");
   (60, Contract.Check "r3" "FileWrite" "write" ".env");
   (102, Contract.Check "r4" "Bash" "npm install" ".")]%Z.

Lemma gate_refines_contract_witness :
  Contract.answers (@Contract.apply one_star) session_history Gate.new =
  Contract.answers (@Contract.spec_apply one_star) session_history (Contract.mkSpec Gate.default_rules ∅).
Proof. apply (@Contract.gate_refines_contract one_star). vm_compute. repeat split; discriminate. Defined.

(** The grant lasts for its hundred seconds; a denial needs no question. *)
Example session_answers :
  option_map decision <$> Contract.answers (@Contract.apply one_star) session_history Gate.new =
  [Some AskUser; None; Some AllowSession; Some Deny; Some AskUser].
Proof. vm_compute. reflexivity. Qed.

Lemma safe_prefix_allows_all_witness :
  decision (@Gate.check one_star 0 "r1" "Bash" "git status; sudo rm -rf /" "." Gate.new).1 = Allow /\
  (forall d, d ∈ Gate.dangerous_commands -> starts_with "git status; sudo rm -rf /" (d.2) = false).
Proof.
  apply (@safe_prefix_allows_all one_star 0 "r1" "; sudo rm -rf /" "." "git status").
  apply list_elem_of_In. left. reflexivity.
Defined.

(** A permanent grant for one exact command overrides an automatic denial. *)
Example grant_overrides_deny :
  let g := Gate.grant 0 "Bash" "sudo reboot" "" AllowPermanent None Gate.new in
  (decision (@Gate.check one_star 5 "r" "Bash" "sudo reboot" "" Gate.new).1,
   decision (@Gate.check one_star 5 "r" "Bash" "sudo reboot" "" g).1) = (Deny, AllowPermanent).
Proof. vm_compute. reflexivity. Qed.

(** Replies read back what [Display] writes, except that "allow" is once. *)
Example replies :
  Prompter.parse_response ∘ show_decision <$> [Allow; Deny; AskUser; AllowOnce; AllowSession; AllowPermanent] =
  [Some AllowOnce; Some Deny; None; Some AllowOnce; Some AllowSession; Some AllowPermanent].
Proof. vm_compute. reflexivity. Qed.

(** A path with a two-byte character across the cut: the prompt panics. *)
Example prompt_cuts_character :
  Prompter.prompt (mkRequest "r" "FileWrite" "write" "/home/user/document/été.txt" 0) = None /\
  is_some (Prompter.prompt (mkRequest "r" "FileWrite" "write" "/home/user/été.txt" 0)) = true.
Proof. vm_compute. split; reflexivity. Qed.
