(* ===== verification/SharedSession.v ===== *)
(** * SharedSession: one conversation, several clients ([engine/shared_session.rs])

    The session with its submitter lock and terminal hand-off, and the two
    tasks that write to a client's connection: the drain of a submitted turn
    ([shared_client/session.rs]) and the client's broadcast task ([main.rs]).
    They run concurrently; a step is one lock section of one of them, and the
    theorems quantify over the interleavings.  A broadcast channel of
    capacity [n] keeps the last [n] values a receiver has not read. *)

From stdpp Require Import base gmap strings list.
From Stdlib Require Import ZArith Lia.
From S2P Require Import Prelude Text.

#[local] Open Scope Z_scope.

Abbreviation ClientId := Z.

(** An engine event, with the client whose turn it belongs to. *)
Record Event := mkEvent { author : ClientId; terminal : bool; payload : string }.

#[export] Instance Event_eq : EqDecision Event.
Proof. solve_decision. Defined.

(** The drain of a turn. *)
Inductive Turn :=
| NoTurn
| Running              (* waiting for the engine *)
| ToSend (e : Event)   (* about to broadcast *)
| ToWrite (e : Event)  (* about to write to the submitter's connection *)
| Finishing.           (* about to release the submitter *)

(** A client: the unread events of its receiver, the event its broadcast task
    has taken past the hand-off test, its turn, and what was written to its
    connection.  [joined] is the length of the history when it subscribed. *)
Record Client := mkClient {
  backlog : list Event;
  held : option Event;
  listening : bool;
  turn : Turn;
  written : list Event;
  joined : nat
}.

(** [history] is what was ever broadcast; the code does not keep it. *)
Record SharedSession := mkSession {
  active_submitter : option ClientId;
  terminal_handoff : option ClientId;
  clients : gmap ClientId Client;
  next_client_id : Z;
  history : list Event
}.

Definition new : SharedSession := mkSession None None ∅ 1 [].

Definition broadcast_capacity : nat := 256.

(** ** Accessors *)

Definition set_submitter (o : option ClientId) (s : SharedSession) : SharedSession :=
  mkSession o (terminal_handoff s) (clients s) (next_client_id s) (history s).
Definition set_handoff (o : option ClientId) (s : SharedSession) : SharedSession :=
  mkSession (active_submitter s) o (clients s) (next_client_id s) (history s).
Definition set_clients (m : gmap ClientId Client) (s : SharedSession) : SharedSession :=
  mkSession (active_submitter s) (terminal_handoff s) m (next_client_id s) (history s).
Definition put (c : ClientId) (a : Client) (s : SharedSession) : SharedSession :=
  set_clients (<[c := a]> (clients s)) s.

Definition set_turn (t : Turn) (a : Client) : Client :=
  mkClient (backlog a) (held a) (listening a) t (written a) (joined a).
Definition set_queue (q : list Event) (h : option Event) (a : Client) : Client :=
  mkClient q h (listening a) (turn a) (written a) (joined a).
Definition write (e : Event) (a : Client) : Client :=
  mkClient (backlog a) (held a) (listening a) (turn a) (written a ++ [e]) (joined a).
Definition stop_listening (a : Client) : Client :=
  mkClient (backlog a) None false (turn a) (written a) (joined a).

(** ** The operations of the session *)

Definition add_client (s : SharedSession) : ClientId * SharedSession :=
  let id := next_client_id s in
  (id, mkSession (active_submitter s) (terminal_handoff s)
         (<[id := mkClient [] None true NoTurn [] (length (history s))]> (clients s))
         (add64 id 1) (history s)).

Definition release_submitter (c : ClientId) (s : SharedSession) : SharedSession :=
  if bool_decide (active_submitter s = Some c) then set_submitter None s else s.

(** [detach_client]: [None] when the client was not attached. *)
Definition detach_client (c : ClientId) (s : SharedSession) : option bool * SharedSession :=
  match clients s !! c with
  | None => (None, s)
  | Some _ =>
      let s := set_clients (delete c (clients s)) s in
      let s := release_submitter c s in
      let s := if bool_decide (terminal_handoff s = Some c) then set_handoff None s else s in
      (Some (Nat.eqb (size (clients s)) 0), s)
  end.

Definition remove_client (c : ClientId) (s : SharedSession) : bool * SharedSession :=
  let '(last, s) := detach_client c s in (default true last, s).

Definition try_acquire_submitter (c : ClientId) (s : SharedSession) : bool * SharedSession :=
  match active_submitter s with
  | None => (true, set_submitter (Some c) s)
  | Some _ => (false, s)
  end.

Definition arm_terminal_handoff (c : ClientId) (s : SharedSession) : SharedSession :=
  set_handoff (Some c) s.

Definition take_terminal_handoff (c : ClientId) (s : SharedSession) : bool * SharedSession :=
  if bool_decide (terminal_handoff s = Some c) then (true, set_handoff None s) else (false, s).

Definition is_active_submitter (c : ClientId) (s : SharedSession) : bool :=
  bool_decide (active_submitter s = Some c).
Definition has_active_submitter (s : SharedSession) : bool := is_some (active_submitter s).
Definition client_count (s : SharedSession) : nat := size (clients s).

(** A value enters the channel: every receiver has it to read, and one that
    had [broadcast_capacity] unread loses the oldest. *)
Definition receive (e : Event) (a : Client) : Client :=
  let q := backlog a ++ [e] in
  set_queue (drop (length q - broadcast_capacity) q) (held a) a.

Definition broadcast (e : Event) (s : SharedSession) : SharedSession :=
  mkSession (active_submitter s) (terminal_handoff s) (receive e <$> clients s) (next_client_id s)
            (history s ++ [e]).

(** ** The steps *)

Inductive Step :=
| Join                                    (* [handle_client]: [add_client] *)
| Leave (c : ClientId)                    (* [lc_session_close]: [remove_client] *)
| Submit (c : ClientId)                   (* [scm_submit_message] takes the lock *)
| EngineSays (c : ClientId) (final : bool) (text : string)
| EngineCloses (c : ClientId)             (* the engine's channel closes *)
| Broadcast (c : ClientId)
| WriteDirect (c : ClientId) (ok : bool)
| Panic (c : ClientId)                    (* the drain panics; [SubmitterGuard] *)
| Release (c : ClientId)
| Take (c : ClientId)                     (* the broadcast task receives *)
| Deliver (c : ClientId) (ok : bool).     (* tests the submitter, writes *)

(** The drain, on an event of the engine: a terminal one arms the hand-off. *)
Definition engine_says (c : ClientId) (a : Client) (e : Event) (s : SharedSession) : SharedSession :=
  put c (set_turn (ToSend e) a) (if terminal e then arm_terminal_handoff c s else s).

Definition after_write (e : Event) (ok : bool) (a : Client) : Client :=
  if ok then set_turn (if terminal e then Finishing else Running) (write e a)
  else set_turn Finishing a.

(** The broadcast task, on an event: a terminal one may be handed off. *)
Definition take (c : ClientId) (a : Client) (e : Event) (rest : list Event) (s : SharedSession) : SharedSession :=
  let '(skip, s) := if terminal e then take_terminal_handoff c s else (false, s) in
  put c (set_queue rest (if skip then None else Some e) a) s.

Definition deliver (c : ClientId) (a : Client) (e : Event) (ok : bool) (s : SharedSession) : SharedSession :=
  if is_active_submitter c s then put c (set_queue (backlog a) None a) s
  else if ok then put c (write e (set_queue (backlog a) None a)) s
  else put c (stop_listening a) s.

Definition step (l : Step) (s : SharedSession) : option SharedSession :=
  match l with
  | Join => Some (add_client s).2
  | Leave c =>
      if is_active_submitter c s then None else Some (remove_client c s).2
  | Submit c =>
      a ← clients s !! c;
      let '(got, s) := try_acquire_submitter c s in
      Some (if got then put c (set_turn Running a) s else s)
  | EngineSays c final text =>
      a ← clients s !! c;
      match turn a with
      | Running => Some (engine_says c a (mkEvent c final text) s)
      | _ => None
      end
  | EngineCloses c =>
      a ← clients s !! c;
      match turn a with Running => Some (put c (set_turn Finishing a) s) | _ => None end
  | Broadcast c =>
      a ← clients s !! c;
      match turn a with
      | ToSend e => Some (broadcast e (put c (set_turn (ToWrite e) a) s))
      | _ => None
      end
  | WriteDirect c ok =>
      a ← clients s !! c;
      match turn a with ToWrite e => Some (put c (after_write e ok a) s) | _ => None end
  | Panic c =>
      a ← clients s !! c;
      match turn a with NoTurn => None | _ => Some (put c (set_turn Finishing a) s) end
  | Release c =>
      a ← clients s !! c;
      match turn a with
      | Finishing => Some (release_submitter c (put c (set_turn NoTurn a) s))
      | _ => None
      end
  | Take c =>
      a ← clients s !! c;
      match listening a, held a, backlog a with
      | true, None, e :: rest => Some (take c a e rest s)
      | _, _, _ => None
      end
  | Deliver c ok =>
      a ← clients s !! c;
      match held a with Some e => Some (deliver c a e ok s) | None => None end
  end.

(** [None] when a step of the list is not enabled. *)
Fixpoint exec (ls : list Step) (s : SharedSession) : option SharedSession :=
  match ls with
  | [] => Some s
  | l :: ls' => s' ← step l s; exec ls' s'
  end.

Lemma exec_snoc ls l s s' : exec (ls ++ [l]) s = Some s' <-> exists s1, exec ls s = Some s1 /\ step l s1 = Some s'.
Proof.
  revert s. induction ls as [|l0 ls IH]; intros s; simpl.
  - split; [intros H; exists s; by destruct (step l s)|intros (s1 & [= <-] & ->); done].
  - destruct (step l0 s) as [s1|]; simpl; [apply IH|]. split; [done|by intros (? & ? & ?)].
Qed.

(** ** Turns exclude each other *)

Record exclusive (s : SharedSession) : Prop := {
  ex_turn c a : clients s !! c = Some a -> (turn a <> NoTurn <-> active_submitter s = Some c);
  ex_submitter c : active_submitter s = Some c -> is_Some (clients s !! c);
  ex_handoff c : terminal_handoff s = Some c -> is_Some (clients s !! c);
  ex_ids c : is_Some (clients s !! c) -> c < next_client_id s
}.

Lemma exclusive_new : exclusive new.
Proof. split; simpl; [intros c a H; by rewrite lookup_empty in H|done|done|]. intros c [a H]. by rewrite lookup_empty in H. Qed.

(** A step that changes one client and keeps whether it has a turn. *)
Lemma exclusive_put c a a' s :
  clients s !! c = Some a -> (turn a' <> NoTurn <-> turn a <> NoTurn) -> exclusive s -> exclusive (put c a' s).
Proof.
  intros Hc Ht [H1 H2 H3 H4].
  assert (Hin : forall d, is_Some (clients s !! d) -> is_Some (clients (put c a' s) !! d)).
  { intros d Hd. simpl. destruct (decide (c = d)) as [->|Hne]; [by rewrite lookup_insert_eq|by rewrite lookup_insert_ne]. }
  split; simpl.
  - intros d b. destruct (decide (c = d)) as [->|Hne].
    + rewrite lookup_insert_eq. intros [= <-]. rewrite Ht. by apply H1.
    + rewrite lookup_insert_ne by done. apply H1.
  - intros d Hd. by apply Hin, H2.
  - intros d Hd. by apply Hin, H3.
  - intros d Hd. apply H4. destruct (decide (c = d)) as [->|Hne]; [by exists a|]. by rewrite lookup_insert_ne in Hd.
Qed.

Lemma exclusive_handoff o s :
  (forall c, o = Some c -> is_Some (clients s !! c)) -> exclusive s -> exclusive (set_handoff o s).
Proof. intros Ho [H1 H2 H3 H4]. by split. Qed.

Lemma exclusive_acquire c a s :
  clients s !! c = Some a -> active_submitter s = None -> exclusive s ->
  exclusive (put c (set_turn Running a) (set_submitter (Some c) s)).
Proof.
  intros Hc Hs [H1 H2 H3 H4]. split; simpl.
  - intros d b. destruct (decide (c = d)) as [->|Hne].
    + rewrite lookup_insert_eq. by intros [= <-].
    + rewrite lookup_insert_ne by done. intros Hd. rewrite (H1 _ _ Hd), Hs. split; [done|congruence].
  - intros d [= <-]. by rewrite lookup_insert_eq.
  - intros d Hd. destruct (decide (c = d)) as [->|Hne]; [by rewrite lookup_insert_eq|].
    rewrite lookup_insert_ne by done. by apply H3.
  - intros d Hd. apply H4. destruct (decide (c = d)) as [->|Hne]; [by exists a|]. by rewrite lookup_insert_ne in Hd.
Qed.

Lemma exclusive_release c a s :
  clients s !! c = Some a -> turn a <> NoTurn -> exclusive s ->
  active_submitter s = Some c /\
  exclusive (set_submitter None (put c (set_turn NoTurn a) s)).
Proof.
  intros Hc Ht [H1 H2 H3 H4]. pose proof (proj1 (H1 c a Hc) Ht) as Hs. split; [done|]. split; simpl.
  - intros d b. destruct (decide (c = d)) as [->|Hne].
    + rewrite lookup_insert_eq. by intros [= <-].
    + rewrite lookup_insert_ne by done. intros Hd. rewrite (H1 _ _ Hd), Hs. split; [congruence|done].
  - done.
  - intros d Hd. destruct (decide (c = d)) as [->|Hne]; [by rewrite lookup_insert_eq|].
    rewrite lookup_insert_ne by done. by apply H3.
  - intros d Hd. apply H4. destruct (decide (c = d)) as [->|Hne]; [by exists a|]. by rewrite lookup_insert_ne in Hd.
Qed.

Lemma exclusive_broadcast e s : exclusive s -> exclusive (broadcast e s).
Proof.
  intros [H1 H2 H3 H4]. split; simpl.
  - intros d b. rewrite lookup_fmap. intros (b0 & Hd & ->)%fmap_Some. simpl. by apply (H1 d b0).
  - intros d Hd. rewrite lookup_fmap. apply fmap_is_Some. by apply H2.
  - intros d Hd. rewrite lookup_fmap. apply fmap_is_Some. by apply H3.
  - intros d Hd. rewrite lookup_fmap in Hd. apply fmap_is_Some in Hd. by apply H4.
Qed.

Lemma exclusive_remove c s :
  active_submitter s <> Some c -> exclusive s -> exclusive (remove_client c s).2.
Proof.
  intros Hs Hex. unfold remove_client, detach_client. destruct (clients s !! c) as [a|] eqn:Hc; [|done].
  destruct Hex as [H1 H2 H3 H4]. unfold release_submitter. simpl.
  rewrite (bool_decide_false _ Hs). simpl.
  assert (Hdel : forall d b, delete c (clients s) !! d = Some b -> clients s !! d = Some b)
    by (by intros d b [_ ?]%lookup_delete_Some).
  assert (Hkeep : forall d, d <> c -> is_Some (clients s !! d) -> is_Some (delete c (clients s) !! d))
    by (intros d Hne Hd; by rewrite lookup_delete_ne).
  destruct (bool_decide_reflect (terminal_handoff s = Some c)) as [Hh|Hh]; split; simpl; try done;
    [intros d b Hd; apply (H1 d b), Hdel, Hd|intros d Hd; apply Hkeep; [congruence|by apply H2]
    |intros d [b Hd]; apply H4; exists b; by apply Hdel
    |intros d b Hd; apply (H1 d b), Hdel, Hd|intros d Hd; apply Hkeep; [congruence|by apply H2]
    |intros d Hd; apply Hkeep; [congruence|by apply H3]|intros d [b Hd]; apply H4; exists b; by apply Hdel].
Qed.

Lemma exclusive_join s :
  exclusive s -> 0 <= next_client_id s < u64_max -> exclusive (add_client s).2.
Proof.
  intros [H1 H2 H3 H4] Hn. assert (Hnew : forall d, is_Some (clients s !! d) -> d <> next_client_id s)
    by (intros d Hd; apply H4 in Hd; lia).
  assert (Hadd : add64 (next_client_id s) 1 = next_client_id s + 1)
    by (unfold add64; apply wrap64_small; unfold is_u64, u64_max in *; lia).
  split; simpl.
  - intros d b. destruct (decide (next_client_id s = d)) as [<-|Hne].
    + rewrite lookup_insert_eq. intros [= <-]. simpl. split; [done|]. intros Hs%H2%Hnew. done.
    + rewrite lookup_insert_ne by done. apply H1.
  - intros d Hd%H2. rewrite lookup_insert_ne; [done|]. apply not_eq_sym, Hnew, Hd.
  - intros d Hd%H3. rewrite lookup_insert_ne; [done|]. apply not_eq_sym, Hnew, Hd.
  - intros d Hd. rewrite Hadd. destruct (decide (next_client_id s = d)) as [<-|Hne]; [lia|].
    rewrite lookup_insert_ne in Hd by done. apply H4 in Hd. lia.
Qed.

(** The lock sections of the two tasks, on the client they belong to. *)
Lemma take_exclusive c a e rest s : clients s !! c = Some a -> exclusive s -> exclusive (take c a e rest s).
Proof.
  intros Hc Hex. unfold take, take_terminal_handoff.
  assert (Hput : forall x, exclusive (put c (set_queue rest x a) s))
    by (intros x; by apply (exclusive_put c a)).
  destruct (terminal e); [|apply Hput]. destruct (bool_decide _); [|apply Hput].
  apply (exclusive_handoff None (put c (set_queue rest None a) s)); [done|apply Hput].
Qed.

Lemma deliver_exclusive c a e ok s : clients s !! c = Some a -> exclusive s -> exclusive (deliver c a e ok s).
Proof.
  intros Hc Hex. unfold deliver. destruct (is_active_submitter c s); [|destruct ok]; by apply (exclusive_put c a).
Qed.

Lemma engine_says_exclusive c a e s :
  clients s !! c = Some a -> turn a = Running -> exclusive s -> exclusive (engine_says c a e s).
Proof.
  intros Hc Ht Hex. unfold engine_says.
  assert (Hput : exclusive (put c (set_turn (ToSend e) a) s))
    by (apply (exclusive_put c a); [done|by rewrite Ht|done]).
  destruct (terminal e); [|done]. unfold arm_terminal_handoff.
  apply (exclusive_handoff (Some c) (put c (set_turn (ToSend e) a) s)); [|done].
  intros d [= <-]. simpl. by rewrite lookup_insert_eq.
Qed.

Lemma step_exclusive l s s' :
  step l s = Some s' -> 0 <= next_client_id s < u64_max -> exclusive s -> exclusive s'.
Proof.
  intros Hs Hn Hex. destruct l as [|c|c|c final text|c|c|c ok|c|c|c|c ok]; cbn [step mbind option_bind] in Hs;
    try (destruct (clients s !! c) as [a|] eqn:Hc; cbn [mbind option_bind] in Hs; [|done]).
  - injection Hs as <-. by apply exclusive_join.
  - unfold is_active_submitter in Hs. destruct (bool_decide_reflect (active_submitter s = Some c)); [done|].
    injection Hs as <-. by apply exclusive_remove.
  - unfold try_acquire_submitter in Hs. destruct (active_submitter s) eqn:Ha; injection Hs as <-; [done|].
    by apply exclusive_acquire.
  - destruct (turn a) eqn:Ht; try done. injection Hs as <-. by apply engine_says_exclusive.
  - destruct (turn a) eqn:Ht; try done. injection Hs as <-. apply (exclusive_put c a); [done|by rewrite Ht|done].
  - destruct (turn a) eqn:Ht; try done. injection Hs as <-. apply exclusive_broadcast.
    apply (exclusive_put c a); [done|by rewrite Ht|done].
  - destruct (turn a) eqn:Ht; try done. injection Hs as <-. apply (exclusive_put c a); [done| |done].
    rewrite Ht. unfold after_write. by destruct ok; [destruct (terminal e)|].
  - destruct (turn a) eqn:Ht; try done; injection Hs as <-; (apply (exclusive_put c a); [done|by rewrite Ht|done]).
  - destruct (turn a) eqn:Ht; try done. injection Hs as <-.
    destruct (exclusive_release c a s Hc) as [Hsub Hrel]; [by rewrite Ht|done|].
    unfold release_submitter. simpl. by rewrite bool_decide_true.
  - destruct (listening a), (held a), (backlog a); try done. injection Hs as <-. by apply take_exclusive.
  - destruct (held a); [|done]. injection Hs as <-. by apply deliver_exclusive.
Qed.

Lemma step_ids l s s' :
  step l s = Some s' -> 0 <= next_client_id s < u64_max ->
  next_client_id s <= next_client_id s' <= next_client_id s + 1.
Proof.
  intros Hs Hn. assert (Hsame : next_client_id s' = next_client_id s \/ s' = (add_client s).2).
  { destruct l as [|c|c|c final text|c|c|c ok|c|c|c|c ok]; cbn [step mbind option_bind] in Hs;
      try (destruct (clients s !! c) as [a|] eqn:Hc; cbn [mbind option_bind] in Hs; [|done]);
      [right; congruence|left..];
      unfold is_active_submitter, remove_client, detach_client, try_acquire_submitter, release_submitter,
        engine_says, take, take_terminal_handoff, deliver in Hs; by repeat (case_match; simplify_eq/=). }
  destruct Hsame as [-> | ->]; [lia|]. simpl. unfold add64. rewrite wrap64_small; [lia|].
  unfold is_u64, u64_max in *. lia.
Qed.

Lemma exec_exclusive ls s :
  exec ls new = Some s -> Z.of_nat (length ls) < u64_max - 1 ->
  exclusive s /\ 0 <= next_client_id s <= 1 + Z.of_nat (length ls).
Proof.
  revert s. induction ls as [|l ls IH] using rev_ind; intros s.
  - intros [= <-] _. split; [apply exclusive_new|simpl; lia].
  - intros (s1 & H1 & Hs)%exec_snoc Hb. rewrite length_app in Hb |- *. simpl in Hb.
    destruct (IH s1 H1) as [Hex Hn]; [lia|]. pose proof (step_ids l s1 s Hs).
    split; [apply (step_exclusive l s1); [done|lia|done]|simpl; lia].
Qed.

(** Turns exclude each other: in every interleaving of joins,
    departures, submissions, drains (panicking ones too) and broadcast tasks, at
    most one client has a turn, and it is the one that holds the submitter lock;
    while the lock is held its holder is connected and its drain is still to
    release it, so a session never stays busy for a client that is gone. *)
Theorem turns_exclusive (ls : list Step) (s : SharedSession) :
  exec ls new = Some s -> Z.of_nat (length ls) < u64_max - 1 ->
  (forall c d a b, clients s !! c = Some a -> clients s !! d = Some b ->
     turn a <> NoTurn -> turn b <> NoTurn -> c = d) /\
  (forall c, active_submitter s = Some c -> exists a, clients s !! c = Some a /\ turn a <> NoTurn) /\
  (forall c a, clients s !! c = Some a -> turn a <> NoTurn ->
     active_submitter s = Some c /\ exists s', exec [Panic c; Release c] s = Some s' /\ active_submitter s' = None).
Proof.
  intros He Hb. destruct (exec_exclusive ls s He Hb) as [[H1 H2 _ _] _]. split_and!.
  - intros c d a b Hc Hd Ha%(H1 c a Hc) Hb'%(H1 d b Hd). congruence.
  - intros c Hs. destruct (H2 c Hs) as [a Ha]. exists a. split; [done|]. by apply (H1 c a Ha).
  - intros c a Hc Ht. pose proof (proj1 (H1 c a Hc) Ht) as Hs. split; [done|].
    simpl. rewrite Hc. simpl. destruct (turn a); [done|..];
      simpl; rewrite lookup_insert_eq; simpl; eexists; (split; [reflexivity|]);
      unfold release_submitter; simpl; by rewrite bool_decide_true.
Qed.

(** A turn and the broadcast tasks leave the set of clients as it is. *)
Lemma step_clients l s s' :
  step l s = Some s' -> match l with Join | Leave _ => False | _ => True end ->
  (forall c, is_Some (clients s' !! c) <-> is_Some (clients s !! c)) /\ next_client_id s' = next_client_id s.
Proof.
  intros Hs Hl.
  assert (Hput : forall c a a' s0, clients s !! c = Some a -> clients s0 = clients s ->
            forall d, is_Some (clients (put c a' s0) !! d) <-> is_Some (clients s !! d)).
  { intros c a a' s0 Hc Hs0 d. simpl. rewrite Hs0. destruct (decide (c = d)) as [->|Hne].
    - rewrite lookup_insert_eq, Hc. by split; eauto.
    - by rewrite lookup_insert_ne. }
  destruct l as [|c|c|c final text|c|c|c ok|c|c|c|c ok]; try done; cbn [step mbind option_bind] in Hs;
    destruct (clients s !! c) as [a|] eqn:Hc; try done; cbn [mbind option_bind] in Hs;
    unfold try_acquire_submitter, engine_says, take, take_terminal_handoff, deliver, release_submitter,
      arm_terminal_handoff in Hs;
    repeat (case_match; simplify_eq/=); (split; [|done]);
    try (intros d; rewrite lookup_fmap, fmap_is_Some);
    try (by apply (Hput c a)); try done; intros d; destruct (decide (c = d)) as [<-|Hne];
    rewrite ?lookup_insert_eq, ?lookup_insert_ne by done; rewrite ?Hc; split; eauto.
Qed.

(** ** What each client sees *)

(** The events of a broadcast task that it has still to look at. *)
Definition pending (a : Client) : list Event := option_list (held a) ++ backlog a.

(** A step no one is late for: a turn starts when its client's broadcast task
    has caught up, and ends when that task has at most the terminal event left;
    a terminal event is armed when the one before has been consumed; no channel
    overflows, no connection breaks and no drain panics. *)
Definition timely (l : Step) (s : SharedSession) : bool :=
  match l with
  | Submit c =>
      (has_active_submitter s ||
       match clients s !! c with Some a => Nat.eqb (length (pending a)) 0 | None => true end)%bool
  | EngineSays _ true _ => negb (is_some (terminal_handoff s))
  | Broadcast _ => forallb (fun x => Nat.ltb (length (backlog x.2)) broadcast_capacity) (map_to_list (clients s))
  | WriteDirect _ ok | Deliver _ ok => ok
  | Panic _ => false
  | Release c => match clients s !! c with Some a => forallb terminal (pending a) | None => true end
  | _ => true
  end.

Fixpoint all_timely (ls : list Step) (s : SharedSession) : bool :=
  match ls with
  | [] => true
  | l :: ls' => (timely l s && match step l s with Some s' => all_timely ls' s' | None => true end)%bool
  end.

Lemma all_timely_snoc ls l s s1 :
  exec ls s = Some s1 -> all_timely (ls ++ [l]) s = true -> all_timely ls s = true /\ timely l s1 = true.
Proof.
  revert s. induction ls as [|l0 ls IH]; intros s; simpl.
  - intros [= ->]. rewrite andb_true_iff. by intros [? _].
  - destruct (step l0 s) as [s2|]; simpl; [|done]. rewrite !andb_true_iff.
    intros He [Ht Hr]. by destruct (IH s2 He Hr).
Qed.

Definition foreign (c : ClientId) (e : Event) : Prop := author e <> c.
Definition chunk_of (c : ClientId) (e : Event) : Prop := author e = c /\ terminal e = false.

(** The event a drain has broadcast and not yet written. *)
Definition mid_write (t : Turn) : list Event := match t with ToWrite e => [e] | _ => [] end.

(** The turn may still broadcast. *)
Definition sending (t : Turn) : bool :=
  match t with Running | ToSend _ => true | ToWrite e => negb (terminal e) | _ => false end.

(** A client's pending events: chunks of its own turn [ns], its own terminal
    event [ts] under the hand-off, events of other turns [fs]; and what was
    written so far. *)
Record shape (submitting handed : Prop) (h : list Event) (c : ClientId) (a : Client) (ns ts fs : list Event) : Prop := {
  sh_pending : pending a = ns ++ ts ++ fs;
  sh_chunks : Forall (chunk_of c) ns;
  sh_foreign : Forall (foreign c) fs;
  sh_terminal : ts = [] \/ exists t, ts = [t] /\ author t = c /\ terminal t = true /\ handed;
  sh_during : submitting -> fs = [];
  sh_after : ~ submitting -> ns = [];
  sh_held e : held a = Some e -> author e = c -> terminal e = false;
  sh_sending : sending (turn a) = true -> ts = [];
  sh_handed : handed -> ts <> [] \/ exists e, turn a = ToSend e /\ terminal e = true;
  sh_armed e : turn a = ToSend e -> author e = c /\ (terminal e = true -> handed);
  sh_mid : Forall (fun e => author e = c) (mid_write (turn a));
  sh_listening : listening a = true;
  sh_joined : (joined a <= length h)%nat;
  sh_written : written a ++ fs ++ mid_write (turn a) = drop (joined a) h
}.

Definition good (s : SharedSession) (c : ClientId) (a : Client) : Prop :=
  exists ns ts fs, shape (active_submitter s = Some c) (terminal_handoff s = Some c) (history s) c a ns ts fs.

Definition all_good (s : SharedSession) : Prop := forall c a, clients s !! c = Some a -> good s c a.

(** What other clients do to the lock and the hand-off is not seen. *)
Lemma good_frame s s' c a :
  good s c a ->
  (active_submitter s' = Some c <-> active_submitter s = Some c) ->
  (terminal_handoff s' = Some c <-> terminal_handoff s = Some c) ->
  history s' = history s -> good s' c a.
Proof.
  intros (ns & ts & fs & []) Hsub Hh Hhist. exists ns, ts, fs.
  split; rewrite ?Hhist; try done; try tauto.
  - destruct sh_terminal0 as [|(t & ? & ? & ? & ?)]; [by left|right]. exists t. tauto.
  - intros e He. destruct (sh_armed0 e He). tauto.
Qed.

(** A step on one client's record: that client is good again, and the others
    have not noticed. *)
Lemma all_good_put s s1 c a' :
  all_good s -> clients s1 = <[c := a']> (clients s) -> history s1 = history s ->
  (forall d, d <> c -> (active_submitter s1 = Some d <-> active_submitter s = Some d) /\
                       (terminal_handoff s1 = Some d <-> terminal_handoff s = Some d)) ->
  good s1 c a' -> all_good s1.
Proof.
  intros Hg Hc Hh Hothers Hgood d b. rewrite Hc. destruct (decide (c = d)) as [->|Hne].
  - rewrite lookup_insert_eq. by intros [= <-].
  - rewrite lookup_insert_ne by done. intros Hd. destruct (Hothers d) as [H1 H2]; [done|].
    apply (good_frame s); [by apply Hg|done..].
Qed.

Lemma no_turn s c a : exclusive s -> clients s !! c = Some a -> active_submitter s <> Some c -> turn a = NoTurn.
Proof.
  intros Hex Hc Hs. destruct (turn a) eqn:Ht; [done|..]; exfalso; apply Hs, (ex_turn s Hex c a Hc); by rewrite Ht.
Qed.

Lemma good_join s : exclusive s -> all_good s -> all_good (add_client s).2.
Proof.
  intros Hex Hg. apply (all_good_put s _ (next_client_id s) (mkClient [] None true NoTurn [] (length (history s))));
    [done..|].
  assert (Hnew : forall o, (forall c, o = Some c -> is_Some (clients s !! c)) -> o <> Some (next_client_id s)).
  { intros o Ho He. apply Ho, (ex_ids s Hex) in He. lia. }
  pose proof (Hnew _ (ex_submitter s Hex)) as Hsub. pose proof (Hnew _ (ex_handoff s Hex)) as Hh.
  exists [], [], []. split; simpl; try done; [by left|by rewrite drop_ge].
Qed.

Lemma good_leave c s : active_submitter s <> Some c -> all_good s -> all_good (remove_client c s).2.
Proof.
  intros Hs Hg. unfold remove_client, detach_client. destruct (clients s !! c) as [a|] eqn:Hc; [|done].
  unfold release_submitter. simpl. rewrite (bool_decide_false _ Hs). simpl.
  intros d b Hd. assert (Hd' : d <> c /\ clients s !! d = Some b).
  { destruct (bool_decide _); simpl in Hd; apply lookup_delete_Some in Hd as [? ?]; done. }
  destruct Hd' as [Hne Hd']. apply (good_frame s); [by apply Hg|..];
    destruct (bool_decide_reflect (terminal_handoff s = Some c)) as [Hh|Hh]; simpl; try done.
  rewrite Hh. split; [done|congruence].
Qed.

Lemma good_submit c a s :
  clients s !! c = Some a -> active_submitter s = None -> pending a = [] -> exclusive s -> all_good s ->
  all_good (put c (set_turn Running a) (set_submitter (Some c) s)).
Proof.
  intros Hc Hs Hp Hex Hg. apply (all_good_put s _ c (set_turn Running a)); [done..| |].
  - intros d Hne. simpl. rewrite Hs. split; [split; [congruence|done]|done].
  - assert (Ht : turn a = NoTurn).
    { apply (no_turn s c a Hex Hc). congruence. }
    destruct (Hg c a Hc) as (ns & ts & fs & []). rewrite Hp in sh_pending0.
    symmetry in sh_pending0. apply app_eq_nil in sh_pending0 as [-> [-> ->]%app_eq_nil].
    exists [], [], []. rewrite Ht in *. split; simpl; try done.
    intros Hh. destruct (sh_handed0 Hh) as [|(e & ? & _)]; done.
Qed.

Lemma good_engine_says c a e s :
  clients s !! c = Some a -> turn a = Running -> author e = c ->
  (terminal e = true -> terminal_handoff s = None) -> exclusive s -> all_good s ->
  all_good (engine_says c a e s).
Proof.
  intros Hc Ht He Hnone Hex Hg. unfold engine_says.
  assert (Hsub : active_submitter s = Some c) by (apply (ex_turn s Hex c a Hc); by rewrite Ht).
  destruct (Hg c a Hc) as (ns & ts & fs & []). specialize (sh_sending0 ltac:(by rewrite Ht)).
  rewrite Ht in *. subst ts. simpl in *.
  destruct (terminal e) eqn:Ee.
  - specialize (Hnone eq_refl). apply (all_good_put s _ c (set_turn (ToSend e) a)); [done..| |].
    + intros d Hne. simpl. rewrite Hnone. split; [done|]. split; [congruence|done].
    + exists ns, [], fs. split; simpl; try done; [by left|by intros _; right; exists e|by intros e' [= <-]].
  - apply (all_good_put s _ c (set_turn (ToSend e) a)); [done..|].
    exists ns, [], fs. split; simpl; try done.
    + intros Hh. destruct (sh_handed0 Hh) as [|(? & ? & _)]; done.
    + intros e' [= <-]. split; [done|congruence].
Qed.

Lemma good_closes c a s :
  clients s !! c = Some a -> turn a = Running -> all_good s -> all_good (put c (set_turn Finishing a) s).
Proof.
  intros Hc Ht Hg. apply (all_good_put s _ c (set_turn Finishing a)); [done..|].
  destruct (Hg c a Hc) as (ns & ts & fs & []). rewrite Ht in *. exists ns, ts, fs. split; simpl; try done.
  intros Hh. destruct (sh_handed0 Hh) as [|(? & ? & _)]; [by left|done].
Qed.

Lemma good_write c a e s :
  clients s !! c = Some a -> turn a = ToWrite e -> exclusive s -> all_good s ->
  all_good (put c (after_write e true a) s).
Proof.
  intros Hc Ht Hex Hg. apply (all_good_put s _ c (after_write e true a)); [done..|].
  assert (Hsub : active_submitter s = Some c) by (apply (ex_turn s Hex c a Hc); by rewrite Ht).
  destruct (Hg c a Hc) as (ns & ts & fs & []). rewrite Ht in *. specialize (sh_during0 Hsub). subst fs. simpl in *.
  exists ns, ts, []. split; simpl; try done.
  - destruct (terminal e) eqn:Ee; [done|]. intros _. by apply sh_sending0.
  - intros Hh. destruct (sh_handed0 Hh) as [|(? & ? & _)]; [by left|done].
  - by destruct (terminal e).
  - by destruct (terminal e).
  - destruct (terminal e); simpl; by rewrite app_nil_r.
Qed.

Lemma good_release c a s :
  clients s !! c = Some a -> turn a = Finishing -> forallb terminal (pending a) = true ->
  active_submitter s = Some c -> all_good s -> all_good (set_submitter None (put c (set_turn NoTurn a) s)).
Proof.
  intros Hc Ht Hp Hsub Hg. apply (all_good_put s _ c (set_turn NoTurn a)); [done..| |].
  - intros d Hne. simpl. rewrite Hsub. split; [split; [done|congruence]|done].
  - destruct (Hg c a Hc) as (ns & ts & fs & []). specialize (sh_during0 Hsub). subst fs. rewrite Ht in *.
    assert (ns = []) as ->.
    { destruct ns as [|n ns]; [done|]. rewrite sh_pending0 in Hp. simpl in Hp.
      apply andb_true_iff in Hp as [Hn _]. apply Forall_cons in sh_chunks0 as [[_ ?] _]. congruence. }
    exists [], ts, []. split; simpl; try done.
    intros Hh. destruct (sh_handed0 Hh) as [|(? & ? & _)]; [by left|done].
Qed.

Lemma receive_backlog e a : (length (backlog a) < broadcast_capacity)%nat -> backlog (receive e a) = backlog a ++ [e].
Proof.
  intros Hl. simpl. rewrite length_app. simpl.
  replace (length (backlog a) + 1 - broadcast_capacity)%nat with 0%nat by lia. done.
Qed.

Lemma pending_receive e a :
  (length (backlog a) < broadcast_capacity)%nat -> pending (receive e a) = pending a ++ [e].
Proof. intros Hl. unfold pending. rewrite (receive_backlog e a Hl), app_assoc. done. Qed.

Lemma drop_snoc {A} n (l : list A) x : (n <= length l)%nat -> drop n (l ++ [x]) = drop n l ++ [x].
Proof. intros Hn. rewrite drop_app. replace (n - length l)%nat with 0%nat by lia. done. Qed.

(** The submitter's own receiver gets the event it is about to write; all the
    others get an event of another turn. *)
Lemma good_broadcast c a e s :
  clients s !! c = Some a -> turn a = ToSend e ->
  (forall d b, clients s !! d = Some b -> (length (backlog b) < broadcast_capacity)%nat) ->
  exclusive s -> all_good s -> all_good (broadcast e (put c (set_turn (ToWrite e) a) s)).
Proof.
  intros Hc Ht Hroom Hex Hg.
  assert (Hsub : active_submitter s = Some c) by (apply (ex_turn s Hex c a Hc); by rewrite Ht).
  destruct (Hg c a Hc) as (ns0 & ts0 & fs0 & Hc0). destruct (sh_armed _ _ _ _ _ _ _ _ Hc0 e Ht) as [He Hterm].
  intros d b. simpl. rewrite lookup_fmap. destruct (decide (c = d)) as [<-|Hne].
  - rewrite lookup_insert_eq. intros [= <-]. destruct Hc0.
    specialize (sh_during0 Hsub). rewrite Ht in *. specialize (sh_sending0 eq_refl). subst fs0 ts0. simpl in *.
    pose proof (pending_receive e (set_turn (ToWrite e) a) (Hroom c a Hc)) as Hpend.
    assert (Hh : drop (joined a) (history s ++ [e]) = written a ++ [e])
      by (rewrite drop_snoc by done; by rewrite <- sh_written0, app_nil_r).
    destruct (terminal e) eqn:Ee.
    + exists ns0, [e], []. split; simpl; rewrite ?Ee; try done.
      * rewrite Hpend. change (pending (set_turn (ToWrite e) a)) with (pending a). by rewrite sh_pending0, !app_nil_r.
      * right. exists e. auto.
      * by left.
      * by apply Forall_singleton.
      * rewrite length_app. simpl. lia.
    + exists (ns0 ++ [e]), [], []. split; simpl; rewrite ?Ee; try done.
      * rewrite Hpend. change (pending (set_turn (ToWrite e) a)) with (pending a). by rewrite sh_pending0, !app_nil_r.
      * apply Forall_app. split; [done|]. by apply Forall_singleton.
      * intros Hh'. destruct (sh_handed0 Hh') as [|(e' & [= <-] & ?)]; [done|congruence].
      * by apply Forall_singleton.
      * rewrite length_app. simpl. lia.
  - rewrite lookup_insert_ne by done. intros (b0 & Hd & ->)%fmap_Some.
    assert (Hn : active_submitter s <> Some d) by congruence.
    pose proof (no_turn s d b0 Hex Hd Hn) as Hnt.
    destruct (Hg d b0 Hd) as (ns & ts & fs & []). rewrite Hnt in *. specialize (sh_after0 Hn). subst ns. simpl in *.
    exists [], ts, (fs ++ [e]). split; simpl; rewrite ?Hnt; try done.
    + rewrite pending_receive by (by apply (Hroom d)). by rewrite sh_pending0, <- app_assoc.
    + apply Forall_app. split; [done|]. apply Forall_singleton. unfold foreign. congruence.
    + rewrite length_app. simpl. lia.
    + rewrite drop_snoc by done. rewrite <- sh_written0. by rewrite !app_nil_r, app_assoc.
Qed.

(** The head of what is pending, by the shape. *)
Lemma good_take c a e rest s :
  clients s !! c = Some a -> held a = None -> backlog a = e :: rest -> exclusive s -> all_good s ->
  all_good (take c a e rest s).
Proof.
  intros Hc Hheld Hq Hex Hg. destruct (Hg c a Hc) as (ns & ts & fs & Hsh).
  assert (Hp : e :: rest = ns ++ ts ++ fs).
  { rewrite <- (sh_pending _ _ _ _ _ _ _ _ Hsh). unfold pending. by rewrite Hheld, Hq. }
  assert (Hkeep : ~ (author e = c /\ terminal e = true) -> all_good (put c (set_queue rest (Some e) a) s)).
  { intros Hne. apply (all_good_put s _ c (set_queue rest (Some e) a)); [done..|].
    exists ns, ts, fs. destruct Hsh. split; simpl; try done.
    intros e' [= <-] He'. destruct (terminal e); [|done]. exfalso. auto. }
  unfold take, take_terminal_handoff. destruct (terminal e) eqn:Ee; [|apply Hkeep; by intros [_ ?]].
  assert (ns = []) as ->.
  { destruct ns as [|n ns]; [done|]. injection Hp as -> _.
    pose proof (sh_chunks _ _ _ _ _ _ _ _ Hsh) as [[_ ?] _]%Forall_cons. congruence. }
  destruct (bool_decide_reflect (terminal_handoff s = Some c)) as [Hh|Hh].
  - assert (Hts : ts = [e] /\ rest = fs).
    { destruct (sh_terminal _ _ _ _ _ _ _ _ Hsh) as [->|(t & -> & _)]; [exfalso|by injection Hp as -> ->].
      destruct (sh_handed _ _ _ _ _ _ _ _ Hsh Hh) as [|(e' & Ht & _)]; [done|].
      assert (Hsub : active_submitter s = Some c) by (apply (ex_turn s Hex c a Hc); by rewrite Ht).
      by rewrite (sh_during _ _ _ _ _ _ _ _ Hsh Hsub) in Hp. }
    destruct Hts as [-> ->]. destruct Hsh.
    assert (Hns : forall e', turn a <> ToSend e') by (intros e' Ht; rewrite Ht in sh_sending0; by specialize (sh_sending0 eq_refl)).
    apply (all_good_put s _ c (set_queue fs None a)); [done..| |].
    + intros d Hne. simpl. split; [done|]. rewrite Hh. split; [done|congruence].
    + exists [], [], fs. split; simpl; try done; [by left|]. by intros e' Ht%Hns.
  - apply Hkeep. intros [He _].
    destruct (sh_terminal _ _ _ _ _ _ _ _ Hsh) as [->|(t & -> & _ & _ & ?)]; [|done].
    simpl in Hp. subst fs. pose proof (sh_foreign _ _ _ _ _ _ _ _ Hsh) as [Hf _]%Forall_cons. done.
Qed.

Lemma good_deliver c a e s :
  clients s !! c = Some a -> held a = Some e -> exclusive s -> all_good s -> all_good (deliver c a e true s).
Proof.
  intros Hc Hheld Hex Hg. destruct (Hg c a Hc) as (ns & ts & fs & Hsh).
  assert (Hp : e :: backlog a = ns ++ ts ++ fs).
  { rewrite <- (sh_pending _ _ _ _ _ _ _ _ Hsh). unfold pending. by rewrite Hheld. }
  assert (Hts : ns = [] -> ts = [] /\ fs = e :: backlog a).
  { intros ->. destruct (sh_terminal _ _ _ _ _ _ _ _ Hsh) as [->|(t & -> & Ht & Ht' & _)]; [done|].
    injection Hp as -> _. pose proof (sh_held _ _ _ _ _ _ _ _ Hsh t Hheld Ht). congruence. }
  unfold deliver, is_active_submitter. destruct (bool_decide_reflect (active_submitter s = Some c)) as [Hs|Hs].
  - destruct ns as [|n ns]; [destruct (Hts eq_refl) as [_ Hfs]; by rewrite (sh_during _ _ _ _ _ _ _ _ Hsh Hs) in Hfs|].
    injection Hp as -> Hp. destruct Hsh. apply (all_good_put s _ c (set_queue (backlog a) None a)); [done..|].
    exists ns, ts, fs. apply Forall_cons in sh_chunks0 as [_ ?]. by split.
  - pose proof (sh_after _ _ _ _ _ _ _ _ Hsh Hs) as Hns. subst ns. destruct (Hts eq_refl) as [-> Hfs]. subst fs.
    pose proof (no_turn s c a Hex Hc Hs) as Hnt. destruct Hsh. rewrite Hnt in *.
    apply (all_good_put s _ c (write e (set_queue (backlog a) None a))); [done..|].
    apply Forall_cons in sh_foreign0 as [_ ?].
    exists [], [], (backlog a). split; simpl; rewrite ?Hnt; try done. by rewrite <- app_assoc.
Qed.

Lemma step_good l s s' :
  step l s = Some s' -> timely l s = true -> exclusive s -> all_good s -> all_good s'.
Proof.
  intros Hs Ht Hex Hg. destruct l as [|c|c|c final text|c|c|c ok|c|c|c|c ok]; cbn [step mbind option_bind] in Hs;
    try (destruct (clients s !! c) as [a|] eqn:Hc; cbn [mbind option_bind] in Hs; [|done]).
  - injection Hs as <-. by apply good_join.
  - unfold is_active_submitter in Hs. destruct (bool_decide_reflect (active_submitter s = Some c)); [done|].
    injection Hs as <-. by apply good_leave.
  - unfold try_acquire_submitter in Hs. simpl in Ht. unfold has_active_submitter in Ht.
    destruct (active_submitter s) eqn:Ha; injection Hs as <-; [done|].
    rewrite Hc in Ht. simpl in Ht. apply Nat.eqb_eq, nil_length_inv in Ht. by apply good_submit.
  - destruct (turn a) eqn:Hta; try done. injection Hs as <-. apply good_engine_says; try done.
    simpl. intros ->. simpl in Ht. by destruct (terminal_handoff s).
  - destruct (turn a) eqn:Hta; try done. injection Hs as <-. by apply good_closes.
  - destruct (turn a) eqn:Hta; try done. injection Hs as <-. apply good_broadcast; try done.
    intros d b Hd. simpl in Ht. rewrite forallb_elem in Ht.
    apply Nat.ltb_lt, (Ht (d, b)). by apply elem_of_map_to_list.
  - destruct (turn a) eqn:Hta; try done. injection Hs as <-. simpl in Ht. subst ok. by apply good_write.
  - done.
  - destruct (turn a) eqn:Hta; try done. injection Hs as <-. simpl in Ht. rewrite Hc in Ht.
    assert (Hsub : active_submitter s = Some c) by (apply (ex_turn s Hex c a Hc); by rewrite Hta).
    unfold release_submitter. simpl. rewrite bool_decide_true by done. by apply good_release.
  - destruct (listening a), (held a) eqn:Hh, (backlog a) eqn:Hq; try done. injection Hs as <-. by apply good_take.
  - destruct (held a) eqn:Hh; [|done]. injection Hs as <-. simpl in Ht. subst ok. by apply good_deliver.
Qed.

Lemma exec_good ls s :
  exec ls new = Some s -> all_timely ls new = true -> Z.of_nat (length ls) < u64_max - 1 -> all_good s.
Proof.
  revert s. induction ls as [|l ls IH] using rev_ind; intros s.
  - intros [= <-] _ _ c a Hc. simpl in Hc. by rewrite lookup_empty in Hc.
  - intros He Ht Hb. apply exec_snoc in He as (s1 & H1 & Hs).
    destruct (all_timely_snoc ls l new s1 H1 Ht) as [Ht1 Htl].
    rewrite length_app in Hb. simpl in Hb. destruct (exec_exclusive ls s1 H1) as [Hex _]; [lia|].
    apply (step_good l s1); [done..|]. apply IH; [done..|lia].
Qed.

(** Claim C16. Every client sees every event exactly once and in order, as long
    as the broadcast tasks keep up at the hand-overs: what has been written to a
    client's connection, by the drain of its own turns or by its broadcast task,
    is at every moment a prefix of what was broadcast since it joined, and all
    of it once its task has nothing left to look at and its drain is not
    between the broadcast and the direct write of an event.  The terminal event
    of its own turn may still be unread when the turn ends: the hand-off
    suppresses the second copy. *)
Theorem seen_exactly_once (ls : list Step) (s : SharedSession) (c : ClientId) (a : Client) :
  exec ls new = Some s -> all_timely ls new = true -> Z.of_nat (length ls) < u64_max - 1 ->
  clients s !! c = Some a ->
  written a `prefix_of` drop (joined a) (history s) /\
  (Forall (fun e => author e = c /\ terminal e = true) (pending a) -> mid_write (turn a) = [] ->
   written a = drop (joined a) (history s)).
Proof.
  intros He Ht Hb Hc. destruct (exec_good ls s He Ht Hb c a Hc) as (ns & ts & fs & []). split.
  - rewrite <- sh_written0. apply prefix_app_r. done.
  - intros Hp Hm. rewrite Hm, app_nil_r in sh_written0. rewrite <- sh_written0.
    rewrite sh_pending0 in Hp. apply Forall_app in Hp as [_ [_ Hf]%Forall_app].
    destruct fs as [|f fs]; [by rewrite app_nil_r|].
    apply Forall_cons in Hf as [[Hf _] _]. by apply Forall_cons in sh_foreign0 as [? _].
Qed.

(** ** Witnesses and races *)

(** Two clients; the first asks, its own broadcast task comes late to the
    terminal event; then the second asks. *)
Definition orderly_turns : list Step :=
  [Join; Join; Submit 1; EngineSays 1 false "a"; Broadcast 1; WriteDirect 1 true; Take 1; Deliver 1 true;
   Take 2; Deliver 2 true; EngineSays 1 true "b"; Broadcast 1; WriteDirect 1 true; Release 1; Take 1;
   Take 2; Deliver 2 true; Submit 2; EngineSays 2 true "c"; Broadcast 2; WriteDirect 2 true;
   Take 1; Deliver 1 true; Release 2; Take 2].

Definition shown (ls : list Step) (c : ClientId) : option (list string) :=
  s ← exec ls new; a ← clients s !! c; Some (payload <$> written a).

Definition after (ls : list Step) : SharedSession := default new (exec ls new).

Lemma after_exec ls : is_some (exec ls new) = true -> exec ls new = Some (after ls).
Proof. unfold after. by destruct (exec ls new). Qed.

Definition first_client : Client := mkClient [] None true NoTurn
  [mkEvent 1 false "a"; mkEvent 1 true "b"; mkEvent 2 true "c"] 0.

Lemma seen_exactly_once_witness :
  written first_client `prefix_of` drop 0 (history (after orderly_turns)) /\
  (Forall (fun e => author e = 1 /\ terminal e = true) (pending first_client) ->
   mid_write (turn first_client) = [] -> written first_client = drop 0 (history (after orderly_turns))).
Proof.
  apply (seen_exactly_once orderly_turns (after orderly_turns) 1 first_client).
  - apply after_exec. vm_compute. reflexivity.
  - vm_compute. reflexivity.
  - vm_compute. reflexivity.
  - vm_compute. reflexivity.
Defined.

Lemma turns_exclusive_witness :
  active_submitter (after (firstn 18 orderly_turns)) = Some 2 /\
  exists a, clients (after (firstn 18 orderly_turns)) !! 2 = Some a /\ turn a <> NoTurn.
Proof.
  split; [vm_compute; reflexivity|]. apply (turns_exclusive (firstn 18 orderly_turns)).
  - apply after_exec. vm_compute. reflexivity.
  - vm_compute. reflexivity.
  - vm_compute. reflexivity.
Defined.

(** A chunk its own broadcast task has not looked at when the turn ends is
    written a second time. *)
Example late_chunk_repeated :
  shown [Join; Submit 1; EngineSays 1 false "a"; Broadcast 1; WriteDirect 1 true;
         EngineSays 1 true "b"; Broadcast 1; WriteDirect 1 true; Release 1; Take 1; Deliver 1 true; Take 1] 1
  = Some ["a"; "b"; "a"].
Proof. vm_compute. reflexivity. Qed.

(** A client that submits before it was shown the end of the other's turn never
    sees it. *)
Example unread_answer_lost :
  shown [Join; Join; Submit 1; EngineSays 1 true "b"; Broadcast 1; WriteDirect 1 true; Release 1; Submit 2;
         Take 2; Deliver 2 true] 2
  = Some [].
Proof. vm_compute. reflexivity. Qed.

(** One slot for the hand-off: the next turn's terminal event overwrites it
    while it is still armed.  The first client sees its answer twice, and the
    second consumes its own hand-off on the first one's event, which it misses,
    and sees its own answer twice. *)
Example handoff_overwritten :
  let ls := [Join; Join; Submit 1; EngineSays 1 true "b"; Broadcast 1; WriteDirect 1 true; Release 1;
             Submit 2; EngineSays 2 true "c"; Broadcast 2; WriteDirect 2 true;
             Take 1; Deliver 1 true; Take 2; Release 2; Take 2; Deliver 2 true] in
  shown ls 1 = Some ["b"; "b"] /\ shown ls 2 = Some ["c"; "c"].
Proof. vm_compute. split; reflexivity. Qed.
