(* ===== verification/Security.v ===== *)
(** * Security: the checks of [engine/security.rs]

    The blocklist of shell commands, the filter of internal addresses, and the
    validation of what enters memory, written with the string operations of the
    standard library only.  The redaction of secrets uses a third-party library
    of regular expressions and is left out. *)

From stdpp Require Import base gmap strings list.
From Stdlib Require Import ZArith Lia.
From S2P Require Import Prelude Text.

#[local] Open Scope Z_scope.

Abbreviation ascii n := (Ascii.ascii_of_nat n).
Abbreviation Checked := (result unit string).

(** ** Dangerous commands *)

Definition DANGEROUS_PATTERNS : list (string * string) :=
  [("rm -rf /*", "Destructive command: recursive root delete (rm -rf /*)");
   (":(){ :|:& };:", "Destructive command: fork bomb detected");
   ("dd if=", "Dangerous command: dd with input redirection to block device");
   ("of=/dev/sd", "Dangerous command: writing directly to SCSI/SATA block device");
   ("of=/dev/hd", "Dangerous command: writing directly to IDE block device");
   ("of=/dev/nvme", "Dangerous command: writing directly to NVMe block device");
   ("of=/dev/md", "Dangerous command: writing directly to MD RAID device");
   ("mkfs", "Dangerous command: filesystem formatting (mkfs)");
   ("chmod -r 777 /", "Dangerous command: recursively setting world-writable permissions on /");
   ("chmod 777 /", "Dangerous command: setting world-writable permissions on /");
   ("> /etc/passwd", "Dangerous command: overwriting /etc/passwd");
   ("> /etc/shadow", "Dangerous command: overwriting /etc/shadow");
   ("shutdown", "Dangerous command: system shutdown");
   ("reboot", "Dangerous command: system reboot");
   ("poweroff", "Dangerous command: system power off");
   ("halt", "Dangerous command: system halt");
   ("init 0", "Dangerous command: init to runlevel 0 (shutdown)");
   ("init 6", "Dangerous command: init to runlevel 6 (reboot)");
   ("> /dev/sda", "Dangerous command: writing directly to block device /dev/sda");
   ("> /dev/sdb", "Dangerous command: writing directly to block device /dev/sdb");
   ("> /dev/sdc", "Dangerous command: writing directly to block device /dev/sdc");
   ("> /dev/sdd", "Dangerous command: writing directly to block device /dev/sdd");
   ("> /dev/nvme", "Dangerous command: writing directly to NVMe block device");
   ("> /dev/vd", "Dangerous command: writing directly to virtual block device /dev/vd");
   ("rm -rf ~", "Destructive command: recursive home directory delete (rm -rf ~)");
   ("rm -rf $home", "Destructive command: recursive home directory delete (rm -rf $HOME)");
   ("| bash", "Dangerous command: piping untrusted remote content directly into bash");
   ("| sh", "Dangerous command: piping untrusted remote content directly into sh")].

(** What follows ["rm -rf /"] when the root itself is the target. *)
Definition root_target (after : string) : bool :=
  (is_empty after || starts_with after "*" || starts_with after " " || String.eqb after ".")%bool.

Definition check_dangerous_command (cmd : string) : Checked :=
  let cmd_lower := to_lowercase cmd in
  match List.find (fun p => str_contains cmd_lower (p.1)) DANGEROUS_PATTERNS with
  | Some p => Err (p.2)
  | None =>
      match after_first (bytes_of "rm -rf /") (bytes_of cmd_lower) with
      | Some after =>
          if root_target (string_of after)
          then Err "Destructive command: recursive root delete (rm -rf /)" else Ok tt
      | None => Ok tt
      end
  end.

(** ** Internal addresses *)

Definition BLOCKED_HOSTNAMES : list string := ["metadata.google.internal"; "metadata.internal"].

Definition slash : byte := ascii 47.
Definition question : byte := ascii 63.
Definition hash : byte := ascii 35.
Definition at_sign : byte := ascii 64.
Definition colon : byte := ascii 58.
Definition dot : byte := ascii 46.
Definition open_bracket : byte := ascii 91.
Definition close_bracket : byte := ascii 93.

Definition ends_authority (b : byte) : bool :=
  (Ascii.eqb b slash || Ascii.eqb b question || Ascii.eqb b hash)%bool.

Definition strip_port (host_port : list byte) : list byte :=
  match host_port with
  | b :: rest =>
      if Ascii.eqb b open_bracket then
        (* the text between the brackets, or everything without the second *)
        if existsb (Ascii.eqb close_bracket) rest
        then take_until (Ascii.eqb close_bracket) rest else host_port
      else default host_port (before_last colon host_port)
  | [] => []
  end.

(** [extract_host]; it never fails. *)
Definition extract_host (url : string) : list byte :=
  let after_scheme := default (bytes_of url) (after_first (bytes_of "://") (bytes_of url)) in
  let authority := take_until ends_authority after_scheme in
  strip_port (after_last at_sign authority).

Definition ipv6_blocked (host : string) : bool :=
  let h := to_lowercase host in
  (String.eqb h "::1" || String.eqb h "0:0:0:0:0:0:0:1" ||
   starts_with h "fc" || starts_with h "fd" || starts_with h "fe8")%bool.

(** The octets that parse, the others being skipped. *)
Definition octets (host : list byte) : list Z :=
  omap (fun o => parse_uint 255 (string_of o)) (split_byte dot host).

Definition pack (a b c d : Z) : Z :=
  Z.lor (Z.lor (Z.lor (Z.shiftl a 24) (Z.shiftl b 16)) (Z.shiftl c 8)) d.

Definition ipv4_blocked (ip : Z) : bool :=
  (Z.eqb (Z.shiftr ip 24) 127 || Z.eqb (Z.shiftr ip 24) 10 ||
   Z.eqb (Z.shiftr ip 20) (Z.lor (Z.shiftl 172 4) 1) ||
   Z.eqb (Z.shiftr ip 16) (Z.lor (Z.shiftl 192 8) 168) ||
   Z.eqb (Z.shiftr ip 16) (Z.lor (Z.shiftl 169 8) 254) ||
   Z.eqb (Z.shiftr ip 22) (Z.lor (Z.shiftl 100 2) 1))%bool.

Definition is_blocked_ip (host : list byte) : bool :=
  if existsb (Ascii.eqb colon) host then ipv6_blocked (string_of host)
  else match octets host with
       | [a; b; c; d] => ipv4_blocked (pack a b c d)
       | _ => false
       end.

Definition check_ssrf_url (url : string) : Checked :=
  let host := extract_host url in
  if existsb (String.eqb (to_lowercase (string_of host))) BLOCKED_HOSTNAMES then
    Err ("SSRF blocked: access to internal hostname '" +:+ string_of host +:+ "' is denied")
  else if is_blocked_ip host then
    Err ("SSRF blocked: access to private/internal address '" +:+ string_of host +:+ "' is denied")
  else Ok tt.

(** ** Memory content *)

(** The invisible characters with their code points, in UTF-8. *)
Definition INVISIBLE_CHARS : list (list nat * string) :=
  [([226; 128; 139]%nat, "200B"); ([226; 128; 140]%nat, "200C"); ([226; 128; 141]%nat, "200D");
   ([239; 187; 191]%nat, "FEFF"); ([226; 128; 170]%nat, "202A"); ([226; 128; 171]%nat, "202B");
   ([226; 128; 172]%nat, "202C"); ([226; 128; 173]%nat, "202D"); ([226; 128; 174]%nat, "202E")].

Definition PROMPT_INJECTION_PATTERNS : list string :=
  ["ignore previous instructions"; "disregard your instructions"; "forget your instructions"].

(** [memchr_iter]: the offsets of a byte, from [pos] on. *)
Fixpoint memchr_iter (needle : byte) (l : list byte) (pos : nat) : list nat :=
  match l with
  | [] => []
  | b :: l' => if Ascii.eqb b needle then pos :: memchr_iter needle l' (S pos) else memchr_iter needle l' (S pos)
  end.

(** [i + len < bytes.len() && bytes[i..i + len] == prefix], and then enough
    bytes of the kind that makes up the body. *)
Definition token_at (bytes : list byte) (prefix : string) (kind : byte -> bool) (least i : nat) : bool :=
  let p := bytes_of prefix in
  (Nat.ltb (i + length p) (length bytes) &&
   bool_decide (take (length p) (drop i bytes) = p) &&
   Nat.leb least (count_while kind (drop (i + length p) bytes)))%bool.

Definition has_token (bytes : list byte) (first : byte) (prefix : string) (kind : byte -> bool) (least : nat) : bool :=
  existsb (token_at bytes prefix kind least) (memchr_iter first bytes 0).

Definition upper_or_digit (b : byte) : bool := (is_upper b || is_digit b)%bool.
Definition alnum_dash (b : byte) : bool := (is_alphanumeric b || Ascii.eqb b (ascii 45))%bool.
Definition bearer_byte (b : byte) : bool :=
  (is_alphanumeric b || Ascii.eqb b dot || Ascii.eqb b (ascii 95) || Ascii.eqb b (ascii 45))%bool.

Definition slack_prefixes : list string := ["xoxb-"; "xoxp-"; "xoxa-"; "xoxs-"].

Definition contains_credential (content : string) : bool :=
  let bytes := bytes_of content in
  (has_token bytes (ascii 115) "sk-" is_alphanumeric 20 ||
   has_token bytes (ascii 103) "ghp_" is_alphanumeric 36 ||
   has_token bytes (ascii 65) "AKIA" upper_or_digit 16 ||
   existsb (fun i => existsb (fun p => token_at bytes p alnum_dash 10 i) slack_prefixes)
           (memchr_iter (ascii 120) bytes 0) ||
   has_token bytes (ascii 66) "Bearer " bearer_byte 20)%bool.

Definition validate_memory_content (content : string) : Checked :=
  if contains_credential content then
    Err "Memory content rejected: potential API key or credential detected"
  else match List.find (fun c => str_contains content (string_of (utf8 (c.1)))) INVISIBLE_CHARS with
  | Some c => Err ("Memory content rejected: invisible Unicode character U+" +:+ c.2 +:+ " detected")
  | None =>
      match List.find (str_contains (to_lowercase content)) PROMPT_INJECTION_PATTERNS with
      | Some p => Err ("Memory content rejected: prompt-injection pattern '" +:+ p +:+ "' detected")
      | None => Ok tt
      end
  end.

(** ** Examples: what passes *)

(** Only the first ["rm -rf /"] is looked at, and only a blank, a star or the
    end after it. *)
Example second_root_delete_passes :
  check_dangerous_command "rm -rf /tmp/build; rm -rf /" = Ok tt /\
  check_dangerous_command "rm -rf /; echo done" = Ok tt /\
  is_ok (check_dangerous_command "echo x && rm -rf / ") = false.
Proof. vm_compute. repeat split. Qed.

(** Patterns match inside words. *)
Example asphalt_is_dangerous : is_ok (check_dangerous_command "cat asphalt.txt") = false.
Proof. vm_compute. reflexivity. Qed.

(** Loopback under other names: a host name, the unspecified address, an
    address in one number, an IPv4 address mapped into IPv6. *)
Example loopback_spellings_pass :
  is_ok <$> (check_ssrf_url <$> ["http://127.0.0.1:8080/x"; "http://user@[::1]/"; "http://localhost/"; "http://0.0.0.0/";
     "http://2130706433/"; "http://127.1/"; "http://[::ffff:127.0.0.1]/"; "http://[febf::1]/"]) =
  [false; false; true; true; true; true; true; true].
Proof. vm_compute. reflexivity. Qed.

(** ** The blocklist *)

Lemma check_dangerous_command_decides cmd :
  is_ok (check_dangerous_command cmd) = true <->
  (forall p a b, p ∈ DANGEROUS_PATTERNS -> bytes_of (to_lowercase cmd) <> a ++ bytes_of (p.1) ++ b) /\
  (forall after, after_first (bytes_of "rm -rf /") (bytes_of (to_lowercase cmd)) = Some after ->
     root_target (string_of after) = false).
Proof.
  unfold check_dangerous_command. destruct (List.find _ DANGEROUS_PATTERNS) as [p|] eqn:E.
  - apply find_some in E as [Hin Hc]. apply str_contains_spec in Hc as (a & b & Hab).
    split; [done|]. intros [H _]. exfalso. apply (H p a b); [by apply list_elem_of_In|done].
  - assert (Hno : forall p a b, p ∈ DANGEROUS_PATTERNS -> bytes_of (to_lowercase cmd) <> a ++ bytes_of (p.1) ++ b).
    { intros p a b Hp Hab. apply list_elem_of_In in Hp. pose proof (find_none _ _ E p Hp) as Hf. simpl in Hf.
      assert (Ht : str_contains (to_lowercase cmd) (p.1) = true) by (apply str_contains_spec; eauto). congruence. }
    destruct (after_first _ _) as [after|]; [destruct (root_target (string_of after)) eqn:Er|].
    + split; [done|]. intros [_ H]. specialize (H after eq_refl). congruence.
    + split; [|done]. intros _. split; [done|]. by intros x [= <-].
    + done.
Qed.

(** ** Internal addresses *)

(** A decimal address. *)
Definition dotted (a b c d : nat) : list byte :=
  bytes_of (show_nat a) ++ dot :: bytes_of (show_nat b) ++ dot :: bytes_of (show_nat c) ++ dot ::
  bytes_of (show_nat d).

(** The ranges the filter names, as RFC 1122, 1918, 3927 and 6598 give them. *)
Definition internal (a b : nat) : bool :=
  (Nat.eqb a 127 || Nat.eqb a 10 || (Nat.eqb a 172 && Nat.leb 16 b && Nat.leb b 31) ||
   (Nat.eqb a 192 && Nat.eqb b 168) || (Nat.eqb a 169 && Nat.eqb b 254) ||
   (Nat.eqb a 100 && Nat.leb 64 b && Nat.leb b 127))%bool.

(** What an octet looks like, by enumeration. *)
Definition octet_text (n : nat) : bool :=
  (bool_decide (parse_uint 255 (show_nat n) = Some (Z.of_nat n)) &&
   forallb (fun b => is_digit b && negb (Ascii.eqb b dot) && negb (Ascii.eqb b colon) && negb (Ascii.eqb b at_sign) &&
                     negb (ends_authority b) && negb (Ascii.eqb b open_bracket))
           (bytes_of (show_nat n)) && negb (is_empty (show_nat n)))%bool.

Lemma octets_enumerated : forallb octet_text (seq 0 256) = true.
Proof. vm_compute. reflexivity. Qed.

Lemma octet_ok n : (n < 256)%nat -> octet_text n = true.
Proof. intros Hn. pose proof octets_enumerated as H. rewrite forallb_elem in H. apply H, elem_of_seq. lia. Qed.

Lemma octet_parses n : (n < 256)%nat -> parse_uint 255 (show_nat n) = Some (Z.of_nat n).
Proof.
  intros Hn. pose proof (octet_ok n Hn) as H. unfold octet_text in H. rewrite !andb_true_iff in H.
  destruct H as [[H _] _]. by apply bool_decide_eq_true in H.
Qed.

Lemma octet_free n f :
  (n < 256)%nat -> (forall b, is_digit b = true -> f b = true) -> forallb f (bytes_of (show_nat n)) = true.
Proof.
  intros Hn Hf. pose proof (octet_ok n Hn) as H. unfold octet_text in H. rewrite !andb_true_iff in H.
  destruct H as [[_ H] _]. rewrite forallb_elem in H |- *. intros b Hb. apply Hf.
  specialize (H b Hb). rewrite !andb_true_iff in H. tauto.
Qed.

(** A digit is none of the separators. *)
Lemma digit_not b c : is_digit b = true -> is_digit c = false -> negb (Ascii.eqb b c) = true.
Proof. intros Hb Hc. destruct (Ascii.eqb_spec b c) as [->|]; [congruence|done]. Qed.

Lemma octets_dotted a b c d :
  (a < 256)%nat -> (b < 256)%nat -> (c < 256)%nat -> (d < 256)%nat ->
  octets (dotted a b c d) = [Z.of_nat a; Z.of_nat b; Z.of_nat c; Z.of_nat d].
Proof.
  intros Ha Hb Hc Hd.
  assert (Hfree : forall n, (n < 256)%nat -> split_byte dot (bytes_of (show_nat n)) = [bytes_of (show_nat n)]).
  { intros n Hn. apply split_byte_free, octet_free; [done|]. intros x Hx. by apply digit_not. }
  unfold octets, dotted. rewrite !split_byte_app, !Hfree by done. simpl.
  rewrite !String.string_of_list_ascii_of_string, !octet_parses by done. done.
Qed.

Lemma shiftl_lor x y k : 0 <= k -> 0 <= y < 2 ^ k -> Z.lor (Z.shiftl x k) y = x * 2 ^ k + y.
Proof.
  intros Hk Hy. rewrite <- (Z.shiftl_mul_pow2 x k) by lia.
  assert (Hl : Z.land (Z.shiftl x k) y = 0).
  { apply Z.bits_inj'. intros n Hn. rewrite Z.land_spec, Z.bits_0.
    destruct (Z.lt_ge_cases n k) as [Hlt|Hge]; [by rewrite Z.shiftl_spec_low|].
    destruct (Z.eq_dec y 0) as [->|Hy0]; [by rewrite Z.bits_0, andb_false_r|].
    rewrite (Z.bits_above_log2 y n), andb_false_r; [done|lia|].
    apply Z.log2_lt_pow2; [lia|]. eapply Z.lt_le_trans; [apply Hy|]. apply Z.pow_le_mono_r; lia. }
  by rewrite Z.add_nocarry_lxor, <- Z.lxor_lor.
Qed.

Lemma pack_value a b c d :
  0 <= a < 256 -> 0 <= b < 256 -> 0 <= c < 256 -> 0 <= d < 256 ->
  pack a b c d = a * 2 ^ 24 + b * 2 ^ 16 + c * 2 ^ 8 + d.
Proof.
  intros Ha Hb Hc Hd. unfold pack. rewrite <- !Z.lor_assoc.
  assert (Hlow : Z.lor (Z.shiftl c 8) d = c * 2 ^ 8 + d) by (apply shiftl_lor; lia).
  assert (Hmid : Z.lor (Z.shiftl b 16) (Z.lor (Z.shiftl c 8) d) = b * 2 ^ 16 + (c * 2 ^ 8 + d))
    by (rewrite Hlow; apply shiftl_lor; lia).
  rewrite Hmid, shiftl_lor by lia. lia.
Qed.

Lemma ipv4_blocked_internal a b c d :
  (a < 256)%nat -> (b < 256)%nat -> (c < 256)%nat -> (d < 256)%nat ->
  ipv4_blocked (pack (Z.of_nat a) (Z.of_nat b) (Z.of_nat c) (Z.of_nat d)) = internal a b.
Proof.
  intros Ha Hb Hc Hd. rewrite pack_value by lia. unfold ipv4_blocked, internal.
  set (ip := _ + Z.of_nat d).
  assert (Hip : ip = Z.of_nat a * 2 ^ 24 + Z.of_nat b * 2 ^ 16 + Z.of_nat c * 2 ^ 8 + Z.of_nat d) by reflexivity.
  clearbody ip.
  assert (H24 : ip / 2 ^ 24 = Z.of_nat a) by (symmetry; apply (Z.div_unique_pos _ _ _ (ip - Z.of_nat a * 2 ^ 24)); lia).
  assert (H16 : ip / 2 ^ 16 = Z.of_nat a * 256 + Z.of_nat b)
    by (symmetry; apply (Z.div_unique_pos _ _ _ (Z.of_nat c * 2 ^ 8 + Z.of_nat d)); lia).
  assert (Hsplit : forall m k, m * k = 2 ^ 8 -> 0 < m -> 0 < k -> ip / (2 ^ 16 * m) = Z.of_nat a * k + Z.of_nat b / m).
  { intros m k Hmk Hm Hk. rewrite <- Z.div_div, H16 by lia.
    replace (Z.of_nat a * 256 + Z.of_nat b) with (Z.of_nat a * k * m + Z.of_nat b)
      by (rewrite <- Z.mul_assoc, (Z.mul_comm k m), Hmk; lia).
    by rewrite Z.div_add_l by lia. }
  pose proof (Hsplit (2 ^ 4) 16 eq_refl eq_refl eq_refl) as H20.
  pose proof (Hsplit (2 ^ 6) 4 eq_refl eq_refl eq_refl) as H22. clear Hsplit.
  rewrite !Z.shiftr_div_pow2 by lia. change (2 ^ 20) with (2 ^ 16 * 2 ^ 4). change (2 ^ 22) with (2 ^ 16 * 2 ^ 6).
  rewrite H24, H16, H20, H22. clear H24 H16 H20 H22. apply bool_eq_iff.
  rewrite !orb_true_iff, !andb_true_iff, !Nat.eqb_eq, !Nat.leb_le, !Z.eqb_eq.
  change (Z.lor (Z.shiftl 172 4) 1) with 2753. change (Z.lor (Z.shiftl 192 8) 168) with 49320.
  change (Z.lor (Z.shiftl 169 8) 254) with 43518. change (Z.lor (Z.shiftl 100 2) 1) with 401.
  change (2 ^ 4) with 16. change (2 ^ 6) with 64.
  Z.to_euclidean_division_equations. lia.
Qed.

Lemma is_blocked_ip_dotted a b c d :
  (a < 256)%nat -> (b < 256)%nat -> (c < 256)%nat -> (d < 256)%nat ->
  is_blocked_ip (dotted a b c d) = internal a b.
Proof.
  intros Ha Hb Hc Hd. unfold is_blocked_ip. rewrite octets_dotted by done.
  assert (Hcol : existsb (Ascii.eqb colon) (dotted a b c d) = false).
  { apply not_true_iff_false. rewrite existsb_elem. intros (x & Hx & He).
    apply Ascii.eqb_eq in He. subst x.
    assert (Hn : forall n, (n < 256)%nat -> colon ∉ bytes_of (show_nat n)).
    { intros n Hn Hin. assert (Hf := octet_free n (fun b => negb (Ascii.eqb b colon)) Hn
        (fun b Hb => digit_not b colon Hb eq_refl)). rewrite forallb_elem in Hf. by specialize (Hf colon Hin). }
    unfold dotted in Hx.
    repeat (apply elem_of_app in Hx as [Hx|Hx]; [by apply (Hn _) in Hx|];
            apply elem_of_cons in Hx as [Hx|Hx]; [by vm_compute in Hx|]).
    by apply (Hn d) in Hx. }
  rewrite Hcol. by apply ipv4_blocked_internal.
Qed.

(** A URL in its parts: [scheme://user@host:port/rest], the user and the port
    being optional. *)
Definition url_of (scheme : list byte) (user : option (list byte)) (host : list byte) (port : option (list byte))
    (rest : list byte) : string :=
  string_of (scheme ++ bytes_of "://" ++
             match user with Some u => u ++ [at_sign] | None => [] end ++ host ++
             match port with Some p => colon :: p | None => [] end ++ rest).

(** Free of the bytes of a set. *)
Abbreviation free_of f l := (forallb (fun b : byte => negb (f b)) l = true).

Definition separates (b : byte) : bool :=
  (ends_authority b || Ascii.eqb b at_sign || Ascii.eqb b colon)%bool.

Record well_formed_url (scheme : list byte) (user : option (list byte)) (host : list byte)
    (port : option (list byte)) (rest : list byte) : Prop := {
  wf_scheme : free_of (fun b => Ascii.eqb b colon) scheme;
  wf_user u : user = Some u -> free_of ends_authority u;
  wf_host : free_of separates host;
  wf_host_bracket : head host <> Some open_bracket;
  wf_port p : port = Some p -> free_of separates p;
  wf_rest : match rest with b :: _ => ends_authority b = true | [] => True end
}.

Lemma free_of_weaken (f g : byte -> bool) l : (forall b, f b = true -> g b = true) -> free_of g l -> free_of f l.
Proof.
  intros Hfg. rewrite !forallb_elem. intros H b Hb. specialize (H b Hb). rewrite negb_true_iff in *.
  destruct (f b) eqn:E; [|done]. rewrite (Hfg b E) in H. done.
Qed.

Lemma after_scheme scheme r :
  free_of (fun b => Ascii.eqb b colon) scheme -> after_first (bytes_of "://") (scheme ++ bytes_of "://" ++ r) = Some r.
Proof.
  induction scheme as [|b l IH]; intros H.
  - simpl. by destruct r.
  - simpl in H. apply andb_true_iff in H as [Hb Hl]. apply negb_true_iff in Hb.
    cbn [app after_first]. cbn [bytes_of strip]. change (ascii 58) with colon in *.
    rewrite (Ascii.eqb_sym _ b). change (Ascii.Ascii false true false true true true false false) with colon.
    rewrite Hb. apply IH, Hl.
Qed.

Lemma take_until_all f l rest :
  free_of f l -> match rest with b :: _ => f b = true | [] => True end -> take_until f (l ++ rest) = l.
Proof.
  intros Hl Hr. rewrite take_until_app by done. destruct rest as [|b r]; simpl; [by rewrite app_nil_r|].
  by rewrite Hr, app_nil_r.
Qed.

(** The parser finds the host of a well-formed URL. *)
Lemma extract_host_correct scheme user host port rest :
  well_formed_url scheme user host port rest ->
  extract_host (url_of scheme user host port rest) = host.
Proof.
  intros [Hs Hu Hh Hb Hp Hr]. unfold extract_host, url_of.
  rewrite String.list_ascii_of_string_of_list_ascii, after_scheme by done. cbn [default from_option id].
  set (user_part := match user with Some u => u ++ [at_sign] | None => [] end).
  set (port_part := match port with Some p => colon :: p | None => [] end).
  assert (Hfree : forall l f, (forall b, f b = true -> separates b = true) -> free_of separates l -> free_of f l)
    by (intros l f Hf; by apply free_of_weaken).
  assert (Hends : forall b, ends_authority b = true -> separates b = true)
    by (intros b Hx; unfold separates; by rewrite Hx).
  assert (Hat : forall b, Ascii.eqb b at_sign = true -> separates b = true)
    by (intros b Hx; unfold separates; by rewrite Hx, orb_true_r).
  assert (Hcol : forall b, Ascii.eqb b colon = true -> separates b = true)
    by (intros b Hx; unfold separates; by rewrite Hx, orb_true_r).
  assert (Huser : free_of ends_authority user_part).
  { unfold user_part. destruct user as [u|]; [|done]. rewrite forallb_app, (Hu u eq_refl). reflexivity. }
  assert (Hport : free_of ends_authority port_part /\ free_of (fun b => Ascii.eqb b at_sign) port_part).
  { unfold port_part. destruct port as [p|]; [|done]. specialize (Hp p eq_refl). simpl.
    split; (apply Hfree; [done|exact Hp]). }
  assert (Htake : take_until ends_authority (user_part ++ host ++ port_part ++ rest) = user_part ++ host ++ port_part).
  { rewrite !app_assoc. apply take_until_all; [|done]. rewrite !forallb_app, Huser, (proj1 Hport).
    by rewrite (Hfree host ends_authority Hends Hh). }
  rewrite Htake.
  assert (Hlast : after_last at_sign (user_part ++ host ++ port_part) = host ++ port_part).
  { assert (Hhp : free_of (fun b => Ascii.eqb b at_sign) (host ++ port_part))
      by (rewrite forallb_app, (proj2 Hport), (Hfree host _ Hat Hh); done).
    unfold user_part. destruct user as [u|]; [|by apply after_last_free].
    rewrite <- app_assoc. simpl. rewrite after_last_app. by apply after_last_free. }
  rewrite Hlast. unfold strip_port, port_part.
  assert (Hhead : forall x l, host ++ x = open_bracket :: l -> host = [] ).
  { intros x l. destruct host as [|b host']; [done|]. intros [= -> _]. by destruct Hb. }
  destruct port as [p|].
  - destruct (host ++ colon :: p) as [|b l] eqn:E; [by destruct host|].
    destruct (Ascii.eqb_spec b open_bracket) as [->|_].
    + pose proof (Hhead _ _ E) as ->. discriminate E.
    + rewrite <- E, before_last_app; [done|]. apply (Hfree p); [done|by apply Hp].
  - rewrite app_nil_r. destruct host as [|b l] eqn:E; [done|].
    destruct (Ascii.eqb_spec b open_bracket) as [->|_]; [by destruct Hb|].
    rewrite before_last_free; [done|]. by apply (Hfree (b :: l)).
Qed.

(** An address is no host name. *)
Lemma lower_of_digit b l : is_digit b = true -> exists r, to_lowercase (string_of (b :: l)) = String.String b r.
Proof. destruct b as [[] [] [] [] [] [] [] []]; intros H; try discriminate H; eexists; reflexivity. Qed.

Lemma dotted_head a b c d : (a < 256)%nat -> exists x l, dotted a b c d = x :: l /\ is_digit x = true.
Proof.
  intros Ha. pose proof (octet_ok a Ha) as H. unfold octet_text in H. rewrite !andb_true_iff in H.
  destruct H as [[_ H] Hne]. unfold dotted. destruct (bytes_of (show_nat a)) as [|x l] eqn:E.
  - destruct (show_nat a); [done|discriminate E].
  - exists x. eexists. split; [reflexivity|]. simpl in H. rewrite !andb_true_iff in H. tauto.
Qed.

(** Claim C31. A URL whose host is an IPv4 address in decimal is refused exactly
    when the address is loopback, private (RFC 1918), link-local or shared
    (RFC 6598), whatever the scheme, the user information before it, the port
    and the path behind it. *)
Theorem internal_address_refused (scheme : list byte) (user port : option (list byte)) (rest : list byte)
    (a b c d : nat) :
  (a < 256)%nat -> (b < 256)%nat -> (c < 256)%nat -> (d < 256)%nat ->
  well_formed_url scheme user (dotted a b c d) port rest ->
  is_ok (check_ssrf_url (url_of scheme user (dotted a b c d) port rest)) = negb (internal a b).
Proof.
  intros Ha Hb Hc Hd Hwf. unfold check_ssrf_url. rewrite extract_host_correct by done.
  rewrite is_blocked_ip_dotted by done.
  destruct (dotted_head a b c d Ha) as (x & l & Hx & Hdig).
  destruct (lower_of_digit x l Hdig) as [r Hr]. rewrite Hx, Hr.
  assert (Hname : existsb (String.eqb (String.String x r)) BLOCKED_HOSTNAMES = false).
  { simpl. destruct (Ascii.eqb_spec x (ascii 109)) as [->|Hne]; [discriminate Hdig|].
    assert (Hf : Ascii.eqb x (Ascii.Ascii true false true true false true true false) = false)
      by (by apply Ascii.eqb_neq). by rewrite Hf. }
  rewrite Hname. by destruct (internal a b).
Qed.

(** ** Credentials *)

Lemma elem_of_memchr i needle l pos :
  i ∈ memchr_iter needle l pos <-> exists j, i = (pos + j)%nat /\ l !! j = Some needle.
Proof.
  revert pos. induction l as [|b l IH]; intros pos; simpl.
  - split; [by intros ?%elem_of_nil|by intros (j & _ & ?)].
  - assert (Hstep : (exists j, i = (pos + j)%nat /\ (b :: l) !! j = Some needle) <->
                    (b = needle /\ i = pos) \/ exists j, i = (S pos + j)%nat /\ l !! j = Some needle).
    { split.
      - intros ([|j] & -> & Hj); [left; simpl in Hj; split; [congruence|lia]|right; exists j; split; [lia|done]].
      - intros [[-> ->]|(j & -> & Hj)]; [exists 0%nat; split; [lia|done]|exists (S j); split; [lia|done]]. }
    rewrite Hstep, <- IH. destruct (Ascii.eqb_spec b needle) as [->|Hne]; [rewrite elem_of_cons; naive_solver|].
    naive_solver.
Qed.

Lemma token_at_spec bytes prefix kind least i :
  (0 < least)%nat ->
  token_at bytes prefix kind least i = true <->
  exists a k b, bytes = a ++ (bytes_of prefix ++ k) ++ b /\ length a = i /\ length k = least /\ forallb kind k = true.
Proof.
  intros Hl. unfold token_at, byte in *. rewrite !andb_true_iff, Nat.ltb_lt, bool_decide_eq_true, Nat.leb_le.
  set (p := bytes_of prefix). split.
  - intros [[Hlen Hp] Hc]. apply count_while_spec in Hc as (k & b & Hk & Hkl & Hkind).
    exists (take i bytes), k, b. split_and!; [|rewrite length_take; lia|done|done].
    assert (Hd : drop i bytes = p ++ (k ++ b)).
    { rewrite <- (take_drop (length p) (drop i bytes)), Hp, drop_drop. by f_equal. }
    rewrite <- (take_drop i bytes) at 1. rewrite Hd. by rewrite <- app_assoc.
  - intros (a & k & b & -> & Ha & Hk & Hkind). subst i.
    assert (Hd : drop (length a) (a ++ (p ++ k) ++ b) = p ++ k ++ b) by (rewrite drop_app_length, <- app_assoc; done).
    rewrite Hd, take_app_length. split_and!; [rewrite !length_app; lia|done|].
    rewrite <- drop_drop, Hd, drop_app_length. apply count_while_spec. by exists k, b.
Qed.

(** The search by first byte loses nothing. *)
Lemma has_token_spec bytes first prefix kind least :
  (0 < least)%nat -> head (bytes_of prefix) = Some first ->
  has_token bytes first prefix kind least = true <->
  exists a k b, bytes = a ++ (bytes_of prefix ++ k) ++ b /\ length k = least /\ forallb kind k = true.
Proof.
  intros Hl Hh. unfold has_token. rewrite existsb_elem. split.
  - intros (i & _ & (a & k & b & ? & _ & ? & ?)%token_at_spec); [by exists a, k, b|done].
  - intros (a & k & b & Hb & Hk & Hkind). exists (length a). split; [|apply token_at_spec; [done|by exists a, k, b]].
    apply elem_of_memchr. exists (length a). split; [done|]. rewrite Hb.
    destruct (bytes_of prefix) as [|x p]; [done|]. injection Hh as ->. by apply list_lookup_middle.
Qed.

(** What counts as a credential. *)
Inductive credential : list byte -> Prop :=
| openai k : length k = 20%nat -> forallb is_alphanumeric k = true -> credential (bytes_of "sk-" ++ k)
| github k : length k = 36%nat -> forallb is_alphanumeric k = true -> credential (bytes_of "ghp_" ++ k)
| aws k : length k = 16%nat -> forallb upper_or_digit k = true -> credential (bytes_of "AKIA" ++ k)
| slack p k : p ∈ slack_prefixes -> length k = 10%nat -> forallb alnum_dash k = true -> credential (bytes_of p ++ k)
| bearer k : length k = 20%nat -> forallb bearer_byte k = true -> credential (bytes_of "Bearer " ++ k).

Lemma slack_search bytes :
  existsb (fun i => existsb (fun p => token_at bytes p alnum_dash 10 i) slack_prefixes)
          (memchr_iter (ascii 120) bytes 0) = true <->
  exists p a k b, p ∈ slack_prefixes /\ bytes = a ++ (bytes_of p ++ k) ++ b /\ length k = 10%nat /\
                  forallb alnum_dash k = true.
Proof.
  assert (Hx : forall p, p ∈ slack_prefixes -> head (bytes_of p) = Some (ascii 120)).
  { intros p. unfold slack_prefixes. rewrite list_elem_of_In. intros Hp. repeat (destruct Hp as [<-|Hp]; [done|]). done. }
  assert (Hone : forall p, p ∈ slack_prefixes ->
            has_token bytes (ascii 120) p alnum_dash 10 = true <->
            exists a k b, bytes = a ++ (bytes_of p ++ k) ++ b /\ length k = 10%nat /\ forallb alnum_dash k = true)
    by (intros p Hp; apply has_token_spec; [lia|by apply Hx]).
  rewrite existsb_elem. split.
  - intros (i & Hi & He). rewrite existsb_elem in He. destruct He as (p & Hp & Ht).
    exists p. assert (Hh : has_token bytes (ascii 120) p alnum_dash 10 = true)
      by (unfold has_token; rewrite existsb_elem; eauto).
    apply (Hone p Hp) in Hh as (a & k & b & ?). exists a, k, b. tauto.
  - intros (p & a & k & b & Hp & H). assert (Hh := proj2 (Hone p Hp) (ex_intro _ a (ex_intro _ k (ex_intro _ b H)))).
    unfold has_token in Hh. rewrite existsb_elem in Hh. destruct Hh as (i & Hi & Ht).
    exists i. split; [done|]. rewrite existsb_elem. eauto.
Qed.

(** The credential scan is exact: it reports a text exactly when a
    credential of one of its five kinds stands somewhere in it, wherever that
    is and whatever surrounds it, several candidates and overlaps included. *)
Theorem contains_credential_exact (content : string) :
  contains_credential content = true <->
  exists before token after, bytes_of content = before ++ token ++ after /\ credential token.
Proof.
  unfold contains_credential. rewrite !orb_true_iff, slack_search.
  rewrite !has_token_spec by (reflexivity || lia). split.
  - intros [[[[H|H]|H]|H]|H]; [| | |destruct H as (p & a & k & b & Hp & -> & ? & ?)|];
      try (destruct H as (a & k & b & -> & ? & ?)); eexists a, _, b; (split; [reflexivity|]);
      [by apply openai|by apply github|by apply aws|by apply slack|by apply bearer].
  - intros (a & t & b & Hb & Hc). destruct Hc as [k|k|k|p k|k]; naive_solver.
Qed.

(** Memory takes a text exactly when it holds no credential, no invisible
    character and none of the phrases, in any case. *)
Lemma validate_memory_content_decides content :
  is_ok (validate_memory_content content) = true <->
  contains_credential content = false /\
  (forall c, c ∈ INVISIBLE_CHARS -> str_contains content (string_of (utf8 (c.1))) = false) /\
  (forall p, p ∈ PROMPT_INJECTION_PATTERNS -> str_contains (to_lowercase content) p = false).
Proof.
  assert (Hfind : forall {A} (f : A -> bool) l, List.find f l = None <-> forall x, x ∈ l -> f x = false).
  { intros A f l. split; [intros H x Hx; apply (find_none _ _ H), list_elem_of_In, Hx|].
    intros H. destruct (List.find f l) eqn:E; [|done]. apply find_some in E as [Hin%list_elem_of_In Hf].
    rewrite (H _ Hin) in Hf. done. }
  unfold validate_memory_content. rewrite <- !Hfind.
  destruct (contains_credential content); [split; [done|by intros [? _]]|].
  destruct (List.find _ INVISIBLE_CHARS); [split; [done|by intros [_ [? _]]]|].
  destruct (List.find _ PROMPT_INJECTION_PATTERNS); [split; [done|by intros [_ [_ ?]]]|]. by split.
Qed.

(** ** Witness *)

Lemma internal_address_refused_witness :
  is_ok (check_ssrf_url (url_of (bytes_of "http") (Some (bytes_of "me")) (dotted 169 254 169 254)
           (Some (bytes_of "80")) (bytes_of "/latest/meta-data"))) = negb (internal 169 254).
Proof.
  apply (internal_address_refused (bytes_of "http") (Some (bytes_of "me")) (Some (bytes_of "80"))
           (bytes_of "/latest/meta-data") 169 254 169 254); [lia..|].
  split; [reflexivity|by intros u [= <-]|vm_compute; reflexivity|vm_compute; discriminate|by intros p [= <-]|reflexivity].
Defined.
