(* ===== verification/SessionStore.v ===== *)
(** * SessionStore: sessions on disk and in the registry

    The rolling summary of a session ([engine/session_memory.rs]), the snapshots
    and their index ([engine/session_persistence.rs]), and the registry that
    creates, shares, switches and closes sessions
    ([engine/shared_session.rs], with [handle_client] and [lc_session_close] of
    [main.rs]).  Snapshots and index are files of one directory; a file is what
    its text reads as, and a write fails when the environment says so.  Messages
    are opaque here. *)

From stdpp Require Import base gmap strings list sorting.
From Stdlib Require Import ZArith Lia.
From S2P Require Import Prelude Text Security SharedSession.

#[local] Open Scope Z_scope.

(** [chrono::DateTime::parse_from_rfc3339(s).is_ok()]. *)
Class Timestamps := { is_rfc3339 : string -> bool }.

(** ** The summary of a session ([session_memory.rs]) *)

Module Memory.
Definition FIRST_UPDATE_THRESHOLD : Z := 6.
Definition UPDATE_INTERVAL : Z := 10.
Definition MAX_SUMMARY_CHARS : nat := Z.to_nat 8000.

Record SessionMemory := mkMemory { content : string; last_update_count : Z }.

Definition empty : SessionMemory := mkMemory "" 0.

Definition is_blank (s : string) : bool := is_empty (trim s).

Definition is_available (m : SessionMemory) : bool :=
  (negb (is_blank (content m)) && Nat.ltb 20 (str_len (trim (content m))))%bool.

(** The baseline follows a history that has shrunk. *)
Definition should_update (count : Z) (m : SessionMemory) : bool * SessionMemory :=
  if (is_blank (content m) || Nat.leb (str_len (trim (content m))) 20)%bool
  then (Z.leb FIRST_UPDATE_THRESHOLD count, m)
  else
    let last := if Z.ltb count (last_update_count m) then count else last_update_count m in
    (Z.leb (add64 last UPDATE_INTERVAL) count, mkMemory (content m) last).

(** Cut at 8000 characters when it is longer than 8000 bytes. *)
Definition truncated (summary : string) : string :=
  if Nat.ltb MAX_SUMMARY_CHARS (str_len summary) then
    truncate_chars MAX_SUMMARY_CHARS summary +:+ "..." +:+ string_of [LF; LF] +:+
    "[Summary truncated at " +:+ show_nat (str_len summary) +:+ " chars]"
  else summary.

Definition update (summary : string) (m : SessionMemory) : SessionMemory :=
  if is_ok (validate_memory_content summary) then mkMemory (truncated summary) (last_update_count m) else m.

Definition set_message_count (n : Z) (m : SessionMemory) : SessionMemory := mkMemory (content m) n.

Definition messages_since_update (n : Z) (m : SessionMemory) : option Z :=
  if (Z.eqb (last_update_count m) 0 || Z.ltb n (last_update_count m))%bool then None
  else Some (n - last_update_count m).

Definition clear (m : SessionMemory) : SessionMemory := mkMemory "" (last_update_count m).

End Memory.

(** ** Snapshots and their index ([session_persistence.rs]) *)

Module Disk.
Section Disk.
Context {Msg : Type}.

Definition CURRENT_SCHEMA_VERSION : Z := 1.

Definition is_valid_session_id (id : string) : bool :=
  (negb (is_empty id) && Nat.leb (str_len id) 128 &&
   forallb (fun b => is_alphanumeric b || Ascii.eqb b (ascii 45) || Ascii.eqb b (ascii 95)) (bytes_of id))%bool.

Record RegistryEntry := mkEntry {
  entry_id : string; entry_cwd : string; entry_created : string; entry_active : string
}.

Record PersistedSession := mkPersisted {
  schema_version : Z;
  session_id : string;
  cwd : string;
  model : string;
  created_at : string;
  last_active : string;
  messages : list Msg;
  memory_summary : option string
}.

(** A file: what its text reads as, as a snapshot and as an index, if it does. *)
Record File := mkFile { as_snapshot : option PersistedSession; as_index : option (list RegistryEntry) }.

Definition corrupt : File := mkFile None None.
(** What is written: the text of a snapshot is no index, and the other way
    round, since each lacks fields the other requires. *)
Definition snapshot_file (p : PersistedSession) : File := mkFile (Some p) None.
Definition index_file (l : list RegistryEntry) : File := mkFile None (Some l).

(** The [.json] files of the directory, by their stems: the snapshot of a
    session is under its id, and the index is [registry.json] among them. *)
Record Storage := mkStorage { files : gmap string File }.

Definition REGISTRY : string := "registry".

Definition empty : Storage := mkStorage ∅.
Definition put (name : string) (f : File) (d : Storage) : Storage := mkStorage (<[name := f]> (files d)).
Definition remove (name : string) (d : Storage) : Storage := mkStorage (delete name (files d)).

Definition entry_of (p : PersistedSession) : RegistryEntry :=
  mkEntry (session_id p) (cwd p) (created_at p) (last_active p).

(** The snapshots whose name and version are right; the index is passed over. *)
Definition indexable (f : string * File) : option RegistryEntry :=
  if String.eqb (f.1) REGISTRY then None
  else
    p ← as_snapshot (f.2);
    if (String.eqb (session_id p) (f.1) && Z.eqb (schema_version p) CURRENT_SCHEMA_VERSION &&
        is_valid_session_id (session_id p))%bool
    then Some (entry_of p) else None.

Definition entry_le (a b : RegistryEntry) : bool := str_leb (entry_id a) (entry_id b).

Definition rebuild_registry (d : Storage) : list RegistryEntry :=
  sort_by entry_le (omap indexable (map_to_list (files d))).

(** A corrupt index is moved away and rebuilt; [renamed]: the move succeeds. *)
Definition load_registry (renamed : bool) (d : Storage) : list RegistryEntry * Storage :=
  match files d !! REGISTRY with
  | None => ([], d)
  | Some f =>
      match as_index f with
      | Some l => (retain (fun e => is_valid_session_id (entry_id e)) l, d)
      | None => let l := rebuild_registry d in (l, if renamed then put REGISTRY (index_file l) d else d)
      end
  end.

Definition save_registry (l : list RegistryEntry) (d : Storage) : Storage := put REGISTRY (index_file l) d.

Definition has_id (id : string) (e : RegistryEntry) : bool := String.eqb (entry_id e) id.

(** The entry keeps its creation time. *)
Fixpoint upsert (id c created active : string) (l : list RegistryEntry) : list RegistryEntry :=
  match l with
  | [] => [mkEntry id c created active]
  | e :: l' => if has_id id e then mkEntry (entry_id e) c (entry_created e) active :: l'
               else e :: upsert id c created active l'
  end.

Definition upsert_registry_entry (renamed : bool) (id c created active : string) (d : Storage) : Storage :=
  let '(l, d) := load_registry renamed d in save_registry (upsert id c created active l) d.

(** [write]: whether the snapshot can be written; [None] is an error. *)
Definition persist_session_state (write renamed : bool) (p : PersistedSession) (d : Storage) : option Storage :=
  if (is_valid_session_id (session_id p) && write)%bool then
    let d := put (session_id p) (snapshot_file p) d in
    Some (upsert_registry_entry renamed (session_id p) (cwd p) (created_at p) (last_active p) d)
  else None.

Definition load_session_state (id : string) (d : Storage) : option PersistedSession :=
  if is_valid_session_id id then
    f ← files d !! id; p ← as_snapshot f;
    if String.eqb (session_id p) id then Some p else None
  else None.

Definition delete_session (renamed : bool) (id : string) (d : Storage) : option Storage :=
  if is_valid_session_id id then
    let d := remove id d in
    let '(l, d) := load_registry renamed d in
    Some (save_registry (retain (fun e => negb (has_id id e)) l) d)
  else None.

(** ** What survives *)



(** The index lists a session once, whatever order things are written in. *)
Lemma upsert_ids id c created active l :
  (entry_id <$> upsert id c created active l) =
  if existsb (has_id id) l then entry_id <$> l else (entry_id <$> l) ++ [id].
Proof.
  induction l as [|e l IH]; [done|]. simpl. destruct (has_id id e) eqn:E; csimpl; [done|].
  rewrite IH. by destruct (existsb (has_id id) l).
Qed.

Lemma upsert_NoDup id c created active l :
  NoDup (entry_id <$> l) -> NoDup (entry_id <$> upsert id c created active l).
Proof.
  intros Hnd. rewrite upsert_ids. destruct (existsb (has_id id) l) eqn:E; [done|].
  apply NoDup_app. split; [done|]. split; [|apply NoDup_singleton].
  intros x (e & -> & He)%list_elem_of_fmap Hx%list_elem_of_singleton.
  apply not_true_iff_false in E. apply E, existsb_elem. exists e. split; [done|]. by apply String.eqb_eq.
Qed.

(** A session keeps the creation time under which it was first indexed. *)
Lemma upsert_created id c created active l e :
  NoDup (entry_id <$> l) -> e ∈ l -> entry_id e = id ->
  mkEntry id c (entry_created e) active ∈ upsert id c created active l.
Proof.
  induction l as [|x l IH]; [by intros _ ?%elem_of_nil|]. simpl. intros [Hx Hnd]%NoDup_cons Hin Hid. subst id.
  unfold has_id. destruct (String.eqb_spec (entry_id x) (entry_id e)) as [He|Hne].
  - apply elem_of_cons in Hin as [->|Hin]; [by left|]. exfalso. apply Hx, list_elem_of_fmap. by exists e.
  - apply elem_of_cons in Hin as [->|Hin]; [done|]. right. by apply IH.
Qed.

Lemma NoDup_omap_fst (l : list (string * File)) :
  NoDup (l.*1) -> NoDup (entry_id <$> omap indexable l).
Proof.
  assert (Hid : forall f e, indexable f = Some e -> entry_id e = f.1).
  { intros [n [[p|] i]] e; unfold indexable; simpl; destruct (String.eqb n REGISTRY); try done. simpl.
    destruct (String.eqb_spec (session_id p) n); [|done]. simpl. destruct (_ && _)%bool; [|done]. by intros [= <-]. }
  induction l as [|f l IH]; [done|]. csimpl. intros [Hf Hnd]%NoDup_cons.
  destruct (indexable f) as [e|] eqn:E; csimpl; [|by apply IH].
  apply NoDup_cons. split; [|by apply IH]. intros (e' & He & (f' & Hf' & Hi)%list_elem_of_omap)%list_elem_of_fmap.
  apply Hf, list_elem_of_fmap. exists f'. split; [|done]. by rewrite <- (Hid f' e' Hi), <- He, (Hid f e E).
Qed.

Lemma rebuild_NoDup d : NoDup (entry_id <$> rebuild_registry d).
Proof.
  unfold rebuild_registry. rewrite sort_by_perm. apply NoDup_omap_fst, NoDup_fst_map_to_list.
Qed.
End Disk.
End Disk.

(** ** Snapshots of a session in memory ([shared_session.rs]) *)

Module Registry.
Import Memory Disk.
Section Registry.
Context {Msg : Type} `{Timestamps}.

(** What the registry reads and writes of an engine. *)
Record Engine := mkEngine {
  engine_cwd : string;
  engine_model : string;
  engine_messages : list Msg;
  session_memory : option SessionMemory
}.

Definition set_messages (l : list Msg) (e : Engine) : Engine :=
  mkEngine (engine_cwd e) (engine_model e) l (session_memory e).

(** [QueryEngine::seed_session_memory]. *)
Definition seed_session_memory (summary : string) (e : Engine) : Engine :=
  match session_memory e with
  | Some m => if is_empty summary then e
              else mkEngine (engine_cwd e) (engine_model e) (engine_messages e) (Some (update summary m))
  | None => e
  end.


Definition memory_empty (e : Engine) : bool :=
  match session_memory e with Some m => is_blank (content m) | None => true end.

(** [restore_persisted_state]. *)
Definition restore_persisted_state (id : string) (p : PersistedSession) (e : Engine) : Engine * bool :=
  if (negb (Z.eqb (schema_version p) CURRENT_SCHEMA_VERSION) || negb (String.eqb (session_id p) id) ||
      negb (is_rfc3339 (created_at p)) || negb (is_rfc3339 (last_active p)))%bool then (e, false)
  else if negb (String.eqb (cwd p) (engine_cwd e)) then (e, false)
  else
    let has_messages := negb (Nat.eqb (length (messages p)) 0) in
    let summary := match memory_summary p with
                   | Some s => if is_blank s then None else Some s | None => None end in
    let e := if has_messages then set_messages (messages p) e else e in
    let e := match summary with
             | Some s => if memory_empty e then seed_session_memory s e else e
             | None => e
             end in
    (e, (has_messages || is_some summary)%bool).

(** The state [persist_session] writes; the creation time is the index's. *)
Definition snapshot (id now : string) (l : list RegistryEntry) (e : Engine) : PersistedSession :=
  let created := match List.find (has_id id) l with Some x => entry_created x | None => now end in
  mkPersisted CURRENT_SCHEMA_VERSION id (engine_cwd e) (engine_model e) created now (engine_messages e)
              (content <$> session_memory e).

Definition persist_engine (write renamed : bool) (id now : string) (e : Engine) (d : Storage (Msg := Msg)) :
    option (Storage (Msg := Msg)) :=
  let '(l, d) := load_registry renamed d in
  persist_session_state write renamed (snapshot id now l e) d.

(** What a new engine becomes when its session is opened. *)
Definition opened (id : string) (d : Storage (Msg := Msg)) (fresh : Engine) : Engine * bool :=
  match load_session_state id d with
  | Some p => restore_persisted_state id p fresh
  | None => (fresh, false)
  end.





(** ** The registry and its connections *)

Section System.
Context (renamed : bool).  (* a corrupt index can be moved away *)

(** A session in memory; its place in [objects] is its address. *)
Record SessionObject := mkObject { obj_id : string; obj_engine : Engine; obj_shared : SharedSession }.

(** A connection, by how far it has got. *)
Inductive Conn :=
| Connecting (o : nat)                  (* has its session, not yet [add_client] *)
| Attached (o : nat) (c : ClientId)
| LastLeft (o : nat)                    (* was the last client; about to clean up *)
| Cleaning (o : nat).                   (* holds the lifecycle lock *)

Record System := mkSystem {
  sessions : gmap string nat;
  objects : list SessionObject;
  storage : Storage (Msg := Msg);
  lifecycle : option nat;
  conns : gmap nat Conn
}.

Definition with_sessions (m : gmap string nat) (y : System) : System :=
  mkSystem m (objects y) (storage y) (lifecycle y) (conns y).
Definition with_storage (d : Storage) (y : System) : System :=
  mkSystem (sessions y) (objects y) d (lifecycle y) (conns y).
Definition with_conns (m : gmap nat Conn) (y : System) : System :=
  mkSystem (sessions y) (objects y) (storage y) (lifecycle y) m.
Definition with_lifecycle (l : option nat) (y : System) : System :=
  mkSystem (sessions y) (objects y) (storage y) l (conns y).
Definition set_shared (s : SharedSession) (x : SessionObject) : SessionObject :=
  mkObject (obj_id x) (obj_engine x) s.
Definition with_shared (o : nat) (s : SharedSession) (y : System) : System :=
  mkSystem (sessions y) (alter (set_shared s) o (objects y)) (storage y) (lifecycle y) (conns y).

Definition shared_of (o : nat) (y : System) : SharedSession :=
  match objects y !! o with Some x => obj_shared x | None => SharedSession.new end.
Definition id_of (o : nat) (y : System) : string :=
  match objects y !! o with Some x => obj_id x | None => "" end.

(** [get_or_create_unlocked]: the session and whether it is new. *)
Definition get_or_create (id : string) (fresh : Engine) (y : System) : nat * bool * System :=
  match sessions y !! id with
  | Some o => (o, false, y)
  | None =>
      let d := (load_registry renamed (storage y)).2 in
      let e := (opened id d fresh).1 in
      let o := length (objects y) in
      (o, true, mkSystem (<[id := o]> (sessions y)) (objects y ++ [mkObject id e SharedSession.new]) d
                         (lifecycle y) (conns y))
  end.

(** [persist_session]: by name, whatever session the name stands for now. *)
Definition persist_session (id now : string) (write : bool) (y : System) : option System :=
  o ← sessions y !! id; x ← objects y !! o;
  d ← persist_engine write renamed id now (obj_engine x) (storage y);
  Some (with_storage d y).

Inductive SwitchError := AlreadyActive | Busy | NotRegistered | CwdMismatch | NotPersisted | NotAttached.

Definition undo_create (is_new : bool) (id : string) (y : System) : System :=
  if is_new then with_sessions (delete id (sessions y)) y else y.

(** [switch_client], under the lifecycle lock throughout. *)
Definition switch_client (o : nat) (c : ClientId) (target target_cwd now : string) (fresh : Engine) (write : bool)
    (y : System) : result (nat * ClientId) SwitchError * System :=
  let current := id_of o y in
  if String.eqb current target then (Err AlreadyActive, y)
  else if has_active_submitter (shared_of o y) then (Err Busy, y)
  else if negb (bool_decide (sessions y !! current = Some o)) then (Err NotRegistered, y)
  else
    let '(t, is_new, y) := get_or_create target fresh y in
    if negb (bool_decide (engine_cwd <$> (obj_engine <$> objects y !! t) = Some target_cwd))
    then (Err CwdMismatch, undo_create is_new target y)
    else match persist_session current now write y with
    | None => (Err NotPersisted, undo_create is_new target y)
    | Some y =>
        match detach_client c (shared_of o y) with
        | (None, _) => (Err NotAttached, undo_create is_new target y)
        | (Some last, s) =>
            let y := with_shared o s y in
            let y := if last then with_sessions (delete current (sessions y)) y else y in
            let '(c', s') := add_client (shared_of t y) in
            (Ok (t, c'), with_shared t s' y)
        end
    end.

Inductive SysStep :=
| Connect (k : nat) (id : string) (fresh : Engine)
| Attach (k : nat)
| Switch (k : nat) (target target_cwd now : string) (fresh : Engine) (write : bool)
| Close (k : nat)
| CleanupBegin (k : nat)
| CleanupEnd (k : nat) (now : string) (write : bool)
| InSession (o : nat) (l : SharedSession.Step)
| PersistTurn (o : nat) (now : string) (write : bool).

Definition unlocked (y : System) : bool := negb (is_some (lifecycle y)).

Definition sys_step (l : SysStep) (y : System) : option System :=
  match l with
  | Connect k id fresh =>
      match conns y !! k with
      | None => if unlocked y then
                  let '(o, _, y) := get_or_create id fresh y in
                  Some (with_conns (<[k := Connecting o]> (conns y)) y)
                else None
      | Some _ => None
      end
  | Attach k =>
      match conns y !! k with
      | Some (Connecting o) =>
          let '(c, s) := add_client (shared_of o y) in
          Some (with_conns (<[k := Attached o c]> (conns y)) (with_shared o s y))
      | _ => None
      end
  | Switch k target target_cwd now fresh write =>
      match conns y !! k with
      | Some (Attached o c) =>
          if unlocked y then
            match switch_client o c target target_cwd now fresh write y with
            | (Ok (t, c'), y') => Some (with_conns (<[k := Attached t c']> (conns y')) y')
            | (Err _, y') => Some y'
            end
          else None
      | _ => None
      end
  | Close k =>
      match conns y !! k with
      | Some (Attached o c) =>
          if is_active_submitter c (shared_of o y) then None
          else let '(last, s) := remove_client c (shared_of o y) in
               Some (with_conns (if last then <[k := LastLeft o]> (conns y) else delete k (conns y))
                                (with_shared o s y))
      | _ => None
      end
  | CleanupBegin k =>
      match conns y !! k with
      | Some (LastLeft o) =>
          if unlocked y then
            if (Nat.eqb (client_count (shared_of o y)) 0 && bool_decide (sessions y !! id_of o y = Some o))%bool
            then Some (with_lifecycle (Some k) (with_conns (<[k := Cleaning o]> (conns y)) y))
            else Some (with_conns (delete k (conns y)) y)
          else None
      | _ => None
      end
  | CleanupEnd k now write =>
      match conns y !! k with
      | Some (Cleaning o) =>
          let y := match persist_session (id_of o y) now write y with
                   | Some y => with_sessions (delete (id_of o y) (sessions y)) y
                   | None => y
                   end in
          Some (with_lifecycle None (with_conns (delete k (conns y)) y))
      | _ => None
      end
  | InSession o l =>
      match l with
      | Join | Leave _ => None
      | _ => x ← objects y !! o; s ← SharedSession.step l (obj_shared x); Some (with_shared o s y)
      end
  | PersistTurn o now write =>
      match persist_session (id_of o y) now write y with Some y => Some y | None => Some y end
  end.

Fixpoint sys_exec (ls : list SysStep) (y : System) : option System :=
  match ls with [] => Some y | l :: ls' => y' ← sys_step l y; sys_exec ls' y' end.

Definition sys_new (d : Storage) : System := mkSystem ∅ [] d None ∅.
(** ** Sessions are not split *)

Lemma sys_exec_snoc ls l y y' :
  sys_exec (ls ++ [l]) y = Some y' <-> exists y1, sys_exec ls y = Some y1 /\ sys_step l y1 = Some y'.
Proof.
  revert y. induction ls as [|l0 ls IH]; intros y; simpl.
  - split; [intros H1; exists y; by destruct (sys_step l y)|intros (y1 & [= <-] & ->); done].
  - destruct (sys_step l0 y) as [y1|]; simpl; [apply IH|]. split; [done|by intros (? & ? & ?)].
Qed.

Definition connecting_to (o : nat) (x : nat * Conn) : bool :=
  match x.2 with Connecting o' => Nat.eqb o' o | _ => false end.

(** No session is taken out of the registry while a connection that has looked
    it up has yet to become its client, or has just become it. *)
Definition unhurried (l : SysStep) (y : System) : bool :=
  match l with
  | Switch k _ _ _ _ _ | CleanupEnd k _ _ =>
      match conns y !! k with
      | Some (Attached o _) => negb (existsb (connecting_to o) (map_to_list (conns y)))
      | Some (Cleaning o) => (negb (existsb (connecting_to o) (map_to_list (conns y))) &&
                              Nat.eqb (client_count (shared_of o y)) 0)%bool
      | _ => true
      end
  | _ => true
  end.

Fixpoint all_unhurried (ls : list SysStep) (y : System) : bool :=
  match ls with
  | [] => true
  | l :: ls' => (unhurried l y && match sys_step l y with Some y' => all_unhurried ls' y' | None => true end)%bool
  end.

Lemma all_unhurried_snoc ls l y y1 :
  sys_exec ls y = Some y1 -> all_unhurried (ls ++ [l]) y = true -> all_unhurried ls y = true /\ unhurried l y1 = true.
Proof.
  revert y. induction ls as [|l0 ls IH]; intros y; simpl.
  - intros [= ->]. rewrite andb_true_iff. by intros [? _].
  - destruct (sys_step l0 y) as [y2|]; simpl; [|done]. rewrite !andb_true_iff.
    intros He [Ht Hr]. by destruct (IH y2 He Hr).
Qed.

Lemma not_connecting o y :
  existsb (connecting_to o) (map_to_list (conns y)) = false -> forall k, conns y !! k <> Some (Connecting o).
Proof.
  intros Hf k Hk. apply not_true_iff_false in Hf. apply Hf, existsb_elem. exists (k, Connecting o).
  split; [by apply elem_of_map_to_list|]. unfold connecting_to. simpl. apply Nat.eqb_refl.
Qed.

(** The session at an address is the one its name stands for. *)
Definition registered (o : nat) (y : System) : Prop :=
  exists x, objects y !! o = Some x /\ sessions y !! obj_id x = Some o.

Definition member (o : nat) (c : ClientId) (y : System) : Prop := is_Some (clients (shared_of o y) !! c).

Definition conn_ok (y : System) (k : nat) (v : Conn) : Prop :=
  match v with
  | Connecting o => registered o y
  | Attached o c => registered o y /\ member o c y
  | LastLeft _ => True
  | Cleaning o => lifecycle y = Some k /\ registered o y
  end.

Record consistent (n : Z) (y : System) : Prop := {
  co_named id o : sessions y !! id = Some o -> exists x, objects y !! o = Some x /\ obj_id x = id;
  co_conns k v : conns y !! k = Some v -> conn_ok y k v;
  co_distinct k1 k2 o c : conns y !! k1 = Some (Attached o c) -> conns y !! k2 = Some (Attached o c) -> k1 = k2;
  co_fresh o c : member o c y -> c < next_client_id (shared_of o y);
  co_bound o : 0 <= next_client_id (shared_of o y) <= n
}.

Lemma registered_id o y : registered o y -> sessions y !! id_of o y = Some o.
Proof. intros (x & Hx & Hs). unfold id_of. by rewrite Hx. Qed.

(** Two members of a system that agree on what the invariant reads. *)
Lemma shared_of_with o o' s y :
  shared_of o' (with_shared o s y) =
  if decide (o = o') then match objects y !! o with Some _ => s | None => SharedSession.new end else shared_of o' y.
Proof.
  unfold shared_of, with_shared. simpl. destruct (decide (o = o')) as [<-|Hne].
  - rewrite list_lookup_alter_eq. by destruct (objects y !! o).
  - by rewrite list_lookup_alter_ne.
Qed.

Lemma id_of_with o o' s y : id_of o' (with_shared o s y) = id_of o' y.
Proof.
  unfold id_of, with_shared. simpl. destruct (decide (o = o')) as [<-|Hne].
  - rewrite list_lookup_alter_eq. by destruct (objects y !! o).
  - by rewrite list_lookup_alter_ne.
Qed.

Lemma objects_with o o' s y x :
  objects (with_shared o s y) !! o' = Some x -> exists x0, objects y !! o' = Some x0 /\ obj_id x = obj_id x0.
Proof.
  unfold with_shared. simpl. destruct (decide (o = o')) as [<-|Hne].
  - rewrite list_lookup_alter_eq. intros (x0 & Hx & ->)%fmap_Some. by exists x0.
  - rewrite list_lookup_alter_ne by done. by exists x.
Qed.

Lemma registered_with o o' s y : registered o' (with_shared o s y) <-> registered o' y.
Proof.
  split.
  - intros (x & Hx & Hs). destruct (objects_with o o' s y x Hx) as (x0 & Hx0 & Hid).
    exists x0. split; [done|]. by rewrite <- Hid.
  - intros (x & Hx & Hs). unfold registered, with_shared. simpl. destruct (decide (o = o')) as [<-|Hne].
    + rewrite list_lookup_alter_eq, Hx. by eexists.
    + rewrite list_lookup_alter_ne by done. by exists x.
Qed.

(** Changing a session in place: no attached client may be lost. *)
Lemma consistent_shared n n' o s y :
  consistent n y -> n <= n' -> 0 <= next_client_id s <= n' -> (forall c, is_Some (clients s !! c) -> c < next_client_id s) ->
  (forall k c, conns y !! k = Some (Attached o c) -> is_Some (clients s !! c)) ->
  consistent n' (with_shared o s y).
Proof.
  intros [H1 H2 H3 H4 H5] Hn Hb Hfresh Hatt. split.
  - intros id o' Ho'. destruct (H1 id o' Ho') as (x & Hx & Hid).
    unfold with_shared. simpl. destruct (decide (o = o')) as [<-|Hne].
    + rewrite list_lookup_alter_eq, Hx. by eexists.
    + rewrite list_lookup_alter_ne by done. by exists x.
  - intros k v Hk. specialize (H2 k v Hk). destruct v as [o'|o' c|o'|o']; simpl in *; rewrite ?registered_with; try done.
    destruct H2 as [Hr Hm]. split; [done|].
    unfold member in *. rewrite shared_of_with. destruct (decide (o = o')) as [<-|]; [|done].
    destruct Hr as (x & -> & _). by apply (Hatt k).
  - done.
  - intros o' c. unfold member. rewrite shared_of_with. destruct (decide (o = o')) as [<-|]; [|apply H4].
    destruct (objects y !! o); [apply Hfresh|]. simpl. rewrite lookup_empty. by intros [? ?].
  - intros o'. rewrite shared_of_with. destruct (decide (o = o')) as [<-|]; [|specialize (H5 o'); lia].
    destruct (objects y !! o) eqn:E; [lia|]. specialize (H5 o). unfold shared_of in H5. rewrite E in H5. lia.
Qed.

Lemma consistent_mono n n' y : consistent n y -> n <= n' -> consistent n' y.
Proof. intros [] Hn. split; try done. intros o. specialize (co_bound0 o). lia. Qed.

Lemma consistent_storage n d y : consistent n y -> consistent n (with_storage d y).
Proof. intros []. by split. Qed.

Lemma consistent_insert n k v y :
  consistent n y -> conn_ok y k v ->
  (forall o c, v = Attached o c -> forall k', k' <> k -> conns y !! k' <> Some (Attached o c)) ->
  consistent n (with_conns (<[k := v]> (conns y)) y).
Proof.
  intros [H1 H2 H3 H4 H5] Hv Hnew. split; try done; simpl.
  - intros k' v'. destruct (decide (k = k')) as [<-|Hne]; [by rewrite lookup_insert_eq; intros [= <-]|].
    rewrite lookup_insert_ne by done. apply H2.
  - intros k1 k2 o c. destruct (decide (k = k1)) as [<-|N1], (decide (k = k2)) as [<-|N2];
      rewrite ?lookup_insert_eq, ?lookup_insert_ne by done; try done.
    + intros [= ->] Hk2. by destruct (Hnew o c eq_refl k2 (not_eq_sym N2)).
    + intros Hk1 [= ->]. by destruct (Hnew o c eq_refl k1 (not_eq_sym N1)).
    + apply H3.
Qed.

Lemma consistent_delete n k y : consistent n y -> consistent n (with_conns (delete k (conns y)) y).
Proof.
  intros [H1 H2 H3 H4 H5]. split; try done; simpl.
  - intros k' v' [_ Hk]%lookup_delete_Some. by apply H2.
  - intros k1 k2 o c [_ Hk1]%lookup_delete_Some [_ Hk2]%lookup_delete_Some. by apply (H3 k1 k2 o c).
Qed.

(** The session a connection depends on. *)
Definition depends (v : Conn) : option nat :=
  match v with Connecting o | Attached o _ | Cleaning o => Some o | LastLeft _ => None end.

Lemma registered_depends n y k v o :
  consistent n y -> conns y !! k = Some v -> depends v = Some o -> registered o y.
Proof. intros Hc Hk Hd. pose proof (co_conns n y Hc k v Hk). destruct v; simpl in *; simplify_eq; tauto. Qed.

(** A name may go when no connection depends on its session. *)
Lemma consistent_forget n id y :
  consistent n y ->
  (forall o k v, sessions y !! id = Some o -> conns y !! k = Some v -> depends v <> Some o) ->
  consistent n (with_sessions (delete id (sessions y)) y).
Proof.
  intros Hc Hno. pose proof Hc as [H1 H2 H3 H4 H5]. split; try done; simpl.
  - intros id' o' [_ Ho']%lookup_delete_Some. by apply H1.
  - intros k v Hk. specialize (H2 k v Hk).
    assert (Hr : forall o', depends v = Some o' -> registered o' y -> registered o' (with_sessions (delete id (sessions y)) y)).
    { intros o' Hd (x & Hx & Hs). exists x. split; [done|]. simpl. rewrite lookup_delete_ne; [done|].
      intros ->. by apply (Hno o' k v Hs Hk). }
    destruct v as [o'|o' c|o'|o']; simpl in *; [by apply Hr|destruct H2; split; [by apply Hr|done]|done|].
    destruct H2. split; [done|by apply Hr].
Qed.

(** What creating (or finding) a session does. *)
Record created (y : System) (o : nat) (is_new : bool) (id : string) (y' : System) : Prop := {
  cr_conns : conns y' = conns y;
  cr_lifecycle : lifecycle y' = lifecycle y;
  cr_registered : registered o y' /\ id_of o y' = id;
  cr_kept o' : registered o' y -> registered o' y' /\ shared_of o' y' = shared_of o' y /\ id_of o' y' = id_of o' y;
  cr_new : is_new = true -> sessions y' !! id = Some o /\ ~ registered o y
}.

Lemma shared_of_app o x y m d l c :
  shared_of o (mkSystem m (objects y ++ [x]) d l c) =
  if decide (o = length (objects y)) then obj_shared x else shared_of o y.
Proof.
  unfold shared_of. simpl. destruct (decide (o = length (objects y))) as [->|Hne].
  - by rewrite list_lookup_middle.
  - destruct (decide (o < length (objects y))%nat) as [Hlt|Hge]; [by rewrite lookup_app_l|].
    rewrite lookup_app_r by lia. rewrite (lookup_ge_None_2 (objects y)) by lia.
    by rewrite (lookup_ge_None_2 [x]) by (simpl; lia).
Qed.

Lemma registered_lt o y : registered o y -> (o < length (objects y))%nat.
Proof. intros (x & Hx & _). by apply lookup_lt_Some in Hx. Qed.

Lemma get_or_create_spec n id fresh y :
  consistent n y -> 1 <= n ->
  let '(o, is_new, y') := get_or_create id fresh y in consistent n y' /\ created y o is_new id y'.
Proof.
  intros Hc Hn. pose proof Hc as [H1 H2 H3 H4 H5]. unfold get_or_create.
  destruct (sessions y !! id) as [o|] eqn:Hid.
  - destruct (H1 id o Hid) as (x & Hx & Hxid). split; [done|].
    assert (Hr : registered o y) by (exists x; split; [done|]; by rewrite Hxid).
    split; try done. split; [done|]. unfold id_of. by rewrite Hx.
  - set (e := (opened id _ fresh).1). set (x := mkObject id e SharedSession.new).
    set (y' := mkSystem _ (objects y ++ [x]) _ _ _).
    assert (Hnew : objects y' !! length (objects y) = Some x) by (simpl; by rewrite list_lookup_middle).
    assert (Hold : forall o' x', objects y !! o' = Some x' -> objects y' !! o' = Some x')
      by (intros o' x' Hx'; simpl; rewrite lookup_app_l; [done|by apply lookup_lt_Some in Hx']).
    assert (Hkept : forall o', registered o' y -> registered o' y' /\ shared_of o' y' = shared_of o' y /\ id_of o' y' = id_of o' y).
    { intros o' (x' & Hx' & Hs). unfold shared_of, id_of. rewrite (Hold o' x' Hx'), Hx'. split; [|done].
      exists x'. split; [by apply Hold|]. simpl. rewrite lookup_insert_ne; [done|congruence]. }
    assert (Hsh : forall o', shared_of o' y' = if decide (o' = length (objects y)) then SharedSession.new else shared_of o' y)
      by (intros o'; apply shared_of_app).
    split.
    + split.
      * intros id' o'. simpl. destruct (decide (id = id')) as [<-|Hne].
        -- rewrite lookup_insert_eq. intros [= <-]. by exists x.
        -- rewrite lookup_insert_ne by done. intros (x' & Hx' & ?)%H1. exists x'. split; [by apply Hold|done].
      * intros k v Hk. specialize (H2 k v Hk). destruct v as [o'|o' c|o'|o']; simpl in *; [by apply Hkept| |done|].
        -- destruct H2 as [Hr Hm]. destruct (Hkept o' Hr) as (? & Hs & _). split; [done|]. unfold member. by rewrite Hs.
        -- destruct H2 as [? Hr]. split; [done|]. by apply Hkept.
      * done.
      * intros o' c. unfold member. rewrite Hsh. destruct (decide _); [|apply H4].
        simpl. rewrite lookup_empty. by intros [? ?].
      * intros o'. rewrite Hsh. destruct (decide _); [simpl; lia|apply H5].
    + split; try done.
      * split; [exists x; split; [done|]; simpl; by rewrite lookup_insert_eq|]. unfold id_of. by rewrite Hnew.
      * intros _. split; [simpl; by rewrite lookup_insert_eq|]. intros Hr%registered_lt. lia.
Qed.

Lemma undo_consistent n y o is_new id y' :
  consistent n y -> consistent n y' -> created y o is_new id y' -> consistent n (undo_create is_new id y').
Proof.
  intros Hc Hc' Hcr. unfold undo_create. destruct is_new; [|done]. apply consistent_forget; [done|].
  destruct (cr_new _ _ _ _ _ Hcr eq_refl) as [Hs Hn]. intros o' k v Ho' Hk Hd.
  assert (o' = o) as -> by congruence. rewrite (cr_conns _ _ _ _ _ Hcr) in Hk.
  by apply Hn, (registered_depends n y k v).
Qed.

Lemma persist_session_some id now write y y' :
  persist_session id now write y = Some y' -> exists d, y' = with_storage d y.
Proof.
  unfold persist_session. destruct (sessions y !! id) as [o|]; simpl; [|done].
  destruct (objects y !! o) as [x|]; simpl; [|done].
  destruct (persist_engine _ _ _ _ _ _) as [d|]; simpl; [|done]. intros [= <-]. eauto.
Qed.

(** A client that joins is new to its session. *)
Lemma add_client_spec s n :
  (forall c, is_Some (clients s !! c) -> c < next_client_id s) -> 0 <= next_client_id s <= n -> n < u64_max ->
  let '(c, s') := add_client s in
  clients s !! c = None /\ is_Some (clients s' !! c) /\ 0 <= next_client_id s' <= n + 1 /\
  (forall d, is_Some (clients s !! d) -> is_Some (clients s' !! d)) /\
  (forall d, is_Some (clients s' !! d) -> d < next_client_id s').
Proof.
  intros Hf Hb Hn. simpl.
  assert (Hadd : add64 (next_client_id s) 1 = next_client_id s + 1)
    by (unfold add64; apply wrap64_small; unfold is_u64, u64_max in *; lia).
  assert (Hnone : clients s !! next_client_id s = None).
  { destruct (clients s !! next_client_id s) as [a|] eqn:E; [|done]. specialize (Hf _ (ex_intro _ a E)). lia. }
  rewrite Hadd. split_and!; [done|by rewrite lookup_insert_eq|lia|lia| |].
  - intros d Hd. rewrite lookup_insert_ne; [done|]. intros <-. rewrite Hnone in Hd. by destruct Hd.
  - intros d. destruct (decide (next_client_id s = d)) as [<-|Hne]; [lia|].
    rewrite lookup_insert_ne by done. intros Hd. specialize (Hf d Hd). lia.
Qed.

Lemma detach_spec c s :
  match detach_client c s with
  | (Some last, s') => clients s' = delete c (clients s) /\ next_client_id s' = next_client_id s /\
                       (last = true -> clients s' = ∅)
  | (None, s') => s' = s
  end.
Proof.
  unfold detach_client. destruct (clients s !! c) as [a|]; [|done].
  unfold release_submitter. simpl. split_and!; [by repeat case_bool_decide..|].
  intros Hl%Nat.eqb_eq. apply map_size_empty_inv in Hl. by repeat case_bool_decide.
Qed.

Lemma remove_spec c s :
  is_Some (clients s !! c) ->
  clients (remove_client c s).2 = delete c (clients s) /\ next_client_id (remove_client c s).2 = next_client_id s.
Proof.
  intros [a Ha]. unfold remove_client. pose proof (detach_spec c s) as Hd. unfold detach_client in *. rewrite Ha in *.
  simpl in *. tauto.
Qed.

Lemma empty_no_member o c y : client_count (shared_of o y) = 0%nat -> ~ member o c y.
Proof. intros He%map_size_empty_inv [a Ha]. by rewrite He, lookup_empty in Ha. Qed.
Lemma add_member n o y :
  consistent n y -> n < u64_max -> registered o y ->
  let '(c, s) := add_client (shared_of o y) in
  consistent (n + 1) (with_shared o s y) /\ registered o (with_shared o s y) /\
  member o c (with_shared o s y) /\ ~ member o c y.
Proof.
  intros Hc Hn Hr. pose proof (add_client_spec (shared_of o y) n (co_fresh n y Hc o) (co_bound n y Hc o) Hn) as Ha.
  destruct (add_client (shared_of o y)) as [c' s]. destruct Ha as (Hnone & Hin & Hb & Hkeep & Hfr).
  split; [|split; [by apply registered_with|split]].
  - apply (consistent_shared n); [done|lia|done|done|].
    intros k d Hk. apply Hkeep. by destruct (co_conns n y Hc k _ Hk).
  - unfold member. rewrite shared_of_with, decide_True by done. by destruct Hr as (x & -> & _).
  - unfold member. rewrite Hnone. by intros [? ?].
Qed.

Lemma step_attach n k o y :
  consistent n y -> n < u64_max -> conns y !! k = Some (Connecting o) ->
  let '(c, s) := add_client (shared_of o y) in
  consistent (n + 1) (with_conns (<[k := Attached o c]> (conns y)) (with_shared o s y)).
Proof.
  intros Hc Hn Hk. pose proof (co_conns n y Hc k _ Hk) as Hr. simpl in Hr.
  pose proof (add_member n o y Hc Hn Hr) as Ha. destruct (add_client (shared_of o y)) as [c s].
  destruct Ha as (Hc' & Hr' & Hm & Hnot).
  apply (consistent_insert (n + 1) k (Attached o c) (with_shared o s y)); [done|by split|].
  intros o' c' [= <- <-] k' Hne Hk'. simpl in Hk'. apply Hnot. by destruct (co_conns n y Hc k' _ Hk').
Qed.

Lemma step_close n k o c y :
  consistent n y -> conns y !! k = Some (Attached o c) ->
  let '(last, s) := remove_client c (shared_of o y) in
  consistent n (with_conns (if last then <[k := LastLeft o]> (conns y) else delete k (conns y)) (with_shared o s y)).
Proof.
  intros Hc Hk. destruct (co_conns n y Hc k _ Hk) as [Hr Hm].
  pose proof (remove_spec c (shared_of o y) Hm) as [Hcl Hid].
  destruct (remove_client c (shared_of o y)) as [last s]. simpl in Hcl, Hid.
  pose proof (consistent_delete n k y Hc) as Hd. set (ym := with_conns (delete k (conns y)) y) in Hd.
  assert (Hs : consistent n (with_shared o s ym)).
  { apply (consistent_shared n); [done|lia|rewrite Hid; apply (co_bound n y Hc o)| |].
    - intros d. rewrite Hcl, Hid. intros [a [_ Ha]%lookup_delete_Some]. apply (co_fresh n y Hc o). by exists a.
    - intros k' c' Hk'. simpl in Hk'. apply lookup_delete_Some in Hk' as [Hne Hk'].
      rewrite Hcl, lookup_delete_ne; [by destruct (co_conns n y Hc k' _ Hk')|].
      intros <-. apply Hne. by apply (co_distinct n y Hc k k' o c). }
  destruct last; [|exact Hs].
  pose proof (consistent_insert n k (LastLeft o) (with_shared o s ym) Hs I) as Hi. simpl in Hi.
  rewrite insert_delete_eq in Hi. by apply Hi.
Qed.

(** The client moves: it leaves its session, which goes if it was the last one,
    and joins the other. *)
Lemma step_switch n k o c target target_cwd now fresh write y :
  consistent n y -> 1 <= n -> n < u64_max -> conns y !! k = Some (Attached o c) -> lifecycle y = None ->
  (forall k', conns y !! k' <> Some (Connecting o)) ->
  match switch_client o c target target_cwd now fresh write y with
  | (Ok (t, c'), y') => consistent (n + 1) (with_conns (<[k := Attached t c']> (conns y')) y')
  | (Err _, y') => consistent (n + 1) y'
  end.
Proof.
  intros Hc H1 Hn Hk Hl Hnc. assert (Hc1 : consistent (n + 1) y) by (apply (consistent_mono n); [done|lia]).
  unfold switch_client. destruct (String.eqb_spec (id_of o y) target) as [|Htarget]; [done|].
  destruct (has_active_submitter _); [done|]. destruct (negb _); [done|].
  pose proof (get_or_create_spec n target fresh y Hc H1) as Hg.
  destruct (get_or_create target fresh y) as [[t is_new] y1]. destruct Hg as [Hcy1 Hcr].
  assert (Hundo : consistent (n + 1) (undo_create is_new target y1))
    by (apply (consistent_mono n); [by apply (undo_consistent n y t is_new target y1)|lia]).
  destruct (negb _); [done|]. destruct (persist_session (id_of o y) now write y1) as [y2|] eqn:Hp; [|done].
  destruct (persist_session_some _ _ _ _ _ Hp) as [d ->]. clear Hp.
  destruct Hcr as [Hconns Hlife [Ht Htid] Hkept _].
  pose proof (consistent_storage n d y1 Hcy1) as Hcy2. set (y2 := with_storage d y1) in *.
  assert (Hk2 : conns y2 !! k = Some (Attached o c)) by (simpl; by rewrite Hconns).
  destruct (co_conns n y2 Hcy2 k _ Hk2) as [Hr Hm].
  pose proof (detach_spec c (shared_of o y2)) as Hd.
  destruct (detach_client c (shared_of o y2)) as [[last|] s];
    [|apply (consistent_storage (n + 1) d) in Hundo; by destruct is_new].
  destruct Hd as (Hcl & Hid & Hlast).
  (* without the connection that moves *)
  pose proof (consistent_delete n k y2 Hcy2) as Hdel. set (ym := with_conns (delete k (conns y2)) y2) in Hdel.
  assert (Hs : consistent n (with_shared o s ym)).
  { apply (consistent_shared n); [done|lia|rewrite Hid; apply (co_bound n y2 Hcy2 o)| |].
    - intros d'. rewrite Hcl, Hid. intros [a [_ Ha]%lookup_delete_Some]. apply (co_fresh n y2 Hcy2 o). by exists a.
    - intros k' c' Hk'. simpl in Hk'. apply lookup_delete_Some in Hk' as [Hne Hk'].
      rewrite Hcl, lookup_delete_ne; [by destruct (co_conns n y2 Hcy2 k' _ Hk')|].
      intros <-. apply Hne. by apply (co_distinct n y2 Hcy2 k k' o c). }
  set (y3 := with_shared o s ym) in *.
  set (y4 := if last then with_sessions (delete (id_of o y) (sessions y3)) y3 else y3).
  assert (Hoid : id_of o y2 = id_of o y).
  { destruct (co_conns n y Hc k _ Hk) as [Hro _]. by destruct (Hkept o Hro) as (_ & _ & ?). }
  assert (H4 : consistent n y4).
  { unfold y4. destruct last; [|done]. apply consistent_forget; [done|]. intros o' k' v Ho' Hk' Hdep.
    assert (o' = o) as ->.
    { pose proof (registered_id o y2 Hr) as Hro. rewrite Hoid in Hro. simpl in Ho', Hro. congruence. }
    pose proof (co_conns n y3 Hs k' v Hk') as Hok. simpl in Hk'.
    destruct v as [o'|o' c'|o'|o']; simpl in Hdep; simplify_eq.
    - apply lookup_delete_Some in Hk' as [_ Hk']. rewrite Hconns in Hk'. by apply (Hnc k').
    - destruct Hok as [_ Hmem]. unfold member, y3 in Hmem. rewrite shared_of_with, decide_True in Hmem by done.
      destruct Hr as (x & Hx & _). simpl in Hmem, Hx. rewrite Hx, (Hlast eq_refl), lookup_empty in Hmem.
      by destruct Hmem.
    - destruct Hok as [Hlk _]. simpl in Hlk. congruence. }
  assert (Ht4 : registered t y4).
  { assert (Ht3 : registered t y3) by (by apply registered_with). unfold y4. destruct last; [|done].
    destruct Ht3 as (x & Hx & Hsx). exists x. split; [done|]. simpl. rewrite lookup_delete_ne; [done|].
    assert (Htx : id_of t y3 = target) by (unfold y3; rewrite id_of_with; exact Htid).
    unfold id_of in Htx. rewrite Hx in Htx. congruence. }
  pose proof (add_member n t y4 H4 Hn Ht4) as Ha.
  assert (Hsame : shared_of t y4 = shared_of t (if last then with_sessions (delete (id_of o y) (sessions (with_shared o s y2)))
                                                  (with_shared o s y2) else with_shared o s y2))
    by (unfold y4; by destruct last).
  rewrite <- Hsame. destruct (add_client (shared_of t y4)) as [c' s']. destruct Ha as (Hc5 & Hr5 & Hm5 & Hnot).
  pose proof (consistent_insert (n + 1) k (Attached t c') (with_shared t s' y4) Hc5 (conj Hr5 Hm5)) as Hi.
  assert (Hconns4 : conns y4 = delete k (conns y2)) by (unfold y4; by destruct last).
  assert (Hgoal : with_conns (<[k := Attached t c']> (conns (with_shared t s' y4))) (with_shared t s' y4) =
          let z := with_shared t s' (if last then with_sessions (delete (id_of o y) (sessions (with_shared o s y2)))
                                                  (with_shared o s y2) else with_shared o s y2) in
          with_conns (<[k := Attached t c']> (conns z)) z).
  { simpl. rewrite Hconns4, insert_delete_eq. unfold y4. by destruct last. }
  rewrite Hgoal in Hi. apply Hi.
  intros o' c0 [= <- <-] k' Hne Hk'. simpl in Hk'. apply Hnot. by destruct (co_conns n y4 H4 k' _ Hk').
Qed.
Lemma step_cleanup_end n k o now write y :
  consistent n y -> conns y !! k = Some (Cleaning o) ->
  (forall k', conns y !! k' <> Some (Connecting o)) -> client_count (shared_of o y) = 0%nat ->
  let y' := match persist_session (id_of o y) now write y with
            | Some y => with_sessions (delete (id_of o y) (sessions y)) y | None => y end in
  consistent n (with_lifecycle None (with_conns (delete k (conns y')) y')).
Proof.
  intros Hc Hk Hnc Hempty. destruct (co_conns n y Hc k _ Hk) as [Hl Hr].
  assert (Hfree : forall d, consistent n (with_lifecycle None (with_conns (delete k (conns y)) (with_storage d y)))).
  { intros d. pose proof (consistent_delete n k _ (consistent_storage n d y Hc)) as Hd. simpl in Hd.
    pose proof Hd as [A1 A2 A3 A4 A5]. split; try done.
    intros k' v Hk'. specialize (A2 k' v Hk'). destruct v as [o'|o' c|o'|o']; try done. simpl in *.
    apply lookup_delete_Some in Hk' as [Hne Hk']. destruct (co_conns n y Hc k' _ Hk') as [Hl' _]. congruence. }
  destruct (persist_session (id_of o y) now write y) as [y1|] eqn:Hp;
    [|by specialize (Hfree (storage y)); destruct y].
  destruct (persist_session_some _ _ _ _ _ Hp) as [d ->]. simpl.
  pose proof (consistent_forget n (id_of o y) _ (Hfree d)) as Hf. apply Hf.
  intros o' k' v Ho' Hk' Hdep. assert (o' = o) as ->.
  { pose proof (registered_id o y Hr) as Hro. simpl in Ho'. congruence. }
  simpl in Hk'. apply lookup_delete_Some in Hk' as [Hne Hk'].
  pose proof (co_conns n y Hc k' v Hk') as Hok. destruct v as [o'|o' c|o'|o']; simpl in Hdep; simplify_eq.
  - by apply (Hnc k').
  - destruct Hok as [_ Hm]. by apply (empty_no_member o c y).
  - destruct Hok as [Hl' _]. congruence.
Qed.

Lemma step_in_session n o l x s y :
  consistent n y -> objects y !! o = Some x -> SharedSession.step l (obj_shared x) = Some s ->
  match l with Join | Leave _ => False | _ => True end -> consistent n (with_shared o s y).
Proof.
  intros Hc Hx Hs Hl. destruct (step_clients l _ s Hs Hl) as [Hin Hid].
  assert (Hsh : shared_of o y = obj_shared x) by (unfold shared_of; by rewrite Hx).
  apply (consistent_shared n); [done|lia|rewrite Hid, <- Hsh; apply (co_bound n y Hc)| |].
  - intros c Hc'%Hin. rewrite Hid, <- Hsh. apply (co_fresh n y Hc o). unfold member. by rewrite Hsh.
  - intros k c Hk. apply Hin. destruct (co_conns n y Hc k _ Hk) as [_ Hm]. unfold member in Hm. by rewrite Hsh in Hm.
Qed.

Lemma sys_step_consistent n l y y' :
  sys_step l y = Some y' -> unhurried l y = true -> consistent n y -> 1 <= n -> n < u64_max -> consistent (n + 1) y'.
Proof.
  intros Hs Hu Hc H1 Hn. assert (Hup : forall z, consistent n z -> consistent (n + 1) z)
    by (intros z Hz; apply (consistent_mono n); [done|lia]).
  destruct l as [k id fresh|k|k target target_cwd now fresh write|k|k|k now write|o l|o now write]; cbn [sys_step] in Hs.
  - destruct (conns y !! k) eqn:Hk; [done|]. destruct (unlocked y); [|done].
    pose proof (get_or_create_spec n id fresh y Hc H1) as Hg.
    destruct (get_or_create id fresh y) as [[o is_new] y1]. destruct Hg as [Hc1 Hcr]. injection Hs as <-.
    apply Hup, consistent_insert; [done|by destruct (cr_registered _ _ _ _ _ Hcr)|done].
  - destruct (conns y !! k) as [[o|o c|o|o]|] eqn:Hk; try done.
    pose proof (step_attach n k o y Hc Hn Hk) as Ha. destruct (add_client (shared_of o y)). by injection Hs as <-.
  - destruct (conns y !! k) as [[o|o c|o|o]|] eqn:Hk; try done. unfold unlocked in Hs.
    destruct (lifecycle y) eqn:Hl; [done|]. simpl in Hs, Hu. rewrite Hk in Hu. apply negb_true_iff in Hu.
    pose proof (step_switch n k o c target target_cwd now fresh write y Hc H1 Hn Hk Hl (not_connecting o y Hu)) as Hsw.
    destruct (switch_client _ _ _ _ _ _ _ _) as [[[t c']|] y1]; by injection Hs as <-.
  - destruct (conns y !! k) as [[o|o c|o|o]|] eqn:Hk; try done. destruct (is_active_submitter _ _); [done|].
    pose proof (step_close n k o c y Hc Hk) as Hcl. destruct (remove_client c (shared_of o y)) as [last s].
    injection Hs as <-. by apply Hup.
  - destruct (conns y !! k) as [[o|o c|o|o]|] eqn:Hk; try done. unfold unlocked in Hs.
    destruct (lifecycle y) eqn:Hl; [done|]. simpl in Hs.
    destruct (_ && _)%bool eqn:Hif; injection Hs as <-; [|apply Hup, consistent_delete, Hc].
    apply andb_true_iff in Hif as [_ Hreg]. apply bool_decide_eq_true in Hreg.
    destruct (co_named n y Hc _ _ Hreg) as (x & Hx & Hid).
    assert (Hr : registered o y) by (exists x; split; [done|]; by rewrite Hid).
    apply Hup. destruct Hc as [A1 A2 A3 A4 A5]. split; try done; simpl.
    + intros k' v. destruct (decide (k = k')) as [<-|Hne]; [rewrite lookup_insert_eq; by intros [= <-]|].
      rewrite lookup_insert_ne by done. intros Hk'. specialize (A2 k' v Hk').
      destruct v; try done. simpl in A2. destruct A2. congruence.
    + intros k1 k2 o' c. destruct (decide (k = k1)) as [<-|N1], (decide (k = k2)) as [<-|N2];
        rewrite ?lookup_insert_eq, ?lookup_insert_ne by done; try done. apply A3.
  - destruct (conns y !! k) as [[o|o c|o|o]|] eqn:Hk; try done. simpl in Hu. rewrite Hk in Hu.
    apply andb_true_iff in Hu as [Hnc He]. apply negb_true_iff in Hnc. apply Nat.eqb_eq in He.
    pose proof (step_cleanup_end n k o now write y Hc Hk (not_connecting o y Hnc) He) as Hce.
    injection Hs as <-. by apply Hup.
  - destruct l; try done; (destruct (objects y !! o) as [x|] eqn:Hx; [|done]); cbn [mbind option_bind] in Hs;
      (destruct (SharedSession.step _ (obj_shared x)) as [s|] eqn:Hst; [|done]); injection Hs as <-;
      apply Hup; by apply (step_in_session n o _ x s y Hc Hx Hst).
  - destruct (persist_session (id_of o y) now write y) as [y1|] eqn:Hp; injection Hs as <-; [|by apply Hup].
    destruct (persist_session_some _ _ _ _ _ Hp) as [d ->]. by apply Hup, consistent_storage.
Qed.

Lemma sys_exec_consistent ls d y :
  sys_exec ls (sys_new d) = Some y -> all_unhurried ls (sys_new d) = true -> Z.of_nat (length ls) < u64_max - 1 ->
  consistent (1 + Z.of_nat (length ls)) y.
Proof.
  revert y. induction ls as [|l ls IH] using rev_ind; intros y.
  - intros [= <-] _ _. assert (Hsh : forall o, shared_of o (sys_new d) = SharedSession.new) by done.
    split; try (intros *; simpl; rewrite lookup_empty; done).
    + intros o c. unfold member. rewrite Hsh. simpl. rewrite lookup_empty. by intros [? ?].
    + intros o. rewrite Hsh. simpl. lia.
  - intros He Hu Hb. apply sys_exec_snoc in He as (y1 & H1 & Hs).
    destruct (all_unhurried_snoc ls l (sys_new d) y1 H1 Hu) as [Hu1 Hul].
    rewrite length_app in Hb |- *. simpl in Hb |- *.
    replace (1 + Z.of_nat (length ls + 1)) with (1 + Z.of_nat (length ls) + 1) by lia.
    apply (sys_step_consistent _ l y1); [done|done|apply IH; [done..|lia]|lia|lia].
Qed.

(** Clients of one session share one engine: over every interleaving
    of connections, switches, turns, disconnections and clean-ups in which no
    session leaves the registry while a connection has looked it up and not yet
    joined it, two connected clients whose sessions have the same name are in
    the same session in memory, that session is the one the name stands for,
    and so the snapshots written under the name are of it. *)
Theorem session_not_split (ls : list SysStep) (d : Storage) (y : System) (k1 k2 o1 o2 : nat) (c1 c2 : ClientId) :
  sys_exec ls (sys_new d) = Some y -> all_unhurried ls (sys_new d) = true -> Z.of_nat (length ls) < u64_max - 1 ->
  conns y !! k1 = Some (Attached o1 c1) -> conns y !! k2 = Some (Attached o2 c2) ->
  (id_of o1 y = id_of o2 y -> o1 = o2) /\ sessions y !! id_of o1 y = Some o1 /\
  (forall now write, persist_session (id_of o1 y) now write y =
     x ← objects y !! o1; d ← persist_engine write renamed (id_of o1 y) now (obj_engine x) (storage y);
     Some (with_storage d y)).
Proof.
  intros He Hu Hb Hk1 Hk2. pose proof (sys_exec_consistent ls d y He Hu Hb) as Hc.
  destruct (co_conns _ y Hc k1 _ Hk1) as [Hr1%registered_id _].
  destruct (co_conns _ y Hc k2 _ Hk2) as [Hr2%registered_id _]. split_and!; [|done|].
  - intros Heq. rewrite Heq in Hr1. congruence.
  - intros now write. unfold persist_session. by rewrite Hr1.
Qed.
End System.
End Registry.
End Registry.

(** ** Witnesses and examples *)

Module SessionExamples.
Import Memory Disk Registry.

(** Enough of RFC 3339 for the examples: a text of twenty characters. *)
Definition any_timestamp : Timestamps := {| is_rfc3339 s := Nat.eqb (str_len s) 20 |}.

Definition noon : string := "2026-01-01T12:00:00Z".

Definition engine_with (l : list string) (memory : string) : Engine (Msg := string) :=
  mkEngine "/work" "sonnet" l (Some (mkMemory memory 0)).

Definition old_storage : Storage (Msg := string) :=
  mkStorage {["b-cli" := snapshot_file (mkPersisted 1 "b-cli" "/b" "sonnet" noon noon ["hello"] None);
              "registry" := corrupt]}.

Definition saved : Storage :=
  default old_storage (@persist_engine string true true "a-cli" noon (engine_with ["ask"; "answer"] "Fixing the parser.") old_storage).


(** The id [registry] is valid, but its snapshot is the file of the index: the
    conversation is gone as soon as it is written. *)
Example registry_session_lost :
  let e := engine_with ["ask"; "answer"] "Fixing the parser." in
  is_valid_session_id "registry" = true /\
  match @persist_engine string true true "registry" noon e empty with
  | Some d => (fun f => (is_some (as_snapshot f), is_some (as_index f))) <$> files d !! "registry"
  | None => None
  end = Some (false, true).
Proof. vm_compute. split; reflexivity. Qed.

(** A date in the index that is none is copied into every snapshot, and no
    snapshot with it is ever restored. *)
Example bad_date_never_restored :
  let d := mkStorage {["registry" := index_file [mkEntry "a-cli" "/work" "yesterday" noon]]} in
  match @persist_engine string true true "a-cli" noon (engine_with ["ask"] "") d with
  | Some d => snd (@opened string any_timestamp "a-cli" d (engine_with [] ""))
  | None => true
  end = false.
Proof. vm_compute. reflexivity. Qed.

(** The rebuilt index keeps the other session. *)
Example index_rebuilt :
  entry_id <$> (load_registry true saved).1 = ["b-cli"; "a-cli"].
Proof. vm_compute. reflexivity. Qed.

(** A summary the scan rejects is not restored: here one that quotes a key. *)
Example summary_with_key_lost :
  let m := "Rotated sk-abcdefghijklmnopqrstu for the build." in
  let d := default old_storage (@persist_engine string true true "a-cli" noon (engine_with ["ask"] m) old_storage) in
  content <$> session_memory (@opened string any_timestamp "a-cli" d (engine_with [] "")).1 = Some "".
Proof. vm_compute. reflexivity. Qed.

Abbreviation run ls := (@sys_exec string any_timestamp true ls (sys_new old_storage)).
Abbreviation unhurried_run ls := (@all_unhurried string any_timestamp true ls (sys_new old_storage)).

Definition fresh_a : Engine := engine_with [] "".

(** Two clients of one session, one of which leaves; then the other. *)
Definition two_clients : list (SysStep (Msg := string)) :=
  [Connect 1 "a-cli" fresh_a; Attach 1; Connect 2 "a-cli" fresh_a; Attach 2].

Definition two_attached : System := default (sys_new old_storage) (run two_clients).

Lemma session_not_split_witness :
  (id_of 0 two_attached = id_of 0 two_attached -> 0%nat = 0%nat) /\ sessions two_attached !! id_of 0 two_attached = Some 0%nat /\
  (forall now write, @persist_session string true (id_of 0 two_attached) now write two_attached =
     x ← objects two_attached !! 0%nat;
     d ← @persist_engine string write true (id_of 0 two_attached) now (obj_engine x) (storage two_attached);
     Some (with_storage d two_attached)).
Proof.
  apply (@session_not_split string any_timestamp true two_clients old_storage two_attached 1 2 0 0 1 2).
  - vm_compute. reflexivity.
  - vm_compute. reflexivity.
  - vm_compute. reflexivity.
  - vm_compute. reflexivity.
  - vm_compute. reflexivity.
Defined.

(** Between looking a session up and joining it a client is not counted: when
    the last counted client leaves then, the session is closed under the
    newcomer.  The next client of the same name gets a second engine, and what
    is persisted under the name is never the newcomer's conversation. *)
Example session_split :
  let hurried := [Connect 1 "a-cli" fresh_a; Attach 1; Connect 2 "a-cli" fresh_a; Close 1; CleanupBegin 1;
                  CleanupEnd 1 noon true; Attach 2; Connect 3 "a-cli" fresh_a; Attach 3] in
  (y ← run hurried; Some (conns y !! 2%nat, conns y !! 3%nat, id_of 0 y, id_of 1 y, sessions y !! "a-cli")) =
  Some (Some (Attached 0 2), Some (Attached 1 1), "a-cli", "a-cli", Some 1%nat) /\
  unhurried_run hurried = false.
Proof. vm_compute. split; reflexivity. Qed.
End SessionExamples.
