(* ===== verification/Request.v ===== *)
(** * Request: what the model is sent ([engine/api_builder.rs])

    Each call of the query loop turns the history into a request: the repaired
    messages in the shape of the API, the system prompt, the tool list with its
    cache breakpoint, and a reminder of what changes between calls.  Rule files
    are matched against the paths a conversation mentions; glob patterns are a
    third-party library, an interface, and [format!]'s rendering of a
    percentage is an argument.  A file is read or not: [option]. *)

From stdpp Require Import base gmap strings list sorting.
From Stdlib Require Import ZArith Lia.
From S2P Require Import RuleGate Prelude Text Float64 Json Paths ToolHealth ToolExec Messages Stream Compact Tokens SessionStore.

#[local] Open Scope Z_scope.
#[local] Open Scope string_scope.

(** ** Project instructions and rules *)

Definition blank (s : string) : bool := is_empty (trim s).

(** The two candidate files, read in order. *)
Definition load_project_instructions (hidden plain : option string) : option string :=
  match hidden with
  | Some c => if blank c then match plain with Some p => if blank p then None else Some p | None => None end
              else Some c
  | None => match plain with Some p => if blank p then None else Some p | None => None end
  end.

Record RuleFile := mkRuleFile { rule_content : string; rule_paths : option string }.

(** [trim_matches] with one character. *)
Fixpoint drop_byte (c : byte) (l : list byte) : list byte :=
  match l with b :: l' => if Ascii.eqb b c then drop_byte c l' else l | [] => [] end.

Definition trim_byte (c : byte) (s : string) : string :=
  string_of (reverse (drop_byte c (reverse (drop_byte c (bytes_of s))))).

(** The value of a [paths] line, if it is one and not empty. *)
Definition paths_line (line : list byte) : option string :=
  let line := trim (string_of line) in
  if (starts_with line "paths:" || starts_with line "paths :")%bool then
    rest ← after_first (bytes_of ":") (bytes_of line);
    let value := trim_byte (Ascii.ascii_of_nat 39) (trim_byte (Ascii.ascii_of_nat 34) (trim (string_of rest))) in
    if is_empty value then None else Some value
  else None.

Definition parse_rule_file (content : string) : RuleFile :=
  let trimmed := trim content in
  let plain := mkRuleFile trimmed None in
  match strip (bytes_of "---") (bytes_of trimmed) with
  | None => plain
  | Some rest =>
      match find_bytes (bytes_of "---") rest with
      | None => plain
      | Some k => mkRuleFile (trim (string_of (drop (k + 3) rest))) (head (omap paths_line (lines (take k rest))))
      end
  end.

Record CachedRule := mkCached { filename : string; cached_content : string; paths_pattern : option string }.

(** [path.extension() == Some("md")]. *)
Definition is_markdown (name : string) : bool :=
  match before_last (Ascii.ascii_of_nat 46) (bytes_of name) with
  | Some (_ :: _) => String.eqb (string_of (after_last (Ascii.ascii_of_nat 46) (bytes_of name))) "md"
  | _ => false
  end.

(** The directory, in the order it is read: names and readable contents. *)
Definition Directory : Type := option (list (string * option string)).

Definition load_all_rule_files (dir : Directory) : list CachedRule :=
  omap (fun '(name, content) =>
          if is_markdown name then
            c ← content;
            let rule := parse_rule_file c in
            Some (mkCached name (rule_content rule) (rule_paths rule))
          else None) (default [] dir).

(** [Path::new(fp).file_name()]: the last component, unless it is [..]. *)
Definition file_name (fp : string) : option string :=
  let components := retain (fun c => negb (is_empty c || String.eqb c "."))%bool
                      (string_of <$> split_byte (Ascii.ascii_of_nat 47) (bytes_of fp)) in
  c ← last components; if String.eqb c ".." then None else Some c.

Definition rule_text (name content : string) : string :=
  "# Rule: " +:+ name +:+ string_of [LF; LF] +:+ content.

Section Rules.
Context `{G : Globs}.

(** A pattern that does not parse lets the rule in. *)
Definition rule_applies (recent : list string) (pattern : option string) : bool :=
  match pattern with
  | None => true
  | Some p =>
      match glob_match p "" with
      | None => true
      | Some _ => existsb (fun fp => (default false (glob_match p fp) ||
                                      default false (glob_match p (default "" (file_name fp))))%bool) recent
      end
  end.

Definition filter_cached_rules (cached : list CachedRule) (recent : list string) : list string :=
  (fun r => rule_text (filename r) (cached_content r)) <$>
  retain (fun r => negb (blank (cached_content r)))
    (retain (fun r => rule_applies recent (paths_pattern r)) cached).

(** The function it replaces, which reads the files on every call. *)
Definition load_rules_with_paths (dir : Directory) (recent : list string) : list string :=
  omap (fun '(name, content) =>
          if is_markdown name then
            c ← content;
            let rule := parse_rule_file c in
            if (rule_applies recent (rule_paths rule) && negb (blank (rule_content rule)))%bool
            then Some (rule_text name (rule_content rule)) else None
          else None) (default [] dir).

(** The cache changes nothing but the moment the files are read. *)
Lemma cached_rules_same dir recent :
  filter_cached_rules (load_all_rule_files dir) recent = load_rules_with_paths dir recent.
Proof.
  unfold filter_cached_rules, load_all_rule_files, load_rules_with_paths.
  induction (default [] dir) as [|[name [c|]] l IH]; [done| |].
  all: cbn [omap list_omap mbind option_bind]; destruct (is_markdown name); [|exact IH].
  - generalize (parse_rule_file c) as r. intros [text paths]. cbn [rule_content rule_paths].
    cbn [retain List.filter cached_content paths_pattern filename].
    destruct (rule_applies recent paths); cbn [retain List.filter cached_content andb]; [|exact IH].
    destruct (blank text); cbn [negb]; [exact IH|]. rewrite fmap_cons. by f_equal.
  - exact IH.
Qed.
End Rules.

(** ** The request *)

Inductive ThinkingConfig := ThinkingDisabled | ThinkingAdaptive | ThinkingEnabled (budget_tokens : Z).

Record GitInfo := mkGit {
  branch : option string; has_changes : bool;
  staged_files : list string; modified_files : list string; untracked_files : list string
}.

Section Request.
Context `{J : Json} `{G : Globs} `{Clk : Clock} `{HO : HashOrder}.
Context (format_percent : f64 -> string).   (* [{:.0}] *)

(** What the request reads of a tool. *)
Record ToolSpec := mkSpec {
  tool_name : string;
  tool_prompt : string;
  input_schema : Value;
  is_deferred : bool;
  short_description : string
}.

(** What it reads of the configuration of a query. *)
Record RequestConfig := mkConfig {
  config_model : string;
  config_tools : list ToolSpec;
  expanded_tools : gset string;
  config_cwd : string;
  custom_system_prompt : option string;
  append_system_prompt : option string;
  project_instructions : option string;
  git_info : option GitInfo;
  thinking_config : ThinkingConfig;
  config_memory : option Memory.SessionMemory;
  recent_messages_for_rules : list Message;
  cached_rules_raw : list CachedRule;
  tool_health : ToolHealthTracker;
  config_max_tokens : Z
}.

Record CreateMessageRequest := mkCreate {
  request_model : string;
  request_messages : list Value;
  request_system : option (list Value);
  request_tools : option (list Value);
  request_max_tokens : Z;
  request_stream : bool;
  request_thinking : option Value
}.

(** *** The paths a conversation mentions *)

Definition path_like (word : string) : bool :=
  (existsb (str_contains word) ["/"; ".rs"; ".ts"; ".js"; ".py"; ".md"; ".toml"] &&
   Nat.ltb 5 (str_len word) && Nat.ltb (str_len word) 300)%bool.

Definition result_paths (b : Value) : list string :=
  match str_field b "content" with
  | Some c => trim <$> retain (fun l => str_contains l "/" || str_contains l "\.")%bool
                              (string_of <$> take 50 (lines (bytes_of c)))
  | None => []
  end.

Definition input_paths (b : ContentBlock) : list string :=
  match b with
  | ToolUse _ _ v => omap (str_field v) ["file_path"; "path"; "pattern"]
  | _ => []
  end.

Definition message_paths (m : Message) : list string :=
  match content m with
  | User u _ _ =>
      (match as_array (user_content u) with Some arr => arr ≫= result_paths | None => [] end) ++
      (match as_str (user_content u) with Some t => retain path_like (split_whitespace t) | None => [] end)
  | Assistant a _ _ => blocks a ≫= input_paths
  | _ => []
  end.

(** [retain] with a set of what has been seen. *)
Fixpoint dedup (seen : gset string) (l : list string) : list string :=
  match l with
  | [] => []
  | x :: l' => if decide (x ∈ seen) then dedup seen l' else x :: dedup ({[x]} ∪ seen) l'
  end.

Definition extract_recent_file_paths (h : list Message) (max_messages : nat) : list string :=
  take 50 (dedup ∅ (drop (length h - max_messages) h ≫= message_paths)).

(** *** Messages *)

Definition has_content (b : ContentBlock) : bool :=
  match b with
  | Text t | Thinking t => negb (blank t)
  | ToolUse _ _ _ => true
  | _ => false
  end.

Definition empty_content (v : Value) : bool :=
  match as_str v with
  | Some s => blank s
  | None => match as_array v with Some arr => Nat.eqb (length arr) 0 | None => is_null v end
  end.

Definition role_content (role : string) (v : Value) : Value :=
  json_object [("role", json_string role); ("content", v)].

Definition api_message (m : Message) : option Value :=
  match content m with
  | User u _ _ => if empty_content (user_content u) then None else Some (role_content (user_role u) (user_content u))
  | Assistant a _ _ =>
      if existsb has_content (blocks a)
      then Some (role_content (assistant_role a) (json_array (block_value <$> blocks a))) else None
  | _ => None
  end.

Definition is_user_text_turn (v : Value) : bool :=
  if bool_decide (str_field v "role" = Some "user") then
    match json_get v "content" with
    | Some c => match as_str c with
                | Some _ => true
                | None => match as_array c with
                          | Some arr => negb (existsb is_tool_result arr)
                          | None => false
                          end
                end
    | None => false
    end
  else false.

(** *** What changes between calls *)

Definition nl : string := string_of [LF].
Definition gap : string := string_of [LF; LF].

Definition change_lines (g : GitInfo) : list string :=
  omap (fun '(label, files) => match files with [] => None | _ => Some (label +:+ String.concat ", " files) end)
    [("Staged: ", staged_files g); ("Modified: ", modified_files g); ("Untracked: ", untracked_files g)].

Definition git_parts (g : GitInfo) : list string :=
  (match branch g with Some b => ["Current git branch: " +:+ b] | None => [] end) ++
  (if has_changes g then ["Changed files:" +:+ nl +:+ String.concat nl (change_lines g)] else []).

Definition summary_freshness_note (age : option Z) : option string :=
  a ← age;
  if Z.ltb Memory.UPDATE_INTERVAL a then
    Some ("# Summary Freshness" +:+ gap +:+ "The session summary above was last updated " +:+
          show_nat (Z.to_nat a) +:+ " messages ago; later work may be missing from it.")
  else None.

Definition memory_parts (sm : Memory.SessionMemory) (count : nat) : list string :=
  let memory := Memory.content sm in
  if is_empty memory then []
  else ("# Session Memory" +:+ gap +:+ memory) ::
       match summary_freshness_note (Memory.messages_since_update (Z.of_nat count) sm) with
       | Some note => [note] | None => [] end.

(** The signs are a warning triangle and a crossed circle. *)
Definition warning_text (w : Warning) : string :=
  match w with
  | WarnDegraded tool rate n =>
      string_of (utf8 [226; 154; 160; 239; 184; 143]%nat) +:+ " Tool '" +:+ tool +:+
      "' is degraded (failure rate: " +:+ format_percent rate +:+ "%, " +:+ show_nat (Z.to_nat n) +:+
      " consecutive failures). Consider using an alternative."
  | WarnDisabled tool failure =>
      string_of (utf8 [240; 159; 154; 171]%nat) +:+ " Tool '" +:+ tool +:+
      "' is temporarily disabled due to repeated failures. Last failures: " +:+ failure
  end.

Definition health_part (ws : list string) : list string :=
  match ws with
  | [] => []
  | _ => ["# Tool Health Warnings" +:+ gap +:+ String.concat nl ws +:+ gap +:+
          "These tools have been failing; prefer alternatives or use extra care with their inputs."]
  end.

(** Asking for the warnings may recover tools, hence the tracker. *)
Definition build_dynamic_reminder (now : Z) (c : RequestConfig) : option string * ToolHealthTracker :=
  let '(warnings, health) := get_warnings now (tool_health c) in
  let git := match git_info c with
             | Some g => match git_parts g with
                         | [] => []
                         | ps => ["# Git Status" +:+ gap +:+ String.concat nl ps]
                         end
             | None => []
             end in
  let memory := match config_memory c with
                | Some sm => memory_parts sm (length (recent_messages_for_rules c))
                | None => []
                end in
  match (git ++ memory ++ health_part (warning_text <$> warnings))%list with
  | [] => (None, health)
  | parts => (Some ("<system-reminder>" +:+ nl +:+ String.concat gap parts +:+ nl +:+ "</system-reminder>"), health)
  end.

(** The reminder, put behind a message's own content. *)
Definition with_reminder (reminder : string) (v : Value) : Value :=
  match json_get v "content" with
  | Some c =>
      json_set v "content"
        match as_str c with
        | Some s => json_string (s +:+ gap +:+ reminder)
        | None =>
            match as_array c with
            | Some arr => json_array (arr ++ [json_object [("type", json_string "text"); ("text", json_string reminder)]])
            | None => json_string (default "" (to_json_string c) +:+ gap +:+ reminder)
            end
        end
  | None => v
  end.

Definition inject_reminder (reminder : option string) (msgs : list Value) : list Value :=
  match reminder, last msgs with
  | Some r, Some v => if is_user_text_turn v then removelast msgs ++ [with_reminder r v] else msgs
  | _, _ => msgs
  end.

(** *** The tool list *)

Inductive Group := Frozen | Activated | Stub.

#[export] Instance Group_eq : EqDecision Group.
Proof. solve_decision. Defined.

Definition rank (g : Group) : Z := match g with Frozen => 0 | Activated => 1 | Stub => 2 end.

Definition group_of (expanded : gset string) (t : ToolSpec) : Group :=
  if negb (is_deferred t) then Frozen
  else if bool_decide (tool_name t ∈ expanded) then Activated else Stub.

Definition tool_entry (g : Group) (t : ToolSpec) : Value :=
  match g with
  | Stub => json_object [("name", json_string (tool_name t)); ("description", json_string (short_description t));
                         ("input_schema", json_object [("type", json_string "object"); ("properties", json_object [])])]
  | _ => json_object [("name", json_string (tool_name t)); ("description", json_string (tool_prompt t));
                      ("input_schema", input_schema t)]
  end.

Definition entry_name (e : Group * Value) : string := default "" (str_field (e.2) "name").

(** The comparison is not [Greater]. *)
Definition entry_le (a b : Group * Value) : bool :=
  (Z.ltb (rank (a.1)) (rank (b.1)) || (Z.eqb (rank (a.1)) (rank (b.1)) && str_leb (entry_name a) (entry_name b)))%bool.

Definition tool_entries (expanded : gset string) (tools : list ToolSpec) : list (Group * Value) :=
  sort_by entry_le ((fun t => (group_of expanded t, tool_entry (group_of expanded t) t)) <$> tools).

(** [rposition(f) + 1]. *)
Fixpoint last_index {A} (f : A -> bool) (l : list A) : option nat :=
  match l with
  | [] => None
  | x :: l' => match last_index f l' with
               | Some i => Some (S i)
               | None => if f x then Some 1%nat else None
               end
  end.

Definition is_frozen (e : Group * Value) : bool := bool_decide (e.1 = Frozen).

(** [Map::insert]. *)
Definition insert_field (k : string) (x v : Value) : Value :=
  match as_object v with
  | Some fs => json_object (if is_some (assoc fs k) then assoc_set fs k x else fs ++ [(k, x)])
  | None => v
  end.

Definition cache_mark : Value := json_object [("type", json_string "ephemeral")].

Definition build_tools_list_with (tools : list ToolSpec) (expanded : gset string) : option (list Value) :=
  match tools with
  | [] => None
  | _ =>
      let entries := tool_entries expanded tools in
      let l := entries.*2 in
      Some match last_index is_frozen entries with
           | Some n => alter (insert_field "cache_control" cache_mark) (n - 1)%nat l
           | None => l
           end
  end.

Definition build_tools_list (c : RequestConfig) : option (list Value) :=
  build_tools_list_with (config_tools c) (expanded_tools c).

(** *** The system prompt *)

Definition system_parts (c : RequestConfig) : list string :=
  [match custom_system_prompt c with Some p => p | None => "You are a helpful AI coding assistant." end;
   "Current working directory: " +:+ config_cwd c +:+ gap +:+
   "When the user asks to display or show a file's content, output the full content directly in your response. Do not summarize or describe the file " +:+
   string_of (utf8 [226; 128; 148]%nat) +:+ " show the actual text."] ++
  (match project_instructions c with
   | Some i => ["# Project Instructions (from BAOCLAW.md)" +:+ gap +:+ i] | None => [] end) ++
  (match filter_cached_rules (cached_rules_raw c) (extract_recent_file_paths (recent_messages_for_rules c) 10) with
   | [] => []
   | rules => ["# Project Rules (from .baoclaw/rules/)" +:+ gap +:+ String.concat gap rules]
   end) ++
  (match append_system_prompt c with Some a => [a] | None => [] end).

Definition build_system_prompt (c : RequestConfig) : option (list Value) :=
  Some [json_object [("type", json_string "text"); ("text", json_string (String.concat gap (system_parts c)));
                     ("cache_control", cache_mark)]].

Definition thinking_value (t : ThinkingConfig) : option Value :=
  match t with
  | ThinkingDisabled => None
  | ThinkingAdaptive => Some (json_object [("type", json_string "enabled"); ("budget_tokens", json_int 10240)])
  | ThinkingEnabled n => Some (json_object [("type", json_string "enabled"); ("budget_tokens", json_int n)])
  end.

(** *** [build_api_request] *)

Definition api_messages (h : list Message) : list Value := omap api_message (validate_and_fix_tool_messages h).

Definition build_api_request (now : Z) (h : list Message) (c : RequestConfig) :
    CreateMessageRequest * ToolHealthTracker :=
  let '(reminder, health) := build_dynamic_reminder now c in
  (mkCreate (config_model c) (inject_reminder reminder (api_messages h)) (build_system_prompt c)
            (build_tools_list c) (config_max_tokens c) true (thinking_value (thinking_config c)), health).

(** [call_api_with_fallback] asks with the model of the moment and the history
    as it is. *)
Definition current_config (model : string) (h : list Message) (c : RequestConfig) : RequestConfig :=
  mkConfig model (config_tools c) (expanded_tools c) (config_cwd c) (custom_system_prompt c)
    (append_system_prompt c) (project_instructions c) (git_info c) (thinking_config c) (config_memory c) h
    (cached_rules_raw c) (tool_health c) (config_max_tokens c).

Definition call_request (now : Z) (model : string) (h : list Message) (c : RequestConfig) : CreateMessageRequest :=
  (build_api_request now h (current_config model h c)).1.
End Request.

(** ** The tool list *)

#[local] Open Scope list_scope.

Section Tools.
Context `{J : Json} {JL : JsonLaws}.

Lemma last_index_app {A} (f : A -> bool) l1 l2 :
  Forall (fun x => f x = true) l1 -> Forall (fun x => f x = false) l2 ->
  last_index f (l1 ++ l2) = match l1 with [] => None | _ => Some (length l1) end.
Proof.
  intros H1 H2. assert (Hn : last_index f l2 = None).
  { induction H2 as [|x l2 Hx _ IH]; [done|]. simpl. by rewrite IH, Hx. }
  induction H1 as [|x l1 Hx _ IH]; [done|]. simpl. rewrite IH. destruct l1; [by rewrite Hx|done].
Qed.

Lemma entry_le_total a b : entry_le a b = false -> entry_le b a = true.
Proof.
  unfold entry_le. rewrite !orb_true_iff, orb_false_iff, andb_true_iff, andb_false_iff.
  rewrite !Z.ltb_lt, !Z.ltb_ge, !Z.eqb_eq, Z.eqb_neq. intros [Hr [Hn|Hs]]; [lia|].
  apply str_leb_total in Hs. destruct (Z.eq_dec (rank (a.1)) (rank (b.1))) as [He|He]; [right; by rewrite He|lia].
Qed.

Lemma entry_le_trans a b c : entry_le a b = true -> entry_le b c = true -> entry_le a c = true.
Proof.
  unfold entry_le. rewrite !orb_true_iff, !andb_true_iff, !Z.ltb_lt, !Z.eqb_eq.
  intros [?|[? Ha]] [?|[? Hb]]; [left; lia..|]. right. split; [congruence|]. by eapply str_leb_trans.
Qed.

Lemma rank_inj g g' : rank g = rank g' -> g = g'.
Proof. by destruct g, g'. Qed.

Definition frozen (t : ToolSpec) : bool := negb (is_deferred t).

Definition entry_of (expanded : gset string) (t : ToolSpec) : Group * Value :=
  (group_of expanded t, tool_entry (group_of expanded t) t).

Lemma entry_name_of expanded t : entry_name (entry_of expanded t) = tool_name t.
Proof.
  unfold entry_name, entry_of, str_field. simpl.
  assert (Hd : NoDup ["name"; "description"; "input_schema"]) by (by apply (bool_decide_unpack _)).
  destruct (group_of expanded t); simpl; rewrite json_get_object by exact Hd; simpl; by rewrite as_str_string.
Qed.

Lemma frozen_entry expanded t : is_frozen (entry_of expanded t) = frozen t.
Proof.
  unfold is_frozen, entry_of, group_of, frozen. simpl. destruct (is_deferred t); simpl; [|done].
  by destruct (bool_decide (tool_name t ∈ expanded)).
Qed.

(** The entries that do not depend on what is activated. *)
Definition frozen_entries (tools : list ToolSpec) : list (Group * Value) :=
  sort_by entry_le ((fun t => (Frozen, tool_entry Frozen t)) <$> retain frozen tools).

Lemma tool_entries_split expanded tools :
  exists rest, tool_entries expanded tools = frozen_entries tools ++ rest /\
               Forall (fun e => is_frozen e = false) rest.
Proof.
  unfold tool_entries. rewrite (sort_by_groups entry_le is_frozen).
  - eexists. split.
    + f_equal. unfold frozen_entries. f_equal. change (fun t => (group_of expanded t, _)) with (entry_of expanded).
      rewrite retain_fmap, (retain_ext _ frozen) by apply frozen_entry.
      apply list_fmap_ext_retain. intros t Ht. unfold entry_of, group_of. unfold frozen in Ht. by rewrite Ht.
    + apply Forall_forall. intros e He%elem_of_sort_by%elem_of_retain. apply negb_true_iff, He.
  - unfold is_frozen, entry_le. intros [g v] [g' v'] Hg%bool_decide_eq_true_1 Hg'%bool_decide_eq_false_1.
    simpl in *. subst g. by destruct g'.
Qed.

Lemma frozen_all tools : Forall (fun e => is_frozen e = true) (frozen_entries tools).
Proof.
  apply Forall_forall. intros e He%elem_of_sort_by. by apply list_elem_of_fmap in He as (t & -> & _).
Qed.

Lemma frozen_length tools : length (frozen_entries tools) = length (retain frozen tools).
Proof. unfold frozen_entries. by rewrite length_sort_by, length_fmap. Qed.

Lemma build_some tools expanded l :
  build_tools_list_with tools expanded = Some l <->
  tools <> [] /\
  match last_index is_frozen (tool_entries expanded tools) with
  | Some n => alter (insert_field "cache_control" cache_mark) (n - 1)%nat (tool_entries expanded tools).*2
  | None => (tool_entries expanded tools).*2
  end = l.
Proof. unfold build_tools_list_with. destruct tools; [naive_solver|]. split; [by intros [= <-]|by intros [_ <-]]. Qed.

(** Activating deferred tools during a query never changes the cached
    prefix of the tool list: up to the breakpoint, which sits on the last tool
    that is not deferred and nowhere else, the list is the same whatever has
    been activated; and with names of their own the tools come out in the same
    order whatever order the registry hands them over in. *)
Theorem tools_prefix_stable (tools tools' : list ToolSpec) (expanded expanded' : gset string) (l l' : list Value) :
  build_tools_list_with tools expanded = Some l -> build_tools_list_with tools expanded' = Some l' ->
  let n := length (retain frozen tools) in
  take n l = take n l' /\ length l = length l' /\
  (exists rest, l = alter (insert_field "cache_control" cache_mark) (n - 1)%nat (frozen_entries tools).*2 ++ rest.*2 /\
                Forall (fun e => is_frozen e = false) rest) /\
  (NoDup (tool_name <$> tools) -> tools ≡ₚ tools' -> build_tools_list_with tools' expanded = Some l).
Proof.
  intros Hl Hl' n.
  assert (Hlist : forall ex r, build_tools_list_with tools ex = Some r ->
     exists rest, r = alter (insert_field "cache_control" cache_mark) (n - 1)%nat (frozen_entries tools).*2 ++ rest.*2 /\
                  Forall (fun e => is_frozen e = false) rest).
  { intros ex r [_ <-]%build_some. destruct (tool_entries_split ex tools) as (rest & -> & Hrest). exists rest. split; [|done].
    rewrite (last_index_app _ _ _ (frozen_all tools) Hrest), fmap_app. pose proof (frozen_length tools) as Hn. fold n in Hn.
    destruct (frozen_entries tools) as [|e es] eqn:He; [done|]. rewrite Hn.
    apply alter_app_l. rewrite length_fmap, Hn. simpl in Hn. lia. }
  destruct (Hlist _ _ Hl) as (rest & Hr & Hrest), (Hlist _ _ Hl') as (rest' & Hr' & _).
  assert (Hlen : length (alter (insert_field "cache_control" cache_mark) (n - 1)%nat (frozen_entries tools).*2) = n)
    by (by rewrite length_alter, length_fmap, frozen_length).
  split_and!.
  - rewrite Hr, Hr'. by rewrite !take_app_le by (rewrite Hlen; lia).
  - assert (Hall : forall ex r, build_tools_list_with tools ex = Some r -> length r = length tools).
    { intros ex r [_ <-]%build_some. destruct (last_index _ _); rewrite ?length_alter, length_fmap; unfold tool_entries; by rewrite length_sort_by, length_fmap. }
    by rewrite (Hall _ _ Hl), (Hall _ _ Hl').
  - by exists rest.
  - intros Hnd Hp. apply build_some in Hl as [Hne Hl]. apply build_some.
    assert (He : tool_entries expanded tools' = tool_entries expanded tools).
    { symmetry. apply sort_by_unique_on; [apply entry_le_total|apply entry_le_trans| |by rewrite Hp].
      intros a b Ha Hb. apply list_elem_of_fmap in Ha as (t & -> & Ht), Hb as (u & -> & Hu).
      change (entry_le (entry_of expanded t) (entry_of expanded u) = true ->
              entry_le (entry_of expanded u) (entry_of expanded t) = true -> entry_of expanded t = entry_of expanded u).
      unfold entry_le. rewrite !entry_name_of, !orb_true_iff, !andb_true_iff, !Z.ltb_lt, !Z.eqb_eq.
      intros [?|[? Hs1]] [?|[? Hs2]]; try lia. rewrite (NoDup_key_inj tool_name tools t u Hnd Ht Hu); [done|].
      by apply str_leb_antisym. }
    rewrite He. split; [|done]. intros ->. by apply Permutation_nil_r in Hp.
Qed.
End Tools.

(** ** The messages of a request *)

Section Sent.
Context `{J : Json} {JL : JsonLaws} `{G : Globs} `{Clk : Clock} `{HO : HashOrder}.
Context (format_percent : f64 -> string).

(** The tool uses and the tool results in a message as it is sent. *)
Definition use_id (b : Value) : option string :=
  if bool_decide (str_field b "type" = Some "tool_use") then str_field b "id" else None.

Definition content_blocks (v : Value) : list Value := default [] (json_get v "content" ≫= as_array).

Definition has_role (role : string) (v : Value) : bool := bool_decide (str_field v "role" = Some role).

Definition sent_uses (v : Value) : list string :=
  if has_role "assistant" v then omap use_id (content_blocks v) else [].
Definition sent_results (v : Value) : list string :=
  if has_role "user" v then omap result_id (content_blocks v) else [].

(** Every message answers exactly the tool uses of the one before it. *)
Fixpoint sent_scan (pending : list string) (l : list Value) : option (list string) :=
  match l with
  | [] => Some pending
  | v :: rest => if bool_decide (sent_results v = pending) then sent_scan (sent_uses v) rest else None
  end.

(** The roles of the messages are those of their kind. *)
Definition roled (m : Message) : bool :=
  match content m with
  | User u _ _ => String.eqb (user_role u) "user"
  | Assistant a _ _ => String.eqb (assistant_role a) "assistant"
  | _ => true
  end.

Lemma role_content_get role c :
  str_field (role_content role c) "role" = Some role /\ json_get (role_content role c) "content" = Some c.
Proof.
  assert (Hd : NoDup ["role"; "content"]) by (by apply (bool_decide_unpack _)).
  unfold role_content, str_field. rewrite !json_get_object by exact Hd. simpl. by rewrite as_str_string.
Qed.

Lemma use_id_block b : use_id (block_value b) = match b with ToolUse id _ _ => Some id | _ => None end.
Proof.
  unfold use_id, str_field, block_value. destruct b as [t|i n v|t|s|s];
    rewrite !json_get_object by (by apply (bool_decide_unpack _)); simpl; rewrite !as_str_string; done.
Qed.

Lemma omap_use_ids bs : omap use_id (block_value <$> bs) = block_uses bs.
Proof. induction bs as [|b bs IH]; [done|]. unfold block_uses in *. cbn. rewrite use_id_block, IH. by destruct b. Qed.

Lemma api_message_ids m v :
  roled m = true -> api_message m = Some v -> sent_uses v = uses_of m /\ sent_results v = results_of m.
Proof.
  unfold roled, api_message, uses_of, results_of, sent_uses, sent_results, has_role, content_blocks.
  destruct (content m) as [u meta tr|a cost d|sub t|p pd]; [| |done..].
  - intros Hr%String.eqb_eq. destruct (empty_content _); [done|]. intros [= <-].
    destruct (role_content_get (user_role u) (user_content u)) as [-> ->]. rewrite Hr. simpl.
    unfold extract_tool_result_ids. by destruct (as_array (user_content u)).
  - intros Hr%String.eqb_eq. destruct (existsb _ _); [|done]. intros [= <-].
    destruct (role_content_get (assistant_role a) (json_array (block_value <$> blocks a))) as [-> ->].
    rewrite Hr. simpl. rewrite as_array_array. simpl. by rewrite omap_use_ids.
Qed.

(** What is not sent carries neither. *)
Lemma api_message_none m : api_message m = None -> uses_of m = [] /\ results_of m = [].
Proof.
  unfold api_message, uses_of, results_of. destruct (content m) as [u meta tr|a cost d|sub t|p pd]; [| |done..].
  - destruct (empty_content (user_content u)) eqn:He; [|done]. intros _. split; [done|].
    unfold extract_tool_result_ids. destruct (as_array (user_content u)) as [arr|] eqn:Ha; [|done].
    unfold empty_content in He. rewrite Ha in He. destruct (as_str (user_content u)) eqn:Hs.
    + rewrite <- (array_eta _ _ Ha) in Hs. by rewrite as_str_array in Hs.
    + by destruct arr.
  - destruct (existsb has_content (blocks a)) eqn:He; [done|]. intros _. split; [|done].
    unfold block_uses. apply not_true_iff_false in He. rewrite existsb_elem in He.
    induction (blocks a) as [|b bs IH]; [done|]. cbn. rewrite IH by (intros (x & ? & ?); apply He; exists x; set_solver).
    destruct b as [t|i n w|t|s|s]; try done. exfalso. apply He. exists (ToolUse i n w). split; [by left|done].
Qed.

Lemma scan_totals p h q : scan p h = Some q -> p ++ (h ≫= uses_of) = (h ≫= results_of) ++ q.
Proof.
  revert p. induction h as [|m h IH]; intros p; cbn [scan]; [intros [= ->]; by rewrite app_nil_r|].
  case_bool_decide as Hr; [|done]. destruct (_ || _)%bool; [|done]. intros Hs%IH.
  by rewrite !bind_cons, Hs, <- app_assoc, Hr.
Qed.

Lemma sent_scan_ok p h q :
  scan p h = Some q -> Forall (fun m => roled m = true) h ->
  sent_scan p (omap api_message h) = Some q /\ (omap api_message h ≫= sent_uses) = h ≫= uses_of.
Proof.
  revert p. induction h as [|m h IH]; intros p; [done|]. cbn [scan omap list_omap].
  case_bool_decide as Hr; [|done]. destruct (_ || _)%bool; [|done]. intros Hs [Hm Hf]%Forall_cons.
  destruct (IH _ Hs Hf) as [IH1 IH2]. cbn [mbind list_bind]. destruct (api_message m) as [v|] eqn:Ha.
  - destruct (api_message_ids m v Hm Ha) as [Hu Hv]. cbn. rewrite Hu, Hv, bool_decide_eq_true_2 by done.
    split; [done|]. by rewrite IH2.
  - destruct (api_message_none m Ha) as [Hu Hv]. rewrite Hu in *. rewrite Hv in Hr. by subst p.
Qed.

Lemma api_retain h : omap api_message (retain (fun m => negb (is_system m)) h) = omap api_message h.
Proof.
  induction h as [|m h IH]; [done|]. cbn [retain List.filter]. rewrite (omap_cons api_message m h).
  destruct (is_system m) eqn:Hs; cbn [negb]; rewrite ?omap_cons, <- IH; [|done].
  unfold is_system in Hs. unfold api_message at 2. by destruct (content m).
Qed.

(** A history that is paired goes through the repair untouched. *)
Lemma api_messages_paired h : paired h -> api_messages h = omap api_message h.
Proof.
  intros Hp%scan_totals. unfold api_messages. rewrite repair_identity; [apply api_retain|].
  intros id. rewrite app_nil_r in Hp. simpl in Hp. by rewrite Hp.
Qed.

(** *** The reminder *)

Lemma reminder_ids r v :
  is_user_text_turn v = true -> sent_uses (with_reminder r v) = sent_uses v /\ sent_results (with_reminder r v) = sent_results v.
Proof.
  unfold is_user_text_turn. case_bool_decide as Hr; [|done]. destruct (json_get v "content") as [c|] eqn:Hc; [|done].
  intros Ht. unfold sent_uses, sent_results, has_role, content_blocks, with_reminder. rewrite Hc.
  set (x := match as_str c with Some _ => _ | None => _ end).
  assert (Hk : is_some (json_get v "content") = true) by (by rewrite Hc).
  assert (Hrole : str_field (json_set v "content" x) "role" = Some "user").
  { unfold str_field in *. rewrite json_get_set by exact Hk. exact Hr. }
  rewrite Hrole, Hr, (json_get_set v "content" x "content" Hk), Hc. simpl. split; [done|].
  assert (Hd : NoDup ["type"; "text"]) by (by apply (bool_decide_unpack _)).
  subst x. destruct (as_str c) as [s|] eqn:Hs.
  - rewrite as_array_string. destruct (as_array c) as [arr|] eqn:Ha; [|done].
    rewrite <- (array_eta _ _ Ha) in Hs. by rewrite as_str_array in Hs.
  - destruct (as_array c) as [arr|]; [|done]. rewrite as_array_array. simpl.
    rewrite omap_app, omap_cons. unfold result_id at 2, is_tool_result, str_field. rewrite json_get_object by exact Hd.
    simpl. rewrite as_str_string. simpl. by rewrite app_nil_r.
Qed.

Lemma sent_scan_app p l1 l2 : sent_scan p (l1 ++ l2) = (q ← sent_scan p l1; sent_scan q l2).
Proof. revert p. induction l1 as [|v l1 IH]; intros p; simpl; [done|]. by case_match. Qed.

Lemma inject_ids r l p :
  sent_scan p (inject_reminder r l) = sent_scan p l /\
  (inject_reminder r l ≫= sent_uses) = l ≫= sent_uses /\
  (forall k v, (S k < length l)%nat -> l !! k = Some v -> inject_reminder r l !! k = Some v) /\
  length (inject_reminder r l) = length l.
Proof.
  unfold inject_reminder. destruct r as [r|]; [|done]. destruct (last l) as [v|] eqn:Hl; [|done].
  destruct (is_user_text_turn v) eqn:Ht; [|done]. apply last_Some in Hl as [l' ->]. rewrite removelast_last.
  destruct (reminder_ids r v Ht) as [Hu Hv]. split_and!.
  - rewrite !sent_scan_app. destruct (sent_scan p l') as [q|]; [|done]. simpl. by rewrite Hu, Hv.
  - rewrite !bind_app, !bind_cons. by rewrite Hu.
  - intros k w Hk Hw. rewrite length_app in Hk. simpl in Hk. rewrite lookup_app_l in Hw by lia. by rewrite lookup_app_l by lia.
  - by rewrite !length_app.
Qed.

(** Claim C8. What the loop keeps paired is sent paired: for a paired history
    (the invariant of the query loop) every message of the request answers
    exactly the tool uses of the message before it, the last leaves none open,
    and no tool use is lost, although empty messages and system messages are
    skipped and a reminder is put into the last; all messages but the last are
    the history's own. *)
Theorem request_paired (now : Z) (model : string) (h : list Message) (c : RequestConfig) :
  paired h -> Forall (fun m => roled m = true) h ->
  let msgs := request_messages (call_request format_percent now model h c) in
  sent_scan [] msgs = Some [] /\ (msgs ≫= sent_uses) = h ≫= uses_of /\
  length msgs = length (omap api_message h) /\
  (forall k v, (S k < length msgs)%nat -> omap api_message h !! k = Some v -> msgs !! k = Some v).
Proof.
  intros Hp Hr. unfold call_request, build_api_request.
  destruct (build_dynamic_reminder _ _ _) as [r health]. simpl. rewrite (api_messages_paired h Hp).
  destruct (sent_scan_ok [] h [] Hp Hr) as [H1 H2], (inject_ids r (omap api_message h) []) as (I1 & I2 & I3 & I4).
  split_and!; [by rewrite I1|by rewrite I2|done|]. rewrite I4. exact I3.
Qed.

(** *** The summary of a compaction *)

Lemma system_silent s sub t h : api_messages (stamped s (System sub t) :: h) = api_messages h.
Proof. done. Qed.

Lemma paths_system s sub t n h :
  extract_recent_file_paths (stamped s (System sub t) :: h) n =
  take 50 (dedup ∅ (drop (S (length h) - n - 1) h ≫= message_paths)).
Proof.
  unfold extract_recent_file_paths. cbn [length]. do 2 f_equal.
  destruct (S (length h) - n)%nat as [|k]; [done|]. cbn [drop]. by rewrite Nat.sub_succ, Nat.sub_0_r.
Qed.

(** The summary a compaction makes is never sent: the boundary message
    that holds it is dropped with every other system message, so two
    compactions that agree on what they keep lead to the same request, whatever
    the model answered to the summary request, and the messages of that request
    are those of the kept tail alone. *)
Theorem summary_never_sent (now : Z) (model : string) (s : Stamp) (keep : nat) (r1 r2 : SummaryReply)
    (h h1 h2 : list Message) (c : RequestConfig) :
  compact_messages s keep r1 h = Ok h1 -> compact_messages s keep r2 h = Ok h2 ->
  call_request format_percent now model h1 c = call_request format_percent now model h2 c /\
  ((keep < length h)%nat -> exists old, (1 <= length h1)%nat /\ h1 = take 1 h1 ++ drop old h /\
     api_messages h1 = api_messages (drop old h)).
Proof.
  unfold compact_messages. destruct (Nat.leb_spec (length h) keep) as [Hle|Hgt].
  { intros [= <-] [= <-]. split; [done|lia]. }
  set (old := adjust_compact_split h (length h - keep)).
  destruct (compact_summary r1) as [t1|]; [|done]. destruct (compact_summary r2) as [t2|]; [|done].
  set (x1 := if is_empty (trim t1) then _ else t1). set (x2 := if is_empty (trim t2) then _ else t2).
  clearbody x1 x2. intros [= <-] [= <-]. split.
  - unfold call_request, build_api_request, build_dynamic_reminder, current_config, build_system_prompt, system_parts.
    cbn [config_model config_tools expanded_tools config_cwd custom_system_prompt append_system_prompt
         project_instructions git_info thinking_config config_memory recent_messages_for_rules cached_rules_raw
         tool_health config_max_tokens length].
    by rewrite !paths_system, !system_silent.
  - intros _. exists old. split_and!; [simpl; lia|done|apply system_silent].
Qed.
End Sent.

(** ** Concrete requests *)

Section Demo.
#[local] Existing Instances flat_json flat_json_laws demo_clock canonical_order one_star.

Definition as_percent (rate : f64) : string := "50".

Definition reads (path : string) : Message :=
  stamped demo_stamp (Assistant (mkAssistantMessage "assistant"
    [ToolUse "r" "Read" (FObj [("file_path", FStr path)])] None None) f64_zero 0).

Definition spec (name : string) (deferred : bool) : ToolSpec := mkSpec name ("Full text of " +:+ name) (FObj []) deferred name.

Definition demo_tools : list ToolSpec := [spec "Write" false; spec "Draw" true; spec "Bash" false; spec "Archive" true].

Definition rust_rule : CachedRule := mkCached "rust.md" "No unwrap." (Some "*.rs").

Definition demo_request : RequestConfig :=
  mkConfig "sonnet" demo_tools ∅ "/work" None None None None ThinkingDisabled
    (Some (Memory.mkMemory "Fixing the parser." 2)) [] [rust_rule] new_tracker 4096.

Example rule_file_read :
  parse_rule_file (String.concat nl ["---"; "title: x"; "paths: 'src/*.rs'"; "---"; ""; "No unwrap."]) =
    mkRuleFile "No unwrap." (Some "src/*.rs") /\
  parse_rule_file "  No unwrap. " = mkRuleFile "No unwrap." None /\
  file_name "/src/lib.rs" = Some "lib.rs" /\ file_name "src/./" = Some "src" /\ file_name "a/.." = None.
Proof. vm_compute. repeat split; reflexivity. Qed.

(** Only what follows the frozen tools moves: a tool that is activated goes
    before the stubs, whatever its name. *)
Example activation_moves_entry :
  let names expanded := (fun v => default "" (str_field v "name")) <$>
                        default [] (build_tools_list_with demo_tools expanded) in
  names ∅ = ["Bash"; "Write"; "Archive"; "Draw"] /\ names {["Draw"]} = ["Bash"; "Write"; "Draw"; "Archive"].
Proof. vm_compute. split; reflexivity. Qed.

Lemma tools_prefix_stable_witness :
  take 2 (default [] (build_tools_list_with demo_tools ∅)) =
  take 2 (default [] (build_tools_list_with demo_tools {["Draw"]})) /\
  build_tools_list_with (reverse demo_tools) ∅ = build_tools_list_with demo_tools ∅.
Proof.
  destruct (tools_prefix_stable demo_tools (reverse demo_tools) ∅ {["Draw"]}
              (default [] (build_tools_list_with demo_tools ∅))
              (default [] (build_tools_list_with demo_tools {["Draw"]}))) as (H1 & _ & _ & H2);
    [vm_compute; reflexivity|vm_compute; reflexivity|].
  split; [exact H1|]. rewrite H2; [vm_compute; reflexivity|by apply (bool_decide_unpack _)|].
  symmetry. apply reverse_Permutation.
Defined.

(** The system prompt, whose prefix is cached, follows the files a conversation
    mentions: reading a Rust file brings its rules in, and pushing the mention
    out of the last ten messages takes them away again. *)
Example prompt_follows_history :
  let prompt h := build_system_prompt (current_config "sonnet" h demo_request) in
  prompt [says "hi"] <> prompt [says "hi"; reads "lib.rs"; answers ["r"]] /\
  prompt [says "hi"] = prompt (says "hi" :: reads "lib.rs" :: answers ["r"] :: replicate 9 (says "go on")).
Proof. vm_compute. split; [discriminate|reflexivity]. Qed.

(** Fifty lines of an older listing fill the list of recent paths; the file
    read last is not on it. *)
Example recent_paths_crowded :
  let listing := String.concat nl ((fun k => "src/f" +:+ show_nat k) <$> seq 0 60) in
  let h := [build_tool_result_message demo_stamp [mkExec "a" "Bash" (FStr listing) false]; reads "src/main.rs"] in
  let recent := extract_recent_file_paths h 10 in
  length recent = 50%nat /\ existsb (String.eqb "src/main.rs") recent = false.
Proof. vm_compute. split; reflexivity. Qed.

(** The reminder goes to the user's words, not to tool results. *)
Example reminder_placed :
  let contents h := (fun v => json_get v "content") <$> request_messages (call_request as_percent 0 "sonnet" h demo_request) in
  contents [says "hi"] =
    [Some (FStr (String.concat gap ["hi"; "<system-reminder>" +:+ nl +:+ "# Session Memory"; "Fixing the parser." +:+ nl +:+ "</system-reminder>"]))] /\
  last (contents [says "hi"; asks ["a"]; answers ["a"]]) = last ((fun m => json_get m "content") <$> api_messages [says "hi"; asks ["a"]; answers ["a"]]).
Proof. vm_compute. split; reflexivity. Qed.

Lemma request_paired_witness :
  let msgs := request_messages (call_request as_percent 0 "sonnet" long_history demo_request) in
  sent_scan [] msgs = Some [] /\ (msgs ≫= sent_uses) = replicate 6 "a" /\ length msgs = 14%nat.
Proof.
  destruct (request_paired as_percent 0 "sonnet" long_history demo_request) as (H1 & H2 & H3 & _).
  - vm_compute. reflexivity.
  - apply (bool_decide_unpack _). vm_compute. exact I.
  - split; [exact H1|]. rewrite H2, H3. split; vm_compute; reflexivity.
Defined.

Definition summarised (text : string) : SummaryReply := Ok [Event (ContentBlockDelta (FObj [("text", FStr text)]))].

Definition compacted_with (text : string) : list Message :=
  match compact_messages demo_stamp 8 (summarised text) long_history with Ok h => h | Err _ => [] end.

Definition boundary_text (h : list Message) : string :=
  match head h with Some m => match content m with System _ t => t | _ => "" end | None => "" end.

Lemma summary_never_sent_witness :
  boundary_text (compacted_with "The user asked for a parser.") = "The user asked for a parser." /\
  call_request as_percent 0 "sonnet" (compacted_with "The user asked for a parser.") demo_request =
  call_request as_percent 0 "sonnet" (compacted_with "Nothing.") demo_request.
Proof.
  split; [vm_compute; reflexivity|].
  apply (summary_never_sent as_percent 0 "sonnet" demo_stamp 8 (summarised "The user asked for a parser.")
           (summarised "Nothing.") long_history); reflexivity.
Defined.
End Demo.
