(* ===== verification/Engine.v ===== *)
(** * Engine: the query engine ([engine/query_engine.rs])

    The object a session owns: the history of the conversation, the clean-up of
    a history before and after a query, the compaction before a query, and the
    hand-over of the history to the query loop and back.  The stream of a
    summary request, the tokenizer, the files of the working directory and the
    fragments of the memory store and the evolution engine are arguments.  The
    events to the client and the warm-up started beside a query are left
    out. *)

From stdpp Require Import base gmap strings list relations.
From Stdlib Require Import ZArith Lia.
From S2P Require Import Prelude Text Float64 Json Paths Permissions ToolHealth ToolExec Messages Stream Compact Query QueryProofs Tokens SessionStore Request.

#[local] Open Scope Z_scope.
#[local] Open Scope string_scope.

Module Engine.

(** ** Cleaning a history *)

Section Cleanup.
Context `{J : Json}.

(** Pass 0: results whose tool use is nowhere in the history. *)
Definition drop_orphan_results (h : list Message) : list Message :=
  let '(uses, results) := collect_tool_ids h in
  let orphans := results ∖ uses in
  if bool_decide (orphans = ∅) then h else (strip_orphan_tool_result_blocks orphans h).1.

(** The result that stands for a missing one; the text holds a long dash. *)
Definition missing_text : string :=
  "[Tool execution interrupted " +:+ string_of (Ascii.ascii_of_nat <$> [226; 128; 148]%nat) +:+ " result missing]".

Definition stub_result (id : string) : Value :=
  json_object [("type", json_string "tool_result"); ("tool_use_id", json_string id);
               ("content", json_string missing_text); ("is_error", json_bool true)].

Definition text_block (t : string) : Value := json_object [("type", json_string "text"); ("text", json_string t)].

(** A plain text becomes a list of blocks; what is no list takes no stub. *)
Definition add_stubs (missing : list string) (v : Value) : Value :=
  let v := match as_str v with Some t => json_array [text_block t] | None => v end in
  match as_array v with Some arr => json_array (arr ++ (stub_result <$> missing)) | None => v end.

Definition answer_missing (ids : list string) (m : Message) : Message :=
  match content m with
  | User u _ _ =>
      match retain (fun id => negb (bool_decide (id ∈ extract_tool_result_ids u))) ids with
      | [] => m
      | missing => with_user_content (add_stubs missing (user_content u)) m
      end
  | _ => m
  end.

(** Pass 1: tool uses that the next message does not answer. *)
Fixpoint answer_uses (h : list Message) : list Message :=
  match h with
  | [] => []
  | m :: rest =>
      match uses_of m with
      | [] => m :: answer_uses rest
      | ids =>
          match rest with
          | u :: rest' => if is_user u then m :: answer_missing ids u :: answer_uses rest' else answer_uses rest
          | [] => []
          end
      end
  end.

(** Pass 2, from the last message on. *)
Fixpoint trim_last (l : list Message) : list Message :=
  match l with
  | [] => []
  | m :: rest =>
      match content m with
      | Assistant a _ _ => match block_uses (blocks a) with [] => l | _ => trim_last rest end
      | User _ _ _ => match rest with p :: _ => if is_user p then trim_last rest else l | [] => l end
      | _ => l
      end
  end.

Definition trim_tail (h : list Message) : list Message := rev (trim_last (rev h)).

Definition cleanup_incomplete_tool_calls (h : list Message) : list Message :=
  match h with [] => [] | _ => trim_tail (answer_uses (drop_orphan_results h)) end.
End Cleanup.

(** ** The text of a history, for its summary *)

Section Summary.
Context `{J : Json}.

Definition SUMMARY_BLOCK_CHAR_BUDGET : nat := 400.

(** The first character boundary from [k] on. *)
Fixpoint boundary_from (fuel k : nat) (l : list byte) : nat :=
  match fuel with
  | O => k
  | S fuel => if is_char_boundary k l then k else boundary_from fuel (S k) l
  end.

Definition truncate_with_marker (text : string) (max : nat) : string :=
  if Nat.leb (str_len text) max then text
  else
    let l := bytes_of text in
    let stop := boundary_from (length l) max l in
    string_of (take stop l) +:+ " [..." +:+ show_nat (str_len text - stop) +:+ " chars elided]".

Definition compact_value (max : nat) (v : Value) : string := truncate_with_marker (default "" (to_json_string v)) max.

(** Out of fuel nothing is printed; the size of the value is enough
    ([elide_fuel_enough] of [EngineProofs]). *)
Fixpoint elide_fuel (max fuel : nat) (v : Value) : string :=
  match fuel with
  | O => ""
  | S fuel =>
      match as_str v with
      | Some s => truncate_with_marker s max
      | None =>
          match as_object v with
          | Some fields =>
              match assoc fields "type" ≫= as_str with
              | Some t =>
                  if String.eqb t "tool_result"
                  then match assoc fields "content" with
                       | Some inner => elide_fuel max fuel inner
                       | None => compact_value max v
                       end
                  else if String.eqb t "text"
                  then match assoc fields "text" ≫= as_str with
                       | Some inner => truncate_with_marker inner max
                       | None => compact_value max v
                       end
                  else compact_value max v
              | None => compact_value max v
              end
          | None =>
              match as_array v with
              | Some blocks => String.concat (string_of [LF]) (elide_fuel max fuel <$> blocks)
              | None => compact_value max v
              end
          end
      end
  end.

Definition elide_for_summary (v : Value) (max : nat) : string := elide_fuel max (S (json_size v)) v.

Definition message_text (m : Message) : string :=
  match content m with
  | User u _ _ => "User: " +:+ match as_str (user_content u) with
                               | Some s => s
                               | None => elide_for_summary (user_content u) SUMMARY_BLOCK_CHAR_BUDGET
                               end
  | Assistant a _ _ =>
      "Assistant: " +:+ String.concat " " (omap (fun b => match b with Text t => Some t | _ => None end) (blocks a))
  | System _ t => "System: " +:+ t
  | Progress _ _ => ""
  end.

Definition format_messages_for_summary (h : list Message) : string :=
  String.concat (string_of [LF; LF]) (retain (fun s => negb (is_empty s)) (message_text <$> h)).

Definition MAX_SUMMARY_INPUT : nat := Z.to_nat 60000.

(** The prompt of the summary request. *)
Definition summary_prompt (old : list Message) : string :=
  let raw := format_messages_for_summary old in
  let text := if Nat.ltb MAX_SUMMARY_INPUT (str_len raw)
              then truncate_chars MAX_SUMMARY_INPUT raw +:+ "..." +:+ string_of [LF; LF] +:+
                   "[Conversation truncated, " +:+ show_nat (str_len raw) +:+ " total chars]"
              else raw in
  "Summarize the following conversation history concisely, preserving key context, decisions, and file changes:" +:+
  string_of [LF; LF] +:+ text.

(** The stream of the answer; an abort keeps what there is. *)
Fixpoint summary_stream (text : string) (l : list StreamItem) : result string EngineError :=
  match l with
  | [] | AbortFires :: _ | Event MessageStop :: _ => Ok text
  | Broken e :: _ => Err (mkEngineError "stream_error" e None)
  | Event (ErrorEvent ty m) :: _ => Err (mkEngineError ty m None)
  | Event (ContentBlockDelta d) :: rest => summary_stream (text +:+ default "" (str_field d "text")) rest
  | Event _ :: rest => summary_stream text rest
  end.

Definition call_api_for_summary (r : SummaryReply) : result string EngineError :=
  match r with
  | Err e => Err (mkEngineError "api_error" ("Failed to call API for summary: " +:+ e) None)
  | Ok items =>
      match summary_stream "" items with
      | Err e => Err e
      | Ok text =>
          if is_empty text
          then Err (mkEngineError "empty_summary"
                      "API returned an empty summary. Try /compact again or reduce conversation size." None)
          else Ok text
      end
  end.
End Summary.

(** ** The engine *)

Section Engine.
Context `{J : Json}.
Context (tokenizer : option (string -> nat)).

(** A tool as the executor and the request see it. *)
Definition CatalogTool : Type := Tool * ToolSpec.

Record EngineConfig := mkEngineConfig {
  cwd : string;
  static_tools : list CatalogTool;
  tool_registry : option (list CatalogTool);   (* what a snapshot holds *)
  model : string;
  thinking : ThinkingConfig;
  engine_max_turns : option Z;
  engine_max_budget_usd : option f64;
  engine_max_tokens_budget : option Z;
  engine_max_tokens : Z;
  engine_system_prompt : option string;
  engine_append_prompt : option string;
  session_id : option string;
  fallbacks : list string;
  max_retries : Z;
  engine_memory : option Memory.SessionMemory;
  interactive : bool;                          (* [permission.is_some()] *)
  health : option ToolHealthTracker;
  micro_config : MicroCompactConfig
}.

(** What the spawned loop is given: its configuration, the status of the budget
    before the first turn, and the history it starts from. *)
Record Loop := mkLoop {
  loop_query : QueryConfig;
  loop_request : RequestConfig;
  initial_budget : BudgetStatus * Z;
  loop_failures : Z;
  loop_history : list Message
}.

(** [pending] is the history shared with the loop, together with what the loop
    was started with. *)
Record QueryEngine := mkEngine {
  config : EngineConfig;
  messages : list Message;
  pending_messages : option (Loop * list Message);
  abort_flag : bool;
  total_usage : Usage;
  token_counter : TokenCounter;
  compact_failures : Z;
  cached_project_instructions : option string;
  cached_rules : list CachedRule;
  cached_git_info : option GitInfo
}.

(** What [new] and [refresh_context_cache] read. *)
Record Files := mkFiles { instructions_file : option string; rule_files : list CachedRule; git_state : option GitInfo }.

(** [QueryEngine::new]. *)
Definition new (c : EngineConfig) (context_window : Z) (ratio : f64) (f : Files) : QueryEngine :=
  mkEngine c [] None false EMPTY_USAGE (Tokens.new context_window ratio) 0
    (instructions_file f) (rule_files f) (git_state f).

Definition set_messages (h : list Message) (e : QueryEngine) : QueryEngine :=
  mkEngine (config e) h (pending_messages e) (abort_flag e) (total_usage e) (token_counter e) (compact_failures e)
    (cached_project_instructions e) (cached_rules e) (cached_git_info e).
Definition set_pending (p : option (Loop * list Message)) (e : QueryEngine) : QueryEngine :=
  mkEngine (config e) (messages e) p (abort_flag e) (total_usage e) (token_counter e) (compact_failures e)
    (cached_project_instructions e) (cached_rules e) (cached_git_info e).
Definition set_abort (b : bool) (e : QueryEngine) : QueryEngine :=
  mkEngine (config e) (messages e) (pending_messages e) b (total_usage e) (token_counter e) (compact_failures e)
    (cached_project_instructions e) (cached_rules e) (cached_git_info e).
Definition set_failures (n : Z) (e : QueryEngine) : QueryEngine :=
  mkEngine (config e) (messages e) (pending_messages e) (abort_flag e) (total_usage e) (token_counter e) n
    (cached_project_instructions e) (cached_rules e) (cached_git_info e).
Definition set_config (c : EngineConfig) (e : QueryEngine) : QueryEngine :=
  mkEngine c (messages e) (pending_messages e) (abort_flag e) (total_usage e) (token_counter e) (compact_failures e)
    (cached_project_instructions e) (cached_rules e) (cached_git_info e).

Definition abort (e : QueryEngine) : QueryEngine := set_abort true e.
Definition is_aborted (e : QueryEngine) : bool := abort_flag e.

Definition refresh_context_cache (f : Files) (e : QueryEngine) : QueryEngine :=
  mkEngine (config e) (messages e) (pending_messages e) (abort_flag e) (total_usage e) (token_counter e)
    (compact_failures e) (instructions_file f) (rule_files f) (git_state f).

(** [load_token_baseline], with the baseline that is stored for the session. *)
Definition load_token_baseline (b : option TokenBaseline) (e : QueryEngine) : QueryEngine :=
  match b with
  | Some b => mkEngine (config e) (messages e) (pending_messages e) (abort_flag e) (total_usage e)
                (apply_baseline b (token_counter e)) (compact_failures e) (cached_project_instructions e)
                (cached_rules e) (cached_git_info e)
  | None => e
  end.

Definition with_memory (m : option Memory.SessionMemory) (c : EngineConfig) : EngineConfig :=
  mkEngineConfig (cwd c) (static_tools c) (tool_registry c) (model c) (thinking c) (engine_max_turns c)
    (engine_max_budget_usd c) (engine_max_tokens_budget c) (engine_max_tokens c) (engine_system_prompt c)
    (engine_append_prompt c) (session_id c) (fallbacks c) (max_retries c) m (interactive c) (health c) (micro_config c).

Definition seed_session_memory (summary : string) (e : QueryEngine) : QueryEngine :=
  match engine_memory (config e) with
  | Some m => if is_empty summary then e else set_config (with_memory (Some (Memory.update summary m)) (config e)) e
  | None => e
  end.

Definition update_model (name : string) (e : QueryEngine) : QueryEngine :=
  let c := config e in
  set_config (mkEngineConfig (cwd c) (static_tools c) (tool_registry c) name (thinking c) (engine_max_turns c)
    (engine_max_budget_usd c) (engine_max_tokens_budget c) (engine_max_tokens c) (engine_system_prompt c)
    (engine_append_prompt c) (session_id c) (fallbacks c) (max_retries c) (engine_memory c) (interactive c)
    (health c) (micro_config c)) e.
Definition update_thinking_config (t : ThinkingConfig) (e : QueryEngine) : QueryEngine :=
  let c := config e in
  set_config (mkEngineConfig (cwd c) (static_tools c) (tool_registry c) (model c) t (engine_max_turns c)
    (engine_max_budget_usd c) (engine_max_tokens_budget c) (engine_max_tokens c) (engine_system_prompt c)
    (engine_append_prompt c) (session_id c) (fallbacks c) (max_retries c) (engine_memory c) (interactive c)
    (health c) (micro_config c)) e.
Definition update_cwd (dir : string) (e : QueryEngine) : QueryEngine :=
  let c := config e in
  set_config (mkEngineConfig dir (static_tools c) (tool_registry c) (model c) (thinking c) (engine_max_turns c)
    (engine_max_budget_usd c) (engine_max_tokens_budget c) (engine_max_tokens c) (engine_system_prompt c)
    (engine_append_prompt c) (session_id c) (fallbacks c) (max_retries c) (engine_memory c) (interactive c)
    (health c) (micro_config c)) e.
Definition update_session_id (id : string) (e : QueryEngine) : QueryEngine :=
  let c := config e in
  set_config (mkEngineConfig (cwd c) (static_tools c) (tool_registry c) (model c) (thinking c) (engine_max_turns c)
    (engine_max_budget_usd c) (engine_max_tokens_budget c) (engine_max_tokens c) (engine_system_prompt c)
    (engine_append_prompt c) (Some id) (fallbacks c) (max_retries c) (engine_memory c) (interactive c)
    (health c) (micro_config c)) e.

(** [sync_messages]: the history comes back from the loop. *)
Definition sync_messages (e : QueryEngine) : QueryEngine :=
  let e := match pending_messages e with
           | Some (_, h) => set_pending None (set_messages h e)
           | None => e
           end in
  set_messages (cleanup_incomplete_tool_calls (messages e)) e.

(** ** Compacting before a query *)

Record CompactResult := mkCompacted {
  tokens_saved : Z; summary_tokens : Z; compact_before : Z; compact_after : Z
}.

Definition KEEP_RECENT : nat := 4.

Definition estimate_tokens_str (s : string) : Z := Z.of_nat (str_len s) / 4.

(** [compact] never fails: without a summary it puts a note in its place. *)
Definition compact (s : Stamp) (reply : SummaryReply) (e : QueryEngine) : result CompactResult EngineError * QueryEngine :=
  let h := messages e in
  let before := estimate_tokens h in
  if Nat.leb (length h) KEEP_RECENT then (Ok (mkCompacted 0 0 before before), e)
  else
    let split := adjust_compact_split h (length h - KEEP_RECENT) in
    let old := take split h in
    let summary := match call_api_for_summary reply with
                   | Ok text => text
                   | Err _ => "[Previous conversation (" +:+ show_nat (length old) +:+
                              " messages) was truncated due to context limits]"
                   end in
    let e := set_messages (stamped s (System CompactBoundary summary) :: drop split h) e in
    (Ok (mkCompacted (sat_sub64 (estimate_tokens old) (estimate_tokens_str summary)) (estimate_tokens_str summary)
           before (estimate_tokens (messages e))), e).

Definition TAIL : nat := 100.
Definition MAX_API_COMPACT : nat := Z.to_nat 500.

(** The last resort: only the newest messages stay. *)
Definition trim_to_tail (h : list Message) : list Message := drop (length h - TAIL) h.

(** A long history is not summarised by the model: the session memory takes the
    place of its older part, or the older part is dropped. *)
Definition shrink_long (s : Stamp) (m : option Memory.SessionMemory) (h : list Message) : list Message :=
  match m with
  | Some m =>
      if Memory.is_available m then
        let '(h', ok) := session_memory_compact s (Memory.content m) h in if ok then h' else h
      else trim_to_tail h
  | None => trim_to_tail h
  end.

Definition pre_query_compact (s : Stamp) (reply : SummaryReply) (e : QueryEngine) : QueryEngine :=
  if Nat.leb (length (messages e)) MAX_API_COMPACT then
    let '(r, e) := compact s reply e in
    match r with
    | Ok _ => set_failures 0 e
    | Err _ => set_failures (compact_failures e + 1) e
    end
  else set_messages (shrink_long s (engine_memory (config e)) (messages e)) e.

(** ** Submitting a prompt *)

(** What a submission brings, and what the outside contributes to it. *)
Record Submission := mkSubmission {
  prompt : string;
  attachments : option (list Value);
  prompt_stamp : Stamp;
  boundary_stamp : Stamp;
  summary_reply : SummaryReply;
  memory_fragment : option string;       (* of the memory store, when there is one *)
  evolution_fragment : option string;    (* of the evolution engine, when there is one *)
  fresh_tracker : ToolHealthTracker
}.

Definition prompt_content (x : Submission) : Value :=
  match attachments x with
  | Some (a :: att) =>
      json_array ((a :: att) ++ if is_empty (prompt x) then [] else [text_block (prompt x)])
  | _ => json_string (prompt x)
  end.

Definition user_message (x : Submission) : Message :=
  stamped (prompt_stamp x) (User (mkUserMessage "user" (prompt_content x)) false None).

Definition append_fragment (base frag : option string) : option string :=
  match frag, base with
  | None, _ => base
  | Some f, Some b => Some (b +:+ string_of [LF; LF] +:+ f)
  | Some f, None => Some f
  end.

(** The evolution engine is asked by interactive engines only. *)
Definition appended_prompt (x : Submission) (c : EngineConfig) : option string :=
  append_fragment (append_fragment (engine_append_prompt c) (memory_fragment x))
    (if interactive c then evolution_fragment x else None).

Definition loop_of (x : Submission) (budget : BudgetStatus * Z) (e : QueryEngine) : Loop :=
  let c := config e in
  let catalog := default (static_tools c) (tool_registry c) in
  mkLoop
    (Query.mkConfig (model c) (fallbacks c) (max_retries c) (engine_max_turns c) (engine_max_budget_usd c)
       (engine_max_tokens_budget c) (micro_config c) catalog.*1 (interactive c))
    (Request.mkConfig (model c) catalog.*2 ∅ (cwd c) (engine_system_prompt c) (appended_prompt x c)
       (cached_project_instructions e) (cached_git_info e) (thinking c) (engine_memory c) (messages e) (cached_rules e)
       (default (fresh_tracker x) (health c)) (engine_max_tokens c))
    budget (compact_failures e) (messages e).

(** [submit_message_with_attachments], up to the start of the loop. *)
Definition submit (x : Submission) (e : QueryEngine) : QueryEngine :=
  let e := set_abort false e in
  let h := (cleanup_incomplete_tool_calls (messages e) ++ [user_message x])%list in
  let e := set_messages h e in
  let est := estimate tokenizer h (token_counter e) in
  let budget := (budget_status_given est (token_counter e), est) in
  let e := if (should_compact_given est (token_counter e) && Nat.ltb 5 (length h))%bool
           then pre_query_compact (boundary_stamp x) (summary_reply x) e else e in
  let l := loop_of x budget e in
  set_pending (Some (l, loop_history l)) e.

(** The history the loop leaves, under the lock it holds while it runs. *)
Definition loop_done (h : list Message) (e : QueryEngine) : QueryEngine :=
  match pending_messages e with
  | Some (l, _) => set_pending (Some (l, h)) e
  | None => e
  end.

(** The query the loop starts from. *)
Definition first_query (l : Loop) (w : World) : Query :=
  new_query (loop_query l) (loop_history l) (loop_failures l) new_adaptive w.
End Engine.
End Engine.
