(* ===== verification/EngineProofs.v ===== *)
(** * EngineProofs: what the query engine promises

    The clean-up of a history, on any history and on one the query loop left;
    and the conversation as a whole: over every sequence of the engine's
    operations, what a query starts from is paired. *)

From stdpp Require Import base gmap strings list relations.
From Stdlib Require Import ZArith Lia.
From S2P Require Import Prelude Text Float64 Json Paths Permissions ToolHealth ToolExec ToolExecProofs Messages Stream Compact Query QueryProofs Tokens SessionStore Request Engine.

Import Engine.

#[local] Open Scope Z_scope.

Section Cleanup.
Context `{JL : JsonLaws}.

(** ** Any history *)

(** Every message with tool uses is followed by a user message that answers
    each of them. *)
Inductive answered : list Message -> Prop :=
| answered_nil : answered []
| answered_quiet m h : uses_of m = [] -> answered h -> answered (m :: h)
| answered_pair m u h :
    is_user u = true -> (forall id, id ∈ uses_of m -> id ∈ results_of u) -> answered (u :: h) -> answered (m :: u :: h).

(** The content of a user message is a text or a list of blocks. *)
Definition plain (m : Message) : Prop :=
  match content m with
  | User u _ _ => is_Some (as_str (user_content u)) \/ is_Some (as_array (user_content u))
  | _ => True
  end.

Lemma stub_result_id id : result_id (stub_result id) = Some id.
Proof. apply result_block_id; [repeat constructor; set_solver|done|done]. Qed.

Lemma text_block_id t : result_id (text_block t) = None.
Proof.
  unfold result_id, is_tool_result, str_field, text_block. rewrite json_get_object by (repeat constructor; set_solver).
  simpl. rewrite as_str_string. by rewrite bool_decide_eq_false_2.
Qed.

Lemma add_stubs_results missing (u : ApiUserMessage) :
  is_Some (as_str (user_content u)) \/ is_Some (as_array (user_content u)) ->
  extract_tool_result_ids (mkUserMessage (user_role u) (add_stubs missing (user_content u))) =
  (extract_tool_result_ids u ++ missing)%list.
Proof.
  intros Hp. unfold extract_tool_result_ids, add_stubs. cbn [user_content].
  destruct (as_str (user_content u)) as [t|] eqn:Ht.
  - rewrite as_array_array. cbn [app]. rewrite as_array_array.
    change (omap result_id (text_block t :: ?l)) with
      (match result_id (text_block t) with Some i => i :: omap result_id l | None => omap result_id l end).
    rewrite text_block_id, block_id by (intros; apply stub_result_id).
    destruct (as_array (user_content u)) as [arr|] eqn:Ha; [|done].
    apply array_eta in Ha. rewrite <- Ha, as_str_array in Ht. done.
  - destruct Hp as [[? [=]]|[arr Ha]]. rewrite Ha, as_array_array, omap_app.
    by rewrite block_id by (intros; apply stub_result_id).
Qed.

Lemma answer_missing_spec ids m :
  is_user m = true -> plain m ->
  is_user (answer_missing ids m) = true /\
  results_of (answer_missing ids m) =
    (results_of m ++ retain (fun id => negb (bool_decide (id ∈ results_of m))) ids)%list.
Proof.
  unfold is_user, plain, answer_missing, results_of. destruct (content m) as [u meta tr| | |] eqn:Hc; try done.
  intros _ Hp. destruct (retain _ ids) as [|id missing] eqn:Hm.
  - by rewrite Hc, app_nil_r.
  - unfold with_user_content. rewrite Hc. cbn [content]. split; [done|]. by apply add_stubs_results.
Qed.

Lemma answer_missing_all ids m :
  is_user m = true -> plain m -> forall id, id ∈ ids -> id ∈ results_of (answer_missing ids m).
Proof.
  intros Hu Hp id Hid. destruct (answer_missing_spec ids m Hu Hp) as [_ ->]. rewrite elem_of_app, elem_of_retain.
  destruct (decide (id ∈ results_of m)) as [|Hn]; [by left|right]. split; [done|]. by rewrite bool_decide_eq_false_2.
Qed.

Lemma answer_uses_answered h : Forall plain h -> answered (answer_uses h).
Proof.
  remember (length h) as n eqn:Hn. revert h Hn. induction (lt_wf n) as [n _ IH]. intros h -> Hp.
  destruct h as [|m rest]; [constructor|]. apply Forall_cons in Hp as [Hm Hp]. cbn [answer_uses].
  destruct (uses_of m) as [|id ids] eqn:Hu.
  { constructor; [done|]. by apply (IH (length rest)); [simpl; lia|..]. }
  destruct rest as [|u rest]; [constructor|]. destruct (is_user u) eqn:Huu.
  2:{ by apply (IH (length (u :: rest))); [simpl; lia|..]. }
  apply Forall_cons in Hp as [Hpu Hp]. destruct (answer_missing_spec (id :: ids) u Huu Hpu) as [Hus _].
  apply answered_pair; [done| |].
  - rewrite Hu. by apply answer_missing_all.
  - constructor; [by apply user_no_uses|]. by apply (IH (length rest)); [simpl; lia|..].
Qed.

Lemma strip_plain orphans h : Forall plain h -> Forall plain (strip_orphan_tool_result_blocks orphans h).1.
Proof.
  induction 1 as [|m h Hm _ IH]; [constructor|]. cbn [strip_orphan_tool_result_blocks].
  destruct (strip_orphan_tool_result_blocks orphans h) as [rest n]. simpl in IH.
  destruct (content m) as [u meta tr| | |] eqn:Hc; try (by apply Forall_cons).
  destruct (as_array (user_content u)) as [arr|]; [|by apply Forall_cons].
  destruct (retain _ arr) as [|b kept]; [done|]. apply Forall_cons. split; [|done].
  unfold plain, with_user_content. rewrite Hc. simpl. right. rewrite as_array_array. by eexists.
Qed.

Lemma answered_last h m : answered (h ++ [m]) -> uses_of m = [].
Proof.
  remember (h ++ [m]) as l eqn:Hl. intros Ha. revert h Hl. induction Ha as [|m' l Hu _ IH|m' u l _ _ _ IH]; intros h Hl.
  - by destruct h.
  - destruct h as [|x h]; simplify_eq/=; [done|by eapply IH].
  - destruct h as [|x h]; simplify_eq/=. by eapply IH.
Qed.

(** Without its last message, when nothing relies on it. *)
Lemma answered_init h m : answered (h ++ [m]) -> (forall p, last h = Some p -> uses_of p = []) -> answered h.
Proof.
  remember (h ++ [m]) as l eqn:Hl. intros Ha. revert h Hl.
  induction Ha as [|m' l Hu _ IH|m' u l Hus Hid _ IH]; intros h Hl Hq.
  - by destruct h.
  - destruct h as [|x h]; simplify_eq/=; [constructor|]. constructor; [done|]. apply IH; [done|].
    intros p Hp. apply Hq. destruct h; [done|exact Hp].
  - destruct h as [|x [|y h]]; simplify_eq/=.
    + constructor; [by apply Hq|constructor].
    + apply answered_pair; [done|done|]. by apply IH.
Qed.

Lemma trim_last_answered l : answered (rev l) -> answered (rev (trim_last l)).
Proof.
  induction l as [|m rest IH]; [done|]. intros Ha. cbn [trim_last]. pose proof Ha as Hq. cbn [rev] in Hq.
  pose proof (answered_last _ _ Hq) as Hu. unfold uses_of in Hu. destruct (content m) as [u meta tr|a c d| |] eqn:Hc; try done.
  - destruct rest as [|p rest]; [done|]. destruct (is_user p) eqn:Hp; [|done]. apply IH. eapply answered_init; [exact Hq|].
    intros p' Hp'. cbn [rev] in Hp'. rewrite last_snoc in Hp'. injection Hp' as <-. by apply user_no_uses.
  - by rewrite Hu.
Qed.

(** How a cleaned history ends. *)
Definition well_ended (h : list Message) : Prop :=
  (forall m, last h = Some m -> uses_of m = []) /\
  (forall h0 p m, h = h0 ++ [p; m] -> is_user p = true -> is_user m = false).

Lemma ended_by m l : uses_of m = [] -> is_user m = false -> well_ended (rev (m :: l)).
Proof.
  intros Hu Hm. cbn [rev]. split; [intros m'; rewrite last_snoc; by intros [= <-]|]. intros h0 p m' Hh _.
  change [p; m'] with ([p] ++ [m']) in Hh. rewrite app_assoc in Hh. by apply app_inj_2 in Hh as [_ [= <-]].
Qed.

Lemma trim_last_ended l : well_ended (rev (trim_last l)).
Proof.
  induction l as [|m rest IH]; [split; [done|by intros [] ]|]. cbn [trim_last].
  destruct (content m) as [u meta tr|a c d| |] eqn:Hc.
  2:{ destruct (block_uses (blocks a)) eqn:Hu; [|done]. apply ended_by; unfold uses_of, is_user; by rewrite Hc. }
  2,3: apply ended_by; unfold uses_of, is_user; by rewrite Hc.
  assert (Hm : uses_of m = []) by (unfold uses_of; by rewrite Hc).
  destruct rest as [|p rest].
  { split; [by intros ? [= <-]|]. intros h0 p m' Hh. by destruct h0 as [|? [|? []]]. }
  destruct (is_user p) eqn:Hp; [done|]. cbn [rev]. split; [intros m'; rewrite last_snoc; by intros [= <-]|].
  intros h0 p' m' Hh. rewrite <- app_assoc in Hh. change ([p] ++ [m]) with [p; m] in Hh.
  apply app_inj_2 in Hh as [_ [= <- <-]]; [|done]. by rewrite Hp.
Qed.

Lemma answered_lookup h k m :
  answered h -> h !! k = Some m -> uses_of m <> [] ->
  exists u, h !! S k = Some u /\ is_user u = true /\ forall id, id ∈ uses_of m -> id ∈ results_of u.
Proof.
  intros Ha. revert k. induction Ha as [|m' h Hu _ IH|m' u h Hus Hid _ IH]; intros [|k] Hk Hne; try done.
  - simpl in Hk. congruence.
  - simpl in Hk. by apply IH.
  - injection Hk as <-. by exists u.
  - simpl in Hk. by apply (IH k).
Qed.

(** ** A history the query loop left *)

Lemma drop_orphans_id h q : scan [] h = Some q -> drop_orphan_results h = h.
Proof.
  intros Hs%scan_totals. unfold drop_orphan_results, collect_tool_ids. rewrite bool_decide_eq_true_2; [done|].
  apply elem_of_equiv_empty_L. intros id [Hr Hn]%elem_of_difference. apply Hn, elem_of_list_to_set.
  simpl in Hs. rewrite Hs. apply elem_of_app. left. by apply elem_of_list_to_set in Hr.
Qed.

Lemma answered_already ids m : results_of m = ids -> answer_missing ids m = m.
Proof.
  intros Hr. unfold answer_missing. unfold results_of in Hr. destruct (content m) as [u meta tr| | |]; try done.
  rewrite <- Hr. replace (retain _ _) with (@nil string); [done|].
  symmetry. apply elem_of_nil_inv. intros id [Hin Hb]%elem_of_retain. by rewrite bool_decide_eq_true_2 in Hb.
Qed.

(** Only an unanswered last message goes. *)
Lemma answer_uses_scan h q :
  scan [] h = Some q -> paired (answer_uses h) /\ (exists k, answer_uses h = take k h) /\ (q = [] -> answer_uses h = h).
Proof.
  remember (length h) as n eqn:Hn. revert h Hn. induction (lt_wf n) as [n _ IH]. intros h -> Hs.
  destruct h as [|m rest]; [split_and!; [done|by exists 0%nat|done]|].
  apply scan_cons_inv in Hs as (Hr & _ & Hs). cbn [answer_uses].
  assert (Hcons : forall h1, scan [] (m :: h1) = scan (uses_of m) h1) by (intros h1; simpl; by rewrite Hr).
  destruct (uses_of m) as [|id ids] eqn:Hu.
  { destruct (IH (length rest) ltac:(simpl; lia) rest eq_refl Hs) as (Hp & [k Hk] & Hid).
    split_and!; [unfold paired; by rewrite Hcons|exists (S k); by rewrite Hk|intros Hq; by rewrite (Hid Hq)]. }
  destruct rest as [|u rest].
  { split_and!; [done|by exists 0%nat|]. intros ->. by simpl in Hs. }
  apply scan_cons_inv in Hs as (Hru & Ho & Hs). destruct Ho as [[=]|Ho].
  assert (Huu : is_user u = true) by (unfold is_user; unfold results_only in Ho; by destruct (content u)).
  rewrite Huu, (answered_already _ _ Hru). rewrite (user_no_uses u Huu) in Hs.
  destruct (IH (length rest) ltac:(simpl; lia) rest eq_refl Hs) as (Hp & [k Hk] & Hid). split_and!.
  - unfold paired. rewrite Hcons. cbn [scan]. by rewrite Hru, bool_decide_eq_true_2, Ho, orb_true_r, (user_no_uses u Huu).
  - exists (S (S k)). by rewrite Hk.
  - intros Hq. by rewrite (Hid Hq).
Qed.

Lemma trim_tail_prefix h : exists k, trim_tail h = take k h.
Proof.
  unfold trim_tail. assert (Hg : forall l, exists k, rev (trim_last l) = take k (rev l)).
  { induction l as [|m rest IH]; [by exists 0%nat|]. cbn [trim_last].
    assert (Hall : exists k, rev (m :: rest) = take k (rev (m :: rest))) by (exists (length (rev (m :: rest))); by rewrite firstn_all).
    assert (Hless : exists k, rev (trim_last rest) = take k (rev (m :: rest))).
    { destruct IH as [k Hk]. exists (Nat.min k (length (rev rest))). cbn [rev]. rewrite take_app_le by lia.
      rewrite Hk. destruct (Nat.le_ge_cases k (length (rev rest))); [by rewrite Nat.min_l|].
      rewrite Nat.min_r, firstn_all by lia. by apply firstn_all2. }
    repeat case_match; done. }
  destruct (Hg (rev h)) as [k Hk]. exists k. by rewrite rev_involutive in Hk.
Qed.

Lemma trim_last_paired l : paired (rev l) -> paired (rev (trim_last l)).
Proof.
  induction l as [|m rest IH]; [done|]. intros Hp. cbn [trim_last]. pose proof Hp as Hs. cbn [rev] in Hs.
  apply scan_init in Hs as (p & Hs & Hr & _ & Hu). unfold uses_of in Hu.
  destruct (content m) as [u meta tr|a c d| |] eqn:Hc; try done.
  - destruct rest as [|p' rest]; [done|]. destruct (is_user p') eqn:Hp'; [|done]. apply IH.
    cbn [rev] in Hs |- *. rewrite scan_app in Hs. unfold paired. rewrite scan_app.
    destruct (scan [] (rev rest)) as [p0|]; [|done]. cbn [mbind option_bind scan] in *. destruct (_ && _)%bool; [|done].
    by rewrite (user_no_uses _ Hp').
  - by rewrite Hu.
Qed.

Lemma trim_last_id l : well_ended (rev l) -> trim_last l = l.
Proof.
  destruct l as [|m rest]; [done|]. intros [Hl Hd]. cbn [trim_last].
  specialize (Hl m ltac:(cbn [rev]; by rewrite last_snoc)). unfold uses_of in Hl.
  destruct (content m) as [u meta tr|a c d| |] eqn:Hc; try done; [|by rewrite Hl].
  destruct rest as [|p rest]; [done|]. destruct (is_user p) eqn:Hp; [|done].
  specialize (Hd (rev rest) p m). cbn [rev] in Hd. rewrite <- app_assoc in Hd. specialize (Hd eq_refl Hp).
  unfold is_user in Hd. by rewrite Hc in Hd.
Qed.

Lemma cleanup_unfold h : cleanup_incomplete_tool_calls h = trim_tail (answer_uses (drop_orphan_results h)).
Proof. by destruct h. Qed.

Lemma cleanup_scan h q :
  scan [] h = Some q ->
  paired (cleanup_incomplete_tool_calls h) /\ (exists k, cleanup_incomplete_tool_calls h = take k h) /\
  (q = [] -> well_ended h -> cleanup_incomplete_tool_calls h = h).
Proof.
  intros Hs. rewrite cleanup_unfold, (drop_orphans_id h q Hs).
  destruct (answer_uses_scan h q Hs) as (Hp & [k Hk] & Hid). split_and!.
  - unfold trim_tail. apply trim_last_paired. by rewrite rev_involutive.
  - destruct (trim_tail_prefix (answer_uses h)) as [k' ->]. rewrite Hk, take_take. by eexists.
  - intros Hq He. rewrite (Hid Hq). unfold trim_tail. rewrite trim_last_id by (by rewrite rev_involutive).
    apply rev_involutive.
Qed.

(** Claim C7. Whatever history the engine holds, a crash or a restore may have
    left it: after the clean-up every message with tool uses is followed by a
    user message with a result for each of them, and the history does not end
    in a message that calls tools or in two messages of the user.  A history
    the query loop left, in which at most the tool uses of the last message are
    open, becomes paired by losing messages at its end only; one that is paired
    and ends well stays as it is. *)
Theorem cleanup_repairs (h : list Message) :
  let h' := cleanup_incomplete_tool_calls h in
  (Forall plain h -> forall k m, h' !! k = Some m -> uses_of m <> [] ->
     exists u, h' !! S k = Some u /\ is_user u = true /\ forall id, id ∈ uses_of m -> id ∈ results_of u) /\
  well_ended h' /\
  (forall open, scan [] h = Some open ->
     paired h' /\ (exists k, h' = take k h) /\ (open = [] -> well_ended h -> h' = h)).
Proof.
  split_and!.
  - intros Hp k m. apply answered_lookup. rewrite cleanup_unfold. unfold trim_tail.
    apply trim_last_answered. rewrite rev_involutive. apply answer_uses_answered.
    unfold drop_orphan_results. simpl. case_bool_decide; [done|by apply strip_plain].
  - rewrite cleanup_unfold. unfold trim_tail. apply trim_last_ended.
  - intros open. apply cleanup_scan.
Qed.
End Cleanup.

(** ** The text for a summary *)

Section SummaryText.
Context `{JL : JsonLaws}.

Lemma elide_fuel_enough max n k v : (json_size v < n)%nat -> (json_size v < k)%nat -> elide_fuel max n v = elide_fuel max k v.
Proof.
  revert k v. induction n as [|n IH]; intros [|k] v Hn Hk; try lia. cbn [elide_fuel].
  destruct (as_str v); [done|]. destruct (as_object v) as [fs|] eqn:Ho.
  - destruct (assoc fs "type" ≫= as_str) as [t|]; [|done]. destruct (String.eqb t "tool_result"); [|done].
    destruct (assoc fs "content") as [x|] eqn:Hx; [|done]. pose proof (size_object v fs _ x Ho (assoc_in _ _ _ Hx)).
    apply IH; lia.
  - destruct (as_array v) as [l|] eqn:Ha; [|done]. f_equal. apply list_fmap_ext.
    intros i x Hin%list_elem_of_lookup_2. pose proof (size_array v l x Ha Hin). apply IH; lia.
Qed.
End SummaryText.

(** ** The conversation *)

Section Conversation.
Context `{JL : JsonLaws} `{FS : FileSystem} `{Clk : Clock}.
Context (tokenizer : option (string -> nat)) (abort_output : Value) (format_cost : f64 -> string).

Lemma cleanup_sound h : well_formed h -> sound (cleanup_incomplete_tool_calls h).
Proof.
  intros [[q Hs] Hd]. destruct (cleanup_scan h q Hs) as (Hp & [k Hk] & _). split; [done|]. rewrite Hk. by apply distinct_take.
Qed.

(** Attachments that are not tool results; a history over the threshold that is
    short enough to be summarised. *)
Definition acceptable (x : Submission) (e : QueryEngine) : Prop :=
  Forall (fun a => result_id a = None) (default [] (attachments x)) /\
  (length (cleanup_incomplete_tool_calls (Engine.messages e)) < MAX_API_COMPACT)%nat.

Lemma no_results l : Forall (fun a => result_id a = None) l -> omap result_id l = [].
Proof. induction 1 as [|a l Ha _ IH]; [done|]. cbn [omap list_omap]. by rewrite Ha. Qed.

Lemma user_message_quiet x :
  Forall (fun a => result_id a = None) (default [] (attachments x)) ->
  uses_of (user_message x) = [] /\ results_of (user_message x) = [].
Proof.
  intros Ha. split; [done|]. unfold results_of, user_message, extract_tool_result_ids, prompt_content. cbn [content stamped user_content].
  destruct (attachments x) as [[|a att]|]; simpl in Ha; [by rewrite as_array_string| |by rewrite as_array_string].
  rewrite as_array_array, omap_app, (no_results _ Ha). destruct (is_empty (prompt x)); [done|].
  cbn [app omap list_omap]. by rewrite text_block_id.
Qed.

Lemma engine_compact_scan s r e q :
  scan [] (Engine.messages e) = Some q -> distinct_uses (Engine.messages e) ->
  let e' := (compact s r e).2 in
  scan [] (Engine.messages e') = Some q /\ distinct_uses (Engine.messages e') /\
  pending_messages e' = pending_messages e /\ exists c, (compact s r e).1 = Ok c.
Proof.
  intros Hp Hd. unfold compact, KEEP_RECENT.
  destruct (Nat.leb_spec (length (Engine.messages e)) 4) as [|Hlt]; [by split_and!; [..|eexists]|].
  cbn [snd fst]. set (h := Engine.messages e) in *.
  destruct (adjust_split_closed h q (length h - 4) Hp Hd ltac:(lia)) as [_ Hc]. set (k := adjust_compact_split _ _) in *.
  split_and!; [by apply (scan_drop [] h)| |done|by eexists].
  apply (distinct_app [_]). split; [by apply distinct_quiet|by apply distinct_drop].
Qed.

Lemma pre_query_sound s r e :
  (length (Engine.messages e) <= MAX_API_COMPACT)%nat -> sound (Engine.messages e) ->
  sound (Engine.messages (pre_query_compact s r e)).
Proof.
  intros Hl Hs. unfold pre_query_compact. rewrite (proj2 (Nat.leb_le _ _) Hl).
  destruct (engine_compact_scan s r e [] (proj1 Hs) (proj2 Hs)) as (Hc & Hd & _).
  destruct (compact s r e) as [[|] e']; by split.
Qed.

(** Every query starts from a paired history. *)
Lemma submit_sound x e :
  acceptable x e -> well_formed (Engine.messages e) ->
  exists l, pending_messages (submit tokenizer x e) = Some (l, loop_history l) /\
            sound (loop_history l) /\ Engine.messages (submit tokenizer x e) = loop_history l.
Proof.
  intros [Ha Hl] Hk. unfold submit. set (h := (cleanup_incomplete_tool_calls _ ++ [user_message x])%list).
  assert (Hh : sound h).
  { destruct (user_message_quiet x Ha). apply sound_quiet; [by apply cleanup_sound|done|done]. }
  set (e1 := Engine.set_messages h _).
  assert (Hle : (length h <= MAX_API_COMPACT)%nat) by (unfold h; rewrite length_app; simpl; simpl in Hl; lia).
  set (e2 := if (_ && _)%bool then _ else e1).
  assert (H2 : sound (Engine.messages e2)) by (subst e2; case_match; [by apply pre_query_sound|done]).
  eexists. split; [reflexivity|]. split; [exact H2|reflexivity].
Qed.

(** The operations on an engine.  A loop that was started ends at some time
    with a history of the query's; syncing may come before or after. *)
Inductive step : QueryEngine -> QueryEngine -> Prop :=
| step_submit x e : acceptable x e -> step e (submit tokenizer x e)
| step_loop l h env w n r q e :
    pending_messages e = Some (l, h) -> (forall j, orderly (loop_query l) (env j)) ->
    run abort_output format_cost (loop_query l) env 0 n (first_query l w) = Finished r q ->
    step e (loop_done (Query.messages q) e)
| step_sync e : step e (sync_messages e)
| step_compact s r e : step e (compact s r e).2
| step_restore h e : well_formed h -> step e (Engine.set_messages h e)
| step_abort e : step e (Engine.abort e)
| step_refresh f e : step e (refresh_context_cache f e)
| step_baseline b e : step e (load_token_baseline b e)
| step_seed summary e : step e (seed_session_memory summary e)
| step_model name e : step e (update_model name e)
| step_thinking t e : step e (update_thinking_config t e)
| step_cwd dir e : step e (update_cwd dir e)
| step_session id e : step e (update_session_id id e).

Definition engine_inv (e : QueryEngine) : Prop :=
  well_formed (Engine.messages e) /\
  forall l h, pending_messages e = Some (l, h) -> sound (loop_history l) /\ well_formed h.

Lemma first_messages l w : Query.messages (first_query l w) = loop_history l.
Proof. done. Qed.

Lemma inv_messages h e e' :
  engine_inv e -> well_formed h -> Engine.messages e' = h -> pending_messages e' = pending_messages e -> engine_inv e'.
Proof. intros [_ Hp] Hh He He'. split; [by rewrite He|]. by rewrite He'. Qed.

Lemma sync_sound e : engine_inv e -> sound (Engine.messages (sync_messages e)).
Proof.
  intros [Hm Hp]. unfold sync_messages. destruct (pending_messages e) as [[l h]|]; apply cleanup_sound; [|done].
  by destruct (Hp l h eq_refl).
Qed.

Lemma engine_step_inv e e' : step e e' -> engine_inv e -> engine_inv e'.
Proof.
  intros Hs Hi. pose proof Hi as [Hm Hp]. destruct Hs as [x e Hx|l h env w n r q e He Ho Hr|e|s r e|h e Hh| | |b e|summary e| | | |].
  - destruct (submit_sound x e Hx Hm) as (l & Hl & Hsl & Hh). split; [rewrite Hh; by apply sound_well|].
    intros l' h'. rewrite Hl. intros [= <- <-]. split; [done|by apply sound_well].
  - destruct (Hp l h He) as [Hl _]. pose proof (run_sound abort_output format_cost _ env 0 n (first_query l w) Ho Hl) as Hq.
    rewrite Hr in Hq. unfold loop_done. rewrite He. split; [done|]. intros l' h' [= <- <-]. split; [done|]. apply Hq.
  - split; [by apply sound_well, sync_sound|]. unfold sync_messages.
    destruct (pending_messages e) as [[l h]|] eqn:He; [done|]. intros l h Hl. cbn [pending_messages Engine.set_messages] in Hl. congruence.
  - destruct Hm as [[q Hq] Hd]. destruct (engine_compact_scan s r e q Hq Hd) as (Hq' & Hd' & He & _).
    split; [split; [by exists q|done]|]. by rewrite He.
  - by apply (inv_messages h e).
  - by apply (inv_messages (Engine.messages e) e).
  - by apply (inv_messages (Engine.messages e) e).
  - destruct b; [by apply (inv_messages (Engine.messages e) e)|done].
  - unfold seed_session_memory. destruct (engine_memory (config e)); [|done].
    destruct (is_empty summary); [done|by apply (inv_messages (Engine.messages e) e)].
  - by apply (inv_messages (Engine.messages e) e).
  - by apply (inv_messages (Engine.messages e) e).
  - by apply (inv_messages (Engine.messages e) e).
  - by apply (inv_messages (Engine.messages e) e).
Qed.

Lemma steps_inv e e' : rtc step e e' -> engine_inv e -> engine_inv e'.
Proof. induction 1 as [|e1 e2 e3 Hs _ IH]; [done|]. intros Hi. by apply IH, (engine_step_inv e1). Qed.

Lemma engine_new_inv c window ratio f : engine_inv (new c window ratio f).
Proof. split; [split; [by exists []|by intros m ?%not_elem_of_nil]|done]. Qed.

(** Claim C6. A conversation stays legal across queries: from a new engine,
    over every sequence of submissions, ends of the query loop, syncs,
    compactions, restored histories and changes of the settings, in whatever
    order, every query starts from a paired history, so that whatever it sends
    is paired, and what the engine holds is paired after a sync.  The steps are
    restricted: attachments are no tool results; a history is at most as long
    as what is summarised before a query (a longer one is cut between pairs, as
    [tail_trim_cuts_pair] shows); a restored history is one the query loop may
    leave, where every message answers exactly the calls before it, but for
    calls of the last message, and no message has an id twice - a log that a
    crash or a compaction from the session memory has cut elsewhere is not
    covered; the loops have no session memory, and the tool calls of one answer
    have different ids. *)
Theorem conversation_stays_paired (c : EngineConfig) (window : Z) (ratio : f64) (f : Files) (e : QueryEngine)
    (Hs : rtc step (new c window ratio f) e) :
  paired (Engine.messages (sync_messages e)) /\
  forall l h, pending_messages e = Some (l, h) ->
    paired (loop_history l) /\
    forall env w n, (forall j, orderly (loop_query l) (env j)) ->
      match run abort_output format_cost (loop_query l) env 0 n (first_query l w) with
      | Next q => paired (Query.messages q)
      | Finished r q => status r <> QueryError -> paired (Query.messages q)
      end.
Proof.
  pose proof (steps_inv _ _ Hs (engine_new_inv c window ratio f)) as Hi. split; [by apply sync_sound|].
  intros l h He. destruct (proj2 Hi l h He) as [[Hp Hd] _]. split; [done|]. intros env w n Ho.
  pose proof (run_sound abort_output format_cost _ env 0 n (first_query l w) Ho (conj Hp Hd)) as Hr.
  destruct (run _ _ _ env 0 n _) as [q|r q]; [apply Hr|]. intros Hne. by apply Hr.
Qed.
End Conversation.

(** ** On concrete histories *)

Section Demo.
#[local] Existing Instances flat_json flat_json_laws symlink_fs demo_clock.

(** The tokenizer counts bytes. *)
Definition by_bytes : option (string -> nat) := Some str_len.

Definition demo_engine_config : EngineConfig :=
  mkEngineConfig "/work" [(demo_tool "Bash" true, spec "Bash" false)] None "m" ThinkingDisabled (Some 5) None None 4096
    None (Some "Be brief."%string) None ["n"%string] 2 None true (Some new_tracker) (mkMicro 3600 1000).

Definition demo_engine : QueryEngine := new demo_engine_config 200000 (f64_ratio 7 10) (mkFiles None [] None).

Definition demo_submission (t : string) : Submission :=
  mkSubmission t None demo_stamp demo_stamp (Ok []) (Some "# Memory"%string) None new_tracker.

(** One query over [n] iterations at most, handed back at its end. *)
Definition exchange (t : string) (env : nat -> Iter) (n : nat) (e : QueryEngine) : QueryEngine :=
  let e := submit by_bytes (demo_submission t) e in
  match pending_messages e with
  | Some (l, _) =>
      match run FNull (fun _ => "0"%string) (loop_query l) env 0 n (first_query l (mkWorld demo_bridge (Some new_tracker))) with
      | Finished _ q => sync_messages (loop_done (Query.messages q) e)
      | Next _ => e
      end
  | None => e
  end.

Definition shape (h : list Message) : list (list string * list string) := (fun m => (uses_of m, results_of m)) <$> h.

Example exchange_syncs :
  shape (Engine.messages (exchange "hi" demo_day 3 demo_engine)) = [([], []); (["a"], []); ([], ["a"]); ([], [])]%string.
Proof. vm_compute. reflexivity. Qed.

(** A query that times out after its tools have run: the loop drops the results
    and the clean-up the calls, so the model never learns what it did. *)
Example timeout_forgets_tools :
  shape (Engine.messages
    (exchange "hi" (fun k => demo_iter (match k with 0%nat => tool_call "a" | _ => NoAnswer end)) 2 demo_engine)) = [([], [])].
Proof. vm_compute. reflexivity. Qed.

Definition demo_loop : Loop := mkLoop
  (Query.mkConfig "m" ["n"%string] 2 (Some 5) None None (mkMicro 3600 1000) [demo_tool "Bash" true] true)
  (Request.mkConfig "m" [spec "Bash" false] ∅ "/work" None
     (Some ("Be brief." +:+ string_of [LF; LF] +:+ "# Memory")%string) None None ThinkingDisabled None [says "hi"] []
     new_tracker 4096)
  (BudgetNormal, 2) 0 [says "hi"].

Definition demo_step : QueryEngine -> QueryEngine -> Prop :=
  @step flat_json symlink_fs demo_clock by_bytes FNull (fun _ => "0"%string).

Lemma demo_submitted :
  pending_messages (submit by_bytes (demo_submission "hi") demo_engine) = Some (demo_loop, [says "hi"]).
Proof. reflexivity. Qed.

Lemma engine_demo_ends :
  exists r q, @run flat_json symlink_fs demo_clock FNull (fun _ => "0"%string) (loop_query demo_loop) demo_day 0 3
                (first_query demo_loop (mkWorld demo_bridge (Some new_tracker))) = Finished r q /\
              status r = Complete /\ length (Query.messages q) = 4%nat.
Proof.
  assert (He : match @run flat_json symlink_fs demo_clock FNull (fun _ => "0"%string) (loop_query demo_loop) demo_day 0 3
                       (first_query demo_loop (mkWorld demo_bridge (Some new_tracker))) with
               | Finished r q => status r = Complete /\ length (Query.messages q) = 4%nat
               | Next _ => False
               end) by (vm_compute; split; reflexivity).
  destruct (@run _ _ _ _ _ _ _ _ _ _) as [q|r q]; [destruct He|]. by exists r, q.
Qed.

Lemma demo_acceptable : acceptable (demo_submission "hi") demo_engine.
Proof. split; [constructor|vm_compute; lia]. Qed.

Lemma conversation_stays_paired_witness :
  exists (e : QueryEngine) (q : Query) (r : QueryResult),
    rtc demo_step demo_engine e /\
    pending_messages e = Some (demo_loop, Query.messages q) /\ status r = Complete /\
    length (Query.messages q) = 4%nat /\ paired (Engine.messages (sync_messages e)) /\ paired (Query.messages q).
Proof.
  destruct engine_demo_ends as (r & q & Er & Hr).
  set (e1 := submit by_bytes (demo_submission "hi") demo_engine).
  assert (Hp : pending_messages e1 = Some (demo_loop, [says "hi"])) by exact demo_submitted.
  assert (Ho : forall j, orderly (loop_query demo_loop) (demo_day j)) by exact demo_day_orderly.
  assert (Hs : rtc demo_step demo_engine (loop_done (Query.messages q) e1)).
  { pose proof demo_acceptable as Ha.
    apply (rtc_l _ _ e1); [by constructor|]. apply rtc_once. eapply step_loop; [exact Hp|exact Ho|exact Er]. }
  exists (loop_done (Query.messages q) e1), q, r.
  pose proof (@conversation_stays_paired flat_json flat_json_laws symlink_fs demo_clock by_bytes FNull (fun _ => "0"%string) demo_engine_config 200000 (f64_ratio 7 10)
                (mkFiles None [] None) _ Hs) as [Hsync Hq].
  assert (Hp' : pending_messages (loop_done (Query.messages q) e1) = Some (demo_loop, Query.messages q))
    by (unfold loop_done; by rewrite Hp).
  specialize (Hq _ _ Hp') as [_ Hq]. specialize (Hq demo_day (mkWorld demo_bridge (Some new_tracker)) 3%nat Ho).
  rewrite Er in Hq. destruct Hr as [Hc Hl].
  split_and!; [exact Hs|exact Hp'|exact Hc|exact Hl|exact Hsync|]. apply Hq. by rewrite Hc.
Defined.

Lemma cleanup_repairs_witness :
  let h := [says "hi"; asks ["a"; "b"]; answers ["a"]] in
  exists u, cleanup_incomplete_tool_calls h !! 2%nat = Some u /\ is_user u = true /\
            forall id, id ∈ ["a"; "b"]%string -> id ∈ results_of u.
Proof.
  intros h. assert (Hp : Forall plain h).
  { apply Forall_cons; split; [left; by eexists|]. apply Forall_cons; split; [done|].
    apply Forall_cons; split; [right; by eexists|]. constructor. }
  apply (proj1 (cleanup_repairs h) Hp 1%nat (asks ["a"; "b"]%string)); [reflexivity|discriminate].
Defined.

(** An answer whose loop is not synced before the next submission is lost. *)
Example unsynced_answer_lost :
  let e := loop_done [says "hi"; asks []] (submit by_bytes (demo_submission "hi") demo_engine) in
  shape (Engine.messages (submit by_bytes (demo_submission "again") e)) = [([], []); ([], [])].
Proof. vm_compute. reflexivity. Qed.

(** A call without an answer is dropped, and a result further on stays behind
    without it. *)
Example dropped_call_leaves_result :
  shape (cleanup_incomplete_tool_calls [says "hi"; asks ["a"]; asks []; answers ["a"]; asks []]) =
    [([], []); ([], []); ([], ["a"%string]); ([], [])].
Proof. vm_compute. reflexivity. Qed.

(** A lost result is replaced, and one without its call removed. *)
Example cleanup_fixes :
  shape (cleanup_incomplete_tool_calls [answers ["z"]; says "hi"; asks ["a"; "b"]; answers ["a"]; asks ["c"]; says "go on"]) =
    [([], []); (["a"; "b"], []); ([], ["a"; "b"]); (["c"], []); ([], ["c"])]%string.
Proof. vm_compute. reflexivity. Qed.

(** Without a session memory a history that is too long for a summary is cut at
    its hundredth message from the end, between a call and its result. *)
Definition long_history : list Message := says "hi" :: mjoin (replicate 250 [asks ["a"]; answers ["a"]]).

Example tail_trim_cuts_pair :
  let e := submit by_bytes (demo_submission "go on") (Engine.set_messages long_history
             (new demo_engine_config 100 (f64_ratio 7 10) (mkFiles None [] None))) in
  length (Engine.messages e) = 100%nat /\ scan [] long_history = Some [] /\
  shape (take 2 (Engine.messages e)) = [([], ["a"]); (["a"], [])]%string.
Proof. vm_compute. split_and!; reflexivity. Qed.

(** The status of the budget is taken before the compaction it leads to, and
    the loop's first turn goes by it. *)
Example budget_before_compaction :
  let e := submit by_bytes (demo_submission "go on") (Engine.set_messages long_history
             (new demo_engine_config 100000 (f64_ratio 1 10) (mkFiles None [] None))) in
  match pending_messages e with
  | Some (l, h) => (initial_budget l).1 = BudgetCompact /\
                   budget_status_given (estimate by_bytes h (token_counter e)) (token_counter e) = BudgetNormal
  | None => False
  end.
Proof. vm_compute. split; reflexivity. Qed.

(** Changing the directory keeps the instructions of the old one. *)
Example moved_engine_keeps_instructions :
  let e := update_cwd "/other" (new demo_engine_config 200000 (f64_ratio 7 10) (mkFiles (Some "Rules of /work."%string) [] None)) in
  match pending_messages (submit by_bytes (demo_submission "hi") e) with
  | Some (l, _) => project_instructions (loop_request l) = Some "Rules of /work."%string /\ config_cwd (loop_request l) = "/other"%string
  | None => False
  end.
Proof. vm_compute. split; reflexivity. Qed.
End Demo.
