(* ===== verification/MemoryStore.v ===== *)
(** * MemoryStore: long-term memory ([engine/memory])

    What the agent remembers across sessions: entries with an importance that
    decays, the active store with its file, the archive, the fragment of the
    system prompt made of them, and the scheduler of the maintenance.  A file is
    a list of lines, each an entry, blank, or something that does not parse; a
    write fails when the environment says so.  The clock and fresh identifiers
    are arguments, and so is [f64::powf]. *)

From stdpp Require Import base gmap strings list.
From Stdlib Require Import ZArith Lia.
From S2P Require Import Prelude Text Float64 ToolHealth Security.

#[local] Open Scope Z_scope.

Inductive MemoryCategory := Fact | Preference | Decision.

#[export] Instance MemoryCategory_eq_dec : EqDecision MemoryCategory.
Proof. solve_decision. Defined.

Record MemoryEntry := mkEntry {
  id : string;
  content : string;
  category : MemoryCategory;
  created_at : string;
  source : string;
  importance : f64;
  recall_count : Z;
  last_recalled_at : option string;
  archived : bool
}.

(** [parse_category]. *)
Definition parse_category (s : string) : MemoryCategory :=
  let s := to_lowercase s in
  if (String.eqb s "preference" || String.eqb s "pref")%bool then Preference
  else if (String.eqb s "decision" || String.eqb s "dec")%bool then Decision
  else Fact.

(** ** Decay: [decay.rs] *)

Record DecayConfig := mkDecay {
  decay_rate : f64;
  recall_boost : f64;
  confirm_boost : f64;
  reject_penalty : f64;
  archive_threshold : f64;
  max_entries : nat;
  cleanup_interval_hours : Z;
  prompt_char_budget : nat
}.

Definition default_config : DecayConfig :=
  mkDecay (f64_ratio 99 100) (f64_ratio 1 10) (f64_ratio 2 10) (f64_ratio 3 10) (f64_ratio 1 10)
    (Z.to_nat 1000) 24 (Z.to_nat 6000).

(** [f64::clamp]: NaN stays. *)
Definition f64_clamp (lo hi a : f64) : f64 := if f64_lt a lo then lo else if f64_lt hi a then hi else a.
Definition f64_one : f64 := f64_of_Z 1.

Definition set_importance (x : f64) (e : MemoryEntry) : MemoryEntry :=
  mkEntry (id e) (content e) (category e) (created_at e) (source e) x (recall_count e) (last_recalled_at e) (archived e).
Definition set_archived (b : bool) (e : MemoryEntry) : MemoryEntry :=
  mkEntry (id e) (content e) (category e) (created_at e) (source e) (importance e) (recall_count e) (last_recalled_at e) b.
Definition recalled (now : string) (x : f64) (e : MemoryEntry) : MemoryEntry :=
  mkEntry (id e) (content e) (category e) (created_at e) (source e) x (add32 (recall_count e) 1) (Some now) (archived e).

Definition should_archive (e : MemoryEntry) (c : DecayConfig) : bool := f64_lt (importance e) (archive_threshold c).

Definition penalize_on_reject (c : DecayConfig) (e : MemoryEntry) : MemoryEntry :=
  set_importance (f64_max (f64_sub (importance e) (reject_penalty c)) f64_zero) e.

Section Decay.
Context `{Clk : Clock} (powf : f64 -> f64 -> f64).

Definition decay_score (e : MemoryEntry) (days : f64) (c : DecayConfig) : f64 :=
  f64_clamp f64_zero f64_one (f64_mul (importance e) (powf (decay_rate c) days)).

Definition DAY_MS : Z := 86400000.

(** Whole days since the last recall, or since creation; [num_days] cuts
    towards zero. *)
Definition days_since_anchor (now : Z) (e : MemoryEntry) : f64 :=
  f64_max match parse_rfc3339 (default (created_at e) (last_recalled_at e)) with
          | Some t => f64_of_Z (Z.quot (now - t) DAY_MS)
          | None => f64_zero
          end f64_zero.

Definition boost_on_recall (now : Z) (c : DecayConfig) (e : MemoryEntry) : MemoryEntry :=
  recalled (to_rfc3339 now) (f64_min (f64_add (importance e) (recall_boost c)) f64_one) e.

Definition boost_on_confirm (now : Z) (c : DecayConfig) (e : MemoryEntry) : MemoryEntry :=
  recalled (to_rfc3339 now) (f64_min (f64_add (importance e) (confirm_boost c)) f64_one) e.

(** One entry of [apply_decay]. *)
Definition decayed (now : Z) (c : DecayConfig) (e : MemoryEntry) : MemoryEntry :=
  if archived e then e
  else let e := set_importance (decay_score e (days_since_anchor now e) c) e in
       if should_archive e c then set_archived true e else e.

(** [apply_decay]: the entries, and the ids newly marked as archived. *)
Definition apply_decay (now : Z) (c : DecayConfig) (l : list MemoryEntry) : list MemoryEntry * list string :=
  (decayed now c <$> l, id <$> retain (fun e => negb (archived e) && archived (decayed now c e))%bool l).
End Decay.

(** ** Files *)

Inductive FileLine := Line (e : MemoryEntry) | Corrupted | Blank.

Abbreviation File := (list FileLine).

(** [parse_entries]: of entries with the same content the first stays. *)
Fixpoint parse_entries (seen : gset string) (f : File) : list MemoryEntry :=
  match f with
  | [] => []
  | Line e :: f' => if bool_decide (content e ∈ seen) then parse_entries seen f' else e :: parse_entries ({[content e]} ∪ seen) f'
  | _ :: f' => parse_entries seen f'
  end.

Definition read_file (f : option File) : list MemoryEntry := parse_entries ∅ (default [] f).

(** The archive's reader keeps every entry. *)
Definition read_archive (f : option File) : list MemoryEntry :=
  omap (fun l => match l with Line e => Some e | _ => None end) (default [] f).

(** ** The archive: [archive.rs] *)

Record MemoryArchive := mkArchive { archive_entries : list MemoryEntry; archive_file : option File; archive_max : nat }.

Definition load_archive (f : option File) (limit : nat) : MemoryArchive := mkArchive (read_archive f) f limit.

(** Failed writes are logged. *)
Definition write_archive (ok : bool) (a : MemoryArchive) : MemoryArchive :=
  if ok then mkArchive (archive_entries a) (Some (Line <$> archive_entries a)) (archive_max a) else a.

Definition with_archived (l : list MemoryEntry) (a : MemoryArchive) : MemoryArchive :=
  mkArchive l (archive_file a) (archive_max a).

(** One entry is appended, without a look at the limit. *)
Definition archive_memory (ok : bool) (e : MemoryEntry) (a : MemoryArchive) : MemoryEntry * MemoryArchive :=
  let e := set_archived true e in
  (e, mkArchive (archive_entries a ++ [e])
        (if ok then Some (default [] (archive_file a) ++ [Line e]) else archive_file a) (archive_max a)).

Record ArchiveResult := mkArchived { archived_ids : list string; deleted_count : nat }.

(** The oldest go when there are too many. *)
Definition over (a : MemoryArchive) (l : list MemoryEntry) : nat := length l - archive_max a.

Definition archive_memories (ok : bool) (l : list MemoryEntry) (a : MemoryArchive) : ArchiveResult * MemoryArchive :=
  match l with
  | [] => (mkArchived [] 0, a)
  | _ => let all := archive_entries a ++ (set_archived true <$> l) in
         (mkArchived (id <$> l) (over a all), write_archive ok (with_archived (drop (over a all) all) a))
  end.

(** The first entry with the prefix, and the rest. *)
Fixpoint take_prefix (p : string) (l : list MemoryEntry) : option (MemoryEntry * list MemoryEntry) :=
  match l with
  | [] => None
  | e :: l' => if starts_with (id e) p then Some (e, l')
               else match take_prefix p l' with Some (x, l') => Some (x, e :: l') | None => None end
  end.

Definition restore_memory (ok : bool) (p : string) (a : MemoryArchive) : option MemoryEntry * MemoryArchive :=
  match take_prefix p (archive_entries a) with
  | Some (e, l) => (Some (set_archived false e), write_archive ok (with_archived l a))
  | None => (None, a)
  end.

Definition get_archived (p : string) (a : MemoryArchive) : option MemoryEntry :=
  List.find (fun e => starts_with (id e) p) (archive_entries a).

Definition delete_archived (ok : bool) (p : string) (a : MemoryArchive) : bool * MemoryArchive :=
  let l := retain (fun e => negb (starts_with (id e) p)) (archive_entries a) in
  if Nat.ltb (length l) (length (archive_entries a)) then (true, write_archive ok (with_archived l a))
  else (false, with_archived l a).

Definition clear_archive (ok : bool) (a : MemoryArchive) : nat * MemoryArchive :=
  (length (archive_entries a), mkArchive [] (if ok then Some [] else archive_file a) (archive_max a)).

Definition needs_cleanup (a : MemoryArchive) : bool := Nat.ltb (archive_max a) (length (archive_entries a)).

Definition cleanup_archive (ok : bool) (a : MemoryArchive) : nat * MemoryArchive :=
  let l := archive_entries a in
  if Nat.leb (length l) (archive_max a) then (0%nat, a)
  else (over a l, write_archive ok (with_archived (drop (over a l) l) a)).

Definition search_archive (query : string) (a : MemoryArchive) : list MemoryEntry :=
  retain (fun e => str_contains (to_lowercase (content e)) (to_lowercase query)) (archive_entries a).

(** ** The store: [store.rs]

    The operations take turns under the persist lock: each changes the entries
    first and the file later.  [holder] is what the holder of the lock has still
    to write; [rewrites] are the rewrites of recalls, which gave the lock up
    before writing, and [restoring] what restores took from the archive and have
    not added yet.  The archive has locks of its own, held for one operation on
    its entries. *)

Inductive Pending :=
| Append (e : MemoryEntry)
| Rewrite (snapshot : list MemoryEntry)
| RewriteAndArchive (snapshot moved : list MemoryEntry)   (* [archive_low_importance] *)
| RewriteAndMove (snapshot : list MemoryEntry) (e : MemoryEntry).  (* [archive_by_id] *)

Record Store := mkStore {
  entries : list MemoryEntry;
  file_path : string;
  files : gmap string File;
  archive : MemoryArchive;
  holder : option Pending;
  rewrites : list (list MemoryEntry);
  restoring : list MemoryEntry
}.

Definition load_with_path (path : string) (fs : gmap string File) (a : MemoryArchive) : Store :=
  mkStore (read_file (fs !! path)) path fs a None [] [].

(** The file of a project that has a directory for it, and the global one
    otherwise. *)
Definition memory_path (has_dir : bool) (project global : string) : string := if has_dir then project else global.

Definition set_entries (l : list MemoryEntry) (s : Store) : Store :=
  mkStore l (file_path s) (files s) (archive s) (holder s) (rewrites s) (restoring s).
Definition set_holder (p : option Pending) (s : Store) : Store :=
  mkStore (entries s) (file_path s) (files s) (archive s) p (rewrites s) (restoring s).
Definition set_file (f : File) (s : Store) : Store :=
  mkStore (entries s) (file_path s) (<[file_path s := f]> (files s)) (archive s) (holder s) (rewrites s) (restoring s).
Definition set_archive (a : MemoryArchive) (s : Store) : Store :=
  mkStore (entries s) (file_path s) (files s) a (holder s) (rewrites s) (restoring s).
Definition set_rewrites (l : list (list MemoryEntry)) (s : Store) : Store :=
  mkStore (entries s) (file_path s) (files s) (archive s) (holder s) l (restoring s).

Definition set_restoring (l : list MemoryEntry) (s : Store) : Store :=
  mkStore (entries s) (file_path s) (files s) (archive s) (holder s) (rewrites s) l.

Definition current_file (s : Store) : File := default [] (files s !! file_path s).

(** [switch_project] takes no part in the persist lock. *)
Definition switch_project (path : string) (s : Store) : Store :=
  mkStore (read_file (files s !! path)) path (files s) (archive s) (holder s) (rewrites s) (restoring s).

(** *** Adding *)

Record AddOutcome := mkOutcome { entry : MemoryEntry; created : bool }.

Definition new_entry (fresh now text : string) (cat : MemoryCategory) (src : string) (imp : f64) : MemoryEntry :=
  mkEntry fresh text cat now src (f64_clamp f64_zero f64_one imp) 0 None false.

Definition existing (text : string) (l : list MemoryEntry) : option MemoryEntry :=
  List.find (fun e => String.eqb (content e) text) (retain (fun e => negb (archived e)) l).

(** [add_with_importance], up to the append to the file; the answer is what it
    returns if that succeeds. *)
Definition begin_add (e : MemoryEntry) (s : Store) : result AddOutcome string * Store :=
  match validate_memory_content (content e) with
  | Err reason => (Err reason, s)
  | Ok _ =>
      match existing (content e) (entries s) with
      | Some x => (Ok (mkOutcome x false), s)
      | None => (Ok (mkOutcome e true), set_holder (Some (Append e)) (set_entries (entries s ++ [e]) s))
      end
  end.

(** *** Deleting *)

Definition begin_delete (p : string) (s : Store) : bool * Store :=
  let l := retain (fun e => negb (starts_with (id e) p)) (entries s) in
  if Nat.ltb (length l) (length (entries s)) then (true, set_holder (Some (Rewrite l)) (set_entries l s))
  else (false, set_entries l s).

Definition begin_clear (s : Store) : nat * Store :=
  (length (entries s), set_holder (Some (Rewrite [])) (set_entries [] s)).

Section Store.
Context `{Clk : Clock} (powf : f64 -> f64 -> f64).

(** [record_recall], up to its rewrite, which happens without the lock. *)
Definition recall_entry (now : Z) (c : DecayConfig) (ids : list string) (e : MemoryEntry) : MemoryEntry :=
  if existsb (starts_with (id e)) ids then boost_on_recall now c e else e.

Definition begin_recall (now : Z) (c : DecayConfig) (ids : list string) (s : Store) : Store :=
  if existsb (fun e => existsb (starts_with (id e)) ids) (entries s)
  then let l := recall_entry now c ids <$> entries s in set_rewrites (rewrites s ++ [l]) (set_entries l s)
  else s.

(** *** Archiving and restoring *)

Definition in_ids (ids : list string) (e : MemoryEntry) : bool := bool_decide (id e ∈ ids).

(** [archive_low_importance]; without anything to archive the decayed entries
    stay in memory only. *)
Definition begin_archive_low (now : Z) (c : DecayConfig) (s : Store) : Store :=
  let '(l, ids) := apply_decay powf now c (entries s) in
  match ids with
  | [] => set_entries l s
  | _ => let kept := retain (fun e => negb (in_ids ids e)) l in
         set_holder (Some (RewriteAndArchive kept (retain (in_ids ids) l))) (set_entries kept s)
  end.

Definition begin_archive_id (p : string) (s : Store) : option MemoryEntry * Store :=
  match take_prefix p (entries s) with
  | Some (e, l) => (Some (set_archived true e), set_holder (Some (RewriteAndMove l e)) (set_entries l s))
  | None => (None, s)
  end.

(** [restore_from_archive]: the entry leaves the archive before the persist lock
    is asked for; then it is appended without a look for duplicates. *)
Definition DEFAULT_IMPORTANCE : f64 := f64_ratio 1 2.

Definition restore_take (archive_ok : bool) (p : string) (s : Store) : option MemoryEntry * Store :=
  match restore_memory archive_ok p (archive s) with
  | (Some e, a) =>
      let e := set_archived false (set_importance DEFAULT_IMPORTANCE e) in
      (Some e, set_restoring (restoring s ++ [e]) (set_archive a s))
  | (None, _) => (None, s)
  end.

Definition begin_restore (s : Store) : Store :=
  match restoring s with
  | e :: rest => set_holder (Some (Append e)) (set_entries (entries s ++ [e]) (set_restoring rest s))
  | [] => s
  end.

(** *** The writes *)

Definition commit_write (ok : bool) (p : Pending) (s : Store) : Store :=
  if ok then
    set_file match p with
             | Append e => current_file s ++ [Line e]
             | Rewrite l | RewriteAndArchive l _ | RewriteAndMove l _ => Line <$> l
             end s
  else s.

(** The rest of the operation that holds the lock; the archive is written in
    any case. *)
Definition commit (ok archive_ok : bool) (s : Store) : Store :=
  match holder s with
  | None => s
  | Some p =>
      let s := set_holder None (commit_write ok p s) in
      match p with
      | RewriteAndArchive _ moved => set_archive (archive_memories archive_ok moved (archive s)).2 s
      | RewriteAndMove _ e => set_archive (archive_memory archive_ok e (archive s)).2 s
      | _ => s
      end
  end.

(** The rewrite of the oldest recall that has not written yet. *)
Definition commit_recall (ok : bool) (s : Store) : Store :=
  match rewrites s with
  | [] => s
  | l :: rest => let s := set_rewrites rest s in if ok then set_file (Line <$> l) s else s
  end.

(** ** Interleavings *)

Inductive Event :=
| EAdd (e : MemoryEntry)
| EDelete (p : string)
| EClear
| ERecall (now : Z) (ids : list string)
| EMaintain (now : Z)
| EArchive (p : string)
| ETake (archive_ok : bool) (p : string)
| ERestore
| ECommit (ok archive_ok : bool)
| ECommitRecall (ok : bool)
| ESwitch (path : string).

(** Operations that take the persist lock wait until it is free. *)
Definition locked (f : Store -> Store) (s : Store) : option Store :=
  match holder s with None => Some (f s) | Some _ => None end.

Definition exec (c : DecayConfig) (ev : Event) (s : Store) : option Store :=
  match ev with
  | EAdd e => locked (fun s => (begin_add e s).2) s
  | EDelete p => locked (fun s => (begin_delete p s).2) s
  | EClear => locked (fun s => (begin_clear s).2) s
  | ERecall now ids => locked (begin_recall now c ids) s
  | EMaintain now => locked (begin_archive_low now c) s
  | EArchive p => locked (fun s => (begin_archive_id p s).2) s
  | ETake aok p => Some (restore_take aok p s).2
  | ERestore => locked begin_restore s
  | ECommit ok aok => Some (commit ok aok s)
  | ECommitRecall ok => Some (commit_recall ok s)
  | ESwitch path => Some (switch_project path s)
  end.

Fixpoint exec_all (c : DecayConfig) (evs : list Event) (s : Store) : option Store :=
  match evs with
  | [] => Some s
  | ev :: evs' => s' ← exec c ev s; exec_all c evs' s'
  end.

(** [run_maintenance], without anything in between. *)
Definition run_maintenance (ok archive_ok : bool) (now : Z) (c : DecayConfig) (s : Store) : ArchiveResult * Store :=
  let s1 := begin_archive_low now c s in
  let r := match holder s1 with
           | Some (RewriteAndArchive _ moved) => (archive_memories archive_ok moved (archive s1)).1
           | _ => mkArchived [] 0
           end in
  let s2 := commit ok archive_ok s1 in
  let '(n, a) := cleanup_archive archive_ok (archive s2) in
  (mkArchived (archived_ids r) (deleted_count r + n), set_archive a s2).

(** ** The fragment of the system prompt *)

Definition candidates (l : list MemoryEntry) : list MemoryEntry :=
  retain (fun e => negb (archived e) && negb (is_empty (trim (content e))))%bool l.

Definition score (now : Z) (c : DecayConfig) (e : MemoryEntry) : f64 := decay_score powf e (days_since_anchor now e) c.

(** Highest first; what cannot be compared counts as equal. *)
Definition ranked (now : Z) (c : DecayConfig) (l : list MemoryEntry) : list MemoryEntry :=
  sort_by (fun a b => negb (f64_lt (score now c a) (score now c b))) (candidates l).

Definition line_len (e : MemoryEntry) : nat := char_count (bytes_of (content e)) + 2.

(** The greedy filling: what is selected, and the characters used. *)
Fixpoint fill (budget used : nat) (l : list MemoryEntry) : list MemoryEntry * nat :=
  match l with
  | [] => ([], used)
  | e :: l' =>
      if Nat.ltb budget (used + line_len e) then fill budget used l'
      else let '(sel, n) := fill budget (used + line_len e) l' in (e :: sel, n)
  end.

Definition group_title (cat : MemoryCategory) : string :=
  match cat with Fact => "## Facts" | Preference => "## Preferences" | Decision => "## Decisions" end.

Definition render_group (sel : list MemoryEntry) (cat : MemoryCategory) : list string :=
  match retain (fun e => bool_decide (category e = cat)) sel with
  | [] => []
  | group => group_title cat :: ((fun e => "- " +:+ content e) <$> group)
  end.

Definition nl : string := string_of [LF].
Definition dot_dash : string := string_of (utf8 [194; 183]%nat).

Definition fragment_header (chosen total used budget : nat) : string :=
  "# Long-term Memory [" +:+ show_nat chosen +:+ "/" +:+ show_nat total +:+ " memories " +:+ dot_dash +:+ " " +:+
  show_nat used +:+ "/" +:+ show_nat budget +:+ " chars]" +:+ nl +:+ nl +:+
  "The following are facts, preferences, and decisions remembered from previous conversations. Use them to provide personalized responses."
  +:+ nl.

Definition fragment_footer (omitted : nat) : list string :=
  match omitted with
  | O => []
  | _ => [nl +:+ "[" +:+ show_nat omitted +:+ " lower-priority memories not shown " +:+ string_of (utf8 [226; 128; 148]%nat) +:+
          " recall them with the MemorySearch tool.]"]
  end.

(** [build_prompt_fragment_with]. *)
Definition build_prompt_fragment_with (now : Z) (c : DecayConfig) (l : list MemoryEntry) : option string :=
  let order := ranked now c l in
  let '(sel, used) := fill (prompt_char_budget c) 0 order in
  match sel with
  | [] => None
  | _ => Some (String.concat nl
           (fragment_header (length sel) (length order) used (prompt_char_budget c) ::
            (render_group sel Fact ++ render_group sel Preference ++ render_group sel Decision) ++
            fragment_footer (length order - length sel)))
  end.

(** ** Statistics *)

Record MemoryStats := mkStats {
  total : nat; facts : nat; preferences : nat; decisions : nat; archived_count : nat; avg_importance : f64
}.

Definition count (f : MemoryEntry -> bool) (l : list MemoryEntry) : nat := length (retain f l).

Definition stats (l : list MemoryEntry) : MemoryStats :=
  mkStats (length l) (count (fun e => bool_decide (category e = Fact)) l)
    (count (fun e => bool_decide (category e = Preference)) l) (count (fun e => bool_decide (category e = Decision)) l)
    (count archived l)
    (match l with [] => f64_zero | _ => f64_div (f64_sum (importance <$> l)) (f64_of_Z (Z.of_nat (length l))) end).

(** ** The scheduler: [cleanup.rs] *)

Record CleanupState := mkCleanup { last_run : option string; run_count : Z; total_archived : Z; total_deleted : Z }.

Definition interval_secs (c : DecayConfig) : Z := mul64 (cleanup_interval_hours c) 3600.

(** The seconds since the last run as an unsigned number. *)
Definition is_cleanup_due (now interval : Z) (st : CleanupState) : bool :=
  match last_run st with
  | None => true
  | Some last =>
      let t := default (now - 365 * DAY_MS) (parse_rfc3339 last) in
      Z.leb interval (wrap64 (Z.quot (now - t) 1000))
  end.

Definition run_cleanup (ok archive_ok : bool) (now : Z) (c : DecayConfig) (s : Store) (st : CleanupState) :
    ArchiveResult * Store * CleanupState :=
  let '(r, s) := run_maintenance ok archive_ok now c s in
  (r, s, mkCleanup (Some (to_rfc3339 now)) (add32 (run_count st) 1)
           (add64 (total_archived st) (Z.of_nat (length (archived_ids r))))
           (add64 (total_deleted st) (Z.of_nat (deleted_count r)))).

(** The loop of [start] over its wake-ups, every five minutes until a
    shutdown. *)
Fixpoint cleanup_loop (c : DecayConfig) (ticks : list (Z * bool)) (s : Store) (st : CleanupState) : Store * CleanupState :=
  match ticks with
  | [] => (s, st)
  | (now, shutdown) :: rest =>
      if shutdown then (s, st)
      else if is_cleanup_due now (interval_secs c) st
           then let '(_, s, st) := run_cleanup true true now c s st in cleanup_loop c rest s st
           else cleanup_loop c rest s st
  end.
End Store.
