(* ===== verification/MemoryProofs.v ===== *)
(** * MemoryProofs: what the long-term memory keeps

    The file follows the entries, over all interleavings that leave the
    rewrites of recalls alone; archiving and restoring lose nothing; and the
    fragment of the prompt fits its budget. *)

From stdpp Require Import base gmap strings list relations.
From Stdlib Require Import ZArith Lia Sorted SpecFloat.
From S2P Require Import Prelude Text Float64 ToolHealth Security MemoryStore.

#[local] Open Scope Z_scope.

(** What identifies an entry, whatever happens to the rest of it. *)
Definition ident (e : MemoryEntry) : string * string := (id e, content e).
Definition idents (l : list MemoryEntry) : list (string * string) := ident <$> l.

(** An entry but for its importance: every other field as it is. *)
Definition bare (e : MemoryEntry) : MemoryEntry := set_importance f64_zero e.

(** The entries without repeated contents. *)
Definition distinct (l : list MemoryEntry) : list MemoryEntry := parse_entries ∅ (Line <$> l).

(** ** Reading files *)

Lemma parse_snoc seen f e :
  parse_entries seen (f ++ [Line e]) =
  parse_entries seen f ++ if bool_decide (content e ∈ seen \/ content e ∈ content <$> parse_entries seen f) then [] else [e].
Proof.
  revert seen. induction f as [|[x| |] f IH]; intros seen; cbn [app parse_entries].
  - rewrite fmap_nil. repeat case_bool_decide; try done; [naive_solver|]. destruct H0 as [?|?%not_elem_of_nil]; done.
  - case_bool_decide as Hx; [by rewrite IH|]. rewrite IH. cbn [app]. f_equal. f_equal.
    rewrite fmap_cons. repeat case_bool_decide; try done; set_solver.
  - apply IH.
  - apply IH.
Qed.

Lemma bare_content e e' : bare e = bare e' -> content e = content e'.
Proof. unfold bare, set_importance. congruence. Qed.

Lemma parse_bare seen (l l' : list MemoryEntry) :
  bare <$> l = bare <$> l' -> bare <$> parse_entries seen (Line <$> l) = bare <$> parse_entries seen (Line <$> l').
Proof.
  revert seen l'. induction l as [|x l IH]; intros seen [|y l'] Hl; try done. rewrite !fmap_cons in Hl.
  pose proof (f_equal head Hl) as [= Hb]. apply (f_equal tail) in Hl. cbn [tail] in Hl.
  rewrite !fmap_cons. cbn [parse_entries]. rewrite (bare_content x y) by (unfold bare, set_importance; congruence).
  case_bool_decide; [by apply IH|]. rewrite !fmap_cons, (IH _ l' Hl). f_equal. unfold bare, set_importance. congruence.
Qed.

Lemma bare_contents (l l' : list MemoryEntry) : bare <$> l = bare <$> l' -> content <$> l = content <$> l'.
Proof.
  intros Hl. apply (f_equal (fmap content)) in Hl. by rewrite <- !list_fmap_compose in Hl.
Qed.

Lemma bare_snoc f f' e :
  bare <$> parse_entries ∅ f = bare <$> parse_entries ∅ f' ->
  bare <$> parse_entries ∅ (f ++ [Line e]) = bare <$> parse_entries ∅ (f' ++ [Line e]).
Proof. intros Hf. by rewrite !parse_snoc, !fmap_app, Hf, (bare_contents _ _ Hf). Qed.

Lemma parse_subset seen f e : e ∈ parse_entries seen f -> content e ∉ seen.
Proof.
  revert seen. induction f as [|[x| |] f IH]; intros seen; cbn [parse_entries]; [by intros ?%not_elem_of_nil| |apply IH..].
  case_bool_decide as Hx; [apply IH|]. intros [->|He]%elem_of_cons; [done|]. apply IH in He. set_solver.
Qed.

(** What a file gives has no repeated contents. *)
Lemma parse_again seen seen' f :
  seen' ⊆ seen -> parse_entries seen' (Line <$> parse_entries seen f) = parse_entries seen f.
Proof.
  revert seen seen'. induction f as [|[x| |] f IH]; intros seen seen' Hs; cbn [parse_entries]; [done| |by apply IH..].
  case_bool_decide as Hx; [by apply IH|]. rewrite fmap_cons. cbn [parse_entries]. rewrite bool_decide_eq_false_2 by set_solver.
  f_equal. apply IH. set_solver.
Qed.

Section Memory.
Context `{Clk : Clock} (powf : f64 -> f64 -> f64) (c : DecayConfig).

(** ** The file follows the entries *)

(** The file read back, up to importances. *)
Definition reads_as (s : Store) (l : list MemoryEntry) : Prop :=
  bare <$> read_file (files s !! file_path s) = bare <$> distinct l.

(** Writes succeed; while a recall is writing nothing else is started, and a
    project is switched when nothing is under way. *)
Definition careful (ev : Event) (s : Store) : Prop :=
  match ev with
  | ECommit ok _ => ok = true
  | ECommitRecall ok => ok = true
  | ESwitch _ => holder s = None /\ rewrites s = []
  | _ => rewrites s = []
  end.

Definition careful_step (s s' : Store) : Prop := exists ev, careful ev s /\ exec powf c ev s = Some s'.

Definition file_inv (s : Store) : Prop :=
  match holder s, rewrites s with
  | None, [] => reads_as s (entries s)
  | None, [l] => l = entries s
  | Some (Append e), [] => exists l, entries s = l ++ [e] /\ reads_as s l
  | Some (Rewrite l | RewriteAndArchive l _ | RewriteAndMove l _), [] => l = entries s
  | _, _ => False
  end.

Lemma recall_ident now ids e : ident (recall_entry now c ids e) = ident e.
Proof. unfold recall_entry. by destruct (existsb _ _). Qed.

Lemma idents_map (f : MemoryEntry -> MemoryEntry) l : (forall e, ident (f e) = ident e) -> idents (f <$> l) = idents l.
Proof. intros Hf. unfold idents. rewrite <- list_fmap_compose. apply list_fmap_ext. intros i e _. apply Hf. Qed.

Lemma read_lines path l fs : read_file ((<[path := Line <$> l]> fs : gmap string File) !! path) = distinct l.
Proof. unfold read_file. by rewrite lookup_insert_eq. Qed.

Lemma decayed_ident now e : ident (decayed powf now c e) = ident e.
Proof. unfold decayed. repeat case_match; done. Qed.

(** Where nothing falls below the threshold only importances change. *)
Lemma decayed_bare now (l : list MemoryEntry) :
  retain (fun e => negb (archived e) && archived (decayed powf now c e))%bool l = [] ->
  bare <$> (decayed powf now c <$> l) = bare <$> l.
Proof.
  intros Hn. rewrite <- list_fmap_compose. apply list_fmap_ext. intros i e He. apply list_elem_of_lookup_2 in He.
  assert (Hk : (negb (archived e) && archived (decayed powf now c e))%bool = false).
  { destruct (_ && _)%bool eqn:Hk; [|done]. assert (Hx : e ∈ []) by (rewrite <- Hn; by apply elem_of_retain). by apply not_elem_of_nil in Hx. }
  unfold compose, decayed in *. destruct (archived e) eqn:Ha; [done|]. cbn [negb andb] in Hk.
  destruct (should_archive _ _); [done|]. done.
Qed.

Lemma retain_all {A} (f : A -> bool) l : (length l <= length (retain f l))%nat -> retain f l = l.
Proof.
  intros Hl. induction l as [|x l IH]; [done|]. rewrite retain_cons in *. pose proof (retain_length_le f l).
  destruct (f x); cbn [length] in *; [by rewrite IH by lia|lia].
Qed.

Lemma commit_reads p s :
  holder s = Some p -> rewrites s = [] -> file_inv s -> reads_as (commit_write true p s) (entries s).
Proof.
  intros Hp Hr Hi. unfold file_inv in Hi. rewrite Hp, Hr in Hi. unfold reads_as, commit_write.
  cbn [files file_path set_file]. destruct p as [e|l|l m|l e].
  2-4: subst l; by rewrite read_lines.
  destruct Hi as (l & Hl & Hf). rewrite Hl. unfold read_file, distinct, current_file. rewrite lookup_insert_eq, fmap_app. simpl.
  by apply bare_snoc.
Qed.

Lemma commit_inv s aok : file_inv s -> file_inv (commit true aok s).
Proof.
  intros Hi. unfold commit. destruct (holder s) as [p|] eqn:Hp; [|done].
  assert (Hr : rewrites s = []).
  { unfold file_inv in Hi. rewrite Hp in Hi. destruct p, (rewrites s); done. }
  pose proof (commit_reads p s Hp Hr Hi) as Hc.
  assert (Hf : file_inv (set_holder None (commit_write true p s))).
  { unfold file_inv. cbn [holder rewrites set_holder commit_write set_file]. by rewrite Hr. }
  destruct p; exact Hf.
Qed.

Lemma careful_inv s s' : careful_step s s' -> file_inv s -> file_inv s'.
Proof.
  intros (ev & Hc & He) Hi. destruct ev as [e|p| |now ids|now|p|aok p| |ok aok|ok|path]; cbn [careful exec] in Hc, He.
  9: { subst ok. injection He as <-. by apply commit_inv. }
  9: { subst ok. injection He as <-. unfold commit_recall. destruct (rewrites s) as [|l rest] eqn:Hr; [done|].
       unfold file_inv in *. rewrite Hr in Hi. destruct (holder s) as [[]|] eqn:Hh; try done. destruct rest; [|done].
       cbn [holder rewrites set_file set_rewrites]. rewrite Hh. unfold reads_as. cbn [files file_path set_file set_rewrites entries].
       by rewrite read_lines, Hi. }
  9: { injection He as <-. destruct Hc as [Hh Hr]. unfold file_inv. cbn [holder rewrites switch_project]. rewrite Hh, Hr.
       unfold reads_as. cbn [files file_path entries switch_project]. unfold distinct, read_file. by rewrite parse_again. }
  7: { injection He as <-. unfold restore_take. destruct (restore_memory _ _ _) as [[e|] a]; exact Hi. }
  all: unfold locked in He; destruct (holder s) eqn:Hh; [done|]; injection He as <-.
  all: pose proof Hi as Hq; unfold file_inv in Hq; rewrite Hh, Hc in Hq.
  - unfold begin_add. destruct (validate_memory_content _); [|done]. destruct (existing _ _); [done|]. unfold file_inv. simpl. rewrite Hc.
    by exists (entries s).
  - unfold begin_delete. destruct (Nat.ltb_spec (length (retain (fun e => negb (starts_with (id e) p)) (entries s))) (length (entries s))) as [Hlt|Hge].
    + unfold file_inv. simpl. by rewrite Hc.
    + cbn [snd]. rewrite retain_all by done. unfold file_inv. simpl. by rewrite Hh, Hc.
  - unfold begin_clear, file_inv. simpl. by rewrite Hc.
  - unfold begin_recall. destruct (existsb _ _); [|done]. unfold file_inv. simpl. rewrite Hh, Hc. simpl. done.
  - unfold begin_archive_low, apply_decay. destruct (id <$> _) as [|i ids] eqn:Hids.
    + apply fmap_nil_inv in Hids. unfold file_inv. simpl. rewrite Hh, Hc. unfold reads_as in *. cbn [entries set_entries files file_path].
      rewrite Hq. symmetry. by apply parse_bare, decayed_bare.
    + unfold file_inv. simpl. by rewrite Hc.
  - unfold begin_archive_id. destruct (take_prefix _ _) as [[e l]|]; [|done]. unfold file_inv. simpl. by rewrite Hc.
  - unfold begin_restore. destruct (restoring s) as [|e rest]; [done|]. unfold file_inv. simpl. rewrite Hc. by exists (entries s).
Qed.

(** Claim C22. The file follows the memory: from a freshly loaded store, over
    every interleaving of additions, deletions, recalls, maintenance, archiving
    and restoring in which writes succeed, nothing is started while a recall
    still has to write, and the project is switched between operations, reading
    the file back gives the entries in memory, in order and without repeated
    contents, whenever nothing is under way: every field of them (identifier,
    content, category, source, dates, recalls, whether archived) but the
    importance, which decays in memory only. *)
Theorem file_follows_memory (path : string) (fs : gmap string File) (a : MemoryArchive) (s : Store)
    (Hs : rtc careful_step (load_with_path path fs a) s) :
  holder s = None -> rewrites s = [] ->
  bare <$> read_file (files s !! file_path s) = bare <$> distinct (entries s).
Proof.
  assert (Hi : file_inv s).
  { remember (load_with_path path fs a) as s0 eqn:H0. assert (Hi : file_inv s0).
    { subst s0. unfold file_inv. simpl. unfold reads_as. simpl. unfold distinct, read_file. by rewrite parse_again. }
    clear H0. induction Hs as [|s0 s1 s2 Hst _ IH]; [done|]. by apply IH, (careful_inv s0). }
  intros Hh Hr. unfold file_inv in Hi. by rewrite Hh, Hr in Hi.
Qed.
End Memory.

(** ** Archiving and restoring *)

Section Moves.
Context `{Clk : Clock} (powf : f64 -> f64 -> f64) (c : DecayConfig).

(** What is on its way to the archive. *)
Definition moving (s : Store) : list MemoryEntry :=
  match holder s with
  | Some (RewriteAndArchive _ moved) => moved
  | Some (RewriteAndMove _ e) => [e]
  | _ => []
  end.

(** Everything the store holds somewhere. *)
Definition held (s : Store) : list (string * string) :=
  idents (entries s) ++ idents (moving s) ++ idents (restoring s) ++ idents (archive_entries (archive s)).

(** The events that move entries, with writes that succeed or fail. *)
Definition moves (ev : Event) : Prop :=
  match ev with EAdd _ | EDelete _ | EClear | ESwitch _ => False | _ => True end.

Definition move_step (s s' : Store) : Prop := exists ev, moves ev /\ exec powf c ev s = Some s'.

Lemma retain_perm {A} (f : A -> bool) l : retain (fun x => negb (f x)) l ++ retain f l ≡ₚ l.
Proof.
  induction l as [|x l IH]; [done|]. rewrite !retain_cons. destruct (f x); cbn [negb app].
  - by rewrite <- Permutation_middle, IH.
  - by rewrite IH.
Qed.

Lemma take_prefix_perm p l e l' : take_prefix p l = Some (e, l') -> l ≡ₚ e :: l'.
Proof.
  revert l'. induction l as [|x l IH]; intros l'; [done|]. cbn [take_prefix]. destruct (starts_with (id x) p); [by intros [= -> ->]|].
  destruct (take_prefix p l) as [[y k]|]; [|done]. intros [= -> <-]. by rewrite (IH k eq_refl), Permutation_swap.
Qed.

Lemma idents_app l l' : idents (l ++ l') = idents l ++ idents l'.
Proof. apply fmap_app. Qed.

Lemma idents_perm l l' : l ≡ₚ l' -> idents l ≡ₚ idents l'.
Proof. intros Hl. unfold idents. by rewrite Hl. Qed.

Lemma idents_cons e l : idents (e :: l) = ident e :: idents l.
Proof. done. Qed.

Lemma archived_idents l : idents (set_archived true <$> l) = idents l.
Proof. by apply idents_map. Qed.

Lemma archive_memories_held ok l a :
  (length (archive_entries a) + length l <= archive_max a)%nat ->
  archive_entries (archive_memories ok l a).2 = archive_entries a ++ (set_archived true <$> l) /\
  archive_max (archive_memories ok l a).2 = archive_max a.
Proof.
  intros Hl. unfold archive_memories. destruct l as [|e l]; [by rewrite fmap_nil, app_nil_r|]. cbn [snd].
  set (all := archive_entries a ++ _).
  assert (Ho : over a all = 0%nat) by (unfold over, all; rewrite length_app, length_fmap; lia).
  rewrite Ho. unfold write_archive. by destruct ok.
Qed.

Lemma commit_held ok aok s :
  (length (held s) <= archive_max (archive s))%nat ->
  held (commit ok aok s) ≡ₚ held s /\ archive_max (archive (commit ok aok s)) = archive_max (archive s).
Proof.
  intros Hl. unfold commit, held, moving in *. destruct (holder s) as [p|] eqn:Hp; [|by rewrite Hp].
  set (s1 := set_holder None (commit_write ok p s)).
  assert (H1 : entries s1 = entries s /\ restoring s1 = restoring s /\ archive s1 = archive s /\ holder s1 = None)
    by (unfold s1, commit_write; by destruct ok).
  destruct H1 as (He & Hr & Ha & Hh).
  destruct p as [e|l|l m|l e]; cbn [holder set_archive entries restoring archive].
  - by rewrite He, Hr, Ha, Hh.
  - by rewrite He, Hr, Ha, Hh.
  - rewrite He, Hr, Ha, Hh. rewrite !length_app in Hl. unfold idents in Hl at 2 4. rewrite !length_fmap in Hl.
    destruct (archive_memories_held aok m (archive s) ltac:(lia)) as [-> ->]. split; [|done].
    rewrite idents_app, archived_idents. change (idents []) with (@nil (string * string)). cbn [app]. apply Permutation_app_head. solve_Permutation.
  - rewrite He, Hr, Ha, Hh. unfold archive_memory. cbn [snd archive_entries archive_max]. split; [|done].
    rewrite idents_app. change (idents []) with (@nil (string * string)). cbn [app]. change (idents [set_archived true e]) with (idents [e]). apply Permutation_app_head. solve_Permutation.
Qed.

Lemma maintain_held now s :
  holder s = None ->
  held (begin_archive_low powf now c s) ≡ₚ held s /\ archive (begin_archive_low powf now c s) = archive s.
Proof.
  intros Hh. unfold begin_archive_low, apply_decay. set (l := decayed powf now c <$> entries s).
  assert (Hl : idents l = idents (entries s)) by (apply idents_map, decayed_ident).
  unfold held, moving. destruct (id <$> _) as [|i ids]; cbn [entries holder restoring archive set_entries set_holder]; rewrite Hh.
  - by rewrite Hl.
  - split; [|done]. rewrite app_assoc, <- idents_app. apply Permutation_app_tail. rewrite <- Hl. apply idents_perm, retain_perm.
Qed.

Lemma move_held s s' :
  (length (held s) <= archive_max (archive s))%nat -> move_step s s' ->
  held s' ≡ₚ held s /\ archive_max (archive s') = archive_max (archive s).
Proof.
  intros Hl (ev & Hm & He). destruct ev as [e|p| |now ids|now|p|aok p| |ok aok|ok|path]; try done; cbn [exec] in He.
  6: { injection He as <-. by apply commit_held. }
  6: { injection He as <-. unfold commit_recall. destruct (rewrites s); [done|]. by destruct ok. }
  5: { unfold locked in He. destruct (holder s) eqn:Hh; [done|]. injection He as <-. unfold begin_restore.
       destruct (restoring s) as [|e rest] eqn:Hr; [done|]. unfold held, moving. cbn. rewrite Hh, Hr. split; [|done].
       rewrite idents_app, !idents_cons. change (idents []) with (@nil (string * string)). cbn [app]. solve_Permutation. }
  4: { injection He as <-. unfold restore_take, restore_memory. destruct (take_prefix p _) as [[e l]|] eqn:Ht; [|done].
       unfold write_archive. apply take_prefix_perm, idents_perm in Ht. rewrite idents_cons in Ht.
       unfold held, moving. destruct aok; cbn; (split; [|done]); rewrite Ht, idents_app, idents_cons;
       change (idents []) with (@nil (string * string)); unfold ident; cbn; solve_Permutation. }
  all: unfold locked in He; destruct (holder s) eqn:Hh; [done|]; injection He as <-.
  - unfold begin_recall. destruct (existsb _ _); [|done]. unfold held, moving. cbn. rewrite Hh. split; [|done].
    by rewrite (idents_map (recall_entry now c ids)) by apply recall_ident.
  - destruct (maintain_held now s Hh) as [H1 H2]. by rewrite H2.
  - unfold begin_archive_id. destruct (take_prefix p _) as [[e l]|] eqn:Ht; [|done]. apply take_prefix_perm, idents_perm in Ht.
    rewrite idents_cons in Ht. unfold held, moving. cbn. rewrite Hh, Ht. split; [|done].
    change (idents []) with (@nil (string * string)). change (idents [e]) with [ident e]. cbn [app]. solve_Permutation.
Qed.

(** Claim C23. Nothing is forgotten on the way to the archive and back: over
    every interleaving of recalls, maintenance, archiving and restoring, with
    writes that succeed or fail, the active entries and the archive together
    hold exactly the entries they held before, each as often, whenever nothing
    is under way, provided the archive has room for all of them; beyond its
    limit it drops its oldest. *)
Theorem nothing_forgotten (s s' : Store)
    (Hm : rtc move_step s s') (Hroom : (length (held s) <= archive_max (archive s))%nat) :
  held s' ≡ₚ held s /\
  (holder s' = None -> restoring s' = [] ->
   idents (entries s') ++ idents (archive_entries (archive s')) ≡ₚ held s).
Proof.
  assert (Hh : held s' ≡ₚ held s).
  { revert Hroom. induction Hm as [|s0 s1 s2 Hst _ IH]; [done|]. intros Hroom. destruct (move_held s0 s1 Hroom Hst) as [Hp Ha].
    rewrite IH; [done|]. by rewrite Ha, Hp. }
  split; [done|]. intros Hn Hr. rewrite <- Hh. unfold held, moving. by rewrite Hn, Hr.
Qed.
End Moves.

(** ** The fragment of the prompt *)

Section Fragment.
Context `{Clk : Clock} (powf : f64 -> f64 -> f64).

Definition chars_of (l : list MemoryEntry) : nat := foldr (fun e n => (line_len e + n)%nat) 0%nat l.

Lemma fill_spec budget used l :
  (used <= budget)%nat ->
  let '(sel, n) := fill budget used l in
  n = (used + chars_of sel)%nat /\ (n <= budget)%nat /\ sel `sublist_of` l /\
  forall e, e ∈ l -> e ∉ sel -> (budget < n + line_len e)%nat.
Proof.
  revert used. induction l as [|x l IH]; intros used Hu; cbn [fill].
  - split_and!; [simpl; lia|done|constructor|by intros e ?%not_elem_of_nil].
  - destruct (Nat.ltb_spec budget (used + line_len x)) as [Hno|Hfit].
    + specialize (IH used Hu). destruct (fill budget used l) as [sel n]. destruct IH as (Hn & Hb & Hs & Ho).
      split_and!; [done|done|by constructor|]. intros e [->|He]%elem_of_cons Hne; [lia|by apply Ho].
    + specialize (IH (used + line_len x)%nat Hfit). destruct (fill budget _ l) as [sel n]. destruct IH as (Hn & Hb & Hs & Ho).
      split_and!; [simpl; lia|done|by constructor|].
      intros e [->|He]%elem_of_cons Hne; [by rewrite not_elem_of_cons in Hne; destruct Hne|].
      apply Ho; [done|]. by rewrite not_elem_of_cons in Hne; destruct Hne.
Qed.

Definition scored_le (now : Z) (c : DecayConfig) (a b : MemoryEntry) : bool := negb (f64_lt (score powf now c a) (score powf now c b)).

(** The lines of the memories of one category, under its title; none for none. *)
Definition listing (title : string) (group : list MemoryEntry) : list string :=
  match group with [] => [] | _ => title :: ((fun e => "- " +:+ content e) <$> group) end.

(** What the fragment says of the memories it shows: how many of how many, in
    how many characters of how many, each under its category in the order of the
    ranking, and how many were left out. *)
Definition shows (budget total used : nat) (sel : list MemoryEntry) (text : string) : Prop :=
  exists facts preferences decisions,
    facts ++ preferences ++ decisions ≡ₚ sel /\
    Forall (fun '(cat, group) => group `sublist_of` sel /\ forall e, e ∈ group -> category e = cat)
      [(Fact, facts); (Preference, preferences); (Decision, decisions)] /\
    text = String.concat nl
      (("# Long-term Memory [" +:+ show_nat (length sel) +:+ "/" +:+ show_nat total +:+ " memories " +:+ dot_dash +:+ " " +:+
        show_nat used +:+ "/" +:+ show_nat budget +:+ " chars]" +:+ nl +:+ nl +:+
        "The following are facts, preferences, and decisions remembered from previous conversations. Use them to provide personalized responses."
        +:+ nl)
       :: (listing "## Facts" facts ++ listing "## Preferences" preferences ++ listing "## Decisions" decisions) ++
       (if Nat.eqb (length sel) total then []
        else [nl +:+ "[" +:+ show_nat (total - length sel) +:+ " lower-priority memories not shown " +:+
              string_of (utf8 [226; 128; 148]%nat) +:+ " recall them with the MemorySearch tool.]"])).

Definition of_category (cat : MemoryCategory) (sel : list MemoryEntry) : list MemoryEntry :=
  retain (fun e => bool_decide (category e = cat)) sel.

Lemma retain_sublist {A} (f : A -> bool) l : retain f l `sublist_of` l.
Proof. induction l as [|x l IH]; [done|]. rewrite retain_cons. destruct (f x); by constructor. Qed.

Lemma categories_perm sel : of_category Fact sel ++ of_category Preference sel ++ of_category Decision sel ≡ₚ sel.
Proof.
  unfold of_category. induction sel as [|e sel IH]; [done|]. rewrite !retain_cons.
  apply (Permutation_skip e) in IH. rewrite <- IH.
  destruct (category e); repeat case_bool_decide; try done; cbn [app]; solve_Permutation.
Qed.

Lemma render_listing sel cat : render_group sel cat = listing (group_title cat) (of_category cat sel).
Proof. unfold render_group, listing, of_category. by destruct (retain _ _). Qed.

Lemma footer_none total (sel : list MemoryEntry) :
  (length sel <= total)%nat ->
  fragment_footer (total - length sel) =
  if Nat.eqb (length sel) total then [] else
    [nl +:+ "[" +:+ show_nat (total - length sel) +:+ " lower-priority memories not shown " +:+
     string_of (utf8 [226; 128; 148]%nat) +:+ " recall them with the MemorySearch tool.]"].
Proof.
  intros Hl. unfold fragment_footer. destruct (Nat.eqb_spec (length sel) total) as [<-|Hne]; [by rewrite Nat.sub_diag|].
  destruct (total - length sel)%nat eqn:He; [lia|done].
Qed.

Lemma fragment_shows c total used sel :
  (length sel <= total)%nat ->
  shows (prompt_char_budget c) total used sel
    (String.concat nl
       (fragment_header (length sel) total used (prompt_char_budget c) ::
        (render_group sel Fact ++ render_group sel Preference ++ render_group sel Decision) ++
        fragment_footer (total - length sel))).
Proof.
  intros Hl. exists (of_category Fact sel), (of_category Preference sel), (of_category Decision sel).
  split; [apply categories_perm|]. split; [|by rewrite footer_none, !render_listing].
  assert (Hc : forall cat, of_category cat sel `sublist_of` sel /\ forall e, e ∈ of_category cat sel -> category e = cat).
  { intros cat. split; [apply retain_sublist|]. by intros e [_ ?%bool_decide_eq_true]%elem_of_retain. }
  repeat (apply Forall_cons; split; [apply Hc|]). apply Forall_nil. exact I.
Qed.

(** Claim C24. The fragment of the system prompt is bounded and complete: the
    memories selected are candidates in the order of their decayed importance,
    their lines take at most the budget, and a memory is left out only when it
    does not fit in what is left.  There is no fragment exactly when nothing is
    selected; otherwise its text is the header with the number of the memories
    shown and of all candidates and with the characters used and the budget,
    then every selected memory on a line of its own under the title of its
    category (facts, preferences, decisions, those that occur; in the order of
    the ranking within each), then the number left out, if any. *)
Theorem fragment_within_budget (now : Z) (c : DecayConfig) (l : list MemoryEntry) :
  let order := ranked powf now c l in
  let '(sel, used) := fill (prompt_char_budget c) 0 order in
  order ≡ₚ candidates l /\ Sorted (fun a b => scored_le now c a b = true) order /\ sel `sublist_of` order /\
  used = chars_of sel /\ (used <= prompt_char_budget c)%nat /\
  (forall e, e ∈ candidates l -> e ∉ sel -> (prompt_char_budget c < used + line_len e)%nat) /\
  match build_prompt_fragment_with powf now c l with
  | None => sel = []
  | Some text => sel <> [] /\ shows (prompt_char_budget c) (length (candidates l)) used sel text
  end.
Proof.
  intros order. pose proof (fill_spec (prompt_char_budget c) 0 order ltac:(lia)) as Hf.
  assert (Hperm : order ≡ₚ candidates l) by apply sort_by_perm. unfold build_prompt_fragment_with. fold order.
  destruct (fill _ _ order) as [sel used]. destruct Hf as (Hn & Hle & Hs & Ho). split_and!; [done| |done|done|done| |].
  - apply (sort_by_sorted (scored_le now c)). intros a b Hab. unfold scored_le in *. apply negb_false_iff in Hab.
    by rewrite (f64_lt_asym _ _ Hab).
  - intros e He. apply Ho. by apply elem_of_sort_by.
  - rewrite <- (Permutation_length Hperm). apply sublist_length in Hs. destruct sel as [|e sel]; [done|]. split; [done|]. by apply fragment_shows.
Qed.
End Fragment.

(** ** On concrete memories *)

Section Demo.

(** Instants as decimal numbers. *)
Definition decimal_clock : Clock :=
  {| to_rfc3339 := pretty.pretty; parse_rfc3339 := parse_int (- 2 ^ 62) (2 ^ 62) |}.
#[local] Existing Instance decimal_clock.

(** A power to a whole number of days. *)
Definition powi (x days : f64) : f64 := Nat.iter (Z.to_nat (f64_to_u64 days)) (f64_mul x) f64_one.

Definition remember (i text : string) : MemoryEntry := new_entry i "0" text Fact "user" (f64_ratio 1 2).

Definition empty_store : Store := load_with_path "m" ∅ (load_archive None 10).

Definition on_disk (s : Store) : list string := id <$> read_file (files s !! file_path s).

Definition run_events (evs : list Event) : option Store := exec_all powi default_config evs empty_store.

Definition added (i text : string) : list Event := [EAdd (remember i text); ECommit true true].

(** A recall writes its copy of the entries after it gave the lock up: what was
    added in between is no longer in the file, and lost with the next start. *)
Example recall_rewrite_loses_entry :
  (fun s => (id <$> entries s, on_disk s)) <$>
    run_events (added "a" "tea" ++ [ERecall 5 ["a"]] ++ added "b" "rust" ++ [ECommitRecall true]) =
  Some (["a"; "b"], ["a"])%string.
Proof. vm_compute. reflexivity. Qed.

(** Every run of the maintenance applies the decay of the whole time since the
    last recall to what the runs before have left: a memory of importance one
    half falls below the threshold on the eighteenth day, where one percent a
    day leaves it above four tenths. *)
Fixpoint daily_runs (from n : nat) (s : Store) : Store :=
  match n with
  | O => s
  | S n' => daily_runs (S from) n' (run_maintenance powi true true (Z.of_nat from * DAY_MS) default_config s).2
  end.

Example decay_compounds :
  let s := default empty_store (run_events (added "a" "tea")) in
  (id <$> entries (daily_runs 1 17 s)) = ["a"%string] /\ (id <$> entries (daily_runs 1 18 s)) = [] /\
  f64_lt (f64_ratio 4 10) (score powi (18 * DAY_MS) default_config (remember "a" "tea")) = true.
Proof. vm_compute. split_and!; reflexivity. Qed.

(** The decay of a run that archives nothing is not written. *)
Example decay_not_persisted :
  let s := daily_runs 1 5 (default empty_store (run_events (added "a" "tea"))) in
  (f64_eq (f64_ratio 1 2) ∘ importance <$> entries s) = [false] /\
  (f64_eq (f64_ratio 1 2) ∘ importance <$> read_file (files s !! file_path s)) = [true].
Proof. vm_compute. split; reflexivity. Qed.

(** A memory that is added again while its twin is archived comes back beside
    it; the next start drops the restored one. *)
Example restored_twin :
  (fun s => (id <$> entries s, on_disk s)) <$>
    run_events (added "a" "tea" ++ [EArchive "a"; ECommit true true] ++ added "b" "tea" ++
                [ETake true "a"; ERestore; ECommit true true]) =
  Some (["b"; "a"], ["b"])%string.
Proof. vm_compute. reflexivity. Qed.

(** An archived memory is first taken out of its file and then written to the
    archive; when that fails it is only logged, and the memory ends with the
    process. *)
Example failed_archive_forgets :
  (fun s => (on_disk s, id <$> read_archive (archive_file (archive s)))) <$>
    run_events (added "a" "tea" ++ [EArchive "a"; ECommit true false]) = Some ([], []).
Proof. vm_compute. reflexivity. Qed.

(** A clock that was set back makes the time since the last run a huge unsigned
    number: the maintenance runs at every wake-up. *)
Example clock_back_runs :
  is_cleanup_due (2 * DAY_MS - 1000) (interval_secs default_config) (mkCleanup (Some "172800000"%string) 1 0 0) = true /\
  is_cleanup_due (3 * DAY_MS - 1) (interval_secs default_config) (mkCleanup (Some "172800000"%string) 1 0 0) = false.
Proof. vm_compute. split; reflexivity. Qed.

(** An empty prefix matches every memory. *)
Example empty_prefix_deletes_all :
  (fun s => entries s) <$> run_events (added "a" "tea" ++ added "b" "rust" ++ [EDelete ""]) = Some [].
Proof. vm_compute. reflexivity. Qed.

Definition demo_events : list Event :=
  added "a" "tea" ++ added "b" "rust" ++ [ERecall 5 ["a"]; ECommitRecall true; EArchive "b"; ECommit true true].

Definition idle (s : Store) : bool := match rewrites s with [] => true | _ => false end.

Definition is_careful (ev : Event) (s : Store) : bool :=
  match ev with
  | ECommit ok _ | ECommitRecall ok => ok
  | ESwitch _ => match holder s with None => idle s | Some _ => false end
  | _ => idle s
  end.

Lemma is_careful_careful ev s : is_careful ev s = true -> careful ev s.
Proof. unfold is_careful, idle. destruct ev; simpl; repeat case_match; by intros. Qed.

Fixpoint run_careful (evs : list Event) (s : Store) : option Store :=
  match evs with
  | [] => Some s
  | ev :: rest => if is_careful ev s then s' ← exec powi default_config ev s; run_careful rest s' else None
  end.

Lemma run_careful_steps evs s s' : run_careful evs s = Some s' -> rtc (careful_step powi default_config) s s'.
Proof.
  revert s. induction evs as [|ev evs IH]; intros s; [by intros [= ->]|]. cbn [run_careful].
  destruct (is_careful ev s) eqn:Hc; [|done]. destruct (exec powi default_config ev s) as [s1|] eqn:He; [|done].
  intros Hr. apply (rtc_l _ _ s1); [exists ev; split; [by apply is_careful_careful|done]|by apply IH].
Qed.

Lemma demo_ends :
  (fun s => (holder s, length (rewrites s), on_disk s)) <$> run_careful demo_events empty_store = Some (None, 0%nat, ["a"%string]).
Proof. vm_compute. reflexivity. Qed.

Lemma file_follows_memory_witness :
  exists s, rtc (careful_step powi default_config) empty_store s /\ on_disk s = ["a"%string] /\
            bare <$> read_file (files s !! file_path s) = bare <$> distinct (entries s).
Proof.
  pose proof demo_ends as He. destruct (run_careful demo_events empty_store) as [s|] eqn:Hs; [|discriminate He].
  simpl in He. injection He as Hh Hw Hd. pose proof (run_careful_steps _ _ _ Hs) as Hr. exists s. split; [exact Hr|]. split; [exact Hd|].
  apply (@file_follows_memory decimal_clock powi default_config "m" ∅ (load_archive None 10) s Hr); [exact Hh|by apply nil_length_inv].
Defined.

Definition two : Store := default empty_store (run_events (added "a" "tea" ++ added "b" "rust")).

Definition move_events : list Event := [EArchive "b"; ECommit false true; ERecall 7 ["a"%string]].

Lemma move_run evs s s' :
  Forall moves evs -> exec_all powi default_config evs s = Some s' -> rtc (move_step powi default_config) s s'.
Proof.
  intros Hm. revert s. induction Hm as [|ev evs Hev _ IH]; intros s; [by intros [= ->]|]. cbn [exec_all].
  destruct (exec powi default_config ev s) as [s1|] eqn:He; [|done]. intros Hr. apply (rtc_l _ _ s1); [by exists ev|by apply IH].
Qed.

Lemma moved :
  (fun s => (holder s, length (restoring s), id <$> entries s)) <$> exec_all powi default_config move_events two =
  Some (None, 0%nat, ["a"%string]).
Proof. vm_compute. reflexivity. Qed.

Lemma two_room : (length (held two) <= archive_max (archive two))%nat.
Proof. vm_compute. lia. Qed.

Lemma nothing_forgotten_witness :
  exists s, rtc (move_step powi default_config) two s /\ (id <$> entries s) = ["a"%string] /\
            idents (entries s) ++ idents (archive_entries (archive s)) ≡ₚ held two.
Proof.
  pose proof moved as He. destruct (exec_all powi default_config move_events two) as [s|] eqn:Hs; [|discriminate He].
  simpl in He. injection He as Hh Hw Hd.
  assert (Hr : rtc (move_step powi default_config) two s) by (apply (move_run move_events); [repeat constructor|exact Hs]).
  exists s. split; [exact Hr|]. split; [exact Hd|].
  destruct (@nothing_forgotten decimal_clock powi default_config two s Hr two_room) as [_ Hp].
  apply Hp; [exact Hh|by apply nil_length_inv].
Defined.
End Demo.
