(* ===== verification/Transcript.v ===== *)
(** * Transcript: the log of a session and its replay ([engine/transcript.rs])

    The query loop appends what happens to a file of JSON lines; a session that
    opens without a snapshot is rebuilt from the tail of that file ([main.rs],
    [lc_restore_session_history]).  A file is its bytes.  [Message]'s codec is
    generated code, an interface, as is JSON text. *)

From stdpp Require Import base gmap strings list.
From Stdlib Require Import ZArith Lia.
From S2P Require Import Prelude Text Float64 Json Paths ToolHealth ToolExec Messages SessionStore.

#[local] Open Scope Z_scope.
#[local] Open Scope string_scope.
#[local] Open Scope list_scope.

(** ** Entries *)

Module Kind.
Inductive TranscriptEntryType := UserMessage | AssistantMessage | ToolUse | ToolResult | SystemEvent.

#[global] Instance TranscriptEntryType_eq : EqDecision TranscriptEntryType.
Proof. solve_decision. Defined.

Definition to_string (k : TranscriptEntryType) : string :=
  match k with
  | UserMessage => "UserMessage" | AssistantMessage => "AssistantMessage" | ToolUse => "ToolUse"
  | ToolResult => "ToolResult" | SystemEvent => "SystemEvent"
  end.

Definition of_string (s : string) : option TranscriptEntryType :=
  List.find (fun k => String.eqb (to_string k) s) [UserMessage; AssistantMessage; ToolUse; ToolResult; SystemEvent].
End Kind.

(** [serde]'s code for [Message]. *)
Class MessageCodec `{Json} := {
  message_to_value : Message -> Value;
  message_of_value : Value -> option Message
}.

Section Transcript.
Context `{J : Json} {MC : MessageCodec}.

Record TranscriptEntry := mkEntry {
  entry_timestamp : string;
  entry_type : Kind.TranscriptEntryType;
  data : Value
}.

Definition entry_value (e : TranscriptEntry) : Value :=
  json_object [("timestamp", json_string (entry_timestamp e));
               ("entry_type", json_string (Kind.to_string (entry_type e))); ("data", data e)].

(** A variant is its name, or an object of the name and [null]. *)
Definition decode_kind (v : Value) : option Kind.TranscriptEntryType :=
  match as_str v with
  | Some s => Kind.of_string s
  | None => match as_object v with
            | Some [(k, x)] => if is_null x then Kind.of_string k else None
            | _ => None
            end
  end.

(** A struct is an object or the array of its fields. *)
Definition decode_entry (v : Value) : option TranscriptEntry :=
  match as_array v with
  | Some [t; k; d] => t ← as_str t; k ← decode_kind k; Some (mkEntry t k d)
  | Some _ => None
  | None => t ← str_field v "timestamp"; k ← json_get v "entry_type" ≫= decode_kind; d ← json_get v "data";
            Some (mkEntry t k d)
  end.

(** ** The file *)

Definition newline : string := string_of [LF].

(** [append]: the file and whether it succeeded; [cut] is how much of the line
    is written before the process dies, if it does. *)
Definition append (cut : option nat) (e : TranscriptEntry) (file : string) : bool * string :=
  match to_json_string (entry_value e) with
  | None => (false, file)
  | Some line =>
      match cut with
      | None => (true, file +:+ line +:+ newline)
      | Some n => (false, file +:+ string_of (take n (bytes_of (line +:+ newline))))
      end
  end.

(** One line of [load_from_dir]. *)
Definition read_line (line : list byte) : option TranscriptEntry :=
  let line := string_of line in
  if is_empty (trim line) then None else json_parse line ≫= decode_entry.

Definition load (file : string) : list TranscriptEntry := omap read_line (lines (bytes_of file)).

(** ** Replay *)

(** The result block made of a tool-result entry. *)
Definition output_text (raw : Value) : string :=
  match as_str raw with
  | Some s => s
  | None => if is_null raw then "" else default "" (to_json_string raw)
  end.

Definition replay_block (d : Value) : Value :=
  json_object
    [("type", json_string "tool_result");
     ("tool_use_id", json_string (default "" (str_field d "tool_use_id")));
     ("content", json_string (output_text (default json_null (json_get d "output"))));
     ("is_error", json_bool (default false (json_get d "is_error" ≫= as_bool)))].

Section Replay.
Context (ids : nat -> string) (now : string).   (* fresh uuids, and the clock *)

Definition results_content (blocks : list Value) : MessageContent :=
  User (mkUserMessage "user" (json_array blocks)) false None.

Definition flush (id time : string) (pending : list Value) (messages : list Message) : list Message :=
  match pending with
  | [] => messages
  | _ => messages ++ [mkMessage id time (results_content pending)]
  end.

(** [k] counts the uuids used. *)
Fixpoint rebuild_loop (k : nat) (entries : list TranscriptEntry) (messages : list Message) (pending : list Value) :
    list Message :=
  match entries with
  | [] => flush (ids k) now pending messages
  | e :: rest =>
      match entry_type e with
      | Kind.UserMessage | Kind.AssistantMessage =>
          let messages := flush (ids k) (entry_timestamp e) pending messages in
          let messages := match message_of_value (data e) with Some m => messages ++ [m] | None => messages end in
          rebuild_loop (S k) rest messages []
      | Kind.ToolResult => rebuild_loop k rest messages (pending ++ [replay_block (data e)])
      | _ => rebuild_loop k rest messages pending
      end
  end.

Definition rebuild_messages_from_transcript (entries : list TranscriptEntry) : list Message :=
  rebuild_loop 0 entries [] [].

Definition opens_turn (e : TranscriptEntry) : bool := bool_decide (entry_type e = Kind.UserMessage).

(** The loop that walks back to a user message. *)
Fixpoint walk_back (entries : list TranscriptEntry) (c : nat) : nat :=
  match entries !! c with
  | Some e => if opens_turn e then c
              else match c with O => length entries | S c' => walk_back entries c' end
  | None => length entries
  end.

Definition align_cut_to_user_turn (entries : list TranscriptEntry) (cut : nat) : nat :=
  let c := Nat.min cut (length entries) in
  if Nat.leb (length entries) c then length entries else walk_back entries c.

Definition boundary (text : string) : Message :=
  mkMessage (ids 0) now (System CompactBoundary text).

(** The dash is three bytes. *)
Definition memory_header : string :=
  "[Session Memory " +:+ string_of (utf8 [226; 128; 148]%nat) +:+ " earlier context]" +:+ newline.

Definition rebuild_messages_from_transcript_limited (entries : list TranscriptEntry) (max_entries : nat)
    (summary : option string) : list Message :=
  if Nat.leb (length entries) max_entries then rebuild_messages_from_transcript entries
  else if Nat.eqb max_entries 0 then []
  else
    let start := align_cut_to_user_turn entries (length entries - max_entries) in
    let messages := rebuild_messages_from_transcript (drop start entries) in
    match summary with
    | Some s => if is_empty s then messages else boundary (memory_header +:+ s) :: messages
    | None => messages
    end.

(** The three tiers of [lc_restore_session_history]. *)
Definition omitted_text (n : nat) : string :=
  "[Session resumed " +:+ string_of (utf8 [226; 128; 148]%nat) +:+ " " +:+ show_nat n +:+
  " earlier conversation entries were omitted because no summary was available. The current session will generate one for next time.]".

Definition restored_history (memory : Memory.SessionMemory) (entries : list TranscriptEntry) : list Message :=
  let entry_count := length entries in
  let tail_size := Nat.min 200 entry_count in
  if Memory.is_available memory then
    rebuild_messages_from_transcript_limited entries tail_size (Some (Memory.content memory))
  else if Nat.leb entry_count 400 then rebuild_messages_from_transcript entries
  else
    match rebuild_messages_from_transcript_limited entries tail_size None with
    | [] => []
    | msgs => boundary (omitted_text (entry_count - tail_size)) :: msgs
    end.
End Replay.

(** ** What the query loop writes *)

Definition user_entry (m : Message) : TranscriptEntry := mkEntry (timestamp m) Kind.UserMessage (message_to_value m).
Definition assistant_entry (m : Message) : TranscriptEntry :=
  mkEntry (timestamp m) Kind.AssistantMessage (message_to_value m).

Definition use_entry (time : string) (u : ToolUseRequest) : TranscriptEntry :=
  mkEntry time Kind.ToolUse
    (json_object [("tool_name", json_string (req_name u)); ("input", input u); ("tool_use_id", json_string (req_id u))]).

Definition result_entry (time : string) (r : ToolExecutionResult) : TranscriptEntry :=
  mkEntry time Kind.ToolResult
    (json_object [("tool_use_id", json_string (tool_use_id r)); ("output", output r); ("is_error", json_bool (failed r))]).

(** A prompt, or an answer with its tool calls and their results. *)
Inductive Logged :=
| Prompted (m : Message)
| Answered (m : Message) (time : string) (uses : list ToolUseRequest) (results : list ToolExecutionResult).

Definition turn_entries (l : Logged) : list TranscriptEntry :=
  match l with
  | Prompted m => [user_entry m]
  | Answered m time uses rs => assistant_entry m :: (use_entry time <$> uses) ++ (result_entry time <$> rs)
  end.

Fixpoint append_all (es : list TranscriptEntry) (file : string) : bool * string :=
  match es with
  | [] => (true, file)
  | e :: es' => let '(ok, file) := append None e file in
                if ok then append_all es' file else (false, file)
  end.
End Transcript.

(** ** Finding the transcript to resume *)

Definition fnv_step (h : Z) (b : byte) : Z := mul64 (Z.lxor h (Z.of_nat (Ascii.nat_of_ascii b))) 1099511628211.

Definition hex_digit (n : Z) : byte :=
  Ascii.ascii_of_nat (if Z.ltb n 10 then 48 + Z.to_nat n else 87 + Z.to_nat n).

(** [{:016x}] of a 64-bit number. *)
Definition hex16 (z : Z) : string :=
  string_of ((fun i => hex_digit (Z.land (Z.shiftr z (4 * Z.of_nat (15 - i))) 15)) <$> seq 0 16).

Definition cwd_identity_hash (cwd : string) : string := hex16 (foldl fnv_step 14695981039346656037 (bytes_of cwd)).

Definition short (hash : string) : string := string_of (take 8 (bytes_of hash)).

Definition session_surface (session_id cwd_hash : string) : option string :=
  rest ← match strip_prefix session_id cwd_hash with Some r => Some r | None => strip_prefix session_id (short cwd_hash) end;
  surface ← strip_prefix rest "-";
  if is_empty surface then None else Some surface.

Definition ends_with (s p : string) : bool :=
  bool_decide (strip (reverse (bytes_of p)) (reverse (bytes_of s)) <> None).

(** [trim_end_matches]: every copy of the suffix. *)
Fixpoint trim_suffix (fuel : nat) (p l : list byte) : list byte :=
  match fuel with
  | O => l
  | S n => match strip p l with Some rest => trim_suffix n p rest | None => l end
  end.

Definition trim_end_matches (s p : string) : string :=
  string_of (reverse (trim_suffix (str_len s) (reverse (bytes_of p)) (reverse (bytes_of s)))).

(** A file of the directory: its name and, if it can be read, when it was
    modified. *)
Definition candidates (dir : list (string * option Z)) (cwd_hash : string) : list (string * Z) :=
  omap (fun '(name, modified) =>
          if ((starts_with name cwd_hash || starts_with name (short cwd_hash)) && ends_with name ".jsonl")%bool
          then t ← modified; Some (trim_end_matches name ".jsonl", t) else None) dir.

(** [max_by_key]: the last of the newest. *)
Definition newer (best : option (string * Z)) (x : string * Z) : option (string * Z) :=
  match best with
  | Some b => if Z.leb (b.2) (x.2) then Some x else best
  | None => Some x
  end.

Definition newest (l : list (string * Z)) : option (string * Z) := foldl newer None l.

(** [None]: there is no such directory. *)
Definition find_latest_session_for_cwd_in (dir : option (list (string * option Z))) (cwd preferred : string) :
    option string :=
  entries ← dir;
  let cwd_hash := cwd_identity_hash cwd in
  let found := candidates entries cwd_hash in
  if existsb (fun c => String.eqb (c.1) preferred) found then Some preferred
  else
    surface ← session_surface preferred cwd_hash;
    fst <$> newest (retain (fun c => bool_decide (session_surface (c.1) cwd_hash = Some surface)) found).

(** ** The file gives the entries back *)

Section Reading.
Context `{J : Json} {JL : JsonLaws} {MC : MessageCodec}.

(** The text of an entry is one line, and parses to what was printed. *)
Definition readable (e : TranscriptEntry) : Prop :=
  forall text, to_json_string (entry_value e) = Some text ->
    json_parse text = Some (entry_value e) /\ LF ∉ bytes_of text.

Lemma decode_entry_value e : decode_entry (entry_value e) = Some e.
Proof.
  assert (Hd : NoDup ["timestamp"; "entry_type"; "data"]) by (by apply (bool_decide_unpack _)).
  unfold decode_entry, entry_value, str_field. rewrite as_array_object, !json_get_object by exact Hd. simpl.
  rewrite as_str_string. simpl. unfold decode_kind. rewrite as_str_string. by destruct e as [t [] d].
Qed.

Lemma trim_braces t : trim ("{" +:+ t +:+ "}") = "{" +:+ t +:+ "}".
Proof.
  apply (trim_solid _ (Ascii.ascii_of_nat 123) (Ascii.ascii_of_nat 125) (bytes_of (t +:+ "}"))); try done.
  rewrite append_assoc, bytes_of_app. change (bytes_of "}") with [Ascii.ascii_of_nat 125]. by rewrite last_snoc.
Qed.

Lemma strip_cr_braces t : strip_cr (bytes_of ("{" +:+ t +:+ "}")) = bytes_of ("{" +:+ t +:+ "}").
Proof.
  unfold strip_cr. rewrite append_assoc, bytes_of_app. change (bytes_of "}") with [Ascii.ascii_of_nat 125].
  by rewrite last_snoc.
Qed.

(** One line, read back. *)
Lemma read_written e text :
  readable e -> to_json_string (entry_value e) = Some text ->
  omap read_line (lines (bytes_of (text +:+ newline))) = [e].
Proof.
  intros Hr Ht. destruct (Hr _ Ht) as [Hp Hlf].
  assert (Hone : lines (bytes_of (text +:+ newline)) = [strip_cr (bytes_of text)])
    by (rewrite bytes_of_app; exact (lines_one _ Hlf)).
  rewrite Hone.
  destruct (text_object _ _ Ht) as [t ->]. rewrite strip_cr_braces. cbn [omap list_omap].
  unfold read_line. rewrite string_of_bytes, trim_braces. simpl is_empty. cbn iota.
  by rewrite Hp; cbn [mbind option_bind]; rewrite decode_entry_value.
Qed.

(** A file whose last line is complete. *)
Definition complete (file : string) : Prop := file = "" \/ exists l, bytes_of file = l ++ [LF].

Lemma load_append e file file' :
  complete file -> readable e -> append None e file = (true, file') -> complete file' /\ load file' = load file ++ [e].
Proof.
  intros Hc Hr. unfold append. destruct (to_json_string (entry_value e)) as [text|] eqn:Ht; [|done]. intros [= <-].
  split.
  - right. exists (bytes_of file ++ bytes_of text). rewrite !bytes_of_app. by rewrite <- app_assoc.
  - unfold load. destruct Hc as [->|[l Hl]]; [exact (read_written e text Hr Ht)|].
    assert (Hall : lines (bytes_of (file +:+ text +:+ newline)) = lines (bytes_of file) ++ lines (bytes_of (text +:+ newline)))
      by (rewrite bytes_of_app, Hl; apply lines_from_app).
    by rewrite Hall, omap_app, (read_written e text Hr Ht).
Qed.

Lemma load_append_all es file file' :
  complete file -> Forall readable es -> append_all es file = (true, file') -> load file' = load file ++ es.
Proof.
  intros Hc Hr. revert file Hc. induction Hr as [|e es He _ IH]; intros file Hc; simpl.
  - intros [= <-]. by rewrite app_nil_r.
  - destruct (append None e file) as [[] file1] eqn:E; [|done]. intros Ha.
    destruct (load_append e file file1 Hc He E) as [Hc1 Hl]. rewrite (IH file1 Hc1 Ha), Hl. by rewrite <- app_assoc.
Qed.
End Reading.

(** ** The replay gives the turns back *)

Section Replayed.
Context `{J : Json} {JL : JsonLaws} {MC : MessageCodec}.
Context (ids : nat -> string) (now : string).

(** What a turn becomes: the result blocks follow their answer. *)
Definition replayed (time : string) (r : ToolExecutionResult) : Value := replay_block (data (result_entry time r)).

Definition turn_contents (l : Logged) : list MessageContent :=
  match l with
  | Prompted m => [content m]
  | Answered m time _ rs => content m :: match rs with [] => [] | _ => [results_content (replayed time <$> rs)] end
  end.

Definition logged_message (l : Logged) : Message := match l with Prompted m | Answered m _ _ _ => m end.

(** A message the codec reproduces; of the results of an answer the log may
    hold any number. *)
Definition recorded (l : Logged) : Prop :=
  message_of_value (message_to_value (logged_message l)) = Some (logged_message l).

(** A turn that was not cut off: one result for each tool use. *)
Definition whole (l : Logged) : Prop :=
  results_of (logged_message l) = [] /\
  uses_of (logged_message l) = match l with Prompted _ => [] | Answered _ _ _ rs => tool_use_id <$> rs end.

Definition flushed (pending : list Value) : list MessageContent :=
  match pending with [] => [] | _ => [results_content pending] end.

Lemma flush_contents id time pending ms : content <$> flush id time pending ms = (content <$> ms) ++ flushed pending.
Proof. unfold flush, flushed. destruct pending; [by rewrite app_nil_r|by rewrite fmap_app]. Qed.

Lemma rebuild_uses k time us rest ms p :
  rebuild_loop ids now k ((use_entry time <$> us) ++ rest) ms p = rebuild_loop ids now k rest ms p.
Proof. induction us as [|u us IH]; [done|]. exact IH. Qed.

Lemma rebuild_results k time rs rest ms p :
  rebuild_loop ids now k ((result_entry time <$> rs) ++ rest) ms p =
  rebuild_loop ids now k rest ms (p ++ (replayed time <$> rs)).
Proof.
  revert p. induction rs as [|r rs IH]; intros p; [by rewrite app_nil_r|].
  rewrite !fmap_cons, <- app_comm_cons. cbn [rebuild_loop]. change (entry_type (result_entry time r)) with Kind.ToolResult.
  cbn iota. rewrite IH, <- app_assoc. done.
Qed.

Lemma rebuild_contents log k ms p :
  Forall recorded log ->
  content <$> rebuild_loop ids now k (log ≫= turn_entries) ms p =
  (content <$> ms) ++ flushed p ++ (log ≫= turn_contents).
Proof.
  intros Hok. revert k ms p. induction Hok as [|l log Hl _ IH]; intros k ms p.
  { cbn. by rewrite flush_contents, app_nil_r. }
  rewrite !bind_cons. destruct l as [m|m time us rs]; pose proof Hl as Hm; unfold recorded, logged_message in Hm.
  - cbn [turn_entries turn_contents app rebuild_loop]. change (entry_type (user_entry m)) with Kind.UserMessage.
    cbn iota. change (data (user_entry m)) with (message_to_value m). rewrite Hm, IH, fmap_app, flush_contents.
    by rewrite <- !app_assoc.
  - cbn [turn_entries turn_contents app rebuild_loop]. change (entry_type (assistant_entry m)) with Kind.AssistantMessage.
    cbn iota. change (data (assistant_entry m)) with (message_to_value m).
    rewrite Hm, <- app_assoc, rebuild_uses, rebuild_results, IH, fmap_app, flush_contents, <- !app_assoc.
    do 3 f_equal. by destruct rs.
Qed.

Lemma rebuild_turns log :
  Forall recorded log ->
  content <$> rebuild_messages_from_transcript ids now (log ≫= turn_entries) = log ≫= turn_contents.
Proof. apply (rebuild_contents log 0 [] []). Qed.

(** The discipline of a history depends on the contents only. *)
Lemma scan_contents p h1 h2 : content <$> h1 = content <$> h2 -> scan p h1 = scan p h2.
Proof.
  revert p h2. induction h1 as [|m h1 IH]; intros p [|m2 h2]; try done. rewrite !fmap_cons. intros [= Hm Hh].
  cbn [scan]. unfold results_of, results_only, uses_of. rewrite Hm. by rewrite (IH _ h2 Hh).
Qed.

Definition unnamed (c : MessageContent) : Message := mkMessage "" "" c.

Lemma replayed_id time r : is_tool_result (replayed time r) = true /\ result_id (replayed time r) = Some (tool_use_id r).
Proof.
  unfold replayed, replay_block. apply result_block_id; [apply result_fields_nodup|done|].
  simpl. unfold str_field.
  rewrite json_get_object by (by apply (bool_decide_unpack _)). simpl. by rewrite as_str_string.
Qed.

Lemma turn_closed l : whole l -> scan [] (unnamed <$> turn_contents l) = Some [].
Proof.
  assert (Hc : forall m, results_of (unnamed (content m)) = results_of m /\ uses_of (unnamed (content m)) = uses_of m) by done.
  destruct l as [m|m time us rs]; unfold whole; simpl; intros (Hr & Hu).
  - destruct (Hc m) as [-> ->]. rewrite Hr, Hu. done.
  - destruct (Hc m) as [-> ->]. rewrite Hr, Hu. simpl. destruct rs as [|r rs]; [done|].
    set (l := r :: rs). change (scan (tool_use_id <$> l) [unnamed (results_content (replayed time <$> l))] = Some []).
    clearbody l. clear rs r Hr Hu.
    assert (Hres : omap result_id (replayed time <$> l) = tool_use_id <$> l).
    { clear -JL. induction l as [|x l IH]; [done|]. rewrite !fmap_cons, omap_cons. by rewrite (proj2 (replayed_id time x)), IH. }
    assert (Hids : results_of (unnamed (results_content (replayed time <$> l))) = tool_use_id <$> l).
    { unfold results_of, extract_tool_result_ids. cbn. rewrite as_array_array. exact Hres. }
    assert (Honly : results_only (unnamed (results_content (replayed time <$> l))) = true).
    { unfold results_only. cbn. rewrite as_array_array. apply forallb_elem.
      intros x (y & -> & _)%list_elem_of_fmap. apply replayed_id. }
    cbn [scan]. by rewrite Hids, Honly, bool_decide_eq_true_2, orb_true_r.
Qed.

Lemma turns_closed log : Forall whole log -> scan [] (unnamed <$> (log ≫= turn_contents)) = Some [].
Proof.
  induction 1 as [|l log Hl _ IH]; [done|]. rewrite bind_cons, fmap_app, scan_app, (turn_closed l Hl). exact IH.
Qed.

(** A result that is a short text comes back as it was sent. *)
Lemma text_result_same time r s :
  as_str (output r) = Some s -> output r = json_string s -> Z.of_nat (str_len s) <= 10000 ->
  as_bool (json_bool (failed r)) = Some (failed r) -> replayed time r = result_block r.
Proof.
  intros Hs Ho Hl Hb. unfold replayed, replay_block, result_block. simpl. unfold str_field.
  assert (Hd : NoDup ["tool_use_id"; "output"; "is_error"]) by (by apply (bool_decide_unpack _)).
  rewrite !json_get_object by exact Hd. simpl. rewrite as_str_string, Hb. simpl. unfold output_text. rewrite Hs.
  unfold result_content, strip_base64_images. cbn [strip_fuel]. rewrite Hs.
  assert (Hlt : Z.ltb 10000 (Z.of_nat (str_len s)) = false) by (apply Z.ltb_ge; lia).
  rewrite Hlt, Hs. unfold limited, MAX_TOOL_RESULT_CHARS.
  assert (Hlim : Z.ltb 200000 (Z.of_nat (str_len s)) = false) by (apply Z.ltb_ge; lia). by rewrite Hlim.
Qed.

(** ** The tail starts at a turn *)

Abbreviation entries_of log := (log ≫= turn_entries).

Lemma opens_at log c e :
  entries_of log !! c = Some e -> opens_turn e = true ->
  exists j m, log !! j = Some (Prompted m) /\ c = length (entries_of (take j log)) /\
              drop c (entries_of log) = entries_of (drop j log).
Proof.
  revert c. induction log as [|l log IH]; intros c; [done|]. rewrite bind_cons. intros Hc He.
  destruct (decide (c < length (turn_entries l))%nat) as [Hlt|Hge].
  - rewrite lookup_app_l in Hc by done. destruct l as [m|m time us rs].
    + destruct c as [|c]; [|simpl in Hlt; lia]. by exists 0%nat, m.
    + exfalso. destruct c as [|c]; [by injection Hc as <-|]. simpl in Hc. apply list_elem_of_lookup_2, elem_of_app in Hc.
      by destruct Hc as [(x & -> & _)%list_elem_of_fmap|(x & -> & _)%list_elem_of_fmap].
  - rewrite lookup_app_r in Hc by lia. destruct (IH _ Hc He) as (j & m & Hj & Hlen & Hd).
    exists (S j), m. split_and!; [done| |].
    + cbn [take]. rewrite bind_cons, length_app. lia.
    + rewrite drop_app_ge by lia. exact Hd.
Qed.

Lemma walk_back_spec es c :
  (c < length es)%nat ->
  (walk_back es c = length es /\ forall i e, (i <= c)%nat -> es !! i = Some e -> opens_turn e = false) \/
  (walk_back es c <= c)%nat /\ (exists e, es !! walk_back es c = Some e /\ opens_turn e = true) /\
  (forall i e, (walk_back es c < i <= c)%nat -> es !! i = Some e -> opens_turn e = false).
Proof.
  induction c as [|c IH]; intros Hc; destruct (lookup_lt_is_Some_2 es _ Hc) as [e He];
    cbn [walk_back]; rewrite He; destruct (opens_turn e) eqn:Ho.
  - right. split_and!; [lia|by exists e|lia].
  - left. split; [done|]. intros i x Hi Hx. replace i with 0%nat in Hx by lia. congruence.
  - right. split_and!; [lia|by exists e|lia].
  - destruct IH as [[Hw Hn]|(Hw & Hx & Hn)]; [lia|left|right].
    + split; [done|]. intros i x Hi Hx. destruct (decide (i = S c)) as [->|]; [congruence|]. apply (Hn i x); [lia|done].
    + split_and!; [lia|done|]. intros i x Hi Hl. destruct (decide (i = S c)) as [->|]; [congruence|]. apply (Hn i x); [lia|done].
Qed.

Definition opened_by_prompt (log : list Logged) : bool :=
  match log with Prompted _ :: _ | [] => true | _ => false end.

(** Where a log is cut: at a prompt, the last that leaves at least as many
    entries as were asked for. *)
Lemma align_cut log k :
  opened_by_prompt log = true -> (0 < k < length (entries_of log))%nat ->
  exists j m, log !! j = Some (Prompted m) /\
    drop (align_cut_to_user_turn (entries_of log) (length (entries_of log) - k)) (entries_of log) = entries_of (drop j log) /\
    (k <= length (entries_of (drop j log)))%nat /\
    (forall j' m', (j < j')%nat -> log !! j' = Some (Prompted m') -> (length (entries_of (drop j' log)) < k)%nat).
Proof.
  intros Hopen Hk. set (L := entries_of log) in *. set (cut := (length L - k)%nat).
  unfold align_cut_to_user_turn. rewrite Nat.min_l by lia.
  destruct (Nat.leb_spec (length L) cut) as [?|Hlt]; [lia|].
  destruct (walk_back_spec L cut Hlt) as [[_ Hn]|(Hw & (e & He & Ho) & Hn)].
  { exfalso. destruct log as [|[m|m time us rs] log']; [by simpl in Hk; lia| |done].
    by specialize (Hn 0%nat (user_entry m) ltac:(lia) eq_refl). }
  destruct (opens_at log _ e He Ho) as (j & m & Hj & Hc & Hd). exists j, m. fold L in Hd.
  split_and!; [done|done| |].
  - rewrite <- Hd, length_drop. lia.
  - intros j' m' Hjj Hj'.
    assert (Hsplit : forall i, L = entries_of (take i log) ++ entries_of (drop i log)).
    { intros i. unfold L. by rewrite <- bind_app, take_drop. }
    set (i' := length (entries_of (take j' log))).
    assert (Hi' : L !! i' = Some (user_entry m')).
    { rewrite (Hsplit j'), lookup_app_r by done. subst i'. rewrite Nat.sub_diag.
      rewrite (drop_S log (Prompted m') j' Hj'). done. }
    assert (Hlen : length L = (i' + length (entries_of (drop j' log)))%nat) by (rewrite (Hsplit j') at 1; by rewrite length_app).
    assert (Hgt : (walk_back L cut < i')%nat).
    { rewrite Hc. subst i'. rewrite <- (take_drop j (take j' log)), take_take, Nat.min_l by lia.
      rewrite bind_app, length_app. rewrite skipn_firstn_comm. rewrite (drop_S log (Prompted m) j Hj).
      destruct (j' - j)%nat eqn:E; [lia|]. cbn [take]. rewrite bind_cons, length_app. simpl. lia. }
    destruct (decide (i' <= cut)%nat) as [Hle|]; [|lia].
    by specialize (Hn i' _ (conj Hgt Hle) Hi').
Qed.

Lemma limited_turns log k summary :
  Forall recorded log -> opened_by_prompt log = true -> (0 < k < length (entries_of log))%nat ->
  exists j m header, log !! j = Some (Prompted m) /\ (length header <= 1)%nat /\ Forall (fun x => is_system x = true) header /\
    content <$> rebuild_messages_from_transcript_limited ids now (entries_of log) k summary =
      (content <$> header) ++ (drop j log ≫= turn_contents) /\
    (k <= length (entries_of (drop j log)))%nat /\ (summary = None -> header = []).
Proof.
  intros Hok Hopen Hk. destruct (align_cut log k Hopen Hk) as (j & m & Hj & Hd & Hlen & _).
  unfold rebuild_messages_from_transcript_limited.
  rewrite (proj2 (Nat.leb_gt _ _)), (proj2 (Nat.eqb_neq _ _)), Hd by lia.
  assert (Hc := rebuild_turns (drop j log) (Forall_drop _ j _ Hok)).
  destruct summary as [t|]; [destruct (is_empty t)|].
  - exists j, m, []. simpl. split_and!; [done|lia|done|done|done|done].
  - exists j, m, [boundary ids now (memory_header +:+ t)]. rewrite fmap_cons, Hc.
    split_and!; [done|simpl; lia|by repeat constructor|done|done|done].
  - exists j, m, []. simpl. split_and!; [done|lia|done|done|done|done].
Qed.

Lemma header_paired header h log :
  Forall (fun x => is_system x = true) header -> Forall whole log ->
  content <$> h = (content <$> header) ++ (log ≫= turn_contents) -> paired h.
Proof.
  intros Hh Hok Hc. unfold paired.
  rewrite (scan_contents [] h (header ++ (unnamed <$> (log ≫= turn_contents)))).
  - rewrite scan_app. replace (scan [] header) with (Some (A := list string) []); [by apply turns_closed|].
    clear Hc. induction Hh as [|x l Hx _ IH]; [done|]. cbn [scan]. unfold results_of, uses_of. unfold is_system in Hx.
    by destruct (content x).
  - rewrite Hc, fmap_app. f_equal. rewrite <- list_fmap_compose. symmetry. apply list_fmap_id.
Qed.

(** What a history made of the turns from the [j]-th on looks like. *)
Record resumed_at (log : list Logged) (h header : list Message) (j : nat) : Prop := {
  ra_header : (length header <= 1)%nat;
  ra_system : Forall (fun x => is_system x = true) header;
  ra_contents : content <$> h = (content <$> header) ++ (drop j log ≫= turn_contents);
  ra_prompt : j = 0%nat \/ exists m, log !! j = Some (Prompted m);
  ra_whole : (length (entries_of log) <= 200)%nat -> j = 0%nat /\ header = [];
  ra_tail : (Nat.min 200 (length (entries_of log)) <= length (entries_of (drop j log)))%nat
}.

Lemma resumed_whole log : Forall recorded log -> resumed_at log (rebuild_messages_from_transcript ids now (entries_of log)) [] 0.
Proof. intros Hok. split; [simpl; lia|done|by rewrite (rebuild_turns log Hok)|by left|done|]. change (drop 0 log) with log. lia. Qed.

(** Claim C20. A session resumed from its transcript continues at a turn.  For a
    log whose entries and messages read back as they were written, opened by a prompt and
    appended without a failure, with any number of tool results behind an
    answer, so also one that ends, after a crash, in the middle of a tool turn:
    what is read back and replayed is, behind at most one system message,
    exactly the turns from some prompt on, in order, each answer with the
    results that were logged; a log of up to 200 entries comes back whole, and
    of a longer one at least the last 200.  Where every turn that comes back has
    one result for each of its tool uses the history is paired, whatever was cut
    off; of a turn the crash cut short the uses without a result stay open. *)
Theorem resume_replays_turns (log : list Logged) (memory : Memory.SessionMemory) (file : string) :
  Forall recorded log -> opened_by_prompt log = true -> Forall readable (entries_of log) ->
  append_all (entries_of log) "" = (true, file) ->
  let h := restored_history ids now memory (load file) in
  exists header j, resumed_at log h header j /\ (Forall whole (drop j log) -> paired h).
Proof.
  intros Hok Hopen Hread Hw. rewrite (load_append_all _ "" file (or_introl eq_refl) Hread Hw).
  change (load "" ++ entries_of log) with (entries_of log). intros h.
  enough (Hex : exists header j, resumed_at log h header j).
  { destruct Hex as (header & j & Hr). exists header, j. split; [exact Hr|]. destruct Hr as [_ Hs Hc _ _ _].
    intros Hwhole. exact (header_paired header h (drop j log) Hs Hwhole Hc). }
  unfold h, restored_history in *. clear h. destruct (Memory.is_available memory).
  - destruct (decide (length (entries_of log) <= 200)%nat) as [Hle|Hgt].
    + exists [], 0%nat. unfold rebuild_messages_from_transcript_limited. rewrite (proj2 (Nat.leb_le _ _)) by lia.
      by apply resumed_whole.
    + rewrite Nat.min_l by lia.
      destruct (limited_turns log 200 (Some (Memory.content memory)) Hok Hopen) as (j & m & header & Hj & Hl & Hs & Hc & Hk & _); [lia|].
      exists header, j. split; [done|done|done|right; by exists m|lia|lia].
  - destruct (Nat.leb_spec (length (entries_of log)) 400) as [_|Hgt]; [exists [], 0%nat; by apply resumed_whole|].
    rewrite Nat.min_l by lia.
    destruct (limited_turns log 200 None Hok Hopen) as (j & m & header & Hj & Hl & Hs & Hc & Hk & Hnone); [lia|].
    rewrite (Hnone eq_refl) in *. simpl in Hc.
    destruct (rebuild_messages_from_transcript_limited ids now (entries_of log) 200 None) as [|x msgs] eqn:E.
    + exfalso. rewrite (drop_S log (Prompted m) j Hj), bind_cons in Hc. done.
    + exists [boundary ids now (omitted_text (length (entries_of log) - 200))], j.
      split; [simpl; lia|by repeat constructor|by rewrite fmap_cons, Hc|right; by exists m|lia|lia].
Qed.
End Replayed.

(** ** Which transcript is resumed *)

Lemma newest_spec l :
  match newest l with None => l = [] | Some x => x ∈ l /\ forall y, y ∈ l -> y.2 <= x.2 end.
Proof.
  unfold newest. induction l as [|z l IH] using rev_ind; [done|]. rewrite foldl_app. cbn [foldl].
  destruct (foldl newer None l) as [b|]; cbn [newer].
  - destruct IH as [Hb Hall]. destruct (Z.leb_spec (b.2) (z.2)) as [Hle|Hgt].
    + split; [apply elem_of_app; right; by left|].
      intros y [Hy| ->%list_elem_of_singleton]%elem_of_app; [specialize (Hall y Hy); lia|lia].
    + split; [apply elem_of_app; by left|].
      intros y [Hy| ->%list_elem_of_singleton]%elem_of_app; [by apply Hall|lia].
  - subst l. split; [by left|]. intros y ->%list_elem_of_singleton. lia.
Qed.

(** A surface resumes its own history only: the transcript that is
    found is the caller's own if there is one, and otherwise the newest (the
    last of the newest in the order of the directory) of those with the
    caller's surface; a caller without a surface, or with none of its own,
    resumes nothing. *)
Theorem resume_own_surface (dir : list (string * option Z)) (cwd preferred : string) :
  let h := cwd_identity_hash cwd in
  let found := candidates dir h in
  match find_latest_session_for_cwd_in (Some dir) cwd preferred with
  | Some id =>
      exists t, (id, t) ∈ found /\
        (id = preferred \/
         (forall t', (preferred, t') ∉ found) /\ is_Some (session_surface preferred h) /\
         session_surface id h = session_surface preferred h /\
         (forall id' t', (id', t') ∈ found -> session_surface id' h = session_surface preferred h -> t' <= t))
  | None =>
      forall id t, (id, t) ∈ found ->
        id <> preferred /\ (session_surface preferred h = None \/ session_surface id h <> session_surface preferred h)
  end.
Proof.
  intros h found. unfold find_latest_session_for_cwd_in. cbn [mbind option_bind]. fold h. fold found.
  destruct (existsb (fun c => String.eqb (c.1) preferred) found) eqn:Hex.
  { apply existsb_elem in Hex as ([id t] & Hin & Hid). apply String.eqb_eq in Hid. simpl in Hid. subst id.
    exists t. split; [done|by left]. }
  assert (Hno : forall t, (preferred, t) ∉ found).
  { intros t Hin. apply not_true_iff_false in Hex. apply Hex, existsb_elem. exists (preferred, t).
    split; [done|apply String.eqb_refl]. }
  destruct (session_surface preferred h) as [surface|] eqn:Hs; cbn [mbind option_bind].
  2:{ intros id t Hin. split; [intros ->; by destruct (Hno t)|by left]. }
  set (own := retain _ found). pose proof (newest_spec own) as Hn.
  assert (Hown : forall id t, (id, t) ∈ own <-> (id, t) ∈ found /\ session_surface id h = Some surface).
  { intros id t. unfold own. rewrite elem_of_retain, bool_decide_eq_true. done. }
  destruct (newest own) as [[id t]|]; simpl.
  - destruct Hn as [Hin Hmax]. apply Hown in Hin as [Hin Hid]. exists t. split; [done|]. right.
    split_and!; [done|by eexists|done|]. intros id' t' Hin' Hid'. by apply (Hmax (id', t')), Hown.
  - intros id t Hin. split; [intros ->; by destruct (Hno t)|]. right. intros Hid.
    assert (Hi : (id, t) ∈ own) by (by apply Hown). rewrite Hn in Hi. by apply elem_of_nil in Hi.
Qed.

(** ** Concrete transcripts *)

(** The log, for any reader of texts. *)
Section AnyReader.
Context (parse : string -> option flat).
#[local] Instance any_json : Json := flat_json_with parse.

Definition named (id text : string) : Message := mkMessage id "noon" (User (mkUserMessage "user" (FStr text)) false None).

Definition calling (id : string) (uses : list string) : Message :=
  mkMessage id "noon"
    (Assistant (mkAssistantMessage "assistant" ((fun u => ToolUse u "Bash" FNull) <$> uses) None None) f64_zero 0).

Definition known : list Message :=
  [named "p1" "hi"; calling "a1" ["u1"; "u2"]; calling "a2" []; named "p2" "go on"].

(** A message is stored under its uuid, enough for these. *)
Definition by_uuid : MessageCodec := {|
  message_to_value m := FStr (uuid m);
  message_of_value v := match v with FStr s => List.find (fun m => String.eqb (uuid m) s) known | _ => None end
|}.
#[local] Existing Instance by_uuid.

Definition demo_log : list Logged :=
  [Prompted (named "p1" "hi");
   Answered (calling "a1" ["u1"; "u2"]) "noon" [mkRequest "u1" "Bash" FNull; mkRequest "u2" "Bash" FNull]
     [mkExec "u1" "Bash" (FStr "ok") false; mkExec "u2" "Bash" (FArr [FInt 1]) false];
   Answered (calling "a2" []) "noon" [] []; Prompted (named "p2" "go on")].

Definition demo_entries : list TranscriptEntry := demo_log ≫= turn_entries.
Definition demo_values : list flat := entry_value <$> demo_entries.
End AnyReader.

(** A reader for the lines of this log. *)
Definition read_text (s : string) : option flat :=
  List.find (fun v => String.eqb (flat_print v) s) (demo_values (fun _ => None)).

Definition log_json : Json := flat_json_with read_text.

Lemma log_json_laws : @JsonLaws log_json.
Proof.
  apply flat_json_with_laws. intros s x Hf. apply find_some in Hf as [Hin Hs%String.eqb_eq]. subst s.
  apply list_elem_of_In in Hin. revert x Hin. apply Forall_forall. apply (bool_decide_unpack _). vm_compute. exact I.
Qed.

Section Demo.
#[local] Existing Instances log_json log_json_laws.
Definition log_codec : MessageCodec := by_uuid read_text.
#[local] Existing Instance log_codec.

Definition uuids (k : nat) : string := "id" +:+ show_nat k.
Definition the_log : list Logged := demo_log read_text.
Definition the_entries : list TranscriptEntry := the_log ≫= turn_entries.

Definition written : string := (append_all the_entries "").2.

Lemma demo_readable : Forall readable the_entries.
Proof.
  apply Forall_forall. intros e He text [= <-]. split.
  - revert e He. apply Forall_forall.
    repeat (apply Forall_cons; split; [vm_compute; reflexivity|]). by apply Forall_nil.
  - revert e He. apply Forall_forall. repeat (apply Forall_cons; split; [by apply (bool_decide_unpack _)|]). by apply Forall_nil.
Qed.

Lemma resume_replays_turns_witness :
  append_all the_entries "" = (true, written) /\
  paired (restored_history uuids "now" Memory.empty (load written)) /\
  exists header j, resumed_at the_log (restored_history uuids "now" Memory.empty (load written)) header j.
Proof.
  destruct (resume_replays_turns uuids "now" the_log Memory.empty written) as (header & j & Hr & Hp).
  - repeat (apply Forall_cons; split; [reflexivity|]). by apply Forall_nil.
  - reflexivity.
  - exact demo_readable.
  - vm_compute. reflexivity.
  - split; [vm_compute; reflexivity|]. split; [|by exists header, j]. apply Hp, Forall_drop.
    repeat (apply Forall_cons; split; [split; reflexivity|]). by apply Forall_nil.
Defined.

(** A line cut short by a crash takes the next one with it: the prompt that
    opens the resumed session is lost, and its answer follows the last. *)
Example torn_line_swallows_prompt :
  match the_entries, reverse the_entries with
  | first :: _, prompt :: _ =>
      let torn := (append (Some 20%nat) first written).2 in
      let file := (append None prompt torn).2 in
      length (load file) = length (load written) /\ (append None prompt torn).1 = true
  | _, _ => False
  end.
Proof. split; vm_compute; reflexivity. Qed.

(** The replay neither strips images nor limits a result, which the message
    the model was sent did. *)
Example replay_keeps_image :
  let image := FObj [("data", FStr ("iVBOR" +:+ String.concat "" (replicate 1100 "A")))] in
  let r := mkExec "u1" "Shot" image false in
  let text v := default "" (json_get v "content" ≫= as_str) in
  (str_len (text (result_block r)) < 50)%nat /\ (1100 < str_len (text (replayed "noon" r)))%nat.
Proof. vm_compute. split; repeat constructor. Qed.

(** The walk back may keep far more than was asked for. *)
Example long_turn_kept_whole :
  let log := the_log ++ [Answered (calling read_text "a1" []) "noon" (replicate 300 (mkRequest "u" "Bash" FNull)) []] in
  length (rebuild_messages_from_transcript_limited uuids "now" (log ≫= turn_entries) 10 None) = 2%nat.
Proof. vm_compute. reflexivity. Qed.

(** Names in a directory: the caller's, another surface's, one in the older
    scheme of eight digits, and another project's. *)
Definition sessions_of (cwd : string) : list (string * option Z) :=
  let h := cwd_identity_hash cwd in
  [(h +:+ "-telegram.jsonl", Some 20); (short h +:+ "-web.jsonl", Some 10); (h +:+ "-web.json", Some 30);
   (cwd_identity_hash "/other" +:+ "-web.jsonl", Some 40); (h +:+ "-cli.jsonl", None)].

Example own_surface_found :
  let h := cwd_identity_hash "/proj" in
  let find p := find_latest_session_for_cwd_in (Some (sessions_of "/proj")) "/proj" p in
  find (h +:+ "-web") = Some (short h +:+ "-web") /\ find (h +:+ "-telegram") = Some (h +:+ "-telegram") /\
  find (h +:+ "-cli") = None /\ find "cron-ab12cd34" = None.
Proof. vm_compute. repeat split; reflexivity. Qed.
End Demo.
