(* ===== verification/Cron.v ===== *)
(** * Cron: scheduled jobs ([engine/cron.rs])

    The schedule parser, the job list with the file behind it, and the loop
    that wakes up every thirty seconds and fires what is due.  The state file is
    its parsed content or does not parse; a write fails when the environment
    says so.  At each wake-up the two clocks are read, independently of each
    other: the wall clock in UTC, which may be set or jump over a suspend, and the
    monotonic clock, which stands for its readings at the single jobs of the
    list.  What a job does is the environment. *)

From stdpp Require Import base gmap strings list.
From Stdlib Require Import ZArith Lia Sorted.
From S2P Require Import Prelude Text TextProofs.

#[local] Open Scope Z_scope.

(** ** Schedules *)

Inductive Schedule :=
| Interval (secs : Z)
| Daily (hour minute : Z)
| Weekly (day hour minute : Z).

(** One constructor per message. *)
Inductive ScheduleError :=
| TooShort
| ExpectedWeekly
| UnknownFormat (s : string)
| InvalidNumber (s : string)
| UnknownUnit (c : string)
| TooLarge (s : string)
| ZeroDuration
| ExpectedTime (s : string)
| InvalidHour (s : string)
| InvalidMinute (s : string)
| TimeOutOfRange (h m : Z)
| UnknownDay (s : string).

Definition unit_seconds (c : byte) : option Z :=
  let n := Ascii.nat_of_ascii c in
  if Nat.eqb n 115 then Some 1 else if Nat.eqb n 109 then Some 60
  else if Nat.eqb n 104 then Some 3600 else if Nat.eqb n 100 then Some 86400 else None.

(** [total.checked_add(n.checked_mul(k)?)]. *)
Definition checked_add_mul (total n k : Z) : option Z :=
  if (Z.leb (n * k) u64_max && Z.leb (total + n * k) u64_max)%bool then Some (total + n * k) else None.

(** The loop over the characters; [buf] holds the digits since the last unit. *)
Fixpoint duration_loop (s : string) (buf : list byte) (total : Z) (l : list byte) :
    result (Z * list byte) ScheduleError :=
  match l with
  | [] => Ok (total, buf)
  | c :: l' =>
      if is_digit c then duration_loop s (buf ++ [c]) total l'
      else match parse_uint u64_max (string_of buf) with
           | None => Err (InvalidNumber s)
           | Some n =>
               match unit_seconds c with
               | None => Err (UnknownUnit (string_of (take_chars 1 l)))
               | Some k => match checked_add_mul total n k with
                           | Some total => duration_loop s [] total l'
                           | None => Err (TooLarge s)
                           end
               end
           end
  end.

(** Digits without a unit at the end are minutes. *)
Definition parse_duration (s : string) : result Z ScheduleError :=
  match duration_loop s [] 0 (bytes_of s) with
  | Err e => Err e
  | Ok (total, buf) =>
      let r := match buf with
               | [] => Ok total
               | _ => match parse_uint u64_max (string_of buf) with
                      | None => Err (InvalidNumber s)
                      | Some n => match checked_add_mul total n 60 with
                                  | Some total => Ok total
                                  | None => Err (TooLarge s)
                                  end
                      end
               end in
      match r with
      | Ok total => if Z.eqb total 0 then Err ZeroDuration else Ok total
      | Err e => Err e
      end
  end.

Definition parse_time (s : string) : result (Z * Z) ScheduleError :=
  match split_byte (Ascii.ascii_of_nat 58) (bytes_of s) with
  | [a; b] =>
      match parse_uint u32_max (string_of a) with
      | None => Err (InvalidHour (string_of a))
      | Some h => match parse_uint u32_max (string_of b) with
                  | None => Err (InvalidMinute (string_of b))
                  | Some m => if (Z.ltb 23 h || Z.ltb 59 m)%bool then Err (TimeOutOfRange h m) else Ok (h, m)
                  end
      end
  | _ => Err (ExpectedTime s)
  end.

Definition day_names : list (string * string) :=
  [("mon", "monday"); ("tue", "tuesday"); ("wed", "wednesday"); ("thu", "thursday"); ("fri", "friday");
   ("sat", "saturday"); ("sun", "sunday")]%string.

Definition parse_day (s : string) : result Z ScheduleError :=
  match position (fun d => (String.eqb (d.1) s || String.eqb (d.2) s)%bool) day_names with
  | Some i => Ok (Z.of_nat i)
  | None => Err (UnknownDay s)
  end.

Definition parse_schedule (text : string) : result Schedule ScheduleError :=
  let s := to_lowercase (trim text) in
  match strip_prefix s "every " with
  | Some rest =>
      let? secs := parse_duration rest in
      if Z.ltb secs 60 then Err TooShort else Ok (Interval secs)
  | None =>
      match strip_prefix s "daily " with
      | Some time => let? hm := parse_time time in Ok (Daily (hm.1) (hm.2))
      | None =>
          match strip_prefix s "weekly " with
          | Some rest =>
              match split_whitespace rest with
              | [d; time] => let? day := parse_day d in let? hm := parse_time time in Ok (Weekly day (hm.1) (hm.2))
              | _ => Err ExpectedWeekly
              end
          | None => Err (UnknownFormat s)
          end
      end
  end.

(** ** Jobs *)

Record CronJob := mkJob {
  job_id : string;
  job_name : string;
  job_prompt : string;
  job_schedule : string;
  job_cwd : option string;
  enabled : bool;
  created_at : string;
  last_run : option string;
  last_result : option string
}.

Record CronResult := mkResult { result_job : string; result_name : string; result_text : string; result_time : string }.

(** The state file: absent, not parsing, or a list of jobs. *)
Inductive StateFile := Missing | Malformed | Stored (l : list CronJob).

Record CronManager := mkManager { jobs : list CronJob; config_file : StateFile }.

Definition load_jobs (f : StateFile) : list CronJob := match f with Stored l => l | _ => [] end.

Definition new (f : StateFile) : CronManager := mkManager (load_jobs f) f.

(** [write]: whether the file can be written. *)
Definition save_jobs (write : bool) (l : list CronJob) (m : CronManager) : option CronManager :=
  if write then Some (mkManager (jobs m) (Stored l)) else None.

Definition with_jobs (l : list CronJob) (m : CronManager) : CronManager := mkManager l (config_file m).

Inductive AddError := InvalidSchedule (e : ScheduleError) | NotSaved.

(** [fresh] is the beginning of a new uuid. *)
Definition add_job (write : bool) (fresh now name prompt schedule : string) (cwd : option string) (m : CronManager) :
    result CronJob AddError * CronManager :=
  match parse_schedule schedule with
  | Err e => (Err (InvalidSchedule e), m)
  | Ok _ =>
      let job := mkJob fresh name prompt schedule cwd true now None None in
      match save_jobs write (jobs m ++ [job]) m with
      | None => (Err NotSaved, m)
      | Some m => (Ok job, with_jobs (jobs m ++ [job]) m)
      end
  end.

(** A failed write is logged: memory and file then differ. *)
Definition save_or_log (write : bool) (m : CronManager) : CronManager := default m (save_jobs write (jobs m) m).

Definition remove_job (write : bool) (id : string) (m : CronManager) : bool * CronManager :=
  let l := retain (fun j => negb (String.eqb (job_id j) id)) (jobs m) in
  if Nat.ltb (length l) (length (jobs m)) then (true, save_or_log write (with_jobs l m)) else (false, with_jobs l m).

Definition toggled (j : CronJob) : CronJob :=
  mkJob (job_id j) (job_name j) (job_prompt j) (job_schedule j) (job_cwd j) (negb (enabled j)) (created_at j)
        (last_run j) (last_result j).

(** The first job with the id. *)
Fixpoint update_first (f : CronJob -> CronJob) (id : string) (l : list CronJob) : option CronJob * list CronJob :=
  match l with
  | [] => (None, [])
  | j :: l' => if String.eqb (job_id j) id then (Some (f j), f j :: l')
               else let '(r, l') := update_first f id l' in (r, j :: l')
  end.

Definition toggle_job (write : bool) (id : string) (m : CronManager) : option bool * CronManager :=
  let '(r, l) := update_first toggled id (jobs m) in
  let m := with_jobs l m in
  match r with
  | Some j => (Some (enabled j), save_or_log write m)
  | None => (None, m)
  end.

Definition ran (now text : string) (j : CronJob) : CronJob :=
  mkJob (job_id j) (job_name j) (job_prompt j) (job_schedule j) (job_cwd j) (enabled j) (created_at j)
        (Some now) (Some (truncate_chars 500 text)).

Definition update_job_result (write : bool) (now id text : string) (m : CronManager) : CronManager :=
  save_or_log write (with_jobs (update_first (ran now text) id (jobs m)).2 m).

(** ** The scheduler *)

(** The time of day in UTC: [%u] from Monday as 0, [%H], [%M]. *)
Record Wall := mkWall { wall_day : Z; wall_hour : Z; wall_minute : Z }.

(** A reading of the wall clock, in seconds since the beginning of a Monday. *)
Definition wall_of (s : Z) : Wall := mkWall ((s / 86400) mod 7) ((s / 3600) mod 24) ((s / 60) mod 60).

(** Instants are nanoseconds of the monotonic clock. *)
Definition NANOS : Z := 1000000000.

(** [Instant::elapsed().as_secs()] of [l], at [t]. *)
Definition elapsed_secs (t l : Z) : Z := Z.max 0 (t - l) / NANOS.

(** [Instant::now() - Duration::from_secs(secs)]: the seconds of an instant are a
    signed 64-bit number; [None] is the panic. *)
Definition instant_sub (t secs : Z) : option Z :=
  if Z.leb (- 2 ^ 63) (t / NANOS - secs) then Some (t - secs * NANOS) else None.

Definition at_time (w : Wall) (h m : Z) : bool := (Z.eqb (wall_hour w) h && Z.eqb (wall_minute w) m)%bool.

Definition not_recently (t : Z) (last : option Z) : bool :=
  match last with Some l => Z.ltb 120 (elapsed_secs t l) | None => true end.

(** Whether a job is due; [None] is a panic. *)
Definition due (s : Schedule) (w : Wall) (t : Z) (last : option Z) : option bool :=
  match s with
  | Interval secs =>
      last ← match last with Some l => Some l | None => instant_sub t secs end;
      Some (Z.leb secs (elapsed_secs t last))
  | Daily h m => Some (at_time w h m && not_recently t last)%bool
  | Weekly d h m => Some (Z.eqb (wall_day w) d && at_time w h m && not_recently t last)%bool
  end.

Definition should_run (w : Wall) (t : Z) (last_check : gmap string Z) (j : CronJob) : option bool :=
  if enabled j then
    match parse_schedule (job_schedule j) with
    | Ok s => due s w t (last_check !! job_id j)
    | Err _ => Some false
    end
  else Some false.

(** One wake-up: the ids of the jobs fired, and the times they were. *)
Fixpoint tick (w : Wall) (t : Z) (l : list CronJob) (last_check : gmap string Z) :
    option (list string * gmap string Z) :=
  match l with
  | [] => Some ([], last_check)
  | j :: l' =>
      match should_run w t last_check j with
      | None => None
      | Some false => tick w t l' last_check
      | Some true =>
          match tick w t l' (<[job_id j := t]> last_check) with
          | Some (fired, last_check) => Some (job_id j :: fired, last_check)
          | None => None
          end
      end
  end.

(** What a wake-up of the loop finds: the wall clock, the monotonic clock, and
    the jobs. *)
Record Wakeup := mkWakeup { woke_wall : Z; woke_at : Z; woke_jobs : list CronJob }.

(** The loop of [start_scheduler] over its wake-ups: the jobs fired at each. *)
Fixpoint start_scheduler (wakeups : list Wakeup) (last_check : gmap string Z) : option (list (list string)) :=
  match wakeups with
  | [] => Some []
  | w :: rest =>
      match tick (wall_of (woke_wall w)) (woke_at w) (woke_jobs w) last_check with
      | Some (fired, last_check) => more ← start_scheduler rest last_check; Some (fired :: more)
      | None => None
      end
  end.

(** ** Durations *)

Definition digit_value (b : byte) : Z := Z.of_nat (Ascii.nat_of_ascii b - 48).

Definition number (l : list byte) : Z := foldl (fun acc b => 10 * acc + digit_value b) 0 l.

Lemma digits_number l acc :
  forallb is_digit l = true -> digits l acc = Some (foldl (fun acc b => 10 * acc + digit_value b) acc l).
Proof.
  revert acc. induction l as [|b l IH]; intros acc; [done|]. simpl. rewrite andb_true_iff. intros [Hb Hl].
  unfold digit_of. unfold is_digit in Hb. rewrite Hb. by apply IH.
Qed.

Lemma number_nonneg l : 0 <= number l.
Proof.
  unfold number. enough (Hg : forall acc, 0 <= acc -> 0 <= foldl (fun acc b => 10 * acc + digit_value b) acc l) by (by apply Hg).
  induction l as [|b l IH]; intros acc Ha; [done|]. simpl. apply IH. unfold digit_value. lia.
Qed.

Lemma parse_number hi l :
  l <> [] -> forallb is_digit l = true ->
  parse_uint hi (string_of l) = if Z.leb (number l) hi then Some (number l) else None.
Proof.
  intros Hne Hd. unfold parse_uint, parse_int. rewrite String.list_ascii_of_string_of_list_ascii.
  destruct l as [|b l]; [done|]. pose proof Hd as Hb. cbn [forallb] in Hb. apply andb_true_iff in Hb as [Hb _].
  unfold is_digit in Hb. apply andb_true_iff in Hb as [H1%Nat.leb_le H2%Nat.leb_le].
  rewrite (proj2 (Nat.eqb_neq _ 45)), (proj2 (Nat.eqb_neq _ 43)) by lia.
  rewrite (digits_number _ _ Hd). change (foldl _ 0 (b :: l)) with (number (b :: l)).
  rewrite Z.mul_1_l, (proj2 (Z.leb_le 0 _)) by apply number_nonneg. done.
Qed.

(** A number and its unit. *)
Definition Part : Type := list byte * byte.
Definition part_seconds (p : Part) : Z := number (p.1) * default 0 (unit_seconds (p.2)).
Definition part_ok (p : Part) : Prop := p.1 <> [] /\ forallb is_digit (p.1) = true /\ is_Some (unit_seconds (p.2)).

Definition duration_text (parts : list Part) (tail : list byte) : list byte :=
  (parts ≫= fun p => p.1 ++ [p.2]) ++ tail.
Definition duration_seconds (parts : list Part) (tail : list byte) : Z :=
  foldr (fun p acc => part_seconds p + acc) (60 * number tail) parts.

Lemma unit_not_digit c : is_Some (unit_seconds c) -> is_digit c = false.
Proof.
  unfold unit_seconds, is_digit. intros [k Hk].
  destruct (Nat.leb_spec 48 (Ascii.nat_of_ascii c)), (Nat.leb_spec (Ascii.nat_of_ascii c) 57); try done.
  exfalso. by rewrite !(proj2 (Nat.eqb_neq _ _)) in Hk by lia.
Qed.

Lemma unit_positive c k : unit_seconds c = Some k -> 0 < k.
Proof. unfold unit_seconds. repeat case_match; intros; simplify_eq; lia. Qed.

Lemma duration_digits s buf total ds l :
  forallb is_digit ds = true -> duration_loop s buf total (ds ++ l) = duration_loop s (buf ++ ds) total l.
Proof.
  revert buf. induction ds as [|d ds IH]; intros buf; [by rewrite app_nil_r|]. simpl. rewrite andb_true_iff.
  intros [Hd Hds]. rewrite Hd, (IH _ Hds). by rewrite <- app_assoc.
Qed.

Lemma part_seconds_nonneg p : part_ok p -> 0 <= part_seconds p.
Proof.
  intros (_ & _ & [k Hk]). unfold part_seconds. rewrite Hk. simpl. pose proof (number_nonneg (p.1)).
  pose proof (unit_positive _ _ Hk). nia.
Qed.

Lemma duration_nonneg parts tail : Forall part_ok parts -> 60 * number tail <= duration_seconds parts tail.
Proof.
  unfold duration_seconds. induction 1 as [|p parts Hp _ IH]; simpl; [lia|]. pose proof (part_seconds_nonneg p Hp). lia.
Qed.

(** The loop reads its parts as long as the sum fits. *)
Lemma duration_loop_parts s parts tail total :
  Forall part_ok parts -> forallb is_digit tail = true -> 0 <= total ->
  total + duration_seconds parts [] <= u64_max ->
  duration_loop s [] total (duration_text parts tail) = Ok (total + duration_seconds parts [], tail).
Proof.
  intros Hp Ht. revert total. induction Hp as [|p parts Hp Hps IH]; intros total H0 Hfit.
  - unfold duration_text. cbn [mbind list_bind app]. rewrite <- (app_nil_r tail) at 1. rewrite duration_digits by done.
    simpl. f_equal. f_equal. unfold duration_seconds, number. simpl. lia.
  - unfold duration_text. rewrite bind_cons, <- !app_assoc. destruct Hp as (Hne & Hd & [k Hk]).
    rewrite duration_digits by done. cbn [app duration_loop]. rewrite (unit_not_digit (p.2)) by (by exists k).
    change (duration_seconds (p :: parts) []) with (part_seconds p + duration_seconds parts []) in *.
    assert (Hps' : part_seconds p = number (p.1) * k) by (unfold part_seconds; by rewrite Hk).
    rewrite Hps' in *. pose proof (number_nonneg (p.1)). pose proof (unit_positive _ _ Hk).
    pose proof (duration_nonneg parts [] Hps) as Hnn. change (number []) with 0 in Hnn.
    assert (number (p.1) <= number (p.1) * k) by nia.
    rewrite parse_number, (proj2 (Z.leb_le _ _)), Hk by (done || lia).
    unfold checked_add_mul. rewrite (proj2 (Z.leb_le _ _)), (proj2 (Z.leb_le _ _)) by lia. cbn [andb].
    unfold duration_text in IH. rewrite IH by lia. f_equal. f_equal. lia.
Qed.

(** Whatever it reads is such a text. *)
Lemma duration_loop_inv s buf total l total' tail :
  forallb is_digit buf = true -> 0 <= total <= u64_max ->
  duration_loop s buf total l = Ok (total', tail) ->
  exists parts, buf ++ l = duration_text parts tail /\ Forall part_ok parts /\ forallb is_digit tail = true /\
                total' = total + duration_seconds parts [] /\ total' <= u64_max.
Proof.
  revert buf total. induction l as [|c l IH]; intros buf total Hb Ht; simpl.
  - intros [= <- <-]. exists []. unfold duration_text, duration_seconds, number. simpl. rewrite app_nil_r. split_and!; [done|done|done|lia|lia].
  - destruct (is_digit c) eqn:Hc.
    + intros Hl. destruct (IH (buf ++ [c]) total) as (parts & Hp & Hr); [|done|done|].
      { rewrite forallb_app, Hb. simpl. by rewrite Hc. }
      exists parts. by rewrite <- app_assoc in Hp.
    + destruct buf as [|d buf]; [done|]. set (ds := d :: buf) in *.
      rewrite parse_number by done. destruct (Z.leb (number ds) u64_max); [|done].
      destruct (unit_seconds c) as [k|] eqn:Hk; [|done]. unfold checked_add_mul.
      destruct (Z.leb_spec (number ds * k) u64_max); [|done]. destruct (Z.leb_spec (total + number ds * k) u64_max); [|done].
      cbn [andb]. pose proof (number_nonneg ds). pose proof (unit_positive _ _ Hk).
      intros Hl. destruct (IH [] (total + number ds * k)) as (parts & Hp & Hok & Htl & Htot & Hmax); [done|nia|done|].
      exists ((ds, c) :: parts). split_and!; [|by apply Forall_cons|done| |done].
      * unfold duration_text. rewrite bind_cons. unfold duration_text in Hp. simpl in Hp. rewrite Hp. simpl. by rewrite <- !app_assoc.
      * change (duration_seconds ((ds, c) :: parts) []) with (part_seconds (ds, c) + duration_seconds parts []).
        assert (Hps : part_seconds (ds, c) = number ds * k) by (unfold part_seconds; simpl; by rewrite Hk). lia.
Qed.

Lemma duration_tail parts tail :
  duration_seconds parts tail = duration_seconds parts [] + 60 * number tail.
Proof. unfold duration_seconds. induction parts as [|p parts IH]; simpl; [unfold number; simpl; lia|]. lia. Qed.

(** A duration is a sequence of numbers with a unit each, perhaps
    followed by digits without one, which are minutes; it is accepted exactly
    when its seconds add up to something between one and the largest 64-bit
    number, with no intermediate overflow let through, and that is its value. *)
Theorem parse_duration_exact (s : string) (v : Z) :
  parse_duration s = Ok v <->
  exists parts tail, bytes_of s = duration_text parts tail /\ Forall part_ok parts /\ forallb is_digit tail = true /\
                     v = duration_seconds parts tail /\ 0 < v <= u64_max.
Proof.
  unfold parse_duration. split.
  - destruct (duration_loop s [] 0 (bytes_of s)) as [[total tail]|e] eqn:El; [|done].
    destruct (duration_loop_inv s [] 0 (bytes_of s) total tail) as (parts & Hp & Hok & Ht & Htot & Hmax); [done|by vm_compute|done|].
    simpl in Hp. intros Hr. exists parts, tail. rewrite duration_tail. pose proof (duration_nonneg parts [] Hok) as Hnn.
    change (number []) with 0 in Hnn.
    destruct tail as [|d tail].
    + change (number []) with 0. destruct (Z.eqb_spec total 0); [done|]. injection Hr as <-. split_and!; [done..|lia|lia|lia].
    + rewrite parse_number in Hr by done. destruct (Z.leb (number (d :: tail)) u64_max); [|done].
      unfold checked_add_mul in Hr. pose proof (number_nonneg (d :: tail)).
      destruct (Z.leb_spec (number (d :: tail) * 60) u64_max); [|done].
      destruct (Z.leb_spec (total + number (d :: tail) * 60) u64_max); [|done]. cbn [andb] in Hr.
      destruct (Z.eqb_spec (total + number (d :: tail) * 60) 0); [done|]. injection Hr as <-. split_and!; [done..|lia|lia|lia].
  - intros (parts & tail & Hs & Hok & Ht & -> & Hv). rewrite Hs. rewrite duration_tail in *.
    pose proof (number_nonneg tail). rewrite duration_loop_parts by (done || lia).
    destruct tail as [|d tail].
    + change (number []) with 0 in *. rewrite (proj2 (Z.eqb_neq _ 0)) by lia. f_equal. lia.
    + pose proof (duration_nonneg parts [] Hok) as Hnn. change (number []) with 0 in Hnn.
      rewrite parse_number, (proj2 (Z.leb_le _ _)) by (done || lia).
      unfold checked_add_mul. rewrite (proj2 (Z.leb_le _ _)), (proj2 (Z.leb_le _ _)) by lia. cbn [andb].
      rewrite (proj2 (Z.eqb_neq _ 0)) by lia. f_equal. lia.
Qed.

Lemma parse_duration_bound s v : parse_duration s = Ok v -> 0 <= v <= u64_max.
Proof.
  unfold parse_duration. destruct (duration_loop s [] 0 (bytes_of s)) as [[total tail]|e] eqn:El; [|done].
  destruct (duration_loop_inv s [] 0 (bytes_of s) total tail) as (parts & _ & Hok & Ht & -> & Hmax); [done|by vm_compute|done|].
  pose proof (duration_nonneg parts [] Hok) as Hnn. change (number []) with 0 in Hnn.
  destruct tail as [|d tail]; [case_match; [done|intros [= <-]; lia]|]. rewrite parse_number by done.
  pose proof (number_nonneg (d :: tail)). unfold checked_add_mul. repeat case_match; try done; intros [= <-]; simplify_eq; bool_hyps; lia.
Qed.

Definition valid_schedule (s : Schedule) : Prop :=
  match s with
  | Interval secs => 60 <= secs <= u64_max
  | Daily h m => 0 <= h <= 23 /\ 0 <= m <= 59
  | Weekly d h m => 0 <= d <= 6 /\ 0 <= h <= 23 /\ 0 <= m <= 59
  end.

Lemma parse_time_range s h m : parse_time s = Ok (h, m) -> 0 <= h <= 23 /\ 0 <= m <= 59.
Proof.
  unfold parse_time. destruct (split_byte _ _) as [|a [|b [|c l]]]; try done.
  destruct (parse_uint u32_max (string_of a)) as [h'|] eqn:Eh; [|done].
  destruct (parse_uint u32_max (string_of b)) as [m'|] eqn:Em; [|done].
  apply parse_uint_range in Eh, Em. destruct (Z.ltb_spec 23 h'); [done|]. destruct (Z.ltb_spec 59 m'); [done|].
  intros [= <- <-]. lia.
Qed.

Lemma position_length {A} (f : A -> bool) l i : position f l = Some i -> (i < length l)%nat.
Proof.
  revert i. induction l as [|x l IH]; intros i; simpl; [done|]. destruct (f x); [intros [= <-]; lia|].
  destruct (position f l) as [k|]; [|done]. intros [= <-]. specialize (IH k eq_refl). lia.
Qed.

Lemma parse_schedule_valid text s : parse_schedule text = Ok s -> valid_schedule s.
Proof.
  unfold parse_schedule. set (t := to_lowercase (trim text)). destruct (strip_prefix t "every ") as [rest|].
  - destruct (parse_duration rest) as [secs|] eqn:Ed; [|done]. destruct (Z.ltb_spec secs 60); [done|].
    intros [= <-]. apply parse_duration_bound in Ed. simpl. lia.
  - destruct (strip_prefix t "daily ") as [time|].
    + destruct (parse_time time) as [[h m]|] eqn:Et; [|done]. intros [= <-]. exact (parse_time_range _ _ _ Et).
    + destruct (strip_prefix t "weekly ") as [rest|]; [|done].
      destruct (split_whitespace rest) as [|d [|time [|x l]]]; try done.
      destruct (parse_day d) as [day|] eqn:Eday; [|done]. destruct (parse_time time) as [[h m]|] eqn:Et; [|done].
      intros [= <-]. split; [|exact (parse_time_range _ _ _ Et)]. unfold parse_day in Eday.
      destruct (position _ day_names) as [i|] eqn:Ei; [|done]. injection Eday as <-. apply position_length in Ei.
      simpl in Ei. lia.
Qed.

(** ** What is fired *)

Lemma should_run_other w t lc id t' j : job_id j <> id -> should_run w t (<[id := t']> lc) j = should_run w t lc j.
Proof. intros Hne. unfold should_run. by rewrite lookup_insert_ne. Qed.

Lemma should_run_ext w t lc lc' j : lc !! job_id j = lc' !! job_id j -> should_run w t lc j = should_run w t lc' j.
Proof. intros He. unfold should_run. by rewrite He. Qed.

(** A tick treats each job by itself. *)
Lemma tick_jobs w t l lc fired lc' :
  NoDup (job_id <$> l) -> tick w t l lc = Some (fired, lc') ->
  (forall id, id ∉ (job_id <$> l) -> (id ∉ fired) /\ lc' !! id = lc !! id) /\
  (forall j, j ∈ l -> exists b, should_run w t lc j = Some b /\ (job_id j ∈ fired <-> b = true) /\
                               lc' !! job_id j = if b then Some t else lc !! job_id j).
Proof.
  revert lc fired lc'. induction l as [|j l IH]; intros lc fired lc'; [|rewrite fmap_cons; intros [Hj Hnd]%NoDup_cons]; cbn [tick].
  - intros _ [= <- <-]. split; [intros id _; split; [apply not_elem_of_nil|done]|by intros j ?%not_elem_of_nil].
  - destruct (should_run w t lc j) as [[]|] eqn:Er; [| |done].
    + destruct (tick w t l _) as [[f lc1]|] eqn:Et; [|done]. intros [= <- <-].
      destruct (IH _ _ _ Hnd Et) as [Hout Hin]. split.
      * intros id [Hne Hid]%not_elem_of_cons. destruct (Hout id Hid) as [Hf Hl]. split; [by rewrite not_elem_of_cons|].
        by rewrite Hl, lookup_insert_ne.
      * intros j' [->|Hj']%elem_of_cons.
        -- exists true. split; [done|]. split; [split; [done|by left]|]. destruct (Hout _ Hj) as [_ ->]. by rewrite lookup_insert_eq.
        -- assert (Hne : job_id j' <> job_id j) by (intros He; apply Hj; rewrite <- He; by apply list_elem_of_fmap_2).
           destruct (Hin j' Hj') as (b & Hb & Hf & Hl). exists b. rewrite should_run_other in Hb by done.
           split; [done|]. split; [rewrite elem_of_cons; naive_solver|]. rewrite Hl. by rewrite lookup_insert_ne.
    + intros Et. destruct (IH _ _ _ Hnd Et) as [Hout Hin]. split.
      * intros id [_ Hid]%not_elem_of_cons. by apply Hout.
      * intros j' [->|Hj']%elem_of_cons; [|by apply Hin]. exists false. destruct (Hout _ Hj) as [Hf Hl].
        split; [done|]. split; [by split|done].
Qed.

(** Whether one job fires at each wake-up, from the time it last did. *)
Fixpoint decisions (s : Schedule) (ws : list Wakeup) (last : option Z) : list bool :=
  match ws with
  | [] => []
  | w :: ws' =>
      let b := default false (due s (wall_of (woke_wall w)) (woke_at w) last) in
      b :: decisions s ws' (if b then Some (woke_at w) else last)
  end.

(** The job fires at the [i]-th wake-up. *)
Definition fires (id : string) (log : list (list string)) (i : nat) : Prop := exists f, log !! i = Some f /\ id ∈ f.

(** A wake-up sees the job, enabled and with its schedule; ids are unique. *)
Definition scheduled (id : string) (s : Schedule) (w : Wakeup) : Prop :=
  NoDup (job_id <$> woke_jobs w) /\
  exists j, j ∈ woke_jobs w /\ job_id j = id /\ enabled j = true /\ parse_schedule (job_schedule j) = Ok s.

Lemma scheduler_decisions id s ws lc log :
  Forall (scheduled id s) ws -> start_scheduler ws lc = Some log ->
  (fun f => bool_decide (id ∈ f)) <$> log = decisions s ws (lc !! id).
Proof.
  intros Hs. revert lc log. induction Hs as [|w ws (Hnd & j & Hj & Hid & Hen & Hp) _ IH]; intros lc log.
  - by intros [= <-].
  - cbn [start_scheduler]. destruct (tick _ _ (woke_jobs w) lc) as [[fired lc1]|] eqn:Et; [|done].
    destruct (start_scheduler ws lc1) as [more|] eqn:Em; [|done]. intros [= <-].
    destruct (proj2 (tick_jobs _ _ _ _ _ _ Hnd Et) j Hj) as (b & Hb & Hf & Hl).
    unfold should_run in Hb. rewrite Hen, Hp, Hid in Hb. rewrite Hid in Hf, Hl.
    rewrite fmap_cons. cbn [decisions]. rewrite Hb. cbn [from_option Datatypes.id]. specialize (IH lc1 more Em). rewrite Hl in IH.
    rewrite IH. replace (bool_decide (id ∈ fired)) with b; [by destruct b|]. destruct b; symmetry.
    + apply bool_decide_eq_true_2. by apply Hf.
    + apply bool_decide_eq_false_2. by intros Hin%Hf.
Qed.

Lemma fires_decisions id s ws lc log i :
  Forall (scheduled id s) ws -> start_scheduler ws lc = Some log ->
  fires id log i <-> decisions s ws (lc !! id) !! i = Some true.
Proof.
  intros Hs Hl. rewrite <- (scheduler_decisions id s ws lc log Hs Hl), list_lookup_fmap, fmap_Some. unfold fires.
  split; [intros (f & Hf & Hid); exists f; split; [done|by rewrite bool_decide_eq_true_2]|].
  intros (f & Hf & Hb). exists f. split; [done|]. by apply (bool_decide_eq_true _).
Qed.

(** *** No panic

    The loop does not panic while the intervals in the list are ones that a
    clock can subtract. *)

Definition clock_fits (j : CronJob) : Prop :=
  match parse_schedule (job_schedule j) with Ok (Interval secs) => secs <= 2 ^ 62 | _ => True end.

Lemma due_total s w t last :
  (forall secs, s = Interval secs -> secs <= 2 ^ 62) -> 0 <= t -> is_Some (due s w t last).
Proof.
  intros Hs Ht. destruct s as [secs|h m|d h m]; [|by eexists..]. specialize (Hs secs eq_refl). cbn [due]. unfold instant_sub.
  destruct last; [by eexists|]. assert (0 <= t / NANOS) by (apply Z.div_pos; unfold NANOS; lia).
  rewrite (proj2 (Z.leb_le _ _)) by lia. by eexists.
Qed.

Lemma tick_total w t l lc : Forall clock_fits l -> 0 <= t -> is_Some (tick w t l lc).
Proof.
  intros Hl Ht. revert lc. induction Hl as [|j l Hj _ IH]; intros lc; [by eexists|]. cbn [tick]. unfold should_run.
  assert (Hd : is_Some (if enabled j then match parse_schedule (job_schedule j) with
                 | Ok s => due s w t (lc !! job_id j) | Err _ => Some false end else Some false)).
  { destruct (enabled j); [|by eexists]. unfold clock_fits in Hj. destruct (parse_schedule (job_schedule j)) as [s|]; [|by eexists].
    apply due_total; [|done]. by intros secs ->. }
  destruct Hd as [[] ->]; [|by apply IH]. destruct (IH (<[job_id j := t]> lc)) as [[f lc'] ->]. by eexists.
Qed.

Lemma scheduler_total ws lc :
  Forall (fun w => 0 <= woke_at w /\ Forall clock_fits (woke_jobs w)) ws -> is_Some (start_scheduler ws lc).
Proof.
  intros Hw. revert lc. induction Hw as [|w ws [Ht Hl] _ IH]; intros lc; [by eexists|]. cbn [start_scheduler].
  destruct (tick_total (wall_of (woke_wall w)) (woke_at w) (woke_jobs w) lc Hl Ht) as [[f lc'] ->].
  destruct (IH lc') as [log ->]. by eexists.
Qed.

(** ** A daily or weekly job runs once at its time *)

(** The period of a schedule by the clock, and where in it its minute begins. *)
Definition clock_minute (s : Schedule) : option (Z * Z) :=
  match s with
  | Interval _ => None
  | Daily h m => Some (86400, 3600 * h + 60 * m)
  | Weekly d h m => Some (604800, 86400 * d + 3600 * h + 60 * m)
  end.

Definition in_minute (a t : Z) : bool := (Z.leb a t && Z.ltb t (a + 60))%bool.

(** The wall clock shows the [k]-th minute of the schedule. *)
Definition shows_minute (s : Schedule) (k : Z) (w : Wakeup) : Prop :=
  exists period off, clock_minute s = Some (period, off) /\ in_minute (period * k + off) (woke_wall w) = true.

(** What the loop decides for such a schedule: its minute, and not recently. *)
Lemma clock_due s w last :
  valid_schedule s -> is_some (clock_minute s) = true ->
  exists b, due s (wall_of (woke_wall w)) (woke_at w) last = Some (b && not_recently (woke_at w) last)%bool /\
            (b = true <-> exists k, shows_minute s k w).
Proof.
  unfold shows_minute, in_minute. destruct s as [secs|h m|d h m]; [done|intros [Hh Hm] _|intros (Hd & Hh & Hm) _].
  - eexists; split; [done|]. unfold at_time, wall_of. cbn [wall_hour wall_minute]. rewrite andb_true_iff, !Z.eqb_eq. split.
    + intros [H1 H2]. exists (woke_wall w / 86400). eexists _, _. split; [done|].
      rewrite andb_true_iff, Z.leb_le, Z.ltb_lt. Z.div_mod_to_equations. lia.
    + intros (k & period & off & [= <- <-] & Hk). rewrite andb_true_iff, Z.leb_le, Z.ltb_lt in Hk.
      split; Z.div_mod_to_equations; lia.
  - eexists; split; [cbn [due]; done|]. unfold at_time, wall_of. cbn [wall_day wall_hour wall_minute].
    rewrite !andb_true_iff, !Z.eqb_eq. split.
    + intros [H0 [H1 H2]]. exists (woke_wall w / 604800). eexists _, _. split; [done|].
      rewrite andb_true_iff, Z.leb_le, Z.ltb_lt. Z.div_mod_to_equations. lia.
    + intros (k & period & off & [= <- <-] & Hk). rewrite andb_true_iff, Z.leb_le, Z.ltb_lt in Hk.
      split_and!; Z.div_mod_to_equations; lia.
Qed.

Lemma elapsed_mono t t' l l' : l' <= l -> t <= t' -> elapsed_secs t l <= elapsed_secs t' l'.
Proof. intros Hl Ht. unfold elapsed_secs. apply Z.div_le_mono; unfold NANOS; lia. Qed.

(** The wake-ups in the order of the monotonic clock. *)
Definition in_order (ws : list Wakeup) : Prop := StronglySorted Z.le (woke_at <$> ws).

Lemma in_order_lookup ws i j wi wj :
  in_order ws -> (i <= j)%nat -> ws !! i = Some wi -> ws !! j = Some wj -> woke_at wi <= woke_at wj.
Proof.
  unfold in_order. revert i j. induction ws as [|w ws IH]; intros i j Hs Hij Hi Hj; [done|]. rewrite fmap_cons in Hs.
  apply StronglySorted_inv in Hs as [Hs Hall]. destruct i as [|i], j as [|j]; simpl in Hi, Hj; simplify_eq; [done| |lia|].
  - rewrite Forall_forall in Hall. apply Hall, list_elem_of_fmap. exists wj. split; [done|by eapply list_elem_of_lookup_2].
  - apply (IH i j); [done|lia|done|done].
Qed.

(** *** How far apart a job fires

    For a schedule that, by the monotonic clock, lets [gap] seconds go by. *)

Section Apart.
Context (s : Schedule) (gap : Z)
  (Hgap : forall w l, due s (wall_of (woke_wall w)) (woke_at w) (Some l) = Some true -> gap <= elapsed_secs (woke_at w) l).

Lemma in_order_tail x ws : in_order (x :: ws) -> in_order ws.
Proof. unfold in_order. rewrite fmap_cons. by intros [? _]%StronglySorted_inv. Qed.

Lemma in_order_head x ws y : in_order (x :: ws) -> y ∈ ws -> woke_at x <= woke_at y.
Proof. intros Hs [k Hk]%list_elem_of_lookup. by apply (in_order_lookup (x :: ws) 0 (S k) x y Hs); [lia|..]. Qed.

Lemma fires_after ws l i w :
  in_order ws -> (forall x, x ∈ ws -> l <= woke_at x) ->
  decisions s ws (Some l) !! i = Some true -> ws !! i = Some w -> gap <= elapsed_secs (woke_at w) l.
Proof.
  revert l i. induction ws as [|x ws IH]; intros l i Hs Hl; [done|]. pose proof (Hl x ltac:(by left)) as Hlx.
  cbn [decisions]. destruct (default false (due s (wall_of (woke_wall x)) (woke_at x) (Some l))) eqn:Hd.
  - destruct i as [|i]; simpl.
    + intros _ [= <-]. apply Hgap. by destruct (due _ _ _ _) as [[]|].
    + intros Hi Hw. pose proof (IH (woke_at x) i (in_order_tail _ _ Hs) (fun y => in_order_head _ _ y Hs) Hi Hw).
      pose proof (elapsed_mono (woke_at w) (woke_at w) (woke_at x) l). lia.
  - destruct i as [|i]; simpl; [done|]. apply IH; [by eapply in_order_tail|]. intros y Hy. apply Hl. by right.
Qed.

Lemma fires_apart ws last i j wi wj :
  in_order ws -> (i < j)%nat -> decisions s ws last !! i = Some true -> decisions s ws last !! j = Some true ->
  ws !! i = Some wi -> ws !! j = Some wj -> gap <= elapsed_secs (woke_at wj) (woke_at wi).
Proof.
  revert last i j. induction ws as [|x ws IH]; intros last i j Hs Hij Hi Hj Hwi Hwj; [done|].
  destruct j as [|j]; [lia|]. destruct i as [|i]; cbn [decisions] in Hi, Hj; simpl in Hi, Hj, Hwi, Hwj.
  - injection Hi as Hb. injection Hwi as <-. rewrite Hb in Hj.
    by apply (fires_after ws _ j (wj)); [by eapply in_order_tail|intros y; by apply in_order_head|..].
  - by apply (IH _ i j (in_order_tail _ _ Hs) ltac:(lia) Hi Hj).
Qed.
End Apart.

Section ByTheClock.
Context (s : Schedule) (Hv : valid_schedule s) (Hc : is_some (clock_minute s) = true).

(** It fires in its minutes only. *)
Lemma fires_in_minute ws last i w :
  decisions s ws last !! i = Some true -> ws !! i = Some w -> exists k, shows_minute s k w.
Proof.
  revert last i. induction ws as [|x ws IH]; intros last [|i]; simpl; try done; [|by eapply IH].
  destruct (clock_due s x last Hv Hc) as (b & -> & Hb). cbn [from_option Datatypes.id].
  intros [= Hd] [= <-]. apply andb_true_iff in Hd as [Hd _]. by apply Hb.
Qed.

Lemma clock_gap w l : due s (wall_of (woke_wall w)) (woke_at w) (Some l) = Some true -> 121 <= elapsed_secs (woke_at w) l.
Proof.
  destruct (clock_due s w (Some l) Hv Hc) as (b & -> & _). intros [= [_ Hr]%andb_true_iff]. apply Z.ltb_lt in Hr. lia.
Qed.

(** In its minute it fires, or did at most two minutes ago. *)
Lemma fires_soon ws last i w k :
  in_order ws -> ws !! i = Some w -> shows_minute s k w ->
  (exists j wj, (j <= i)%nat /\ ws !! j = Some wj /\ decisions s ws last !! j = Some true /\
                elapsed_secs (woke_at w) (woke_at wj) <= 120) \/
  (exists l, last = Some l /\ elapsed_secs (woke_at w) l <= 120).
Proof.
  revert last i. induction ws as [|x ws IH]; intros last i Hs Hw Hk; [done|].
  pose proof (in_order_tail _ _ Hs) as Hs'.
  destruct (clock_due s x last Hv Hc) as (b & Hd & Hb). destruct i as [|i]; simpl in Hw.
  - injection Hw as ->. assert (b = true) as -> by (apply Hb; by exists k). destruct (not_recently (woke_at w) last) eqn:Hr.
    + left. exists 0%nat, w. split_and!; [lia|done|cbn [decisions]; by rewrite Hd|]. unfold elapsed_secs. by rewrite Z.sub_diag.
    + right. destruct last as [l|]; [|done]. exists l. split; [done|]. by apply Z.ltb_ge.
  - destruct (IH (if default false (due s (wall_of (woke_wall x)) (woke_at x) last) then Some (woke_at x) else last) i Hs' Hw Hk)
      as [(j & wj & Hj & Hwj & Hdj & He)|(l & Hl & He)].
    + left. exists (S j), wj. split_and!; [lia|done|done|done].
    + destruct (default false _) eqn:Hf; [|by right; exists l]. injection Hl as <-. left. exists 0%nat, x.
      split_and!; [lia|done|cbn [decisions]; by rewrite Hf|done].
Qed.
End ByTheClock.

(** From one wake-up to another the two clocks go on by the same time, give or
    take a minute: the wall clock is not set further and the machine not
    suspended for longer. *)
Definition clocks_agree (ws : list Wakeup) : Prop :=
  forall i j wi wj, ws !! i = Some wi -> ws !! j = Some wj ->
    Z.abs (NANOS * (woke_wall wj - woke_wall wi) - (woke_at wj - woke_at wi)) <= 60 * NANOS.

Lemma agree_same_minute s k wi wj :
  Z.abs (NANOS * (woke_wall wj - woke_wall wi) - (woke_at wj - woke_at wi)) <= 60 * NANOS ->
  shows_minute s k wi -> shows_minute s k wj -> elapsed_secs (woke_at wj) (woke_at wi) <= 120.
Proof.
  intros Ha (p & o & Hc & Hi) (p' & o' & Hc' & Hj). simplify_eq. unfold in_minute in *. bool_hyps.
  unfold elapsed_secs. enough (Z.max 0 (woke_at wj - woke_at wi) / NANOS < 121) by lia.
  apply Z.div_lt_upper_bound; unfold NANOS in *; lia.
Qed.

Lemma agree_other_minute s k k' wi wj :
  Z.abs (NANOS * (woke_wall wj - woke_wall wi) - (woke_at wj - woke_at wi)) <= 60 * NANOS -> woke_at wi <= woke_at wj ->
  shows_minute s k wi -> shows_minute s k' wj -> elapsed_secs (woke_at wj) (woke_at wi) <= 120 -> k = k'.
Proof.
  intros Ha Ht (p & o & Hc & Hi) (p' & o' & Hc' & Hj) He. simplify_eq. unfold in_minute in *. bool_hyps.
  assert (Hp : 86400 <= p) by (unfold clock_minute in Hc; destruct s; simplify_eq; lia).
  assert (Hlt : woke_at wj - woke_at wi < 121 * NANOS).
  { unfold elapsed_secs in He. assert (Z.max 0 (woke_at wj - woke_at wi) < NANOS * 121).
    { apply Z.nle_gt. intros Hge. assert (121 <= Z.max 0 (woke_at wj - woke_at wi) / NANOS) by (apply Z.div_le_lower_bound; unfold NANOS in *; lia). lia. }
    lia. }
  unfold NANOS in *. destruct (Z.lt_trichotomy k k') as [?|[?|?]]; [exfalso|done|exfalso]; nia.
Qed.

(** Claim C21. The loop runs a daily or weekly job by the clock.  Let every
    wake-up find the job, enabled, among jobs with different ids, none of them
    with an interval of more than [2 ^ 62] seconds (a longer one can panic the
    loop), and let the monotonic clock not run backwards.  Then the loop does
    not panic and, whatever the wall clock does: the job fires only at wake-ups
    that read a minute of its schedule; two firings are more than 120 seconds
    apart by the monotonic clock; and at every wake-up in such a minute it fires
    or did so in the 120 seconds before.  Where, besides, the clocks agree to a
    minute over the wake-ups (no larger step of the wall clock, no longer
    suspend), it fires in each minute of its schedule that any wake-up reads
    exactly once, at the first such wake-up. *)
Theorem clock_job_fires_once (ws : list Wakeup) (id text : string) (s : Schedule)
    (Hs : parse_schedule text = Ok s) (Hc : is_some (clock_minute s) = true)
    (Hj : Forall (scheduled id s) ws) (Hw : Forall (fun w => 0 <= woke_at w /\ Forall clock_fits (woke_jobs w)) ws)
    (Ht : in_order ws) :
  exists log, start_scheduler ws ∅ = Some log /\
  (forall i w, fires id log i -> ws !! i = Some w -> exists k, shows_minute s k w) /\
  (forall i j wi wj, (i < j)%nat -> fires id log i -> fires id log j -> ws !! i = Some wi -> ws !! j = Some wj ->
     120 < elapsed_secs (woke_at wj) (woke_at wi)) /\
  (forall i w k, ws !! i = Some w -> shows_minute s k w ->
     exists j wj, (j <= i)%nat /\ ws !! j = Some wj /\ fires id log j /\ elapsed_secs (woke_at w) (woke_at wj) <= 120) /\
  (clocks_agree ws -> forall i w k, ws !! i = Some w -> shows_minute s k w ->
     (fires id log i <-> forall j wj, (j < i)%nat -> ws !! j = Some wj -> ~ shows_minute s k wj)).
Proof.
  apply parse_schedule_valid in Hs. destruct (scheduler_total ws ∅ Hw) as [log Hlog]. exists log. split; [done|].
  assert (Hf : forall i, fires id log i <-> decisions s ws None !! i = Some true).
  { intros i. rewrite (fires_decisions _ _ _ _ _ _ Hj Hlog). by rewrite lookup_empty. }
  assert (Hin : forall i w, fires id log i -> ws !! i = Some w -> exists k, shows_minute s k w).
  { intros i w Hi%Hf. by apply (fires_in_minute s Hs Hc ws None). }
  assert (Hapart : forall i j wi wj, (i < j)%nat -> fires id log i -> fires id log j -> ws !! i = Some wi -> ws !! j = Some wj ->
    120 < elapsed_secs (woke_at wj) (woke_at wi)).
  { intros i j wi wj Hij Hi%Hf Hjf%Hf Hwi Hwj.
    pose proof (fires_apart s 121 (clock_gap s Hs Hc) ws None i j wi wj Ht Hij Hi Hjf Hwi Hwj). lia. }
  assert (Hsoon : forall i w k, ws !! i = Some w -> shows_minute s k w ->
    exists j wj, (j <= i)%nat /\ ws !! j = Some wj /\ fires id log j /\ elapsed_secs (woke_at w) (woke_at wj) <= 120).
  { intros i w k Hi Hk. destruct (fires_soon s Hs Hc ws None i w k Ht Hi Hk) as [(j & wj & Hji & Hwj & Hd & He)|(l & ? & _)]; [|done].
    exists j, wj. split_and!; [done|done|by apply Hf|done]. }
  split; [done|]. split; [done|]. split; [done|]. intros Hag i w k Hi Hk. split.
  - intros Hfi j wj Hji Hwj Hkj. destruct (Hsoon j wj k Hwj Hkj) as (n & wn & Hn & Hwn & Hfn & He).
    destruct (Hin n wn Hfn Hwn) as [k' Hk']. assert (k' = k) as ->.
    { apply (agree_other_minute s k' k wn wj); [by eapply Hag|by eapply in_order_lookup|done..]. }
    pose proof (Hapart n i wn w ltac:(lia) Hfn Hfi Hwn Hi).
    pose proof (agree_same_minute s k wn w ltac:(by eapply Hag) Hk' Hk). lia.
  - intros Hfirst. destruct (Hsoon i w k Hi Hk) as (j & wj & Hji & Hwj & Hfj & He). destruct (decide (j = i)) as [->|Hne]; [done|].
    destruct (Hin j wj Hfj Hwj) as [k' Hk']. exfalso. apply (Hfirst j wj); [lia|done|]. assert (k' = k) as <-; [|done].
    apply (agree_other_minute s k' k wj w); [by eapply Hag|by eapply in_order_lookup|done..].
Qed.

(** ** An interval job waits its interval *)

Lemma interval_spaced d ws last i j wi wj :
  in_order ws -> (i < j)%nat -> decisions (Interval d) ws last !! i = Some true ->
  decisions (Interval d) ws last !! j = Some true -> ws !! i = Some wi -> ws !! j = Some wj ->
  d <= elapsed_secs (woke_at wj) (woke_at wi).
Proof.
  apply fires_apart. intros w l. cbn [due mbind option_bind]. by intros [= ?%Z.leb_le].
Qed.

(** ** On concrete jobs *)

Definition demo_job (id schedule : string) : CronJob :=
  mkJob id "news" "summarise the news" schedule None true "2025-01-06T00:00:00Z" None None.

(** Wake-ups at these seconds by both clocks. *)
Definition wake_at (jobs : list CronJob) (wall at_secs : Z) : Wakeup := mkWakeup wall (at_secs * NANOS) jobs.

Definition demo_jobs : list CronJob := [demo_job "a" "Daily 00:01"; demo_job "b" "every 90s"].

Definition demo_ws : list Wakeup := (fun t => wake_at demo_jobs t t) <$> [30; 60; 90; 120; 150; 86460; 86490].

Example demo_run :
  start_scheduler demo_ws ∅ = Some [["b"]; ["a"]; []; ["b"]; []; ["a"; "b"]; []]%string.
Proof. vm_compute. reflexivity. Qed.

Lemma demo_ordered : in_order demo_ws.
Proof. unfold in_order. vm_compute. repeat constructor; discriminate. Qed.

Lemma demo_scheduled : Forall (scheduled "a" (Daily 0 1)) demo_ws.
Proof.
  unfold demo_ws. apply Forall_fmap, Forall_true. intros t. split.
  - simpl. apply NoDup_cons. split; [|apply NoDup_singleton]. by rewrite list_elem_of_singleton.
  - exists (demo_job "a" "Daily 00:01"). split; [by left|]. split; [done|]. split; [done|]. vm_compute. reflexivity.
Qed.

Lemma demo_fits : Forall (fun w => 0 <= woke_at w /\ Forall clock_fits (woke_jobs w)) demo_ws.
Proof.
  assert (H1 : parse_schedule "Daily 00:01" = Ok (Daily 0 1)) by (vm_compute; reflexivity).
  assert (H2 : parse_schedule "every 90s" = Ok (Interval 90)) by (vm_compute; reflexivity).
  assert (Hj : Forall clock_fits demo_jobs).
  { apply Forall_cons. split; [unfold clock_fits; cbn [job_schedule demo_job]; by rewrite H1|].
    apply Forall_singleton. unfold clock_fits. cbn [job_schedule demo_job]. rewrite H2. lia. }
  unfold demo_ws. apply Forall_fmap, Forall_forall. intros t Ht. cbn [compose wake_at woke_at woke_jobs]. split; [|done].
  unfold NANOS. in_lists; lia.
Qed.

Lemma demo_agree : clocks_agree demo_ws.
Proof.
  intros i j wi wj (x & -> & _)%list_lookup_fmap_Some (y & -> & _)%list_lookup_fmap_Some. cbn [wake_at woke_wall woke_at].
  unfold NANOS. lia.
Qed.

Lemma clock_job_fires_once_witness :
  exists log, start_scheduler demo_ws ∅ = Some log /\ fires "a" log 1 /\ ~ fires "a" log 2 /\ fires "a" log 5.
Proof.
  destruct (clock_job_fires_once demo_ws "a" "daily 0:01" (Daily 0 1) ltac:(vm_compute; reflexivity) eq_refl demo_scheduled demo_fits
              demo_ordered) as (log & Hl & _ & _ & _ & H).
  exists log. split; [exact Hl|]. specialize (H demo_agree).
  assert (Hs : forall x k, shows_minute (Daily 0 1) k (wake_at demo_jobs x x) <-> in_minute (86400 * k + 60) x = true).
  { intros x k. split; [intros (p & o & Hc & Hm); injection Hc as <- <-; exact Hm|].
    intros Hm. exists 86400, 60. split; [reflexivity|exact Hm]. }
  assert (L1 : demo_ws !! 1%nat = Some (wake_at demo_jobs 60 60)) by reflexivity.
  assert (L2 : demo_ws !! 2%nat = Some (wake_at demo_jobs 90 90)) by reflexivity.
  assert (L5 : demo_ws !! 5%nat = Some (wake_at demo_jobs 86460 86460)) by reflexivity.
  split; [|split].
  - apply (proj2 (H 1%nat _ 0 L1 (proj2 (Hs 60 0) eq_refl))). intros j w Hlt Hw Hm.
    assert (j = 0%nat) as -> by lia. assert (w = wake_at demo_jobs 30 30) as -> by (injection Hw as <-; reflexivity).
    apply Hs in Hm. discriminate Hm.
  - intros Hf. apply (proj1 (H 2%nat _ 0 L2 (proj2 (Hs 90 0) eq_refl)) Hf 1%nat _ ltac:(lia) L1). by apply Hs.
  - apply (proj2 (H 5%nat _ 1 L5 (proj2 (Hs 86460 1) eq_refl))). intros j w Hlt Hw Hm.
    unfold demo_ws in Hw. rewrite list_lookup_fmap in Hw.
    destruct (([30; 60; 90; 120; 150; 86460; 86490] : list Z) !! j) as [x|] eqn:Hx; [|discriminate Hw].
    injection Hw as <-. apply Hs in Hm.
    do 5 (destruct j as [|j]; [injection Hx as <-; discriminate Hm|]). lia.
Defined.

(** Where the clocks disagree a minute can run twice, or not at all: the wall
    clock is set back an hour after the job ran, and runs to its time again; or
    the machine is suspended right after it ran and wakes up a day later, while
    the monotonic clock has stood still. *)
Example clock_set_back_fires_twice :
  let jobs := [demo_job "a" "daily 01:00"] in
  start_scheduler [wake_at jobs 3600 0; wake_at jobs 30 30; wake_at jobs 3600 3600] ∅ = Some [["a"]; []; ["a"]]%string.
Proof. vm_compute. reflexivity. Qed.

Example suspend_skips_day :
  let jobs := [demo_job "a" "daily 01:00"] in
  start_scheduler [wake_at jobs 3600 0; wake_at jobs 90001 30; wake_at jobs 90031 60] ∅ = Some [["a"]; []; []]%string.
Proof. vm_compute. reflexivity. Qed.

Example durations_read :
  parse_duration "2h30m" = Ok 9000 /\ parse_duration "45" = Ok 2700 /\ parse_duration "m5" = Err (InvalidNumber "m5") /\
  parse_duration "0s" = Err ZeroDuration /\ parse_duration "5x" = Err (UnknownUnit "x") /\
  parse_duration "18446744073709551616s" = Err (InvalidNumber "18446744073709551616s") /\
  parse_duration "18446744073709551615s1s" = Err (TooLarge "18446744073709551615s1s").
Proof. vm_compute. auto 10. Qed.

Example schedules_read :
  parse_schedule " Weekly SUN 9:5" = Ok (Weekly 6 9 5) /\ parse_schedule "every 59s" = Err TooShort /\
  parse_schedule "daily 24:00" = Err (TimeOutOfRange 24 0) /\ parse_schedule "hourly" = Err (UnknownFormat "hourly").
Proof. vm_compute. auto. Qed.

(** After a restart the loop has forgotten when an interval job last ran, though
    the job's own record holds it: it fires at the first wake-up. *)
Example restart_fires_at_once :
  start_scheduler [wake_at [ran "2025-01-06T00:00:00Z" "done" (demo_job "b" "every 1000d")] 30 30] ∅ = Some [["b"%string]].
Proof. vm_compute. reflexivity. Qed.

(** A long enough interval is accepted, and the first wake-up panics. *)
Example long_interval_panics :
  (add_job true "b" "now" "news" "p" "every 9300000000000000000s" None (new Missing)).1 =
    Ok (mkJob "b" "news" "p" "every 9300000000000000000s" None true "now" None None) /\
  start_scheduler [wake_at [demo_job "b" "every 9300000000000000000s"] 30 30] ∅ = None.
Proof. vm_compute. auto. Qed.

(** A file that does not parse counts as no jobs, and the next job replaces it. *)
Example malformed_file_replaced :
  (add_job true "b" "now" "news" "p" "daily 09:00" None (new Malformed)).2 =
    mkManager [mkJob "b" "news" "p" "daily 09:00" None true "now" None None]
              (Stored [mkJob "b" "news" "p" "daily 09:00" None true "now" None None]).
Proof. vm_compute. reflexivity. Qed.

(** A job is removed though the file keeps it: the next start brings it back. *)
Example removed_job_returns :
  let m := mkManager [demo_job "a" "daily 09:00"] (Stored [demo_job "a" "daily 09:00"]) in
  remove_job false "a" m = (true, mkManager [] (Stored [demo_job "a" "daily 09:00"])) /\
  jobs (new (config_file (remove_job false "a" m).2)) = jobs m.
Proof. vm_compute. auto. Qed.
