(* ===== verification/ApiClient.v ===== *)
(** * ApiClient: the clients of the model providers ([api/client.rs], [unified.rs])

    The request of the Anthropic client and the reader of its answer: bytes in
    arbitrary chunks, decoded as UTF-8, cut at blank lines, each block parsed
    to an event of the stream that [Stream] ingests.  The text of a JSON error
    is an argument. *)

From stdpp Require Import base gmap strings list.
From Stdlib Require Import ZArith Lia.
From S2P Require Import Prelude Text Sse Json Paths Permissions ToolHealth ToolExec Messages Stream Compact Query Request.

#[local] Open Scope string_scope.

(** ** UTF-8 errors: [Utf8Error::error_len]

    For bytes that begin with no well-formed character: the length of the
    ill-formed sequence, or nothing when they only end too early. *)

Definition second_of_3 (b c : byte) : bool :=
  if Nat.eqb (code b) 224 then within 160 191 c else if Nat.eqb (code b) 237 then within 128 159 c else cont c.
Definition second_of_4 (b c : byte) : bool :=
  if Nat.eqb (code b) 240 then within 144 191 c else if Nat.eqb (code b) 244 then within 128 143 c else cont c.

Definition error_len (l : list byte) : option nat :=
  match l with
  | [] => None
  | b :: l' =>
      if within 194 223 b then match l' with [] => None | _ => Some 1%nat end
      else if within 224 239 b then
        match l' with
        | [] => None
        | c1 :: l'' => if second_of_3 b c1 then match l'' with [] => None | _ => Some 2%nat end else Some 1%nat
        end
      else if within 240 244 b then
        match l' with
        | [] => None
        | c1 :: l'' =>
            if second_of_4 b c1 then
              match l'' with
              | [] => None
              | c2 :: l3 => if cont c2 then match l3 with [] => None | _ => Some 3%nat end else Some 2%nat
              end
            else Some 1%nat
        end
      else Some 1%nat
  end.

(** [String::from_utf8_lossy]: every ill-formed sequence becomes U+FFFD. *)
Definition replacement : list byte := utf8 [239; 191; 189]%nat.

Fixpoint lossy_fuel (fuel : nat) (l : list byte) : list byte :=
  match fuel with
  | O => []
  | S fuel' =>
      match l, char_len l with
      | [], _ => []
      | _, Some n => (take n l ++ lossy_fuel fuel' (drop n l))%list
      | _, None => (replacement ++ match error_len l with Some n => lossy_fuel fuel' (drop n l) | None => [] end)%list
      end
  end.

Definition from_utf8_lossy (l : list byte) : list byte := lossy_fuel (length l) l.

(** ** The request *)

Record ApiClientConfig := mkClient { api_key : string; base_url : option string; client_retries : option Z; api_path : option string }.

Record AnthropicClient := mkAnthropic { client_key : string; client_url : string; max_client_retries : Z; client_path : option string }.

Definition new_anthropic (c : ApiClientConfig) : AnthropicClient :=
  mkAnthropic (api_key c) (default "https://api.anthropic.com" (base_url c)) (default 3%Z (client_retries c)) (api_path c).

Definition ends_with (s p : string) : bool := starts_with (string_of (rev (bytes_of s))) (string_of (rev (bytes_of p))).

(** The URL of [create_message_stream] and [prewarm]. *)
Definition messages_url (c : AnthropicClient) : string :=
  let base := client_url c in
  match client_path c with
  | Some p => if is_empty p then base else base +:+ p
  | None =>
      if (str_contains base "/v1/messages" || str_contains base "/v1/chat")%bool then base
      else if ends_with base "/v1" then base +:+ "/messages"
      else base +:+ "/v1/messages"
  end.

(** The error of a status that is no success. *)
Definition status_error (status : Z) (message : string) : ApiError :=
  if Z.eqb status 401 then AuthError
  else if Z.eqb status 429 then RateLimited
  else if Z.eqb status 400 then BadRequest message
  else if (Z.leb 500 status && Z.leb status 599)%bool then ServerError status
  else HttpError status message.

(** [is_retryable], [is_auth_error]. *)
Definition is_retryable (e : ApiError) : bool :=
  match e with RateLimited | ServerError _ => true | _ => false end.
Definition is_auth_error (e : ApiError) : bool := match e with AuthError => true | _ => false end.

(** A transport error with its causes. *)
Definition network_error (error : string) (causes : list string) : ApiError :=
  let msg := foldl (fun m c => m +:+ " " +:+ string_of (utf8 [226; 134; 146]%nat) +:+ " " +:+ c) error causes in
  NetworkError (if (str_contains msg "decoding" || str_contains msg "h2" || str_contains msg "protocol")%bool
                then msg +:+ string_of [LF] +:+ "  hint: if using a third-party gateway, try setting BAOCLAW_HTTP1_ONLY=1"
                else msg).

(** What the body of the response delivers next. *)
Inductive Net := Bytes (l : list byte) | Failure (error : string) (causes : list string).

Section Client.
Context `{J : Json}.

(** The request of a compaction that shares the cached prefix. *)
Definition for_cache_safe_compaction (main : CreateMessageRequest) (old : list Value) (instruction : string) : CreateMessageRequest :=
  mkCreate (request_model main)
    (old ++ [json_object [("role", json_string "user"); ("content", json_string instruction)]])%list
    (request_system main) (request_tools main) 4096 true None.

(** ** Events

    An event with the index of its block, which the ingestion does not look
    at. *)
Definition Indexed : Type := option Z * ApiStreamEvent.

Definition as_u32 (v : Value) : option Z :=
  match as_u64 v with Some n => if Z.leb n u32_max then Some n else None | None => None end.

(** [ApiErrorDetail], an object or its fields in order. *)
Definition error_detail (v : Value) : option (string * string) :=
  match as_array v with
  | Some [t; m] => t ← as_str t; m ← as_str m; Some (t, m)
  | Some _ => None
  | None => t ← str_field v "type"; m ← str_field v "message"; Some (t, m)
  end.

(** An event as an array: the tag, then the fields in order and nothing else. *)
Definition decode_positional (l : list Value) : option Indexed :=
  match l with
  | [] => None
  | tag :: fields =>
      ty ← as_str tag;
      match fields with
      | [] => if String.eqb ty "message_stop" then Some (None, MessageStop)
              else if String.eqb ty "ping" then Some (None, Ping) else None
      | [x] => if String.eqb ty "message_start" then Some (None, MessageStart x)
               else if String.eqb ty "content_block_stop" then i ← as_u32 x; Some (Some i, ContentBlockStop)
               else if String.eqb ty "error" then e ← error_detail x; Some (None, ErrorEvent e.1 e.2) else None
      | [x; y] => if String.eqb ty "content_block_start" then i ← as_u32 x; Some (Some i, ContentBlockStart y)
                  else if String.eqb ty "content_block_delta" then i ← as_u32 x; Some (Some i, ContentBlockDelta y)
                  else if String.eqb ty "message_delta" then Some (None, MessageDelta x y) else None
      | _ => None
      end
  end.

(** An event as an object, by its [type]. *)
Definition decode_fields (v : Value) : option Indexed :=
  ty ← str_field v "type";
  if String.eqb ty "message_start" then m ← json_get v "message"; Some (None, MessageStart m)
  else if String.eqb ty "content_block_start" then
    i ← json_get v "index" ≫= as_u32; b ← json_get v "content_block"; Some (Some i, ContentBlockStart b)
  else if String.eqb ty "content_block_delta" then
    i ← json_get v "index" ≫= as_u32; d ← json_get v "delta"; Some (Some i, ContentBlockDelta d)
  else if String.eqb ty "content_block_stop" then i ← json_get v "index" ≫= as_u32; Some (Some i, ContentBlockStop)
  else if String.eqb ty "message_delta" then d ← json_get v "delta"; u ← json_get v "usage"; Some (None, MessageDelta d u)
  else if String.eqb ty "message_stop" then Some (None, MessageStop)
  else if String.eqb ty "ping" then Some (None, Ping)
  else if String.eqb ty "error" then
    e ← json_get v "error" ≫= error_detail; Some (None, ErrorEvent e.1 e.2)
  else None.

(** Deserializing an internally tagged enum takes both forms.  Data with a
    member twice, which the derived reader refuses, are not told apart from
    data with the last of them only. *)
Definition decode_stream_event (v : Value) : option Indexed :=
  match as_array v with
  | Some l => decode_positional l
  | None => decode_fields v
  end.

Abbreviation Item := (result Indexed ApiError).

Context (event_error : string -> string).

(** The data of a line of a block. *)
Definition data_of_line (line : list byte) : option string :=
  let line := trim (string_of line) in
  if (is_empty line || starts_with line "event:")%bool then None
  else match strip (bytes_of "data:") (bytes_of line) with
       | Some rest => Some (trim (string_of rest))
       | None => None
       end.

Definition parse_data (data : string) : Item :=
  match json_parse data with
  | Some v =>
      match json_get v "error" with
      | Some e => Err (BadRequest (default "unknown" (str_field e "code") +:+ ": " +:+
                                   default "Unknown API error" (str_field e "message")))
      | None => match decode_stream_event v with
                | Some ev => Ok ev
                | None => Err (ParseError ("Failed to parse SSE event JSON: " +:+ event_error data +:+ " (data: " +:+ data +:+ ")"))
                end
      end
  | None => Err (ParseError ("Failed to parse SSE event JSON: " +:+ event_error data +:+ " (data: " +:+ data +:+ ")"))
  end.

(** [parse_next_sse_event]: the first block leaves the buffer whether or not it
    holds an event. *)
Definition parse_next_sse_event (buf : list byte) : option Item * list byte :=
  match find_blank buf with
  | None => (None, buf)
  | Some n =>
      (match last (omap data_of_line (lines (take n buf))) with
       | Some data => if String.eqb data "[DONE]" then None else Some (parse_data data)
       | None => None
       end, drop (n + 2) buf)
  end.

(** ** The stream *)

Record SseStream := mkSse { inner : list Net; stream_buffer : list byte; stream_pending : list byte }.

Definition new_sse (net : list Net) : SseStream := mkSse net [] [].

(** A chunk: the text it completes, and the bytes kept for the next one. *)
Definition take_chunk (pending chunk : list byte) : list byte * list byte :=
  let '(text, rest) := decode (pending ++ chunk)%list in
  (text, match error_len rest with Some n => drop n rest | None => rest end).

(** [poll_next], which reads on until there is an event. *)
Fixpoint poll_sse (net : list Net) (buf pending : list byte) : option Item * SseStream :=
  match parse_next_sse_event buf with
  | (Some e, buf) => (Some e, mkSse net buf pending)
  | (None, buf) =>
      match net with
      | [] => (None, mkSse [] buf pending)
      | Failure e causes :: net => (Some (Err (network_error e causes)), mkSse net buf pending)
      | Bytes c :: net => let '(text, pending) := take_chunk pending c in poll_sse net (buf ++ text)%list pending
      end
  end.

Definition poll_next (s : SseStream) : option Item * SseStream := poll_sse (inner s) (stream_buffer s) (stream_pending s).
End Client.

(** ** Reading a stream

    What [n] polls give, up to the end of the stream. *)

Section Collect.
Context {S A : Type} (poll : S -> option A * S).

Fixpoint collect (n : nat) (s : S) : list A :=
  match n with
  | O => []
  | Datatypes.S n => match poll s with (Some x, s) => x :: collect n s | (None, _) => [] end
  end.
End Collect.

(** What the ingestion makes of an item. *)
Definition item_of `{J : Json} (x : result Indexed ApiError) : StreamItem :=
  match x with Ok (_, e) => Event e | Err e => Broken (api_error_to_string e) end.

(** ** UTF-8 across chunks *)

#[local] Open Scope list_scope.

(** What the end of a chunk cuts off is the start of a character. *)
Lemma cut_character r m n : char_len r = None -> char_len (r ++ m) = Some n -> error_len r = None.
Proof.
  unfold char_len, error_len, second_of_3, second_of_4. intros Hr Hn.
  destruct r as [|b [|c1 [|c2 [|c3 r]]]]; simpl in *; repeat case_match; simplify_eq/=; try done.
Qed.

(** The rest of a well-formed text, in front of which [pending] is kept. *)
Definition well_formed_from (pending : list byte) (rest : list byte) : Prop := (decode (pending ++ rest)).2 = [].

Lemma decode_stuck l v r : decode l = (v, r) -> char_len r = None.
Proof.
  revert v r. induction l as [l IH] using (well_founded_induction (well_founded_ltof _ length)).
  intros v r. rewrite decode_unfold. destruct (char_len l) as [n|] eqn:Hc; [|by intros [= <- <-]].
  apply char_len_bounds in Hc. destruct (decode (drop n l)) as [v' r'] eqn:Hd. intros [= <- <-].
  by apply (IH (drop n l) ltac:(unfold ltof; rewrite length_drop; lia) _ _ Hd).
Qed.

Lemma well_formed_head r m : well_formed_from r m -> r <> [] -> char_len r = None -> exists n, char_len (r ++ m) = Some n.
Proof.
  unfold well_formed_from. rewrite decode_unfold. intros Hw Hne Hc. destruct (char_len (r ++ m)) as [n|]; [by exists n|].
  simpl in Hw. by destruct r.
Qed.

(** A chunk of a well-formed text is split into text and the start of a
    character, nothing is dropped. *)
Lemma take_chunk_wf pending c rest :
  well_formed_from pending (c ++ rest) ->
  let '(text, pending') := take_chunk pending c in
  pending ++ c = text ++ pending' /\ well_formed_from pending' rest /\ char_len pending' = None.
Proof.
  unfold take_chunk, well_formed_from. intros Hw. destruct (decode (pending ++ c)) as [v r] eqn:Hd.
  pose proof (decode_stuck _ _ _ Hd) as Hc. pose proof (decode_split _ _ _ Hd) as Hs.
  rewrite (assoc_L (++)), (decode_app _ rest _ _ Hd) in Hw.
  destruct (decode (r ++ rest)) as [v' r'] eqn:Hd'. simpl in Hw. subst r'.
  assert (He : error_len r = None).
  { destruct r as [|b r]; [done|]. destruct (well_formed_head (b :: r) rest) as [n Hn]; [|done|done|].
    - unfold well_formed_from. by rewrite Hd'.
    - by apply (cut_character _ rest n). }
  rewrite He. split_and!; [done| |done]. by rewrite Hd'.
Qed.

(** ** Blank lines *)

Lemma find_blank_cons a b l :
  find_blank (a :: b :: l) = if Ascii.eqb a LF && Ascii.eqb b LF then Some 0%nat else S <$> find_blank (b :: l).
Proof. reflexivity. Qed.

Lemma find_blank_bound l n : find_blank l = Some n -> (n + 2 <= length l)%nat.
Proof.
  revert n. induction l as [|a [|b l] IH]; intros n; [done..|]. rewrite find_blank_cons.
  destruct (_ && _)%bool; [intros [= <-]; simpl; lia|].
  intros (k & Hk & ->)%fmap_Some. specialize (IH k Hk). simpl in *. lia.
Qed.

Lemma find_blank_app l m n : find_blank l = Some n -> find_blank (l ++ m) = Some n.
Proof.
  revert n. induction l as [|a [|b l] IH]; intros n; [done..|]. cbn [app]. rewrite !find_blank_cons.
  destruct (_ && _)%bool; [done|]. intros (k & Hk & ->)%fmap_Some. specialize (IH k Hk). cbn [app] in IH. by rewrite IH.
Qed.

Lemma not_blank a l : LF ∉ a :: l -> Ascii.eqb a LF = false.
Proof. intros Hl. destruct (Ascii.eqb_spec a LF) as [->|]; [by destruct Hl; left|done]. Qed.

Lemma find_blank_line l m :
  LF ∉ l -> l <> [] -> find_blank (l ++ LF :: LF :: m) = Some (length l).
Proof.
  intros Hl Hne. induction l as [|a [|b l] IH]; [done| |]; cbn [app]; rewrite find_blank_cons, (not_blank _ _ Hl); [done|].
  cbn [andb app] in *. rewrite IH; [done|by intros ?; apply Hl; right|done].
Qed.

Lemma find_blank_next (l : list byte) (b : byte) (m : list byte) n :
  LF ∉ l -> l <> [] -> Ascii.eqb b LF = false -> find_blank (b :: m) = Some n ->
  find_blank (l ++ LF :: b :: m) = Some (S (length l + n)).
Proof.
  intros Hl Hne Hb Hn. induction l as [|a [|c l] IH]; [done| |]; cbn [app]; rewrite find_blank_cons, (not_blank _ _ Hl);
    cbn [andb app] in *.
  - rewrite find_blank_cons, Hb, andb_false_r, Hn. done.
  - rewrite IH; [done|by intros ?; apply Hl; right|done].
Qed.

(** ** A response on the wire *)

(** Text on one line that trimming leaves alone. *)
Definition visible (s : string) : bool :=
  match bytes_of s with a :: _ => solid a | [] => false end &&
  match last (bytes_of s) with Some z => solid z | None => false end &&
  forallb (fun b => negb (Ascii.eqb b LF)) (bytes_of s).

Lemma visible_no_lf s : visible s = true -> LF ∉ bytes_of s.
Proof.
  intros [_ Hf]%andb_true_iff Hin. rewrite forallb_forall in Hf. apply list_elem_of_In in Hin.
  specialize (Hf _ Hin). by rewrite Ascii.eqb_refl in Hf.
Qed.

Lemma visible_nonempty s : visible s = true -> bytes_of s <> [].
Proof. unfold visible. by destruct (bytes_of s). Qed.

Lemma last_app_ne {A} (l m : list A) : m <> [] -> last (l ++ m) = last m.
Proof. intros Hm. rewrite last_app. destruct m as [|x m _] using rev_ind; [done|]. by rewrite last_snoc. Qed.

Lemma trim_visible a p s :
  visible s = true -> solid a = true -> trim (String.String a p +:+ s) = String.String a p +:+ s.
Proof.
  intros Hv Ha. pose proof (visible_nonempty _ Hv) as Hne. unfold visible in Hv.
  apply andb_true_iff in Hv as [[_ Hz]%andb_true_iff _]. destruct (last (bytes_of s)) as [z|] eqn:Hl; [|done].
  apply (trim_solid _ a z (bytes_of (p +:+ s))); [done| |done|done].
  rewrite bytes_of_app, last_app_ne; done.
Qed.

Lemma trim_space s : visible s = true -> trim (" " +:+ s) = s.
Proof.
  intros Hv. pose proof (visible_nonempty _ Hv) as Hne.
  change (trim_end (string_of (trim_with whitespace (str_len s) (bytes_of s))) = s).
  change (trim s = s). unfold visible in Hv.
  apply andb_true_iff in Hv as [[Ha Hz]%andb_true_iff _]. destruct (last (bytes_of s)) as [z|] eqn:Hl; [|done].
  destruct (bytes_of s) as [|a l] eqn:Hs; [done|]. rewrite <- Hs in Hl. by apply (trim_solid s a z l).
Qed.

Lemma strip_cr_visible p s : visible s = true -> strip_cr (bytes_of (p +:+ s)) = bytes_of (p +:+ s).
Proof.
  intros Hv. pose proof (visible_nonempty _ Hv) as Hne. unfold visible in Hv.
  apply andb_true_iff in Hv as [[_ Hz]%andb_true_iff _]. unfold strip_cr. rewrite bytes_of_app, last_app_ne by done.
  unfold byte in *. destruct (last (bytes_of s)) as [z|]; [|done].
  destruct (Ascii.eqb_spec z CR) as [->|]; [discriminate Hz|reflexivity].
Qed.

Record Frame := mkFrame { frame_event : option string; frame_data : string }.

Definition event_line (n : string) : list byte := bytes_of ("event: " +:+ n).
Definition data_bytes (d : string) : list byte := bytes_of ("data: " +:+ d).

Definition frame_bytes (f : Frame) : list byte :=
  match frame_event f with Some n => event_line n ++ [LF] | None => [] end ++ data_bytes (frame_data f) ++ [LF; LF].

(** What a frame has of the shape that reading it back needs. *)
Definition framed (f : Frame) : Prop := from_option visible true (frame_event f) = true /\ visible (frame_data f) = true.

Lemma prefixed_no_lf p s : LF ∉ bytes_of p -> visible s = true -> LF ∉ bytes_of (p +:+ s).
Proof. intros Hp Hs. rewrite bytes_of_app, elem_of_app. intros [?|?]; [done|by apply (visible_no_lf s)]. Qed.

Lemma frame_blank f m :
  framed f -> find_blank (frame_bytes f ++ m) = Some (length (frame_bytes f) - 2)%nat /\ (2 <= length (frame_bytes f))%nat.
Proof.
  intros (Hn & Hd). unfold frame_bytes.
  assert (Hdl : find_blank ((data_bytes (frame_data f) ++ [LF; LF]) ++ m) = Some (length (data_bytes (frame_data f)))).
  { rewrite <- (assoc_L (++)). apply find_blank_line; [|done]. apply prefixed_no_lf; [|done]. by apply (bool_decide_unpack _). }
  destruct (frame_event f) as [n|]; simpl in Hn.
  - assert (Hl : find_blank (event_line n ++ LF :: (data_bytes (frame_data f) ++ [LF; LF]) ++ m) =
                 Some (S (length (event_line n) + length (data_bytes (frame_data f))))).
    { apply find_blank_next; [|done|done|exact Hdl]. apply prefixed_no_lf; [|done]. by apply (bool_decide_unpack _). }
    rewrite <- (assoc_L (++)), <- (assoc_L (++)). cbn [app]. rewrite Hl. split; [f_equal|]; rewrite ?length_app; simpl; rewrite ?length_app; simpl; lia.
  - cbn [app]. rewrite Hdl. split; [f_equal|]; rewrite ?length_app; simpl; lia.
Qed.

Lemma take_frame f m : take (length (frame_bytes f) - 2) (frame_bytes f ++ m) =
  match frame_event f with Some n => event_line n ++ [LF] | None => [] end ++ data_bytes (frame_data f).
Proof.
  unfold frame_bytes. rewrite (assoc_L (++)), <- (assoc_L (++) _ [LF; LF] m). set (l := _ ++ data_bytes _).
  rewrite length_app. simpl length. replace (length l + 2 - 2)%nat with (length l) by lia. by rewrite take_app_length.
Qed.

Lemma data_lines d : visible d = true -> lines (data_bytes d) = [data_bytes d].
Proof. intros Hd. apply lines_last; [|done]. apply prefixed_no_lf; [|done]. by apply (bool_decide_unpack _). Qed.

Lemma buffered_frame f buf rest m n :
  framed f -> find_blank buf = Some n -> buf ++ rest = frame_bytes f ++ m ->
  exists buf', buf = frame_bytes f ++ buf' /\ m = buf' ++ rest.
Proof.
  intros Hc Hn Hb. destruct (frame_blank f m Hc) as [Hf Hlen]. rewrite <- Hb, (find_blank_app _ _ _ Hn) in Hf.
  injection Hf as ->. apply find_blank_bound in Hn. apply app_eq_inv in Hb as [(k & -> & ->)|(k & Hk & ->)]; [by exists k|].
  destruct k as [|b k]; [rewrite app_nil_r in Hk; exists []; by rewrite app_nil_r|].
  rewrite Hk, length_app in Hn. simpl in Hn. lia.
Qed.

Section Wire.
Context `{J : Json} (event_error : string -> string).

Definition carries (f : Frame) (e : Indexed) : Prop :=
  framed f /\ frame_data f <> "[DONE]" /\ parse_data event_error (frame_data f) = Ok e.

Lemma event_line_ignored n : visible n = true -> data_of_line (event_line n) = None.
Proof.
  intros Hn. unfold data_of_line, event_line. rewrite string_of_bytes, trim_visible; done.
Qed.

Lemma data_line_read d : visible d = true -> data_of_line (data_bytes d) = Some d.
Proof.
  intros Hd. unfold data_of_line, data_bytes. rewrite string_of_bytes, trim_visible by done.
  change (Some (trim (string_of (bytes_of (" " +:+ d)))) = Some d). by rewrite string_of_bytes, trim_space.
Qed.

Lemma frame_parses f e m : carries f e -> parse_next_sse_event event_error (frame_bytes f ++ m) = (Some (Ok e), m).
Proof.
  intros Hc. unfold parse_next_sse_event. destruct (frame_blank f m (proj1 Hc)) as [-> Hlen]. rewrite take_frame.
  replace (length (frame_bytes f) - 2 + 2)%nat with (length (frame_bytes f)) by lia. rewrite drop_app_length.
  destruct Hc as ((Hn & Hd) & Hdone & Hp). f_equal.
  pose proof (data_lines _ Hd) as Hl.
  assert (Ho : omap data_of_line (lines (match frame_event f with Some n => event_line n ++ [LF] | None => [] end ++ data_bytes (frame_data f)))
               = [frame_data f]).
  { destruct (frame_event f) as [n|]; simpl in Hn; [|rewrite app_nil_l, Hl; cbn; by rewrite data_line_read].
    rewrite (lines_from_app [] (event_line n) _ : lines _ = _). fold (lines (event_line n ++ [LF])).
    rewrite lines_one, omap_app, Hl by (apply prefixed_no_lf; [|done]; by apply (bool_decide_unpack _)).
    cbn [omap list_omap app]. rewrite data_line_read by done.
    unfold event_line. rewrite strip_cr_visible by done. fold (event_line n). by rewrite event_line_ignored. }
  rewrite Ho. cbn [last]. destruct (String.eqb_spec (frame_data f) "[DONE]"); [done|]. by rewrite Hp.
Qed.

(** What is still to be read holds the remaining frames. *)
Definition awaits (s : SseStream) (fs : list Frame) : Prop :=
  exists chunks, inner s = Bytes <$> chunks /\
    stream_buffer s ++ stream_pending s ++ concat chunks = concat (frame_bytes <$> fs) /\
    well_formed_from (stream_pending s) (concat chunks) /\ char_len (stream_pending s) = None.

Lemma nothing_pending p : well_formed_from p [] -> char_len p = None -> p = [].
Proof. unfold well_formed_from. rewrite app_nil_r, decode_unfold. intros Hw Hp. by rewrite Hp in Hw. Qed.

Lemma poll_frame f e fs s :
  carries f e -> awaits s (f :: fs) -> exists s', poll_next event_error s = (Some (Ok e), s') /\ awaits s' fs.
Proof.
  intros Hc. destruct s as [net buf pending]. intros (chunks & Hnet & Hb & Hw & Hp). unfold poll_next. simpl in *. subst net.
  revert buf pending Hb Hw Hp. induction chunks as [|c chunks IH]; intros buf pending Hb Hw Hp;
    (destruct (find_blank buf) as [n|] eqn:Hn;
     [destruct (buffered_frame f _ _ _ n (proj1 Hc) Hn Hb) as (buf' & -> & Hm); cbn [fmap list_fmap poll_sse];
      rewrite (frame_parses f e buf' Hc)|]).
  - eexists. split; [done|]. by exists [].
  - exfalso. destruct (frame_blank f (concat (frame_bytes <$> fs)) (proj1 Hc)) as [Hf _].
    rewrite (nothing_pending pending Hw Hp), !app_nil_r in Hb. rewrite Hb in Hn. pose proof (eq_trans (eq_sym Hn) Hf). discriminate.
  - eexists. split; [done|]. by exists (c :: chunks).
  - cbn [fmap list_fmap poll_sse]. unfold parse_next_sse_event. rewrite Hn. simpl in Hb.
    pose proof (take_chunk_wf pending c (concat chunks) Hw) as Ht. destruct (take_chunk pending c) as [text pending'].
    destruct Ht as (Hs & Hw' & Hp'). apply IH; [|done|done].
    by rewrite <- (assoc_L (++)), (assoc_L (++) text), <- Hs, <- (assoc_L (++)).
Qed.

Lemma poll_end s : awaits s [] -> (poll_next event_error s).1 = None.
Proof.
  destruct s as [net buf pending]. intros (chunks & Hnet & Hb & _ & _). unfold poll_next. simpl in *. subst net.
  apply app_nil in Hb as [-> [-> Hb]%app_nil]. induction chunks as [|c chunks IH]; [done|].
  simpl in Hb. apply app_nil in Hb as [-> Hb]. cbn. by apply IH.
Qed.

Lemma collect_frames fs es s n :
  Forall2 carries fs es -> awaits s fs -> (length fs <= n)%nat -> collect (poll_next event_error) n s = Ok <$> es.
Proof.
  intros Hf. revert s n. induction Hf as [|f e fs es Hc _ IH]; intros s n Hs Hn.
  - destruct n as [|n]; [done|]. cbn. pose proof (poll_end s Hs) as He. destruct (poll_next _ s) as [[]]; done.
  - destruct n as [|n]; simpl in Hn; [lia|]. destruct (poll_frame f e fs s Hc Hs) as (s' & Hp & Ha).
    cbn. rewrite Hp. f_equal. apply IH; [done|lia].
Qed.
End Wire.

Section Delivery.
Context `{JL : JsonLaws} (event_error : string -> string).

(** Claim C10. An answer survives the wire: however the network cuts a response
    into chunks, in the middle of a frame or of a character, the client yields
    exactly the events of its frames, in their order, and ends; so when they are
    the events of some blocks, the ingested turn holds exactly these blocks. *)
Theorem events_delivered (model : string) (u : Usage) (c : CostTracker) (chunks : list (list byte)) (fs : list Frame)
    (es : list Indexed) (n : nat)
    (Hf : Forall2 (carries event_error) fs es) (Hb : concat chunks = concat (frame_bytes <$> fs))
    (Hu : (decode (concat chunks)).2 = []) (Hn : (length fs <= n)%nat) :
  let items := collect (poll_next event_error) n (new_sse (Bytes <$> chunks)) in
  items = Ok <$> es /\
  forall bs ess, Forall2 streamed bs ess -> ((Event ∘ snd) <$> es) = concat ess ++ [Event MessageStop] ->
    (ingest model (item_of <$> items) (fresh_ingest u c)).1 = Continue bs None.
Proof.
  intros items. assert (Hi : items = Ok <$> es).
  { apply (collect_frames event_error fs); [done| |done]. exists chunks. by split_and!. }
  split; [done|]. intros bs ess Hs He. rewrite Hi, <- list_fmap_compose.
  assert (Hm : (item_of ∘ Ok) <$> es = (Event ∘ snd) <$> es) by (apply list_fmap_ext; by intros _ [i e] _).
  rewrite Hm, He. destruct (streamed_blocks model bs ess [Event MessageStop] (fresh_ingest u c) Hs) as (s' & -> & H1 & H2 & _).
  simpl in *. by rewrite H1, H2.
Qed.

End Delivery.

Section Errors.
Context `{J : Json} (event_error : string -> string).

Definition is_error_event (x : result Indexed ApiError) : bool :=
  match x with Ok (_, ErrorEvent _ _) => true | _ => false end.

(** An error event in its positional form. *)
Definition positional_error (v : Value) (ty m : string) : Prop :=
  json_get v "error" = None /\
  exists tag e, as_array v = Some [tag; e] /\ as_str tag = Some "error" /\ error_detail e = Some (ty, m).

Lemma fields_no_error v i ty m : json_get v "error" = None -> decode_fields v <> Some (i, ErrorEvent ty m).
Proof.
  intros Hn. unfold decode_fields. destruct (str_field v "type") as [t|]; [|done]. cbn [mbind option_bind].
  rewrite Hn. repeat case_match; try done; intros He; simplify_option_eq; done.
Qed.

Lemma positional_is_error l i ty m : decode_positional l = Some (i, ErrorEvent ty m) ->
  exists tag e, l = [tag; e] /\ as_str tag = Some "error" /\ error_detail e = Some (ty, m).
Proof.
  unfold decode_positional. destruct l as [|tag [|x [|y [|z l]]]]; [done|..]; destruct (as_str tag) as [t|] eqn:Ht; try done;
    cbn [mbind option_bind]; [by repeat case_match| |by repeat case_match; intros He; simplify_option_eq].
  destruct (String.eqb t "message_start"); [done|]. destruct (String.eqb t "content_block_stop"); [by intros He; simplify_option_eq|].
  destruct (String.eqb_spec t "error") as [->|]; [|done]. destruct (error_detail x) as [[ty' m']|] eqn:Hx; [|done].
  intros [= _ <- <-]. by exists tag, x.
Qed.

Lemma parsed_error d i ty m : parse_data event_error d = Ok (i, ErrorEvent ty m) ->
  exists v, json_parse d = Some v /\ positional_error v ty m.
Proof.
  unfold parse_data. destruct (json_parse d) as [v|]; [|done]. destruct (json_get v "error") as [e|] eqn:He; [done|].
  destruct (decode_stream_event v) as [x|] eqn:Hd; [|done]. intros [= ->]. exists v. split; [done|].
  unfold decode_stream_event in Hd. destruct (as_array v) as [l|] eqn:Hl; [|by apply fields_no_error in Hd].
  apply positional_is_error in Hd as (tag & x & -> & Ht & Hx).
  split; [done|by exists tag, x].
Qed.

(** The text a network delivers from some point on. *)
Fixpoint received_text (net : list Net) (pending : list byte) : list byte :=
  match net with
  | [] => []
  | Failure _ _ :: net => received_text net pending
  | Bytes c :: net => let '(text, pending) := take_chunk pending c in (text ++ received_text net pending)%list
  end.

(** The text of a stream still to be read. *)
Definition unread (s : SseStream) : list byte := (stream_buffer s ++ received_text (inner s) (stream_pending s))%list.

Definition part_of (block text : list byte) : Prop := exists pre post, text = (pre ++ block ++ [LF; LF] ++ post)%list.

(** A block of a text with an error event in the positional form. *)
Definition holds_error (text : list byte) (ty m : string) : Prop :=
  exists block data v, part_of block text /\ last (omap data_of_line (lines block)) = Some data /\
    json_parse data = Some v /\ positional_error v ty m.

Lemma holds_error_later pre text ty m : holds_error text ty m -> holds_error (pre ++ text) ty m.
Proof.
  intros (block & data & v & (a & b & ->) & H). exists block, data, v. split; [|exact H]. exists (pre ++ a)%list, b. by rewrite <- app_assoc.
Qed.

Lemma find_blank_cut l n : find_blank l = Some n -> l = (take n l ++ [LF; LF] ++ drop (n + 2) l)%list.
Proof.
  revert n. induction l as [|a [|b l] IH]; intros n; [done..|]. rewrite find_blank_cons.
  destruct (_ && _)%bool eqn:Hb.
  - intros [= <-]. apply andb_true_iff in Hb as [->%Ascii.eqb_eq ->%Ascii.eqb_eq]. done.
  - intros (k & Hk & ->)%fmap_Some. specialize (IH k Hk). cbn [take drop Nat.add app] in *. by rewrite <- IH.
Qed.

Lemma parse_next_spec buf : let '(x, buf') := parse_next_sse_event event_error buf in
  (exists pre, buf = (pre ++ buf')%list) /\
  forall i ty m, x = Some (Ok (i, ErrorEvent ty m)) -> holds_error buf ty m.
Proof.
  unfold parse_next_sse_event. destruct (find_blank buf) as [n|] eqn:Hn; [|split; [by exists []|done]].
  split; [exists (take (n + 2) buf); by rewrite take_drop|]. intros i ty m.
  destruct (last _) as [data|] eqn:Hd; [|done]. destruct (String.eqb data "[DONE]"); [done|].
  intros [= Hp]. apply parsed_error in Hp as (v & Hv & He). exists (take n buf), data, v.
  split; [|done]. exists [], (drop (n + 2) buf). by apply find_blank_cut.
Qed.

Lemma poll_spec net buf pending : let '(x, s) := poll_sse event_error net buf pending in
  (exists pre, (buf ++ received_text net pending = pre ++ unread s)%list) /\
  forall i ty m, x = Some (Ok (i, ErrorEvent ty m)) -> holds_error (buf ++ received_text net pending) ty m.
Proof.
  assert (Hmore : forall b t ty m, holds_error b ty m -> holds_error (b ++ t) ty m).
  { intros b t ty m (block & data & v & (a & z & ->) & H). exists block, data, v. split; [|exact H].
    exists a, (z ++ t)%list. by rewrite <- !app_assoc. }
  revert buf pending. induction net as [|[c|er ca] net IH]; intros buf pending; cbn [poll_sse];
    pose proof (parse_next_spec buf) as Hb; destruct (parse_next_sse_event event_error buf) as [[y|] b]; destruct Hb as [[pre ->] He]; cbv beta iota;
    try (split; [exists pre; unfold unread; by rewrite <- app_assoc|intros i ty m Hx; apply Hmore; by apply (He i)]).
  - cbn [received_text]. destruct (take_chunk pending c) as [t p']. specialize (IH (b ++ t)%list p').
    destruct (poll_sse event_error net (b ++ t) p') as [x s]. destruct IH as [[pre' Hp] Hx]. rewrite <- app_assoc in Hp, Hx.
    rewrite <- app_assoc. split; [exists (pre ++ pre')%list; by rewrite Hp, <- app_assoc|].
    intros i ty m Hi. apply holds_error_later. by apply (Hx i).
Qed.

(** Claim C12. An error event is ingested in the positional form only: whenever
    the reader yields one, whatever the network delivers and however it is cut,
    a complete block of the received text holds, as its last data, an array of
    the tag [error] and the error, which the derived reader takes for an event
    as well, and no [error] member.  So the error event of the protocol, an
    object with an [error] member, never arrives as one. *)
Theorem error_events_positional (net : list Net) (n : nat) (i : option Z) (ty m : string) :
  Ok (i, ErrorEvent ty m) ∈ collect (poll_next event_error) n (new_sse net) ->
  exists block data v, part_of block (received_text net []) /\
    last (omap data_of_line (lines block)) = Some data /\ json_parse data = Some v /\
    json_get v "error" = None /\ exists tag e, as_array v = Some [tag; e] /\ as_str tag = Some "error" /\ error_detail e = Some (ty, m).
Proof.
  change (received_text net []) with (unread (new_sse net)). fold (holds_error (unread (new_sse net)) ty m).
  generalize (new_sse net). induction n as [|n IH]; intros s; [by intros ?%not_elem_of_nil|]. cbn [collect].
  unfold poll_next at 1. pose proof (poll_spec (inner s) (stream_buffer s) (stream_pending s)) as Hp.
  destruct (poll_sse event_error (inner s) (stream_buffer s) (stream_pending s)) as [[x|] s']; [|by intros ?%not_elem_of_nil].
  destruct Hp as [[pre Hpre] Hx]. fold (unread s) in Hpre, Hx. intros [<-|Hin]%elem_of_cons; [by apply (Hx i)|].
  rewrite Hpre. by apply holds_error_later, IH.
Qed.
End Errors.

(** ** On concrete responses *)

Section Demo.

(** The texts of the frames below and their values. *)
Definition demo_texts : list (string * flat) :=
  [("{ block 0 starts as a text block }",
    FObj [("type", FStr "content_block_start"); ("index", FInt 0); ("content_block", FObj [("type", FStr "text")])]);
   ("{ block 0 goes on with the text hello as a delta }",
    FObj [("type", FStr "content_block_delta"); ("index", FInt 0); ("delta", FObj [("type", FStr "text_delta"); ("text", FStr "hello")])]);
   ("{ block 0 stops here, it is over }", FObj [("type", FStr "content_block_stop"); ("index", FInt 0)]);
   ("{ the message stops }", FObj [("type", FStr "message_stop")]);
   ("{ an error: the provider is overloaded, Overloaded }",
    FObj [("type", FStr "error"); ("error", FObj [("type", FStr "overloaded_error"); ("message", FStr "Overloaded")])]);
   ("[ an error in the positional form, Busy ]",
    FArr [FStr "error"; FObj [("type", FStr "overloaded_error"); ("message", FStr "Busy")]])].

Definition demo_parse (s : string) : option flat := assoc demo_texts s.

#[local] Instance demo_json : Json := flat_json_with demo_parse.

#[local] Instance demo_json_laws : JsonLaws.
Proof.
  apply flat_json_with_laws. intros s x. unfold demo_parse, demo_texts. cbn [assoc].
  repeat (match goal with |- context [String.eqb s ?t] => destruct (String.eqb_spec s t) as [->|] end;
          [intros [= <-]; vm_compute; lia|]). done.
Qed.

Definition no_text (_ : string) : string := "".

Definition demo_frame (k : nat) (event : option string) : Frame := mkFrame event (default "" (fst <$> demo_texts !! k)).

Definition demo_frames : list Frame :=
  [demo_frame 0 (Some "content_block_start"); demo_frame 1 None; demo_frame 2 None; demo_frame 3 (Some "message_stop")].

Definition demo_events : list Indexed :=
  [(Some 0%Z, ContentBlockStart (FObj [("type", FStr "text")]));
   (Some 0%Z, ContentBlockDelta (FObj [("type", FStr "text_delta"); ("text", FStr "hello")]));
   (Some 0%Z, ContentBlockStop); (None, MessageStop)].

Definition wire (fs : list Frame) : list byte := concat (frame_bytes <$> fs).

(** Everything a client yields. *)
Definition received (net : list Net) : list (result Indexed ApiError) := collect (poll_next no_text) 20 (new_sse net).

Lemma events_delivered_witness :
  let chunks := [take 7 (wire demo_frames); drop 7 (wire demo_frames)] in
  received (Bytes <$> chunks) = Ok <$> demo_events /\
  (ingest "m" (item_of <$> received (Bytes <$> chunks)) (fresh_ingest EMPTY_USAGE new_cost_tracker)).1 =
    Continue [Text "hello"] None.
Proof.
  intros chunks.
  pose proof (events_delivered no_text "m" EMPTY_USAGE new_cost_tracker chunks demo_frames demo_events 20) as H.
  destruct H as [Hi Hb].
  - repeat (apply Forall2_cons; split; [split_and!; [split; reflexivity|discriminate|reflexivity]|]). by apply Forall2_nil.
  - vm_compute. reflexivity.
  - vm_compute. reflexivity.
  - vm_compute. lia.
  - split; [exact Hi|]. apply (Hb [Text "hello"]
      [start_event [("type", json_string "text")] :: (delta_event "text_delta" "text" <$> ["hello"]) ++ [Event ContentBlockStop]]).
    + apply Forall2_cons; split; [|by apply Forall2_nil]. exact (streamed_text ["hello"] ltac:(discriminate)).
    + reflexivity.
Defined.

Definition label (x : result Indexed ApiError) : string :=
  match x with
  | Ok (_, ContentBlockStart _) => "start"
  | Ok (_, ContentBlockDelta _) => "delta"
  | Ok (_, ContentBlockStop) => "stop"
  | Ok (_, MessageStop) => "end"
  | Ok _ => "other"
  | Err e => api_error_to_string e
  end.

(** An error of the provider becomes a refused request. *)
Example overloaded_is_bad_request :
  label <$> received [Bytes (wire [demo_frame 4 (Some "error")])] = ["Bad request (400): unknown: Overloaded"].
Proof. vm_compute. reflexivity. Qed.

(** In the positional form it arrives. *)
Definition busy_net : list Net := [Bytes (wire [demo_frame 5 None])].

Definition arrived_error (x : result Indexed ApiError) : option (string * string) :=
  match x with Ok (_, ErrorEvent ty m) => Some (ty, m) | _ => None end.

Lemma error_events_positional_witness :
  omap arrived_error (received busy_net) = [("overloaded_error", "Busy")] /\
  exists block, part_of block (received_text busy_net []).
Proof.
  assert (Hr : omap arrived_error (received busy_net) = [("overloaded_error", "Busy")]) by (vm_compute; reflexivity).
  split; [exact Hr|].
  assert (Hin : ("overloaded_error", "Busy") ∈ omap arrived_error (received busy_net)) by (rewrite Hr; apply list_elem_of_here).
  apply list_elem_of_omap in Hin as ([[i []]|e] & Hx & He); try discriminate He.
  injection He as -> ->. unfold received in Hx.
  pose proof (error_events_positional no_text busy_net 20 i "overloaded_error" "Busy" Hx) as (block & _ & _ & Hb & _). by exists block.
Defined.

(** A block without data, a comment that keeps the connection alive, hides the
    frames behind it in the same chunk until the next chunk, and loses them when
    there is none. *)
Example comment_hides_answer :
  label <$> received [Bytes (bytes_of ": ping" ++ [LF; LF] ++ wire demo_frames)] = [] /\
  label <$> received [Bytes (bytes_of ": ping" ++ [LF; LF]); Bytes (wire demo_frames)] = ["start"; "delta"; "stop"; "end"].
Proof. vm_compute. split; reflexivity. Qed.

(** After an ill-formed byte the rest of the chunk waits for the next one, and
    is lost with the last. *)
Example ill_formed_byte_delays :
  label <$> received [Bytes (Ascii.ascii_of_nat 255 :: wire demo_frames)] = [] /\
  label <$> received [Bytes (Ascii.ascii_of_nat 255 :: wire demo_frames); Bytes []] = ["start"; "delta"; "stop"; "end"].
Proof. vm_compute. split; reflexivity. Qed.

(** Lines that end with CR-LF are never cut into blocks. *)
Example crlf_never_cut :
  label <$> received [Bytes (bytes_of ("data: " +:+ frame_data (demo_frame 3 None)) ++ [CR; LF; CR; LF])] = [].
Proof. vm_compute. reflexivity. Qed.

Example urls :
  (fun b => messages_url (new_anthropic (mkClient "k" b None None))) <$>
    [None; Some "https://x/v1"; Some "https://x/v1/messages"; Some "https://x"] =
  ["https://api.anthropic.com/v1/messages"; "https://x/v1/messages"; "https://x/v1/messages"; "https://x/v1/messages"].
Proof. vm_compute. reflexivity. Qed.
End Demo.
