(* ===== verification/OpenAi.v ===== *)
(** * OpenAi: the client of OpenAI-compatible providers ([api/openai_client.rs])

    The translation of a request into a chat completion request, and of the
    chunks of the answer back into the events that [Stream] ingests. *)

From stdpp Require Import base gmap strings list.
From Stdlib Require Import ZArith Lia.
From S2P Require Import Prelude Text Sse Json Paths Permissions ToolHealth ToolExec Messages Stream Compact Query Request ApiClient.

#[local] Open Scope string_scope.

(** The URL of [create_message_stream]. *)
Definition completions_url (base : string) : string :=
  if str_contains base "/chat/completions" then base
  else if (ends_with base "/v1" || ends_with base "/v4")%bool then base +:+ "/chat/completions"
  else base +:+ "/v1/chat/completions".

Section Convert.
Context `{J : Json}.

(** ** The request *)

Definition role_text (role text : string) : Value := role_content role (json_string text).
Definition block_type (b : Value) : string := default "" (str_field b "type").
Definition json_text (v : Value) : string := default "" (to_json_string v).

Definition convert_system_message (blocks : list Value) : list Value :=
  let text := String.concat gap (omap (fun b => str_field b "text") blocks) in
  if is_empty text then [] else [role_text "system" text].

Definition tool_message (b : Value) : Value :=
  let output := default json_null (json_get b "content") in
  json_object [("role", json_string "tool"); ("tool_call_id", json_string (default "" (str_field b "tool_use_id")));
               ("content", json_string match as_str output with Some s => s | None => json_text output end)].

Definition text_part (t : string) : Value := json_object [("type", json_string "text"); ("text", json_string t)].
Definition url_part (url : string) : Value :=
  json_object [("type", json_string "image_url"); ("image_url", json_object [("url", json_string url)])].

(** The part a block adds to the user message that is being collected. *)
Definition user_part (b : Value) : option Value :=
  let ty := block_type b in
  if String.eqb ty "text" then Some (text_part (default "" (str_field b "text")))
  else if String.eqb ty "image" then
    s ← json_get b "source";
    Some (url_part ("data:" +:+ default "image/png" (str_field s "media_type") +:+ ";base64," +:+ default "" (str_field s "data")))
  else if String.eqb ty "document" then
    s ← json_get b "source";
    let media := default "application/octet-stream" (str_field s "media_type") in
    Some (if String.eqb media "application/pdf"
          then url_part ("data:" +:+ media +:+ ";base64," +:+ default "" (str_field s "data"))
          else text_part ("[Attached document: " +:+ media +:+ "]"))
  else None.

(** The parts collected before a tool result, and at the end. *)
Definition flush_parts (parts : list Value) : list Value :=
  match parts with [] => [] | _ => [role_content "user" (json_array parts)] end.

Definition last_parts (parts : list Value) : list Value :=
  match parts with
  | [] => []
  | [p] => if String.eqb (block_type p) "text" then [role_content "user" (default json_null (json_get p "text"))]
           else flush_parts parts
  | _ => flush_parts parts
  end.

Fixpoint convert_blocks (parts : list Value) (arr : list Value) : list Value :=
  match arr with
  | [] => last_parts parts
  | b :: rest =>
      if String.eqb (block_type b) "tool_result"
      then (flush_parts parts ++ tool_message b :: convert_blocks [] rest)%list
      else convert_blocks (parts ++ match user_part b with Some p => [p] | None => [] end)%list rest
  end.

Definition convert_user_message (content : Value) : list Value :=
  match as_array content with
  | Some [] => [role_text "user" ""]
  | Some arr => convert_blocks [] arr
  | None => [role_content "user" content]
  end.

Definition tool_call (b : Value) : Value :=
  json_object [("id", json_string (default "" (str_field b "id"))); ("type", json_string "function");
               ("function", json_object
                  [("name", json_string (default "" (str_field b "name")));
                   ("arguments", json_string (json_text (default (json_object []) (json_get b "input"))))])].

Definition of_type (ty : string) (arr : list Value) : list Value := retain (fun b => String.eqb (block_type b) ty) arr.

Definition convert_assistant_message (content : Value) : list Value :=
  match as_array content with
  | Some arr =>
      let text := String.concat "" (omap (fun b => str_field b "text") (of_type "text" arr)) in
      let calls := tool_call <$> of_type "tool_use" arr in
      let reasoning := String.concat "" (omap (fun b => str_field b "thinking") (of_type "thinking" arr)) in
      [json_object
         ([("role", json_string "assistant")] ++
          (if (negb (is_empty text) || match calls with [] => true | _ => false end)%bool
           then [("content", json_string text)] else []) ++
          match calls with [] => [] | _ => [("tool_calls", json_array calls)] end ++
          [("reasoning_content", json_string reasoning)])%list]
  | None => [role_content "assistant" content]
  end.

(** A system message within the conversation becomes the user's. *)
Definition convert_other_message (role : string) (content : Value) : Value :=
  if String.eqb role "system" then
    role_text "user" ("[System context]" +:+ string_of [LF] +:+ match as_str content with Some s => s | None => json_text content end)
  else role_content role content.

Definition convert_message (v : Value) : list Value :=
  let role := default "user" (str_field v "role") in
  let content := default json_null (json_get v "content") in
  if String.eqb role "user" then convert_user_message content
  else if String.eqb role "assistant" then convert_assistant_message content
  else [convert_other_message role content].

Definition convert_tool (t : Value) : Value :=
  json_object [("type", json_string "function");
               ("function", json_object
                  [("name", json_string (default "unknown" (str_field t "name")));
                   ("description", json_string (default "" (str_field t "description")));
                   ("parameters", default (json_object [("type", json_string "object")]) (json_get t "input_schema"))])].

(** The messages of [convert_request], and its body. *)
Definition convert_messages (r : CreateMessageRequest) : list Value :=
  (match request_system r with Some s => convert_system_message s | None => [] end ++ (request_messages r ≫= convert_message))%list.

Definition convert_request (r : CreateMessageRequest) : Value :=
  json_object
    ([("model", json_string (request_model r)); ("messages", json_array (convert_messages r));
      ("max_tokens", json_int (request_max_tokens r)); ("stream", json_bool true);
      ("stream_options", json_object [("include_usage", json_bool true)])] ++
     match convert_tool <$> default [] (request_tools r) with [] => [] | ts => [("tools", json_array ts)] end)%list.
End Convert.

(** ** The answer *)

Record ToolCallState := mkCall {
  call_index : Z;
  call_id : string;
  call_name : string;
  call_arguments : string;
  started : bool
}.

(** What the translation of one chunk leaves for the next. *)
Record Translator := mkTranslator {
  sent_message_start : bool;
  content_index : Z;
  tool_call_states : list ToolCallState;
  finished : bool;
  in_thinking : bool;
  text_started : bool;
  text_block_index : Z
}.

Definition new_translator : Translator := mkTranslator false 0 [] false false false 0.

Definition set_sent (t : Translator) : Translator :=
  mkTranslator true (content_index t) (tool_call_states t) (finished t) (in_thinking t) (text_started t) (text_block_index t).
Definition set_index (i : Z) (t : Translator) : Translator :=
  mkTranslator (sent_message_start t) i (tool_call_states t) (finished t) (in_thinking t) (text_started t) (text_block_index t).
Definition set_calls (l : list ToolCallState) (t : Translator) : Translator :=
  mkTranslator (sent_message_start t) (content_index t) l (finished t) (in_thinking t) (text_started t) (text_block_index t).
Definition set_finished (t : Translator) : Translator :=
  mkTranslator (sent_message_start t) (content_index t) (tool_call_states t) true (in_thinking t) (text_started t) (text_block_index t).
Definition set_thinking (b : bool) (t : Translator) : Translator :=
  mkTranslator (sent_message_start t) (content_index t) (tool_call_states t) (finished t) b (text_started t) (text_block_index t).
Definition set_text_started (b : bool) (t : Translator) : Translator :=
  mkTranslator (sent_message_start t) (content_index t) (tool_call_states t) (finished t) (in_thinking t) b (text_block_index t).
Definition set_text_index (i : Z) (t : Translator) : Translator :=
  mkTranslator (sent_message_start t) (content_index t) (tool_call_states t) (finished t) (in_thinking t) (text_started t) i.

Section Translate.
Context `{J : Json} (json_error : string -> string).

Abbreviation Item := (result Indexed ApiError).

Definition stop_of (i : Z) : Item := Ok (Some i, ContentBlockStop).
Definition start_of (i : Z) (fields : list (string * Value)) : Item := Ok (Some i, ContentBlockStart (json_object fields)).
Definition delta_of (i : Z) (kind key text : string) : Item :=
  Ok (Some i, ContentBlockDelta (json_object [("type", json_string kind); (key, json_string text)])).

(** [value[key]]: null when it is missing. *)
Definition field (v : Value) (key : string) : Value := default json_null (json_get v key).

Definition handle_done (t : Translator) : list Item * Translator :=
  ((stop_of ∘ call_index <$> retain started (tool_call_states t)) ++ [Ok (None, MessageStop)], set_finished t)%list.

Definition handle_message_start (chunk : Value) (t : Translator) : list Item * Translator :=
  let usage := default (json_object []) (json_get chunk "usage") in
  ([Ok (None, MessageStart
      (json_object [("id", field chunk "id"); ("model", field chunk "model");
                    ("usage", json_object [("input_tokens", default (json_int 0) (json_get usage "prompt_tokens"));
                                           ("output_tokens", json_int 0)])]))], set_sent t).

Definition handle_text_delta (delta : Value) (t : Translator) : list Item * Translator :=
  match str_field delta "content" with
  | None => ([], t)
  | Some text =>
      if is_empty text then ([], t)
      else
        let '(es1, t) := if in_thinking t then ([stop_of 0], set_index 1 (set_thinking false t)) else ([], t) in
        let '(es2, t) :=
          if (negb (text_started t) && match tool_call_states t with [] => true | _ => false end)%bool
          then ([start_of (content_index t) [("type", json_string "text"); ("text", json_string "")]],
                set_index (add32 (content_index t) 1) (set_text_index (content_index t) (set_text_started true t)))
          else ([], t) in
        (es1 ++ es2 ++ [delta_of (text_block_index t) "text_delta" "text" text], t)%list
  end.

Definition handle_reasoning_delta (delta : Value) (t : Translator) : list Item * Translator :=
  match str_field delta "reasoning_content" with
  | None => ([], t)
  | Some text =>
      if is_empty text then ([], t)
      else
        ((if in_thinking t then [] else [start_of 0 [("type", json_string "thinking"); ("thinking", json_string "")]]) ++
         [delta_of 0 "thinking_delta" "thinking" text], set_thinking true t)%list
  end.

(** States for the calls up to an index. *)
Definition ensure_calls (k : nat) (t : Translator) : Translator :=
  let l := tool_call_states t in
  set_calls (l ++ ((fun n => mkCall (add32 (content_index t) (Z.of_nat n)) "" "" "" false) <$> seq (length l) (S k - length l)))%list t.

(** The events that close what is open before call [k] starts. *)
Definition close_before (k : nat) (t : Translator) : list Item * Translator :=
  let '(es1, t) := if in_thinking t then ([stop_of 0], set_thinking false t) else ([], t) in
  let '(es2, t) :=
    if (text_started t && Nat.eqb k 0)%bool then ([stop_of (text_block_index t)], set_text_started false t)
    else if (Z.eqb (content_index t) 1 && Nat.eqb k 0)%bool then ([stop_of 0], t)
    else ([], t) in
  (es1 ++ es2, t)%list.

Definition non_empty_or (new old : string) : string := if is_empty new then old else new.

(** One tool-call delta. *)
Definition handle_tool_call (tc : Value) (t : Translator) : list Item * Translator :=
  let k := Z.to_nat (default 0%Z (json_get tc "index" ≫= as_u64)) in
  let func := field tc "function" in
  let args := default "" (str_field func "arguments") in
  let t := ensure_calls k t in
  match tool_call_states t !! k with
  | None => ([], t)
  | Some st =>
      let id := non_empty_or (default "" (str_field tc "id")) (call_id st) in
      let name := non_empty_or (default "" (str_field func "name")) (call_name st) in
      let '(es, t) := if started st then ([], t) else close_before k t in
      let start := if started st then [] else
        [start_of (call_index st) [("type", json_string "tool_use"); ("id", json_string id); ("name", json_string name);
                                   ("input", json_object [])]] in
      (es ++ start ++ (if is_empty args then [] else [delta_of (call_index st) "input_json_delta" "partial_json" args]),
       set_calls (<[k := mkCall (call_index st) id name (call_arguments st +:+ args) true]> (tool_call_states t)) t)%list
  end.

(** Running the handlers one after the other, collecting their events. *)
Fixpoint each {A} (f : A -> Translator -> list Item * Translator) (l : list A) (t : Translator) : list Item * Translator :=
  match l with
  | [] => ([], t)
  | x :: l => let '(es, t) := f x t in let '(es', t) := each f l t in (es ++ es', t)%list
  end.

Definition handle_tool_call_deltas (delta : Value) (t : Translator) : list Item * Translator :=
  match json_get delta "tool_calls" ≫= as_array with Some calls => each handle_tool_call calls t | None => ([], t) end.

Definition stop_reason_of (reason : string) : string :=
  if String.eqb reason "stop" then "end_turn"
  else if String.eqb reason "tool_calls" then "tool_use"
  else if String.eqb reason "length" then "max_tokens"
  else if String.eqb reason "content_filter" then "end_turn"
  else reason.

Definition handle_finish_reason (reason : option string) (chunk : Value) (t : Translator) : list Item * Translator :=
  match reason with
  | None => ([], t)
  | Some reason =>
      let '(es1, t) := if in_thinking t then ([stop_of 0], set_thinking false t) else ([], t) in
      let es2 := if text_started t then [stop_of (text_block_index t)]
                 else if (Z.eqb (content_index t) 1 && match tool_call_states t with [] => true | _ => false end)%bool
                      then [stop_of 0] else [] in
      let usage := default (json_object []) (json_get chunk "usage") in
      (es1 ++ es2 ++
       [Ok (None, MessageDelta (json_object [("stop_reason", json_string (stop_reason_of reason))])
              (json_object [("input_tokens", default (json_int 0) (json_get usage "prompt_tokens"));
                            ("output_tokens", default (json_int 0) (json_get usage "completion_tokens"))]))], t)%list
  end.

Definition handle_choice (chunk choice : Value) (t : Translator) : list Item * Translator :=
  let delta := field choice "delta" in
  each (fun f t => f t)
    [handle_text_delta delta; handle_reasoning_delta delta; handle_tool_call_deltas delta;
     handle_finish_reason (str_field choice "finish_reason") chunk] t.

(** [translate_chunk]. *)
Definition translate_chunk (data : string) (t : Translator) : list Item * Translator :=
  if String.eqb data "[DONE]" then handle_done t
  else match json_parse data with
       | None => ([Err (ParseError ("Invalid JSON: " +:+ json_error data))], t)
       | Some chunk =>
           let '(es, t) := if sent_message_start t then ([], t) else handle_message_start chunk t in
           let '(es', t) := each (handle_choice chunk) (default [] (json_get chunk "choices" ≫= as_array)) t in
           (es ++ es', t)%list
       end.

(** ** The stream *)

Record OpenAiSseStream := mkOpenAi {
  openai_inner : list Net; openai_buffer : list byte; pending_events : list Item; translator : Translator
}.

Definition new_openai (net : list Net) : OpenAiSseStream := mkOpenAi net [] [] new_translator.

Definition openai_data (line : list byte) : option string :=
  let line := trim (string_of line) in
  if (is_empty line || starts_with line ":")%bool then None
  else rest ← strip (bytes_of "data: ") (bytes_of line);
       let data := trim (string_of rest) in if is_empty data then None else Some data.

(** The lines of a block, up to the first that gives events: the rest is not
    looked at. *)
Fixpoint scan_lines (l : list (list byte)) (t : Translator) : list Item * Translator :=
  match l with
  | [] => ([], t)
  | line :: l =>
      match openai_data line with
      | None => scan_lines l t
      | Some data => match translate_chunk data t with ([], t) => scan_lines l t | r => r end
      end
  end.

(** [parse_next_sse] without pending events: each block takes two bytes of the
    buffer at least. *)
Fixpoint parse_blocks (fuel : nat) (buf : list byte) (t : Translator) : list Item * list byte * Translator :=
  match fuel, find_blank buf with
  | S fuel, Some n =>
      match scan_lines (lines (take n buf)) t with
      | ([], t) => parse_blocks fuel (drop (n + 2) buf) t
      | (es, t) => (es, drop (n + 2) buf, t)
      end
  | _, _ => ([], buf, t)
  end.

(** [poll_next]. *)
Fixpoint poll_net (net : list Net) (buf : list byte) (t : Translator) : option Item * OpenAiSseStream :=
  match parse_blocks (length buf) buf t with
  | (e :: es, buf, t) => (Some e, mkOpenAi net buf es t)
  | ([], buf, t) =>
      match net with
      | [] => (Some (Ok (None, MessageStop)), mkOpenAi [] buf [] (set_finished t))
      | Failure e causes :: net => (Some (Err (network_error e causes)), mkOpenAi net buf [] t)
      | Bytes c :: net => poll_net net (buf ++ from_utf8_lossy c)%list t
      end
  end.

Definition poll_openai (s : OpenAiSseStream) : option Item * OpenAiSseStream :=
  if finished (translator s) then (None, s)
  else match pending_events s with
       | e :: es => (Some e, mkOpenAi (openai_inner s) (openai_buffer s) es (translator s))
       | [] => poll_net (openai_inner s) (openai_buffer s) (translator s)
       end.
End Translate.

(** ** The unified client: [api/unified.rs] *)

Inductive UnifiedStream `{J : Json} := Anthropic (s : SseStream) | OpenAiStream (s : OpenAiSseStream).

Definition poll_unified `{J : Json} (event_error json_error : string -> string) (s : UnifiedStream) :
    option (result Indexed ApiError) * UnifiedStream :=
  match s with
  | Anthropic s => let '(r, s) := poll_next event_error s in (r, Anthropic s)
  | OpenAiStream s => let '(r, s) := poll_openai json_error s in (r, OpenAiStream s)
  end.
