(* ===== verification/OpenAiProofs.v ===== *)
(** * OpenAiProofs: what the OpenAI-compatible client keeps

    The answer as the ingestion sees it, and the pairing of tool calls and
    results in the converted request. *)

From stdpp Require Import base gmap strings list.
From Stdlib Require Import ZArith Lia.
From S2P Require Import RuleGate Prelude Text Float64 Sse Json Paths Permissions ToolHealth ToolExec Messages Stream Compact Query QueryProofs Tokens SessionStore Request Engine ApiClient OpenAi.

#[local] Open Scope string_scope.
#[local] Open Scope list_scope.

(** ** What the ingestion is reading *)

Section Reading.
Context `{JL : JsonLaws}.
Context (model : string).

(** The block that is open, with what it holds so far. *)
Inductive Open := Closed | InThinking (s : string) | InText (s : string) | InTool (id name args : string).

Definition thinking_block (s : string) : list ContentBlock := if is_empty s then [] else [Thinking s].
Definition text_content (s : string) : list ContentBlock := if is_empty s then [] else [Text s].
Definition call_block (id name args : string) : ContentBlock := ToolUse id name (default (json_object []) (json_parse args)).

Definition closing (o : Open) : list ContentBlock :=
  match o with
  | Closed => []
  | InThinking s => thinking_block s
  | InText s => text_content s
  | InTool id name args => [call_block id name args]
  end.

Definition reading (d : list ContentBlock) (o : Open) (r : option string) (s : IngestState) : Prop :=
  done_blocks s = d /\ seen_stop_reason s = r /\
  match o with
  | Closed => current_block_type s = ""
  | InThinking x => current_block_type s = "thinking" /\ current_thinking_text s = x
  | InText x => current_block_type s = "text" /\ current_text s = x
  | InTool id name args => current_block_type s = "tool_use" /\ current_tool_id s = id /\ current_tool_name s = name /\
                           current_tool_input_json s = args
  end.

Lemma reads_stop d o r s : reading d o r s -> reading (d ++ closing o) Closed r (on_block_stop s).
Proof.
  unfold reading, on_block_stop. destruct o as [|x|x|i n a]; simpl.
  - intros (<- & <- & ->). by rewrite app_nil_r.
  - intros (<- & <- & -> & <-). simpl. unfold thinking_block. destruct (is_empty (current_thinking_text s)); by rewrite ?app_nil_r.
  - intros (<- & <- & -> & <-). simpl. unfold text_content. destruct (is_empty (current_text s)); by rewrite ?app_nil_r.
  - intros (<- & <- & -> & <- & <- & <-). done.
Qed.

Lemma reads_start_text d o r s : reading d o r s ->
  reading d (InText "") r (on_block_start (json_object [("type", json_string "text"); ("text", json_string "")]) s).
Proof.
  intros (Hd & Hr & _). unfold on_block_start.
  destruct (type_field [("type", json_string "text"); ("text", json_string "")] "input" "text") as [-> _];
    [by apply (bool_decide_unpack _)|done|]. done.
Qed.

Lemma reads_start_thinking d o r s : reading d o r s ->
  reading d (InThinking "") r (on_block_start (json_object [("type", json_string "thinking"); ("thinking", json_string "")]) s).
Proof.
  intros (Hd & Hr & _). unfold on_block_start.
  destruct (type_field [("type", json_string "thinking"); ("thinking", json_string "")] "input" "thinking") as [-> _];
    [by apply (bool_decide_unpack _)|done|]. done.
Qed.

Lemma reads_start_tool d o r s id name : reading d o r s ->
  reading d (InTool id name "") r
    (on_block_start (json_object [("type", json_string "tool_use"); ("id", json_string id); ("name", json_string name);
                                  ("input", json_object [])]) s).
Proof.
  intros (Hd & Hr & _). unfold on_block_start.
  set (fs := [("type", json_string "tool_use"); ("id", json_string id); ("name", json_string name); ("input", json_object [])]).
  assert (Hnd : NoDup fs.*1) by (by apply (bool_decide_unpack (NoDup ["type"; "id"; "name"; "input"]))).
  unfold text_field. rewrite (field_object fs "type" "tool_use"), (field_object fs "id" id), (field_object fs "name" name) by done.
  rewrite (json_get_object fs "input") by done. cbn [assoc fs String.eqb Ascii.eqb Bool.eqb]. by rewrite as_object_nil.
Qed.

Lemma reads_more_thinking d y r s x : reading d (InThinking y) r s ->
  reading d (InThinking (y +:+ x)) r
    (on_block_delta (json_object [("type", json_string "thinking_delta"); ("thinking", json_string x)]) s).
Proof.
  intros (Hd & Hr & Hk & <-). unfold on_block_delta, text_field.
  destruct (delta_fields "thinking_delta" "thinking" x) as [-> ->]; done.
Qed.

Lemma reads_more_text d y r s x : reading d (InText y) r s ->
  reading d (InText (y +:+ x)) r (on_block_delta (json_object [("type", json_string "text_delta"); ("text", json_string x)]) s).
Proof.
  intros (Hd & Hr & Hk & <-). unfold on_block_delta, text_field.
  destruct (delta_fields "text_delta" "text" x) as [-> ->]; done.
Qed.

Lemma reads_more_args d i n a r s x : reading d (InTool i n a) r s ->
  reading d (InTool i n (a +:+ x)) r
    (on_block_delta (json_object [("type", json_string "input_json_delta"); ("partial_json", json_string x)]) s).
Proof.
  intros (Hd & Hr & Hk & Hi & Hn & <-). unfold on_block_delta, text_field.
  destruct (delta_fields "input_json_delta" "partial_json" x) as [-> ->]; done.
Qed.

Lemma reads_usage d o r s v : reading d o r s -> reading d o r (on_usage model v s).
Proof. done. Qed.

(** ** Items that do not end the ingestion *)

Abbreviation Item := (result Indexed ApiError).

Definition goes_on (x : Item) : bool :=
  match x with Ok (_, MessageStop) | Ok (_, ErrorEvent _ _) | Err _ => false | Ok _ => true end.

Definition absorb (es : list Item) (s : IngestState) : IngestState :=
  foldl (fun s x => match x with Ok (_, e) => on_event model e s | Err _ => s end) s es.

Lemma absorb_app es es' s : absorb (es ++ es') s = absorb es' (absorb es s).
Proof. apply foldl_app. Qed.

Lemma ingest_absorb es rest s :
  forallb goes_on es = true -> ingest model ((item_of <$> es) ++ rest) s = ingest model rest (absorb es s).
Proof.
  revert s. induction es as [|x es IH]; intros s; [done|]. intros [Hx Hes]%andb_true_iff. cbn [fmap list_fmap app item_of].
  destruct x as [[i e]|e]; [|done]. destruct e; try done; cbn [item_of ingest]; by rewrite IH.
Qed.
End Reading.

(** ** The pieces of an answer *)

Section Answer.
Context `{JL : JsonLaws}.
Context (model : string).

(** What a chunk of the provider carries: a piece of the reasoning or of the
    text, the start of the [k]-th call with the first piece of its arguments, a
    further piece, or the reason to finish. *)
Inductive Piece :=
| Reason (s : string)
| Say (s : string)
| Call (k : nat) (id name args : string)
| Args (k : nat) (s : string)
| Finish (r : string).

Definition call_delta (tc : Value) (k : nat) (id name args : string) : Prop :=
  json_get tc "index" ≫= as_u64 = Some (Z.of_nat k) /\ default "" (str_field tc "id") = id /\
  default "" (str_field (field tc "function") "name") = name /\ default "" (str_field (field tc "function") "arguments") = args.

(** The fields a chunk has; what is absent may be null or empty as well. *)
Definition holds_piece (v : Value) (p : Piece) : Prop :=
  exists choice, json_get v "choices" ≫= as_array = Some [choice] /\
    let delta := field choice "delta" in
    default "" (str_field delta "content") = match p with Say s => s | _ => "" end /\
    default "" (str_field delta "reasoning_content") = match p with Reason s => s | _ => "" end /\
    str_field choice "finish_reason" = match p with Finish r => Some r | _ => None end /\
    match p with
    | Call k id name args => exists tc, json_get delta "tool_calls" ≫= as_array = Some [tc] /\ call_delta tc k id name args
    | Args k s => exists tc, json_get delta "tool_calls" ≫= as_array = Some [tc] /\ call_delta tc k "" "" s
    | _ => default [] (json_get delta "tool_calls" ≫= as_array) = []
    end.

Definition translate_value (v : Value) (t : Translator) : list (result Indexed ApiError) * Translator :=
  each (handle_choice v) (default [] (json_get v "choices" ≫= as_array)) t.

(** Each handler on a chunk of another kind. *)
Lemma no_text_delta delta t : default "" (str_field delta "content") = "" -> handle_text_delta delta t = ([], t).
Proof. unfold handle_text_delta. destruct (str_field delta "content") as [x|]; [|done]. simpl. by intros ->. Qed.

Lemma no_reasoning delta t : default "" (str_field delta "reasoning_content") = "" -> handle_reasoning_delta delta t = ([], t).
Proof. unfold handle_reasoning_delta. destruct (str_field delta "reasoning_content") as [x|]; [|done]. simpl. by intros ->. Qed.

Lemma no_calls delta t : default [] (json_get delta "tool_calls" ≫= as_array) = [] -> handle_tool_call_deltas delta t = ([], t).
Proof. unfold handle_tool_call_deltas. destruct (json_get delta "tool_calls" ≫= as_array) as [l|]; [|done]. simpl. by intros ->. Qed.

Lemma each_silent {A} (f : A -> Translator -> list (result Indexed ApiError) * Translator) x l t :
  (forall t, f x t = ([], t)) -> each f (x :: l) t = each f l t.
Proof. intros Hx. cbn. rewrite Hx. by destruct (each f l t). Qed.

Lemma each_first {A} (f : A -> Translator -> list (result Indexed ApiError) * Translator) x l t :
  Forall (fun y => forall t, f y t = ([], t)) l -> each f (x :: l) t = f x t.
Proof.
  intros Hl. cbn. destruct (f x t) as [es t1]. assert (He : each f l t1 = ([], t1)).
  { induction Hl as [|y l Hy _ IH]; [done|]. by rewrite each_silent. }
  rewrite He. by rewrite app_nil_r.
Qed.

Lemma each_app {A} (f : A -> Translator -> list (result Indexed ApiError) * Translator) l l' t :
  each f (l ++ l') t = (let '(es, t1) := each f l t in let '(es', t2) := each f l' t1 in (es ++ es', t2)).
Proof.
  revert t. induction l as [|x l IH]; intros t; cbn; [by destruct (each f l' t)|].
  destruct (f x t) as [e1 t1]. rewrite IH. destruct (each f l t1) as [e2 t2]. destruct (each f l' t2) as [e3 t3].
  by rewrite (assoc_L (++)).
Qed.

(** What a chunk is translated to, by its piece. *)
Lemma translate_holds v p t :
  holds_piece v p ->
  exists delta tc, translate_value v t =
    match p with
    | Say s => handle_text_delta delta t
    | Reason s => handle_reasoning_delta delta t
    | Call _ _ _ _ | Args _ _ => handle_tool_call tc t
    | Finish r => handle_finish_reason (Some r) v t
    end /\
    match p with
    | Say s => default "" (str_field delta "content") = s
    | Reason s => default "" (str_field delta "reasoning_content") = s
    | Call k id name args => call_delta tc k id name args
    | Args k s => call_delta tc k "" "" s
    | Finish _ => True
    end.
Proof.
  intros (choice & Hc & Hs & Hr & Hf & Hp). unfold translate_value. rewrite Hc. change (default [] (Some [choice])) with [choice].
  rewrite each_first by constructor. unfold handle_choice. set (delta := field choice "delta") in *. rewrite Hf.
  assert (Hcall : forall tc, json_get delta "tool_calls" ≫= as_array = Some [tc] ->
                    handle_tool_call_deltas delta t = handle_tool_call tc t).
  { intros tc Htc. unfold handle_tool_call_deltas. rewrite Htc. by rewrite each_first by constructor. }
  exists delta. destruct p as [x|x|k i n a|k x|r].
  - exists json_null. split; [|done]. rewrite each_silent by (intros; by apply no_text_delta).
    apply (each_first (fun f t => f t)). repeat constructor; intros; by apply no_calls.
  - exists json_null. split; [|done]. apply (each_first (fun f t => f t)).
    repeat constructor; intros; [by apply no_reasoning|by apply no_calls].
  - destruct Hp as (tc & Htc & Hd). exists tc. split; [|done]. rewrite each_silent by (intros; by apply no_text_delta).
    rewrite each_silent by (intros; by apply no_reasoning). rewrite each_first by (repeat constructor). by apply Hcall.
  - destruct Hp as (tc & Htc & Hd). exists tc. split; [|done]. rewrite each_silent by (intros; by apply no_text_delta).
    rewrite each_silent by (intros; by apply no_reasoning). rewrite each_first by (repeat constructor). by apply Hcall.
  - exists json_null. split; [|done]. rewrite each_silent by (intros; by apply no_text_delta).
    rewrite each_silent by (intros; by apply no_reasoning). rewrite each_silent by (intros; by apply no_calls).
    apply (each_first (fun f t => f t)). constructor.
Qed.

(** *** Translator and ingestion, side by side *)

Definition translating (n : nat) (o : Open) (t : Translator) : Prop :=
  finished t = false /\ sent_message_start t = true /\
  in_thinking t = match o with InThinking _ => true | _ => false end /\
  text_started t = match o with InText _ => true | _ => false end /\
  length (tool_call_states t) = n /\ Forall (fun c => started c = true) (tool_call_states t) /\
  match o with
  | Closed | InThinking _ => n = 0%nat /\ content_index t = 0%Z
  | InText _ => n = 0%nat
  | InTool _ _ _ => n <> 0%nat
  end.

Definition joint (n : nat) (d : list ContentBlock) (o : Open) (t : Translator) (s : IngestState) : Prop :=
  translating n o t /\ reading d o None s.

(** What one more chunk leads to. *)
Definition leads (n : nat) (d : list ContentBlock) (o : Open) (r : list (result Indexed ApiError) * Translator) (s : IngestState) : Prop :=
  forallb goes_on r.1 = true /\ joint n d o r.2 (absorb model r.1 s).

Definition thinking_open (x : string) : Open := if is_empty x then Closed else InThinking x.

Lemma no_states t : length (tool_call_states t) = 0%nat -> tool_call_states t = [].
Proof. apply nil_length_inv. Qed.

Lemma append_is_empty x y : is_empty (x +:+ y) = (is_empty x && is_empty y)%bool.
Proof. by destruct x. Qed.

Lemma is_empty_true x : is_empty x = true -> x = "".
Proof. by destruct x. Qed.

Lemma reason_step y x delta t s :
  joint 0 [] (thinking_open y) t s -> default "" (str_field delta "reasoning_content") = x ->
  leads 0 [] (thinking_open (y +:+ x)) (handle_reasoning_delta delta t) s.
Proof.
  intros [Ht Hs] Hx. unfold handle_reasoning_delta. destruct (str_field delta "reasoning_content") as [z|]; simpl in Hx; subst x.
  2:{ rewrite append_empty. by split. }
  destruct (is_empty z) eqn:Hz; [rewrite (is_empty_true z Hz), append_empty; by split|].
  unfold thinking_open in *. rewrite append_is_empty, Hz, andb_false_r.
  destruct (is_empty y) eqn:Hy.
  - rewrite (is_empty_true y Hy) in *. destruct Ht as (H1 & H2 & H3 & H4 & H5 & H6 & H7 & H8). rewrite H3.
    split; [done|]. split; [by split_and!|]. cbn [app absorb foldl fst]. change ("" +:+ z) with z.
    apply (reads_more_thinking [] "" None _ z). by apply (reads_start_thinking [] Closed None s).
  - destruct Ht as (H1 & H2 & H3 & H4 & H5 & H6 & H7 & H8). rewrite H3. split; [done|]. split; [by split_and!|].
    by apply (reads_more_thinking [] y None s z).
Qed.

(** The blocks and the open block after a reasoning and a text. *)
Definition so_far (x y : string) : list ContentBlock * Open :=
  if is_empty y then ([], thinking_open x) else (thinking_block x, InText y).

Lemma text_step x y z delta t s :
  joint 0 (so_far x y).1 (so_far x y).2 t s -> default "" (str_field delta "content") = z ->
  leads 0 (so_far x (y +:+ z)).1 (so_far x (y +:+ z)).2 (handle_text_delta delta t) s.
Proof.
  intros [Ht Hs] Hz. unfold handle_text_delta. destruct (str_field delta "content") as [w|]; simpl in Hz; subst z.
  2:{ rewrite append_empty. by split. }
  destruct (is_empty w) eqn:Hw; [rewrite (is_empty_true w Hw), append_empty; by split|].
  unfold so_far in *. rewrite append_is_empty, Hw, andb_false_r. cbn [fst snd].
  destruct (is_empty y) eqn:Hy; cbn [fst snd] in *.
  - rewrite (is_empty_true y Hy). change ("" +:+ w) with w. unfold thinking_open, thinking_block in *.
    destruct Ht as (H1 & H2 & H3 & H4 & H5 & H6 & H7). pose proof (no_states _ H5) as Hn.
    destruct (is_empty x) eqn:Hx; rewrite H3; cbn.
    + destruct H7 as [_ H7]. rewrite H4, Hn. split; [done|]. split; [by split_and!|].
      apply (reads_more_text [] "" None _ w). by apply (reads_start_text [] Closed None s).
    + destruct H7 as [_ H7]. rewrite H4, Hn. split; [done|]. split; [by split_and!|].
      cbn. apply (reads_more_text [Thinking x] "" None _ w). apply (reads_start_text [Thinking x] Closed None).
      pose proof (reads_stop [] (InThinking x) None s Hs) as Hstop. cbn in Hstop. unfold thinking_block in Hstop. by rewrite Hx in Hstop.
  - destruct Ht as (H1 & H2 & H3 & H4 & H5 & H6 & H7). rewrite H3, H4. cbn. split; [done|]. split; [by split_and!|].
    by apply (reads_more_text _ y None s w).
Qed.

(** *** Tool calls *)

(** What the start of a call leaves of the open block: another call is lost. *)
Definition kept (d : list ContentBlock) (o : Open) : list ContentBlock :=
  match o with InTool _ _ _ => d | _ => d ++ closing o end.

Lemma ensured n t : length (tool_call_states t) = n -> exists c, tool_call_states (ensure_calls n t) = tool_call_states t ++ [c] /\ started c = false
  /\ call_id c = "" /\ call_name c = "".
Proof.
  intros Hn. unfold ensure_calls. rewrite Hn. replace (S n - n)%nat with 1%nat by lia. cbn. by eexists.
Qed.

Lemma ensured_already k t : (k < length (tool_call_states t))%nat -> ensure_calls k t = t.
Proof.
  intros Hk. unfold ensure_calls. replace (S k - length (tool_call_states t))%nat with 0%nat by lia. cbn. rewrite app_nil_r.
  by destruct t.
Qed.

Lemma call_index_nat tc k id name args : call_delta tc k id name args -> Z.to_nat (default 0%Z (json_get tc "index" ≫= as_u64)) = k.
Proof. intros (-> & _). simpl. lia. Qed.

Lemma name_kept a : non_empty_or a "" = a.
Proof. by destruct a. Qed.

(** What is closed before a call starts. *)
Lemma close_step n d o t s :
  joint n d o t s ->
  let '(es, t') := close_before n t in
  forallb goes_on es = true /\ tool_call_states t' = tool_call_states t /\ finished t' = false /\ sent_message_start t' = true /\
  in_thinking t' = false /\ text_started t' = false /\ exists o', reading (kept d o) o' None (absorb model es s).
Proof.
  intros [(H1 & H2 & H3 & H4 & H5 & H6 & H7) Hs]. unfold close_before. pose proof (reads_stop d o None s Hs) as Hstop.
  destruct o as [|x|x|i nm a]; rewrite H3; cbn in *; rewrite ?H4; cbn.
  - destruct H7 as [-> ->]. cbn. split_and!; try done. rewrite app_nil_r. by exists Closed.
  - destruct H7 as [-> ->]. cbn. split_and!; try done. by exists Closed.
  - rewrite H7. cbn. split_and!; try done. by exists Closed.
  - destruct n; [done|]. rewrite andb_false_r. cbn. split_and!; try done. by exists (InTool i nm a).
Qed.

(** The events of the arguments a chunk brings. *)
Lemma args_read d i n a s x idx :
  reading d (InTool i n a) None s ->
  let es := if is_empty x then [] else [delta_of idx "input_json_delta" "partial_json" x] in
  forallb goes_on es = true /\ reading d (InTool i n (a +:+ x)) None (absorb model es s).
Proof.
  intros Hs. destruct (is_empty x) eqn:Hx; cbn; [rewrite (is_empty_true x Hx), append_empty; by split|].
  split; [done|]. by apply reads_more_args.
Qed.

Lemma call_step n d o t s tc id name args :
  joint n d o t s -> call_delta tc n id name args ->
  leads (S n) (kept d o) (InTool id name args) (handle_tool_call tc t) s.
Proof.
  intros Hj Hc. pose proof Hj as [(_ & _ & _ & _ & H5 & H6 & _) _]. unfold handle_tool_call.
  rewrite (call_index_nat _ _ _ _ _ Hc). destruct Hc as (_ & -> & -> & ->).
  destruct (ensured n t H5) as (c & Hcalls & Hst & Hid & Hnm).
  assert (Hj' : joint n d o (ensure_calls n t) s -> True) by done. clear Hj'.
  rewrite Hcalls, (list_lookup_middle (tool_call_states t) [] c n) by done. rewrite Hst, Hid, Hnm, !name_kept.
  assert (Hclose : close_before n (ensure_calls n t) = (let '(es, t') := close_before n t in (es, set_calls (tool_call_states t ++ [c]) t'))).
  { unfold close_before, ensure_calls in *. rewrite <- Hcalls. cbn. destruct (in_thinking t); cbn; destruct (text_started t && Nat.eqb n 0)%bool; cbn; [done| |done|];
      by destruct (Z.eqb (content_index t) 1 && Nat.eqb n 0)%bool. }
  rewrite Hclose. pose proof (close_step n d o t s Hj) as Hcl. destruct (close_before n t) as [es t'].
  destruct Hcl as (Hg & Hsame & Hf & Hsent & Hth & Htx & (o' & Hr)). cbn.
  set (start := json_object [("type", json_string "tool_use"); ("id", json_string id); ("name", json_string name); ("input", json_object [])]).
  pose proof (reads_start_tool (kept d o) o' None (absorb model es s) id name Hr) as Hstart.
  destruct (args_read (kept d o) id name "" _ args (call_index c) Hstart) as [Hga Hra].
  split.
  - unfold start_of. cbn. rewrite forallb_app, Hg. cbn. exact Hga.
  - split.
    + split_and!; try done; cbn.
      * rewrite length_insert, length_app, H5. simpl. lia.
      * rewrite insert_app_r_alt, H5, Nat.sub_diag by lia. apply Forall_app. split; [done|]. by apply Forall_singleton.
    + cbn [snd fst]. rewrite absorb_app. exact Hra.
Qed.

Lemma args_step n d o t s tc i nm a x :
  o = InTool i nm a -> joint (S n) d o t s -> call_delta tc n "" "" x ->
  leads (S n) d (InTool i nm (a +:+ x)) (handle_tool_call tc t) s.
Proof.
  intros -> [(H1 & H2 & H3 & H4 & H5 & H6 & H7) Hs] Hc. unfold handle_tool_call.
  rewrite (call_index_nat _ _ _ _ _ Hc). destruct Hc as (_ & -> & -> & ->).
  rewrite ensured_already by lia. destruct (lookup_lt_is_Some_2 (tool_call_states t) n ltac:(lia)) as [c Hl]. rewrite Hl.
  rewrite (proj1 (Forall_lookup _ _) H6 n c Hl). cbn.
  destruct (args_read d i nm a s x (call_index c) Hs) as [Hg Hr]. split; [done|]. split; [|done].
  split_and!; try done; cbn; [by rewrite length_insert|]. by apply Forall_insert.
Qed.

Lemma finish_step n d o t s r v :
  joint n d o t s ->
  let '(es, t') := handle_finish_reason (Some r) v t in
  forallb goes_on es = true /\ finished t' = false /\ tool_call_states t' = tool_call_states t /\
  reading (kept d o) match o with InTool _ _ _ => o | _ => Closed end (Some (stop_reason_of r)) (absorb model es s).
Proof.
  intros [(H1 & H2 & H3 & H4 & H5 & H6 & H7) Hs]. pose proof (reads_stop d o None s Hs) as Hstop.
  assert (Hend : forall d' o' s' u, reading d' o' None s' ->
            reading d' o' (Some (stop_reason_of r))
              (on_event model (MessageDelta (json_object [("stop_reason", json_string (stop_reason_of r))]) u) s')).
  { intros d' o' s' u (Hd & Hr & Ho). cbn. rewrite field_object with (t := stop_reason_of r); [|by apply NoDup_singleton|done]. done. }
  unfold handle_finish_reason. destruct o as [|x|x|i nm a]; rewrite H3; cbn [set_thinking text_started content_index tool_call_states in_thinking];
    rewrite H4; cbn [kept closing] in *.
  - destruct H7 as [-> ->]. cbn. split_and!; try done. rewrite app_nil_r. by apply Hend.
  - destruct H7 as [-> ->]. cbn. split_and!; try done. by apply Hend.
  - cbn. split_and!; try done. by apply Hend.
  - destruct (tool_call_states t) as [|c l] eqn:Hl; [by subst n|]. rewrite andb_false_r. cbn. split_and!; try done. by apply Hend.
Qed.

(** *** Whole answers *)

(** A tool call: id, name and the pieces of its arguments. *)
Record CallPieces := mkPieces { piece_id : string; piece_name : string; first_args : string; more_args : list string }.

Definition call_args (c : CallPieces) : string := first_args c +:+ String.concat "" (more_args c).

Fixpoint call_pieces (k : nat) (cs : list CallPieces) : list Piece :=
  match cs with
  | [] => []
  | c :: cs => Call k (piece_id c) (piece_name c) (first_args c) :: (Args k <$> more_args c) ++ call_pieces (S k) cs
  end.

Definition answer_pieces (rs ts : list string) (cs : list CallPieces) (reason : string) : list Piece :=
  (Reason <$> rs) ++ (Say <$> ts) ++ call_pieces 0 cs ++ [Finish reason].

(** The translation of chunks, one after the other. *)
Definition translate_values (vs : list Value) (t : Translator) : list (result Indexed ApiError) * Translator := each translate_value vs t.

(** What a list of chunks leads to. *)
Definition leads_all (n : nat) (d : list ContentBlock) (o : Open) (vs : list Value) (t : Translator) (s : IngestState) : Prop :=
  leads n d o (translate_values vs t) s.

Lemma leads_nil n d o t s : joint n d o t s -> leads_all n d o [] t s.
Proof. by split. Qed.

Lemma leads_cons n d o n' d' o' v vs t s :
  leads n d o (translate_value v t) s ->
  (forall t s, joint n d o t s -> leads_all n' d' o' vs t s) -> leads_all n' d' o' (v :: vs) t s.
Proof.
  unfold leads_all, leads, translate_values. cbn [each]. destruct (translate_value v t) as [es t1]. cbn [fst snd].
  intros [Hg Hj] Hrest. specialize (Hrest t1 (absorb model es s) Hj). destruct (each translate_value vs t1) as [es' t2]. cbn [fst snd] in *.
  destruct Hrest as [Hg' Hj']. rewrite forallb_app, Hg, Hg', absorb_app. by split.
Qed.

Lemma leads_app n d o n' d' o' vs vs' t s :
  leads_all n d o vs t s -> (forall t s, joint n d o t s -> leads_all n' d' o' vs' t s) -> leads_all n' d' o' (vs ++ vs') t s.
Proof.
  unfold leads_all, leads, translate_values. rewrite each_app. destruct (each translate_value vs t) as [es t1]. cbn [fst snd].
  intros [Hg Hj] Hrest. specialize (Hrest t1 (absorb model es s) Hj). destruct (each translate_value vs' t1) as [es' t2]. cbn [fst snd] in *.
  destruct Hrest as [Hg' Hj']. rewrite forallb_app, Hg, Hg', absorb_app. by split.
Qed.

Lemma reasons_lead rs vs y t s :
  Forall2 holds_piece vs (Reason <$> rs) -> joint 0 [] (thinking_open y) t s ->
  leads_all 0 [] (thinking_open (y +:+ String.concat "" rs)) vs t s.
Proof.
  revert vs y t s. induction rs as [|r rs IH]; intros vs y t s.
  { intros ->%Forall2_nil_inv_r Hj. rewrite append_empty. by apply leads_nil. }
  intros (v & vs' & Hv & Hvs & ->)%Forall2_cons_inv_r Hj. rewrite concat_cons, append_assoc.
  destruct (translate_holds v (Reason r) t Hv) as (delta & tc & He & Hd).
  apply (leads_cons 0 [] (thinking_open (y +:+ r))); [rewrite He; by apply reason_step|]. intros t' s' Hj'. by apply IH.
Qed.

Lemma texts_lead x ts vs y t s :
  Forall2 holds_piece vs (Say <$> ts) -> joint 0 (so_far x y).1 (so_far x y).2 t s ->
  let r := so_far x (y +:+ String.concat "" ts) in leads_all 0 r.1 r.2 vs t s.
Proof.
  revert vs y t s. induction ts as [|w ts IH]; intros vs y t s.
  { intros ->%Forall2_nil_inv_r Hj. rewrite append_empty. by apply leads_nil. }
  intros (v & vs' & Hv & Hvs & ->)%Forall2_cons_inv_r Hj. rewrite concat_cons, append_assoc.
  destruct (translate_holds v (Say w) t Hv) as (delta & tc & He & Hd).
  eapply leads_cons; [rewrite He; by apply text_step|]. intros t' s' Hj'. by apply IH.
Qed.

Lemma args_lead k d i nm xs vs a t s :
  Forall2 holds_piece vs (Args k <$> xs) -> joint (S k) d (InTool i nm a) t s ->
  leads_all (S k) d (InTool i nm (a +:+ String.concat "" xs)) vs t s.
Proof.
  revert vs a t s. induction xs as [|x xs IH]; intros vs a t s.
  { intros ->%Forall2_nil_inv_r Hj. rewrite append_empty. by apply leads_nil. }
  intros (v & vs' & Hv & Hvs & ->)%Forall2_cons_inv_r Hj. rewrite concat_cons, append_assoc.
  destruct (translate_holds v (Args k x) t Hv) as (delta & tc & He & Hd).
  eapply leads_cons; [rewrite He; by eapply args_step|]. intros t' s' Hj'. by apply IH.
Qed.

(** The last call is open, the ones before it are gone. *)
Definition after_calls (d : list ContentBlock) (o : Open) (cs : list CallPieces) : list ContentBlock * Open :=
  match last cs with
  | Some c => (kept d o, InTool (piece_id c) (piece_name c) (call_args c))
  | None => (d, o)
  end.

Lemma calls_lead cs vs n d o t s :
  Forall2 holds_piece vs (call_pieces n cs) -> joint n d o t s ->
  let r := after_calls d o cs in leads_all (n + length cs) r.1 r.2 vs t s.
Proof.
  revert vs n d o t s. induction cs as [|c cs IH]; intros vs n d o t s.
  { intros ->%Forall2_nil_inv_r Hj. rewrite Nat.add_0_r. by apply leads_nil. }
  cbn [call_pieces]. intros (v & vs' & Hv & Hvs & ->)%Forall2_cons_inv_r Hj.
  apply Forall2_app_inv_r in Hvs as (va & vc & Ha & Hc & ->).
  destruct (translate_holds v _ t Hv) as (delta & tc & He & Hd).
  eapply leads_cons; [rewrite He; by eapply call_step|]. intros t1 s1 Hj1.
  eapply leads_app; [by eapply args_lead|]. intros t2 s2 Hj2. specialize (IH vc (S n) _ _ t2 s2 Hc Hj2).
  replace (n + length (c :: cs))%nat with (S n + length cs)%nat by (simpl; lia).
  unfold after_calls in *. destruct cs as [|c' cs]; [exact IH|]. rewrite last_cons_cons.
  destruct (last (c' :: cs)) as [e|] eqn:El; [exact IH|by apply last_None in El].
Qed.
End Answer.

(** ** The stream *)

(** Well-formed text is kept as it is. *)
Lemma lossy_valid l : (decode l).2 = [] -> from_utf8_lossy l = l.
Proof.
  unfold from_utf8_lossy. enough (Hg : forall n l, (length l <= n)%nat -> (decode l).2 = [] -> lossy_fuel n l = l) by (by apply Hg).
  clear l. induction n as [|n IH]; intros l Hn Hd; [by destruct l; [|simpl in Hn; lia]|].
  rewrite decode_unfold in Hd. cbn [lossy_fuel]. destruct l as [|b l]; [done|].
  destruct (char_len (b :: l)) as [k|] eqn:Hc; [|done]. apply char_len_bounds in Hc.
  destruct (decode (drop k (b :: l))) as [v r] eqn:He. simpl in Hd. subst r.
  rewrite IH; [apply take_drop|rewrite length_drop; simpl in *; lia|by rewrite He].
Qed.

Section Polling.
Context `{JL : JsonLaws} (json_error : string -> string).

Definition data_frames (ds : list string) : list byte := concat ((fun d => frame_bytes (mkFrame None d)) <$> ds).

Abbreviation translate_chunk := (translate_chunk json_error).
Abbreviation translate_all := (each (OpenAi.translate_chunk json_error)).

Lemma data_read d : visible d = true -> openai_data (data_bytes d) = Some d.
Proof.
  intros Hd. unfold openai_data, data_bytes. rewrite string_of_bytes, trim_visible by done.
  change ((let data := trim (string_of (bytes_of d)) in if is_empty data then None else Some data) = Some d).
  rewrite string_of_bytes. pose proof (visible_nonempty d Hd) as Hne.
  rewrite <- (trim_space d Hd) at 1. change (trim (" " +:+ d)) with (trim d). 
  assert (Ht : trim d = d) by (rewrite <- (trim_space d Hd) at 2; done). rewrite Ht. by destruct d.
Qed.

Lemma scan_frame d t : visible d = true -> scan_lines json_error (lines (data_bytes d)) t = translate_chunk d t.
Proof.
  intros Hd. rewrite data_lines by done. cbn [scan_lines]. rewrite data_read by done.
  by destruct (translate_chunk d t) as [[|e es] t'].
Qed.

Lemma parse_frames fuel ds buf rest t :
  Forall (fun d => visible d = true) ds -> (length buf <= fuel)%nat -> buf ++ rest = data_frames ds ->
  exists ds0 ds2 buf' t0,
    let '(es, buf1, t1) := parse_blocks json_error fuel buf t in
    translate_all ds0 t = ([], t0) /\ buf1 = buf' /\ buf' ++ rest = data_frames ds2 /\
    ((es = [] /\ ds = ds0 ++ ds2 /\ t1 = t0 /\ find_blank buf' = None) \/
     (es <> [] /\ exists d, ds = ds0 ++ d :: ds2 /\ translate_chunk d t0 = (es, t1))).
Proof.
  intros Hv. revert fuel buf t. induction Hv as [|d ds Hd Hv IH]; intros fuel buf t Hf Hb.
  - apply app_nil in Hb as [-> ->]. exists [], [], [], t. destruct fuel; cbn; (split_and!; [done..|by left]).
  - destruct (find_blank buf) as [n|] eqn:Hn.
    2:{ exists [], (d :: ds), buf, t. destruct fuel; cbn; rewrite ?Hn; (split_and!; [done..|by left]). }
    pose proof (find_blank_bound _ _ Hn) as Hbd. destruct fuel as [|fuel]; [lia|].
    assert (Hfr : framed (mkFrame None d)) by by split.
    destruct (buffered_frame _ _ _ _ n Hfr Hn Hb) as (b & -> & Hr).
    destruct (frame_blank _ b Hfr) as [Hfb Hlen]. 
    assert (Hk : n = (length (frame_bytes (mkFrame None d)) - 2)%nat) by congruence. subst n.
    cbn [parse_blocks]. rewrite Hn, take_frame. cbn [frame_event frame_data app]. rewrite scan_frame by done.
    replace (length (frame_bytes (mkFrame None d)) - 2 + 2)%nat with (length (frame_bytes (mkFrame None d))) by lia. rewrite drop_app_length.
    destruct (translate_chunk d t) as [[|e es] t1] eqn:Ht.
    + destruct (IH fuel b t1) as (ds0 & ds2 & buf' & t0 & Hp); [rewrite length_app in Hf; lia|done|].
      exists (d :: ds0), ds2, buf', t0. destruct (parse_blocks _ fuel b t1) as [[es2 b2] t2].
      destruct Hp as (H1 & -> & H2 & H3). split_and!; [cbn; by rewrite Ht, H1|done|done|].
      destruct H3 as [(-> & -> & -> & H3)|(He & d' & -> & H3)]; [by left|right; split; [done|by exists d']].
    + exists [], ds, b, t. split_and!; [done..|right]. split; [done|]. by exists d.
Qed.

(** What is still to be read holds the remaining data. *)
Definition awaits_data (s : OpenAiSseStream) (ds : list string) : Prop :=
  exists chunks, openai_inner s = Bytes <$> chunks /\ Forall (fun c => (decode c).2 = []) chunks /\
    openai_buffer s ++ concat chunks = data_frames ds.

Lemma poll_data chunks ds buf t :
  Forall (fun d => visible d = true) ds -> Forall (fun c => (decode c).2 = []) chunks -> buf ++ concat chunks = data_frames ds ->
  (exists t', translate_all ds t = ([], t')) \/
  exists ds0 d ds2 t0 e es s', ds = ds0 ++ d :: ds2 /\ translate_all ds0 t = ([], t0) /\ 
    translate_chunk d t0 = (e :: es, translator s') /\ pending_events s' = es /\ awaits_data s' ds2 /\
    poll_net json_error (Bytes <$> chunks) buf t = (Some e, s').
Proof.
  intros Hv Hc. revert ds buf t Hv. induction Hc as [|c chunks Hcc Hc IH]; intros ds buf t Hv Hb; cbn [fmap list_fmap poll_net].
  all: destruct (parse_frames (length buf) ds buf _ t Hv ltac:(lia) Hb) as (ds0 & ds2 & buf' & t0 & Hp);
       destruct (parse_blocks json_error (length buf) buf t) as [[es b1] t1]; destruct Hp as (H0 & -> & H2 & [(-> & -> & -> & H3)|(He & d & -> & H3)]).
  - left. exists t0. rewrite each_app, H0. simpl in H2. rewrite app_nil_r in H2.
    destruct ds2 as [|d ds2]; [by cbn|]. exfalso.
    assert (Hfr : framed (mkFrame None d)) by (split; [done|]; apply Forall_app in Hv as [_ Hv]; by apply Forall_inv in Hv).
    pose proof (proj1 (frame_blank _ (data_frames ds2) Hfr)) as Hfb. 
    assert (Hbb : buf' = frame_bytes (mkFrame None d) ++ data_frames ds2) by (rewrite H2; done). rewrite <- Hbb in Hfb. congruence.
  - destruct es as [|e es]; [done|]. right. exists ds0, d, ds2, t0, e, es, (mkOpenAi [] buf' es t1).
    split_and!; try done. by exists [].
  - simpl in H2. apply Forall_app in Hv as [_ Hv]. rewrite lossy_valid by done.
    destruct (IH ds2 (buf' ++ c) t0 Hv) as [(t' & Ht)|(da & d & db & tb & e & es & s' & -> & H4 & H5 & H6 & H7 & H8)].
    + by rewrite <- (assoc_L (++)).
    + left. exists t'. by rewrite each_app, H0, Ht.
    + right. exists (ds0 ++ da), d, db, tb, e, es, s'. split_and!; try done; [by rewrite <- (assoc_L (++))|].
      by rewrite each_app, H0, H4.
  - destruct es as [|e es]; [done|]. right. exists ds0, d, ds2, t0, e, es, (mkOpenAi (Bytes c :: (Bytes <$> chunks)) buf' es t1).
    split_and!; try done. exists (c :: chunks). split_and!; try done. by constructor.
Qed.

(** Chunks never end the stream. *)
Definition same_flags (t t' : Translator) : Prop := finished t' = finished t /\ sent_message_start t' = sent_message_start t.

Lemma each_same {A} (f : A -> Translator -> list (result Indexed ApiError) * Translator) l t :
  Forall (fun x => forall t, same_flags t (f x t).2) l -> same_flags t (each f l t).2.
Proof.
  intros Hl. revert t. induction Hl as [|x l Hx _ IH]; intros t; [done|]. cbn. specialize (Hx t).
  destruct (f x t) as [es t1]. specialize (IH t1). destruct (each f l t1) as [es' t2]. cbn in *.
  destruct Hx as [H1 H2], IH as [H3 H4]. split; congruence.
Qed.

Lemma close_same k t : same_flags t (close_before k t).2.
Proof. unfold close_before. destruct (in_thinking t); cbn; destruct (_ && _)%bool; cbn; [done|by destruct (_ && _)%bool|done|by destruct (_ && _)%bool]. Qed.

Lemma tool_call_same tc t : same_flags t (handle_tool_call tc t).2.
Proof.
  unfold handle_tool_call. set (k := Z.to_nat _). destruct (tool_call_states (ensure_calls k t) !! k) as [st|]; [|done].
  destruct (started st); [done|]. pose proof (close_same k (ensure_calls k t)) as Hc. by destruct (close_before k (ensure_calls k t)).
Qed.

Lemma text_same delta t : same_flags t (handle_text_delta delta t).2.
Proof.
  unfold handle_text_delta. destruct (str_field delta "content") as [x|]; [|done]. destruct (is_empty x); [done|].
  by destruct (in_thinking t); cbn; destruct (_ && _)%bool.
Qed.

Lemma reasoning_same delta t : same_flags t (handle_reasoning_delta delta t).2.
Proof. unfold handle_reasoning_delta. destruct (str_field delta "reasoning_content") as [x|]; [|done]. by destruct (is_empty x). Qed.

Lemma finish_same r v t : same_flags t (handle_finish_reason r v t).2.
Proof. unfold handle_finish_reason. destruct r as [r|]; [|done]. by destruct (in_thinking t). Qed.

Lemma calls_same delta t : same_flags t (handle_tool_call_deltas delta t).2.
Proof.
  unfold handle_tool_call_deltas. destruct (json_get delta "tool_calls" ≫= as_array) as [l|]; [|done].
  apply each_same, Forall_forall. intros; apply tool_call_same.
Qed.

Lemma value_same v t : same_flags t (translate_value v t).2.
Proof.
  apply each_same, Forall_forall. intros choice _ t1. apply each_same.
  repeat (apply Forall_cons; split); try apply Forall_nil; try done; intros t2;
    [apply text_same|apply reasoning_same|apply calls_same|apply finish_same].
Qed.

(** The text of a chunk on the wire. *)
Definition sends (d : string) (v : Value) : Prop := visible d = true /\ d <> "[DONE]" /\ json_parse d = Some v.

Lemma chunk_value d v t : sends d v -> sent_message_start t = true -> translate_chunk d t = translate_value v t.
Proof.
  intros (_ & Hd & Hp) Hs. unfold OpenAi.translate_chunk. destruct (String.eqb_spec d "[DONE]"); [done|]. rewrite Hp, Hs.
  unfold translate_value. by destruct (each _ _ t).
Qed.

Lemma first_chunk_value d v t :
  sends d v -> sent_message_start t = false ->
  exists m, translate_chunk d t = (let '(es, t') := translate_value v (set_sent t) in (Ok (None, MessageStart m) :: es, t')).
Proof.
  intros (_ & Hd & Hp) Hs. unfold OpenAi.translate_chunk. destruct (String.eqb_spec d "[DONE]"); [done|]. rewrite Hp, Hs.
  eexists. unfold translate_value. cbn [handle_message_start]. by destruct (each _ _ (set_sent t)).
Qed.

Lemma chunks_values ds vs t :
  Forall2 sends ds vs -> sent_message_start t = true -> translate_all ds t = translate_values vs t.
Proof.
  intros Hs. revert t. induction Hs as [|d v ds vs Hd _ IH]; intros t Ht; [done|]. cbn. rewrite (chunk_value d v) by done.
  pose proof (value_same v t) as [_ Hv]. destruct (translate_value v t) as [es t1]. cbn in Hv. rewrite IH by congruence. done.
Qed.

Lemma chunk_same d v t : sends d v -> finished (translate_chunk d t).2 = finished t.
Proof.
  intros Hs. destruct (sent_message_start t) eqn:Ht; [rewrite (chunk_value d v) by done; apply value_same|].
  destruct (first_chunk_value d v t Hs Ht) as [m ->]. pose proof (value_same v (set_sent t)) as [Hf _].
  by destruct (translate_value v (set_sent t)).
Qed.

Lemma done_nonempty t : (handle_done t).1 <> [].
Proof. unfold handle_done. cbn. by destruct (retain _ _). Qed.

(** All polls together: the events of every chunk, and the first of those that
    [[DONE]] stands for. *)
Lemma stream_items ds vs s n :
  Forall2 sends ds vs -> finished (translator s) = false -> awaits_data s (ds ++ ["[DONE]"]) ->
  let '(es, t') := translate_all ds (translator s) in
  (length (pending_events s) + length es + 1 <= n)%nat ->
  collect (poll_openai json_error) n s = pending_events s ++ es ++ take 1 (handle_done t').1.
Proof.
  revert ds vs s. induction n as [|n IH]; intros ds vs s Hs Hf Ha; destruct (translate_all ds (translator s)) as [es t'] eqn:Ht; intros Hn; [lia|].
  cbn [collect]. unfold poll_openai at 1. rewrite Hf. destruct (pending_events s) as [|e ps] eqn:Hp.
  - assert (Hv : Forall (fun d => visible d = true) (ds ++ ["[DONE]"])).
    { apply Forall_app. split; [|by repeat constructor]. clear -Hs. induction Hs as [|d v ds vs [Hd _] _ IH]; by constructor. }
    destruct Ha as (chunks & Hnet & Hc & Hb). rewrite Hnet.
    destruct (poll_data chunks (ds ++ ["[DONE]"]) (openai_buffer s) (translator s) Hv Hc Hb)
      as [(t1 & Hall)|(ds0 & d & ds2 & t0 & e & es1 & s' & Hds & H0 & Hd & Hpe & Ha & ->)].
    + exfalso. rewrite each_app, Ht in Hall. cbn in Hall. pose proof (done_nonempty t'). unfold OpenAi.translate_chunk in Hall. cbn in Hall.
      injection Hall as Hnil _. apply app_nil in Hnil as [_ Hnil]. by destruct (retain _ _).
    + destruct (decide (ds2 = [])) as [->|Hne].
      * apply app_inj_tail in Hds as [<- <-]. rewrite H0 in Ht. injection Ht as <- <-.
        unfold OpenAi.translate_chunk in Hd. cbn [String.eqb Ascii.eqb Bool.eqb] in Hd. 
        assert (Hfs : finished (translator s') = true) by (apply (f_equal snd) in Hd; cbn in Hd; by rewrite <- Hd).
        rewrite Hd. cbn. f_equal. destruct n as [|n]; [done|]. cbn. unfold poll_openai. by rewrite Hfs.
      * destruct (exists_last Hne) as (ds2' & x & ->). rewrite app_comm_cons, (assoc_L (++)) in Hds.
        apply app_inj_tail in Hds as [-> <-]. apply Forall2_app_inv_l in Hs as (va & vb & Hsa & Hsb & ->).
        apply Forall2_cons_inv_l in Hsb as (v & vc & Hsd & Hsc & ->).
        rewrite each_app, H0 in Ht. cbn in Ht. rewrite Hd in Ht. destruct (translate_all ds2' (translator s')) as [es2 t2] eqn:H2.
        injection Ht as <- <-.
        assert (Hf0 : finished t0 = false).
        { clear -H0 Hsa Hf. revert H0 Hf. generalize (translator s). induction Hsa as [|d v ds vs Hd _ IHs]; intros t; cbn; [by intros [= <-]|].
          pose proof (chunk_same d v t Hd) as Hk. destruct (translate_chunk d t) as [e1 t1]. destruct (translate_all ds t1) as [e2 t2] eqn:He.
          intros [= Hnil <-] Ht. apply app_nil in Hnil as [-> ->]. apply (IHs t1); [done|]. cbn in Hk. congruence. }
        pose proof (chunk_same d v t0 Hsd) as Hk. rewrite Hd in Hk. cbn in Hk.
        specialize (IH ds2' vc s' Hsc (eq_trans Hk Hf0) Ha). rewrite H2, Hpe in IH. cbn [app]. f_equal. rewrite IH, (assoc_L (++)); [done|].
        simpl in Hn. rewrite length_app in Hn. lia.
  - specialize (IH ds vs (mkOpenAi (openai_inner s) (openai_buffer s) ps (translator s)) Hs Hf Ha). cbn [translator pending_events] in IH.
    rewrite Ht in IH. cbn [app]. f_equal. apply IH. simpl in Hn. lia.
Qed.
End Polling.

Section Ingested.
Context `{JL : JsonLaws} (model : string) (json_error : string -> string).

(** A whole answer, up to its last chunk. *)
Lemma answer_lead rs ts cs vs t s reason :
  Forall2 holds_piece vs (answer_pieces rs ts cs reason) -> joint 0 [] Closed t s ->
  let r := so_far (String.concat "" rs) (String.concat "" ts) in
  let '(es, t') := translate_values vs t in
  forallb goes_on es = true /\ Forall (fun c => started c = true) (tool_call_states t') /\
  length (tool_call_states t') = length cs /\
  reading (kept r.1 r.2) match (after_calls r.1 r.2 cs).2 with InTool i n a => InTool i n a | _ => Closed end
    (Some (stop_reason_of reason)) (absorb model es s).
Proof.
  intros Hs Hj r. unfold answer_pieces in Hs.
  apply Forall2_app_inv_r in Hs as (va & vb & Ha & Hs & ->). apply Forall2_app_inv_r in Hs as (vt & vc & Ht & Hs & ->).
  apply Forall2_app_inv_r in Hs as (vd & ve & Hc & Hf & ->). apply Forall2_cons_inv_r in Hf as (v & w & Hf & Hw & ->).
  apply Forall2_nil_inv_r in Hw as ->.
  assert (Hlead : leads_all model (length cs) (after_calls r.1 r.2 cs).1 (after_calls r.1 r.2 cs).2 (va ++ vt ++ vd) t s).
  { eapply leads_app; [by apply (reasons_lead model rs va "" t s)|]. intros t1 s1 H1.
    eapply leads_app; [by apply (texts_lead model (String.concat "" rs) ts vt "" t1 s1)|]. intros t2 s2 H2.
    by apply (calls_lead model cs vd 0). }
  replace (va ++ vt ++ vd ++ [v]) with ((va ++ vt ++ vd) ++ [v]) by by rewrite <- !(assoc_L (++)).
  unfold leads_all, leads, translate_values in *. rewrite each_app. destruct (each translate_value (va ++ vt ++ vd) t) as [es t1].
  destruct Hlead as [Hg Hj1]. cbn [fst snd] in *. destruct (translate_holds v _ t1 Hf) as (delta & tc & He & _).
  destruct Hj1 as [Htr Hrd]. pose proof Htr as (_ & _ & _ & _ & Hlen & Hst & _).
  pose proof (finish_step model _ _ _ t1 _ reason v (conj Htr Hrd)) as Hfin. cbn [each]. rewrite He.
  destruct (handle_finish_reason (Some reason) v t1) as [e2 t2]. destruct Hfin as (Hg2 & _ & Hsame & Hr).
  rewrite app_nil_r, forallb_app, Hg, Hg2, Hsame, absorb_app. split_and!; [done..|].
  unfold after_calls in *. destruct (last cs) as [c|]; [exact Hr|]. cbn [fst snd] in *. subst r. unfold so_far, thinking_open in *.
  by destruct (is_empty (String.concat "" ts)), (is_empty (String.concat "" rs)).
Qed.

Definition last_call (cs : list CallPieces) : list ContentBlock :=
  match last cs with Some c => [call_block (piece_id c) (piece_name c) (call_args c)] | None => [] end.

Lemma kept_so_far x y : kept (so_far x y).1 (so_far x y).2 = thinking_block x ++ text_content y.
Proof.
  unfold so_far, thinking_open, thinking_block, text_content. destruct (is_empty y) eqn:Hy; cbn.
  - destruct (is_empty x) eqn:Hx; cbn; [done|]. unfold thinking_block. by rewrite Hx.
  - unfold text_content. by rewrite Hy.
Qed.

Lemma retain_started l : Forall (fun c => started c = true) l -> retain started l = l.
Proof. induction 1 as [|c l Hc _ IH]; [done|]. by rewrite retain_cons, Hc, IH. Qed.

(** Claim C11. An answer of an OpenAI-compatible provider is put together from
    its chunks: whatever the pieces of its reasoning, its text and the
    arguments of its calls, and however the network cuts it between characters,
    the ingested turn holds the whole reasoning, the whole text, and the last
    of the calls with its whole arguments; the calls before it are lost. *)
Theorem openai_answer_ingested (u : Usage) (c : CostTracker) (ds : list string) (vs : list Value) (rs ts : list string)
    (cs : list CallPieces) (reason : string) (chunks : list (list byte))
    (Hd : Forall2 sends ds vs) (Hv : Forall2 holds_piece vs (answer_pieces rs ts cs reason))
    (Hb : concat chunks = data_frames (ds ++ ["[DONE]"])) (Hu : Forall (fun c => (decode c).2 = []) chunks) :
  exists polls, forall n, (polls <= n)%nat ->
    (ingest model (item_of <$> collect (poll_openai json_error) n (new_openai (Bytes <$> chunks))) (fresh_ingest u c)).1 =
    Continue (thinking_block (String.concat "" rs) ++ text_content (String.concat "" ts) ++ last_call cs) (Some (stop_reason_of reason)).
Proof.
  pose proof (fun n => stream_items json_error ds vs (new_openai (Bytes <$> chunks)) n Hd eq_refl (ex_intro _ chunks (conj eq_refl (conj Hu Hb)))) as Hi.
  destruct Hd as [|d v ds vs Hd Hds]; [unfold answer_pieces in Hv; destruct rs, ts, cs; by apply Forall2_nil_inv_l in Hv|].
  destruct (first_chunk_value json_error d v new_translator Hd eq_refl) as [m Hm].
  assert (Hall : exists es t', each (translate_chunk json_error) (d :: ds) new_translator = (Ok (None, MessageStart m) :: es, t') /\
            translate_values (v :: vs) (set_sent new_translator) = (es, t')).
  { cbn [each]. rewrite Hm. unfold translate_values. cbn [each]. pose proof (value_same v (set_sent new_translator)) as [_ Hsent].
    destruct (translate_value v (set_sent new_translator)) as [e1 t1]. rewrite (chunks_values json_error ds vs t1 Hds Hsent).
    unfold translate_values. destruct (each translate_value vs t1) as [e2 t2]. by eexists _, _. }
  destruct Hall as (es & t' & Hall & Hvals). cbn [new_openai translator pending_events] in Hi. rewrite Hall in Hi.
  set (s0 := on_event model (MessageStart m) (fresh_ingest u c)).
  assert (Hj : joint 0 [] Closed (set_sent new_translator) s0).
  { split; [by split_and!|]. subst s0. cbn. by destruct (json_get m "usage"). }
  pose proof (answer_lead rs ts cs (v :: vs) _ s0 reason Hv Hj) as Hlead. rewrite Hvals in Hlead.
  destruct Hlead as (Hg & Hst & Hlen & Hr). exists (length es + 2)%nat. intros n Hn. assert (Hle : (S (length es) + 1 <= n)%nat) by lia. rewrite (Hi n Hle).
  cbn [app fmap list_fmap]. rewrite fmap_app. cbn [item_of ingest]. fold s0. clearbody s0. rewrite ingest_absorb by done.
  rewrite kept_so_far in Hr. unfold handle_done. rewrite retain_started by done. cbn [fst].
  unfold after_calls, last_call in *. destruct (tool_call_states t') as [|st l].
  - destruct cs; [|done]. destruct Hr as (Hd1 & Hd2 & _). cbn. by rewrite app_nil_r, Hd1, Hd2.
  - destruct (last cs) as [c0|] eqn:Hl; [|apply last_None in Hl; by subst cs].
    pose proof (reads_stop _ _ _ _ Hr) as (Hd1 & Hd2 & _). cbn [snd closing] in *. cbn [take fmap list_fmap ingest app]. cbn [item_of stop_of compose ingest on_event fst]. rewrite take_0. cbn [list_fmap fmap ingest fst]. by rewrite Hd1, Hd2, <- (assoc_L (++)).
Qed.
End Ingested.

(** ** The converted request *)

Section Pairs.
Context `{JL : JsonLaws}.

(** The calls a converted message asks for. *)
Definition call_ids (v : Value) : list string :=
  if has_role "assistant" v
  then omap (fun c => str_field c "id") (default [] (json_get v "tool_calls" ≫= as_array)) else [].

(** What a chat completion request has to look like: the calls of an assistant
    message are answered by the tool messages right after it, in their order. *)
Fixpoint openai_scan (pending : list string) (l : list Value) : option (list string) :=
  match l with
  | [] => Some pending
  | v :: rest =>
      if has_role "tool" v then
        match pending with
        | id :: more => if bool_decide (str_field v "tool_call_id" = Some id) then openai_scan more rest else None
        | [] => None
        end
      else match pending with [] => openai_scan (call_ids v) rest | _ => None end
  end.

(** User messages that are results only, or hold none; calls with an id. *)
Definition identified (b : Value) : bool := is_some (result_id b).
Definition one_kind (arr : list Value) : bool := (forallb identified arr || forallb (fun b => negb (is_tool_result b)) arr)%bool.

Definition tidy (v : Value) : bool :=
  let arr := json_get v "content" ≫= as_array in
  if has_role "user" v then match arr with Some arr => one_kind arr | None => true end
  else (has_role "assistant" v &&
        forallb (fun b => negb (String.eqb (block_type b) "tool_use") || is_some (str_field b "id")) (default [] arr))%bool.

Lemma role_of role (fs : list (string * Value)) :
  NoDup fs.*1 -> assoc fs "role" = Some (json_string role) -> forall r, has_role r (json_object fs) = bool_decide (role = r).
Proof.
  intros Hn Ha r. unfold has_role. rewrite (field_object fs "role" role) by done. apply bool_decide_ext. split; congruence.
Qed.

Lemma role_content_role role c r : has_role r (role_content role c) = bool_decide (role = r).
Proof. apply role_of; [by apply (bool_decide_unpack (NoDup ["role"; "content"]))|done]. Qed.

Lemma type_result b : String.eqb (block_type b) "tool_result" = is_tool_result b.
Proof.
  unfold block_type, is_tool_result. destruct (str_field b "type") as [t|]; [|done]. simpl.
  destruct (String.eqb_spec t "tool_result"); case_bool_decide; congruence.
Qed.

(** *** User messages *)

Lemma tool_message_scan b id more rest :
  result_id b = Some id -> openai_scan (id :: more) (tool_message b :: rest) = openai_scan more rest.
Proof.
  unfold result_id. destruct (is_tool_result b); [|done]. intros Hid. cbn [openai_scan]. unfold tool_message.
  set (fs := [("role", json_string "tool"); _; _]).
  assert (Hn : NoDup fs.*1) by (by apply (bool_decide_unpack (NoDup ["role"; "tool_call_id"; "content"]))).
  rewrite (role_of "tool" fs Hn eq_refl), (field_object fs "tool_call_id" id); [|done|unfold fs; by rewrite Hid].
  by rewrite !bool_decide_eq_true_2.
Qed.

Lemma results_scan arr rest :
  forallb identified arr = true -> openai_scan (omap result_id arr) (convert_blocks [] arr ++ rest) = openai_scan [] rest.
Proof.
  induction arr as [|b arr IH]; [done|]. intros [Hb Ha]%andb_true_iff. unfold identified in Hb.
  destruct (result_id b) as [id|] eqn:Hid; [|done]. cbn [omap list_omap convert_blocks]. rewrite Hid, type_result.
  assert (Hr : is_tool_result b = true) by (unfold result_id in Hid; by destruct (is_tool_result b)).
  rewrite Hr. cbn [flush_parts app]. rewrite (tool_message_scan b id) by done. by apply IH.
Qed.

Lemma user_scan c rest : openai_scan [] (role_content "user" c :: rest) = openai_scan [] rest.
Proof. cbn. unfold call_ids. by rewrite !role_content_role. Qed.

Lemma words_scan parts arr rest :
  forallb (fun b => negb (is_tool_result b)) arr = true -> openai_scan [] (convert_blocks parts arr ++ rest) = openai_scan [] rest.
Proof.
  revert parts. induction arr as [|b arr IH]; intros parts; cbn [convert_blocks].
  - intros _. unfold last_parts, flush_parts. destruct parts as [|p [|q parts]]; [done| |apply user_scan].
    destruct (String.eqb _ _); apply user_scan.
  - intros [Hb Ha]%andb_true_iff. rewrite type_result, (proj1 (negb_true_iff _) Hb). by apply IH.
Qed.

Lemma user_message_scan c rest :
  match as_array c with Some arr => one_kind arr | None => true end = true ->
  openai_scan (omap result_id (default [] (as_array c))) (convert_user_message c ++ rest) = openai_scan [] rest.
Proof.
  unfold convert_user_message. destruct (as_array c) as [[|b arr]|]; [intros _; apply user_scan| |intros _; apply user_scan].
  cbn [default from_option]. intros [Hr|Hn]%orb_true_iff; [by apply results_scan|].
  replace (omap result_id (id (b :: arr))) with (@nil string); [by apply words_scan|]. symmetry.
  change (omap result_id (b :: arr) = []). clear rest. induction (b :: arr) as [|x l IH]; [done|].
  apply andb_true_iff in Hn as [Hx Hn]. cbn. unfold result_id. rewrite (proj1 (negb_true_iff _) Hx). by apply IH.
Qed.

(** *** Assistant messages *)

Lemma calls_of_type arr :
  forallb (fun b => negb (String.eqb (block_type b) "tool_use") || is_some (str_field b "id"))%bool arr = true ->
  omap (fun c => str_field c "id") (tool_call <$> of_type "tool_use" arr) = omap use_id arr.
Proof.
  induction arr as [|b arr IH]; [done|]. intros [Hb Ha]%andb_true_iff. unfold of_type. rewrite retain_cons. fold (of_type "tool_use" arr).
  cbn [omap list_omap]. unfold use_id at 1. unfold block_type in *. destruct (str_field b "type") as [t|] eqn:Ht; cbn [default from_option] in *.
  2:{ rewrite bool_decide_eq_false_2 by done. by apply IH. }
  change (id t) with t in *. destruct (String.eqb_spec t "tool_use") as [->|Hne].
  - rewrite bool_decide_eq_true_2 by done. simpl in Hb. destruct (str_field b "id") as [i|] eqn:Hi; [|done].
    cbn [fmap list_fmap omap list_omap]. unfold tool_call at 1. rewrite Hi.
    rewrite (field_object _ "id" i); [|by apply (bool_decide_unpack (NoDup ["id"; "type"; "function"]))|done]. f_equal. by apply IH.
  - rewrite bool_decide_eq_false_2 by congruence. by apply IH.
Qed.

Lemma assistant_scan c rest :
  forallb (fun b => negb (String.eqb (block_type b) "tool_use") || is_some (str_field b "id"))%bool (default [] (as_array c)) = true ->
  openai_scan [] (convert_assistant_message c ++ rest) = openai_scan (omap use_id (default [] (as_array c))) rest.
Proof.
  unfold convert_assistant_message. destruct (as_array c) as [arr|].
  2:{ intros _. cbn. unfold call_ids. rewrite !role_content_role. cbn. unfold role_content.
      rewrite json_get_object by (by apply (bool_decide_unpack (NoDup ["role"; "content"]))). done. }
  change (default [] (Some arr)) with arr. intros Ha. rewrite <- (calls_of_type arr Ha).
  set (calls := tool_call <$> of_type "tool_use" arr). set (text := String.concat "" _). set (reasoning := String.concat "" _).
  cbn [app openai_scan]. set (fs := _ :: _).
  assert (Hfs : NoDup fs.*1 /\ assoc fs "role" = Some (json_string "assistant") /\
                default [] (assoc fs "tool_calls" ≫= as_array) = calls).
  { subst fs. destruct (negb (is_empty text) || _)%bool, calls as [|x calls]; simpl;
      (split_and!; [|done|by rewrite ?as_array_array]);
      by apply (bool_decide_unpack _). }
  destruct Hfs as (Hn & Hr & Hc). unfold call_ids. rewrite !(role_of "assistant" fs Hn Hr). cbn.
  rewrite json_get_object by done. by rewrite Hc.
Qed.

(** *** Whole histories *)

Lemma content_array v : as_array (default json_null (json_get v "content")) = json_get v "content" ≫= as_array.
Proof. destruct (json_get v "content"); [done|]. exact as_array_null. Qed.

Lemma convert_scan v rest :
  tidy v = true -> openai_scan (sent_results v) (convert_message v ++ rest) = openai_scan (sent_uses v) rest.
Proof.
  unfold tidy, convert_message, sent_results, sent_uses, content_blocks, has_role. rewrite <- content_array.
  set (c := default json_null (json_get v "content")). destruct (str_field v "role") as [role|]; [|done].
  change (default "user" (Some role)) with role. destruct (String.eqb_spec role "user") as [->|Hu].
  - rewrite bool_decide_eq_true_2, bool_decide_eq_false_2 by done. apply user_message_scan.
  - rewrite !(bool_decide_eq_false_2 (Some role = Some "user")) by congruence. intros [Hr Hc]%andb_true_iff.
    apply bool_decide_eq_true in Hr. injection Hr as ->. rewrite bool_decide_eq_true_2 by done. cbn [String.eqb Ascii.eqb Bool.eqb].
    by apply assistant_scan.
Qed.

Lemma converted_scan p q l :
  Forall (fun v => tidy v = true) l -> sent_scan p l = Some q -> openai_scan p (l ≫= convert_message) = openai_scan q [].
Proof.
  intros Hl. revert p. induction Hl as [|v l Hv _ IH]; intros p; cbn [sent_scan mbind list_bind]; [by intros [= ->]|].
  case_bool_decide as Hr; [|done]. intros Hs. subst p. rewrite convert_scan by done. by apply IH.
Qed.

(** A history whose user messages are results only, or hold none. *)
Definition tidy_message (m : Message) : bool :=
  match content m with
  | User u _ _ => match as_array (user_content u) with Some arr => one_kind arr | None => true end
  | _ => true
  end.

Lemma block_identified b : (negb (String.eqb (block_type (block_value b)) "tool_use") || is_some (str_field (block_value b) "id"))%bool = true.
Proof.
  unfold block_type, str_field, block_value. destruct b as [t|i n v|t|s|s];
    rewrite !json_get_object by (by apply (bool_decide_unpack _)); simpl; by rewrite !as_str_string.
Qed.

Lemma sent_tidy m v : roled m = true -> tidy_message m = true -> api_message m = Some v -> tidy v = true.
Proof.
  unfold roled, tidy_message, api_message, tidy. destruct (content m) as [u me tr|a co d|sub t|pr pd]; [| |done..].
  - intros Hr%String.eqb_eq Ht. destruct (empty_content _); [done|]. intros [= <-]. unfold has_role.
    destruct (role_content_get (user_role u) (user_content u)) as [-> ->]. rewrite Hr, bool_decide_eq_true_2 by done. exact Ht.
  - intros Hr%String.eqb_eq _. destruct (existsb _ _); [|done]. intros [= <-]. unfold has_role.
    destruct (role_content_get (assistant_role a) (json_array (block_value <$> blocks a))) as [-> ->]. rewrite Hr.
    rewrite bool_decide_eq_false_2, bool_decide_eq_true_2 by done. cbn. rewrite as_array_array. cbn.
    induction (blocks a) as [|b bs IH]; [done|]. cbn. by rewrite block_identified.
Qed.

Lemma reminder_tidy r v : is_user_text_turn v = true -> tidy v = true -> tidy (with_reminder r v) = true.
Proof.
  unfold is_user_text_turn. case_bool_decide as Hr; [|done]. destruct (json_get v "content") as [c|] eqn:Hc; [|done].
  intros Ht _. unfold tidy, has_role, with_reminder. rewrite Hc.
  set (x := match as_str c with Some _ => _ | None => _ end).
  assert (Hk : is_some (json_get v "content") = true) by (by rewrite Hc).
  assert (Hrole : str_field (json_set v "content" x) "role" = Some "user").
  { unfold str_field in *. rewrite json_get_set by exact Hk. exact Hr. }
  rewrite Hrole, bool_decide_eq_true_2, (json_get_set v "content" x "content" Hk) by done. cbn. subst x.
  destruct (as_str c) as [s|]; [by rewrite as_array_string|]. destruct (as_array c) as [arr|] eqn:Ha; [|by rewrite as_array_string].
  rewrite as_array_array. unfold one_kind. apply orb_true_iff. right. rewrite forallb_app. cbn.
  unfold is_tool_result at 2, str_field. rewrite json_get_object by (by apply (bool_decide_unpack (NoDup ["type"; "text"]))). cbn.
  rewrite as_str_string. cbn. rewrite andb_true_r. clear -Ht. induction arr as [|b arr IH]; [done|]. cbn in *.
  rewrite negb_orb in Ht. apply andb_true_iff in Ht as [-> Ht]. by apply IH.
Qed.

Lemma inject_tidy r l : Forall (fun v => tidy v = true) l -> Forall (fun v => tidy v = true) (inject_reminder r l).
Proof.
  intros Hl. unfold inject_reminder. destruct r as [r|]; [|done]. destruct (last l) as [v|] eqn:Hv; [|done].
  destruct (is_user_text_turn v) eqn:Ht; [|done]. apply last_Some in Hv as [l' ->]. rewrite removelast_last.
  apply Forall_app in Hl as [Hl Hv%Forall_inv]. apply Forall_app. split; [done|]. apply Forall_singleton. apply reminder_tidy; [exact Ht|exact Hv].
Qed.

End Pairs.

Section Request.
Context `{J : Json} {JL : JsonLaws} `{G : Globs} `{Clk : Clock} `{HO : HashOrder}.

(** Claim C9. A request keeps its pairs on the way to an OpenAI-compatible
    provider: for a paired history whose user messages are results only or hold
    none, the converted messages ask for calls only in assistant messages, and
    the tool messages right after each answer exactly its calls, in their
    order, whatever system prompt and reminder are added. *)
Theorem openai_request_paired (format_percent : f64 -> string) (now : Z) (model : string) (h : list Message) (c : RequestConfig)
    (Hp : paired h) (Hr : Forall (fun m => roled m = true) h) (Ht : Forall (fun m => tidy_message m = true) h) :
  openai_scan [] (convert_messages (call_request format_percent now model h c)) = Some [].
Proof.
  unfold call_request, build_api_request. destruct (build_dynamic_reminder _ _ _) as [r health]. cbn [fst].
  destruct (sent_scan_ok format_percent [] h [] Hp Hr) as [H1 _], (inject_ids r (omap api_message h) []) as (I1 & _). rewrite H1 in I1.
  assert (Hs : forall sys rest, openai_scan [] (convert_system_message sys ++ rest) = openai_scan [] rest).
  { intros sys rest. unfold convert_system_message. destruct (is_empty _); [done|]. cbn. unfold call_ids, role_text.
    by rewrite !role_content_role. }
  assert (Hall : Forall (fun v => tidy v = true) (omap api_message h)).
  { clear -Hr Ht JL. induction h as [|m h IH]; [constructor|]. apply Forall_cons in Hr as [Hm Hr], Ht as [Htm Ht].
    cbn [omap list_omap]. destruct (api_message m) as [v|] eqn:Ha; [|by apply IH]. constructor; [by apply (sent_tidy m)|by apply IH]. }
  unfold convert_messages. cbn [request_system request_messages]. rewrite (api_messages_paired h Hp).
  match goal with |- context [build_system_prompt ?c] => destruct (build_system_prompt c) as [sys|] end; [rewrite Hs|cbn [app]];
    rewrite (converted_scan [] [] _ (inject_tidy r _ Hall) I1); done.
Qed.
End Request.

(** ** On concrete answers *)

Section DemoAnswer.

Definition chunk_of (delta : list (string * flat)) (finish : flat) : flat :=
  FObj [("choices", FArr [FObj [("delta", FObj delta); ("finish_reason", finish)]])].

Definition call_of (k : Z) (fields func : list (string * flat)) : list (string * flat) :=
  [("content", FNull); ("tool_calls", FArr [FObj ([("index", FInt k)] ++ fields ++ [("function", FObj func)])])].

(** The texts of the chunks below and their values. *)
Definition answer_texts : list (string * flat) :=
  [("{ reasoning: think first }", chunk_of [("reasoning_content", FStr "think")] FNull);
   ("{ text: hello there }", chunk_of [("content", FStr "hello"); ("reasoning_content", FNull)] FNull);
   ("{ call 0: id a, Bash, no arguments yet }", chunk_of (call_of 0 [("id", FStr "a")] [("name", FStr "Bash"); ("arguments", FStr "")]) FNull);
   ("{ call 0: its arguments }", chunk_of (call_of 0 [] [("arguments", FStr "{}")]) FNull);
   ("{ call 1: id b, Read, with arguments }", chunk_of (call_of 1 [("id", FStr "b")] [("name", FStr "Read"); ("arguments", FStr "{}")]) FNull);
   ("{ finished, for tool calls }", chunk_of [] (FStr "tool_calls"));
   ("{ usage: 900 and 70 tokens }", FObj [("choices", FArr []); ("usage", FObj [("prompt_tokens", FInt 900); ("completion_tokens", FInt 70)])]);
   ("{}", FObj [])].

Definition answer_parse (s : string) : option flat := assoc answer_texts s.

#[local] Instance answer_json : Json := flat_json_with answer_parse.

#[local] Instance answer_json_laws : JsonLaws.
Proof.
  apply flat_json_with_laws. intros s x. unfold answer_parse, answer_texts. cbn [assoc].
  repeat (match goal with |- context [String.eqb s ?t] => destruct (String.eqb_spec s t) as [->|] end;
          [intros [= <-]; vm_compute; lia|]). done.
Qed.

Definition text_of (k : nat) : string := default "" (fst <$> answer_texts !! k).
Definition value_of (k : nat) : flat := default FNull (snd <$> answer_texts !! k).

Definition two_calls : list CallPieces := [mkPieces "a" "Bash" "" ["{}"]; mkPieces "b" "Read" "{}" []].

Definition answered_with (ks : list nat) : list byte := data_frames (text_of <$> ks).

Definition polled (n : nat) (chunks : list (list byte)) : list (result Indexed ApiError) :=
  collect (poll_openai no_text) n (new_openai (Bytes <$> chunks)).

(** What the ingestion makes of it: the number of blocks, and the usage. *)
Definition blocks_and_usage (n : nat) (chunks : list (list byte)) : option (nat * Z * Z) :=
  match ingest "m" (item_of <$> polled n chunks) (fresh_ingest EMPTY_USAGE new_cost_tracker) with
  | (Continue l _, s) => Some (length l, input_tokens (total_usage s), output_tokens (total_usage s))
  | _ => None
  end.

Definition demo_data : list string := text_of <$> [0; 1; 2; 3; 4; 5]%nat.
Definition demo_values : list Value := (value_of : nat -> Value) <$> [0; 1; 2; 3; 4; 5]%nat.

Lemma openai_answer_ingested_witness :
  exists polls, forall n, (polls <= n)%nat ->
    (ingest "m" (item_of <$> polled n [answered_with [0; 1; 2; 3; 4; 5]%nat; data_frames ["[DONE]"]])
       (fresh_ingest EMPTY_USAGE new_cost_tracker)).1 =
    Continue [Thinking "think"; Text "hello"; ToolUse "b" "Read" (FObj [])] (Some "tool_use").
Proof.
  set (chunks := [answered_with [0; 1; 2; 3; 4; 5]%nat; data_frames ["[DONE]"]]).
  destruct (openai_answer_ingested "m" no_text EMPTY_USAGE new_cost_tracker demo_data demo_values ["think"] ["hello"]
              two_calls "tool_calls" chunks) as [p H].
  - repeat (apply Forall2_cons; split; [split_and!; [reflexivity|discriminate|reflexivity]|]). by apply Forall2_nil.
  - repeat (apply Forall2_cons; split; 
      [eexists; split; [reflexivity|]; cbv zeta; split_and!; try reflexivity; try (eexists; split; [reflexivity|]; by split_and!)|]).
    by apply Forall2_nil.
  - vm_compute. reflexivity.
  - repeat (apply Forall_cons; split; [vm_compute; reflexivity|]). by apply Forall_nil.
  - exists p. intros n Hn. exact (H n Hn).
Defined.

(** The usage comes in a chunk of its own without choices, after the reason to
    finish: it is not looked at, so no tokens are ever counted. *)
Example usage_never_counted :
  blocks_and_usage 20 [answered_with [1; 5; 6]%nat; data_frames ["[DONE]"]] = Some (1%nat, 0, 0)%Z.
Proof. vm_compute. reflexivity. Qed.

(** A stream that ends without [[DONE]] loses its call, although the reason to
    finish says that there is one. *)
Example call_needs_done :
  blocks_and_usage 20 [answered_with [2; 3; 5]%nat; data_frames ["[DONE]"]] = Some (1%nat, 0, 0)%Z /\
  blocks_and_usage 20 [answered_with [2; 3; 5]%nat] = Some (0%nat, 0, 0)%Z.
Proof. vm_compute. split; reflexivity. Qed.

(** A character that the network cuts in two is replaced. *)
Example cut_character_replaced :
  let e := utf8 [195; 169]%nat in
  from_utf8_lossy e = e /\ from_utf8_lossy (take 1 e) ++ from_utf8_lossy (drop 1 e) = replacement ++ replacement.
Proof. vm_compute. split; reflexivity. Qed.

(** The field name must be followed by a space, which the protocol leaves
    optional. *)
Example space_required : openai_data (bytes_of "data:{}") = None /\ openai_data (bytes_of "data: {}") = Some "{}".
Proof. vm_compute. split; reflexivity. Qed.
End DemoAnswer.

Section DemoRequest.
#[local] Existing Instances flat_json flat_json_laws demo_clock canonical_order one_star.

Lemma openai_request_paired_witness :
  let msgs := convert_messages (call_request as_percent 0 "sonnet" long_history demo_request) in
  openai_scan [] msgs = Some [] /\ (msgs ≫= call_ids) = replicate 6 "a".
Proof.
  assert (H : openai_scan [] (convert_messages (call_request as_percent 0 "sonnet" long_history demo_request)) = Some []).
  { apply openai_request_paired; [vm_compute; reflexivity|apply (bool_decide_unpack _); vm_compute; exact I..]. }
  intros msgs. split; [exact H|]. vm_compute. reflexivity.
Defined.

(** After an interrupted call the clean-up puts the missing result behind the
    next prompt, in one message; converted, the prompt comes between the call
    and its result, and the request is refused. *)
Example stub_after_prompt :
  let h := Engine.cleanup_incomplete_tool_calls [says "hi"; asks ["c"]; says "go on"] in
  let msgs := convert_messages (call_request as_percent 0 "sonnet" h demo_request) in
  (fun v => default "" (str_field v "role")) <$> msgs = ["system"; "user"; "assistant"; "user"; "tool"] /\
  openai_scan [] msgs = None.
Proof. vm_compute. split; reflexivity. Qed.
End DemoRequest.
