(* ===== verification/SharedState.v ===== *)
(** * SharedState: the store agents of a team share ([engine/team/shared_state.rs])

    A key-value store, a channel of progress reports and a list of results to
    merge, behind three locks.  The first half models each operation as the
    step it is while it holds its locks; the second half models how the
    operations take the locks, and proves that they never wait for each other
    in a circle. *)

From Stdlib Require Import ZArith SpecFloat Lia.
From stdpp Require Import base gmap strings list sorting fin_maps.
From S2P Require Import Prelude Text Float64 Json Rpc.

#[local] Open Scope Z_scope.
#[local] Open Scope string_scope.

(** ** Strategies *)

Inductive MergeStrategy :=
| Concat
| JsonArray
| Summarize
| FirstOnly
| LastOnly
| SuccessOnly
| Custom (name : string).

(** [MergeStrategy::fmt]. *)
Definition strategy_fmt (s : MergeStrategy) : string :=
  match s with
  | Concat => "concat"
  | JsonArray => "json_array"
  | Summarize => "summarize"
  | FirstOnly => "first_only"
  | LastOnly => "last_only"
  | SuccessOnly => "success_only"
  | Custom name => "custom:" +:+ name
  end.

(** [f64::clamp(0.0, 1.0)]. *)
Definition clamp01 (x : f64) : f64 :=
  let x := if f64_lt x f64_zero then f64_zero else x in
  if f64_lt (f64_of_Z 1) x then f64_of_Z 1 else x.

(** The separator of joined results. *)
Definition separator : string := newline +:+ newline +:+ "---" +:+ newline +:+ newline.

Section State.
Context `{J : Json}.

(** How the JSON library holds floating-point numbers (an infinity or a NaN
    becomes [null]) and prints a value over several lines. *)
Variable json_f64 : f64 -> Value.
Variable as_f64 : Value -> option f64.
Variable to_string_pretty : Value -> option string.

Record ProgressEvent := mkEvent {
  ev_agent_id : string;
  ev_message : string;
  ev_progress : f64;
  ev_timestamp : string;
  ev_data : option Value
}.

(** [ProgressEvent::new]; [now] is the clock's text. *)
Definition event_new (agent_id message : string) (progress : f64) (now : string) : ProgressEvent :=
  mkEvent agent_id message (clamp01 progress) now None.

(** [ProgressEvent::with_data]. *)
Definition with_data (e : ProgressEvent) (d : Value) : ProgressEvent :=
  mkEvent (ev_agent_id e) (ev_message e) (ev_progress e) (ev_timestamp e) (Some d).

Record AgentResultForMerge := mkResult {
  agent_id : string;
  text : string;
  r_success : bool;
  tokens : Z;
  cost_usd : f64;
  duration_ms : Z;
  metadata : gmap string Value
}.

Record MergedResults := mkMerged {
  m_text : string;
  m_strategy : MergeStrategy;
  m_count : nat;
  total_tokens : Z;
  total_cost_usd : f64;
  total_duration_ms : Z;
  success_count : nat;
  failure_count : nat;
  individual_results : list AgentResultForMerge
}.

Record SharedMetrics := mkMetrics {
  kv_operations : Z;
  progress_broadcasts : Z;
  results_stored : Z;
  peak_key_count : nat;
  subscriber_count : nat
}.

(** The manager.  Of the broadcast channel, which is a library's, the model
    keeps what was handed to it and how many receivers it reports. *)
Record SharedStateManager := mkManager {
  data : gmap string Value;
  sent : list ProgressEvent;
  receivers : nat;
  results : list AgentResultForMerge;
  metrics : SharedMetrics
}.

Definition metrics_default : SharedMetrics := mkMetrics 0 0 0 0 0.

Definition manager_new : SharedStateManager := mkManager ∅ [] 0 [] metrics_default.

Definition set_data (s : SharedStateManager) d : SharedStateManager :=
  mkManager d (sent s) (receivers s) (results s) (metrics s).
Definition set_results (s : SharedStateManager) r : SharedStateManager :=
  mkManager (data s) (sent s) (receivers s) r (metrics s).
Definition set_metrics (s : SharedStateManager) m : SharedStateManager :=
  mkManager (data s) (sent s) (receivers s) (results s) m.

(** [metrics.kv_operations += n]. *)
Definition count_kv (n : nat) (s : SharedStateManager) : SharedStateManager :=
  let m := metrics s in
  set_metrics s (mkMetrics (add64 (kv_operations m) (Z.of_nat n)) (progress_broadcasts m)
    (results_stored m) (peak_key_count m) (subscriber_count m)).

(** [if data.len() > metrics.peak_key_count { .. }]. *)
Definition raise_peak (s : SharedStateManager) : SharedStateManager :=
  let m := metrics s in
  if Nat.ltb (peak_key_count m) (size (data s)) then
    set_metrics s (mkMetrics (kv_operations m) (progress_broadcasts m) (results_stored m)
      (size (data s)) (subscriber_count m))
  else s.

(** ** The key-value store *)

Definition set (s : SharedStateManager) (key : string) (value : Value) : SharedStateManager :=
  raise_peak (count_kv 1 (set_data s (<[key := value]> (data s)))).

Definition get (s : SharedStateManager) (key : string) : SharedStateManager * option Value :=
  (count_kv 1 s, data s !! key).

Definition contains (s : SharedStateManager) (key : string) : SharedStateManager * bool :=
  (count_kv 1 s, is_some (data s !! key)).

Definition remove (s : SharedStateManager) (key : string) : SharedStateManager * option Value :=
  (count_kv 1 (set_data s (delete key (data s))), data s !! key).

Definition keys `{HashOrder} (s : SharedStateManager) : list string := hash_keys (data s).

Definition len (s : SharedStateManager) : nat := size (data s).

Definition store_is_empty (s : SharedStateManager) : bool := Nat.eqb (size (data s)) 0.

Definition clear (s : SharedStateManager) : SharedStateManager := set_data s ∅.

(** [collect()] into a map: a later pair replaces an earlier one. *)
Definition collect_pairs {A} (l : list (string * A)) : gmap string A :=
  foldl (fun m '(k, v) => <[k := v]> m) ∅ l.

Definition get_many (s : SharedStateManager) (ks : list string) : gmap string Value :=
  collect_pairs (omap (fun k => (fun v => (k, v)) <$> data s !! k) ks).

Definition set_many `{HashOrder} (s : SharedStateManager) (pairs : gmap string Value) : SharedStateManager :=
  let d := foldl (fun d '(k, v) => <[k := v]> d) (data s) (hash_iter pairs) in
  raise_peak (count_kv (size pairs) (set_data s d)).

Definition update (s : SharedStateManager) (key : string) (f : option Value -> Value) :
    SharedStateManager * option Value :=
  let new_value := f (data s !! key) in
  (count_kv 1 (set_data s (<[key := new_value]> (data s))), Some new_value).

(** The value [increment] counts from. *)
Definition number_at (s : SharedStateManager) (key : string) : f64 :=
  default f64_zero (data s !! key ≫= as_f64).

Definition increment (s : SharedStateManager) (key : string) (amount : f64) : SharedStateManager * f64 :=
  let new_value := f64_add (number_at s key) amount in
  (count_kv 1 (set_data s (<[key := json_f64 new_value]> (data s))), new_value).

(** ** Progress *)

(** [subscribe_progress]: one more receiver. *)
Definition subscribe_progress (s : SharedStateManager) : SharedStateManager :=
  mkManager (data s) (sent s) (S (receivers s)) (results s) (metrics s).

Definition count_broadcast (s : SharedStateManager) : SharedStateManager :=
  let m := metrics s in
  set_metrics s (mkMetrics (kv_operations m) (add64 (progress_broadcasts m) 1) (results_stored m)
    (peak_key_count m) (subscriber_count m)).

Definition send_event (s : SharedStateManager) (e : ProgressEvent) : SharedStateManager :=
  mkManager (data s) (sent s ++ [e])%list (receivers s) (results s) (metrics s).

Definition broadcast_progress (s : SharedStateManager) (agent_id message : string) (progress : f64)
    (now : string) : SharedStateManager :=
  count_broadcast (send_event s (event_new agent_id message progress now)).

Definition broadcast_progress_with_data (s : SharedStateManager) (agent_id message : string) (progress : f64)
    (d : Value) (now : string) : SharedStateManager :=
  count_broadcast (send_event s (with_data (event_new agent_id message progress now) d)).

(** ** Results *)

(** [results.extend(new)] with [metrics.results_stored += new.len()]. *)
Definition store_results (s : SharedStateManager) (new : list AgentResultForMerge) : SharedStateManager :=
  let m := metrics s in
  set_metrics (set_results s (results s ++ new)%list)
    (mkMetrics (kv_operations m) (progress_broadcasts m)
       (add64 (results_stored m) (Z.of_nat (length new))) (peak_key_count m) (subscriber_count m)).

Definition store_result (s : SharedStateManager) (r : AgentResultForMerge) : SharedStateManager :=
  store_results s [r].

Definition clear_results (s : SharedStateManager) : SharedStateManager := set_results s [].

(** [format!("[{}] {}", r.agent_id, r.text)]. *)
Definition result_line (r : AgentResultForMerge) : string := "[" +:+ agent_id r +:+ "] " +:+ text r.

Definition merge_concat (l : list AgentResultForMerge) : string :=
  String.concat separator (result_line <$> l).

(** The object an entry of the JSON array is. *)
Definition result_json (r : AgentResultForMerge) : Value :=
  json_object [("agent_id", json_string (agent_id r)); ("text", json_string (text r));
    ("success", json_bool (r_success r)); ("tokens", json_int (tokens r));
    ("cost_usd", json_f64 (cost_usd r)); ("duration_ms", json_int (duration_ms r))].

Definition merge_json_array (l : list AgentResultForMerge) : string :=
  default "[]" (to_string_pretty (json_array (result_json <$> l))).

(** [iter().sum::<u64>()], wrapping. *)
Definition sum_u64 (l : list Z) : Z := foldl add64 0 l.

Definition merge_summarize (l : list AgentResultForMerge) : string :=
  let successful := retain r_success l in
  let failed := retain (fun r => negb (r_success r)) l in
  "# Team Results Summary" +:+ newline +:+ newline
  +:+ "Total agents: " +:+ show_nat (length l) +:+ newline
  +:+ "Successful: " +:+ show_nat (length successful) +:+ newline
  +:+ "Failed: " +:+ show_nat (length failed) +:+ newline
  +:+ "Total tokens: " +:+ show_Z (sum_u64 (tokens <$> l)) +:+ newline
  +:+ "Total cost: $" +:+ fmt_fixed 4 (f64_sum (cost_usd <$> l)) +:+ newline +:+ newline
  +:+ (if Nat.eqb (length successful) 0 then "" else
         "## Successful Results" +:+ newline +:+ newline
         +:+ String.concat "" ((fun r => "### Agent: " +:+ agent_id r +:+ newline
                                         +:+ text r +:+ newline +:+ newline) <$> successful))
  +:+ (if Nat.eqb (length failed) 0 then "" else
         "## Failed Agents" +:+ newline +:+ newline
         +:+ String.concat "" ((fun r => "- " +:+ agent_id r +:+ ": " +:+ text r +:+ newline) <$> failed)).

Definition merge_first (l : list AgentResultForMerge) : string := default "" (text <$> head l).

Definition merge_last (l : list AgentResultForMerge) : string := default "" (text <$> last l).

Definition merge_success_only (l : list AgentResultForMerge) : string :=
  String.concat separator (result_line <$> retain r_success l).

Definition merge_custom (l : list AgentResultForMerge) (handler : string) : string := merge_concat l.

Definition merge_with_strategy (l : list AgentResultForMerge) (strategy : MergeStrategy) : MergedResults :=
  let t := match strategy with
           | Concat => merge_concat l
           | JsonArray => merge_json_array l
           | Summarize => merge_summarize l
           | FirstOnly => merge_first l
           | LastOnly => merge_last l
           | SuccessOnly => merge_success_only l
           | Custom name => merge_custom l name
           end in
  let successes := length (retain r_success l) in
  mkMerged t strategy (length l) (sum_u64 (tokens <$> l)) (f64_sum (cost_usd <$> l))
    (sum_u64 (duration_ms <$> l)) successes (length l - successes) l.

Definition merge_results (s : SharedStateManager) (strategy : MergeStrategy) : MergedResults :=
  merge_with_strategy (results s) strategy.

(** ** Metrics, export and import *)

Definition get_metrics (s : SharedStateManager) : SharedStateManager * SharedMetrics :=
  let m := metrics s in
  let m' := mkMetrics (kv_operations m) (progress_broadcasts m) (results_stored m) (peak_key_count m)
              (receivers s) in
  (set_metrics s m', m').

(** A map as a JSON object, whose keys the library keeps sorted. *)
Definition map_json (m : gmap string Value) : Value :=
  json_object (sort_by (fun a b => str_leb a.1 b.1) (map_to_list m)).

(** The derived [Serialize] of a result: empty metadata is left out. *)
Definition result_encode (r : AgentResultForMerge) : Value :=
  json_object ([("agent_id", json_string (agent_id r)); ("text", json_string (text r));
    ("success", json_bool (r_success r)); ("tokens", json_int (tokens r));
    ("cost_usd", json_f64 (cost_usd r)); ("duration_ms", json_int (duration_ms r))]
    ++ (if Nat.eqb (size (metadata r)) 0 then [] else [("metadata", map_json (metadata r))])).

Definition metrics_encode (m : SharedMetrics) : Value :=
  json_object [("kv_operations", json_int (kv_operations m));
    ("progress_broadcasts", json_int (progress_broadcasts m));
    ("results_stored", json_int (results_stored m));
    ("peak_key_count", json_int (Z.of_nat (peak_key_count m)));
    ("subscriber_count", json_int (Z.of_nat (subscriber_count m)))].

(** The derived [Deserialize] of a map: any object. *)
Definition map_decode (v : Value) : option (gmap string Value) := collect_pairs <$> as_object v.

(** The fields of a result, wherever they come from. *)
Definition result_of (vid vtext vsucc vtok vcost vdur : option Value) (vmeta : option Value) :
    option AgentResultForMerge :=
  id ← vid ≫= as_str; t ← vtext ≫= as_str; ok ← vsucc ≫= as_bool; tok ← vtok ≫= as_u64;
  cost ← vcost ≫= as_f64; dur ← vdur ≫= as_u64;
  meta ← (match vmeta with None => Some ∅ | Some v => map_decode v end);
  Some (mkResult id t ok tok cost dur meta).

(** The derived [Deserialize] of a result: an object, whose other keys are
    ignored, or an array with the fields in order, the metadata optional. *)
Definition result_decode (v : Value) : option AgentResultForMerge :=
  match as_array v with
  | Some l =>
      if Nat.leb (length l) 7 then
        result_of (l !! 0%nat) (l !! 1%nat) (l !! 2%nat) (l !! 3%nat) (l !! 4%nat) (l !! 5%nat) (l !! 6%nat)
      else None
  | None =>
      match as_object v with
      | Some _ =>
          result_of (json_get v "agent_id") (json_get v "text") (json_get v "success") (json_get v "tokens")
            (json_get v "cost_usd") (json_get v "duration_ms") (json_get v "metadata")
      | None => None
      end
  end.

Definition export (s : SharedStateManager) : SharedStateManager * Value :=
  let (s', m) := get_metrics s in
  (s', json_object [("data", map_json (data s)); ("results", json_array (result_encode <$> results s));
                    ("metrics", metrics_encode m)]).

Definition import (s : SharedStateManager) (json : Value) : SharedStateManager * result unit string :=
  let s1 := match json_get json "data" ≫= as_object with
            | Some fields => set_data s (collect_pairs fields)
            | None => s
            end in
  let s2 := match json_get json "results" ≫= as_array with
            | Some l => set_results s1 (omap result_decode l)
            | None => s1
            end in
  (s2, Ok tt).

(** ** What the store promises

    A client may think of the store as a function from keys to values. *)

Inductive KvOp :=
| KSet (key : string) (value : Value)
| KGet (key : string)
| KContains (key : string)
| KRemove (key : string)
| KKeys
| KLen
| KIsEmpty
| KClear
| KGetMany (ks : list string)
| KSetMany (pairs : gmap string Value)
| KUpdate (key : string) (f : option Value -> Value)
| KIncrement (key : string) (amount : f64).

Inductive Answer :=
| ADone
| AValue (v : option Value)
| ABool (b : bool)
| ANumber (x : f64)
| AKeys (ks : list string)
| ACount (n : nat)
| AMap (m : gmap string Value).

Section Store.
Context `{HashOrder}.

Definition perform (s : SharedStateManager) (o : KvOp) : SharedStateManager * Answer :=
  match o with
  | KSet k v => (set s k v, ADone)
  | KGet k => let (s', v) := get s k in (s', AValue v)
  | KContains k => let (s', b) := contains s k in (s', ABool b)
  | KRemove k => let (s', v) := remove s k in (s', AValue v)
  | KKeys => (s, AKeys (keys s))
  | KLen => (s, ACount (len s))
  | KIsEmpty => (s, ABool (store_is_empty s))
  | KClear => (clear s, ADone)
  | KGetMany ks => (s, AMap (get_many s ks))
  | KSetMany pairs => (set_many s pairs, ADone)
  | KUpdate k f => let (s', v) := update s k f in (s', AValue v)
  | KIncrement k x => let (s', y) := increment s k x in (s', ANumber y)
  end.

Fixpoint perform_all (s : SharedStateManager) (h : list KvOp) : SharedStateManager * list Answer :=
  match h with
  | [] => (s, [])
  | o :: h' => let (s1, a) := perform s o in let (s2, l) := perform_all s1 h' in (s2, a :: l)
  end.

Definition Contents := string -> option Value.

Definition assign (c : Contents) (key : string) (v : option Value) : Contents :=
  fun k => if String.eqb k key then v else c k.

(** The contents after an operation. *)
Definition spec_contents (c : Contents) (o : KvOp) : Contents :=
  match o with
  | KSet k v => assign c k (Some v)
  | KRemove k => assign c k None
  | KClear => fun _ => None
  | KSetMany pairs => fun k => match pairs !! k with Some v => Some v | None => c k end
  | KUpdate k f => assign c k (Some (f (c k)))
  | KIncrement k x => assign c k (Some (json_f64 (f64_add (default f64_zero (c k ≫= as_f64)) x)))
  | _ => c
  end.

(** The keys in use, each once. *)
Definition lists_keys (c : Contents) (ks : list string) : Prop :=
  NoDup ks /\ forall k, k ∈ ks <-> is_Some (c k).

(** The answers the contents before the operation allow. *)
Definition spec_answer (c : Contents) (o : KvOp) (a : Answer) : Prop :=
  match o with
  | KSet _ _ | KClear | KSetMany _ => a = ADone
  | KGet k | KRemove k => a = AValue (c k)
  | KContains k => a = ABool (is_some (c k))
  | KKeys => exists ks, a = AKeys ks /\ lists_keys c ks
  | KLen => exists ks, a = ACount (length ks) /\ lists_keys c ks
  | KIsEmpty => exists b, a = ABool b /\ (b = true <-> forall k, c k = None)
  | KGetMany ks => exists m, a = AMap m /\ forall k, m !! k = if bool_decide (k ∈ ks) then c k else None
  | KUpdate k f => a = AValue (Some (f (c k)))
  | KIncrement k x => a = ANumber (f64_add (default f64_zero (c k ≫= as_f64)) x)
  end.

Fixpoint spec_answers (c : Contents) (h : list KvOp) (l : list Answer) : Prop :=
  match h, l with
  | [], [] => True
  | o :: h', a :: l' => spec_answer c o a /\ spec_answers (spec_contents c o) h' l'
  | _, _ => False
  end.

Lemma data_count_kv n s : data (count_kv n s) = data s.
Proof. done. Qed.

Lemma data_raise_peak s : data (raise_peak s) = data s.
Proof. unfold raise_peak. by case_match. Qed.

Lemma data_set s k v : data (set s k v) = <[k := v]> (data s).
Proof. unfold set. by rewrite data_raise_peak. Qed.

(** A loop of insertions, one per entry of a list without repeated keys. *)
Lemma insert_all_lookup {A} (l : list (string * A)) (d : gmap string A) k :
  NoDup l.*1 ->
  foldl (fun d '(k, v) => <[k := v]> d) d l !! k
  = match list_to_map (M := gmap string A) l !! k with Some v => Some v | None => d !! k end.
Proof.
  revert d. induction l as [|[k0 v] l IH]; intros d; csimpl; [by rewrite lookup_empty|].
  intros [Hk Hnd]%NoDup_cons. rewrite IH by done. destruct (decide (k0 = k)) as [->|Hne].
  - rewrite lookup_insert_eq. by rewrite (not_elem_of_list_to_map_1 _ _ Hk), lookup_insert_eq.
  - by rewrite !lookup_insert_ne by done.
Qed.

Lemma data_set_many s pairs k :
  data (set_many s pairs) !! k = match pairs !! k with Some v => Some v | None => data s !! k end.
Proof.
  unfold set_many. rewrite data_raise_peak, data_count_kv. simpl.
  assert (Hnd : NoDup (hash_iter pairs).*1) by apply NoDup_hash_keys.
  rewrite insert_all_lookup by done.
  rewrite (list_to_map_proper _ _ Hnd (hash_iter_perm pairs)).
  by rewrite list_to_map_to_list.
Qed.

Lemma collect_pairs_lookup {A} (l : list (string * A)) k :
  NoDup l.*1 -> collect_pairs l !! k = list_to_map (M := gmap string A) l !! k.
Proof. intros Hnd. unfold collect_pairs. rewrite insert_all_lookup by done. rewrite lookup_empty. by case_match. Qed.

Lemma if_decide_ext {A} (P Q : Prop) `{!Decision P, !Decision Q} (x y : A) :
  (P <-> Q) -> (if bool_decide P then x else y) = (if bool_decide Q then x else y).
Proof. intros HPQ. by rewrite (bool_decide_ext P Q HPQ). Qed.

(** The pairs of [get_many] agree with the store, so repeated keys are harmless. *)
Lemma get_many_lookup s ks k :
  get_many s ks !! k = if bool_decide (k ∈ ks) then data s !! k else None.
Proof.
  unfold get_many, collect_pairs. set (f := fun k => (fun v => (k, v)) <$> data s !! k).
  assert (Hgen : forall d : gmap string Value, foldl (fun m '(k, v) => <[k := v]> m) d (omap f ks) !! k
                 = if bool_decide (k ∈ ks /\ is_Some (data s !! k)) then data s !! k else d !! k).
  { induction ks as [|k0 ks IH]; intros d.
    - rewrite bool_decide_eq_false_2; [done|]. by intros [?%not_elem_of_nil _].
    - rewrite omap_cons. unfold f at 1. destruct (data s !! k0) as [v|] eqn:Hv; simpl; rewrite IH.
      + destruct (decide (k = k0)) as [->|Hne].
        * rewrite lookup_insert_eq. rewrite (bool_decide_eq_true_2 (k0 ∈ k0 :: ks /\ _)) by (rewrite Hv; split; [left|done]).
          case_match; [done|by rewrite Hv].
        * rewrite lookup_insert_ne by done. apply if_decide_ext. rewrite elem_of_cons. naive_solver.
      + apply if_decide_ext. rewrite elem_of_cons. split; [naive_solver|].
        intros [[->|Hin] [v Hs]]; [congruence|naive_solver]. }
  rewrite Hgen, lookup_empty. repeat case_bool_decide; try naive_solver.
  destruct (data s !! k) eqn:Hk; [|done]. naive_solver.
Qed.

(** The store of a state shows the contents [c]. *)
Definition shows (s : SharedStateManager) (c : Contents) : Prop := forall k, data s !! k = c k.

Lemma keys_listed s c : shows s c -> lists_keys c (keys s).
Proof.
  intros Hc. split; [apply NoDup_hash_keys|]. intros k. unfold keys. by rewrite elem_of_hash_keys, Hc.
Qed.

Lemma assigned s c k v k' :
  shows s c -> <[k := v]> (data s) !! k' = assign c k (Some v) k'.
Proof.
  intros Hc. unfold assign. destruct (String.eqb_spec k' k) as [->|Hne]; [apply lookup_insert_eq|].
  by rewrite lookup_insert_ne.
Qed.

(** One operation: its answer is allowed and the store shows the new contents. *)
Lemma perform_refines s c o :
  shows s c -> spec_answer c o (perform s o).2 /\ shows (perform s o).1 (spec_contents c o).
Proof.
  intros Hc. destruct o as [k v|k|k|k| | | | |ks|pairs|k f|k x]; simpl; split; rewrite <- ?Hc; try done.
  - intros k'. rewrite data_set. by apply assigned.
  - intros k'. simpl. unfold assign. destruct (String.eqb_spec k' k) as [->|Hne];
      [apply lookup_delete_eq|by rewrite lookup_delete_ne].
  - eexists. split; [done|by apply keys_listed].
  - exists (keys s). split; [by unfold len, keys; rewrite length_hash_keys|by apply keys_listed].
  - eexists. split; [done|]. unfold store_is_empty. rewrite Nat.eqb_eq, map_size_empty_iff. split.
    + intros Hd k. by rewrite <- Hc, Hd, lookup_empty.
    + intros Hn. apply map_empty. intros k. by rewrite Hc.
  - eexists. split; [done|]. intros k. by rewrite get_many_lookup, Hc.
  - intros k. by rewrite data_set_many, Hc.
  - intros k'. by apply assigned.
  - intros k'. by apply assigned.
Qed.

(** The shared store is a map: over every history of operations on
    a new store, whatever the order of its hash maps, each answer is the one a
    function from keys to values allows.  A key holds what was last assigned,
    updated or counted up for it, and nothing once it was removed or the store
    cleared; several keys read at once are each answered for themselves; the
    keys listed are the keys in use, each once; several assignments at once
    change those keys and no other. *)
Theorem store_refines_map h :
  spec_answers (fun _ => None) h (perform_all manager_new h).2.
Proof.
  assert (Hgen : forall s c, shows s c -> spec_answers c h (perform_all s h).2).
  { induction h as [|o h IH]; intros s c Hc; [done|]. simpl.
    pose proof (perform_refines s c o Hc) as [Ha Hs]. destruct (perform s o) as [s1 a].
    specialize (IH s1 _ Hs). destruct (perform_all s1 h) as [s2 l]. by split. }
  apply Hgen. intros k. apply lookup_empty.
Qed.

(** ** The metrics *)

(** Operations that count themselves, and by how much. *)
Definition counted (o : KvOp) : nat :=
  match o with
  | KKeys | KLen | KIsEmpty | KClear | KGetMany _ => 0
  | KSetMany pairs => size pairs
  | _ => 1
  end.

Lemma wrap64_add a b : wrap64 (wrap64 a + b) = wrap64 (a + b).
Proof. unfold wrap64. by rewrite Z.add_mod_idemp_l. Qed.

Lemma kv_raise_peak s : kv_operations (metrics (raise_peak s)) = kv_operations (metrics s).
Proof. unfold raise_peak. by case_match. Qed.

Lemma perform_counts s o :
  kv_operations (metrics s) = wrap64 (kv_operations (metrics s)) ->
  kv_operations (metrics (perform s o).1) = wrap64 (kv_operations (metrics s) + Z.of_nat (counted o)).
Proof.
  intros Hw. destruct o; simpl; rewrite ?Z.add_0_r; try done; unfold set, set_many; by rewrite kv_raise_peak.
Qed.

(** The counter of operations is their number modulo [2^64]. *)
Lemma operations_counted h :
  kv_operations (metrics (perform_all manager_new h).1)
  = wrap64 (Z.of_nat (sum_list_with counted h)).
Proof.
  assert (Hgen : forall s n, kv_operations (metrics s) = wrap64 n ->
    kv_operations (metrics (perform_all s h).1) = wrap64 (n + Z.of_nat (sum_list_with counted h))).
  { induction h as [|o h IH]; intros s n Hn; simpl; [by rewrite Z.add_0_r|].
    pose proof (perform_counts s o) as Hp. destruct (perform s o) as [s1 a]. simpl in Hp.
    specialize (IH s1 (n + Z.of_nat (counted o))). destruct (perform_all s1 h) as [s2 l]. simpl in *.
    rewrite IH; [f_equal; lia|]. rewrite Hp; [by rewrite Hn, wrap64_add|].
    rewrite Hn. unfold wrap64. by rewrite Z.mod_mod. }
  apply (Hgen manager_new 0). done.
Qed.

(** Operations after which the peak is looked at, or that add no key. *)
Definition watches_peak (o : KvOp) : bool :=
  match o with KUpdate _ _ | KIncrement _ _ => false | _ => true end.

(** The number of keys after each operation of a history. *)
Fixpoint sizes (s : SharedStateManager) (h : list KvOp) : list nat :=
  match h with
  | [] => []
  | o :: h' => let s1 := (perform s o).1 in size (data s1) :: sizes s1 h'
  end.

Lemma raise_peak_max s :
  peak_key_count (metrics (raise_peak s)) = Nat.max (peak_key_count (metrics s)) (size (data s)).
Proof.
  unfold raise_peak. destruct (Nat.ltb_spec (peak_key_count (metrics s)) (size (data s))); simpl; lia.
Qed.

Lemma size_delete_le (d : gmap string Value) k : (size (delete k d) <= size d)%nat.
Proof.
  destruct (d !! k) eqn:Hk; [|by rewrite delete_id].
  rewrite map_size_delete_Some; [lia|by eexists].
Qed.

Lemma perform_peak s o :
  watches_peak o = true -> (size (data s) <= peak_key_count (metrics s))%nat ->
  peak_key_count (metrics (perform s o).1)
  = Nat.max (peak_key_count (metrics s)) (size (data (perform s o).1)).
Proof.
  intros Hw Hp. destruct o as [k v|k|k|k| | | | |ks|pairs|k f|k x]; simpl; try lia; try done.
  - unfold set. by rewrite raise_peak_max, data_raise_peak.
  - pose proof (size_delete_le (data s) k). lia.
  - rewrite map_size_empty. lia.
  - unfold set_many. by rewrite raise_peak_max, data_raise_peak.
Qed.

(** The peak is the greatest number of keys the store ever held, as long as
    nothing is updated or counted up. *)
Lemma peak_is_maximum h :
  forallb watches_peak h = true ->
  peak_key_count (metrics (perform_all manager_new h).1) = max_list (sizes manager_new h).
Proof.
  assert (Hgen : forall s, (size (data s) <= peak_key_count (metrics s))%nat -> forallb watches_peak h = true ->
    peak_key_count (metrics (perform_all s h).1) = Nat.max (peak_key_count (metrics s)) (max_list (sizes s h))).
  { induction h as [|o h IH]; intros s Hs; simpl; [lia|]. intros [Ho Hh]%andb_true_iff.
    pose proof (perform_peak s o Ho Hs) as Hp. destruct (perform s o) as [s1 a]. simpl in *.
    specialize (IH s1 ltac:(lia) Hh). destruct (perform_all s1 h) as [s2 l]. simpl in *. lia. }
  intros Hh. rewrite Hgen; [done|done|done].
Qed.
End Store.

(** ** Merging *)

Lemma foldl_add64 l a : foldl add64 (wrap64 a) l = wrap64 (a + foldr Z.add 0 l).
Proof.
  revert a. induction l as [|x l IH]; intros a; simpl; [by rewrite Z.add_0_r|].
  unfold add64 at 2. rewrite wrap64_add, IH. f_equal. lia.
Qed.

Lemma sum_u64_wrap l : sum_u64 l = wrap64 (foldr Z.add 0 l).
Proof. apply (foldl_add64 l 0). Qed.

#[export] Instance sum_u64_perm : Proper ((≡ₚ) ==> eq) sum_u64.
Proof.
  intros l1 l2 Hp. rewrite !sum_u64_wrap. f_equal. induction Hp; simpl; try done; lia.
Qed.

(** The numbers of a merge do not depend on how agents finish:
    whatever the strategy and the order in which the results came in, the
    counts of results, successes and failures are the same and add up, and the
    tokens and durations are the sums over all results modulo [2^64]. *)
Theorem merge_counts_everything l1 l2 st1 st2 :
  l1 ≡ₚ l2 ->
  let m1 := merge_with_strategy l1 st1 in
  let m2 := merge_with_strategy l2 st2 in
  (m_count m1 = m_count m2 /\ success_count m1 = success_count m2 /\ failure_count m1 = failure_count m2
   /\ total_tokens m1 = total_tokens m2 /\ total_duration_ms m1 = total_duration_ms m2)
  /\ (success_count m1 + failure_count m1 = m_count m1)%nat
  /\ (failure_count m1 = length (retain (fun r => negb (r_success r)) l1))%nat
  /\ total_tokens m1 = (foldr Z.add 0 (tokens <$> l1)) mod 2 ^ 64
  /\ total_duration_ms m1 = (foldr Z.add 0 (duration_ms <$> l1)) mod 2 ^ 64.
Proof.
  intros Hp. simpl.
  assert (Hs : length (retain r_success l1) = length (retain r_success l2)) by (by apply Permutation_length, filter_perm).
  pose proof (retain_length_split r_success l1) as Hsplit. pose proof (Permutation_length Hp) as Hlen.
  change (retain (negb ∘ r_success) l1) with (retain (fun r => negb (r_success r)) l1) in Hsplit.
  repeat split; [lia|lia|lia|by rewrite Hp|by rewrite Hp|lia|lia|apply sum_u64_wrap|apply sum_u64_wrap].
Qed.

(** ** Export and import *)

Section RoundTrip.
Context {JL : @JsonLaws J}.
Hypothesis as_object_fields : forall fs, NoDup fs.*1 -> exists fs', as_object (json_object fs) = Some fs' /\ fs' ≡ₚ fs.
Hypothesis as_u64_int : forall n, is_u64 n -> as_u64 (json_int n) = Some n.
Hypothesis as_f64_f64 : forall x, f64_is_finite x = true -> as_f64 (json_f64 x) = Some x.

(** A result whose numbers fit their types and whose cost is a number. *)
Definition result_fits (r : AgentResultForMerge) : Prop :=
  is_u64 (tokens r) /\ is_u64 (duration_ms r) /\ f64_is_finite (cost_usd r) = true.

Lemma map_decode_json (m : gmap string Value) : map_decode (map_json m) = Some m.
Proof.
  unfold map_decode, map_json.
  set (l := sort_by (fun a b => str_leb a.1 b.1) (map_to_list m)).
  assert (Hp : l ≡ₚ map_to_list m) by apply sort_by_perm.
  assert (Hnd : NoDup l.*1) by (rewrite Hp; apply NoDup_fst_map_to_list).
  destruct (as_object_fields l Hnd) as (fs & -> & Hfs). simpl. f_equal. apply map_eq. intros k.
  assert (Hnd' : NoDup fs.*1) by (by rewrite Hfs).
  rewrite collect_pairs_lookup by done.
  rewrite (list_to_map_proper _ _ Hnd' (Permutation_trans Hfs Hp)). by rewrite list_to_map_to_list.
Qed.

Lemma result_decode_encode r : result_fits r -> result_decode (result_encode r) = Some r.
Proof.
  intros (Ht & Hd & Hc). unfold result_decode, result_encode. rewrite as_array_object.
  set (fs := (_ ++ _)%list).
  assert (Hnd : NoDup fs.*1) by (unfold fs; case_match; simpl; apply (bool_decide_unpack _); vm_compute; exact I).
  pose proof (as_object_object fs) as Ho. destruct (as_object (json_object fs)); [|done].
  rewrite !json_get_object by done. unfold fs.
  destruct r as [id t ok tok cost dur meta]. simpl in *.
  unfold result_of. simpl. rewrite !as_str_string, as_bool_bool, !as_u64_int, as_f64_f64 by done. simpl.
  destruct (Nat.eqb_spec (size meta) 0) as [Hm|Hm]; simpl.
  - apply map_size_empty_iff in Hm. by rewrite Hm.
  - by rewrite map_decode_json.
Qed.

(** What is exported is imported again: the exported value of any
    state whose results have numbers that fit, read into any other state, gives
    that state the keys with their values and the results in order, and leaves
    its metrics and its reports alone. *)
Theorem export_import_roundtrip s s0 :
  Forall result_fits (results s) ->
  import s0 (export s).2 = (set_results (set_data s0 (data s)) (results s), Ok tt).
Proof.
  intros Hr. unfold import, export. simpl.
  rewrite !json_get_object by (apply (bool_decide_unpack _); vm_compute; exact I). simpl.
  pose proof (map_decode_json (data s)) as Hd. unfold map_decode in Hd.
  destruct (as_object (map_json (data s))) as [fs|]; [|done]. simpl in Hd. injection Hd as ->.
  rewrite as_array_array.
  replace (omap result_decode (result_encode <$> results s)) with (results s); [done|].
  induction Hr as [|r l Hf _ IH]; [done|]. rewrite fmap_cons, omap_cons, result_decode_encode by done.
  by rewrite <- IH.
Qed.
End RoundTrip.
End State.

(** ** The locks

    The store, the results and the metrics each have a lock of their own.  An
    operation is the list of its lock steps; guards are dropped in reverse
    order when they go out of scope. *)

Inductive Lock := LData | LResults | LMetrics.
Inductive Mode := Shared | Exclusive.
Inductive LockStep := Acquire (l : Lock) (m : Mode) | Release (l : Lock).

#[export] Instance Lock_eq_dec : EqDecision Lock.
Proof. solve_decision. Defined.

Definition rank (l : Lock) : nat := match l with LData => 0 | LResults => 1 | LMetrics => 2 end.

(** [set], [remove], [set_many], [update], [increment]. *)
Definition locks_kv_write : list LockStep :=
  [Acquire LData Exclusive; Acquire LMetrics Exclusive; Release LMetrics; Release LData].

(** [get], [contains]. *)
Definition locks_kv_read : list LockStep :=
  [Acquire LData Shared; Acquire LMetrics Exclusive; Release LMetrics; Release LData].

(** [keys], [len], [is_empty], [get_many]. *)
Definition locks_kv_look : list LockStep := [Acquire LData Shared; Release LData].

Definition locks_clear : list LockStep := [Acquire LData Exclusive; Release LData].

(** [broadcast_progress], [broadcast_progress_with_data], [get_metrics]. *)
Definition locks_metrics : list LockStep := [Acquire LMetrics Exclusive; Release LMetrics].

(** [store_result], [store_results]. *)
Definition locks_store : list LockStep :=
  [Acquire LResults Exclusive; Acquire LMetrics Exclusive; Release LMetrics; Release LResults].

(** [get_results], [merge_results]. *)
Definition locks_results : list LockStep := [Acquire LResults Shared; Release LResults].

Definition locks_clear_results : list LockStep := [Acquire LResults Exclusive; Release LResults].

(** [export], which calls [get_metrics] while it holds two locks. *)
Definition locks_export : list LockStep :=
  ([Acquire LData Shared; Acquire LResults Shared] ++ locks_metrics ++ [Release LResults; Release LData])%list.

(** [import]: each guard lives in the block of its [if let], and is taken only
    if the document has the field. *)
Definition locks_import (has_data has_results : bool) : list LockStep :=
  ((if has_data then locks_clear else []) ++ (if has_results then locks_clear_results else []))%list.

Definition plans : list (list LockStep) :=
  [locks_kv_write; locks_kv_read; locks_kv_look; locks_clear; locks_metrics; locks_store; locks_results;
   locks_clear_results; locks_export; locks_import true true; locks_import true false; locks_import false true;
   locks_import false false].

(** A list of lock steps is disciplined for a caller that holds [held], the
    latest first: each lock it takes is above all it holds, guards are dropped
    in reverse order, and none is held at the end. *)
Fixpoint disciplined (held : list Lock) (steps : list LockStep) : bool :=
  match steps with
  | [] => Nat.eqb (length held) 0
  | Acquire l _ :: rest => forallb (fun h => Nat.ltb (rank h) (rank l)) held && disciplined (l :: held) rest
  | Release l :: rest =>
      match held with
      | h :: held' => bool_decide (h = l) && disciplined held' rest
      | [] => false
      end
  end.

(** An agent: the lock steps of the operations it still has to run, whether it
    waits for the first of them, and the locks it holds. *)
Record Agent := mkAgent {
  steps : list LockStep;
  waiting : bool;
  held : list Lock
}.

(** The lock an agent waits for. *)
Definition waits_for (a : Agent) : option Lock :=
  match steps a with
  | Acquire l _ :: _ => if waiting a then Some l else None
  | _ => None
  end.

Definition holds (l : Lock) (a : Agent) : bool := bool_decide (l ∈ held a).

Section Locks.

(** Whom the library lets in: [grants agents l i] says that agent [i], waiting
    for [l], may have it now.  It documents that a lock nobody holds is given
    to some agent that waits for it. *)
Variable grants : list Agent -> Lock -> nat -> Prop.
Hypothesis free_lock_granted : forall agents l,
  (exists i a, agents !! i = Some a /\ waits_for a = Some l) ->
  (forall i a, agents !! i = Some a -> holds l a = false) ->
  exists i a, agents !! i = Some a /\ waits_for a = Some l /\ grants agents l i.

Inductive lock_step (agents : list Agent) : list Agent -> Prop :=
| step_ask i a l m rest :
    agents !! i = Some a -> steps a = Acquire l m :: rest -> waiting a = false ->
    lock_step agents (<[i := mkAgent (steps a) true (held a)]> agents)
| step_granted i a l m rest :
    agents !! i = Some a -> steps a = Acquire l m :: rest -> waiting a = true -> grants agents l i ->
    lock_step agents (<[i := mkAgent rest false (l :: held a)]> agents)
| step_release i a l rest h :
    agents !! i = Some a -> steps a = Release l :: rest -> held a = l :: h ->
    lock_step agents (<[i := mkAgent rest false h]> agents).

(** Every agent starts with a sequence of operations and no lock. *)
Definition starts (a : Agent) : Prop :=
  held a = [] /\ waiting a = false /\ exists ops, Forall (fun o => o ∈ plans) ops /\ steps a = concat ops.

Definition ready_agent (a : Agent) : Prop := disciplined (held a) (steps a) = true.

Lemma disciplined_app h o rest :
  disciplined h o = true -> disciplined [] rest = true -> disciplined h (o ++ rest) = true.
Proof.
  revert h. induction o as [|[l m|l] o IH]; intros h; simpl; intros Ho Hr.
  - apply Nat.eqb_eq in Ho. by destruct h.
  - bool_hyps. rewrite andb_true_iff. split; [done|by apply IH].
  - destruct h as [|l' h]; [done|]. bool_hyps. rewrite andb_true_iff. split; [by apply bool_decide_eq_true|by apply IH].
Qed.

Lemma plan_disciplined o : o ∈ plans -> disciplined [] o = true.
Proof. intros Ho. assert (Hall : forallb (disciplined []) plans = true) by reflexivity. rewrite forallb_elem in Hall. by apply Hall. Qed.

Lemma starts_ready a : starts a -> ready_agent a.
Proof.
  intros (Hh & _ & ops & Hops & Hs). unfold ready_agent. rewrite Hh, Hs. clear Hs.
  induction Hops as [|o ops Ho _ IH]; [done|]. simpl. apply disciplined_app; [by apply plan_disciplined|done].
Qed.

Lemma step_ready agents agents' :
  lock_step agents agents' -> Forall ready_agent agents -> Forall ready_agent agents'.
Proof.
  intros Hstep Hall. destruct Hstep as [i a l m rest Hi Hs Hw|i a l m rest Hi Hs Hw Hg|i a l rest h Hi Hs Hh];
    apply Forall_insert; try done; pose proof (Forall_lookup_1 _ _ _ _ Hall Hi) as Ha; unfold ready_agent in *; simpl.
  - done.
  - rewrite Hs in Ha. simpl in Ha. by bool_hyps.
  - rewrite Hs, Hh in Ha. simpl in Ha. by bool_hyps.
Qed.

(** An agent that is not waiting and has work left can move. *)
Lemma agent_moves agents i a :
  Forall ready_agent agents -> agents !! i = Some a -> steps a <> [] -> waits_for a = None ->
  exists agents', lock_step agents agents'.
Proof.
  intros Hall Hi Hs Hw. pose proof (Forall_lookup_1 _ _ _ _ Hall Hi) as Ha. unfold ready_agent in Ha.
  unfold waits_for in Hw. destruct (steps a) as [|[l m|l] rest] eqn:Hst; [done| |].
  - destruct (waiting a) eqn:Hwa; [done|]. eexists. by eapply step_ask.
  - simpl in Ha. destruct (held a) as [|l' h] eqn:Hh; [done|]. bool_hyps. subst l'. eexists. by eapply step_release.
Qed.

(** Some waiting agent waits for a lock no other waits above. *)
Lemma highest_waiter (agents : list Agent) i a l :
  agents !! i = Some a -> waits_for a = Some l ->
  exists i' a' l', agents !! i' = Some a' /\ waits_for a' = Some l' /\
    forall j b lb, agents !! j = Some b -> waits_for b = Some lb -> (rank lb <= rank l')%nat.
Proof.
  remember (3 - rank l)%nat as n eqn:Hn. assert (Hle : (3 - rank l <= n)%nat) by lia. clear Hn.
  revert i a l Hle. induction n as [|n IH]; intros i a l Hle Hi Hl; [destruct l; simpl in Hle; lia|].
  set (above := fun b => match waits_for b with Some lb => Nat.ltb (rank l) (rank lb) | None => false end).
  destruct (existsb above agents) eqn:Hab.
  - apply existsb_elem in Hab as (b & [j Hj]%list_elem_of_lookup & Hb). unfold above in Hb.
    destruct (waits_for b) as [lb|] eqn:Hwb; [|done]. bool_hyps. apply (IH j b lb); [lia|done|done].
  - exists i, a, l. repeat split; [done|done|]. intros j b lb Hj Hb.
    destruct (Nat.leb_spec (rank lb) (rank l)) as [|Hlt]; [done|].
    enough (existsb above agents = true) by congruence. apply existsb_elem. exists b.
    split; [by eapply list_elem_of_lookup_2|]. unfold above. rewrite Hb. by apply Nat.ltb_lt.
Qed.

(** The lock an agent waits for is above each lock it holds. *)
Lemma waits_above a l h :
  ready_agent a -> waits_for a = Some l -> h ∈ held a -> (rank h < rank l)%nat.
Proof.
  unfold ready_agent, waits_for. intros Ha Hw Hh.
  destruct (steps a) as [|[l' m|l'] rest]; [done| |done]. destruct (waiting a); [|done]. simplify_eq.
  simpl in Ha. bool_hyps. rewrite forallb_elem in *. by apply Nat.ltb_lt; auto.
Qed.

Lemma progress agents i a :
  Forall ready_agent agents -> agents !! i = Some a -> steps a <> [] ->
  exists agents', lock_step agents agents'.
Proof.
  intros Hall Hi Hs. destruct (waits_for a) as [l|] eqn:Hl; [|by eapply agent_moves].
  destruct (highest_waiter agents i a l Hi Hl) as (i1 & a1 & l1 & Hi1 & Hl1 & Hmax).
  destruct (existsb (holds l1) agents) eqn:Hheld.
  - apply existsb_elem in Hheld as (b & [j Hj]%list_elem_of_lookup & Hb%bool_decide_eq_true).
    pose proof (Forall_lookup_1 _ _ _ _ Hall Hj) as Hrb. apply (agent_moves agents j b); [done|done| |].
    + intros Hnil. unfold ready_agent in Hrb. rewrite Hnil in Hrb. simpl in Hrb.
      apply Nat.eqb_eq, nil_length_inv in Hrb. rewrite Hrb in Hb. by apply not_elem_of_nil in Hb.
    + destruct (waits_for b) as [lb|] eqn:Hlb; [|done].
      pose proof (waits_above b lb l1 Hrb Hlb Hb). pose proof (Hmax j b lb Hj Hlb). lia.
  - destruct (free_lock_granted agents l1) as (k & c & Hk & Hlc & Hg); [by exists i1, a1| |].
    + intros j b Hj. destruct (holds l1 b) eqn:Hb; [|done].
      enough (existsb (holds l1) agents = true) by congruence. apply existsb_elem. exists b.
      split; [by eapply list_elem_of_lookup_2|done].
    + unfold waits_for in Hlc. destruct (steps c) as [|[l' m|l'] rest] eqn:Hsc; [done| |done].
      destruct (waiting c) eqn:Hwc; [|done]. simplify_eq. eexists. by eapply step_granted.
Qed.

(** What is left to do: two for a lock to ask for, one for one asked for. *)
Definition work (a : Agent) : nat := 2 * length (steps a) - (if waiting a then 1 else 0).

Definition total_work (agents : list Agent) : nat := sum_list_with work agents.

Lemma sum_list_insert (agents : list Agent) i a a' :
  agents !! i = Some a -> (work a' < work a)%nat -> (total_work (<[i := a']> agents) < total_work agents)%nat.
Proof.
  revert i. unfold total_work. induction agents as [|b l IH]; intros [|i] Hi Hw; simplify_eq/=; [lia|].
  specialize (IH i Hi Hw). lia.
Qed.

Lemma step_works agents agents' : lock_step agents agents' -> (total_work agents' < total_work agents)%nat.
Proof.
  destruct 1 as [i a l m rest Hi Hs Hw|i a l m rest Hi Hs Hw Hg|i a l rest h Hi Hs Hh];
    apply (sum_list_insert _ i a); try done; unfold work; rewrite Hs; simpl; destruct (waiting a); simpl; lia || congruence.
Qed.

(** Claim C39. Agents never block each other for good: however many agents run
    operations on one manager, in whatever order the locks are granted, in any
    state they reach an agent with work left means some agent can take its
    next step, and no more steps happen than twice the lock steps of all
    operations.  So every run comes to its end with all operations done and
    all locks free. *)
Theorem operations_never_deadlock agents0 agents n :
  Forall starts agents0 ->
  nsteps lock_step n agents0 agents ->
  ((exists a, a ∈ agents /\ steps a <> []) -> exists agents', lock_step agents agents')
  /\ (n + total_work agents <= 2 * sum_list_with (fun a => length (steps a)) agents0)%nat
  /\ ((forall agents', ~ lock_step agents agents') -> Forall (fun a => steps a = [] /\ held a = []) agents).
Proof.
  intros Hst Hn.
  assert (Hready : Forall ready_agent agents).
  { assert (H0 : Forall ready_agent agents0) by (eapply Forall_impl; [exact Hst|apply starts_ready]).
    revert H0. clear Hst. induction Hn as [|n x y z Hxy _ IH]; [done|]. intros Hx. by eapply IH, step_ready. }
  assert (Hprog : (exists a, a ∈ agents /\ steps a <> []) -> exists agents', lock_step agents agents').
  { intros (a & [i Hi]%list_elem_of_lookup & Hs). by eapply progress. }
  split; [done|split].
  - assert (Hw : (n + total_work agents <= total_work agents0)%nat).
    { clear -Hn. induction Hn as [|n x y z Hxy _ IH]; [lia|]. apply step_works in Hxy. lia. }
    etransitivity; [done|]. clear. unfold total_work. induction agents0 as [|a l IH]; [done|].
    simpl. unfold work at 1. lia.
  - intros Hstuck. apply Forall_forall. intros a Ha. destruct (steps a) as [|o rest] eqn:Hs.
    + split; [done|]. rewrite Forall_forall in Hready. specialize (Hready a Ha). unfold ready_agent in Hready.
      rewrite Hs in Hready. simpl in Hready. by apply Nat.eqb_eq, nil_length_inv in Hready.
    + exfalso. destruct Hprog as [agents' Hs']; [exists a; split; [done|by rewrite Hs]|]. by apply (Hstuck agents').
Qed.
End Locks.

(** ** Witnesses and examples *)

(** A rendering of numbers within [flat]: what is not a number becomes [null]. *)
Definition flat_f64 (x : f64) : flat :=
  match x with
  | S754_zero s => FArr [FBool s]
  | S754_finite s m e => FArr [FBool s; FInt (Z.pos m); FInt e]
  | _ => FNull
  end.

Definition flat_as_f64 (v : flat) : option f64 :=
  match v with
  | FArr [FBool s] => Some (S754_zero s)
  | FArr [FBool s; FInt (Z.pos m); FInt e] => Some (S754_finite s m e)
  | FInt n => Some (f64_of_Z n)
  | _ => None
  end.

Definition demo_result : @AgentResultForMerge flat_json :=
  @mkResult flat_json "a" "found it" true 7 (f64_ratio 1 4) 30 {[ "note" := FStr "x" ]}.
Definition demo_failed : @AgentResultForMerge flat_json :=
  @mkResult flat_json "b" "timeout" false 5 (f64_ratio 1 2) 90 ∅.

Definition demo_manager : @SharedStateManager flat_json :=
  store_results (set (@manager_new flat_json) "k" (FInt 1 : @Value flat_json)) [demo_result; demo_failed].

Lemma merge_counts_everything_witness :
  total_tokens (@merge_with_strategy flat_json flat_f64 (fun _ => None) [demo_result; demo_failed] Concat) = 12.
Proof.
  pose proof (@merge_counts_everything flat_json flat_f64 (fun _ => None) [demo_result; demo_failed] [demo_failed; demo_result]
                Concat LastOnly (Permutation_swap _ _ _)) as (_ & _ & _ & Ht & _).
  exact Ht.
Defined.

Lemma export_import_roundtrip_witness :
  let s := @manager_new flat_json in
  data (@import flat_json flat_as_f64 s (@export flat_json flat_f64 demo_manager).2).1 = {[ "k" := FInt 1 ]}.
Proof.
  intros s. rewrite (@export_import_roundtrip flat_json flat_f64 flat_as_f64 flat_json_laws).
  - reflexivity.
  - intros fs _. by exists fs.
  - intros n Hn. unfold is_u64 in Hn. simpl. by rewrite (proj2 (Z.leb_le 0 n)), (proj2 (Z.leb_le n _)) by lia.
  - by intros [| |  |].
  - repeat constructor; vm_compute; congruence.
Defined.

(** Locks granted in the order of the agents, when free. *)
Definition first_waiting (agents : list Agent) (l : Lock) (i : nat) : Prop :=
  exists a, agents !! i = Some a /\ waits_for a = Some l /\ forall j b, agents !! j = Some b -> holds l b = false.

Lemma first_waiting_grants agents l :
  (exists i a, agents !! i = Some a /\ waits_for a = Some l) ->
  (forall i a, agents !! i = Some a -> holds l a = false) ->
  exists i a, agents !! i = Some a /\ waits_for a = Some l /\ first_waiting agents l i.
Proof. intros (i & a & Hi & Ha) Hfree. exists i, a. repeat split; try done. by exists a. Qed.

Definition demo_agents : list Agent := [mkAgent locks_export false []; mkAgent locks_kv_write false []].

(** The writer asks for the lock of the store: somebody can go on. *)
Lemma operations_never_deadlock_witness :
  exists agents', lock_step first_waiting (<[1%nat := mkAgent locks_kv_write true []]> demo_agents) agents'.
Proof.
  apply (operations_never_deadlock first_waiting first_waiting_grants demo_agents _ 1).
  - repeat constructor; [exists [locks_export]|exists [locks_kv_write]]; (split; [|done]); repeat constructor.
  - eapply nsteps_l; [|constructor]. by eapply (step_ask _ demo_agents 1 (mkAgent locks_kv_write false []) LData Exclusive).
  - eexists. split; [left|done].
Defined.

(** Counting up adds a key the peak never sees. *)
Example increment_hides_peak :
  let s := (@increment flat_json flat_f64 flat_as_f64 (@manager_new flat_json) "n" (f64_of_Z 1)).1 in
  (len s, peak_key_count (metrics s)) = (1%nat, 0%nat).
Proof. vm_compute. reflexivity. Qed.

(** A strategy that takes one result counts and charges them all. *)
Example first_only_counts_all :
  let m := @merge_results flat_json flat_f64 (fun _ => None) demo_manager FirstOnly in
  (m_text m, m_count m, total_tokens m) = ("found it", 2%nat, 12).
Proof. vm_compute. reflexivity. Qed.

(** A named strategy is a concatenation. *)
Example custom_is_concat :
  m_text (@merge_results flat_json flat_f64 (fun _ => None) demo_manager (Custom "vote"))
  = "[a] found it" +:+ separator +:+ "[b] timeout".
Proof. vm_compute. reflexivity. Qed.

(** A result whose cost is not a number does not survive the round trip, and
    the import still reports success. *)
Example nan_cost_dropped :
  let r := @mkResult flat_json "c" "done" true 1 S754_nan 1 ∅ in
  let (s, ok) := @import flat_json flat_as_f64 manager_new (@export flat_json flat_f64 (store_result manager_new r)).2 in
  (length (results s), ok) = (0%nat, Ok tt).
Proof. vm_compute. reflexivity. Qed.

(** A report out of range is cut to the range; what is not a number stays so. *)
Example progress_clamped :
  (clamp01 (f64_of_Z 3), clamp01 (f64_of_Z (-1)), f64_is_nan (clamp01 S754_nan)) = (f64_of_Z 1, f64_zero, true).
Proof. vm_compute. reflexivity. Qed.
