(* ===== verification/FileStore.v ===== *)
(** * FileStore: files by their paths

    The operations of [std::fs] that components use on whole directories, as
    an interface, and a concrete instance of it for witnesses. *)

From stdpp Require Import base gmap strings list fin_maps.
From Stdlib Require Import ZArith Lia.
From S2P Require Import Prelude Text Paths FileCache.

#[local] Open Scope string_scope.

(** What the source calls, with whether it succeeded. *)
Class Files := {
  files : Type;
  read_dir : files -> Path -> option (list Path);         (* [fs::read_dir(dir)], its entries *)
  read_to_string : files -> Path -> option string;
  write : files -> Path -> string -> files * bool;        (* [fs::write], whether it succeeded *)
  create_dir_all : files -> Path -> files * bool;
  append_line : files -> Path -> string -> files * bool;  (* opening to append and [writeln!] *)
  rename : files -> Path -> Path -> files * bool;         (* [fs::rename] *)
  remove_file : files -> Path -> files * bool;
  exists_file : files -> Path -> bool                     (* [Path::exists] *)
}.

Class FilesLaws `{Files} := {
  write_read : forall d p s, (write d p s).2 = true -> read_to_string (write d p s).1 p = Some s;
  write_listed : forall d dir f s, (write d (dir ++ [Normal f])%list s).2 = true ->
    exists l, read_dir (write d (dir ++ [Normal f])%list s).1 dir = Some l /\ (dir ++ [Normal f])%list ∈ l;
  listed_child : forall d dir l p, read_dir d dir = Some l -> p ∈ l -> exists f, p = (dir ++ [Normal f])%list
}.

(** What the operations do to a file, and leave alone on a disk where every
    path is a file of its own. *)
Class FilesFrames `{Files} := {
  append_read : forall d p s c, (append_line d p s).2 = true ->
    (exists_file d p = false /\ c = EmptyString \/ read_to_string d p = Some c) ->
    read_to_string (append_line d p s).1 p = Some (c +:+ s +:+ string_of [LF]);
  write_frame : forall d p s q, p <> q -> read_to_string (write d p s).1 q = read_to_string d q;
  mkdir_frame : forall d p q, read_to_string (create_dir_all d p).1 q = read_to_string d q;
  mkdir_exists : forall d p c, exists_file (create_dir_all d p).1 (p ++ [c])%list = exists_file d (p ++ [c])%list;
  rename_moves : forall d p q, p <> q -> (rename d p q).2 = true ->
    read_to_string (rename d p q).1 q = read_to_string d p /\ exists_file (rename d p q).1 p = false;
  rename_missing : forall d p q, exists_file d p = false -> (rename d p q).2 = false;
  rename_frame : forall d p q r, p <> r -> q <> r -> exists_file (rename d p q).1 r = exists_file d r;
  remove_frame : forall d p q, p <> q -> exists_file (remove_file d p).1 q = exists_file d q
}.

(** [Path::display]. *)
Definition show_component (c : Component) : string :=
  match c with RootDir => "" | CurDir => "." | ParentDir => ".." | Normal n => n end.

Definition show_path (p : Path) : string :=
  match p with
  | [RootDir] => "/"
  | _ => String.concat "/" (show_component <$> p)
  end.

Example show_path_ex : show_path (components "/a/../b") = "/a/../b". Proof. reflexivity. Qed.

Definition full_stop : byte := Ascii.ascii_of_nat 46.

(** [Path::file_stem] and [Path::extension] of a file name: cut at its last
    dot, unless nothing precedes it. *)
Definition split_extension (f : string) : option (string * string) :=
  if String.eqb f ".." then None
  else match before_last full_stop (bytes_of f) with
       | Some (b :: l) => Some (string_of (b :: l), string_of (after_last full_stop (bytes_of f)))
       | _ => None
       end.

Definition has_extension (ext : string) (p : Path) : bool :=
  match last p with
  | Some (Normal f) => match split_extension f with Some (_, e) => String.eqb e ext | None => false end
  | _ => false
  end.

(** ** File names *)

Definition lacks (c : byte) (l : list byte) : bool := forallb (fun b => negb (Ascii.eqb b c)) l.

Lemma split_slash_free l : lacks slash l = true -> split_slash l = [l].
Proof. induction l as [|b l IH]; [done|]. simpl. rewrite andb_true_iff, negb_true_iff. intros [-> Hl]. by rewrite IH. Qed.

(** A text without a slash that is no special name is one component. *)
Lemma components_file s : lacks slash (bytes_of s) = true -> 2 < length (bytes_of s) -> components s = [Normal s].
Proof.
  intros Hs Hl. unfold components. rewrite split_slash_free by done.
  assert (Hne : forall t, length (bytes_of t) <= 2 -> String.eqb s t = false)
    by (intros t Ht; apply String.eqb_neq; intros ->; lia).
  assert (Hc : component_of (bytes_of s) = Some (Normal s))
    by (unfold component_of; rewrite string_of_bytes, !Hne by (simpl; lia); done).
  change (omap component_of [bytes_of s]) with (match component_of (bytes_of s) with Some y => [y] | None => [] end).
  rewrite Hc. destruct (bytes_of s) as [|b l] eqn:Hb; [simpl in Hl; lia|].
  rewrite bool_decide_eq_false_2; [done|]. intros Hd. rewrite Hd in Hl. unfold dot in Hl. simpl in Hl. lia.
Qed.

(** ** A concrete instance *)

Definition line_feed : string := string_of [LF].

Definition is_child (dir p : Path) : bool :=
  match last p with
  | Some (Normal f) => bool_decide (p = dir ++ [Normal f])%list
  | _ => false
  end.

(** Files by their paths; every write succeeds. *)
Definition plain_files : Files := {|
  files := gmap Path string;
  read_dir d dir := Some (retain (is_child dir) (map_to_list d).*1);
  read_to_string d p := d !! p;
  write d p s := (<[p := s]> d, true);
  create_dir_all d _ := (d, true);
  append_line d p s := (<[p := default EmptyString (d !! p) +:+ s +:+ line_feed]> d, true);
  rename d p q := match d !! p with Some s => (<[q := s]> (delete p d), true) | None => (d, false) end;
  remove_file d p := (delete p d, true);
  exists_file d p := is_some (d !! p)
|}.

Lemma plain_files_laws : @FilesLaws plain_files.
Proof.
  split; cbn.
  - intros d p s _. apply lookup_insert_eq.
  - intros d dir f s _. eexists. split; [done|]. apply elem_of_retain. split.
    + apply list_elem_of_fmap. exists (dir ++ [Normal f], s)%list. split; [done|]. apply elem_of_map_to_list, lookup_insert_eq.
    + unfold is_child. rewrite last_snoc. by apply bool_decide_eq_true.
  - intros d dir l p [= <-] [_ Hc]%elem_of_retain. unfold is_child in Hc.
    destruct (last p) as [[| | |f]|]; try done. exists f. by apply bool_decide_eq_true in Hc.
Qed.

Lemma plain_files_frames : @FilesFrames plain_files.
Proof.
  split; cbn.
  - intros d p s c _ Hc. rewrite lookup_insert_eq. destruct Hc as [[He ->]| ->]; [|done]. by destruct (d !! p).
  - intros d p s q Hpq. by rewrite lookup_insert_ne.
  - done.
  - done.
  - intros d p q Hpq. destruct (d !! p) as [s|]; [intros _|done]. cbn. rewrite lookup_insert_eq, lookup_insert_ne, lookup_delete_eq by done. done.
  - intros d p q. by destruct (d !! p).
  - intros d p q r Hp Hq. destruct (d !! p); [|done]. cbn. by rewrite lookup_insert_ne, lookup_delete_ne.
  - intros d p q Hpq. by rewrite lookup_delete_ne.
Qed.

(** A plain name in a directory. *)
Definition file_of (dir : Path) (n : string) : Path := join dir (components n).

Lemma file_of_plain dir n : lacks slash (bytes_of n) = true -> 2 < length (bytes_of n) -> file_of dir n = (dir ++ [Normal n])%list.
Proof.
  intros Hn Hl. unfold file_of. rewrite components_file by done. unfold join. simpl. case_bool_decide; by subst.
Qed.

Lemma files_apart dir m n : lacks slash (bytes_of m) = true -> lacks slash (bytes_of n) = true ->
  2 < length (bytes_of m) -> 2 < length (bytes_of n) -> m <> n -> file_of dir m <> file_of dir n.
Proof. intros Hm Hn Hlm Hln Hne H. rewrite !file_of_plain in H by done. apply app_inv_head in H. congruence. Qed.
