(* ===== verification/Templates.v ===== *)
(** * Templates: workflow templates ([engine/template])

    The substitution of variables, the expansion of steps, and the store of
    templates with its directory.  The files are an interface, and so is the
    derived conversion of a template from and to its text.  The built-in
    templates are an argument: the theorems hold for any. *)

From stdpp Require Import base gmap strings list sorting fin_maps.
From Stdlib Require Import ZArith Lia.
From S2P Require Import Prelude Text Paths FileCache FileStore.

#[local] Open Scope string_scope.

(** ** Data ([types.rs]) *)

Inductive WorkflowAction :=
| Bash (command : string) (capture_output : bool)
| Analyze (prompt : string) (files : list string)
| Format (template : string)
| Ask (question variable : string) (default : option string)
| Select (question variable : string) (options : list string) (default : string)
| SubTemplate (name : string) (variables : gmap string string).

Record WorkflowStep := mkStep {
  step : string;
  action : WorkflowAction;
  condition : option string
}.

(** [Variable]. *)
Record VariableDef := mkVariable {
  v_default : string;
  v_prompt : string;
  v_required : bool;
  v_pattern : option string;
  v_help : string
}.

Record Template := mkTemplate {
  name : string;
  trigger : string;
  description : string;
  system_prompt_addon : string;
  workflow : list WorkflowStep;
  variables : gmap string VariableDef;
  version : string;
  author : string;
  builtin : bool;
  tags : list string
}.

Definition default_version : string := "1.0.0".

#[export] Instance WorkflowAction_eq_dec : EqDecision WorkflowAction.
Proof. solve_decision. Defined.
#[export] Instance WorkflowStep_eq_dec : EqDecision WorkflowStep.
Proof. solve_decision. Defined.
#[export] Instance VariableDef_eq_dec : EqDecision VariableDef.
Proof. solve_decision. Defined.
#[export] Instance Template_eq_dec : EqDecision Template.
Proof. solve_decision. Defined.

(** [Template::new]. *)
Definition template_new (n t : string) : Template :=
  mkTemplate n t "" "" [] ∅ default_version "" false [].

Definition set_name (t : Template) (n : string) : Template :=
  mkTemplate n (trigger t) (description t) (system_prompt_addon t) (workflow t) (variables t) (version t)
    (author t) (builtin t) (tags t).

Definition matches_trigger (t : Template) (command : string) : bool := starts_with command (trigger t).

(** ** Substitution *)

(** [str::replace] of a text that is not empty, left to right; [skip] bytes of
    an occurrence are still to be passed over. *)
Fixpoint replace_from (p r : list byte) (skip : nat) (l : list byte) : list byte :=
  match l with
  | [] => []
  | b :: l' =>
      match skip with
      | S n => replace_from p r n l'
      | O => match strip p l with
             | Some _ => r ++ replace_from p r (length p - 1) l'
             | None => b :: replace_from p r 0 l'
             end
      end
  end.

Definition replace (p r l : list byte) : list byte := replace_from p r 0 l.

(** [format!("${{{}}}", key)]: a placeholder. *)
Definition placeholder (key : string) : list byte := (bytes_of "${" ++ bytes_of key ++ bytes_of "}")%list.

(** The key of a step's output: [key.strip_prefix("step")?.strip_suffix(".output")]. *)
Definition output_key (key : string) : option string :=
  rest ← strip_prefix key "step";
  middle ← strip (rev (bytes_of ".output")) (rev (bytes_of rest));
  Some (string_of (rev middle)).

Section Order.
Context `{HashOrder}.

Definition substitute (text : string) (vars : gmap string string) : string :=
  let first := foldl (fun acc '(k, v) => replace (placeholder k) (bytes_of v) acc) (bytes_of text) (hash_iter vars) in
  let second := foldl (fun acc '(k, v) =>
      match output_key k with
      | Some out =>
          let acc := replace (placeholder ("step" +:+ out +:+ ".output")) (bytes_of v) acc in
          replace (placeholder k) (bytes_of v) acc
      | None => acc
      end) first (hash_iter vars) in
  string_of second.

Definition unresolved_variables (t : Template) (vars : gmap string string) : list string :=
  (retain (fun '(_, v) => v_required v)
    (retain (fun '(k, _) => negb (is_some (vars !! k))) (hash_iter (variables t)))).*1.

(** ** Variables and steps ([engine.rs]) *)

Record VariablePrompt := mkPrompt {
  p_variable : string;
  p_prompt : string;
  p_default : option string;
  p_required : bool;
  p_help : string
}.

Inductive VariableCollectResult :=
| Resolved (vars : gmap string string)
| NeedsInput (prompts : list VariablePrompt) (resolved : gmap string string).

Definition prompt_for (key : string) (var : VariableDef) : VariablePrompt :=
  mkPrompt key (if Text.is_empty (v_prompt var) then "Enter value for " +:+ key else v_prompt var) None true (v_help var).

Definition collect_step (user_vars : gmap string string)
    (acc : gmap string string * list VariablePrompt) (kv : string * VariableDef) :=
  let '(resolved, prompts) := acc in
  let '(key, var) := kv in
  match user_vars !! key with
  | Some val => (<[key := val]> resolved, prompts)
  | None =>
      if negb (Text.is_empty (v_default var)) then (<[key := v_default var]> resolved, prompts)
      else if v_required var then (resolved, prompts ++ [prompt_for key var])%list
      else (resolved, prompts)
  end.

Definition collect_variables (t : Template) (user_vars : gmap string string) : VariableCollectResult :=
  let '(resolved, prompts) := foldl (collect_step user_vars) (∅, []) (hash_iter (variables t)) in
  match prompts with
  | [] => Resolved resolved
  | _ => NeedsInput prompts resolved
  end.

Definition build_system_prompt (t : Template) (vars : gmap string string) : string :=
  if Text.is_empty (system_prompt_addon t) then "" else substitute (system_prompt_addon t) vars.

(** [!matches!(expanded.trim().to_lowercase().as_str(), "false" | "0" | "no")]. *)
Definition condition_holds (expanded : string) : bool :=
  let s := to_lowercase (trim expanded) in
  negb (String.eqb s "false" || String.eqb s "0" || String.eqb s "no").

Definition step_kept (vars : gmap string string) (s : WorkflowStep) : bool :=
  match condition s with Some c => condition_holds (substitute c vars) | None => true end.

Definition expand_action (vars : gmap string string) (a : WorkflowAction) : WorkflowAction :=
  match a with
  | Bash command capture_output => Bash (substitute command vars) capture_output
  | Analyze prompt files => Analyze (substitute prompt vars) ((fun f => substitute f vars) <$> files)
  | Format tpl => Format (substitute tpl vars)
  | Ask question variable d => Ask (substitute question vars) variable d
  | Select question variable options d => Select (substitute question vars) variable options (substitute d vars)
  | SubTemplate n tvars => SubTemplate (substitute n vars) ((fun v => substitute v vars) <$> tvars)
  end.

Definition expand_step (vars : gmap string string) (s : WorkflowStep) : WorkflowStep :=
  mkStep (substitute (step s) vars) (expand_action vars (action s)) ((fun c => substitute c vars) <$> condition s).

Definition expand_steps (t : Template) (vars : gmap string string) : list WorkflowStep :=
  expand_step vars <$> retain (step_kept vars) (workflow t).

(** ** The store *)

Definition match_trigger (ts : gmap string Template) (command : string) : option Template :=
  List.find (fun t => matches_trigger t command) (hash_values ts).

Definition find_by_name (ts : gmap string Template) (n : string) : option Template := ts !! n.

Definition list_all (ts : gmap string Template) : list Template :=
  sort_by (fun a b => str_leb (name a) (name b)) (hash_values ts).

Definition search (ts : gmap string Template) (query : string) : list Template :=
  let lower := to_lowercase query in
  retain (fun t => str_contains (to_lowercase (name t)) lower
                   || str_contains (to_lowercase (description t)) lower
                   || existsb (fun tag => str_contains (to_lowercase tag) lower) (tags t)) (hash_values ts).
End Order.

(** ** The directory *)

(** The name of a template in a file: the stem of a file ending in [.json]. *)
Definition stem_of (p : Path) : option string :=
  match last p with
  | Some (Normal f) =>
      match split_extension f with
      | Some (stem, ext) => if String.eqb ext "json" then Some stem else None
      | None => None
      end
  | _ => None
  end.

Inductive TemplateError :=
| AlreadyExists (n : string)
| NotFound (n : string)
| CannotModifyBuiltin (n : string)
| CannotDeleteBuiltin (n : string)
| DirFailed
| SerializeFailed
| WriteFailed
| DeleteFailed
| InvalidJson
| NameAndTriggerRequired.

Section Store.
Context `{F : Files}.

(** The derived conversions: [serde_json::to_string_pretty(template)] and
    [serde_json::from_str::<Template>]. *)
Variable template_text : Template -> option string.
Variable template_parse : string -> option Template.

(** What [builtin_templates] lists. *)
Variable builtin_templates : list Template.

Record TemplateEngine := mkEngine {
  templates_dir : Path;
  templates : gmap string Template
}.

Definition set_templates (e : TemplateEngine) ts : TemplateEngine := mkEngine (templates_dir e) ts.

(** One entry of the directory. *)
Definition load_entry (d : files) (ts : gmap string Template) (p : Path) : gmap string Template :=
  match stem_of p with
  | Some stem =>
      match read_to_string d p ≫= template_parse with
      | Some t => <[stem := set_name t stem]> ts
      | None => ts
      end
  | None => ts
  end.

Definition reload_user_templates (d : files) (e : TemplateEngine) : TemplateEngine :=
  let kept := filter (fun '(_, t) => builtin t = true) (templates e) in
  match read_dir d (templates_dir e) with
  | Some entries => set_templates e (foldl (load_entry d) kept entries)
  | None => set_templates e kept
  end.

(** [TemplateEngine::with_dir]; [new] takes the default directory. *)
Definition with_dir (d : files) (dir : Path) : TemplateEngine :=
  reload_user_templates d
    (mkEngine dir (foldl (fun ts t => <[name t := t]> ts) ∅ builtin_templates)).

Definition template_path (e : TemplateEngine) (n : string) : Path :=
  join (templates_dir e) (components (n +:+ ".json")).

(** Writing the text of a template. *)
Definition save_template (d : files) (p : Path) (t : Template) : files * result unit TemplateError :=
  match template_text t with
  | None => (d, Err SerializeFailed)
  | Some text => let '(d', ok) := write d p text in (d', if ok then Ok tt else Err WriteFailed)
  end.

Definition create_template (d : files) (e : TemplateEngine) (t : Template) :
    files * TemplateEngine * result unit TemplateError :=
  if is_some (templates e !! name t) then (d, e, Err (AlreadyExists (name t)))
  else
    let path := template_path e (name t) in
    let '(d1, made) := match parent path with Some dir => create_dir_all d dir | None => (d, true) end in
    if negb made then (d1, e, Err DirFailed)
    else
      match save_template d1 path t with
      | (d2, Ok _) => (d2, set_templates e (<[name t := t]> (templates e)), Ok tt)
      | (d2, Err err) => (d2, e, Err err)
      end.

Definition update_template (d : files) (e : TemplateEngine) (n : string) (t : Template) :
    files * TemplateEngine * result unit TemplateError :=
  match templates e !! n with
  | None => (d, e, Err (NotFound n))
  | Some existing =>
      if builtin existing then (d, e, Err (CannotModifyBuiltin n))
      else
        match save_template d (template_path e n) t with
        | (d2, Ok _) => (d2, set_templates e (<[n := t]> (templates e)), Ok tt)
        | (d2, Err err) => (d2, e, Err err)
        end
  end.

Definition delete_template (d : files) (e : TemplateEngine) (n : string) :
    files * TemplateEngine * result unit TemplateError :=
  match templates e !! n with
  | None => (d, e, Err (NotFound n))
  | Some existing =>
      if builtin existing then (d, e, Err (CannotDeleteBuiltin n))
      else
        let path := template_path e n in
        let '(d1, ok) := if exists_file d path then remove_file d path else (d, true) in
        if ok then (d1, set_templates e (delete n (templates e)), Ok tt)
        else (d1, e, Err DeleteFailed)
  end.

Definition export_template (e : TemplateEngine) (n : string) : result string TemplateError :=
  match templates e !! n with
  | None => Err (NotFound n)
  | Some t => match template_text t with Some s => Ok s | None => Err SerializeFailed end
  end.

Definition import_template_json (d : files) (e : TemplateEngine) (json : string) :
    files * TemplateEngine * result Template TemplateError :=
  match template_parse json with
  | None => (d, e, Err InvalidJson)
  | Some t =>
      if Text.is_empty (name t) || Text.is_empty (trigger t) then (d, e, Err NameAndTriggerRequired)
      else if is_some (templates e !! name t) then (d, e, Err (AlreadyExists (name t)))
      else
        match create_template d e t with
        | (d', e', Ok _) => (d', e', Ok t)
        | (d', e', Err err) => (d', e', Err err)
        end
  end.
End Store.

(** ** Substitution is simultaneous

    A text of pieces: plain ones, and placeholders of keys. *)

Inductive Segment := Lit (l : list byte) | Ref (key : string).

Definition segment_bytes (s : Segment) : list byte := match s with Lit l => l | Ref k => placeholder k end.

Definition render (segs : list Segment) : list byte := concat (segment_bytes <$> segs).

Lemma render_cons s segs : render (s :: segs) = (segment_bytes s ++ render segs)%list.
Proof. done. Qed.

Definition dollar : byte := Ascii.ascii_of_nat 36.
Definition brace : byte := Ascii.ascii_of_nat 125.


(** Keys have neither dollar signs nor closing braces, plain pieces no dollar signs. *)
Definition clean_key (k : string) : bool := lacks dollar (bytes_of k) && lacks brace (bytes_of k).

Definition clean_segment (s : Segment) : bool :=
  match s with Lit l => lacks dollar l | Ref k => clean_key k end.

Definition clean_vars (vars : gmap string string) : Prop :=
  forall k v, vars !! k = Some v -> clean_key k = true /\ lacks dollar (bytes_of v) = true.

(** What a piece becomes. *)
Definition segment_value (vars : gmap string string) (s : Segment) : Segment :=
  match s with
  | Ref k => match vars !! k with Some v => Lit (bytes_of v) | None => Ref k end
  | Lit l => Lit l
  end.

Lemma replace_skip p r n a l : length a = n -> replace_from p r n (a ++ l) = replace_from p r 0 l.
Proof. revert n. induction a as [|b a IH]; intros [|n]; simpl; try done. intros [= Ha]. by apply IH. Qed.

Lemma replace_cons p r b l :
  replace p r (b :: l) = match strip p (b :: l) with
                         | Some _ => r ++ replace_from p r (length p - 1) l
                         | None => b :: replace p r l
                         end%list.
Proof. done. Qed.

Lemma replace_hit p r l : p <> [] -> replace p r (p ++ l) = (r ++ replace p r l)%list.
Proof.
  destruct p as [|b p]; [done|]. intros _. rewrite <- app_comm_cons, replace_cons, app_comm_cons, strip_app.
  f_equal. apply replace_skip. simpl. lia.
Qed.

Section Replace.
Context (key : string) (r : list byte).
#[local] Abbreviation p := (placeholder key).

Lemma strip_placeholder b l : b <> dollar -> strip p (b :: l) = None.
Proof. intros Hb. destruct (strip p (b :: l)) as [x|] eqn:Hs; [|done]. apply strip_some in Hs. by injection Hs as ->. Qed.

Lemma replace_lacks a l : lacks dollar a = true -> replace p r (a ++ l) = (a ++ replace p r l)%list.
Proof.
  induction a as [|b a IH]; [done|]. intros [Hb%negb_true_iff%Ascii.eqb_neq Ha]%andb_true_iff.
  rewrite <- app_comm_cons, replace_cons, strip_placeholder by done. by rewrite IH.
Qed.

Lemma take_until_brace a l : lacks brace a = true -> take_until (fun b => Ascii.eqb b brace) (a ++ brace :: l) = a.
Proof. intros Ha. rewrite take_until_app by done. simpl. by rewrite app_nil_r. Qed.

Lemma replace_other k l :
  clean_key key = true -> clean_key k = true -> k <> key ->
  replace p r (placeholder k ++ l) = (placeholder k ++ replace p r l)%list.
Proof.
  unfold clean_key. rewrite !andb_true_iff. intros [_ Hkey] [Hd Hk] Hne.
  change (placeholder k) with (dollar :: (bytes_of "{" ++ bytes_of k ++ bytes_of "}"))%list.
  rewrite <- app_comm_cons, replace_cons. destruct (strip p _) as [x|] eqn:Hs.
  - exfalso. apply strip_some in Hs. unfold placeholder in Hs. simpl in Hs. injection Hs as Hs.
    apply Hne. apply (f_equal (take_until (fun b => Ascii.eqb b brace))) in Hs. rewrite <- !app_assoc in Hs.
    simpl in Hs. rewrite !take_until_brace in Hs by done.
    rewrite <- (string_of_bytes k), <- (string_of_bytes key). by rewrite Hs.
  - rewrite <- app_comm_cons. f_equal. apply replace_lacks. unfold lacks in *. by rewrite !forallb_app, Hd.
Qed.

(** Replacing one placeholder in a clean text. *)
Definition fill (s : Segment) : Segment :=
  match s with Ref k => if String.eqb k key then Lit r else Ref k | Lit l => Lit l end.

Lemma replace_render segs :
  clean_key key = true -> forallb clean_segment segs = true ->
  replace p r (render segs) = render (fill <$> segs).
Proof.
  intros Hkey. induction segs as [|[l|k] segs IH]; [done| |]; intros [Hs Hsegs]%andb_true_iff;
    rewrite fmap_cons, !render_cons.
  - unfold fill, segment_bytes. rewrite replace_lacks by done. f_equal. by apply IH.
  - unfold fill at 1. destruct (String.eqb_spec k key) as [->|Hne]; unfold segment_bytes.
    + rewrite replace_hit by done. f_equal. by apply IH.
    + rewrite replace_other by done. f_equal. by apply IH.
Qed.
End Replace.

Definition replace_var (acc : list byte) (kv : string * string) : list byte :=
  let '(k, v) := kv in replace (placeholder k) (bytes_of v) acc.

(** Both loops, with the second written on keys. *)
Lemma output_key_some key out : output_key key = Some out -> key = "step" +:+ out +:+ ".output".
Proof.
  unfold output_key, strip_prefix. intros (rest & (r & Hr%strip_some & ->)%fmap_Some & Hm)%bind_Some.
  apply bind_Some in Hm as (middle & He%strip_some & [= <-]).
  rewrite String.list_ascii_of_string_of_list_ascii in He.
  apply (f_equal (@rev byte)) in He. rewrite rev_app_distr, !rev_involutive in He. rewrite He in Hr.
  rewrite <- (string_of_bytes key), Hr, <- (string_of_bytes ("step" +:+ _)). f_equal.
  by rewrite !bytes_of_app, String.list_ascii_of_string_of_list_ascii.
Qed.

Lemma pass_values l segs :
  NoDup l.*1 -> (forall k v, (k, v) ∈ l -> clean_key k = true /\ lacks dollar (bytes_of v) = true) ->
  forallb clean_segment segs = true ->
  foldl replace_var (render segs) l = render (segment_value (list_to_map l) <$> segs)
  /\ forallb clean_segment (segment_value (list_to_map l) <$> segs) = true.
Proof.
  revert segs. induction l as [|[k v] l IH]; intros segs Hnd Hl Hsegs.
  - assert (He : segment_value (list_to_map []) <$> segs = segs).
    { rewrite <- (list_fmap_id segs) at 2. apply list_fmap_ext. intros i [x|k] _; simpl; [done|]. by rewrite lookup_empty. }
    by rewrite He.
  - csimpl in Hnd. apply NoDup_cons in Hnd as [Hk Hnd]. destruct (Hl k v) as [Hck Hcv]; [left|].
    simpl. rewrite replace_render by done.
    destruct (IH (fill k (bytes_of v) <$> segs)) as [-> Hc]; [done|by intros; apply Hl; right| |].
    + rewrite forallb_elem in *. intros s ([x|k'] & -> & Hin)%list_elem_of_fmap; apply Hsegs in Hin; simpl in *; [done|].
      by destruct (String.eqb k' k).
    + assert (He : segment_value (list_to_map l) <$> (fill k (bytes_of v) <$> segs)
                   = segment_value (<[k:=v]> (list_to_map l)) <$> segs).
      { rewrite <- list_fmap_compose. apply list_fmap_ext. intros i [x|k'] _; simpl; [done|].
        destruct (String.eqb_spec k' k) as [->|Hne]; simpl; [by rewrite lookup_insert_eq|by rewrite lookup_insert_ne]. }
      by rewrite He in *.
Qed.

(** Once everything is replaced, another loop finds nothing. *)
Lemma pass_again (vars : gmap string string) l segs :
  (forall k v, (k, v) ∈ l -> is_Some (vars !! k) /\ clean_key k = true) ->
  forallb clean_segment (segment_value vars <$> segs) = true ->
  foldl (fun acc '(k, v) =>
      match output_key k with
      | Some out => replace (placeholder k) (bytes_of v)
                      (replace (placeholder ("step" +:+ out +:+ ".output")) (bytes_of v) acc)
      | None => acc
      end) (render (segment_value vars <$> segs)) l
  = render (segment_value vars <$> segs).
Proof.
  intros Hl Hc. induction l as [|[k v] l IH]; [done|]. simpl.
  destruct (Hl k v) as [[x Hx] Hk]; [left|]. assert (Hl' := fun k v H => Hl k v (list_elem_of_further _ _ _ H)).
  assert (Hid : replace (placeholder k) (bytes_of v) (render (segment_value vars <$> segs))
                = render (segment_value vars <$> segs)).
  { rewrite replace_render by done. f_equal. rewrite <- list_fmap_compose. apply list_fmap_ext.
    intros i [y|k'] _; simpl; [done|]. destruct (vars !! k') eqn:Hk'; simpl; [done|].
    destruct (String.eqb_spec k' k) as [->|]; [congruence|done]. }
  destruct (output_key k) as [out|] eqn:Ho; [|by apply IH].
  apply output_key_some in Ho. rewrite <- Ho, !Hid. by apply IH.
Qed.

Section Spec.
Context `{HashOrder}.

(** Claim C30. Substitution replaces the placeholders of a template all at
    once: if no value holds a dollar sign and no key a dollar sign or a closing
    brace, then in a text of plain pieces and placeholders each placeholder of a
    given key, a step's output included, becomes its value, each other stays as
    it is and nothing else changes, whatever the order in which the variables
    are gone through. *)
Theorem substitute_simultaneous segs (vars : gmap string string) :
  forallb clean_segment segs = true -> clean_vars vars ->
  substitute (string_of (render segs)) vars = string_of (concat (segment_bytes ∘ segment_value vars <$> segs)).
Proof.
  intros Hsegs Hvars. unfold substitute. rewrite String.list_ascii_of_string_of_list_ascii. f_equal.
  assert (Hnd : NoDup (hash_iter vars).*1) by apply NoDup_hash_keys.
  destruct (pass_values (hash_iter vars) segs) as [Hpass Hc]; [done| |done|].
  - intros k v Hin%elem_of_hash_iter. by apply Hvars.
  - assert (Hm : list_to_map (hash_iter vars) = vars).
    { rewrite (list_to_map_proper _ _ Hnd (hash_iter_perm vars)). apply list_to_map_to_list. }
    rewrite Hm in *. unfold replace_var in Hpass. rewrite Hpass, pass_again; [|clear Hpass|done].
    + unfold render. by rewrite <- list_fmap_compose.
    + intros k v Hin%elem_of_hash_iter. split; [by exists v|by eapply Hvars].
Qed.
End Spec.

(** ** Variables *)

(** The value a declared variable gets without asking. *)
Definition known (user_vars : gmap string string) (key : string) (var : VariableDef) : option string :=
  match user_vars !! key with
  | Some v => Some v
  | None => if Text.is_empty (v_default var) then None else Some (v_default var)
  end.

(** What has to be asked for. *)
Definition missing (user_vars : gmap string string) (kv : string * VariableDef) : bool :=
  negb (is_some (known user_vars kv.1 kv.2)) && v_required kv.2.

Lemma NoDup_retain_fst {A B} (f : A * B -> bool) (l : list (A * B)) : NoDup l.*1 -> NoDup (retain f l).*1.
Proof.
  induction l as [|x l IH]; [done|]. csimpl. intros [Hx Hnd]%NoDup_cons. destruct (f x); [|by apply IH].
  csimpl. apply NoDup_cons. split; [|by apply IH]. contradict Hx.
  apply list_elem_of_fmap in Hx as (y & -> & [Hy _]%elem_of_retain). by apply list_elem_of_fmap_2.
Qed.

Lemma collect_loop user_vars l m ps :
  NoDup l.*1 ->
  let '(m', ps') := foldl (collect_step user_vars) (m, ps) l in
  ps' = (ps ++ ((fun kv => prompt_for kv.1 kv.2) <$> retain (missing user_vars) l))%list
  /\ forall k, m' !! k = match (list_to_map l : gmap string VariableDef) !! k with
                         | Some var => match known user_vars k var with Some v => Some v | None => m !! k end
                         | None => m !! k
                         end.
Proof.
  revert m ps. induction l as [|[key var] l IH]; intros m ps Hnd; simpl; [by rewrite app_nil_r|].
  csimpl in Hnd. apply NoDup_cons in Hnd as [Hkey Hnd].
  assert (Hstep : exists m1, collect_step user_vars (m, ps) (key, var)
      = (m1, ps ++ (if missing user_vars (key, var) then [prompt_for key var] else []))%list
      /\ forall k, m1 !! k = if String.eqb k key then match known user_vars key var with Some v => Some v | None => m !! k end
                             else m !! k).
  { unfold collect_step, missing, known. simpl. destruct (user_vars !! key) as [val|]; [|destruct (Text.is_empty (v_default var))]; simpl.
    - eexists. rewrite app_nil_r. split; [done|]. intros k. destruct (String.eqb_spec k key) as [->|];
        [by rewrite lookup_insert_eq|by rewrite lookup_insert_ne].
    - exists m. destruct (v_required var); rewrite ?app_nil_r; (split; [done|]); intros k; by destruct (String.eqb k key).
    - eexists. rewrite app_nil_r. split; [done|]. intros k. destruct (String.eqb_spec k key) as [->|];
        [by rewrite lookup_insert_eq|by rewrite lookup_insert_ne]. }
  destruct Hstep as (m1 & Hs & Hm1). unfold collect_step in Hs. simpl in Hs. rewrite Hs.
  specialize (IH m1 (ps ++ (if missing user_vars (key, var) then [prompt_for key var] else []))%list Hnd).
  destruct (foldl _ _ l) as [m' ps']. destruct IH as [-> Hm']. split.
  - rewrite <- app_assoc. f_equal. by destruct (missing user_vars (key, var)).
  - intros k. rewrite Hm', Hm1. destruct (String.eqb_spec k key) as [->|Hne].
    + rewrite lookup_insert_eq, (not_elem_of_list_to_map_1 _ _ Hkey). by destruct (known user_vars key var).
    + by rewrite lookup_insert_ne.
Qed.

Section Collect.
Context `{HashOrder}.

(** Variables are collected once for all: a declared variable has the
    value the user gave, else its default if that is not empty, and no other
    key has a value; the result is complete exactly when no required variable
    is without one, and otherwise asks for each of those, once, whatever the
    order of the declarations. *)
Theorem collect_variables_complete t user_vars :
  let resolved (m : gmap string string) := forall k, m !! k = variables t !! k ≫= known user_vars k in
  match collect_variables t user_vars with
  | Resolved m => resolved m /\ map_Forall (fun k var => missing user_vars (k, var) = false) (variables t)
  | NeedsInput ps m =>
      resolved m /\ ps <> [] /\ NoDup (p_variable <$> ps) /\
      forall k, k ∈ p_variable <$> ps <-> exists var, variables t !! k = Some var /\ missing user_vars (k, var) = true
  end.
Proof.
  intros resolved. unfold collect_variables.
  assert (Hnd : NoDup (hash_iter (variables t)).*1) by apply NoDup_hash_keys.
  pose proof (collect_loop user_vars (hash_iter (variables t)) ∅ [] Hnd) as Hloop.
  rewrite (list_to_map_proper _ _ Hnd (hash_iter_perm (variables t))), list_to_map_to_list in Hloop.
  destruct (foldl _ _ _) as [m ps]. destruct Hloop as [Hps Hm]. simpl in Hps.
  assert (Hr : resolved m).
  { intros k. rewrite Hm, lookup_empty. destruct (variables t !! k) as [var|]; simpl; [|done]. by destruct (known user_vars k var). }
  assert (Hask : p_variable <$> ps = (retain (missing user_vars) (hash_iter (variables t))).*1)
    by (rewrite Hps, <- list_fmap_compose; done).
  assert (Hin : forall k, k ∈ p_variable <$> ps <-> exists var, variables t !! k = Some var /\ missing user_vars (k, var) = true).
  { intros k. rewrite Hask, list_elem_of_fmap. split.
    - intros ([k' var] & -> & [Hkv%elem_of_hash_iter Hmiss]%elem_of_retain). by exists var.
    - intros (var & Hk & Hmiss). exists (k, var). by rewrite elem_of_retain, elem_of_hash_iter. }
  destruct ps as [|p ps].
  - split; [done|]. intros k var Hk. destruct (missing user_vars (k, var)) eqn:Hmiss; [|done].
    exfalso. apply (not_elem_of_nil k). apply (Hin k). by exists var.
  - repeat split; [done|done| |by apply Hin|by apply Hin].
    rewrite Hask. by apply NoDup_retain_fst.
Qed.
End Collect.

(** ** The store *)

(** A name that is one file's name: not empty, no slash. *)
Definition plain_name (n : string) : bool := negb (Text.is_empty n) && lacks slash (bytes_of n).

(** A text that ends in [.json] is longer than the special names. *)
Lemma json_length n s : String.length s < 5 -> String.eqb (n +:+ ".json") s = false.
Proof.
  intros Hs. apply String.eqb_neq. intros <-. revert Hs. induction n as [|c n IH]; simpl; [lia|].
  intros Hs. apply IH. lia.
Qed.

Lemma components_json n : lacks slash (bytes_of n) = true -> components (n +:+ ".json") = [Normal (n +:+ ".json")].
Proof.
  intros Hn. apply components_file; [unfold lacks in *; by rewrite bytes_of_app, forallb_app, Hn|].
  rewrite bytes_of_app, length_app. simpl. lia.
Qed.

Lemma stem_json dir n : n <> "" -> stem_of (dir ++ [Normal (n +:+ ".json")]) = Some n.
Proof.
  intros Hn. unfold stem_of. rewrite last_snoc. unfold split_extension. rewrite json_length by (simpl; lia).
  rewrite bytes_of_app. change (bytes_of ".json") with (full_stop :: bytes_of "json").
  rewrite before_last_app, after_last_app, after_last_free by done.
  destruct (bytes_of n) as [|b l] eqn:Hb; [by destruct n|].
  rewrite string_of_bytes, String.eqb_refl, <- (string_of_bytes n). by rewrite Hb.
Qed.

Lemma before_last_none c l : before_last c l = None -> lacks c l = true.
Proof.
  induction l as [|b l IH]; [done|]. simpl. destruct (before_last c l); [done|].
  destruct (Ascii.eqb b c); [done|]. intros _. by apply IH.
Qed.

Lemma before_last_rebuild c l a : before_last c l = Some a -> l = (a ++ c :: after_last c l)%list.
Proof.
  intros Ha. enough (exists r, l = (a ++ c :: r)%list /\ lacks c r = true) as (r & -> & Hr)
    by (by rewrite after_last_app, after_last_free).
  revert a Ha. induction l as [|b l IH]; intros a; [done|]. simpl. destruct (before_last c l) as [q|] eqn:Hq.
  - intros [= <-]. destruct (IH q eq_refl) as (r & -> & Hr). by exists r.
  - destruct (Ascii.eqb_spec b c) as [->|]; [|done]. intros [= <-]. exists l. split; [done|]. by apply before_last_none.
Qed.

(** The file a template's name was read from. *)
Lemma stem_file dir f n : stem_of (dir ++ [Normal f]) = Some n -> f = n +:+ ".json".
Proof.
  unfold stem_of. rewrite last_snoc. unfold split_extension. destruct (String.eqb f ".."); [done|].
  destruct (before_last full_stop (bytes_of f)) as [[|b l]|] eqn:Hb; [done| |done].
  destruct (String.eqb_spec (string_of (after_last full_stop (bytes_of f))) "json") as [Hj|]; [|done]. intros [= <-].
  apply before_last_rebuild in Hb. rewrite <- (string_of_bytes f), Hb.
  rewrite <- (string_of_bytes (_ +:+ ".json")), bytes_of_app. f_equal.
  apply (f_equal bytes_of) in Hj. rewrite String.list_ascii_of_string_of_list_ascii in Hj. rewrite Hj. simpl.
  by rewrite String.list_ascii_of_string_of_list_ascii.
Qed.

Section StoreProofs.
Context `{FL : FilesLaws}.
Variable template_text : Template -> option string.
Variable template_parse : string -> option Template.
Variable builtin_templates : list Template.

#[local] Abbreviation open_dir := (with_dir template_parse builtin_templates).
#[local] Abbreviation create := (create_template template_text).
#[local] Abbreviation update := (update_template template_text).
#[local] Abbreviation import := (import_template_json template_text template_parse).
#[local] Abbreviation reload := (reload_user_templates template_parse).

Lemma template_path_plain e n : lacks slash (bytes_of n) = true -> template_path e n = (templates_dir e ++ [Normal (n +:+ ".json")])%list.
Proof.
  intros Hn. unfold template_path. rewrite components_json by done. unfold join. simpl.
  case_bool_decide as Hd; [by rewrite Hd|done].
Qed.

Lemma set_name_id t : set_name t (name t) = t.
Proof. by destruct t. Qed.

(** An entry adds at most the template of its own stem. *)
Lemma load_entry_other d ts p n : stem_of p <> Some n -> load_entry template_parse d ts p !! n = ts !! n.
Proof.
  unfold load_entry. intros Hp. destruct (stem_of p) as [stem|]; [|done].
  destruct (read_to_string d p ≫= template_parse); [|done]. by rewrite lookup_insert_ne by congruence.
Qed.

Lemma load_entries d entries ts p t :
  stem_of p = Some (name t) -> read_to_string d p ≫= template_parse = Some t ->
  (forall q, q ∈ entries -> stem_of q = Some (name t) -> q = p) ->
  ts !! name t = Some t \/ p ∈ entries ->
  foldl (load_entry template_parse d) ts entries !! name t = Some t.
Proof.
  intros Hstem Hread. revert ts. induction entries as [|q entries IH]; intros ts Hq Hor; simpl.
  - destruct Hor as [|Hin]; [done|by apply not_elem_of_nil in Hin].
  - apply IH; [by intros; apply Hq; [right|]|]. destruct (decide (stem_of q = Some (name t))) as [Hs|Hs].
    + left. assert (q = p) as -> by (apply Hq; [left|done]). unfold load_entry.
      rewrite Hstem, Hread, lookup_insert_eq. by rewrite set_name_id.
    + rewrite load_entry_other by done. destruct Hor as [|[->|]%elem_of_cons]; [by left|congruence|by right].
Qed.

Hypothesis text_roundtrip : forall t s, template_text t = Some s -> template_parse s = Some t.

(** A template that is created is there from then on: when the
    creation succeeds, the name was free, no other template changes, and both
    this engine and every engine opened on the directory afterwards find the
    template under its name with all that was given, provided the name is a
    plain file name. *)
Theorem created_template_reloads d e t d' e' :
  plain_name (name t) = true ->
  create d e t = (d', e', Ok tt) ->
  templates e !! name t = None /\
  templates e' = <[name t := t]> (templates e) /\
  templates (open_dir d' (templates_dir e)) !! name t = Some t.
Proof.
  unfold plain_name, create_template. intros [Hne Hslash]%andb_true_iff Hc.
  assert (Hn : name t <> "") by (by intros H0; rewrite H0 in Hne).
  destruct (templates e !! name t) as [t0|] eqn:Hfree; [done|]. simpl in Hc.
  rewrite template_path_plain in Hc by done. set (p := (templates_dir e ++ [Normal (name t +:+ ".json")])%list) in *.
  destruct (match parent p with Some dir => create_dir_all d dir | None => (d, true) end) as [d1 made].
  destruct made; [|done]. simpl in Hc. unfold save_template in Hc.
  destruct (template_text t) as [s|] eqn:Ht; [|done].
  pose proof (write_read d1 p s) as Hread. pose proof (write_listed d1 (templates_dir e) (name t +:+ ".json") s) as Hlist.
  fold p in Hlist. destruct (write d1 p s) as [d2 ok]. destruct ok; [|done]. simpl in *. injection Hc as <- <-.
  split; [done|split; [done|]]. destruct (Hlist eq_refl) as (l & Hl & Hin).
  unfold with_dir, reload_user_templates. simpl. rewrite Hl. simpl. apply (load_entries _ _ _ p).
  - by apply stem_json.
  - rewrite Hread by done. simpl. by apply text_roundtrip.
  - intros q Hq Hs. destruct (listed_child _ _ _ _ Hl Hq) as [f ->]. apply stem_file in Hs. by rewrite Hs.
  - by right.
Qed.

(** ** What the operations keep *)

Definition named (ts : gmap string Template) : Prop := forall n t, ts !! n = Some t -> name t = n.

Inductive store_op :=
| OpCreate (t : Template)
| OpUpdate (n : string) (t : Template)
| OpDelete (n : string)
| OpImport (json : string)
| OpReload.

Definition run_op (d : files) (e : TemplateEngine) (o : store_op) : files * TemplateEngine :=
  match o with
  | OpCreate t => (create d e t).1
  | OpUpdate n t => (update d e n t).1
  | OpDelete n => (delete_template d e n).1
  | OpImport json => (import d e json).1
  | OpReload => (d, reload d e)
  end.

(** The same operations on the table alone: each adds, replaces or deletes one
    template, or leaves the table as it is. *)
Lemma create_table d e t :
  templates (create d e t).1.2 = templates e
  \/ (templates e !! name t = None /\ templates (create d e t).1.2 = <[name t := t]> (templates e)).
Proof.
  unfold create_template. destruct (templates e !! name t) eqn:Hf; simpl; [by left|].
  destruct (match parent _ with Some dir => create_dir_all d dir | None => (d, true) end) as [d1 made].
  destruct made; simpl; [|by left]. destruct (save_template template_text d1 _ t) as [d2 [u|err]]; simpl; [by right|by left].
Qed.

Lemma import_table d e json :
  templates (import d e json).1.2 = templates e
  \/ exists t, templates e !! name t = None /\ templates (import d e json).1.2 = <[name t := t]> (templates e).
Proof.
  unfold import_template_json. destruct (template_parse json) as [t|]; [|by left].
  destruct (_ || _); [by left|]. destruct (is_some _); [by left|].
  pose proof (create_table d e t) as Hc. destruct (create d e t) as [[d1 e1] [u|err]]; simpl in *;
    (destruct Hc as [|[? ?]]; [by left|right; by exists t]).
Qed.

Lemma update_table d e n t :
  templates (update d e n t).1.2 = templates e
  \/ exists t0, templates e !! n = Some t0 /\ builtin t0 = false /\ templates (update d e n t).1.2 = <[n := t]> (templates e).
Proof.
  unfold update_template. destruct (templates e !! n) as [t0|] eqn:Hn; [|by left].
  destruct (builtin t0) eqn:Hb; [by left|].
  destruct (save_template template_text d _ t) as [d2 [u|err]]; simpl; [right; by exists t0|by left].
Qed.

Lemma delete_table d e n :
  templates (delete_template d e n).1.2 = templates e
  \/ exists t0, templates e !! n = Some t0 /\ builtin t0 = false /\ templates (delete_template d e n).1.2 = delete n (templates e).
Proof.
  unfold delete_template. destruct (templates e !! n) as [t0|] eqn:Hn; [|by left].
  destruct (builtin t0) eqn:Hb; [by left|].
  destruct (if exists_file d (template_path e n) then remove_file d (template_path e n) else (d, true)) as [d1 []]; simpl;
    [right; by exists t0|by left].
Qed.

(** A built-in template is never changed, deleted or hidden by an
    operation on the store, whatever the operation is given and however the
    files behave; only reading the directory again can put another in its
    place. *)
Theorem builtin_protected d e o n t :
  templates e !! n = Some t -> builtin t = true -> o <> OpReload ->
  templates (run_op d e o).2 !! n = Some t.
Proof.
  intros Hn Hb Ho. destruct o as [t'|n' t'|n'|json|]; simpl; [| | | |done].
  - destruct (create_table d e t') as [->|[Hfree ->]]; [done|]. rewrite lookup_insert_ne; [done|congruence].
  - destruct (update_table d e n' t') as [->|(t0 & Hn' & Hb' & ->)]; [done|]. rewrite lookup_insert_ne; [done|congruence].
  - destruct (delete_table d e n') as [->|(t0 & Hn' & Hb' & ->)]; [done|]. rewrite lookup_delete_ne; [done|congruence].
  - destruct (import_table d e json) as [->|(t' & Hfree & ->)]; [done|]. rewrite lookup_insert_ne; [done|congruence].
Qed.

(** An update keeps its name. *)
Definition keeps_name (o : store_op) : bool :=
  match o with OpUpdate n t => String.eqb (name t) n | _ => true end.

Lemma named_insert ts t : named ts -> named (<[name t := t]> ts).
Proof. intros Hts n t' [[<- <-]|[_ ?]]%lookup_insert_Some; [done|by apply Hts]. Qed.

Lemma named_load d ts entries : named ts -> named (foldl (load_entry template_parse d) ts entries).
Proof.
  revert ts. induction entries as [|p entries IH]; intros ts Hts; [done|]. apply IH. unfold load_entry.
  destruct (stem_of p) as [stem|]; [|done]. destruct (read_to_string d p ≫= template_parse) as [t|]; [|done].
  apply (named_insert ts (set_name t stem) Hts).
Qed.

Lemma named_reload d e : named (templates e) -> named (templates (reload d e)).
Proof.
  intros He. assert (Hk : named (filter (fun '(_, t) => builtin t = true) (templates e)))
    by (intros n t [Hn _]%map_lookup_filter_Some; by apply He).
  unfold reload_user_templates. destruct (read_dir d (templates_dir e)); [by apply named_load|done].
Qed.

Lemma named_open d dir : named (templates (open_dir d dir)).
Proof.
  apply named_reload. simpl. assert (H0 : named ∅) by (by intros n t ?%lookup_empty_Some). revert H0.
  generalize (∅ : gmap string Template). induction builtin_templates as [|t l IH]; intros ts Hts; [done|].
  apply IH. by apply named_insert.
Qed.

Lemma named_op d e o : keeps_name o = true -> named (templates e) -> named (templates (run_op d e o).2).
Proof.
  intros Ho He. destruct o as [t'|n' t'|n'|json|]; simpl in *.
  - destruct (create_table d e t') as [->|[_ ->]]; [done|]. by apply named_insert.
  - apply String.eqb_eq in Ho as <-. destruct (update_table d e (name t') t') as [->|(t0 & _ & _ & ->)]; [done|]. by apply named_insert.
  - destruct (delete_table d e n') as [->|(t0 & _ & _ & ->)]; [done|]. intros n t [_ ?]%lookup_delete_Some. by apply He.
  - destruct (import_table d e json) as [->|(t' & _ & ->)]; [done|]. by apply named_insert.
  - by apply named_reload.
Qed.

Definition run_ops (d : files) (e : TemplateEngine) (os : list store_op) : files * TemplateEngine :=
  foldl (fun '(d, e) o => run_op d e o) (d, e) os.

Lemma named_ops d e os : forallb keeps_name os = true -> named (templates e) -> named (templates (run_ops d e os).2).
Proof.
  unfold run_ops. revert d e. induction os as [|o os IH]; intros d e; [done|]. simpl. intros [Ho Hos]%andb_true_iff He.
  pose proof (named_op d e o Ho He) as Hn. destruct (run_op d e o) as [d1 e1]. by apply IH.
Qed.
End StoreProofs.

(** The list of templates does not depend on the order of the hash
    map: after any operations that keep names, on an engine opened on any
    directory, it is sorted by name, holds each template of the store once,
    and is the same list for every order. *)
Theorem list_all_order_free `{FL : FilesLaws} text parse builtins (o1 o2 : HashOrder) d dir os :
  forallb keeps_name os = true ->
  let ts := templates (run_ops text parse d (with_dir parse builtins d dir) os).2 in
  @list_all o1 ts = @list_all o2 ts
  /\ Sorted (fun a b => str_leb (name a) (name b) = true) (@list_all o1 ts)
  /\ @list_all o1 ts ≡ₚ (map_to_list ts).*2.
Proof.
  intros Hos ts. assert (Hts : named ts) by (apply named_ops; [done|apply named_open]).
  assert (Hp : forall o : HashOrder, @hash_values o _ ts ≡ₚ (map_to_list ts).*2)
    by (intros o; unfold hash_values; by rewrite hash_iter_perm).
  split; [|split].
  - apply sort_by_unique_on; [intros a b; apply str_leb_total|intros a b c; apply str_leb_trans| |by rewrite !Hp].
    intros a b Ha Hb Hab Hba. apply elem_of_hash_values in Ha as [k1 H1]. apply elem_of_hash_values in Hb as [k2 H2].
    pose proof (str_leb_antisym _ _ Hab Hba) as Hn. pose proof (Hts _ _ H1). pose proof (Hts _ _ H2). congruence.
  - apply sort_by_sorted. intros a b. apply str_leb_total.
  - unfold list_all. by rewrite sort_by_perm.
Qed.

(** ** On a concrete directory *)

Section Demo.

#[local] Existing Instances plain_files plain_files_laws.

Definition dir_w : Path := components "/t".

Definition branch_var : VariableDef := mkVariable "main" "" true None "".
Definition review : Template :=
  mkTemplate "review" "/review" "" "" [mkStep "diff" (Bash "git diff ${branch}" true) (Some "${with_diff}")]
    {[ "branch" := branch_var; "title" := mkVariable "" "" true None "" ]} "1" "" true [].
Definition deploy : Template := template_new "deploy" "/deploy".
Definition reviewer : Template := template_new "reviewer" "/rev".
Definition nested : Template := template_new "team/nested" "/nested".
Definition outside : Template := template_new "/etc/cron" "/cron".
Definition sticky : Template :=
  mkTemplate "sticky" "/sticky" "" "" [] ∅ default_version "" true [].
Definition nameless : Template := template_new "" "/x".

Definition known_templates : list Template := [review; deploy; reviewer; nested; outside; sticky; nameless].

(** For these, a template's text is its name. *)
Definition text_w (t : Template) : option string :=
  if bool_decide (t ∈ known_templates) then Some (name t) else None.
Definition parse_w (s : string) : option Template := List.find (fun t => String.eqb (name t) s) known_templates.

Lemma text_roundtrip_w t s : text_w t = Some s -> parse_w s = Some t.
Proof.
  unfold text_w. case_bool_decide as Ht; [|done]. intros [= <-]. unfold known_templates in Ht.
  in_lists; subst t; reflexivity.
Qed.

Definition no_files : @files plain_files := (∅ : gmap Path string).

Definition open_w (d : @files plain_files) : TemplateEngine := with_dir parse_w [review] d dir_w.
Definition created (t : Template) := create_template text_w no_files (open_w no_files) t.

Lemma created_template_reloads_witness :
  templates (open_w (created deploy).1.1) !! "deploy" = Some deploy.
Proof.
  assert (Hr : (created deploy).2 = Ok tt) by (vm_compute; reflexivity).
  destruct (created deploy) as [[d' e'] r] eqn:Hc. cbn [fst snd] in *. subst r. unfold created in Hc.
  pose proof (created_template_reloads text_w parse_w [review] text_roundtrip_w no_files (open_w no_files) deploy d' e'
                eq_refl Hc) as (_ & _ & H).
  assert (Hd : templates_dir (open_w no_files) = dir_w) by reflexivity. rewrite Hd in H. exact H.
Defined.

Lemma builtin_protected_witness :
  templates (run_op text_w parse_w no_files (open_w no_files) (OpDelete "review")).2 !! "review" = Some review.
Proof. apply (builtin_protected text_w parse_w no_files (open_w no_files) (OpDelete "review") "review" review); [vm_compute; reflexivity|reflexivity|done]. Defined.

Lemma list_all_order_free_witness :
  let ts := templates (run_ops text_w parse_w no_files (open_w no_files) [OpCreate deploy; OpDelete "deploy"; OpReload]).2 in
  @list_all canonical_order ts = @list_all reversed_order ts.
Proof.
  apply (list_all_order_free text_w parse_w [review] canonical_order reversed_order no_files dir_w
           [OpCreate deploy; OpDelete "deploy"; OpReload]); reflexivity.
Defined.

Lemma substitute_simultaneous_witness :
  @substitute reversed_order "git diff ${branch} ${step1.output} ${none}" {[ "branch" := "main"; "step1.output" := "a.rs" ]}
  = "git diff main a.rs ${none}".
Proof.
  refine (@substitute_simultaneous reversed_order
    [Lit (bytes_of "git diff "); Ref "branch"; Lit (bytes_of " "); Ref "step1.output"; Lit (bytes_of " "); Ref "none"] _ _ _).
  - reflexivity.
  - intros k v [[<- <-]|[_ [<- <-]%lookup_singleton_Some]]%lookup_insert_Some; by split.
Defined.

(** ** Examples *)

(** A value that holds a placeholder is filled in again or not, as the hash map
    has it. *)
Example nested_value_by_order :
  let vars := {[ "a" := "${b}"; "b" := "x" ]} : gmap string string in
  (@substitute canonical_order "${a}" vars, @substitute reversed_order "${a}" vars) = ("x", "${b}")
  \/ (@substitute canonical_order "${a}" vars, @substitute reversed_order "${a}" vars) = ("${b}", "x").
Proof. vm_compute. (left; reflexivity) || (right; reflexivity). Qed.

(** A trigger that begins another takes its commands, if it comes first. *)
Example trigger_by_order :
  let ts := {[ "review" := review; "reviewer" := reviewer ]} : gmap string Template in
  name <$> @match_trigger canonical_order ts "/review" <> name <$> @match_trigger reversed_order ts "/review".
Proof. vm_compute. congruence. Qed.

Example trigger_is_prefix : matches_trigger review "/reviewers-guide" = true.
Proof. reflexivity. Qed.

(** Values go into commands as they are. *)
Example command_injected :
  action <$> @expand_steps canonical_order review {[ "branch" := "main; rm -rf ." ]}
  = [Bash "git diff main; rm -rf ." true].
Proof. vm_compute. reflexivity. Qed.

(** A condition on a variable that has no value counts as true. *)
Example unset_condition_holds :
  (length (@expand_steps canonical_order review ∅),
   length (@expand_steps canonical_order review {[ "with_diff" := " No " ]})) = (1, 0)%nat.
Proof. vm_compute. reflexivity. Qed.

(** A name is a path: creating an absolute one, or importing it, writes outside
    the directory. *)
Example name_is_path :
  (created outside).1.1 !! components "/etc/cron.json" = Some "/etc/cron"
  /\ (import_template_json text_w parse_w no_files (open_w no_files) "/etc/cron").1.1 !! components "/etc/cron.json"
     = Some "/etc/cron".
Proof. split; vm_compute; reflexivity. Qed.

(** A template in a subdirectory is stored, and no later engine finds it. *)
Example nested_name_lost :
  (is_ok (created nested).2, templates (open_w (created nested).1.1) !! "team/nested") = (true, None).
Proof. vm_compute. reflexivity. Qed.

(** Neither does one without a name, which only the import refuses. *)
Example empty_name_lost :
  (is_ok (created nameless).2, templates (open_w (created nameless).1.1) !! "") = (true, None).
Proof. vm_compute. reflexivity. Qed.

(** A template that says it is built in cannot be deleted again. *)
Example claimed_builtin_stays :
  let '(d, e, _) := created sticky in (delete_template d e "sticky").2 = Err (CannotDeleteBuiltin "sticky").
Proof. vm_compute. reflexivity. Qed.

(** A file with the name of a built-in template replaces it, and deleting that
    leaves nothing under the name until the next start. *)
Example file_shadows_builtin :
  let d := {[ (dir_w ++ [Normal "review.json"])%list := "deploy" ]} : gmap Path string in
  let e := open_w d in
  (trigger <$> templates e !! "review", templates (delete_template d e "review").1.2 !! "review")
  = (Some "/deploy", None).
Proof. vm_compute. reflexivity. Qed.

(** An update may put a template under a name that is not its own. *)
Example update_renames :
  let '(d, e, _) := created deploy in
  (name <$> templates (update_template text_w d e "deploy" reviewer).1.2 !! "deploy") = Some "reviewer".
Proof. vm_compute. reflexivity. Qed.
End Demo.
