(* ===== verification/UserProfile.v ===== *)
(** * UserProfile: the profile of the user ([engine/user_profile.rs])

    What is known of a user, kept in a Markdown file: its reader and writer,
    the operations that add to it, the statistics of sessions, and the fragment
    of the system prompt.  The theorems about the file are in
    [UserProfileProofs]. *)

From Stdlib Require Import ZArith SpecFloat Lia.
From stdpp Require Import base list strings sorting.
From S2P Require Import Prelude Text Float64 TextProofs.

#[local] Open Scope list_scope.
#[local] Open Scope Z_scope.

Abbreviation text := (list byte).

(** ** Data *)

Record ProjectPref := mkProject {
  path : text;
  notes : list text;
  model_preference : option text
}.

Record ProfileStats := mkStats {
  total_sessions : Z;
  total_turns : Z;
  total_cost_usd : f64;
  top_tools : list (text * Z);
  common_tasks : list (text * Z);
  avg_session_duration : f64
}.

Definition stats_default : ProfileStats := mkStats 0 0 f64_zero [] [] f64_zero.

Record UserProfile := mkProfile {
  name : option text;
  preferred_language : option text;
  coding_style : list text;
  workflows : list text;
  tool_preferences : list (text * text);
  project_preferences : list ProjectPref;
  stats : ProfileStats;
  custom_instructions : text;
  updated_at : text
}.

(** [UserProfile::default]; [now] is the clock's text. *)
Definition profile_default (now : text) : UserProfile := mkProfile None None [] [] [] [] stats_default [] now.

Record SessionStats := mkSession {
  turns : Z;
  cost_usd : f64;
  tools_used : list (text * Z);
  duration_secs : f64;
  task_types : list text
}.

Definition set_name (p : UserProfile) x := mkProfile x (preferred_language p) (coding_style p) (workflows p)
  (tool_preferences p) (project_preferences p) (stats p) (custom_instructions p) (updated_at p).
Definition set_language (p : UserProfile) x := mkProfile (name p) x (coding_style p) (workflows p)
  (tool_preferences p) (project_preferences p) (stats p) (custom_instructions p) (updated_at p).
Definition set_style (p : UserProfile) x := mkProfile (name p) (preferred_language p) x (workflows p)
  (tool_preferences p) (project_preferences p) (stats p) (custom_instructions p) (updated_at p).
Definition set_workflows (p : UserProfile) x := mkProfile (name p) (preferred_language p) (coding_style p) x
  (tool_preferences p) (project_preferences p) (stats p) (custom_instructions p) (updated_at p).
Definition set_prefs (p : UserProfile) x := mkProfile (name p) (preferred_language p) (coding_style p) (workflows p)
  x (project_preferences p) (stats p) (custom_instructions p) (updated_at p).
Definition set_projects (p : UserProfile) x := mkProfile (name p) (preferred_language p) (coding_style p) (workflows p)
  (tool_preferences p) x (stats p) (custom_instructions p) (updated_at p).
Definition set_stats (p : UserProfile) x := mkProfile (name p) (preferred_language p) (coding_style p) (workflows p)
  (tool_preferences p) (project_preferences p) x (custom_instructions p) (updated_at p).
Definition set_custom (p : UserProfile) x := mkProfile (name p) (preferred_language p) (coding_style p) (workflows p)
  (tool_preferences p) (project_preferences p) (stats p) x (updated_at p).
Definition set_updated (p : UserProfile) x := mkProfile (name p) (preferred_language p) (coding_style p) (workflows p)
  (tool_preferences p) (project_preferences p) (stats p) (custom_instructions p) x.

(** ** Numbers as text *)

(** [str::parse::<f64>]: a sign, then [inf], [infinity] or [nan] in any case,
    or digits with at most one point and an exponent; rounded once. *)
Fixpoint take_digits (l : text) : text * text :=
  match l with
  | c :: l' => if is_digit c then let (d, r) := take_digits l' in (c :: d, r) else ([], l)
  | [] => ([], [])
  end.

(** [m * 10^e], correctly rounded. *)
Definition f64_decimal (negative : bool) (m e : Z) : f64 :=
  match m with
  | Zpos p =>
      match e with
      | Zneg k => SFdiv prec emax (S754_finite negative p 0) (S754_finite false (10 ^ k)%positive 0)
      | _ => binary_normalize prec emax (if negative then - (m * 10 ^ e) else m * 10 ^ e) 0 negative
      end
  | _ => S754_zero negative
  end.

Definition split_sign (l : text) : bool * text :=
  match l with
  | c :: l' => if Nat.eqb (Ascii.nat_of_ascii c) 45 then (true, l')
               else if Nat.eqb (Ascii.nat_of_ascii c) 43 then (false, l') else (false, l)
  | [] => (false, [])
  end.

Definition is_char (n : nat) (c : byte) : bool := Nat.eqb (Ascii.nat_of_ascii c) n.

(** The exponent that ends a number. *)
Definition parse_exponent (l : text) : option Z :=
  match l with
  | [] => Some 0
  | c :: l' =>
      if is_char 101 c || is_char 69 c then
        let (neg, l1) := split_sign l' in
        match l1, digits l1 0 with
        | _ :: _, Some n => Some (if neg then - n else n)
        | _, _ => None
        end
      else None
  end.

Definition parse_f64 (l : text) : option f64 :=
  let (neg, l1) := split_sign l in
  let word := lower_byte <$> l1 in
  if bool_decide (word = (bytes_of "inf")) || bool_decide (word = (bytes_of "infinity")) then Some (S754_infinity neg)
  else if bool_decide (word = (bytes_of "nan")) then Some S754_nan
  else
    let (whole, l2) := take_digits l1 in
    let (frac, l3) := match l2 with
                      | c :: l2' => if is_char 46 c then take_digits l2' else ([], l2)
                      | [] => ([], [])
                      end in
    match whole ++ frac with
    | [] => None
    | ds => match digits ds 0, parse_exponent l3 with
            | Some m, Some e => Some (f64_decimal neg m (e - Z.of_nat (length frac)))
            | _, _ => None
            end
    end.

Example parse_f64_ex :
  (parse_f64 (bytes_of "12.50"), parse_f64 (bytes_of ".5e1"), parse_f64 (bytes_of "-0"), parse_f64 (bytes_of "."), parse_f64 (bytes_of "1e"), parse_f64 (bytes_of "+Inf"))
  = (Some (f64_ratio 25 2), Some (f64_of_Z 5), Some (S754_zero true), None, None, Some (S754_infinity false)).
Proof. vm_compute. reflexivity. Qed.

Definition show_bytes (n : Z) : text := bytes_of (show_Z n).

(** ** Reading *)

(** [trim_start_matches(c)] and [trim_end_matches(c)]. *)
Fixpoint drop_byte (c : byte) (l : text) : text :=
  match l with
  | x :: l' => if Ascii.eqb x c then drop_byte c l' else l
  | [] => []
  end.
Definition drop_back (c : byte) (l : text) : text := reverse (drop_byte c (reverse l)).

(** [split_once(c)]. *)
Fixpoint split_once (c : byte) (l : text) : option (text * text) :=
  match l with
  | [] => None
  | x :: l' => if Ascii.eqb x c then Some ([], l') else (fun '(k, v) => (x :: k, v)) <$> split_once c l'
  end.

(** [rfind(c)]. *)
Definition rfind (c : byte) (l : text) : option nat := length <$> before_last c l.

Definition colon : byte := Ascii.ascii_of_nat 58.
Definition comma : byte := Ascii.ascii_of_nat 44.
Definition hash : byte := Ascii.ascii_of_nat 35.
Definition usd : byte := Ascii.ascii_of_nat 36.
Definition open_paren : byte := Ascii.ascii_of_nat 40.
Definition close_paren : byte := Ascii.ascii_of_nat 41.
Definition letter_s : byte := Ascii.ascii_of_nat 115.

Definition text_empty (l : text) : bool := match l with [] => true | _ => false end.

(** [Some(val)] unless it is empty. *)
Definition non_empty (l : text) : option text := if text_empty l then None else Some l.

Definition personal_line (p : UserProfile) (line : text) : UserProfile :=
  let t := trim_text line in
  match strip (bytes_of "- Name:") t with
  | Some rest => match non_empty (trim_text rest) with Some v => set_name p (Some v) | None => p end
  | None =>
      match strip (bytes_of "- Preferred Language:") t with
      | Some rest => match non_empty (trim_text rest) with Some v => set_language p (Some v) | None => p end
      | None => p
      end
  end.

Definition parse_personal (lines : list text) (p : UserProfile) : UserProfile := foldl personal_line p lines.

(** An item of a list: [- item]. *)
Definition item_of (line : text) : option text := strip (bytes_of "- ") (trim_text line).

Definition parse_list_section (lines : list text) (target : list text) : list text :=
  target ++ omap (fun line => item_of line ≫= fun item => non_empty (trim_text item)) lines.

Definition pref_of (line : text) : option (text * text) :=
  item ← item_of line;
  '(k, v) ← split_once colon item;
  if text_empty (trim_text k) then None else Some (trim_text k, trim_text v).

Definition parse_tool_prefs (lines : list text) (target : list (text * text)) : list (text * text) :=
  target ++ omap pref_of lines.

(** What one line adds to a project. *)
Definition project_item (proj : ProjectPref) (t : text) : ProjectPref :=
  match strip (bytes_of "- ") t with
  | Some item =>
      let val := trim_text item in
      match strip (bytes_of "Model:") val with
      | Some model => mkProject (path proj) (notes proj) (Some (trim_text model))
      | None => mkProject (path proj) (notes proj ++ [val]) (model_preference proj)
      end
  | None => proj
  end.

(** The projects read so far, and the one being read. *)
Definition project_line (acc : list ProjectPref * option ProjectPref) (line : text) :=
  let '(target, current) := acc in
  let t := trim_text line in
  match strip (bytes_of "### ") t with
  | Some p => ((target ++ option_list current), Some (mkProject (trim_text p) [] None))
  | None => (target, (fun proj => project_item proj t) <$> current)
  end.

Definition parse_projects (lines : list text) (target : list ProjectPref) : list ProjectPref :=
  let '(target, current) := foldl project_line (target, None) lines in
  target ++ option_list current.

(** One entry of a list like [Bash(200), FileEdit(150)]. *)
Definition counted_item (piece : text) : option (text * Z) :=
  let item := trim_text piece in
  if text_empty item then None
  else
    op ← rfind open_paren item;
    cl ← rfind close_paren item;
    if Nat.leb cl op then None
    else
      let n := trim_text (take op item) in
      count ← parse_uint u32_max (string_of (take (cl - op - 1) (drop (op + 1) item)));
      if text_empty n then None else Some (n, count).

Definition parse_counted_list (l : text) : list (text * Z) := omap counted_item (split_byte comma l).

Definition parse_count (l : text) : Z := default 0 (parse_uint u64_max (string_of (trim_text l))).

Definition stats_item (s : ProfileStats) (t : text) : ProfileStats :=
  match strip (bytes_of "- Sessions:") t with
  | Some rest => mkStats (parse_count rest) (total_turns s) (total_cost_usd s) (top_tools s) (common_tasks s) (avg_session_duration s)
  | None =>
  match strip (bytes_of "- Total Turns:") t with
  | Some rest => mkStats (total_sessions s) (parse_count rest) (total_cost_usd s) (top_tools s) (common_tasks s) (avg_session_duration s)
  | None =>
  match strip (bytes_of "- Total Cost:") t with
  | Some rest => mkStats (total_sessions s) (total_turns s)
                   (default f64_zero (parse_f64 (drop_byte usd (trim_text rest)))) (top_tools s) (common_tasks s) (avg_session_duration s)
  | None =>
  match strip (bytes_of "- Top Tools:") t with
  | Some rest => mkStats (total_sessions s) (total_turns s) (total_cost_usd s) (parse_counted_list (trim_text rest))
                   (common_tasks s) (avg_session_duration s)
  | None =>
  match strip (bytes_of "- Common Tasks:") t with
  | Some rest => mkStats (total_sessions s) (total_turns s) (total_cost_usd s) (top_tools s)
                   (parse_counted_list (trim_text rest)) (avg_session_duration s)
  | None =>
  match strip (bytes_of "- Avg Duration:") t with
  | Some rest => mkStats (total_sessions s) (total_turns s) (total_cost_usd s) (top_tools s) (common_tasks s)
                   (default f64_zero (parse_f64 (drop_back letter_s (trim_text rest))))
  | None => s
  end end end end end end.

Definition stats_line (s : ProfileStats) (line : text) : ProfileStats := stats_item s (trim_text line).

Definition parse_stats (lines : list text) (s : ProfileStats) : ProfileStats := foldl stats_line s lines.

(** [join] of lines. *)
Fixpoint join_lines (ls : list text) : text :=
  match ls with
  | [] => []
  | [l] => l
  | l :: ls' => l ++ LF :: join_lines ls'
  end.

Definition Section_ : Type := text * list text.

(** The sections of the file: those complete, and the current one. *)
Definition header_of (line : text) : option text :=
  match strip (bytes_of "## ") (trim_text line) with
  | Some _ => Some (trim_text (drop_byte hash (trim_text line)))
  | None => None
  end.

Definition push_section (done : list Section_) (cur : Section_) : list Section_ :=
  if text_empty cur.1 && Nat.eqb (length cur.2) 0 then done else done ++ [cur].

Definition section_line (acc : list Section_ * Section_) (line : text) : list Section_ * Section_ :=
  let '(done, (title, body)) := acc in
  match header_of line with
  | Some h => (push_section done (title, body), (h, []))
  | None => (done, (title, body ++ [line]))
  end.

Definition sections (lines : list text) : list Section_ :=
  let '(done, cur) := foldl section_line ([], ([], [])) lines in push_section done cur.

Definition read_section (p : UserProfile) (s : Section_) : UserProfile :=
  let '(title, body) := s in
  if bool_decide (title = (bytes_of "Personal")) then parse_personal body p
  else if bool_decide (title = (bytes_of "Coding Style")) then set_style p (parse_list_section body (coding_style p))
  else if bool_decide (title = (bytes_of "Workflows")) then set_workflows p (parse_list_section body (workflows p))
  else if bool_decide (title = (bytes_of "Tool Preferences")) then set_prefs p (parse_tool_prefs body (tool_preferences p))
  else if bool_decide (title = (bytes_of "Projects")) then set_projects p (parse_projects body (project_preferences p))
  else if bool_decide (title = (bytes_of "Stats")) then set_stats p (parse_stats body (stats p))
  else if bool_decide (title = (bytes_of "Custom Instructions")) then set_custom p (trim_text (join_lines body))
  else p.

Definition parse_user_md (now : text) (content : text) : UserProfile :=
  foldl read_section (profile_default now) (sections (lines content)).

(** ** Writing *)

Definition counted_text (l : list (text * Z)) : text :=
  bytes_of (String.concat ", " ((fun '(n, c) => string_of n +:+ "(" +:+ show_Z c +:+ ")") <$> l)).

Definition project_lines (p : ProjectPref) : list text :=
  [bytes_of "### " ++ path p] ++ ((fun note => bytes_of "- " ++ note) <$> notes p)
  ++ match model_preference p with Some m => [bytes_of "- Model: " ++ m] | None => [] end
  ++ [[]].

Definition profile_lines (p : UserProfile) : list text :=
  [bytes_of "# User Profile"; [];
   bytes_of "## Personal";
   bytes_of "- Name: " ++ default [] (name p);
   bytes_of "- Preferred Language: " ++ default [] (preferred_language p); [];
   bytes_of "## Coding Style"]
  ++ ((fun x => bytes_of "- " ++ x) <$> coding_style p) ++ [[]; bytes_of "## Workflows"]
  ++ ((fun x => bytes_of "- " ++ x) <$> workflows p) ++ [[]; bytes_of "## Tool Preferences"]
  ++ ((fun '(t, x) => bytes_of "- " ++ t ++ bytes_of ": " ++ x) <$> tool_preferences p) ++ [[]; bytes_of "## Projects"]
  ++ concat (project_lines <$> project_preferences p)
  ++ [bytes_of "## Stats";
      bytes_of "- Sessions: " ++ show_bytes (total_sessions (stats p));
      bytes_of "- Total Turns: " ++ show_bytes (total_turns (stats p));
      bytes_of "- Total Cost: $" ++ bytes_of (fmt_fixed 2 (total_cost_usd (stats p)));
      bytes_of "- Top Tools: " ++ counted_text (top_tools (stats p));
      bytes_of "- Common Tasks: " ++ counted_text (common_tasks (stats p));
      bytes_of "- Avg Duration: " ++ bytes_of (fmt_whole (avg_session_duration (stats p))) ++ bytes_of "s"; [];
      bytes_of "## Custom Instructions"].

Definition profile_to_markdown (p : UserProfile) : text :=
  unlines (profile_lines p)
  ++ (if text_empty (custom_instructions p) then [] else custom_instructions p ++ [LF]).

(** ** Operations

    Each also records the time. *)

Definition update_name (now n : text) (p : UserProfile) : UserProfile := set_updated (set_name p (Some n)) now.

Definition update_language (now lang : text) (p : UserProfile) : UserProfile := set_updated (set_language p (Some lang)) now.

(** [if !list.contains(&x) { list.push(x) }]. *)
Definition add_once (x : text) (l : list text) : list text := if bool_decide (x ∈ l) then l else l ++ [x].

Definition add_coding_style (now style : text) (p : UserProfile) : UserProfile :=
  set_updated (set_style p (add_once style (coding_style p))) now.

Definition add_workflow (now w : text) (p : UserProfile) : UserProfile :=
  set_updated (set_workflows p (add_once w (workflows p))) now.

(** Changing the first entry with a key, or adding one at the end:
    [iter_mut().find(..)] with the [push] of the other branch. *)
Fixpoint upsert {A} (is_key : A -> bool) (change : A -> A) (new : A) (l : list A) : list A :=
  match l with
  | [] => [new]
  | x :: l' => if is_key x then change x :: l' else x :: upsert is_key change new l'
  end.

Definition add_tool_preference (now tool pref : text) (p : UserProfile) : UserProfile :=
  set_updated (set_prefs p (upsert (fun e => bool_decide (e.1 = tool)) (fun e => (e.1, pref)) (tool, pref)
    (tool_preferences p))) now.

Definition add_project_note (now project note : text) (p : UserProfile) : UserProfile :=
  set_updated (set_projects p (upsert (fun e => bool_decide (path e = project))
    (fun e => mkProject (path e) (add_once note (notes e)) (model_preference e))
    (mkProject project [note] None) (project_preferences p))) now.

Definition update_custom_instructions (now t : text) (p : UserProfile) : UserProfile :=
  set_updated (set_custom p t) now.

(** [entry.1 += count], wrapping at 32 bits, or a new entry. *)
Definition count_up (l : list (text * Z)) (e : text * Z) : list (text * Z) :=
  upsert (fun x => bool_decide (x.1 = e.1)) (fun x => (x.1, add32 x.2 e.2)) e l.

(** [sort_by_key(Reverse(count))], stable, then [truncate(10)]. *)
Definition more_first (x y : text * Z) : bool := Z.leb y.2 x.2.

Definition top_ten (l : list (text * Z)) : list (text * Z) := take 10 (sort_by more_first l).

Definition merge_counts (l : list (text * Z)) (session : list (text * Z)) : list (text * Z) :=
  top_ten (foldl count_up l session).

Definition merge_stats (s : ProfileStats) (session : SessionStats) : ProfileStats :=
  let prev_total := f64_of_Z (total_sessions s) in
  let new_total := f64_add prev_total (f64_of_Z 1) in
  mkStats (add64 (total_sessions s) 1) (add64 (total_turns s) (turns session))
    (f64_add (total_cost_usd s) (cost_usd session))
    (merge_counts (top_tools s) (tools_used session))
    (merge_counts (common_tasks s) ((fun t => (t, 1)) <$> task_types session))
    (if f64_lt f64_zero prev_total
     then f64_div (f64_add (f64_mul (avg_session_duration s) prev_total) (duration_secs session)) new_total
     else duration_secs session).

Definition merge_session_stats (now : text) (session : SessionStats) (p : UserProfile) : UserProfile :=
  set_updated (set_stats p (merge_stats (stats p) session)) now.

(** [build_prompt_fragment]. *)
Definition profile_is_empty (p : UserProfile) : bool :=
  negb (is_some (name p)) && negb (is_some (preferred_language p))
  && Nat.eqb (length (coding_style p)) 0 && Nat.eqb (length (workflows p)) 0
  && Nat.eqb (length (tool_preferences p)) 0 && Nat.eqb (length (project_preferences p)) 0
  && text_empty (trim_text (custom_instructions p)).

(** A part with a heading, left out when there is nothing to list. *)
Definition part (heading : string) (items : list text) : list text :=
  match items with [] => [] | _ => (LF :: bytes_of heading) :: items end.

Definition build_prompt_fragment (p : UserProfile) : option text :=
  if profile_is_empty p then None
  else Some (join_lines (
    [bytes_of "# User Profile" ++ [LF]]
    ++ match name p with Some n => [bytes_of "The user's name is **" ++ n ++ bytes_of "**."] | None => [] end
    ++ match preferred_language p with
       | Some l => [bytes_of "Respond in **" ++ l ++ bytes_of "** unless the user writes in another language."]
       | None => [] end
    ++ part "## Coding Style Preferences" ((fun x => bytes_of "- " ++ x) <$> coding_style p)
    ++ part "## Common Workflows" ((fun x => bytes_of "- " ++ x) <$> workflows p)
    ++ part "## Tool Preferences" ((fun '(t, x) => bytes_of "- " ++ t ++ bytes_of ": " ++ x) <$> tool_preferences p)
    ++ part "## Project Notes" (concat ((fun proj => (bytes_of "### " ++ path proj)
                                          :: ((fun x => bytes_of "- " ++ x) <$> notes proj)) <$> project_preferences p))
    ++ (if text_empty (trim_text (custom_instructions p)) then []
        else [LF :: bytes_of "## Custom Instructions"; custom_instructions p]))).

(** ** Lists without repetition *)

Lemma add_once_nodup x l : NoDup l -> NoDup (add_once x l).
Proof.
  unfold add_once. case_bool_decide as Hx; [done|]. intros Hl. apply NoDup_app. split; [done|]. split; [|by apply NoDup_singleton].
  intros y Hy ->%list_elem_of_singleton. by apply Hx.
Qed.

Lemma upsert_keys {A} (key : A -> text) (k : text) change new l :
  (forall x, key (change x) = key x) -> key new = k ->
  key <$> upsert (fun x => bool_decide (key x = k)) change new l = add_once k (key <$> l).
Proof.
  intros Hc Hn. unfold add_once. induction l as [|x l IH]; [by csimpl; rewrite Hn|]. cbn [upsert].
  destruct (decide (key x = k)) as [Hx|Hx].
  - rewrite (bool_decide_eq_true_2 (key x = k)), !fmap_cons, Hc, Hx by done. rewrite bool_decide_eq_true_2; [done|left].
  - rewrite (bool_decide_eq_false_2 (key x = k)), !fmap_cons, IH by done. rewrite (bool_decide_ext (k ∈ key x :: (key <$> l)) (k ∈ key <$> l)).
    + by case_bool_decide.
    + rewrite elem_of_cons. split; [by intros [?|]|by right].
Qed.

(** The counts of a name: what it had and what was added, at 32 bits. *)
Definition count_of (n : text) (l : list (text * Z)) : Z := default 0 (snd <$> List.find (fun x => bool_decide (x.1 = n)) l).

Lemma count_up_other l e n : n <> e.1 -> count_of n (count_up l e) = count_of n l.
Proof.
  intros Hn. unfold count_of, count_up. induction l as [|[k c] l IH]; simpl; [by rewrite bool_decide_eq_false_2|].
  destruct (decide (k = e.1)) as [->|Hk].
  - rewrite bool_decide_eq_true_2 by done. simpl. by rewrite !bool_decide_eq_false_2.
  - rewrite (bool_decide_eq_false_2 (k = e.1)) by done. simpl. by case_bool_decide.
Qed.

Lemma count_up_same l e : is_u32 e.2 -> count_of e.1 (count_up l e) = add32 (count_of e.1 l) e.2.
Proof.
  intros He. unfold count_of, count_up. induction l as [|[k c] l IH]; simpl.
  - rewrite bool_decide_eq_true_2 by done. simpl. unfold add32, is_u32, u32_max in *. by rewrite Z.mod_small by lia.
  - destruct (decide (k = e.1)) as [->|Hk].
    + rewrite !bool_decide_eq_true_2 by done. simpl. by rewrite bool_decide_eq_true_2.
    + rewrite (bool_decide_eq_false_2 (k = e.1)) by done. simpl. by rewrite (bool_decide_eq_false_2 (k = e.1)).
Qed.

Lemma count_up_keys l e : (count_up l e).*1 = add_once e.1 l.*1.
Proof. unfold count_up. by apply (upsert_keys fst). Qed.

Lemma count_ups_nodup es l : NoDup l.*1 -> NoDup (foldl count_up l es).*1.
Proof. revert l. induction es as [|e es IH]; intros l Hl; [done|]. simpl. apply IH. rewrite count_up_keys. by apply add_once_nodup. Qed.

Lemma NoDup_fst_find (l : list (text * Z)) e : NoDup l.*1 -> e ∈ l -> count_of e.1 l = e.2.
Proof.
  intros Hnd He. unfold count_of. induction l as [|x l IH]; [by apply not_elem_of_nil in He|].
  csimpl in Hnd. apply NoDup_cons in Hnd as [Hx Hnd]. simpl. apply elem_of_cons in He as [->|He].
  - by rewrite bool_decide_eq_true_2.
  - rewrite bool_decide_eq_false_2; [by apply IH|]. intros Heq. apply Hx. rewrite Heq. by apply list_elem_of_fmap_2.
Qed.

Lemma take_sorted {A} (R : A -> A -> Prop) `{!Transitive R} n l : StronglySorted R l ->
  forall x y, x ∈ take n l -> y ∈ drop n l -> R x y.
Proof.
  revert n. induction l as [|z l IH]; intros [|n] Hs x y Hx Hy; simpl in *; try by apply not_elem_of_nil in Hx.
  apply StronglySorted_inv in Hs as [Hs Hz]. apply elem_of_cons in Hx as [->|Hx]; [|by eapply IH].
  rewrite Forall_forall in Hz. apply Hz. rewrite <- (take_drop n l). apply elem_of_app. by right.
Qed.

(** ** The statistics *)

Lemma more_first_total x y : more_first x y = false -> more_first y x = true.
Proof. unfold more_first. rewrite Z.leb_gt, Z.leb_le. lia. Qed.

#[export] Instance more_first_trans : Transitive (le_rel more_first).
Proof. intros x y z. unfold le_rel, more_first. rewrite !Z.leb_le. lia. Qed.

Lemma top_ten_sorted l : StronglySorted (le_rel more_first) (sort_by more_first l).
Proof. apply Sorted_StronglySorted; [apply _|]. apply sort_by_sorted, more_first_total. Qed.

Lemma count_of_cons n e l : count_of n (e :: l) = if bool_decide (e.1 = n) then e.2 else count_of n l.
Proof. unfold count_of. simpl. by destruct (bool_decide (e.1 = n)). Qed.

Lemma counts_add l es n : Forall (fun e => is_u32 e.2) es -> NoDup es.*1 ->
  count_of n (foldl count_up l es) = (if bool_decide (n ∈ es.*1) then add32 (count_of n l) (count_of n es) else count_of n l).
Proof.
  revert l. induction es as [|e es IH]; intros l Hes Hnd; [done|]. apply Forall_cons in Hes as [He Hes].
  csimpl in Hnd. apply NoDup_cons in Hnd as [Hfresh Hnd]. cbn [foldl]. rewrite IH, count_of_cons, fmap_cons by done.
  destruct (decide (n = e.1)) as [->|Hn].
  - rewrite (bool_decide_eq_false_2 (e.1 ∈ es.*1)) by done. rewrite (bool_decide_eq_true_2 (e.1 ∈ e.1 :: _)) by left.
    rewrite count_up_same by done. by rewrite bool_decide_eq_true_2.
  - rewrite (count_up_other l e n Hn), (bool_decide_eq_false_2 (e.1 = n)) by done.
    rewrite (bool_decide_ext (n ∈ e.1 :: es.*1) (n ∈ es.*1)); [done|]. rewrite elem_of_cons. naive_solver.
Qed.

(** The counts of a profile are a ranking.  Merging a session whose
    names are distinct into counts whose names are: no name appears twice, at
    most ten are kept, the greatest first; each name kept has the count it had
    plus the session's (at 32 bits), and no name left out has a greater count
    than one that is kept. *)
Theorem merged_counts_rank l es :
  NoDup l.*1 -> NoDup es.*1 -> Forall (fun e => is_u32 e.2) es ->
  let total n := if bool_decide (n ∈ es.*1) then add32 (count_of n l) (count_of n es) else count_of n l in
  let m := merge_counts l es in
  NoDup m.*1 /\ (length m <= 10)%nat /\ StronglySorted (fun x y => y.2 <= x.2) m
  /\ (forall n c, (n, c) ∈ m -> (n ∈ l.*1 \/ n ∈ es.*1) /\ c = total n)
  /\ (forall n x, n ∈ l.*1 \/ n ∈ es.*1 -> n ∉ m.*1 -> x ∈ m -> total n <= x.2).
Proof.
  intros Hl Hes H32 total m. unfold m, merge_counts, top_ten. set (all := foldl count_up l es).
  assert (Hall : NoDup all.*1) by (by apply count_ups_nodup).
  assert (Hperm : sort_by more_first all ≡ₚ all) by apply sort_by_perm.
  assert (Hsnd : NoDup (sort_by more_first all).*1) by (by rewrite Hperm).
  assert (Hkeys : forall n, n ∈ all.*1 <-> n ∈ l.*1 \/ n ∈ es.*1).
  { intros n. unfold all. clear. revert l. induction es as [|e es IH]; intros l; csimpl; [rewrite elem_of_nil; tauto|].
    rewrite IH, count_up_keys. unfold add_once. case_bool_decide; rewrite ?elem_of_app, ?list_elem_of_singleton, elem_of_cons; naive_solver. }
  assert (Htotal : forall e, e ∈ all -> e.2 = total e.1).
  { intros e He. rewrite <- (NoDup_fst_find _ e Hall He). unfold all. by apply counts_add. }
  pose proof (top_ten_sorted all) as Hsort.
  split; [|split; [|split; [|split]]].
  - rewrite <- (take_drop 10 (sort_by more_first all)), fmap_app in Hsnd. by apply NoDup_app in Hsnd as [? _].
  - rewrite length_take. lia.
  - rewrite <- (take_drop 10 (sort_by more_first all)) in Hsort. apply StronglySorted_app_1_l in Hsort.
    revert Hsort. clear. induction 1 as [|x m _ IH Hx]; constructor; [done|].
    eapply Forall_impl; [exact Hx|]. intros y. unfold le_rel, more_first. by rewrite Z.leb_le.
  - intros n c Hin.
    assert (Hin' : (n, c) ∈ all). { rewrite <- Hperm, <- (take_drop 10 (sort_by more_first all)), elem_of_app. by left. }
    split; [apply Hkeys; apply list_elem_of_fmap; by exists (n, c)|exact (Htotal _ Hin')].
  - intros n x Hn Hout Hx. apply Hkeys, list_elem_of_fmap in Hn as (e & -> & He). rewrite <- (Htotal e He).
    assert (Hdrop : e ∈ drop 10 (sort_by more_first all)).
    { assert (Hin : e ∈ sort_by more_first all) by (by rewrite Hperm).
      rewrite <- (take_drop 10 (sort_by more_first all)) in Hin. apply elem_of_app in Hin as [Hin|]; [|done].
      destruct Hout. by apply list_elem_of_fmap_2. }
    pose proof (take_sorted (le_rel more_first) 10 _ Hsort x e Hx Hdrop) as Hle.
    unfold le_rel, more_first in Hle. by apply Z.leb_le in Hle.
Qed.
