(* ===== verification/UserProfileProofs.v ===== *)
(** * UserProfileProofs: the profile survives its file

    Reading what was written gives the same profile, up to the decimals that
    are written; and whatever was read is a profile of that kind. *)

From Stdlib Require Import ZArith SpecFloat Lia.
From stdpp Require Import base list strings.
From stdpp Require pretty.
From S2P Require Import Prelude Text Float64 TextProofs UserProfile.

#[local] Open Scope list_scope.
#[local] Open Scope Z_scope.

(** ** Decimal numbers *)

Lemma digits_app l r a : digits (l ++ r) a = digits l a ≫= digits r.
Proof. revert a. induction l as [|c l IH]; intros a; [done|]. simpl. by destruct (digit_of c). Qed.

Lemma pretty_digit (d : N) : (d < 10)%N ->
  is_digit (pretty.pretty_N_char d) = true /\ digit_of (pretty.pretty_N_char d) = Some (Z.of_N d).
Proof.
  intros Hd. assert (Hall : forallb (fun n => is_digit (pretty.pretty_N_char (N.of_nat n))
    && bool_decide (digit_of (pretty.pretty_N_char (N.of_nat n)) = Some (Z.of_nat n))) (seq 0 10) = true) by (vm_compute; reflexivity).
  rewrite forallb_elem in Hall. specialize (Hall (N.to_nat d)). rewrite N2Nat.id, N_nat_Z in Hall.
  apply andb_true_iff in Hall as [H1 H2%bool_decide_eq_true]; [done|]. apply elem_of_seq. lia.
Qed.

(** The digits [pretty_N_go] puts before a text. *)
Lemma pretty_go_digits (x : N) s :
  exists ds, bytes_of (pretty.pretty_N_go x s) = ds ++ bytes_of s /\ forallb is_digit ds = true
    /\ ((0 < x)%N -> ds <> [])
    /\ forall a, digits ds a = Some (a * 10 ^ Z.of_nat (length ds) + Z.of_N x).
Proof.
  revert s. induction (N.lt_wf_0 x) as [x _ IH]; intros s.
  destruct (decide (0 < x)%N) as [Hx|Hx].
  - rewrite pretty.pretty_N_go_step by done.
    destruct (IH (x `div` 10)%N ltac:(by apply N.div_lt) (String.String (pretty.pretty_N_char (x `mod` 10)) s)) as (ds & Hb & Hd & _ & Hv).
    destruct (pretty_digit (x `mod` 10)) as [Hc1 Hc2]; [by apply N.mod_lt|].
    exists (ds ++ [pretty.pretty_N_char (x `mod` 10)]). split; [|split; [|split]].
    + rewrite Hb. simpl. by rewrite <- (assoc_L (++)).
    + rewrite forallb_app. apply andb_true_iff. split; [exact Hd|]. simpl. by rewrite Hc1.
    + intros _. by destruct ds.
    + intros a. rewrite digits_app, Hv. simpl. rewrite Hc2. f_equal. rewrite length_app. simpl.
      replace (Z.of_nat (length ds + 1)) with (Z.succ (Z.of_nat (length ds))) by lia. rewrite Z.pow_succ_r by lia.
      rewrite N2Z.inj_div, N2Z.inj_mod. pose proof (Z.div_mod (Z.of_N x) 10 ltac:(lia)) as Hdm. simpl Z.of_N in *. lia.
  - assert (x = 0%N) as -> by lia. exists []. rewrite pretty.pretty_N_go_0. split; [done|]. split; [done|]. split; [lia|].
    intros a. simpl. f_equal. lia.
Qed.

Lemma show_digits n : 0 <= n ->
  show_bytes n <> [] /\ forallb is_digit (show_bytes n) = true /\ digits (show_bytes n) 0 = Some n.
Proof.
  intros Hn. unfold show_bytes, show_Z. destruct n as [|p|p]; [done| |lia].
  destruct (pretty_go_digits (Npos p) "") as (ds & Hb & Hd & Hne & Hv). simpl in Hb. rewrite app_nil_r in Hb.
  change (pretty.pretty (Z.pos p)) with (pretty.pretty (N.pos p)).
  unfold pretty.pretty, pretty.pretty_N. rewrite decide_False by done. rewrite Hb. split; [by apply Hne|]. split; [done|].
  by rewrite Hv.
Qed.

Lemma parse_uint_digits hi (l : list Ascii.ascii) n :
  l <> [] -> forallb is_digit l = true -> digits l 0 = Some n -> 0 <= n <= hi -> parse_uint hi (string_of l) = Some n.
Proof.
  intros Hne Hd Hn Hr. unfold parse_uint, parse_int. rewrite String.list_ascii_of_string_of_list_ascii.
  destruct l as [|c l]; [done|]. simpl in Hd. apply andb_true_iff in Hd as [Hc _].
  unfold is_digit in Hc. apply andb_true_iff in Hc as [Hc1%Nat.leb_le Hc2%Nat.leb_le].
  rewrite (proj2 (Nat.eqb_neq _ 45)), (proj2 (Nat.eqb_neq _ 43)) by lia. rewrite Hn, Z.mul_1_l.
  by rewrite (proj2 (Z.leb_le 0 n)), (proj2 (Z.leb_le n hi)) by lia.
Qed.

Lemma parse_show hi n : 0 <= n <= hi -> parse_uint hi (string_of (show_bytes n)) = Some n.
Proof. intros Hn. destruct (show_digits n) as (Hne & Hd & Hv); [lia|]. by apply parse_uint_digits. Qed.

(** ** One line *)

Lemma plain_cons c l : c <> LF -> c <> CR -> plain l -> plain (c :: l).
Proof. intros H1 H2 [Hl Hc]. split; rewrite not_elem_of_cons; split; congruence. Qed.

Lemma plain_nil : plain [].
Proof. split; apply not_elem_of_nil. Qed.

(** Literal texts are checked by computation. *)
Definition plain_b (l : text) : bool := forallb (fun c => negb (Ascii.eqb c LF || Ascii.eqb c CR)) l.

Lemma plain_decide l : plain_b l = true -> plain l.
Proof.
  unfold plain_b. rewrite forallb_elem. intros Hl. split; intros Hin; specialize (Hl _ Hin); bool_hyps;
    [by rewrite Ascii.eqb_refl in *|by rewrite Ascii.eqb_refl in *].
Qed.

Lemma plain_sub p l s : plain (p ++ l ++ s) -> plain l.
Proof. rewrite !plain_app. tauto. Qed.

(** A value: one line, nothing to trim; an item: not empty. *)
Definition value_ok (l : text) : Prop := fixed l /\ plain l.
Definition item_ok (l : text) : Prop := value_ok l /\ l <> [].

Lemma trim_text_span l : exists p s, l = p ++ trim_text l ++ s.
Proof.
  unfold trim_text, trim_back, trim_front.
  destruct (trim_with_suffix whitespace (length l) l) as [p Hp]. set (m := trim_with whitespace (length l) l) in *.
  destruct (trim_with_suffix back_whitespace (length m) (reverse m)) as [s Hs].
  apply (f_equal reverse) in Hs. rewrite reverse_involutive, reverse_app in Hs. exists p, (reverse s). by rewrite <- Hs.
Qed.

Lemma trim_value l : plain l -> value_ok (trim_text l).
Proof.
  intros Hl. split; [apply trim_text_fixed|]. destruct (trim_text_span l) as (p & s & He). rewrite He in Hl. by eapply plain_sub.
Qed.

Lemma non_empty_ok l x : plain l -> non_empty (trim_text l) = Some x -> item_ok x.
Proof.
  unfold non_empty. intros Hl. destruct (trim_text l) eqn:Ht; [done|]. simpl. intros [= <-]. split; [|done].
  rewrite <- Ht. by apply trim_value.
Qed.

Lemma non_empty_item x : item_ok x -> non_empty (trim_text x) = Some x.
Proof. intros [[Hf _] Hne]. rewrite (fixed_trim _ Hf). by destruct x. Qed.

(** A value behind a label that ends in a visible byte and a space. *)
Lemma labelled c q l v :
  solid c = true -> l = c :: q -> back_fixed l -> (exists q' d, l = q' ++ [d] /\ ascii d = true) -> value_ok v ->
  trim_text (l ++ (gap :: v)) = if text_empty v then l else l ++ (gap :: v).
Proof.
  intros Hc Hl Hb (q' & d & Hq & Hd) [[Hf Hvb] _]. destruct v as [|x v]; simpl text_empty; cbv iota.
  - apply trim_trailing_blank; [|by rewrite Hl]. split; [rewrite Hl; by apply front_fixed_solid|done].
  - apply fixed_trim. split; [rewrite Hl; by apply front_fixed_solid|].
    rewrite Hq, <- (assoc_L (++)). simpl. by apply back_fixed_app.
Qed.

Lemma dash_item x : item_ok x -> trim_text (bytes_of "- " ++ x) = bytes_of "- " ++ x.
Proof.
  intros [[[Hf Hb] _] Hne]. apply fixed_trim. split; [by apply front_fixed_solid|].
  by apply (back_fixed_app [] (Ascii.ascii_of_nat 45) gap x).
Qed.

(** What a label leaves of its line, once trimmed. *)
Lemma label_value l v : value_ok v ->
  exists r, (if text_empty v then l else l ++ (gap :: v)) = l ++ r /\ trim_text r = v.
Proof.
  intros [Hv _]. destruct v as [|x v]; simpl.
  - exists []. by rewrite app_nil_r.
  - exists (gap :: x :: v). split; [done|]. by apply trim_leading_blank.
Qed.

(** ** Headers *)

Lemma trim_front_fixed l : front_fixed l -> trim_text l `prefix_of` l.
Proof.
  intros Hf. unfold trim_text, trim_front. rewrite (trim_with_stop _ _ _ Hf). unfold trim_back.
  destruct (trim_with_suffix back_whitespace (length l) (reverse l)) as [s Hs].
  apply (f_equal reverse) in Hs. rewrite reverse_involutive, reverse_app in Hs. exists (reverse s). done.
Qed.

(** A line whose first bytes are visible and not the mark of a section. *)
Lemma not_header l : front_fixed l -> strip (bytes_of "## ") l = None -> header_of l = None.
Proof.
  intros Hf Hs. unfold header_of. destruct (strip (bytes_of "## ") (trim_text l)) as [r|] eqn:Ht; [|done].
  apply strip_some in Ht. destruct (trim_front_fixed l Hf) as [s He]. rewrite Ht in He.
  rewrite He, <- (assoc_L (++)), strip_app in Hs. done.
Qed.

Lemma dash_not_header l : header_of (bytes_of "- " ++ l) = None.
Proof. apply not_header; [by apply front_fixed_solid|done]. Qed.

Lemma project_not_header l : header_of (bytes_of "### " ++ l) = None.
Proof. apply not_header; [by apply front_fixed_solid|done]. Qed.

(** ** Sections *)

Lemma section_body ls rest done title body :
  Forall (fun l => header_of l = None) ls ->
  foldl section_line (done, (title, body)) (ls ++ rest) = foldl section_line (done, (title, body ++ ls)) rest.
Proof.
  intros Hls. revert body. induction Hls as [|l ls Hl _ IH]; intros body; [by rewrite app_nil_r|].
  simpl. rewrite Hl, IH. by rewrite <- (assoc_L (++)).
Qed.

Lemma section_head h l rest done title body :
  header_of l = Some h ->
  foldl section_line (done, (title, body)) (l :: rest) = foldl section_line (push_section done (title, body), (h, [])) rest.
Proof. intros Hl. simpl. by rewrite Hl. Qed.

(** One section of a written file: its header, its lines. *)
Lemma section_block h l ls rest done title body :
  header_of l = Some h -> Forall (fun l => header_of l = None) ls ->
  foldl section_line (done, (title, body)) (l :: (ls ++ rest))
  = foldl section_line (push_section done (title, body), (h, ls)) rest.
Proof. intros Hl Hls. rewrite (section_head h) by done. by rewrite section_body. Qed.

(** ** Reading back each section *)

Lemma read_list target xs :
  Forall item_ok xs -> parse_list_section (((fun x => bytes_of "- " ++ x) <$> xs) ++ [[]]) target = target ++ xs.
Proof.
  intros Hxs. unfold parse_list_section. f_equal. induction Hxs as [|x xs Hx _ IH]; [done|].
  rewrite fmap_cons, <- app_comm_cons, omap_cons. unfold item_of at 1. rewrite dash_item by done. rewrite strip_app.
  cbn [mbind option_bind]. rewrite non_empty_item by done. by f_equal.
Qed.

Lemma split_once_app k v : colon ∉ k -> split_once colon (k ++ (colon :: v)) = Some (k, v).
Proof.
  induction k as [|c k IH]; [done|]. intros Hk%not_elem_of_cons. simpl. destruct (Ascii.eqb_spec c colon) as [->|]; [tauto|].
  by rewrite IH by tauto.
Qed.

Definition pref_ok (e : text * text) : Prop := item_ok e.1 /\ (colon ∉ e.1) /\ value_ok e.2.

Lemma pref_line k v : pref_ok (k, v) -> pref_of (bytes_of "- " ++ k ++ bytes_of ": " ++ v) = Some (k, v).
Proof.
  intros ([[[Hkf Hkb] Hkp] Hkne] & Hk & Hv). cbn [fst snd] in *. unfold pref_of, item_of.
  assert (Hline : bytes_of "- " ++ k ++ bytes_of ": " ++ v = (bytes_of "- " ++ k ++ [colon]) ++ (gap :: v))
    by (by rewrite <- !(assoc_L (++))).
  rewrite Hline. rewrite (labelled (Ascii.ascii_of_nat 45) (gap :: (k ++ [colon]))); [|done|done| | |done].
  - destruct (label_value (bytes_of "- " ++ k ++ [colon]) v Hv) as (r & -> & Hr).
    rewrite <- (assoc_L (++)), strip_app. cbn [mbind option_bind]. rewrite <- (assoc_L (++)). simpl app.
    rewrite split_once_app by done. cbn [mbind option_bind]. rewrite (fixed_trim k) by done. rewrite Hr. by destruct k.
  - rewrite (assoc_L (++)). by apply back_fixed_solid.
  - exists (bytes_of "- " ++ k), colon. by rewrite <- (assoc_L (++)).
Qed.

Lemma read_prefs target es :
  Forall pref_ok es ->
  parse_tool_prefs (((fun '(t, x) => bytes_of "- " ++ t ++ bytes_of ": " ++ x) <$> es) ++ [[]]) target = target ++ es.
Proof.
  intros Hes. unfold parse_tool_prefs. f_equal. induction Hes as [|[k v] es He _ IH]; [done|].
  rewrite fmap_cons, <- app_comm_cons, omap_cons. rewrite pref_line by done. by f_equal.
Qed.

Definition project_ok (p : ProjectPref) : Prop :=
  item_ok (path p) /\ Forall (fun x => item_ok x /\ strip (bytes_of "Model:") x = None) (notes p)
  /\ match model_preference p with Some m => value_ok m | None => True end.

Lemma project_note pr x :
  item_ok x -> strip (bytes_of "Model:") x = None ->
  project_item pr (trim_text (bytes_of "- " ++ x)) = mkProject (path pr) (notes pr ++ [x]) (model_preference pr).
Proof.
  intros Hx Hm. rewrite dash_item by done. unfold project_item. rewrite strip_app.
  destruct Hx as [[Hf _] _]. by rewrite (fixed_trim _ Hf), Hm.
Qed.

Lemma project_model pr m :
  value_ok m ->
  project_item pr (trim_text (bytes_of "- Model: " ++ m)) = mkProject (path pr) (notes pr) (Some m).
Proof.
  intros Hm. change (bytes_of "- Model: " ++ m) with (bytes_of "- Model:" ++ (gap :: m)).
  rewrite (labelled (Ascii.ascii_of_nat 45) (bytes_of " Model:")); [|done|done| | |done].
  - destruct Hm as [Hf Hp]. unfold project_item. destruct m as [|c m]; [done|]. simpl text_empty. cbv iota.
    change (bytes_of "- Model:" ++ (gap :: c :: m)) with (bytes_of "- " ++ (bytes_of "Model:" ++ (gap :: c :: m))).
    rewrite strip_app. rewrite (labelled (Ascii.ascii_of_nat 77) (bytes_of "odel:")); [|done|done| | |done].
    + simpl text_empty. cbv iota. rewrite strip_app. by rewrite trim_leading_blank.
    + by apply (back_fixed_solid (bytes_of "Model")).
    + by exists (bytes_of "Model"), colon.
  - by apply (back_fixed_solid (bytes_of "- Model")).
  - by exists (bytes_of "- Model"), colon.
Qed.

Lemma project_header x : item_ok x -> trim_text (bytes_of "### " ++ x) = bytes_of "### " ++ x.
Proof.
  intros [[[Hf Hb] _] Hne]. apply fixed_trim. split; [by apply front_fixed_solid|].
  by apply (back_fixed_app (bytes_of "##") hash gap x).
Qed.

Lemma blank_line_project acc : project_line acc [] = acc.
Proof. destruct acc as [target [[p n m]|]]; done. Qed.

Lemma project_line_item target pr l :
  strip (bytes_of "### ") (trim_text l) = None ->
  project_line (target, Some pr) l = (target, Some (project_item pr (trim_text l))).
Proof. intros Hs. unfold project_line. by rewrite Hs. Qed.

Lemma dash_no_project l : strip (bytes_of "### ") (trim_text (bytes_of "- " ++ l)) = None.
Proof.
  assert (Hf : front_fixed (bytes_of "- " ++ l)) by (by apply front_fixed_solid).
  destruct (strip (bytes_of "### ") _) as [r|] eqn:Hs; [|done]. apply strip_some in Hs.
  destruct (trim_front_fixed _ Hf) as [s He]. rewrite Hs in He. by injection He.
Qed.

(** A whole project: the one before it is complete, and it is the current one. *)
Lemma read_project target cur p :
  project_ok p ->
  foldl project_line (target, cur) (project_lines p) = (target ++ option_list cur, Some p).
Proof.
  intros (Hp & Hn & Hm). unfold project_lines. rewrite foldl_app. cbn [foldl].
  unfold project_line at 2. rewrite project_header by done. rewrite strip_app.
  destruct Hp as [[Hpf _] _]. rewrite (fixed_trim _ Hpf). rewrite foldl_app.
  assert (Hnotes : forall done, foldl project_line (target ++ option_list cur, Some (mkProject (path p) done None))
      ((fun note => bytes_of "- " ++ note) <$> notes p)
    = (target ++ option_list cur, Some (mkProject (path p) (done ++ notes p) None))).
  { induction Hn as [|x xs [Hx Hxm] _ IH]; intros done; [by rewrite app_nil_r|]. rewrite fmap_cons. cbn [foldl].
    rewrite project_line_item by apply dash_no_project. rewrite project_note by done. cbn [path notes model_preference].
    rewrite IH. by rewrite <- (assoc_L (++)). }
  rewrite Hnotes, foldl_app. destruct p as [pa ns [m|]]; cbn [path notes model_preference foldl app] in *; rewrite blank_line_project; [|done].
  change (bytes_of "- Model: " ++ m) with (bytes_of "- " ++ (bytes_of "Model: " ++ m)).
  rewrite project_line_item by apply dash_no_project.
  change (bytes_of "- " ++ (bytes_of "Model: " ++ m)) with (bytes_of "- Model: " ++ m). by rewrite project_model.
Qed.

Lemma read_projects target ps :
  Forall project_ok ps -> parse_projects (concat (project_lines <$> ps)) target = target ++ ps.
Proof.
  intros Hps. unfold parse_projects.
  enough (Hgen : forall target cur, let '(t, c) := foldl project_line (target, cur) (concat (project_lines <$> ps)) in
    t ++ option_list c = target ++ option_list cur ++ ps).
  { specialize (Hgen target None). destruct (foldl _ _ _) as [t c]. by rewrite Hgen. }
  induction Hps as [|p ps Hp _ IH]; intros t cur; [by rewrite app_nil_r|].
  rewrite fmap_cons. cbn [concat]. rewrite foldl_app, read_project by done. specialize (IH (t ++ option_list cur) (Some p)).
  destruct (foldl _ _ _) as [t' c']. rewrite IH. simpl. by rewrite <- (assoc_L (++)).
Qed.

(** ** The numbers *)

(** The bytes a number is written with. *)
Definition number_byte (c : byte) : bool :=
  is_digit c || existsb (Ascii.eqb c) (bytes_of ".-NaNinf").

Definition number_text (l : text) : Prop := l <> [] /\ forallb number_byte l = true.

Lemma digit_number c : is_digit c = true -> number_byte c = true.
Proof. unfold number_byte. by intros ->. Qed.

Lemma digits_number_text l : l <> [] -> forallb is_digit l = true -> number_text l.
Proof. intros Hne Hd. split; [done|]. rewrite forallb_elem in *. intros c Hc. by apply digit_number, Hd. Qed.

(** Every byte of ASCII that a number uses is visible and none of the marks. *)
Lemma number_byte_facts c : number_byte c = true ->
  solid c = true /\ c <> LF /\ c <> CR /\ c <> usd /\ c <> letter_s /\ c <> comma /\ c <> open_paren /\ c <> close_paren.
Proof.
  assert (Hall : forallb (fun n => let c := Ascii.ascii_of_nat n in negb (number_byte c) ||
      (solid c && negb (existsb (Ascii.eqb c) [LF; CR; usd; letter_s; comma; open_paren; close_paren]))) (seq 0 256) = true)
    by (vm_compute; reflexivity).
  intros Hc. rewrite forallb_elem in Hall. specialize (Hall (Ascii.nat_of_ascii c)). cbv zeta in Hall.
  rewrite Ascii.ascii_nat_embedding, Hc in Hall.
  assert (Hin : Ascii.nat_of_ascii c ∈ seq 0 256) by (apply elem_of_seq; pose proof (Ascii.nat_ascii_bounded c); lia).
  specialize (Hall Hin). apply andb_true_iff in Hall as [Hs Hn%negb_true_iff]. split; [done|].
  repeat split; intros ->; vm_compute in Hn; done.
Qed.

Lemma number_value l : number_text l -> value_ok l.
Proof.
  intros [Hne Hl]. rewrite forallb_elem in Hl. split; [|split; intros Hin; by destruct (number_byte_facts _ (Hl _ Hin)) as (_ & ? & ? & _)].
  split.
  - destruct l as [|c l]; [done|]. apply front_fixed_solid, number_byte_facts, Hl. left.
  - destruct l as [|c l _] using rev_ind; [done|]. apply back_fixed_solid, number_byte_facts, Hl. apply elem_of_app. right. by apply list_elem_of_singleton.
Qed.

Lemma number_app a c : number_text a -> forallb number_byte c = true -> number_text (a ++ c).
Proof. intros [Hne Ha] Hc. split; [by destruct a|]. by rewrite forallb_app, Ha, Hc. Qed.

Lemma show_number n : 0 <= n -> number_text (show_bytes n).
Proof. intros Hn. destruct (show_digits n Hn) as (Hne & Hd & _). by apply digits_number_text. Qed.

Lemma round_half_even_nonneg a b : 0 <= a -> 0 < b -> 0 <= round_half_even a b.
Proof.
  intros Ha Hb. unfold round_half_even. pose proof (Z.div_pos a b Ha Hb).
  repeat case_match; lia.
Qed.

Lemma sign_bytes (s : bool) : forallb number_byte (bytes_of (if s then "-" else "")) = true.
Proof. by destruct s. Qed.

Lemma number_prefix p l : forallb number_byte p = true -> number_text l -> number_text (p ++ l).
Proof. intros Hp [Hne Hl]. split; [by destruct p|]. by rewrite forallb_app, Hp, Hl. Qed.

Lemma concat_bytes_cons (P : byte -> bool) x l :
  forallb P (bytes_of (String.concat "" (x :: l))) = forallb P (bytes_of x) && forallb P (bytes_of (String.concat "" l)).
Proof.
  destruct l as [|y l]; [by rewrite andb_true_r|].
  change (String.concat "" (x :: y :: l)) with (x +:+ String.concat "" (y :: l)). by rewrite bytes_of_app, forallb_app.
Qed.

Lemma zeros_number k : forallb number_byte (bytes_of (String.concat "" (replicate k "0"%string))) = true.
Proof. induction k as [|k IH]; [done|]. cbn [replicate]. by rewrite concat_bytes_cons, IH. Qed.

Lemma fixed_number k x : number_text (bytes_of (fmt_fixed k x)).
Proof.
  unfold fmt_fixed.
  assert (Hdig : forall s n, 0 <= n -> number_text (bytes_of ((if s : bool then "-" else "")
    +:+ show_Z (n / 10 ^ Z.of_nat k) +:+ "." +:+ pad_zeros k (show_Z (n mod 10 ^ Z.of_nat k))))).
  { intros s n Hn. rewrite !bytes_of_app. apply number_prefix; [apply sign_bytes|].
    apply number_app; [apply show_number, Z.div_pos; [done|apply Z.pow_pos_nonneg; lia]|].
    unfold pad_zeros. rewrite bytes_of_app, !forallb_app, zeros_number.
    destruct (show_number (n mod 10 ^ Z.of_nat k)) as [_ Hs]; [apply Z.mod_pos_bound, Z.pow_pos_nonneg; lia|].
    exact Hs. }
  destruct x as [s|s| |s m e]; [by apply Hdig|by destruct s|done|]. apply Hdig. apply round_half_even_nonneg; [|apply Z.pow_pos_nonneg; lia].
  apply Z.mul_nonneg_nonneg; [apply Z.mul_nonneg_nonneg; [lia|]|]; apply Z.pow_nonneg; lia.
Qed.

Lemma whole_number x : number_text (bytes_of (fmt_whole x)).
Proof.
  destruct x as [s|s| |s m e]; [by destruct s|apply fixed_number|apply fixed_number|].
  unfold fmt_whole. rewrite bytes_of_app. apply number_prefix; [apply sign_bytes|]. apply show_number.
  apply round_half_even_nonneg; [|apply Z.pow_pos_nonneg; lia]. apply Z.mul_nonneg_nonneg; [lia|apply Z.pow_nonneg; lia].
Qed.

(** ** Counted lists *)

Definition counted_ok (e : text * Z) : Prop := item_ok e.1 /\ (comma ∉ e.1) /\ 0 <= e.2 <= u32_max.

Definition entry_text (e : text * Z) : text := e.1 ++ (open_paren :: (show_bytes e.2 ++ [close_paren])).

Lemma free_of c l : (c ∉ l) -> forallb (fun x => negb (Ascii.eqb x c)) l = true.
Proof. intros Hc. apply forallb_elem. intros x Hx. apply negb_true_iff, Ascii.eqb_neq. by intros ->. Qed.

Lemma show_free n c : 0 <= n -> number_byte c = false -> c ∉ show_bytes n.
Proof.
  intros Hn Hc Hin. destruct (show_number n Hn) as [_ Hall]. rewrite forallb_elem in Hall.
  specialize (Hall c Hin). congruence.
Qed.

Lemma entry_value e : counted_ok e -> value_ok (entry_text e).
Proof.
  intros ([[[Hf Hb] Hp] Hne] & _ & Hc). destruct e as [n c]; cbn [fst snd] in *. unfold entry_text. cbn [fst snd]. split.
  - split; [by apply front_fixed_app|].
    replace (n ++ open_paren :: show_bytes c ++ [close_paren]) with ((n ++ open_paren :: show_bytes c) ++ [close_paren])
      by (by rewrite <- (assoc_L (++))).
    by apply back_fixed_solid.
  - apply plain_app. split; [done|]. apply plain_cons; [done|done|]. apply plain_app. split; [|by apply plain_decide].
    apply number_value, show_number. lia.
Qed.

Lemma entry_no_comma e : counted_ok e -> comma ∉ entry_text e.
Proof.
  intros (_ & Hn & Hc). unfold entry_text. rewrite not_elem_of_app, not_elem_of_cons, not_elem_of_app. split; [done|].
  split; [done|]. split; [by apply show_free; [lia|]|]. rewrite list_elem_of_singleton. done.
Qed.

Lemma read_entry_trimmed e : counted_ok e ->
  (op ← rfind open_paren (entry_text e);
    cl ← rfind close_paren (entry_text e);
    if Nat.leb cl op then None
    else
      let n := trim_text (take op (entry_text e)) in
      count ← parse_uint u32_max (string_of (take (cl - op - 1) (drop (op + 1) (entry_text e))));
      if text_empty n then None else Some (n, count)) = Some e.
Proof.
  intros ([[Hf Hp] Hne] & _ & Hc). destruct e as [n c]; cbn [fst snd] in *. unfold entry_text. cbn [fst snd].
  set (ds := show_bytes c).
  assert (Hop : rfind open_paren (n ++ open_paren :: ds ++ [close_paren]) = Some (length n)).
  { unfold rfind. rewrite before_last_app; [done|]. apply free_of. rewrite not_elem_of_app, list_elem_of_singleton.
    split; [by apply show_free; [lia|]|done]. }
  assert (Hcl : rfind close_paren (n ++ open_paren :: ds ++ [close_paren]) = Some (length n + S (length ds))%nat).
  { unfold rfind. replace (n ++ open_paren :: ds ++ [close_paren]) with ((n ++ open_paren :: ds) ++ [close_paren])
      by (by rewrite <- (assoc_L (++))).
    rewrite before_last_app by done. simpl. f_equal. by rewrite length_app. }
  rewrite Hop. cbn [mbind option_bind]. rewrite Hcl. cbn [mbind option_bind].
  rewrite (proj2 (Nat.leb_gt _ _)) by lia. rewrite take_app_length, (fixed_trim n) by done.
  replace (drop (length n + 1) (n ++ open_paren :: ds ++ [close_paren])) with (ds ++ [close_paren]).
  2:{ rewrite drop_app_add. done. }
  replace (length n + S (length ds) - length n - 1)%nat with (length ds) by lia. rewrite take_app_length.
  unfold ds. rewrite parse_show by lia. cbn [mbind option_bind]. by destruct n.
Qed.

Lemma read_entry e : counted_ok e -> counted_item (entry_text e) = Some e /\ counted_item (gap :: entry_text e) = Some e.
Proof.
  intros He. destruct (entry_value e He) as [Hf _]. unfold counted_item. rewrite (fixed_trim _ Hf), (trim_leading_blank _ Hf).
  pose proof (read_entry_trimmed e He) as Hr. destruct (text_empty (entry_text e)) eqn:Hem; [|by split].
  exfalso. unfold entry_text in Hem. by destruct (e.1).
Qed.

Lemma counted_text_cons e es :
  counted_text (e :: es) = entry_text e ++ match es with [] => [] | _ => comma :: gap :: counted_text es end.
Proof.
  assert (He : forall e, bytes_of (string_of e.1 +:+ "(" +:+ show_Z e.2 +:+ ")") = entry_text e).
  { intros e0. unfold entry_text, show_bytes. by rewrite !bytes_of_app, String.list_ascii_of_string_of_list_ascii. }
  unfold counted_text. destruct e as [n c]. destruct es as [|[n' c'] es]; rewrite !fmap_cons.
  - rewrite app_nil_r. apply (He (n, c)).
  - change (String.concat ", " (?x :: ?y :: ?l)) with (x +:+ ", " +:+ String.concat ", " (y :: l)).
    rewrite bytes_of_app, (bytes_of_app ", "), <- (He (n, c)). done.
Qed.

Lemma read_counted es : Forall counted_ok es -> parse_counted_list (counted_text es) = es.
Proof.
  intros Hes. unfold parse_counted_list.
  enough (Hgen : forall p, (forall e, counted_ok e -> counted_item (p ++ entry_text e) = Some e) -> comma ∉ p ->
    es <> [] -> omap counted_item (split_byte comma (p ++ counted_text es)) = es).
  { destruct es as [|e es]; [done|]. apply (Hgen []); [|by apply not_elem_of_nil|done]. intros e' He'. by apply read_entry. }
  induction Hes as [|e es He _ IH]; intros p Hp Hpc Hne; [done|]. rewrite counted_text_cons.
  destruct es as [|e' es].
  - rewrite app_nil_r, split_byte_free; [|apply free_of; rewrite not_elem_of_app; split; [done|by apply entry_no_comma]].
    rewrite omap_cons, Hp by done. done.
  - rewrite (assoc_L (++)), split_byte_app, split_byte_free
      by (apply free_of; rewrite not_elem_of_app; split; [done|by apply entry_no_comma]).
    cbn [app]. rewrite omap_cons, Hp by done. f_equal.
    apply (IH [gap]); [|by rewrite list_elem_of_singleton|done]. intros e0 He0. by apply read_entry.
Qed.

Lemma counted_value es : Forall counted_ok es -> value_ok (counted_text es).
Proof.
  intros Hes. destruct es as [|e es]; [split; [apply fixed_nil|apply plain_nil]|].
  enough (Hgen : counted_ok e -> front_fixed (counted_text (e :: es)) /\ back_fixed (counted_text (e :: es)) /\ plain (counted_text (e :: es))).
  { apply Forall_cons in Hes as [He _]. destruct (Hgen He) as (? & ? & ?). by split. }
  revert e Hes. induction es as [|e' es IH]; intros e Hes He; rewrite counted_text_cons.
  - rewrite app_nil_r. destruct (entry_value e He) as [[? ?] ?]. done.
  - apply Forall_cons in Hes as [_ Hes]. pose proof Hes as [He' _]%Forall_cons. destruct (IH e' Hes He') as (Hf & Hb & Hp).
    destruct (entry_value e He) as [[Hef _] Hep]. split; [|split].
    + apply front_fixed_app; [done| |done]. unfold entry_text. by destruct (e.1).
    + apply back_fixed_app; [done| |done|done]. rewrite counted_text_cons. unfold entry_text. by destruct (e'.1).
    + apply plain_app. split; [done|]. apply plain_cons; [done|done|]. by apply plain_cons.
Qed.

(** ** The statistics *)

(** The numbers that are written with fewer decimals than they have. *)
Definition reread_cost (x : f64) : f64 := default f64_zero (parse_f64 (bytes_of (fmt_fixed 2 x))).
Definition reread_duration (x : f64) : f64 := default f64_zero (parse_f64 (bytes_of (fmt_whole x))).

Definition reread_stats (s : ProfileStats) : ProfileStats :=
  mkStats (total_sessions s) (total_turns s) (reread_cost (total_cost_usd s)) (top_tools s) (common_tasks s)
    (reread_duration (avg_session_duration s)).

Definition stats_ok (s : ProfileStats) : Prop :=
  is_u64 (total_sessions s) /\ is_u64 (total_turns s) /\ Forall counted_ok (top_tools s) /\ Forall counted_ok (common_tasks s).

Definition stats_lines (s : ProfileStats) : list text :=
  [bytes_of "- Sessions: " ++ show_bytes (total_sessions s);
   bytes_of "- Total Turns: " ++ show_bytes (total_turns s);
   bytes_of "- Total Cost: $" ++ bytes_of (fmt_fixed 2 (total_cost_usd s));
   bytes_of "- Top Tools: " ++ counted_text (top_tools s);
   bytes_of "- Common Tasks: " ++ counted_text (common_tasks s);
   bytes_of "- Avg Duration: " ++ bytes_of (fmt_whole (avg_session_duration s)) ++ bytes_of "s"; []].

(** A line of the statistics: its label, and what follows once trimmed. *)
Lemma stats_label l v :
  forallb ascii (bytes_of l) = true -> back_fixed (bytes_of l) -> (exists q, bytes_of l = Ascii.ascii_of_nat 45 :: q) -> value_ok v ->
  exists r, trim_text (bytes_of l ++ (gap :: v)) = bytes_of l ++ r /\ trim_text r = v.
Proof.
  intros Ha Hb [q Hq] Hv. rewrite (labelled (Ascii.ascii_of_nat 45) q); [|done|done|done| |done].
  - by apply label_value.
  - rewrite forallb_elem in Ha. destruct (bytes_of l) as [|d m _] using rev_ind; [done|]. exists m, d. split; [done|].
    apply Ha. apply elem_of_app. right. by apply list_elem_of_singleton.
Qed.

Lemma drop_byte_other c l : match l with x :: _ => x <> c | [] => True end -> drop_byte c l = l.
Proof. destruct l as [|x l]; [done|]. intros Hx. simpl. by destruct (Ascii.eqb_spec x c). Qed.

Lemma number_no_usd l : number_text l -> drop_byte usd (usd :: l) = l.
Proof.
  intros [Hne Hl]. simpl. apply drop_byte_other. destruct l as [|x l]; [done|]. simpl in Hl. apply andb_true_iff in Hl as [Hx _].
  by apply number_byte_facts in Hx as (_ & _ & _ & ? & _).
Qed.

Lemma number_no_s l : number_text l -> drop_back letter_s (l ++ [letter_s]) = l.
Proof.
  intros [Hne Hl]. unfold drop_back. rewrite reverse_snoc. simpl. rewrite drop_byte_other, reverse_involutive; [done|].
  destruct (reverse l) as [|x m] eqn:Hr; [done|]. rewrite forallb_elem in Hl.
  apply number_byte_facts, Hl. rewrite <- (reverse_involutive l), Hr. apply elem_of_reverse. left.
Qed.

Lemma usd_value l : number_text l -> value_ok (usd :: l).
Proof.
  intros Hl. destruct (number_value l Hl) as [[Hf Hb] Hp]. split; [split; [by apply front_fixed_solid|]|by apply plain_cons].
  destruct Hl as [Hne Hall]. destruct l as [|c m _] using rev_ind; [done|]. rewrite app_comm_cons. apply back_fixed_solid.
  rewrite forallb_elem in Hall. apply number_byte_facts, Hall, elem_of_app. right. by apply list_elem_of_singleton.
Qed.

Lemma s_value l : number_text l -> value_ok (l ++ [letter_s]).
Proof.
  intros Hl. destruct (number_value l Hl) as [[Hf Hb] Hp]. split; [split; [|by apply back_fixed_solid]|].
  - apply front_fixed_app; [done|apply Hl|done].
  - apply plain_app. split; [done|by apply plain_decide].
Qed.


(** Reading a written line of the statistics. *)
Lemma stats_line_read l v s0 s1 :
  forallb ascii (bytes_of l) = true -> back_fixed (bytes_of l) -> (exists q, bytes_of l = Ascii.ascii_of_nat 45 :: q) ->
  value_ok v -> (forall r, trim_text r = v -> stats_item s0 (bytes_of l ++ r) = s1) ->
  stats_line s0 (bytes_of l ++ (gap :: v)) = s1.
Proof.
  intros Ha Hb Hq Hv Hread. unfold stats_line. destruct (stats_label l v Ha Hb Hq Hv) as (r & -> & Hr). by apply Hread.
Qed.

Lemma parse_count_show n r : is_u64 n -> trim_text r = show_bytes n -> parse_count r = n.
Proof. intros Hn Hr. unfold parse_count. rewrite Hr, parse_show; [done|]. exact Hn. Qed.

Ltac stats_label_ok := first [reflexivity | by eexists].

Lemma read_stats s0 s : stats_ok s -> parse_stats (stats_lines s) s0 = reread_stats s.
Proof.
  intros (Hs & Ht & Htt & Hct). unfold parse_stats.
  change (stats_lines s) with
    [bytes_of "- Sessions:" ++ (gap :: show_bytes (total_sessions s));
     bytes_of "- Total Turns:" ++ (gap :: show_bytes (total_turns s));
     bytes_of "- Total Cost:" ++ (gap :: usd :: bytes_of (fmt_fixed 2 (total_cost_usd s)));
     bytes_of "- Top Tools:" ++ (gap :: counted_text (top_tools s));
     bytes_of "- Common Tasks:" ++ (gap :: counted_text (common_tasks s));
     bytes_of "- Avg Duration:" ++ (gap :: bytes_of (fmt_whole (avg_session_duration s)) ++ [letter_s]); []].
  cbn [foldl]. destruct s0 as [a1 a2 a3 a4 a5 a6].
  rewrite (stats_line_read "- Sessions:" _ _ (mkStats (total_sessions s) a2 a3 a4 a5 a6));
    [|stats_label_ok..|by apply number_value, show_number, Hs|].
  2:{ intros r Hr. unfold stats_item. rewrite strip_app. cbn. by rewrite (parse_count_show (total_sessions s)). }
  rewrite (stats_line_read "- Total Turns:" _ _ (mkStats (total_sessions s) (total_turns s) a3 a4 a5 a6));
    [|stats_label_ok..|by apply number_value, show_number, Ht|].
  2:{ intros r Hr. unfold stats_item. cbn -[show_bytes]. by rewrite (parse_count_show (total_turns s)). }
  rewrite (stats_line_read "- Total Cost:" _ _
             (mkStats (total_sessions s) (total_turns s) (reread_cost (total_cost_usd s)) a4 a5 a6));
    [|stats_label_ok..|by apply usd_value, fixed_number|].
  2:{ intros r Hr. unfold stats_item. cbn -[trim_text drop_byte parse_f64 fmt_fixed]. rewrite Hr, number_no_usd by apply fixed_number. done. }
  rewrite (stats_line_read "- Top Tools:" _ _
             (mkStats (total_sessions s) (total_turns s) (reread_cost (total_cost_usd s)) (top_tools s) a5 a6));
    [|stats_label_ok..|by apply counted_value|].
  2:{ intros r Hr. unfold stats_item. cbn -[trim_text parse_counted_list]. by rewrite Hr, read_counted. }
  rewrite (stats_line_read "- Common Tasks:" _ _
             (mkStats (total_sessions s) (total_turns s) (reread_cost (total_cost_usd s)) (top_tools s) (common_tasks s) a6));
    [|stats_label_ok..|by apply counted_value|].
  2:{ intros r Hr. unfold stats_item. cbn -[trim_text parse_counted_list]. by rewrite Hr, read_counted. }
  rewrite (stats_line_read "- Avg Duration:" _ _ (reread_stats s)); [done|stats_label_ok..|by apply s_value, whole_number|].
  intros r Hr. unfold stats_item. cbn -[trim_text drop_back parse_f64 fmt_whole]. rewrite Hr, number_no_s by apply whole_number. done.
Qed.

(** ** The whole file *)

Lemma lines_unlines_app ls x : Forall plain ls -> lines (unlines ls ++ x) = ls ++ lines x.
Proof.
  induction 1 as [|l ls [Hl Hc] _ IH]; [done|]. unfold unlines in *. cbn [fmap list_fmap concat].
  rewrite <- (assoc_L (++)). unfold lines at 1. rewrite lines_from_app. change (lines_from [] (l ++ [LF])) with (lines (l ++ [LF])).
  by rewrite lines_one, strip_cr_plain, IH.
Qed.

Lemma lines_split c : CR ∉ c -> lines (c ++ [LF]) = split_byte LF c.
Proof.
  intros Hc. unfold lines.
  enough (Hgen : forall cur, CR ∉ cur -> LF ∉ cur -> lines_from cur (c ++ [LF]) = split_byte LF (cur ++ c))
    by (apply (Hgen []); apply not_elem_of_nil).
  induction c as [|x c IH]; intros cur Hcur Hlf; cbn [app lines_from].
  - rewrite Ascii.eqb_refl, app_nil_r, strip_cr_plain by done. rewrite split_byte_free; [done|by apply free_of].
  - apply not_elem_of_cons in Hc as [Hx Hc]. destruct (Ascii.eqb_spec x LF) as [->|Hxl].
    + rewrite strip_cr_plain, split_byte_app by done. rewrite (split_byte_free LF cur) by by apply free_of.
      cbn [app]. f_equal. apply IH; [done|apply not_elem_of_nil..].
    + rewrite IH; [by rewrite <- (assoc_L (++))|done|..]; rewrite not_elem_of_app, list_elem_of_singleton; split; congruence.
Qed.

Lemma join_split c : join_lines (split_byte LF c) = c.
Proof.
  induction c as [|x c IH]; [done|]. simpl. destruct (Ascii.eqb_spec x LF) as [->|Hx].
  - pose proof (split_byte_not_nil LF c). destruct (split_byte LF c) as [|l ls] eqn:Hs; [done|].
    change (join_lines ([] :: l :: ls)) with (LF :: join_lines (l :: ls)). by rewrite IH.
  - pose proof (split_byte_not_nil LF c). destruct (split_byte LF c) as [|l ls] eqn:Hs; [done|].
    destruct ls as [|l' ls]; simpl in *; by rewrite <- IH.
Qed.

(** The lines of the instructions: none opens a section. *)
Definition instructions_ok (c : text) : Prop :=
  fixed c /\ (CR ∉ c) /\ Forall (fun l => header_of l = None) (split_byte LF c).

Definition profile_ok (p : UserProfile) : Prop :=
  match name p with Some v => item_ok v | None => True end
  /\ match preferred_language p with Some v => item_ok v | None => True end
  /\ Forall item_ok (coding_style p) /\ Forall item_ok (workflows p)
  /\ Forall pref_ok (tool_preferences p) /\ Forall project_ok (project_preferences p)
  /\ stats_ok (stats p) /\ instructions_ok (custom_instructions p).

(** The profile with the decimals of its file. *)
Definition reread (now : text) (p : UserProfile) : UserProfile := set_updated (set_stats p (reread_stats (stats p))) now.

(** The body of each section as it is written. *)
Definition personal_lines (p : UserProfile) : list text :=
  [bytes_of "- Name:" ++ (gap :: default [] (name p));
   bytes_of "- Preferred Language:" ++ (gap :: default [] (preferred_language p)); []].
Definition item_lines (xs : list text) : list text := ((fun x => bytes_of "- " ++ x) <$> xs) ++ [[]].
Definition pref_lines (es : list (text * text)) : list text :=
  ((fun '(t, x) => bytes_of "- " ++ t ++ bytes_of ": " ++ x) <$> es) ++ [[]].

Lemma profile_blocks p :
  profile_lines p =
  [bytes_of "# User Profile"; []]
  ++ (bytes_of "## Personal" :: (personal_lines p
  ++ (bytes_of "## Coding Style" :: (item_lines (coding_style p)
  ++ (bytes_of "## Workflows" :: (item_lines (workflows p)
  ++ (bytes_of "## Tool Preferences" :: (pref_lines (tool_preferences p)
  ++ (bytes_of "## Projects" :: (concat (project_lines <$> project_preferences p)
  ++ (bytes_of "## Stats" :: (stats_lines (stats p)
  ++ [bytes_of "## Custom Instructions"])))))))))))).
Proof.
  unfold profile_lines, item_lines, pref_lines. rewrite <- !(assoc_L (++)). reflexivity.
Qed.

Definition opens_none (ls : list text) : Prop := Forall (fun l => header_of l = None) ls.

Lemma items_open_none xs : opens_none (item_lines xs).
Proof.
  unfold item_lines. apply Forall_app. split; [|by repeat constructor].
  apply Forall_forall. intros l (x & -> & _)%list_elem_of_fmap. apply dash_not_header.
Qed.

Lemma prefs_open_none es : opens_none (pref_lines es).
Proof.
  unfold pref_lines. apply Forall_app. split; [|by repeat constructor].
  apply Forall_forall. intros l ([k v] & -> & _)%list_elem_of_fmap. apply dash_not_header.
Qed.

Lemma project_opens_none p : opens_none (project_lines p).
Proof.
  unfold project_lines. repeat apply Forall_app_2; [by repeat constructor; apply project_not_header| | |by repeat constructor].
  - apply Forall_forall. intros l (x & -> & _)%list_elem_of_fmap. apply dash_not_header.
  - destruct (model_preference p) as [m|]; repeat constructor. apply (dash_not_header (bytes_of "Model: " ++ m)).
Qed.

Lemma projects_open_none ps : opens_none (concat (project_lines <$> ps)).
Proof. induction ps as [|p ps IH]; [constructor|]. rewrite fmap_cons. cbn [concat]. apply Forall_app_2; [apply project_opens_none|done]. Qed.

Lemma stats_open_none s : opens_none (stats_lines s).
Proof.
  unfold stats_lines. repeat constructor.
  - apply (dash_not_header (bytes_of "Sessions: " ++ _)).
  - apply (dash_not_header (bytes_of "Total Turns: " ++ _)).
  - apply (dash_not_header (bytes_of "Total Cost: $" ++ _)).
  - apply (dash_not_header (bytes_of "Top Tools: " ++ _)).
  - apply (dash_not_header (bytes_of "Common Tasks: " ++ _)).
  - apply (dash_not_header (bytes_of "Avg Duration: " ++ _)).
Qed.

Lemma personal_opens_none p : opens_none (personal_lines p).
Proof.
  unfold personal_lines. repeat constructor.
  - apply (dash_not_header (bytes_of "Name: " ++ _)).
  - apply (dash_not_header (bytes_of "Preferred Language: " ++ _)).
Qed.

(** The sections of a written profile. *)
Lemma profile_sections p (custom : list text) :
  opens_none custom ->
  sections (profile_lines p ++ custom) =
  [([], [bytes_of "# User Profile"; []]); (bytes_of "Personal", personal_lines p);
   (bytes_of "Coding Style", item_lines (coding_style p)); (bytes_of "Workflows", item_lines (workflows p));
   (bytes_of "Tool Preferences", pref_lines (tool_preferences p));
   (bytes_of "Projects", concat (project_lines <$> project_preferences p));
   (bytes_of "Stats", stats_lines (stats p)); (bytes_of "Custom Instructions", custom)].
Proof.
  intros Hc. unfold sections. rewrite profile_blocks.
  repeat (rewrite <- (assoc_L (++)) || rewrite <- app_comm_cons).
  change (foldl section_line ?a (?x :: ?y :: ?r)) with (foldl section_line a ([x; y] ++ r)).
  rewrite (section_body [bytes_of "# User Profile"; []]) by (repeat constructor; vm_compute; reflexivity).
  rewrite !app_nil_l. rewrite (section_block (bytes_of "Personal")); [|vm_compute; reflexivity|apply personal_opens_none].
  rewrite (section_block (bytes_of "Coding Style")); [|vm_compute; reflexivity|apply items_open_none].
  rewrite (section_block (bytes_of "Workflows")); [|vm_compute; reflexivity|apply items_open_none].
  rewrite (section_block (bytes_of "Tool Preferences")); [|vm_compute; reflexivity|apply prefs_open_none].
  rewrite (section_block (bytes_of "Projects")); [|vm_compute; reflexivity|apply projects_open_none].
  rewrite (section_block (bytes_of "Stats")); [|vm_compute; reflexivity|apply stats_open_none].
  rewrite <- (app_nil_r custom). rewrite (section_block (bytes_of "Custom Instructions")); [|vm_compute; reflexivity|done].
  cbn [foldl]. rewrite app_nil_r. reflexivity.
Qed.

(** ** Plain lines *)

Lemma list_plain (p : text) xs : plain p -> Forall item_ok xs -> Forall plain ((fun x => p ++ x) <$> xs).
Proof.
  intros Hp Hxs. apply Forall_fmap. eapply Forall_impl; [exact Hxs|]. intros x [[_ Hx] _]. by apply plain_app.
Qed.

Ltac plain_literal := apply plain_decide; vm_compute; reflexivity.

Lemma opt_plain (o : option text) : match o with Some v => item_ok v | None => True end -> plain (default [] o).
Proof. destruct o as [v|]; [by intros [[_ ?] _]|intros _; apply plain_nil]. Qed.

Lemma projects_plain ps : Forall project_ok ps -> Forall plain (concat (project_lines <$> ps)).
Proof.
  induction 1 as [|p ps ([[_ Hp] _] & Hn & Hm) _ IH]; [constructor|]. rewrite fmap_cons. cbn [concat].
  apply Forall_app_2; [|done]. unfold project_lines. repeat apply Forall_app_2.
  - repeat constructor; apply plain_app; (split; [plain_literal|done]).
  - apply list_plain; [plain_literal|]. eapply Forall_impl; [exact Hn|]. by intros x [? _].
  - destruct (model_preference p) as [m|]; repeat constructor; apply plain_app; (split; [plain_literal|apply Hm]).
  - repeat constructor; apply not_elem_of_nil.
Qed.

Lemma stats_plain s : stats_ok s -> Forall plain (stats_lines s).
Proof.
  intros (Hs & Ht & Htt & Hct). unfold stats_lines.
  assert (Hn : forall l v, plain_b l = true -> plain v -> plain (l ++ v)) by (intros l v Hl Hv; apply plain_app; split; [by apply plain_decide|done]).
  repeat (apply Forall_cons; split).
  - apply Hn; [done|]. apply number_value, show_number, Hs.
  - apply Hn; [done|]. apply number_value, show_number, Ht.
  - apply Hn; [done|]. apply number_value, fixed_number.
  - apply Hn; [done|]. by apply counted_value.
  - apply Hn; [done|]. by apply counted_value.
  - apply Hn; [done|]. apply plain_app. split; [apply number_value, whole_number|plain_literal].
  - apply plain_nil.
  - constructor.
Qed.

Lemma personal_plain p :
  match name p with Some v => item_ok v | None => True end ->
  match preferred_language p with Some v => item_ok v | None => True end -> Forall plain (personal_lines p).
Proof.
  intros Hn Hl. unfold personal_lines. apply opt_plain in Hn, Hl.
  repeat (apply Forall_cons; split); [| |apply plain_nil|constructor];
    (apply plain_app; split; [plain_literal|by apply plain_cons]).
Qed.

Lemma items_plain xs : Forall item_ok xs -> Forall plain (item_lines xs).
Proof. intros Hxs. apply Forall_app_2; [apply list_plain; [plain_literal|done]|repeat constructor; apply not_elem_of_nil]. Qed.

Lemma prefs_plain es : Forall pref_ok es -> Forall plain (pref_lines es).
Proof.
  intros Hes. apply Forall_app_2; [|repeat constructor; apply not_elem_of_nil]. apply Forall_fmap. eapply Forall_impl; [exact Hes|].
  intros [k v] ([[_ Hk] _] & _ & [_ Hv]). cbn [fst snd] in *. cbn [compose].
  rewrite !plain_app. split; [plain_literal|]. split; [done|]. split; [plain_literal|done].
Qed.

Lemma profile_plain p : profile_ok p -> Forall plain (profile_lines p).
Proof.
  intros (Hn & Hl & Hc & Hw & Ht & Hp & Hs & _). rewrite profile_blocks.
  repeat first [by apply personal_plain | by apply items_plain | by apply prefs_plain | by apply projects_plain
    | by apply stats_plain | apply Forall_app_2 | apply Forall_cons; split | plain_literal | apply Forall_nil; done].
Qed.

Lemma profile_lines_read p :
  profile_ok p ->
  lines (profile_to_markdown p)
  = profile_lines p ++ (if text_empty (custom_instructions p) then [] else split_byte LF (custom_instructions p)).
Proof.
  intros Hp. unfold profile_to_markdown. rewrite lines_unlines_app by by apply profile_plain. f_equal.
  destruct Hp as (_ & _ & _ & _ & _ & _ & _ & _ & Hcr & _).
  destruct (text_empty (custom_instructions p)); [done|]. by apply lines_split.
Qed.

Lemma read_personal p0 p :
  match name p with Some v => item_ok v | None => True end ->
  match preferred_language p with Some v => item_ok v | None => True end ->
  name p0 = None -> preferred_language p0 = None ->
  parse_personal (personal_lines p) p0 = set_language (set_name p0 (name p)) (preferred_language p).
Proof.
  intros Hn Hl H0 H1. unfold parse_personal, personal_lines. cbn [foldl].
  assert (Hread : forall (o : option text), match o with Some v => item_ok v | None => True end ->
    value_ok (default [] o) /\ non_empty (default [] o) = o).
  { intros [v|] Hv; [|split; [split; [apply fixed_nil|apply plain_nil]|done]]. destruct Hv as [Hv Hne].
    split; [done|]. by destruct v. }
  destruct (Hread _ Hn) as [Hvn Hnn]. destruct (Hread _ Hl) as [Hvl Hnl].
  destruct (stats_label "- Name:" (default [] (name p))) as (r & Hline & Hr); [done|done|by eexists|done|].
  destruct (stats_label "- Preferred Language:" (default [] (preferred_language p))) as (r' & Hline' & Hr'); [done|done|by eexists|done|].
  unfold personal_line at 3. rewrite Hline, strip_app, Hr, Hnn.
  unfold personal_line at 2. rewrite Hline'. cbn -[trim_text non_empty personal_line]. rewrite Hr', Hnl.
  assert (Hblank : forall q, personal_line q [] = q) by reflexivity. rewrite Hblank. clear -H0 H1.
  destruct p0 as [n0 l0 ? ? ? ? ? ? ?]. cbn [name preferred_language] in H0, H1. subst.
  destruct (name p), (preferred_language p); reflexivity.
Qed.

(** One equation per section. *)
Lemma read_top q b : read_section q ([], b) = q. Proof. done. Qed.
Lemma read_personal_section q b : read_section q (bytes_of "Personal", b) = parse_personal b q. Proof. done. Qed.
Lemma read_style q b : read_section q (bytes_of "Coding Style", b) = set_style q (parse_list_section b (coding_style q)).
Proof. done. Qed.
Lemma read_workflows q b : read_section q (bytes_of "Workflows", b) = set_workflows q (parse_list_section b (workflows q)).
Proof. done. Qed.
Lemma read_preferences q b :
  read_section q (bytes_of "Tool Preferences", b) = set_prefs q (parse_tool_prefs b (tool_preferences q)).
Proof. done. Qed.
Lemma read_project_section q b : read_section q (bytes_of "Projects", b) = set_projects q (parse_projects b (project_preferences q)).
Proof. done. Qed.
Lemma read_stats_section q b : read_section q (bytes_of "Stats", b) = set_stats q (parse_stats b (stats q)).
Proof. done. Qed.
Lemma read_custom q b : read_section q (bytes_of "Custom Instructions", b) = set_custom q (trim_text (join_lines b)).
Proof. done. Qed.

(** The profile survives its file: whatever profile has one-line
    entries without outer white space (values may be empty where the format
    allows it), numbers in range, notes that do not look like a model and
    instructions that open no section, writing it and reading it again gives the
    same profile, except that the cost is read from its two decimals and the
    duration from its whole seconds. *)
Theorem profile_roundtrip now p :
  profile_ok p -> parse_user_md now (profile_to_markdown p) = reread now p.
Proof.
  intros Hp. unfold parse_user_md. rewrite profile_lines_read by done.
  pose proof Hp as (Hn & Hl & Hc & Hw & Ht & Hpr & Hs & Hcf & Hcr & Hco).
  rewrite profile_sections.
  2:{ destruct (text_empty (custom_instructions p)); [constructor|done]. }
  cbn [foldl]. rewrite read_top, read_personal_section, read_personal by done.
  rewrite read_style, read_workflows, read_preferences, read_project_section, read_stats_section, read_custom.
  unfold item_lines, pref_lines. rewrite !read_list, read_prefs, read_projects, read_stats by done.
  assert (Hcustom : trim_text (join_lines (if text_empty (custom_instructions p) then [] else split_byte LF (custom_instructions p)))
                    = custom_instructions p).
  { destruct (text_empty (custom_instructions p)) eqn:He; [by destruct (custom_instructions p)|].
    rewrite join_split. by apply fixed_trim. }
  rewrite Hcustom. by destruct p.
Qed.

(** ** What is read is such a profile *)

Lemma plain_subset x l : plain l -> (forall c, c ∈ x -> c ∈ l) -> plain x.
Proof. intros [H1 H2] Hsub. by split; intros ?%Hsub. Qed.

Lemma split_pieces c l x : x ∈ split_byte c l -> (c ∉ x) /\ forall d, d ∈ x -> d ∈ l.
Proof.
  revert x. induction l as [|b l IH]; intros x.
  - intros ->%list_elem_of_singleton. split; [apply not_elem_of_nil|by intros d ?%not_elem_of_nil].
  - simpl. destruct (Ascii.eqb_spec b c) as [->|Hb].
    + intros [->|Hx]%elem_of_cons; [split; [apply not_elem_of_nil|by intros d ?%not_elem_of_nil]|].
      destruct (IH x Hx) as [H1 H2]. split; [done|]. intros d Hd. right. by apply H2.
    + destruct (split_byte c l) as [|y ys] eqn:Hs; [by apply split_byte_not_nil in Hs|].
      intros [->|Hx]%elem_of_cons.
      * destruct (IH y) as [H1 H2]; [left|]. split; [rewrite not_elem_of_cons; split; congruence|].
        intros d [->|Hd]%elem_of_cons; [left|right; by apply H2].
      * destruct (IH x) as [H1 H2]; [by right|]. split; [done|]. intros d Hd. right. by apply H2.
Qed.

Lemma trim_subset l c : c ∈ trim_text l -> c ∈ l.
Proof. destruct (trim_text_span l) as (p & s & He). intros Hc. rewrite He, !elem_of_app. tauto. Qed.

Lemma strip_keeps_plain p l r : strip p l = Some r -> plain l -> plain r.
Proof. intros ->%strip_some [_ Hr]%plain_app. done. Qed.

Lemma item_of_plain line item : plain line -> item_of line = Some item -> plain item.
Proof. intros Hl Hi. eapply strip_keeps_plain; [exact Hi|]. by apply trim_value. Qed.

(** What follows a mark that ends in a space is not blank. *)
Lemma after_mark p line r :
  strip (p ++ [gap]) (trim_text line) = Some r -> trim_text r <> [].
Proof.
  intros Hs%strip_some. destruct (trim_text_fixed line) as [_ Hb]. rewrite Hs in Hb.
  assert (Hr : r <> []).
  { intros ->. rewrite app_nil_r in Hb. unfold back_fixed in Hb. rewrite reverse_snoc in Hb.
    change (gap :: reverse p) with ([gap] ++ reverse p) in Hb. by rewrite (strip_any_char back_whitespace [gap] (reverse p) back_class) in Hb;
      [|apply list_elem_of_fmap; exists [gap]; split; [done|by apply (bool_decide_unpack _); vm_compute]]. }
  apply trim_text_nonempty; [|done]. unfold back_fixed in *. rewrite reverse_app in Hb. by apply strip_any_prefix in Hb.
Qed.

Lemma read_list_ok ls target : Forall plain ls -> Forall item_ok target -> Forall item_ok (parse_list_section ls target).
Proof.
  intros Hls Ht. unfold parse_list_section. apply Forall_app_2; [done|]. clear Ht. induction Hls as [|l ls Hl _ IH]; [constructor|].
  rewrite omap_cons. destruct (item_of l) as [item|] eqn:Hi; cbn [mbind option_bind]; [|done].
  destruct (non_empty (trim_text item)) as [x|] eqn:Hx; [|done]. constructor; [|done].
  eapply non_empty_ok; [|exact Hx]. by eapply item_of_plain.
Qed.

Lemma split_once_some c l k v : split_once c l = Some (k, v) -> l = k ++ (c :: v) /\ (c ∉ k).
Proof.
  revert k. induction l as [|b l IH]; intros k; [done|]. simpl. destruct (Ascii.eqb_spec b c) as [->|Hb].
  - intros [= <- <-]. split; [done|apply not_elem_of_nil].
  - destruct (split_once c l) as [[k' v']|] eqn:Hs; [|done]. intros [= <- <-]. destruct (IH k' eq_refl) as [-> Hk].
    split; [done|]. rewrite not_elem_of_cons. split; congruence.
Qed.

Lemma read_prefs_ok ls target : Forall plain ls -> Forall pref_ok target -> Forall pref_ok (parse_tool_prefs ls target).
Proof.
  intros Hls Ht. unfold parse_tool_prefs. apply Forall_app_2; [done|]. clear Ht. induction Hls as [|l ls Hl _ IH]; [constructor|].
  rewrite omap_cons. unfold pref_of. destruct (item_of l) as [item|] eqn:Hi; cbn [mbind option_bind]; [|done].
  destruct (split_once colon item) as [[k v]|] eqn:Hs; cbn [mbind option_bind]; [|done].
  pose proof (item_of_plain _ _ Hl Hi) as Hp. apply split_once_some in Hs as [-> Hk]. apply plain_app in Hp as [Hpk Hpv].
  destruct (trim_text k) as [|b k'] eqn:Htk; [done|]. simpl text_empty. cbv iota. constructor; [|done].
  rewrite <- Htk. split; [|split]; cbn [fst snd].
  - split; [by apply trim_value|by rewrite Htk].
  - by intros ?%trim_subset.
  - apply trim_value. by apply (plain_app [colon]).
Qed.

Lemma project_item_ok pr line : plain line -> project_ok pr -> project_ok (project_item pr (trim_text line)).
Proof.
  intros Hl (Hp & Hn & Hm). unfold project_item. destruct (strip (bytes_of "- ") (trim_text line)) as [item|] eqn:Hi; [|done].
  pose proof (item_of_plain line item Hl Hi) as Hit.
  destruct (strip (bytes_of "Model:") (trim_text item)) as [m|] eqn:Hmod; (split; [done|split]).
  - done.
  - apply trim_value. eapply strip_keeps_plain; [exact Hmod|]. by apply trim_value.
  - apply Forall_app_2; [done|]. constructor; [|constructor]. split; [|done]. split; [by apply trim_value|].
    by apply (after_mark (bytes_of "-") line).
  - done.
Qed.

Lemma read_projects_ok ls target : Forall plain ls -> Forall project_ok target -> Forall project_ok (parse_projects ls target).
Proof.
  intros Hls Ht. unfold parse_projects.
  enough (Hgen : forall t c, Forall project_ok t -> Forall project_ok (option_list c) ->
    let '(t', c') := foldl project_line (t, c) ls in Forall project_ok t' /\ Forall project_ok (option_list c')).
  { specialize (Hgen target None Ht ltac:(constructor)). destruct (foldl _ _ _) as [t' c']. apply Forall_app_2; apply Hgen. }
  clear target Ht. induction Hls as [|l ls Hl _ IH]; intros t c Ht Hc; [done|]. cbn [foldl]. unfold project_line at 2.
  destruct (strip (bytes_of "### ") (trim_text l)) as [p|] eqn:Hs.
  - apply IH; [by apply Forall_app_2|]. constructor; [|constructor]. split; [|by split].
    split; [apply trim_value; eapply strip_keeps_plain; [exact Hs|by apply trim_value]|]. by apply (after_mark (bytes_of "###") l).
  - apply IH; [done|]. destruct c as [pr|]; [|done]. apply Forall_inv in Hc. constructor; [|constructor]. by apply project_item_ok.
Qed.

Lemma rfind_take c l n x : rfind c l = Some n -> x ∈ take n l -> x ∈ l.
Proof. intros _ Hx. rewrite <- (take_drop n l). apply elem_of_app. by left. Qed.

Lemma read_counted_ok l : plain l -> Forall counted_ok (parse_counted_list l).
Proof.
  intros Hl. unfold parse_counted_list. apply Forall_forall. intros e (piece & Hp & He)%list_elem_of_omap.
  destruct (split_pieces _ _ _ Hp) as [Hc Hsub]. pose proof (plain_subset _ _ Hl Hsub) as Hpp. unfold counted_item in He.
  destruct (text_empty (trim_text piece)); [done|]. destruct (rfind open_paren _) as [op|] eqn:Hop; cbn [mbind option_bind] in He; [|done].
  destruct (rfind close_paren _) as [cl|]; cbn [mbind option_bind] in He; [|done]. destruct (Nat.leb cl op); [done|].
  destruct (parse_uint _ _) as [count|] eqn:Hu; cbn [mbind option_bind] in He; [|done].
  apply parse_uint_range in Hu.
  assert (Hin : forall x, x ∈ trim_text (take op (trim_text piece)) -> x ∈ piece).
  { intros x Hx. apply trim_subset, (rfind_take _ _ _ _ Hop), trim_subset in Hx. done. }
  destruct (trim_text (take op (trim_text piece))) as [|b n] eqn:Hn; [done|]. injection He as <-.
  rewrite <- Hn in *. split; [|split]; cbn [fst snd]; [|by intros ?%Hin|done]. split; [|by rewrite Hn].
  split; [apply trim_text_fixed|]. by apply (plain_subset _ piece).
Qed.

Lemma stats_item_ok s line : plain line -> stats_ok s -> stats_ok (stats_line s line).
Proof.
  intros Hl (Hs & Ht & Htt & Hct). unfold stats_line, stats_item.
  assert (Hcount : forall r, is_u64 (parse_count r)).
  { intros r. unfold parse_count. destruct (parse_uint u64_max _) as [n|] eqn:Hn; [exact (parse_uint_range _ _ _ Hn)|].
    simpl. unfold is_u64, u64_max. lia. }
  assert (Hlist : forall p r, strip p (trim_text line) = Some r -> Forall counted_ok (parse_counted_list (trim_text r))).
  { intros p r Hr. apply read_counted_ok, trim_value. eapply strip_keeps_plain; [exact Hr|]. by apply trim_value. }
  repeat match goal with
  | |- stats_ok (match strip ?p ?t with Some _ => _ | None => _ end) => destruct (strip p t) eqn:?
  end; (split; [|split; [|split]]); cbn [total_sessions total_turns top_tools common_tasks];
    first [assumption | apply Hcount | by eapply Hlist].
Qed.

Lemma read_stats_ok ls s : Forall plain ls -> stats_ok s -> stats_ok (parse_stats ls s).
Proof. unfold parse_stats. intros Hls. revert s. induction Hls as [|l ls Hl _ IH]; intros s Hs; [done|]. by apply IH, stats_item_ok. Qed.

Lemma read_personal_ok ls p : Forall plain ls -> profile_ok p -> profile_ok (parse_personal ls p).
Proof.
  unfold parse_personal. intros Hls. revert p. induction Hls as [|l ls Hl _ IH]; intros p Hp; [done|]. apply IH. unfold personal_line.
  destruct Hp as (Hn & Hlang & Hrest).
  destruct (strip (bytes_of "- Name:") (trim_text l)) as [r|] eqn:Hs.
  - destruct (non_empty (trim_text r)) as [v|] eqn:Hv; [|by split]. split; [|by split]. eapply non_empty_ok; [|exact Hv].
    eapply strip_keeps_plain; [exact Hs|]. by apply trim_value.
  - destruct (strip (bytes_of "- Preferred Language:") (trim_text l)) as [r|] eqn:Hs'; [|by split].
    destruct (non_empty (trim_text r)) as [v|] eqn:Hv; [|by split]. split; [done|]. split; [|done]. eapply non_empty_ok; [|exact Hv].
    eapply strip_keeps_plain; [exact Hs'|]. by apply trim_value.
Qed.

(** *** The instructions *)

Definition no_header (l : text) : Prop := header_of l = None.

Lemma no_header_trim l l' : trim_text l = trim_text l' -> no_header l -> no_header l'.
Proof. unfold no_header, header_of. by intros ->. Qed.

(** White space is a line feed, or has none. *)
Lemma white_line_feed w : w ∈ whitespace -> w = [LF] \/ forallb (fun b => negb (Ascii.eqb b LF)) w = true.
Proof.
  assert (Hall : forallb (fun w => bool_decide (w = [LF]) || forallb (fun b => negb (Ascii.eqb b LF)) w) whitespace = true)
    by (vm_compute; reflexivity).
  intros Hw. rewrite forallb_elem in Hall. apply Hall, orb_true_iff in Hw as [H%bool_decide_eq_true|H]; [by left|by right].
Qed.

Lemma split_front w r : forallb (fun b => negb (Ascii.eqb b LF)) w = true ->
  split_byte LF (w ++ r) = match split_byte LF r with h :: t => (w ++ h) :: t | [] => [] end.
Proof.
  induction w as [|b w IH]; [cbn [app]; by destruct (split_byte LF r)|]. simpl. intros [Hb%negb_true_iff Hw]%andb_true_iff.
  rewrite Hb, IH by done. pose proof (split_byte_not_nil LF r). by destruct (split_byte LF r).
Qed.

Lemma split_back l w : forallb (fun b => negb (Ascii.eqb b LF)) w = true ->
  exists i x, split_byte LF l = i ++ [x] /\ split_byte LF (l ++ w) = i ++ [x ++ w].
Proof.
  intros Hw. induction l as [|b l IH]; [exists [], []; split; [done|by apply split_byte_free]|].
  destruct IH as (i & x & H1 & H2). simpl. rewrite H1, H2. destruct (Ascii.eqb b LF); [by exists ([] :: i), x|].
  destruct i as [|y i]; [by exists [], (b :: x)|]. by exists ((b :: y) :: i), x.
Qed.

Definition opens_nothing (c : text) : Prop := Forall no_header (split_byte LF c).

Lemma opens_front w r : w ∈ whitespace -> opens_nothing (w ++ r) -> opens_nothing r.
Proof.
  intros Hw. unfold opens_nothing. destruct (white_line_feed w Hw) as [->|Hf].
  - change (split_byte LF ([LF] ++ r)) with ([] :: split_byte LF r). by intros [_ ?]%Forall_cons.
  - rewrite split_front by done. destruct (split_byte LF r) as [|h t]; [done|]. intros [Hh Ht]%Forall_cons. constructor; [|done].
    eapply no_header_trim; [|exact Hh]. by apply trim_text_white_front.
Qed.

Lemma opens_back l w : w ∈ whitespace -> opens_nothing (l ++ w) -> opens_nothing l.
Proof.
  intros Hw. unfold opens_nothing. destruct (white_line_feed w Hw) as [->|Hf].
  - rewrite split_byte_app. by intros [? _]%Forall_app.
  - destruct (split_back l w Hf) as (i & x & -> & ->). intros [Hi Hx]%Forall_app. apply Forall_app_2; [done|].
    apply Forall_inv in Hx. constructor; [|constructor]. eapply no_header_trim; [|exact Hx]. by apply trim_text_white_back.
Qed.

Lemma trim_opens c : opens_nothing c -> opens_nothing (trim_text c).
Proof.
  assert (Hfront : forall n l, opens_nothing l -> opens_nothing (trim_with whitespace n l)).
  { intros n. induction n as [|n IH]; intros l Hl; [done|]. cbn [trim_with]. destruct (strip_any whitespace l) as [r|] eqn:Hs; [|done].
    apply IH. apply strip_any_some in Hs as (w & Hw & ->). by apply (opens_front w). }
  assert (Hback : forall n l, opens_nothing (reverse l) -> opens_nothing (reverse (trim_with back_whitespace n l))).
  { intros n. induction n as [|n IH]; intros l Hl; [done|]. cbn [trim_with]. destruct (strip_any back_whitespace l) as [r|] eqn:Hs; [|done].
    apply IH. apply strip_any_some in Hs as (w' & (w & -> & Hw)%list_elem_of_fmap & ->).
    rewrite reverse_app, reverse_involutive in Hl. by apply (opens_back _ w). }
  intros Hc. unfold trim_text, trim_back, trim_front. apply Hback. rewrite reverse_involutive. by apply Hfront.
Qed.

Lemma split_join ls : Forall plain ls -> ls <> [] -> split_byte LF (join_lines ls) = ls.
Proof.
  intros Hls. induction Hls as [|l ls [Hl _] Hls IH]; [done|]. intros _. destruct ls as [|l' ls].
  - by apply split_byte_free, free_of.
  - change (join_lines (l :: l' :: ls)) with (l ++ LF :: join_lines (l' :: ls)).
    rewrite split_byte_app, split_byte_free, IH by (done || by apply free_of). done.
Qed.

Lemma join_no_cr ls : Forall plain ls -> CR ∉ join_lines ls.
Proof.
  induction 1 as [|l ls [_ Hl] _ IH]; [apply not_elem_of_nil|]. destruct ls as [|l' ls]; [done|].
  change (join_lines (l :: l' :: ls)) with (l ++ LF :: join_lines (l' :: ls)). rewrite not_elem_of_app, not_elem_of_cons. done.
Qed.

(** A body of plain lines none of which opens a section. *)
Definition body_ok (ls : list text) : Prop := Forall plain ls /\ Forall no_header ls.

Lemma instructions_read ls : body_ok ls -> instructions_ok (trim_text (join_lines ls)).
Proof.
  intros [Hp Hn]. split; [apply trim_text_fixed|]. split; [by intros ?%trim_subset%(join_no_cr _ Hp)|].
  apply trim_opens. unfold opens_nothing. destruct ls as [|l ls]; [by repeat constructor|]. by rewrite split_join.
Qed.

Lemma read_section_ok p s : body_ok s.2 -> profile_ok p -> profile_ok (read_section p s).
Proof.
  destruct s as [title body]. cbn [snd]. intros Hb Hp. pose proof Hb as [Hpl _]. unfold read_section.
  repeat case_bool_decide; [by apply read_personal_ok|..|done];
    destruct Hp as (Hn & Hl & Hc & Hw & Ht & Hpr & Hs & Hi);
    (split; [exact Hn|split; [exact Hl|split; [|split; [|split; [|split; [|split]]]]]]); try assumption.
  - by apply read_list_ok.
  - by apply read_list_ok.
  - by apply read_prefs_ok.
  - by apply read_projects_ok.
  - by apply read_stats_ok.
  - by apply instructions_read.
Qed.

Lemma sections_ok ls : Forall plain ls -> Forall (fun s => body_ok s.2) (sections ls).
Proof.
  intros Hls. unfold sections.
  assert (Hpush : forall acc cur, Forall (fun s : Section_ => body_ok s.2) acc -> body_ok cur.2 ->
    Forall (fun s : Section_ => body_ok s.2) (push_section acc cur)).
  { intros acc cur Hd Hc. unfold push_section. destruct (_ && _); [done|]. apply Forall_app_2; [done|]. by constructor. }
  enough (Hgen : forall acc cur, Forall (fun s : Section_ => body_ok s.2) acc -> body_ok cur.2 ->
    let '(d, c) := foldl section_line (acc, cur) ls in Forall (fun s : Section_ => body_ok s.2) d /\ body_ok c.2).
  { specialize (Hgen [] ([], []) ltac:(constructor) ltac:(split; constructor)).
    destruct (foldl _ _ _) as [d c]. destruct Hgen. by apply Hpush. }
  induction Hls as [|l ls Hl _ IH]; intros acc [title body] Hd Hc; [done|]. cbn [foldl section_line].
  destruct (header_of l) as [h|] eqn:Hh.
  - apply IH; [by apply Hpush|split; constructor].
  - destruct Hc as [Hc1 Hc2]. apply IH; [done|]. cbn [snd] in *.
    split; apply Forall_app_2; [done|by repeat constructor; apply Hl|done|by repeat constructor].
Qed.

Lemma read_profile_ok now content : CR ∉ content -> profile_ok (parse_user_md now content).
Proof.
  intros Hc. unfold parse_user_md. apply lines_plain, sections_ok in Hc.
  assert (H0 : profile_ok (profile_default now)).
  { repeat split; try constructor; try done; try apply not_elem_of_nil; unfold u64_max; lia || by vm_compute. }
  revert H0. generalize (profile_default now). induction Hc as [|s ss Hs _ IH]; intros p Hp; [done|].
  cbn [foldl]. by apply IH, read_section_ok.
Qed.

(** Claim C27. Loading and saving loses nothing but decimals: whatever text
    without carriage returns the file holds, damaged or edited by hand, the
    profile read from it is written to a file that reads as the same profile,
    with the cost of its two decimals and the duration of its whole seconds;
    and nothing changes when that is saved and loaded in turn but those. *)
Theorem profile_reloads now now' now'' content :
  CR ∉ content ->
  let p := parse_user_md now content in
  let p' := parse_user_md now' (profile_to_markdown p) in
  p' = reread now' p
  /\ parse_user_md now'' (profile_to_markdown p') = reread now'' p'.
Proof.
  intros Hc p p'. assert (Hp : profile_ok p) by by apply read_profile_ok.
  assert (Hp' : p' = reread now' p) by by apply profile_roundtrip. split; [done|].
  rewrite Hp'. apply profile_roundtrip. exact Hp.
Qed.

(** ** On concrete profiles *)

Definition demo_text : text := unlines (bytes_of <$>
  ["# User Profile"; "## Personal"; "- Name:   Ada "; "hello"; "## Coding Style"; "-  tabs"; "* spaces";
   "## Projects"; "### /w"; "- Model: m1"; "- uses make"; "## Stats"; "- Sessions: 3"; "- Total Cost: $1.239";
   "- Top Tools: Bash(7), (2), Read (5)"; "- Avg Duration: 12.6s"; "## Notes"; "lost"; "## Custom Instructions"; ""; " Be brief."])%string.

Lemma profile_reloads_witness :
  let p := parse_user_md [] demo_text in
  (name p, coding_style p, top_tools (stats p)) = (Some (bytes_of "Ada"), [bytes_of "tabs"], [(bytes_of "Bash", 7); (bytes_of "Read", 5)])
  /\ parse_user_md [] (profile_to_markdown p) = reread [] p.
Proof.
  split; [vm_compute; reflexivity|]. apply (profile_reloads [] [] [] demo_text).
  assert (Hb : forallb (fun c => negb (Ascii.eqb c CR)) demo_text = true) by (vm_compute; reflexivity).
  rewrite forallb_elem in Hb. intros Hin. by apply Hb in Hin.
Defined.

(** Half a cent a session: the total is written as nothing, so it stays nothing. *)
Definition half_cent : SessionStats := mkSession 1 (f64_ratio 4 1000) [] (f64_of_Z 10) [].

Example small_costs_lost :
  let load_and_save p := parse_user_md [] (profile_to_markdown (merge_session_stats [] half_cent p)) in
  total_cost_usd (stats (Nat.iter 20 load_and_save (profile_default []))) = f64_zero.
Proof. vm_compute. reflexivity. Qed.

(** A heading in the instructions ends them, and what it names is overwritten. *)
Example heading_in_instructions :
  let c := unlines [bytes_of "Be brief."; bytes_of "## Stats"; bytes_of "- Sessions: 99"] in
  let p := parse_user_md [] (profile_to_markdown (update_custom_instructions [] c (profile_default []))) in
  (custom_instructions p, total_sessions (stats p)) = (bytes_of "Be brief.", 99).
Proof. vm_compute. reflexivity. Qed.

(** A note that begins like a model becomes the model. *)
Example note_becomes_model :
  let p := parse_user_md [] (profile_to_markdown (add_project_note [] (bytes_of "/w") (bytes_of "Model: T train") (profile_default []))) in
  model_preference <$> project_preferences p = [Some (bytes_of "T train")].
Proof. vm_compute. reflexivity. Qed.

(** A tool outside the first ten starts over in every session. *)
Definition ten_tools : list (text * Z) := (fun i => (show_bytes (Z.of_nat i), 2)) <$> seq 0 10.

Example newcomer_never_counted :
  let merge l := merge_counts l [(bytes_of "new", 1)] in
  count_of (bytes_of "new") (Nat.iter 50 merge ten_tools) = 0.
Proof. vm_compute. reflexivity. Qed.

Definition bash_read : list (text * Z) := [(bytes_of "Bash", 7); (bytes_of "Read", 5)].

Lemma merged_counts_rank_witness :
  let m := merge_counts bash_read [(bytes_of "Read", 4); (bytes_of "Edit", 8)] in
  m = [(bytes_of "Read", 9); (bytes_of "Edit", 8); (bytes_of "Bash", 7)] /\ NoDup m.*1.
Proof.
  split; [vm_compute; reflexivity|].
  apply (merged_counts_rank bash_read [(bytes_of "Read", 4); (bytes_of "Edit", 8)]).
  - apply (bool_decide_unpack _). vm_compute. exact I.
  - apply (bool_decide_unpack _). vm_compute. exact I.
  - repeat constructor; vm_compute; congruence.
Defined.
