(* ===== verification/IpcRouter.v ===== *)
(** * IpcRouter: from a request to a method ([ipc/router.rs])

    Every method a client can call, with its parameters, and the reader that
    turns a JSON-RPC request into one, over the [Json] interface.  The text of
    an error of the JSON library is an argument. *)

From stdpp Require Import base list strings.
From Stdlib Require Import ZArith Lia.
From S2P Require Import Prelude Text Json Rpc.

#[local] Open Scope Z_scope.
#[local] Open Scope string_scope.

Section Methods.
Context `{J : Json}.

(** ** The methods *)

Inductive ClientMethod :=
| Initialize (cwd : string) (model : option string) (settings : Value) (protocol_version : option string) (resume_session_id : option string) (shared_session_id : option string)
| SubmitMessage (prompt : Value) (uuid : option string) (attachments : option (list Value))
| PermissionResponse (tool_use_id : string) (decision : string) (rule : option string)
| Abort
| UpdateSettings (settings : Value)
| Shutdown
| ListTools
| ListMcpServers
| McpRefresh (server : option string)
| ListSkills
| ListPlugins
| Compact
| ClearSession
| SwitchModel (model : string)
| GitDiff
| GitCommit (message : string)
| GitStatus
| TaskCreate (description : string) (prompt : string)
| TaskList
| TaskStatus (task_id : string)
| TaskStop (task_id : string)
| MemoryList
| MemoryAdd (content : string) (category : string)
| MemoryDelete (id : string)
| MemoryClear
| MemoryStats
| MemoryArchive (id : string)
| MemoryRestore (id : string)
| MemoryArchiveList
| MemoryCleanup
| CronAdd (name : string) (prompt : string) (schedule : string) (cwd : option string)
| CronRemove (id : string)
| CronToggle (id : string)
| CronList
| ProjectsList
| ProjectsSwitch (id_prefix : string)
| ProjectsNew (cwd : string) (description : option string)
| ProjectsUpdateDesc (id_prefix : string) (description : string)
| TalkTail (count : Z)
| SearchHistory (query : string) (max_results : Z)
| DocUpload (file_path : string)
| Export (output_path : option string)
| SpecNew (feature_name : string) (workflow : option string) (spec_type : option string)
| SpecList
| SpecShow (feature_name : string)
| SpecStatus (feature_name : string)
| SpecRun (feature_name : string) (task_id : option string)
| SpecEdit (feature_name : string) (phase : string)
| TeamSpawn (count : option Z) (mode : string) (task : string) (policy : option Value)
| TeamList
| TeamStatus (team_id : string)
| TeamResults (team_id : string)
| TeamAbort (team_id : string)
| TeamExecute (team_id : string)
| TemplateList
| TemplateCreate (json : string)
| TemplateDelete (name : string)
| TemplateExport (name : string)
| TemplateImport (url : string)
| GitPrCreate (title : string) (body : string) (base : string) (head : string)
| GitPrList
| GitBranchList
| GitConflictCheck
| ModelList
| ModelRoute (task : string)
| ModelBudget
| TelemetryStats
| TelemetryTrends (days : Z)
| TelemetryExport (format : string)
| TelemetrySetEnabled (enabled : bool)
| PermissionStatus
| PermissionGrant (tool : string) (action : string) (target : string) (permanent : bool)
| PermissionRevoke (tool : string) (action : string) (target : string)
| PermissionsInfo
| PermissionsAddRule (category : string) (tool_name : string) (rule_content : option string)
| PermissionsRemoveRule (category : string) (tool_name : string) (rule_content : option string)
| PermissionsSetMode (mode : string)
| PermissionsSetAutoAllow (channel : string) (enabled : bool)
| PermissionsSetAskTimeout (seconds : Z)
| PermissionsSetPersistGrants (enabled : bool)
| EvolutionRateTrajectory (rating : string)
| ToolHealth
| SessionTokens
| SessionCost
| SessionInfo
| ConfigModel
| ConfigShow.

(** ** Reading parameters

    A struct variant is read from an object; other keys are ignored.  A field
    of an [Option] type may be missing or [null]. *)

Definition default_tail_count : Z := 10.
Definition default_category : string := "fact".

Definition as_u32 (v : Value) : option Z :=
  match as_u64 v with Some n => if Z.leb n u32_max then Some n else None | None => None end.

Definition required {A} (read : Value -> option A) (v : Value) (k : string) : option A := json_get v k ≫= read.

Definition defaulted {A} (d : A) (read : Value -> option A) (v : Value) (k : string) : option A :=
  match json_get v k with Some x => read x | None => Some d end.

Definition optional {A} (read : Value -> option A) (v : Value) (k : string) : option (option A) :=
  match json_get v k with
  | Some x => if is_null x then Some None else Some <$> read x
  | None => Some None
  end.

(** How an [Option] is written. *)
Definition opt_value {A} (write : A -> Value) (o : option A) : Value :=
  match o with Some x => write x | None => json_null end.

(** A unit variant is read from [null], a struct variant from an object. *)
Definition unit_variant (m : ClientMethod) (v : Value) : option ClientMethod :=
  if is_null v then Some m else None.

Definition struct_variant (read : Value -> option ClientMethod) (v : Value) : option ClientMethod :=
  match as_object v with Some _ => read v | None => None end.

(** The name of a method, and its parameters as an object. *)
Definition method_name (m : ClientMethod) : string :=
  match m with
  | Initialize _ _ _ _ _ _ => "initialize"
  | SubmitMessage _ _ _ => "submitMessage"
  | PermissionResponse _ _ _ => "permissionResponse"
  | Abort => "abort"
  | UpdateSettings _ => "updateSettings"
  | Shutdown => "shutdown"
  | ListTools => "listTools"
  | ListMcpServers => "listMcpServers"
  | McpRefresh _ => "mcpRefresh"
  | ListSkills => "listSkills"
  | ListPlugins => "listPlugins"
  | Compact => "compact"
  | ClearSession => "clearSession"
  | SwitchModel _ => "switchModel"
  | GitDiff => "gitDiff"
  | GitCommit _ => "gitCommit"
  | GitStatus => "gitStatus"
  | TaskCreate _ _ => "taskCreate"
  | TaskList => "taskList"
  | TaskStatus _ => "taskStatus"
  | TaskStop _ => "taskStop"
  | MemoryList => "memoryList"
  | MemoryAdd _ _ => "memoryAdd"
  | MemoryDelete _ => "memoryDelete"
  | MemoryClear => "memoryClear"
  | MemoryStats => "memoryStats"
  | MemoryArchive _ => "memoryArchive"
  | MemoryRestore _ => "memoryRestore"
  | MemoryArchiveList => "memoryArchiveList"
  | MemoryCleanup => "memoryCleanup"
  | CronAdd _ _ _ _ => "cronAdd"
  | CronRemove _ => "cronRemove"
  | CronToggle _ => "cronToggle"
  | CronList => "cronList"
  | ProjectsList => "projectsList"
  | ProjectsSwitch _ => "projectsSwitch"
  | ProjectsNew _ _ => "projectsNew"
  | ProjectsUpdateDesc _ _ => "projectsUpdateDesc"
  | TalkTail _ => "talkTail"
  | SearchHistory _ _ => "searchHistory"
  | DocUpload _ => "docUpload"
  | Export _ => "export"
  | SpecNew _ _ _ => "specNew"
  | SpecList => "specList"
  | SpecShow _ => "specShow"
  | SpecStatus _ => "specStatus"
  | SpecRun _ _ => "specRun"
  | SpecEdit _ _ => "specEdit"
  | TeamSpawn _ _ _ _ => "teamSpawn"
  | TeamList => "teamList"
  | TeamStatus _ => "teamStatus"
  | TeamResults _ => "teamResults"
  | TeamAbort _ => "teamAbort"
  | TeamExecute _ => "teamExecute"
  | TemplateList => "templateList"
  | TemplateCreate _ => "templateCreate"
  | TemplateDelete _ => "templateDelete"
  | TemplateExport _ => "templateExport"
  | TemplateImport _ => "templateImport"
  | GitPrCreate _ _ _ _ => "gitPrCreate"
  | GitPrList => "gitPrList"
  | GitBranchList => "gitBranchList"
  | GitConflictCheck => "gitConflictCheck"
  | ModelList => "modelList"
  | ModelRoute _ => "modelRoute"
  | ModelBudget => "modelBudget"
  | TelemetryStats => "telemetryStats"
  | TelemetryTrends _ => "telemetryTrends"
  | TelemetryExport _ => "telemetryExport"
  | TelemetrySetEnabled _ => "telemetry.setEnabled"
  | PermissionStatus => "permissionStatus"
  | PermissionGrant _ _ _ _ => "permissionGrant"
  | PermissionRevoke _ _ _ => "permissionRevoke"
  | PermissionsInfo => "permissions.info"
  | PermissionsAddRule _ _ _ => "permissions.addRule"
  | PermissionsRemoveRule _ _ _ => "permissions.removeRule"
  | PermissionsSetMode _ => "permissions.setMode"
  | PermissionsSetAutoAllow _ _ => "permissions.setAutoAllow"
  | PermissionsSetAskTimeout _ => "permissions.setAskTimeout"
  | PermissionsSetPersistGrants _ => "permissions.setPersistGrants"
  | EvolutionRateTrajectory _ => "evolution.rateTrajectory"
  | ToolHealth => "toolHealth"
  | SessionTokens => "session.tokens"
  | SessionCost => "session.cost"
  | SessionInfo => "session.info"
  | ConfigModel => "config.model"
  | ConfigShow => "config.show"
  end.

Definition method_params (m : ClientMethod) : Value :=
  match m with
  | Initialize cwd model settings protocol_version resume_session_id shared_session_id =>
      json_object [("cwd", json_string cwd); ("model", opt_value json_string model); ("settings", settings); ("protocol_version", opt_value json_string protocol_version); ("resume_session_id", opt_value json_string resume_session_id); ("shared_session_id", opt_value json_string shared_session_id)]
  | SubmitMessage prompt uuid attachments =>
      json_object [("prompt", prompt); ("uuid", opt_value json_string uuid); ("attachments", opt_value json_array attachments)]
  | PermissionResponse tool_use_id decision rule =>
      json_object [("tool_use_id", json_string tool_use_id); ("decision", json_string decision); ("rule", opt_value json_string rule)]
  | UpdateSettings settings =>
      json_object [("settings", settings)]
  | McpRefresh server =>
      json_object [("server", opt_value json_string server)]
  | SwitchModel model =>
      json_object [("model", json_string model)]
  | GitCommit message =>
      json_object [("message", json_string message)]
  | TaskCreate description prompt =>
      json_object [("description", json_string description); ("prompt", json_string prompt)]
  | TaskStatus task_id =>
      json_object [("task_id", json_string task_id)]
  | TaskStop task_id =>
      json_object [("task_id", json_string task_id)]
  | MemoryAdd content category =>
      json_object [("content", json_string content); ("category", json_string category)]
  | MemoryDelete id =>
      json_object [("id", json_string id)]
  | MemoryArchive id =>
      json_object [("id", json_string id)]
  | MemoryRestore id =>
      json_object [("id", json_string id)]
  | CronAdd name prompt schedule cwd =>
      json_object [("name", json_string name); ("prompt", json_string prompt); ("schedule", json_string schedule); ("cwd", opt_value json_string cwd)]
  | CronRemove id =>
      json_object [("id", json_string id)]
  | CronToggle id =>
      json_object [("id", json_string id)]
  | ProjectsSwitch id_prefix =>
      json_object [("id_prefix", json_string id_prefix)]
  | ProjectsNew cwd description =>
      json_object [("cwd", json_string cwd); ("description", opt_value json_string description)]
  | ProjectsUpdateDesc id_prefix description =>
      json_object [("id_prefix", json_string id_prefix); ("description", json_string description)]
  | TalkTail count =>
      json_object [("count", json_int count)]
  | SearchHistory query max_results =>
      json_object [("query", json_string query); ("max_results", json_int max_results)]
  | DocUpload file_path =>
      json_object [("file_path", json_string file_path)]
  | Export output_path =>
      json_object [("output_path", opt_value json_string output_path)]
  | SpecNew feature_name workflow spec_type =>
      json_object [("feature_name", json_string feature_name); ("workflow", opt_value json_string workflow); ("spec_type", opt_value json_string spec_type)]
  | SpecShow feature_name =>
      json_object [("feature_name", json_string feature_name)]
  | SpecStatus feature_name =>
      json_object [("feature_name", json_string feature_name)]
  | SpecRun feature_name task_id =>
      json_object [("feature_name", json_string feature_name); ("task_id", opt_value json_string task_id)]
  | SpecEdit feature_name phase =>
      json_object [("feature_name", json_string feature_name); ("phase", json_string phase)]
  | TeamSpawn count mode task policy =>
      json_object [("count", opt_value json_int count); ("mode", json_string mode); ("task", json_string task); ("policy", opt_value id policy)]
  | TeamStatus team_id =>
      json_object [("team_id", json_string team_id)]
  | TeamResults team_id =>
      json_object [("team_id", json_string team_id)]
  | TeamAbort team_id =>
      json_object [("team_id", json_string team_id)]
  | TeamExecute team_id =>
      json_object [("team_id", json_string team_id)]
  | TemplateCreate json =>
      json_object [("json", json_string json)]
  | TemplateDelete name =>
      json_object [("name", json_string name)]
  | TemplateExport name =>
      json_object [("name", json_string name)]
  | TemplateImport url =>
      json_object [("url", json_string url)]
  | GitPrCreate title body base head =>
      json_object [("title", json_string title); ("body", json_string body); ("base", json_string base); ("head", json_string head)]
  | ModelRoute task =>
      json_object [("task", json_string task)]
  | TelemetryTrends days =>
      json_object [("days", json_int days)]
  | TelemetryExport format =>
      json_object [("format", json_string format)]
  | TelemetrySetEnabled enabled =>
      json_object [("enabled", json_bool enabled)]
  | PermissionGrant tool action target permanent =>
      json_object [("tool", json_string tool); ("action", json_string action); ("target", json_string target); ("permanent", json_bool permanent)]
  | PermissionRevoke tool action target =>
      json_object [("tool", json_string tool); ("action", json_string action); ("target", json_string target)]
  | PermissionsAddRule category tool_name rule_content =>
      json_object [("category", json_string category); ("tool_name", json_string tool_name); ("rule_content", opt_value json_string rule_content)]
  | PermissionsRemoveRule category tool_name rule_content =>
      json_object [("category", json_string category); ("tool_name", json_string tool_name); ("rule_content", opt_value json_string rule_content)]
  | PermissionsSetMode mode =>
      json_object [("mode", json_string mode)]
  | PermissionsSetAutoAllow channel enabled =>
      json_object [("channel", json_string channel); ("enabled", json_bool enabled)]
  | PermissionsSetAskTimeout seconds =>
      json_object [("seconds", json_int seconds)]
  | PermissionsSetPersistGrants enabled =>
      json_object [("enabled", json_bool enabled)]
  | EvolutionRateTrajectory rating =>
      json_object [("rating", json_string rating)]
  | _ => json_null
  end.

(** The derived reader of each variant, by its name. *)
Definition methods : list (string * (Value -> option ClientMethod)) := [
  ("initialize", struct_variant (fun v =>
    cwd ← required as_str v "cwd"; model ← optional (as_str) v "model"; settings ← required Some v "settings"; protocol_version ← optional (as_str) v "protocol_version"; resume_session_id ← optional (as_str) v "resume_session_id"; shared_session_id ← optional (as_str) v "shared_session_id";
    Some (Initialize cwd model settings protocol_version resume_session_id shared_session_id)));
  ("submitMessage", struct_variant (fun v =>
    prompt ← required Some v "prompt"; uuid ← optional (as_str) v "uuid"; attachments ← optional (as_array) v "attachments";
    Some (SubmitMessage prompt uuid attachments)));
  ("permissionResponse", struct_variant (fun v =>
    tool_use_id ← required as_str v "tool_use_id"; decision ← required as_str v "decision"; rule ← optional (as_str) v "rule";
    Some (PermissionResponse tool_use_id decision rule)));
  ("abort", unit_variant Abort);
  ("updateSettings", struct_variant (fun v =>
    settings ← required Some v "settings";
    Some (UpdateSettings settings)));
  ("shutdown", unit_variant Shutdown);
  ("listTools", unit_variant ListTools);
  ("listMcpServers", unit_variant ListMcpServers);
  ("mcpRefresh", struct_variant (fun v =>
    server ← optional (as_str) v "server";
    Some (McpRefresh server)));
  ("listSkills", unit_variant ListSkills);
  ("listPlugins", unit_variant ListPlugins);
  ("compact", unit_variant Compact);
  ("clearSession", unit_variant ClearSession);
  ("switchModel", struct_variant (fun v =>
    model ← required as_str v "model";
    Some (SwitchModel model)));
  ("gitDiff", unit_variant GitDiff);
  ("gitCommit", struct_variant (fun v =>
    message ← required as_str v "message";
    Some (GitCommit message)));
  ("gitStatus", unit_variant GitStatus);
  ("taskCreate", struct_variant (fun v =>
    description ← required as_str v "description"; prompt ← required as_str v "prompt";
    Some (TaskCreate description prompt)));
  ("taskList", unit_variant TaskList);
  ("taskStatus", struct_variant (fun v =>
    task_id ← required as_str v "task_id";
    Some (TaskStatus task_id)));
  ("taskStop", struct_variant (fun v =>
    task_id ← required as_str v "task_id";
    Some (TaskStop task_id)));
  ("memoryList", unit_variant MemoryList);
  ("memoryAdd", struct_variant (fun v =>
    content ← required as_str v "content"; category ← defaulted default_category as_str v "category";
    Some (MemoryAdd content category)));
  ("memoryDelete", struct_variant (fun v =>
    id ← required as_str v "id";
    Some (MemoryDelete id)));
  ("memoryClear", unit_variant MemoryClear);
  ("memoryStats", unit_variant MemoryStats);
  ("memoryArchive", struct_variant (fun v =>
    id ← required as_str v "id";
    Some (MemoryArchive id)));
  ("memoryRestore", struct_variant (fun v =>
    id ← required as_str v "id";
    Some (MemoryRestore id)));
  ("memoryArchiveList", unit_variant MemoryArchiveList);
  ("memoryCleanup", unit_variant MemoryCleanup);
  ("cronAdd", struct_variant (fun v =>
    name ← required as_str v "name"; prompt ← required as_str v "prompt"; schedule ← required as_str v "schedule"; cwd ← optional (as_str) v "cwd";
    Some (CronAdd name prompt schedule cwd)));
  ("cronRemove", struct_variant (fun v =>
    id ← required as_str v "id";
    Some (CronRemove id)));
  ("cronToggle", struct_variant (fun v =>
    id ← required as_str v "id";
    Some (CronToggle id)));
  ("cronList", unit_variant CronList);
  ("projectsList", unit_variant ProjectsList);
  ("projectsSwitch", struct_variant (fun v =>
    id_prefix ← required as_str v "id_prefix";
    Some (ProjectsSwitch id_prefix)));
  ("projectsNew", struct_variant (fun v =>
    cwd ← required as_str v "cwd"; description ← optional (as_str) v "description";
    Some (ProjectsNew cwd description)));
  ("projectsUpdateDesc", struct_variant (fun v =>
    id_prefix ← required as_str v "id_prefix"; description ← required as_str v "description";
    Some (ProjectsUpdateDesc id_prefix description)));
  ("talkTail", struct_variant (fun v =>
    count ← defaulted default_tail_count as_u64 v "count";
    Some (TalkTail count)));
  ("searchHistory", struct_variant (fun v =>
    query ← required as_str v "query"; max_results ← defaulted default_tail_count as_u64 v "max_results";
    Some (SearchHistory query max_results)));
  ("docUpload", struct_variant (fun v =>
    file_path ← required as_str v "file_path";
    Some (DocUpload file_path)));
  ("export", struct_variant (fun v =>
    output_path ← optional (as_str) v "output_path";
    Some (Export output_path)));
  ("specNew", struct_variant (fun v =>
    feature_name ← required as_str v "feature_name"; workflow ← optional (as_str) v "workflow"; spec_type ← optional (as_str) v "spec_type";
    Some (SpecNew feature_name workflow spec_type)));
  ("specList", unit_variant SpecList);
  ("specShow", struct_variant (fun v =>
    feature_name ← required as_str v "feature_name";
    Some (SpecShow feature_name)));
  ("specStatus", struct_variant (fun v =>
    feature_name ← required as_str v "feature_name";
    Some (SpecStatus feature_name)));
  ("specRun", struct_variant (fun v =>
    feature_name ← required as_str v "feature_name"; task_id ← optional (as_str) v "task_id";
    Some (SpecRun feature_name task_id)));
  ("specEdit", struct_variant (fun v =>
    feature_name ← required as_str v "feature_name"; phase ← required as_str v "phase";
    Some (SpecEdit feature_name phase)));
  ("teamSpawn", struct_variant (fun v =>
    count ← optional (as_u64) v "count"; mode ← required as_str v "mode"; task ← required as_str v "task"; policy ← optional (Some) v "policy";
    Some (TeamSpawn count mode task policy)));
  ("teamList", unit_variant TeamList);
  ("teamStatus", struct_variant (fun v =>
    team_id ← required as_str v "team_id";
    Some (TeamStatus team_id)));
  ("teamResults", struct_variant (fun v =>
    team_id ← required as_str v "team_id";
    Some (TeamResults team_id)));
  ("teamAbort", struct_variant (fun v =>
    team_id ← required as_str v "team_id";
    Some (TeamAbort team_id)));
  ("teamExecute", struct_variant (fun v =>
    team_id ← required as_str v "team_id";
    Some (TeamExecute team_id)));
  ("templateList", unit_variant TemplateList);
  ("templateCreate", struct_variant (fun v =>
    json ← required as_str v "json";
    Some (TemplateCreate json)));
  ("templateDelete", struct_variant (fun v =>
    name ← required as_str v "name";
    Some (TemplateDelete name)));
  ("templateExport", struct_variant (fun v =>
    name ← required as_str v "name";
    Some (TemplateExport name)));
  ("templateImport", struct_variant (fun v =>
    url ← required as_str v "url";
    Some (TemplateImport url)));
  ("gitPrCreate", struct_variant (fun v =>
    title ← required as_str v "title"; body ← required as_str v "body"; base ← required as_str v "base"; head ← required as_str v "head";
    Some (GitPrCreate title body base head)));
  ("gitPrList", unit_variant GitPrList);
  ("gitBranchList", unit_variant GitBranchList);
  ("gitConflictCheck", unit_variant GitConflictCheck);
  ("modelList", unit_variant ModelList);
  ("modelRoute", struct_variant (fun v =>
    task ← required as_str v "task";
    Some (ModelRoute task)));
  ("modelBudget", unit_variant ModelBudget);
  ("telemetryStats", unit_variant TelemetryStats);
  ("telemetryTrends", struct_variant (fun v =>
    days ← required as_u32 v "days";
    Some (TelemetryTrends days)));
  ("telemetryExport", struct_variant (fun v =>
    format ← required as_str v "format";
    Some (TelemetryExport format)));
  ("telemetry.setEnabled", struct_variant (fun v =>
    enabled ← required as_bool v "enabled";
    Some (TelemetrySetEnabled enabled)));
  ("permissionStatus", unit_variant PermissionStatus);
  ("permissionGrant", struct_variant (fun v =>
    tool ← required as_str v "tool"; action ← required as_str v "action"; target ← required as_str v "target"; permanent ← required as_bool v "permanent";
    Some (PermissionGrant tool action target permanent)));
  ("permissionRevoke", struct_variant (fun v =>
    tool ← required as_str v "tool"; action ← required as_str v "action"; target ← required as_str v "target";
    Some (PermissionRevoke tool action target)));
  ("permissions.info", unit_variant PermissionsInfo);
  ("permissions.addRule", struct_variant (fun v =>
    category ← required as_str v "category"; tool_name ← required as_str v "tool_name"; rule_content ← optional (as_str) v "rule_content";
    Some (PermissionsAddRule category tool_name rule_content)));
  ("permissions.removeRule", struct_variant (fun v =>
    category ← required as_str v "category"; tool_name ← required as_str v "tool_name"; rule_content ← optional (as_str) v "rule_content";
    Some (PermissionsRemoveRule category tool_name rule_content)));
  ("permissions.setMode", struct_variant (fun v =>
    mode ← required as_str v "mode";
    Some (PermissionsSetMode mode)));
  ("permissions.setAutoAllow", struct_variant (fun v =>
    channel ← required as_str v "channel"; enabled ← required as_bool v "enabled";
    Some (PermissionsSetAutoAllow channel enabled)));
  ("permissions.setAskTimeout", struct_variant (fun v =>
    seconds ← required as_u64 v "seconds";
    Some (PermissionsSetAskTimeout seconds)));
  ("permissions.setPersistGrants", struct_variant (fun v =>
    enabled ← required as_bool v "enabled";
    Some (PermissionsSetPersistGrants enabled)));
  ("evolution.rateTrajectory", struct_variant (fun v =>
    rating ← required as_str v "rating";
    Some (EvolutionRateTrajectory rating)));
  ("toolHealth", unit_variant ToolHealth);
  ("session.tokens", unit_variant SessionTokens);
  ("session.cost", unit_variant SessionCost);
  ("session.info", unit_variant SessionInfo);
  ("config.model", unit_variant ConfigModel);
  ("config.show", unit_variant ConfigShow)].
(** ** [parse_client_method] *)

Inductive RouterError :=
| UnknownMethod (method : string)
| InvalidParams (message : string).

(** [from_value::<ClientMethod>] of the tagged value. *)
Definition decode_tagged (method : string) (params : Value) : option ClientMethod :=
  match assoc methods method with Some read => read params | None => None end.

(** Parameters that say nothing. *)
Definition no_params (v : Value) : bool :=
  is_null v
  || match as_object v with Some [] => true | _ => false end
  || match as_array v with Some [] => true | _ => false end.

(** The text of the error for a tagged value that is refused. *)
Variable error_text : string -> Value -> string.

Definition classify (method : string) (params : Value) : RouterError :=
  let err_msg := error_text method params in
  if str_contains err_msg "unknown variant" || str_contains err_msg "no variant" then UnknownMethod method
  else InvalidParams err_msg.

Definition parse_client_method (request : JsonRpcRequest) : result ClientMethod RouterError :=
  let method := rq_method request in
  let params := rq_params request in
  match decode_tagged method params with
  | Some m => Ok m
  | None =>
      match (if no_params params then decode_tagged method json_null else None) with
      | Some m => Ok m
      | None => Err (classify method params)
      end
  end.

(** ** What the reader promises *)

(** Numbers fit their types, and an optional value is not [null]. *)
Definition method_fits (m : ClientMethod) : Prop :=
  match m with
  | TalkTail count => is_u64 count
  | SearchHistory _ max_results => is_u64 max_results
  | TeamSpawn count _ _ policy =>
      match count with Some n => is_u64 n | None => True end
      /\ match policy with Some p => is_null p = false | None => True end
  | TelemetryTrends days => is_u32 days
  | PermissionsSetAskTimeout seconds => is_u64 seconds
  | _ => True
  end.

Context {JL : JsonLaws}.
Hypothesis as_u64_int : forall n, is_u64 n -> as_u64 (json_int n) = Some n.
Hypothesis as_u64_range : forall v n, as_u64 v = Some n -> is_u64 n.
Hypothesis is_null_array : forall l, is_null (json_array l) = false.
Hypothesis as_object_null : as_object json_null = None.

Lemma as_u32_int n : is_u32 n -> as_u32 (json_int n) = Some n.
Proof.
  intros Hn. unfold as_u32. rewrite as_u64_int by (unfold is_u32, is_u64, u32_max, u64_max in *; lia).
  unfold is_u32 in Hn. by rewrite (proj2 (Z.leb_le _ _)) by lia.
Qed.

Lemma as_u32_range v n : as_u32 v = Some n -> is_u32 n.
Proof.
  unfold as_u32. destruct (as_u64 v) as [k|] eqn:Hk; [|done]. destruct (Z.leb_spec k u32_max); [|done]. intros [= <-].
  apply as_u64_range in Hk. unfold is_u64, is_u32 in *. lia.
Qed.

(** A written optional field is read back. *)
Lemma opt_string_read (o : option string) :
  (if is_null (opt_value json_string o) then Some None else Some <$> as_str (opt_value json_string o)) = Some o.
Proof. destruct o as [s|]; simpl; [by rewrite is_null_string, as_str_string|by rewrite is_null_null]. Qed.

Lemma opt_int_read (o : option Z) :
  match o with Some n => is_u64 n | None => True end ->
  (if is_null (opt_value json_int o) then Some None else Some <$> as_u64 (opt_value json_int o)) = Some o.
Proof. destruct o as [n|]; simpl; [intros Hn; by rewrite is_null_int, as_u64_int|by rewrite is_null_null]. Qed.

Lemma opt_array_read (o : option (list Value)) :
  (if is_null (opt_value json_array o) then Some None else Some <$> as_array (opt_value json_array o)) = Some o.
Proof. destruct o as [l|]; simpl; [by rewrite is_null_array, as_array_array|by rewrite is_null_null]. Qed.

Lemma opt_any_read (o : option Value) :
  match o with Some p => is_null p = false | None => True end ->
  (if is_null (opt_value (fun v => v) o) then Some None else Some <$> Some (opt_value (fun v => v) o)) = Some o.
Proof. destruct o as [p|]; simpl; [by intros ->|by rewrite is_null_null]. Qed.

Lemma struct_read read fs : struct_variant read (json_object fs) = read (json_object fs).
Proof. unfold struct_variant. pose proof (as_object_object fs) as Ho. by destruct (as_object (json_object fs)). Qed.

Ltac read_params :=
  rewrite ?struct_read; unfold required, optional, defaulted;
  rewrite ?json_get_object by (apply (bool_decide_unpack _); vm_compute; exact I);
  cbn [assoc String.eqb Ascii.eqb Bool.eqb mbind option_bind];
  rewrite ?as_str_string, ?as_bool_bool, ?opt_string_read, ?opt_array_read; cbn [mbind option_bind].

(** Reading what was written. *)
Lemma decode_method m : method_fits m -> decode_tagged (method_name m) (method_params m) = Some m.
Proof.
  intros Hm. unfold decode_tagged.
  destruct m; cbn [method_name method_params method_fits] in *;
    lazy [assoc methods String.eqb Ascii.eqb Bool.eqb];
    try (unfold unit_variant; by rewrite is_null_null);
    read_params; try done.
  - by rewrite as_u64_int.
  - by rewrite as_u64_int.
  - destruct Hm as [Hc Hp]. by rewrite opt_int_read, opt_any_read.
  - by rewrite as_u32_int.
  - by rewrite as_u64_int.
Qed.

(** Each reader makes its own method, with parameters that fit. *)
Definition reader_ok (e : string * (Value -> option ClientMethod)) : Prop :=
  forall v m, e.2 v = Some m -> method_name m = e.1 /\ method_fits m.

Lemma unit_ok n m : method_name m = n -> method_fits m -> reader_ok (n, unit_variant m).
Proof. intros Hn Hf v m'. cbn [fst snd]. unfold unit_variant. destruct (is_null v); [|done]. by intros [= <-]. Qed.

Lemma struct_ok n read : (forall v m, read v = Some m -> method_name m = n /\ method_fits m) -> reader_ok (n, struct_variant read).
Proof. intros Hr v m. cbn [fst snd]. unfold struct_variant. destruct (as_object v); [|done]. apply Hr. Qed.

Lemma defaulted_u64 d v k n : is_u64 d -> defaulted d as_u64 v k = Some n -> is_u64 n.
Proof. unfold defaulted. destruct (json_get v k); [intros _; apply as_u64_range|by intros Hd [= <-]]. Qed.

Lemma optional_u64 v k o : optional as_u64 v k = Some o -> match o with Some n => is_u64 n | None => True end.
Proof.
  unfold optional. destruct (json_get v k) as [x|]; [|by intros [= <-]]. destruct (is_null x); [by intros [= <-]|].
  destruct (as_u64 x) as [n|] eqn:Hn; [|done]. intros [= <-]. by apply (as_u64_range x).
Qed.

Lemma optional_value v k o : optional Some v k = Some o -> match o with Some p => is_null p = false | None => True end.
Proof.
  unfold optional. destruct (json_get v k) as [x|]; [|by intros [= <-]]. destruct (is_null x) eqn:Hx; by intros [= <-].
Qed.

Lemma required_u64 v k n : required as_u64 v k = Some n -> is_u64 n.
Proof. unfold required. intros (x & _ & Hx)%bind_Some. by apply (as_u64_range x). Qed.

Lemma required_u32 v k n : required as_u32 v k = Some n -> is_u32 n.
Proof. unfold required. intros (x & _ & Hx)%bind_Some. by apply (as_u32_range x). Qed.

Lemma tail_count_u64 : is_u64 default_tail_count.
Proof. unfold is_u64, default_tail_count, u64_max. lia. Qed.

Ltac reader_done :=
  first [apply unit_ok; done
        |apply struct_ok; intros v m Hm; cbv beta in Hm;
         repeat match goal with
         | H : mbind _ _ = Some _ |- _ => apply bind_Some in H as (? & ? & H)
         end; simplify_eq;
         split; [done|]; cbn [method_fits];
         repeat split;
         first [exact I
               |eapply required_u64; eassumption
               |eapply required_u32; eassumption
               |eapply defaulted_u64; [|eassumption]; exact tail_count_u64
               |eapply optional_u64; eassumption
               |eapply optional_value; eassumption]].

Lemma methods_ok : Forall reader_ok methods.
Proof. unfold methods. repeat (apply Forall_cons; split; [reader_done|]). constructor. Qed.

Lemma decoded_ok n v m : decode_tagged n v = Some m -> method_name m = n /\ method_fits m.
Proof.
  unfold decode_tagged. destruct (assoc methods n) as [read|] eqn:Hr; [|done]. apply assoc_in in Hr.
  pose proof methods_ok as Hall. rewrite Forall_forall in Hall. apply (Hall _ Hr).
Qed.

(** A method without parameters reads nothing but [null]. *)
Lemma unit_reader m v :
  method_params m = json_null -> decode_tagged (method_name m) v = unit_variant m v.
Proof.
  pose proof as_object_null as Hnull.
  destruct m; cbn [method_params]; intros Hp; try reflexivity;
    match type of Hp with json_object ?fs = _ =>
      pose proof (as_object_object fs) as Ho; by rewrite Hp, Hnull in Ho
    end.
Qed.

(** Claim C17. A request is the method it says.  Every method whose numbers fit
    their types, sent under its name with its parameters (or a method without
    any, with [null], an empty object or an empty array), is read as exactly
    that method.  Conversely a request that is accepted is read as the method
    of its name, and sending that again gives the same method. *)
Theorem methods_roundtrip :
  (forall m id, method_fits m ->
     parse_client_method (mkRequest "2.0" (method_name m) (method_params m) id) = Ok m)
  /\ (forall m id v, method_params m = json_null -> v ∈ [json_null; json_object []; json_array []] ->
     parse_client_method (mkRequest "2.0" (method_name m) v id) = Ok m)
  /\ (forall r m, parse_client_method r = Ok m ->
     method_name m = rq_method r
     /\ parse_client_method (mkRequest (rq_jsonrpc r) (method_name m) (method_params m) (rq_id r)) = Ok m).
Proof.
  assert (Hrt : forall j m id, method_fits m -> parse_client_method (mkRequest j (method_name m) (method_params m) id) = Ok m)
    by (intros j m id Hm; unfold parse_client_method; cbn [rq_method rq_params]; by rewrite decode_method).
  split; [intros; by apply Hrt|split].
  - intros m id v Hnull Hv. assert (Hno : no_params v = true).
    { unfold no_params. rewrite !elem_of_cons in Hv. destruct Hv as [->|[->|[->|[]%elem_of_nil]]];
        [by rewrite is_null_null|by rewrite as_object_nil, orb_true_r|by rewrite as_array_array, !orb_true_r]. }
    unfold parse_client_method. cbn [rq_method rq_params].
    rewrite !(unit_reader m) by done. unfold unit_variant. rewrite Hno, is_null_null. by destruct (is_null v).
  - intros r m Hr. assert (Hm : method_name m = rq_method r /\ method_fits m).
    { unfold parse_client_method in Hr. destruct (decode_tagged _ (rq_params r)) as [m'|] eqn:Hd.
      - injection Hr as <-. by apply decoded_ok in Hd.
      - destruct (no_params _); [|done]. destruct (decode_tagged _ json_null) as [m'|] eqn:Hd'; [|done].
        injection Hr as <-. by apply decoded_ok in Hd'. }
    destruct Hm as [Hn Hf]. split; [done|by apply Hrt].
Qed.
End Methods.

(** ** Witnesses and examples *)

#[local] Existing Instances flat_json flat_json_laws.

Definition demo_error (method : string) (params : Value) : string :=
  match params with
  | FStr t => "invalid type: string " +:+ t +:+ ", expected a map"
  | _ => "invalid type: unit value, expected a map"
  end.

Definition demo_parse (method : string) (params : flat) :=
  parse_client_method demo_error (mkRequest "2.0" method params (Number 1)).

Lemma methods_roundtrip_witness :
  demo_parse "talkTail" (FObj [("count", FInt 3)]) = Ok (TalkTail 3)
  /\ demo_parse "listTools" (FArr []) = Ok ListTools.
Proof.
  assert (H1 : forall n, is_u64 n -> as_u64 (json_int n) = Some n).
  { intros n Hn. unfold is_u64 in Hn. cbn. by rewrite (proj2 (Z.leb_le _ _)), (proj2 (Z.leb_le _ _)) by lia. }
  assert (H2 : forall v n, as_u64 v = Some n -> is_u64 n).
  { intros v n. destruct v as [| |k| | |]; cbn; try done.
    destruct (Z.leb_spec 0 k); [|done]. destruct (Z.leb_spec k u64_max); [|done]. intros [= <-]. by unfold is_u64. }
  destruct (@methods_roundtrip flat_json demo_error flat_json_laws H1 H2 (fun l => eq_refl) eq_refl) as (Hsend & Hempty & _). split.
  - apply (Hsend (TalkTail 3) (Number 1)). cbn. unfold is_u64, u64_max. lia.
  - apply (Hempty ListTools (Number 1) (FArr [])); [done|]. by right; right; left.
Defined.

(** A method whose only parameter may be left out still refuses [null] and the
    empty array. *)
Example null_refused :
  demo_parse "mcpRefresh" (FObj []) = Ok (McpRefresh None)
  /\ demo_parse "mcpRefresh" FNull = Err (InvalidParams "invalid type: unit value, expected a map")
  /\ demo_parse "mcpRefresh" (FArr []) = Err (InvalidParams "invalid type: unit value, expected a map").
Proof. repeat split; reflexivity. Qed.

(** A parameter whose text is part of the error decides how it is reported. *)
Example parameter_hides_method :
  demo_parse "taskStatus" (FStr "unknown variant") = Err (UnknownMethod "taskStatus").
Proof. reflexivity. Qed.
