(* ===== verification/Evolution.v ===== *)
(** * Evolution: learning from sessions ([engine/evolution.rs], [evolve_tool.rs])

    Trajectories and the candidates for skills taken from them, the statistics
    of skills with their evaluation and retirement, the review of a session
    and the text for the next prompt, the export of training data, and the
    tool that works on skills.  Files are the interface [FileStore.Files]; the
    derived conversions from and to JSON text, the redaction of secrets, the
    tables of Unicode and the clock are arguments. *)

From stdpp Require Import base gmap strings list.
From Stdlib Require Import ZArith Lia SpecFloat.
From S2P Require Import Prelude Text TextProofs Float64 Json Paths FileCache FileStore Permissions ToolHealth ToolExec Messages.

#[local] Open Scope string_scope.

Abbreviation text := (list byte).

(** ** Data *)

Record SessionSummary := mkSummary {
  session_id : string; summary_time : string; summary_cwd : string; summary_model : string;
  duration_secs : Z; turn_count : Z; user_topics : list string;
  tool_usage : list (string * Z); errors : list (string * string);
  total_input_tokens : Z; total_output_tokens : Z; total_cache_read : Z;
  total_cost_usd : f64; skills_used : list string
}.

Definition SKILL_CREATION_THRESHOLD : Z := 3.
Definition SELF_EVAL_INTERVAL : Z := 15.

Record TrajectoryAction := mkAction {
  action_tool : string; input_summary : string; output_summary : string; action_error : bool
}.

Inductive TrajectoryOutcome :=
| Completed (final_text_preview : string)
| MaxTurns
| Aborted
| Error (code message : string).

Inductive TrajectoryRating := Good | Bad | Neutral.

Record Trajectory := mkTrajectory {
  traj_id : string; traj_time : string; traj_cwd : string; user_prompt : string;
  assistant_actions : list TrajectoryAction; outcome : TrajectoryOutcome;
  tool_count : Z; traj_duration : Z; user_rating : option TrajectoryRating
}.

Definition set_rating (r : TrajectoryRating) (t : Trajectory) : Trajectory :=
  mkTrajectory (traj_id t) (traj_time t) (traj_cwd t) (user_prompt t) (assistant_actions t) (outcome t)
    (tool_count t) (traj_duration t) (Some r).

Record SkillStats := mkStats {
  skill_name : string; times_loaded : Z; times_relevant : Z; times_succeeded : Z; times_failed : Z;
  last_used : option string; version : Z; avg_rating : f64; retired : bool; retired_reason : option string
}.

Record SkillCandidate := mkCandidate {
  cand_name : string; cand_description : string; trigger_pattern : string; procedure : string;
  source_trajectory_id : string; created_at : string
}.

(** [SkillStats::new]. *)
Definition stats_new (n : string) : SkillStats := mkStats n 0 0 0 0 None 1 f64_zero false None.

Inductive SkillGrade := Excellent | GoodGrade | NeedsImprovement | Poor | Critical | InsufficientData.
Inductive SuggestedAction := NoAction | MinorTweak | Improve | MajorRevision | Retire.

Record SkillEvaluation := mkEvaluation {
  eval_skill : string; score : f64; grade : SkillGrade; diagnostics : list string; suggested_action : SuggestedAction
}.

Record ImprovementSuggestion := mkSuggestion { priority : Z; category : string; sug_description : string }.

Inductive Severity := SevError | SevWarning.
Record ValidationIssue := mkIssue { severity : Severity; issue_message : string }.
Record SkillCheck := mkCheck { checked_skill : string; valid : bool; issues : list ValidationIssue }.

Record ImprovementCycleReport := mkReport {
  skills_evaluated : Z; skills_improved : Z; skills_retired : Z; actions : list string
}.

(** ** Names of skills *)

Definition hyphen : byte := Ascii.ascii_of_nat 45.
Definition underscore : byte := Ascii.ascii_of_nat 95.

Definition name_byte (b : byte) : bool := (is_alphanumeric b || Ascii.eqb b hyphen || Ascii.eqb b underscore)%bool.

(** [is_safe_skill_name]: every byte of a character beyond ASCII fails. *)
Definition is_safe_skill_name (n : string) : bool :=
  (negb (Text.is_empty n) && Nat.leb (str_len n) 80 && forallb name_byte (bytes_of n))%bool.

(** The characters of a text: a byte with the continuation bytes after it. *)
Fixpoint chars (l : text) : list text :=
  match l with
  | [] => []
  | b :: l' =>
      match chars l' with
      | (c :: rest) :: cs => if is_continuation c then (b :: c :: rest) :: cs else [b] :: (c :: rest) :: cs
      | cs => [b] :: cs
      end
  end.

Section Slug.
(** [char::is_alphanumeric] of a character beyond ASCII, and
    [str::to_lowercase]. *)
Variable alphanumeric_beyond : text -> bool.
Variable lowercase : text -> text.

Definition slug_char (c : text) : text :=
  let kept := match c with
              | [b] => name_byte b
              | _ => alphanumeric_beyond c
              end in
  if kept then c else [hyphen].

(** Runs of hyphens become one; a hyphen is one byte, so this goes by bytes. *)
Fixpoint collapse (prev_hyphen : bool) (l : text) : text :=
  match l with
  | [] => []
  | b :: l' =>
      if Ascii.eqb b hyphen then (if prev_hyphen then collapse true l' else b :: collapse true l')
      else b :: collapse false l'
  end.

Fixpoint drop_hyphens (l : text) : text :=
  match l with
  | b :: l' => if Ascii.eqb b hyphen then drop_hyphens l' else l
  | [] => []
  end.

(** [trim_matches('-')]. *)
Definition trim_hyphens (l : text) : text := rev (drop_hyphens (rev (drop_hyphens l))).

(** [slugify]; [String::truncate] panics ([None]) inside a character. *)
Definition slugify (s : string) : option string :=
  let slug := concat (slug_char <$> chars (bytes_of s)) in
  let result := collapse false (lowercase (trim_hyphens slug)) in
  match (if Nat.ltb 60 (length result)
         then (if is_char_boundary 60 result then Some (take 60 result) else None)
         else Some result) with
  | None => None
  | Some [] => Some "auto-skill"
  | Some r => Some (string_of r)
  end.
End Slug.

(** ** Redaction of home directories

    The pattern of [redact_training_text]: [(?i)(?:/home/|/Users/|[A-Za-z]:\\Users\\)[^\s]+].
    Regardless of case, the long s counts as an s and the Kelvin sign as a k. *)

Definition long_s : text := utf8 [197; 191]%nat.
Definition kelvin : text := utf8 [226; 132; 170]%nat.

Definition either_case (b : byte) : list text :=
  let n := Ascii.nat_of_ascii b in
  [[b]] ++ (if is_lower b then [[Ascii.ascii_of_nat (n - 32)]] else if is_upper b then [[Ascii.ascii_of_nat (n + 32)]] else [])
  ++ (if Ascii.eqb (lower_byte b) (Ascii.ascii_of_nat 115) then [long_s] else []).

Definition any_letter : list text :=
  ((fun n => [Ascii.ascii_of_nat n]) <$> (seq 65 26 ++ seq 97 26)%list) ++ [long_s; kelvin].

Definition home_patterns : list (list (list text)) :=
  [either_case <$> bytes_of "/home/"; either_case <$> bytes_of "/Users/";
   any_letter :: (either_case <$> bytes_of ":\Users\")].

Fixpoint strip_seq (pat : list (list text)) (l : text) : option text :=
  match pat with
  | [] => Some l
  | alts :: pat => match strip_any alts l with Some r => strip_seq pat r | None => None end
  end.

Definition starts_white (l : text) : bool := is_some (strip_any whitespace l).

(** [[^\s]+]: what is left after the run. *)
Fixpoint drop_solid (l : text) : text :=
  match l with
  | [] => []
  | b :: l' => if starts_white l then l else drop_solid l'
  end.

(** One alternative and the run: a match at the front, with what is left. *)
Definition matched (pat : list (list text)) (l : text) : option text :=
  match strip_seq pat l with
  | Some [] => None
  | Some r => if starts_white r then None else Some (drop_solid r)
  | None => None
  end.

Fixpoint first_match (pats : list (list (list text))) (l : text) : option text :=
  match pats with
  | [] => None
  | p :: pats => match matched p l with Some r => Some r | None => first_match pats l end
  end.

Definition home_match (l : text) : option text := first_match home_patterns l.

Fixpoint redact_paths (fuel : nat) (l : text) : text :=
  match fuel, l with
  | S n, b :: l' =>
      match home_match l with
      | Some rest => bytes_of "[REDACTED]" ++ redact_paths n rest
      | None => b :: redact_paths n l'
      end
  | _, _ => []
  end%list.

(** ** Evaluating a skill *)

Definition ratio (a b : Z) : f64 := f64_div (f64_of_Z a) (f64_of_Z b).
Definition percent (r : f64) : string := fmt_whole (f64_mul r (f64_of_Z 100)) +:+ "%".

(** A score with what was found. *)
Abbreviation Judgement := (f64 * list string)%type.

Definition scaled (m d : Z) (why : string) (j : Judgement) : Judgement :=
  (f64_mul j.1 (f64_ratio m d), (j.2 ++ [why])%list).

(** Factor 1. *)
Definition judge_relevance (s : SkillStats) (j : Judgement) : Judgement :=
  if Z.ltb 0 (times_relevant s) then
    let rate := ratio (times_relevant s) (times_loaded s) in
    if f64_lt rate (f64_ratio 3 10) then
      scaled 6 10 ("Low relevance rate: " +:+ percent rate +:+ " (loaded " +:+ show_Z (times_loaded s) +:+
                   " times, relevant " +:+ show_Z (times_relevant s) +:+ " times)") j
    else if f64_lt rate (f64_ratio 5 10) then scaled 8 10 ("Moderate relevance rate: " +:+ percent rate) j
    else j
  else j.

(** Factor 2. *)
Definition judge_success (s : SkillStats) (j : Judgement) : Judgement :=
  let total := add32 (times_succeeded s) (times_failed s) in
  if Z.ltb 0 total then
    let rate := ratio (times_succeeded s) total in
    if f64_lt rate (f64_ratio 4 10) then
      scaled 5 10 ("Low success rate: " +:+ percent rate +:+ " (" +:+ show_Z (times_succeeded s) +:+ " success, " +:+
                   show_Z (times_failed s) +:+ " fail)") j
    else if f64_lt rate (f64_ratio 7 10) then scaled 85 100 ("Moderate success rate: " +:+ percent rate) j
    else j
  else j.

(** Factor 2b. *)
Definition judge_never (s : SkillStats) (j : Judgement) : Judgement :=
  if (Z.leb 3 (times_loaded s) && Z.eqb (times_succeeded s) 0)%bool then
    scaled 3 10 ("Never succeeded in " +:+ show_Z (times_loaded s) +:+ " loads — likely broken") j
  else j.

(** Factor 3. *)
Definition judge_rating (s : SkillStats) (j : Judgement) : Judgement :=
  if f64_lt f64_zero (avg_rating s) then
    (f64_mul j.1 (avg_rating s),
     if f64_lt (avg_rating s) (f64_ratio 4 10)
     then (j.2 ++ ["Low user rating: " +:+ fmt_fixed 2 (avg_rating s)])%list else j.2)
  else j.

(** Factor 4. *)
Definition judge_staleness (s : SkillStats) (j : Judgement) : Judgement :=
  if (Z.ltb (version s) 2 && Z.ltb 10 (times_loaded s))%bool then
    scaled 95 100 "Skill has not been improved despite heavy usage" j
  else j.

(** [f64::clamp(0.0, 1.0)]: NaN stays. *)
Definition clamp01 (x : f64) : f64 :=
  let x := if f64_lt x f64_zero then f64_zero else x in
  if f64_lt (f64_of_Z 1) x then f64_of_Z 1 else x.

Definition grade_of (score : f64) : SkillGrade * SuggestedAction :=
  if f64_ge score (f64_ratio 8 10) then (Excellent, NoAction)
  else if f64_ge score (f64_ratio 6 10) then (GoodGrade, MinorTweak)
  else if f64_ge score (f64_ratio 4 10) then (NeedsImprovement, Improve)
  else if f64_ge score (f64_ratio 2 10) then (Poor, MajorRevision)
  else (Critical, Retire).

Definition judge (s : SkillStats) : Judgement :=
  let j := judge_staleness s (judge_rating s (judge_never s (judge_success s (judge_relevance s (f64_of_Z 1, []))))) in
  (clamp01 j.1, j.2).

(** [evaluate_skill] once the statistics are there. *)
Definition evaluate (n : string) (s : SkillStats) : SkillEvaluation :=
  if Z.ltb (times_loaded s) 3 then
    mkEvaluation n (f64_of_Z 1) InsufficientData ["Not enough usage data for evaluation (need ≥3 loads)"] NoAction
  else
    let j := judge s in
    let ga := grade_of j.1 in
    mkEvaluation n j.1 ga.1
      (match j.2 with [] => ["Skill performing within acceptable parameters"] | ds => ds end) ga.2.

Definition grade_debug (g : SkillGrade) : string :=
  match g with
  | Excellent => "Excellent" | GoodGrade => "Good" | NeedsImprovement => "NeedsImprovement"
  | Poor => "Poor" | Critical => "Critical" | InsufficientData => "InsufficientData"
  end.

(** ** The engine *)

Record EvolutionEngine := mkEngine {
  base_dir : Path; task_count : Z; skills_dir : Path;
  skill_stats : gmap string SkillStats;
  trajectories : list Trajectory   (* nothing is ever added *)
}.

Definition set_stats (e : EvolutionEngine) (m : gmap string SkillStats) : EvolutionEngine :=
  mkEngine (base_dir e) (task_count e) (skills_dir e) m (trajectories e).
Definition set_task_count (e : EvolutionEngine) (n : Z) : EvolutionEngine :=
  mkEngine (base_dir e) n (skills_dir e) (skill_stats e) (trajectories e).

Section Engine.
Context `{J : Json} `{F : Files} `{O : HashOrder}.

(** The derived conversions, [serde_json::to_string_pretty] of a value,
    [security::redact_secrets] and the tables of Unicode. *)
Variable trajectory_text : Trajectory -> option string.
Variable trajectory_parse : string -> option Trajectory.
Variable candidate_text : SkillCandidate -> option string.
Variable candidate_parse : string -> option SkillCandidate.
Variable stats_text : gmap string SkillStats -> option string.
Variable stats_parse : string -> option (gmap string SkillStats).
Variable summary_text : SessionSummary -> option string.
Variable pretty_text : Value -> option string.
Variable redact_secrets : string -> string.
Variable alphanumeric_beyond : text -> bool.
Variable lowercase : text -> text.

Definition redact_training_text (s : string) : string :=
  let l := bytes_of (redact_secrets s) in string_of (redact_paths (length l) l).

(** *** Statistics *)

Definition load_skill_stats (d : files) (dir : Path) : gmap string SkillStats :=
  default ∅ (read_to_string d (file_of dir "skill_stats.json") ≫= stats_parse).

(** [EvolutionEngine::new], the directories given. *)
Definition new_engine (d : files) (base skills : Path) : files * EvolutionEngine :=
  let d := (create_dir_all d skills).1 in
  (d, mkEngine base 0 skills (load_skill_stats d skills) []).

Definition switch_project (e : EvolutionEngine) : EvolutionEngine := set_task_count e 0.

(** Every caller ignores the result. *)
Definition save_stats (d : files) (e : EvolutionEngine) : files :=
  match stats_text (skill_stats e) with
  | Some json => (write d (file_of (skills_dir e) "skill_stats.json") json).1
  | None => d
  end.

Definition get_or_create_stats (e : EvolutionEngine) (n : string) : EvolutionEngine * SkillStats :=
  match skill_stats e !! n with
  | Some s => (e, s)
  | None => (set_stats e (<[n := stats_new n]> (skill_stats e)), stats_new n)
  end.

Definition count_outcome (now : string) (success : bool) (s : SkillStats) : SkillStats :=
  mkStats (skill_name s) (add32 (times_loaded s) 1)
    (if success then add32 (times_relevant s) 1 else times_relevant s)
    (if success then add32 (times_succeeded s) 1 else times_succeeded s)
    (if success then times_failed s else add32 (times_failed s) 1)
    (Some now) (version s) (avg_rating s) (retired s) (retired_reason s).

Definition record_skill_outcome (now : string) (d : files) (e : EvolutionEngine) (n : string) (success : bool) :
    files * EvolutionEngine :=
  let s := default (stats_new n) (skill_stats e !! n) in
  let e := set_stats e (<[n := count_outcome now success s]> (skill_stats e)) in
  (save_stats d e, e).

Definition evaluate_skill (e : EvolutionEngine) (n : string) : EvolutionEngine * SkillEvaluation :=
  let '(e, s) := get_or_create_stats e n in (e, evaluate n s).

Definition mark_retired (reason : option string) (s : SkillStats) : SkillStats :=
  mkStats (skill_name s) (times_loaded s) (times_relevant s) (times_succeeded s) (times_failed s) (last_used s)
    (version s) (avg_rating s) (is_some reason) reason.

Definition retirement_notice (today reason : string) : string :=
  line_feed +:+ line_feed +:+ "---" +:+ line_feed +:+ "> ⚠️ **RETIRED** (auto-disabled on " +:+ today +:+ ")" +:+ line_feed +:+
  "> Reason: " +:+ reason +:+ line_feed +:+
  "> To re-enable: remove this notice and set `retired: false` in stats." +:+ line_feed.

Definition retire_skill (today : string) (d : files) (e : EvolutionEngine) (n reason : string) : files * EvolutionEngine :=
  let s := default (stats_new n) (skill_stats e !! n) in
  let e := set_stats e (<[n := mark_retired (Some reason) s]> (skill_stats e)) in
  let path := file_of (skills_dir e) (n +:+ ".md") in
  let d := if exists_file d path then
             match read_to_string d path with
             | Some content => (write d path (content +:+ retirement_notice today reason)).1
             | None => d
             end
           else d in
  (save_stats d e, e).

Definition unretire_skill (d : files) (e : EvolutionEngine) (n : string) : files * EvolutionEngine :=
  let e := match skill_stats e !! n with
           | Some s => set_stats e (<[n := mark_retired None s]> (skill_stats e))
           | None => e
           end in
  (save_stats d e, e).

(** *** Suggestions *)

Definition bump (m : gmap string Z) (k : string) : gmap string Z := <[k := add32 (default 0%Z (m !! k)) 1]> m.

(** The trajectories that count against a skill. *)
Definition against (n : string) (t : Trajectory) : bool :=
  (str_contains (user_prompt t) n && match user_rating t with Some Bad => true | _ => false end)%bool.

Definition failure_tools (n : string) (ts : list Trajectory) : gmap string Z :=
  foldl (fun m t => foldl (fun m a => bump m (action_tool a)) m (assistant_actions t)) ∅ (retain (against n) ts).

Definition failure_keywords (n : string) (ts : list Trajectory) : gmap string Z :=
  foldl (fun m t => foldl (fun m w => let w := string_of (lowercase (bytes_of w)) in
                                      if Nat.ltb 4 (str_len w) then bump m w else m)
                      m (split_whitespace (user_prompt t))) ∅ (retain (against n) ts).

(** [max_by_key]: the last of the greatest. *)
Definition max_by_count (l : list (string * Z)) : option (string * Z) :=
  foldl (fun best x => match best with
                       | Some b => if Z.leb b.2 x.2 then Some x else best
                       | None => Some x
                       end) None l.

Definition grade_suggestion (n : string) (ev : SkillEvaluation) : list ImprovementSuggestion :=
  let sc := fmt_fixed 2 (score ev) in
  match grade ev with
  | NeedsImprovement =>
      [mkSuggestion 1 "performance" ("Skill '" +:+ n +:+ "' has moderate effectiveness (score " +:+ sc +:+
         "). Review trigger conditions to reduce false positives.")]
  | Poor =>
      [mkSuggestion 2 "relevance" ("Skill '" +:+ n +:+ "' is underperforming (score " +:+ sc +:+
         "). Consider narrowing scope or improving instructions.")]
  | Critical =>
      [mkSuggestion 3 "retirement" ("Skill '" +:+ n +:+ "' is critically ineffective (score " +:+ sc +:+
         "). Recommend retirement or complete rewrite.")]
  | _ => []
  end.

Definition tool_suggestion (tools : gmap string Z) : list ImprovementSuggestion :=
  match max_by_count (hash_iter tools) with
  | Some (t, count) =>
      if Z.leb 2 count then
        [mkSuggestion 2 "tool_usage" ("Tool '" +:+ t +:+ "' appears in " +:+ show_Z count +:+
           " failed trajectories. Consider adjusting tool invocation strategy.")]
      else []
  | None => []
  end.

Definition more_counted (x y : string * Z) : bool := Z.leb y.2 x.2.

Definition keyword_suggestion (words : gmap string Z) : list ImprovementSuggestion :=
  let sorted := sort_by more_counted (hash_iter words) in
  if Nat.leb 2 (length sorted) then
    [mkSuggestion 1 "scope" ("Common keywords in failures: " +:+ String.concat ", " (take 3 sorted).*1 +:+
       ". May indicate scope mismatch.")]
  else [].

Definition diagnostic_suggestion (diag : string) : list ImprovementSuggestion :=
  ((if str_contains diag "relevance" then
      [mkSuggestion 2 "trigger" "Improve trigger condition specificity to reduce irrelevant activations"] else [])
   ++ (if str_contains diag "success rate" then
         [mkSuggestion 2 "instructions" "Strengthen step-by-step instructions to improve execution success rate"] else []))%list.

Definition more_urgent (x y : ImprovementSuggestion) : bool := Z.leb (priority y) (priority x).

Definition suggest_improvements (e : EvolutionEngine) (n : string) : EvolutionEngine * list ImprovementSuggestion :=
  let '(e, ev) := evaluate_skill e n in
  match suggested_action ev with
  | NoAction | MinorTweak => (e, [])
  | _ =>
      (e, sort_by more_urgent
            (grade_suggestion n ev ++ tool_suggestion (failure_tools n (trajectories e))
             ++ keyword_suggestion (failure_keywords n (trajectories e))
             ++ concat (diagnostic_suggestion <$> diagnostics ev))%list)
  end.

(** *** Validation *)

Definition starts (p : string) (l : text) : bool := is_some (strip (bytes_of p) l).

Definition mentions_trigger (l : text) : bool :=
  let lower := to_lowercase (string_of l) in
  (str_contains lower "trigger" || str_contains lower "when to use" || str_contains lower "use when")%bool.

Definition is_instruction (l : text) : bool := (starts "1." l || starts "- " l || starts "* " l || starts "Step" l)%bool.

Definition warn (b : bool) (m : string) : list ValidationIssue := if b then [mkIssue SevWarning m] else [].

Definition content_issues (content : string) : list ValidationIssue :=
  let ls := lines (bytes_of content) in
  let n := length ls in
  ((match trim_text (bytes_of content) with [] => [mkIssue SevError "Skill file is empty"] | _ => [] end)
   ++ warn (negb (existsb (starts "## ") ls)) "No section headers (## ) found — skill may lack structure"
   ++ warn (negb (existsb mentions_trigger ls)) "No trigger conditions found — skill may activate incorrectly"
   ++ warn (negb (existsb is_instruction ls)) "No step-by-step instructions found"
   ++ (if Nat.ltb n 5 then warn true ("Skill is very short (" +:+ show_nat n +:+ " lines) — may be incomplete")
       else if Nat.ltb 500 n then warn true ("Skill is very long (" +:+ show_nat n +:+ " lines) — consider splitting")
       else []))%list.

Definition validate_skill (d : files) (e : EvolutionEngine) (n : string) : SkillCheck :=
  let path := file_of (skills_dir e) (n +:+ ".md") in
  if negb (exists_file d path) then
    mkCheck n false [mkIssue SevError ("Skill file not found: " +:+ show_path path)]
  else
    match read_to_string d path with
    | None => mkCheck n false [mkIssue SevError "Cannot read skill file"]
    | Some content =>
        let found := content_issues content in
        mkCheck n (forallb (fun i => match severity i with SevError => false | SevWarning => true end) found) found
    end.

(** *** The cycle *)

Definition count_if (b : bool) (n : Z) : Z := if b then add64 n 1 else n.

Definition set_report (r : ImprovementCycleReport) (imp ret : bool) (action : string) : ImprovementCycleReport :=
  mkReport (skills_evaluated r) (count_if imp (skills_improved r)) (count_if ret (skills_retired r)) (actions r ++ [action])%list.

Definition retire_reason (ev : SkillEvaluation) : string :=
  "Auto-retired: score " +:+ fmt_fixed 2 (score ev) +:+ ", grade " +:+ grade_debug (grade ev).

Definition cycle_step (today : string) (st : files * EvolutionEngine * ImprovementCycleReport) (n : string) :
    files * EvolutionEngine * ImprovementCycleReport :=
  let '(d, e, r) := st in
  let '(e, ev) := evaluate_skill e n in
  let r := mkReport (add64 (skills_evaluated r) 1) (skills_improved r) (skills_retired r) (actions r) in
  match suggested_action ev with
  | Retire =>
      let reason := retire_reason ev in
      let '(d, e) := retire_skill today d e n reason in
      (d, e, set_report r false true ("RETIRE: " +:+ n +:+ " (" +:+ reason +:+ ")"))
  | MajorRevision | Improve =>
      let '(e, ss) := suggest_improvements e n in
      let summary := (fun s => "[" +:+ category s +:+ "] " +:+ sug_description s) <$> take 3 ss in
      (d, e, set_report r true false ("IMPROVE: " +:+ n +:+ " — " +:+ show_nat (length ss) +:+ " suggestions: " +:+
                               String.concat "; " summary))
  | MinorTweak => (d, e, set_report r false false ("TWEAK: " +:+ n +:+ " (score " +:+ fmt_fixed 2 (score ev) +:+ ", acceptable)"))
  | NoAction => (d, e, r)
  end.

Definition run_improvement_cycle (today : string) (d : files) (e : EvolutionEngine) :
    files * EvolutionEngine * ImprovementCycleReport :=
  foldl (cycle_step today) (d, e, mkReport 0 0 0 []) (hash_keys (skill_stats e)).

(** *** Trajectories *)

Definition numbered {A} (l : list A) : list (nat * A) := zip (seq 1 (length l)) l.

Definition step_line (p : nat * TrajectoryAction) : string :=
  show_nat p.1 +:+ ". Use `" +:+ action_tool p.2 +:+ "`: " +:+ redact_training_text (input_summary p.2).

Definition extract_skill_candidate (now : string) (t : Trajectory) : option SkillCandidate :=
  let steps := step_line <$> numbered (retain (fun a => negb (action_error a)) (assistant_actions t)) in
  n ← slugify alphanumeric_beyond lowercase (truncate_chars 50 (user_prompt t));
  Some (mkCandidate n ("Auto-generated from: " +:+ truncate_chars 100 (redact_training_text (user_prompt t)))
          (truncate_chars 200 (redact_training_text (user_prompt t)))
          (String.concat line_feed steps) (traj_id t) now).

Definition candidates_dir (e : EvolutionEngine) : Path := file_of (base_dir e) "candidates".

Definition save_skill_candidate (d : files) (e : EvolutionEngine) (c : SkillCandidate) : files :=
  let d := (create_dir_all d (candidates_dir e)).1 in
  match candidate_text c with
  | Some json => (write d (file_of (candidates_dir e) (cand_name c +:+ ".json")) json).1
  | None => d
  end.

Definition nudge (now : string) (count : Z) : Value :=
  json_object [("type", json_string "self_evaluation"); ("task_count", json_int count); ("timestamp", json_string now)].

(** The append of [record_trajectory] and its count. *)
Definition log_trajectory (d : files) (e : EvolutionEngine) (t : Trajectory) : files * EvolutionEngine :=
  let d := (create_dir_all d (base_dir e)).1 in
  let d := match trajectory_text t with
           | Some line => (append_line d (file_of (base_dir e) "trajectories.jsonl") line).1
           | None => d
           end in
  (d, set_task_count e (add64 (task_count e) 1)).

(** [record_trajectory]; the flag says that it panicked on the way. *)
Definition record_trajectory (now : string) (d : files) (e : EvolutionEngine) (t : Trajectory) :
    files * EvolutionEngine * bool :=
  let '(d, e) := log_trajectory d e t in
  let candidate :=
    if Z.leb SKILL_CREATION_THRESHOLD (tool_count t) then
      match outcome t with
      | Completed _ => Some (extract_skill_candidate now t)
      | _ => None
      end
    else None in
  match candidate with
  | Some None => (d, e, true)
  | _ =>
      let d := match candidate with Some (Some c) => save_skill_candidate d e c | _ => d end in
      let d := if (Z.eqb (task_count e mod SELF_EVAL_INTERVAL) 0 && Z.ltb 0 (task_count e))%bool
               then (write d (file_of (base_dir e) "pending_eval.json")
                       (default "" (pretty_text (nudge now (task_count e))))).1
               else d in
      (d, e, false)
  end.

Definition not_blank (l : text) : bool := match trim_text l with [] => false | _ => true end.

Definition rate_last_trajectory (d : files) (e : EvolutionEngine) (r : TrajectoryRating) : files :=
  let path := file_of (base_dir e) "trajectories.jsonl" in
  match read_to_string d path with
  | None => d
  | Some content =>
      let ls := string_of <$> retain not_blank (lines (bytes_of content)) in
      match last ls with
      | None => d
      | Some l =>
          match trajectory_parse l ≫= fun t => trajectory_text (set_rating r t) with
          | Some updated =>
              (write d path (String.concat line_feed (removelast ls ++ [updated])%list +:+ line_feed)).1
          | None => d
          end
      end
  end.

(** *** Candidates *)

Definition list_candidates (d : files) (e : EvolutionEngine) : list SkillCandidate :=
  match read_dir d (candidates_dir e) with
  | Some entries =>
      omap (fun p => if has_extension "json" p then read_to_string d p ≫= candidate_parse else None) entries
  | None => []
  end.

(** [promote_skill]; [home] is the directory of personal skills. *)
Definition promote_skill (d : files) (e : EvolutionEngine) (home : Path) (n content : string) :
    files * result string string :=
  if negb (is_safe_skill_name n) then
    (d, Err "Cannot promote skill because the candidate name is invalid. Use letters, numbers, '-' or '_'.")
  else
    let d := (create_dir_all d home).1 in
    let path := file_of home (n +:+ ".md") in
    let '(d, ok) := write d path content in
    if ok then ((remove_file d (file_of (candidates_dir e) (n +:+ ".json"))).1, Ok (show_path path))
    else (d, Err "Failed to write skill").

(** *** What waits for the next prompt *)

(** Taking a file that waits: renamed, read, removed. *)
Definition check_pending_eval (d : files) (e : EvolutionEngine) : files * option Value :=
  let consumed := file_of (base_dir e) "pending_eval.json.consumed" in
  let '(d', ok) := rename d (file_of (base_dir e) "pending_eval.json") consumed in
  if ok then
    match read_to_string d' consumed with
    | Some content => ((remove_file d' consumed).1, json_parse content)
    | None => (d', None)
    end
  else (d', None).

(** The review of the last session; a text that is no JSON stays renamed. *)
Definition take_review (d : files) (e : EvolutionEngine) : files * option Value :=
  let consumed := file_of (base_dir e) "pending_review.json.consumed" in
  let '(d', ok) := rename d (file_of (base_dir e) "pending_review.json") consumed in
  if ok then
    match read_to_string d' consumed ≫= json_parse with
    | Some review => ((remove_file d' consumed).1, Some review)
    | None => (d', None)
    end
  else (d', None).

Definition strings_at (v : Value) (k : string) : list string :=
  match json_get v k ≫= as_array with Some l => omap as_str l | None => [] end.

Definition number_at (v : Value) (k : string) : Z := default 0%Z (json_get v k ≫= as_u64).

Definition topic_line (p : nat * string) : string :=
  "  " +:+ show_nat p.1 +:+ ". " +:+ truncate_chars 100 p.2 +:+ (if Nat.ltb 100 (str_len p.2) then "..." else "").

Definition listing (ls : list string) : string := match ls with [] => "  (none)" | _ => String.concat line_feed ls end.

Definition review_text (review : Value) : string :=
  let topics := take 10 (strings_at review "user_topics") in
  let tools := take 10 (strings_at review "tools_used") in
  let skills := strings_at review "skills_used" in
  String.concat line_feed
    ["# 🔁 Last Session Review (Auto-Generated)";
     "The previous session `" +:+ default "unknown" (str_field review "session_id") +:+ "` had " +:+
       show_Z (number_at review "turn_count") +:+ " turns. Here's what happened:";
     "";
     "## User Topics:"; listing (topic_line <$> numbered topics);
     "";
     "## Tools Used:"; listing ((fun t => "  - " +:+ t) <$> tools);
     "";
     "## Errors: " +:+ show_Z (number_at review "errors_count");
     "";
     "## Skills Loaded: " +:+ (match skills with [] => "none" | _ => String.concat ", " skills end);
     "";
     "**Self-improvement nudge**: Reflect on the above. Ask yourself:";
     "- Were there repetitive patterns that should become a skill?";
     "- Did any errors reveal a gap in your knowledge or approach?";
     "- Should any preferences or decisions be saved to long-term memory?";
     "- Was there a workflow that could be streamlined?";
     "";
     "If yes, use the `Evolve` tool to create/improve skills, or `MemoryTool` to save insights."; ""].

Definition eval_text (ev : Value) : string :=
  "# Self-Evaluation Nudge" +:+ line_feed +:+ line_feed +:+
  "You have completed " +:+ show_Z (number_at ev "task_count") +:+ " tasks since the last evaluation. " +:+
  "Take a moment to reflect:" +:+ line_feed +:+
  "- What patterns have you noticed in the user's requests?" +:+ line_feed +:+
  "- Are there repetitive workflows that could become skills?" +:+ line_feed +:+
  "- Which of your approaches worked well vs poorly?" +:+ line_feed +:+
  "Use the `evolve` tool to create or improve skills based on your observations." +:+ line_feed.

Definition candidate_text_line (c : SkillCandidate) : string :=
  "- **" +:+ cand_name c +:+ "**: " +:+ cand_description c +:+ line_feed +:+
  "  Trigger: " +:+ truncate_chars 80 (trigger_pattern c) +:+ line_feed.

Definition candidates_header : string :=
  "# Pending Skill Candidates" +:+ line_feed +:+ line_feed +:+
  "The following skill candidates were auto-extracted from successful interactions. Consider promoting the useful ones:" +:+
  line_feed.

Definition build_prompt_fragment (d : files) (e : EvolutionEngine) : files * option string :=
  let '(d, review) := take_review d e in
  let '(d, ev) := check_pending_eval d e in
  let cs := list_candidates d e in
  let parts := ((match review with Some v => [review_text v] | None => [] end)
                ++ (match ev with Some v => [eval_text v] | None => [] end)
                ++ (match cs with [] => [] | _ => candidates_header :: (candidate_text_line <$> take 10 cs) end))%list in
  (d, match parts with [] => None | _ => Some (String.concat line_feed parts) end).

(** *** The end of a session *)

Definition extract_text_from_value (v : Value) : string :=
  match as_str v with
  | Some s => s
  | None =>
      match as_array v with
      | Some blocks => String.concat " " (omap (fun b => str_field b "text") blocks)
      | None => ""
      end
  end.

(** What the messages say: topics, tools, errors, skills, turns. *)
Record Digest := mkDigest {
  dig_topics : list string; dig_tools : gmap string Z; dig_errors : list (string * string);
  dig_skills : list string; dig_turns : Z
}.

Definition output_text (v : Value) : string :=
  match as_str v with Some s => s | None => default "" (to_json_string v) end.

Definition digest_user (g : Digest) (message : ApiUserMessage) (r : option ToolUseResult) : Digest :=
  match r with
  | None =>
      let t := extract_text_from_value (user_content message) in
      if Text.is_empty t then g
      else mkDigest (dig_topics g ++ [truncate_chars 200 t])%list (dig_tools g) (dig_errors g) (dig_skills g)
             (add64 (dig_turns g) 1)
  | Some tr =>
      if answer_error tr then
        mkDigest (dig_topics g) (dig_tools g)
          (dig_errors g ++ [("tool_result", truncate_chars 150 (output_text (answer_output tr)))])%list
          (dig_skills g) (dig_turns g)
      else g
  end.

Definition digest_skill (tool : string) (input : Value) (skills : list string) : list string :=
  if String.eqb tool "Skill" then
    match str_field input "skill" with
    | Some s => if (negb (String.eqb s "__list__") && negb (bool_decide (s ∈ skills)))%bool then (skills ++ [s])%list else skills
    | None => skills
    end
  else skills.

Definition digest_block (g : Digest) (b : ContentBlock) : Digest :=
  match b with
  | ToolUse _ tool input =>
      mkDigest (dig_topics g) (bump (dig_tools g) tool) (dig_errors g) (digest_skill tool input (dig_skills g)) (dig_turns g)
  | _ => g
  end.

Definition digest_message (g : Digest) (m : Message) : Digest :=
  match Messages.content m with
  | User message _ r => digest_user g message r
  | Assistant message _ _ => foldl digest_block g (blocks message)
  | _ => g
  end.

Definition digest (ms : list Message) : Digest := foldl digest_message (mkDigest [] ∅ [] [] 0) ms.

Definition summarize (now sid cwd model : string) (ms : list Message) (u : Usage) (cost : f64) (secs : Z) : SessionSummary :=
  let g := digest ms in
  mkSummary sid now cwd model secs (dig_turns g) (dig_topics g) (sort_by more_counted (hash_iter (dig_tools g)))
    (take 10 (dig_errors g)) (Messages.input_tokens u) (Messages.output_tokens u)
    (default 0%Z (cache_read_input_tokens u)) cost (dig_skills g).

Definition review_of (json_f64 : f64 -> Value) (s : SessionSummary) : Value :=
  json_object [("type", json_string "session_review");
    ("session_id", json_string (session_id s));
    ("timestamp", json_string (summary_time s));
    ("cwd", json_string (summary_cwd s));
    ("turn_count", json_int (turn_count s));
    ("duration_secs", json_int (duration_secs s));
    ("total_cost_usd", json_f64 (total_cost_usd s));
    ("tools_used", json_array ((fun p => json_string (p.1 +:+ " (" +:+ show_Z p.2 +:+ "×)")) <$> tool_usage s));
    ("user_topics", json_array (json_string <$> user_topics s));
    ("errors_count", json_int (Z.of_nat (length (errors s))));
    ("skills_used", json_array (json_string <$> skills_used s))].

(** A number of the JSON library from an [f64]. *)
Variable json_f64 : f64 -> Value.

Definition on_session_close (now : string) (d : files) (e : EvolutionEngine) (sid cwd model : string)
    (ms : list Message) (u : Usage) (cost : f64) (secs : Z) : files :=
  let s := summarize now sid cwd model ms u cost secs in
  let d := (create_dir_all d (base_dir e)).1 in
  let d := match summary_text s with
           | Some line => (append_line d (file_of (base_dir e) "session_summaries.jsonl") line).1
           | None => d
           end in
  if Z.leb 2 (turn_count s) then
    match pretty_text (review_of json_f64 s) with
    | Some json => (write d (file_of (base_dir e) "pending_review.json") json).1
    | None => d
    end
  else d.

(** *** Training data *)

Definition action_line (a : TrajectoryAction) : string :=
  "[" +:+ action_tool a +:+ "] " +:+ redact_training_text (input_summary a).

Definition outcome_text (o : TrajectoryOutcome) : string :=
  match o with
  | Completed preview => redact_training_text preview
  | MaxTurns => "[max turns reached]"
  | Aborted => "[aborted by user]"
  | Error _ message => "[error: " +:+ redact_training_text message +:+ "]"
  end.

Definition rating_label (r : option TrajectoryRating) : string :=
  match r with Some Good => "chosen" | Some Bad => "rejected" | _ => "neutral" end.

Definition training_pair (t : Trajectory) : Value :=
  json_object [("prompt", json_string (redact_training_text (user_prompt t)));
    ("response", json_string (String.concat line_feed (action_line <$> assistant_actions t) +:+ line_feed +:+ line_feed +:+
                              outcome_text (outcome t)));
    ("rating", json_string (rating_label (user_rating t)));
    ("tool_count", json_int (tool_count t));
    ("duration_ms", json_int (traj_duration t))].

Definition export_training_data (d : files) (e : EvolutionEngine) : list Value :=
  match read_to_string d (file_of (base_dir e) "trajectories.jsonl") with
  | None => []
  | Some content =>
      training_pair <$> omap (fun l => trajectory_parse (string_of l)) (retain not_blank (lines (bytes_of content)))
  end.

(** ** The tool ([evolve_tool.rs])

    The texts of the system's errors are one. *)

Variable candidate_json : SkillCandidate -> Value.

Definition field (input : Value) (k : string) : result string ToolError :=
  match str_field input k with
  | Some s => Ok s
  | None => Err (ExecutionFailed ("Missing '" +:+ k +:+ "'"))
  end.

Definition validated_skill_name (input : Value) : result string ToolError :=
  match field input "skill_name" with
  | Err e => Err e
  | Ok n => if is_safe_skill_name n then Ok n
            else Err (ExecutionFailed "Invalid 'skill_name': use only letters, numbers, '-' or '_' (max 80 chars)")
  end.

(** Where skills are kept: [home] is [~/.baoclaw/skills]. *)
Definition scope_dir (input : Value) (home cwd : Path) : Path :=
  if String.eqb (default "personal" (str_field input "scope")) "project"
  then file_of (file_of cwd ".baoclaw") "skills" else home.

Definition version_line (content : string) : option text := List.find (starts "version:") (lines (bytes_of content)).

Definition colon : byte := Ascii.ascii_of_nat 58.

Definition written_version (content : string) : Z :=
  default 0%Z (version_line content ≫= fun l => split_byte colon l !! 1 ≫= fun v => parse_uint u32_max (string_of (trim_text v))).

Definition created_text (now reason content : string) : string :=
  String.concat line_feed ["---"; "description: " +:+ reason; "created_by: evolution"; "created_at: " +:+ now;
                           "version: 1"; "---"; ""; content].

Definition improved_text (now reason content : string) (v : Z) : string :=
  String.concat line_feed ["---"; "description: " +:+ reason; "updated_by: evolution"; "updated_at: " +:+ now;
                           "version: " +:+ show_Z v; "---"; ""; content].

Definition create_skill (now : string) (d : files) (home cwd : Path) (input : Value) : files * result ToolResult ToolError :=
  match validated_skill_name input, field input "content" with
  | Err e, _ | _, Err e => (d, Err e)
  | Ok n, Ok content =>
      let reason := default "Auto-created by evolution engine" (str_field input "reason") in
      let dir := scope_dir input home cwd in
      let path := file_of dir (n +:+ ".md") in
      let '(d, ok) := write (create_dir_all d dir).1 path (created_text now reason content) in
      if ok then
        (d, Ok (mkToolResult (json_object [("created", json_bool true); ("path", json_string (show_path path));
                                           ("name", json_string n)]) false))
      else (d, Err (ExecutionFailed "Failed to write skill"))
  end.

Definition improve_skill (now : string) (d : files) (home cwd : Path) (input : Value) : files * result ToolResult ToolError :=
  match validated_skill_name input, field input "content" with
  | Err e, _ | _, Err e => (d, Err e)
  | Ok n, Ok content =>
      let reason := default "Improved based on usage" (str_field input "reason") in
      let path := file_of (scope_dir input home cwd) (n +:+ ".md") in
      let v := match read_to_string d path with
               | Some existing => add32 (written_version existing) 1
               | None => 1%Z
               end in
      let '(d, ok) := write d path (improved_text now reason content v) in
      if ok then
        (d, Ok (mkToolResult (json_object [("improved", json_bool true); ("path", json_string (show_path path));
                                           ("version", json_int v)]) false))
      else (d, Err (ExecutionFailed "Failed to write skill"))
  end.

Definition promote (d : files) (e : EvolutionEngine) (home : Path) (input : Value) : files * result ToolResult ToolError :=
  match field input "skill_name", field input "content" with
  | Err e, _ | _, Err e => (d, Err e)
  | Ok n, Ok content =>
      let '(d, r) := promote_skill d e home n content in
      (d, Ok (match r with
              | Ok path => mkToolResult (json_object [("promoted", json_bool true); ("path", json_string path)]) false
              | Err m => mkToolResult (json_object [("error", json_string m)]) true
              end))
  end.

Definition export_training (d : files) (e : EvolutionEngine) (cwd : Path) : files * ToolResult :=
  let data := export_training_data d e in
  let dir := file_of (file_of cwd ".baoclaw") "evolution" in
  let path := file_of dir "training_export.jsonl" in
  let d := (create_dir_all d dir).1 in
  let d := (write d path (String.concat "" ((fun l => l +:+ line_feed) <$> omap to_json_string data))).1 in
  (d, mkToolResult (json_object [("exported", json_int (Z.of_nat (length data))); ("path", json_string (show_path path));
                                 ("format", json_string "jsonl");
                                 ("fields", json_array (json_string <$> ["prompt"; "response"; "rating"; "tool_count"; "duration_ms"]))]) false).

Definition evolve_call (now today : string) (d : files) (e : EvolutionEngine) (home cwd : Path) (input : Value) :
    files * EvolutionEngine * result ToolResult ToolError :=
  match field input "operation" with
  | Err err => (d, e, Err err)
  | Ok op =>
      if String.eqb op "create_skill" then let '(d, r) := create_skill now d home cwd input in (d, e, r)
      else if String.eqb op "improve_skill" then let '(d, r) := improve_skill now d home cwd input in (d, e, r)
      else if String.eqb op "list_candidates" then
        let cs := list_candidates d e in
        (d, e, Ok (mkToolResult (json_object [("candidates", json_array (candidate_json <$> cs));
                                              ("count", json_int (Z.of_nat (length cs)))]) false))
      else if String.eqb op "promote" then let '(d, r) := promote d e home input in (d, e, r)
      else if String.eqb op "export_training" then let '(d, r) := export_training d e cwd in (d, e, Ok r)
      else if String.eqb op "run_improvement_cycle" then
        let '(d, e, r) := run_improvement_cycle today d e in
        (d, e, Ok (mkToolResult (json_object [("skills_evaluated", json_int (skills_evaluated r));
                                              ("skills_improved", json_int (skills_improved r));
                                              ("skills_retired", json_int (skills_retired r));
                                              ("actions", json_array (json_string <$> actions r))]) false))
      else (d, e, Err (ExecutionFailed ("Unknown operation: " +:+ op)))
  end.

Definition evolve_is_read_only (input : Value) : bool :=
  let op := default "" (str_field input "operation") in
  (String.eqb op "list_candidates" || String.eqb op "export_training")%bool.
End Engine.
