(* ===== verification/EvolutionProofs.v ===== *)
(** * EvolutionProofs: what holds of [Evolution]

    The statistics of skills over any history and what the improvement cycle
    does with them; the names of candidates; the redaction of home
    directories; ratings; the review of a session. *)

From stdpp Require Import base gmap strings list fin_maps.
From Stdlib Require Import ZArith Lia SpecFloat.
From S2P Require Import Prelude Text TextProofs Float64 Json Paths FileCache FileStore Permissions ToolHealth ToolExec Messages Evolution.

#[local] Open Scope string_scope.

(** ** The grade of a skill *)

(** The statistics of a skill with these outcomes of its loads. *)
Record tallied (l : list bool) (s : SkillStats) : Prop := {
  loaded_all : times_loaded s = Z.of_nat (length l);
  succeeded_true : times_succeeded s = Z.of_nat (length (retain id l));
  relevant_succeeded : times_relevant s = times_succeeded s;
  failed_false : times_failed s = (times_loaded s - times_succeeded s)%Z;
  never_rated : avg_rating s = f64_zero;
  first_version : version s = 1%Z
}.

(** Loaded three times and never well. *)
Definition hopeless (l : list bool) : bool := (Nat.leb 3 (length l) && negb (existsb id l))%bool.

(** The same, by the statistics. *)
Definition broken (s : SkillStats) : bool := (Z.leb 3 (times_loaded s) && Z.eqb (times_succeeded s) 0)%bool.

Lemma no_ratio n : (0 < n < 2 ^ 53)%Z -> ratio 0 n = S754_zero false.
Proof.
  intros Hn. unfold ratio. destruct n as [|p|p]; [lia| |lia]. destruct (f64_of_pos p) as (m & e & ->); [lia|]. done.
Qed.

(** The score of a skill that was loaded enough, by the comparisons made. *)
Definition score_of (rel_low rel_mid suc_low suc_mid never stale : bool) : f64 :=
  let by_factor (b : bool) m d x := if b then f64_mul x (f64_ratio m d) else x in
  clamp01
    (by_factor stale 95 100 (by_factor never 3 10
      (by_factor (negb suc_low && suc_mid) 85 100 (by_factor suc_low 5 10
        (by_factor (negb rel_low && rel_mid) 8 10 (by_factor rel_low 6 10 (f64_of_Z 1)))))))%Z.

Lemma judge_score s :
  avg_rating s = f64_zero -> (0 < add32 (times_succeeded s) (times_failed s))%Z ->
  let rel := ratio (times_relevant s) (times_loaded s) in
  let suc := ratio (times_succeeded s) (add32 (times_succeeded s) (times_failed s)) in
  let on := Z.ltb 0 (times_relevant s) in
  (judge s).1 = score_of (on && f64_lt rel (f64_ratio 3 10)) (on && f64_lt rel (f64_ratio 5 10))
                  (f64_lt suc (f64_ratio 4 10)) (f64_lt suc (f64_ratio 7 10)) (broken s)
                  (Z.ltb (version s) 2 && Z.ltb 10 (times_loaded s)).
Proof.
  intros Hr Htot rel suc on. unfold judge, judge_staleness, judge_rating, judge_never, judge_success, judge_relevance.
  rewrite Hr, f64_lt_irrefl, (proj2 (Z.ltb_lt _ _) Htot). fold rel suc on (broken s). unfold score_of, scaled.
  destruct on; cbn [andb]; [destruct (f64_lt rel (f64_ratio 3 10)); cbn [negb andb]; [|destruct (f64_lt rel (f64_ratio 5 10))]|];
    cbn [negb andb];
    (destruct (f64_lt suc (f64_ratio 4 10)); cbn [negb andb]; [|destruct (f64_lt suc (f64_ratio 7 10))];
     destruct (broken s), (Z.ltb (version s) 2 && Z.ltb 10 (times_loaded s))%bool; reflexivity).
Qed.

(** Whatever the comparisons, only a skill that never succeeded scores for retirement. *)
Lemma score_kept rl rm sl sm st : (grade_of (score_of rl rm sl sm false st)).2 <> Retire.
Proof. destruct rl, rm, sl, sm, st; vm_compute; discriminate. Qed.

Lemma score_broken sm st : (grade_of (score_of false false true sm true st)).2 = Retire.
Proof. destruct sm, st; vm_compute; reflexivity. Qed.

Lemma none_true l : existsb id l = false <-> length (retain id l) = 0%nat.
Proof. induction l as [|[] l IH]; simpl; [done|split; [done|lia]|done]. Qed.

Lemma tallied_broken l s : tallied l s -> broken s = hopeless l.
Proof.
  intros [Hl Hs _ _ _ _]. unfold broken, hopeless. rewrite Hl, Hs. apply bool_eq_iff.
  rewrite !andb_true_iff, Z.leb_le, Z.eqb_eq, Nat.leb_le, negb_true_iff, none_true. lia.
Qed.

Lemma retire_iff_hopeless l n s :
  (Z.of_nat (length l) < 2 ^ 32)%Z -> tallied l s -> suggested_action (evaluate n s) = Retire <-> hopeless l = true.
Proof.
  intros Hb Ht. rewrite <- (tallied_broken l s Ht). destruct Ht as [Hl Hs Hrel Hf Hrate _]. unfold evaluate.
  destruct (Z.ltb_spec (times_loaded s) 3) as [H3|H3].
  { simpl. split; [done|]. unfold broken. rewrite (proj2 (Z.leb_gt _ _)) by lia. done. }
  assert (Hsum : add32 (times_succeeded s) (times_failed s) = times_loaded s)
    by (unfold add32; rewrite Hf, Hl; replace (_ + _)%Z with (Z.of_nat (length l)) by lia; apply Z.mod_small; lia).
  cbn [suggested_action]. rewrite judge_score by (first [done|rewrite Hsum; lia]).
  destruct (broken s) eqn:Hbr.
  - split; [done|intros _]. unfold broken in Hbr. bool_hyps. rewrite Hrel, Hsum.
    replace (times_succeeded s) with 0%Z by lia. cbn [Z.ltb Z.compare andb]. rewrite no_ratio by lia.
    change (f64_lt (S754_zero false) (f64_ratio 4 10)) with true. apply score_broken.
  - split; [|done]. intros H. by destruct (score_kept _ _ _ _ _ H).
Qed.

Lemma tallied_new n : tallied [] (stats_new n).
Proof. by split. Qed.

Lemma tallied_outcome now b l s :
  (Z.of_nat (length l) + 1 < 2 ^ 32)%Z -> tallied l s -> tallied (l ++ [b]) (count_outcome now b s).
Proof.
  intros Hlen [Hl Hs Hrel Hf Hr Hv].
  assert (Hle : (length (retain id l) <= length l)%nat) by apply retain_length_le.
  assert (Happ : retain id (l ++ [b])%list = (retain id l ++ (if b then [true] else []))%list).
  { clear. induction l as [|[] l IH]; simpl; [by destruct b|by rewrite IH|done]. }
  split; simpl; rewrite ?Happ, ?length_app, ?Hv, ?Hr; try done; unfold add32; destruct b; simpl;
    rewrite ?Z.mod_small; lia.
Qed.

Lemma tallied_retired r l s : tallied l s -> tallied l (mark_retired r s).
Proof. by intros []; split. Qed.

(** ** Any history of a set of skills *)

Section Skills.
Context `{F : Files} `{O : HashOrder}.
Variable stats_text : gmap string SkillStats -> option string.
Variable lowercase : text -> text.

Inductive SkillOp :=
| OpOutcome (now n : string) (success : bool)
| OpEvaluate (n : string)
| OpCycle (today : string)
| OpRetire (today n reason : string)
| OpUnretire (n : string).

Definition skill_op (st : files * EvolutionEngine) (o : SkillOp) : files * EvolutionEngine :=
  let '(d, e) := st in
  match o with
  | OpOutcome now n b => record_skill_outcome stats_text now d e n b
  | OpEvaluate n => (d, (evaluate_skill e n).1)
  | OpCycle today => (run_improvement_cycle stats_text lowercase today d e).1
  | OpRetire today n reason => retire_skill stats_text today d e n reason
  | OpUnretire n => unretire_skill stats_text d e n
  end.

Definition skill_ops (st : files * EvolutionEngine) (os : list SkillOp) : files * EvolutionEngine := foldl skill_op st os.

(** The outcomes of the loads of a skill, in order. *)
Definition outcomes (n : string) (os : list SkillOp) : list bool :=
  omap (fun o => match o with
                 | OpOutcome _ n' b => if String.eqb n' n then Some b else None
                 | _ => None
                 end) os.

Definition kept (os : list SkillOp) (m : gmap string SkillStats) : Prop :=
  forall n, match m !! n with Some s => tallied (outcomes n os) s | None => outcomes n os = [] end.

(** A skill keeps its statistics but for the mark; a new one has none. *)
Definition remarked (m m' : gmap string SkillStats) : Prop :=
  forall n, (is_Some (m !! n) -> is_Some (m' !! n)) /\
    forall s', m' !! n = Some s' ->
      let s := default (stats_new n) (m !! n) in s' = s \/ exists r, s' = mark_retired r s.

Lemma remarked_refl m : remarked m m.
Proof. intros n. split; [done|]. intros s' Hs. left. by rewrite Hs. Qed.

Lemma remarked_trans m1 m2 m3 : remarked m1 m2 -> remarked m2 m3 -> remarked m1 m3.
Proof.
  intros H12 H23 n. destruct (H12 n) as [Hd1 H1], (H23 n) as [Hd2 H2]. split; [tauto|].
  intros s3 Hs3. specialize (H2 s3 Hs3). simpl in *. destruct (m2 !! n) as [s2|] eqn:Hs2; simpl in H2.
  - specialize (H1 s2 eq_refl). destruct H1 as [->|[r1 ->]], H2 as [->|[r2 ->]]; [by left|right..]; [by exists r2|by exists r1|by exists r2].
  - destruct (m1 !! n) as [s1|]; [|done]. destruct Hd1 as [? ?]; [by eexists|done].
Qed.

Lemma remarked_insert m n s' :
  (s' = default (stats_new n) (m !! n) \/ exists r, s' = mark_retired r (default (stats_new n) (m !! n))) ->
  remarked m (<[n := s']> m).
Proof.
  intros Hs k. destruct (decide (n = k)) as [<-|Hne]; rewrite ?lookup_insert_eq, ?lookup_insert_ne by done.
  - split; [by eexists|]. by intros s'' [= <-].
  - apply remarked_refl.
Qed.

Lemma remarked_evaluate e n : remarked (skill_stats e) (skill_stats (evaluate_skill e n).1).
Proof.
  unfold evaluate_skill, get_or_create_stats. destruct (skill_stats e !! n) as [s|] eqn:Hs; [apply remarked_refl|].
  apply remarked_insert. left. by rewrite Hs.
Qed.

Lemma suggest_engine e n : (suggest_improvements lowercase e n).1 = (evaluate_skill e n).1.
Proof. unfold suggest_improvements. destruct (evaluate_skill e n) as [e' ev]. by destruct (suggested_action ev). Qed.

Lemma stats_retire today d e n r :
  skill_stats (retire_skill stats_text today d e n r).2 = <[n := mark_retired (Some r) (default (stats_new n) (skill_stats e !! n))]> (skill_stats e).
Proof. done. Qed.

Definition retires (ev : SkillEvaluation) : bool := match suggested_action ev with Retire => true | _ => false end.

(** What the cycle makes of a skill. *)
Definition judged (n : string) (s : SkillStats) : SkillStats :=
  if retires (evaluate n s) then mark_retired (Some (retire_reason (evaluate n s))) s else s.

Lemma evaluate_present e n s : skill_stats e !! n = Some s -> evaluate_skill e n = (e, evaluate n s).
Proof. unfold evaluate_skill, get_or_create_stats. by intros ->. Qed.

Lemma cycle_step_present today d e r n s :
  skill_stats e !! n = Some s ->
  let st := cycle_step stats_text lowercase today (d, e, r) n in
  skill_stats st.1.2 = <[n := judged n s]> (skill_stats e)
  /\ skills_evaluated st.2 = add64 (skills_evaluated r) 1
  /\ skills_retired st.2 = count_if (retires (evaluate n s)) (skills_retired r).
Proof.
  intros Hs. unfold cycle_step, judged, retires. rewrite (evaluate_present _ _ _ Hs).
  assert (Hsug : (suggest_improvements lowercase e n).1 = e) by (by rewrite suggest_engine, (evaluate_present _ _ _ Hs)).
  destruct (suggest_improvements lowercase e n) as [e' ss]. simpl in Hsug. subst e'.
  destruct (suggested_action (evaluate n s)); cbn [fst snd skills_evaluated skills_retired set_report count_if];
    (split; [|done]); try (by rewrite insert_id).
  pose proof (stats_retire today d e n (retire_reason (evaluate n s))) as Hst. rewrite Hs in Hst.
  destruct (retire_skill _ _ _ _ _ _) as [d' e']. exact Hst.
Qed.

Lemma cycle_step_absent today d e r n :
  remarked (skill_stats e) (skill_stats (cycle_step stats_text lowercase today (d, e, r) n).1.2).
Proof.
  unfold cycle_step. pose proof (remarked_evaluate e n) as He. destruct (evaluate_skill e n) as [e1 ev] eqn:Heq. simpl in He.
  assert (Hsug : (suggest_improvements lowercase e1 n).1 = e1).
  { rewrite suggest_engine. unfold evaluate_skill, get_or_create_stats in *.
    destruct (skill_stats e !! n) as [s|] eqn:Hs; simplify_eq; simpl; rewrite ?Hs, ?lookup_insert_eq; done. }
  destruct (suggest_improvements lowercase e1 n) as [e2 ss]. simpl in Hsug. subst e2.
  destruct (suggested_action ev); try done.
  eapply remarked_trans; [exact He|].
  pose proof (stats_retire today d e1 n (retire_reason ev)) as Hst. destruct (retire_skill _ _ _ _ _ _) as [d' e'].
  simpl in Hst. cbn [fst snd]. rewrite Hst. apply remarked_insert. right. by eexists.
Qed.

Lemma remarked_cycle today d e : remarked (skill_stats e) (skill_stats (run_improvement_cycle stats_text lowercase today d e).1.2).
Proof.
  unfold run_improvement_cycle. generalize (hash_keys (skill_stats e)) as ns, (mkReport 0 0 0 []) as r.
  intros ns. revert d e. induction ns as [|n ns IH]; intros d e r; [apply remarked_refl|]. cbn [foldl].
  pose proof (cycle_step_absent today d e r n) as H1. destruct (cycle_step _ _ _ _ _) as [[d1 e1] r1].
  eapply remarked_trans; [exact H1|apply IH].
Qed.

Lemma kept_remarked os o m m' :
  (forall n, outcomes n (os ++ [o]) = outcomes n os) -> remarked m m' -> kept os m -> kept (os ++ [o]) m'.
Proof.
  intros Ho Hm Hk n. rewrite Ho. specialize (Hk n). destruct (Hm n) as [Hd Hs]. destruct (m' !! n) as [s'|].
  - specialize (Hs s' eq_refl). destruct (m !! n) as [s|]; simpl in Hs; [|rewrite Hk; pose proof (tallied_new n)];
      destruct Hs as [->|[r ->]]; try done; by apply tallied_retired.
  - destruct (m !! n) as [s|]; [|done]. destruct Hd as [? ?]; [by eexists|done].
Qed.

Lemma outcomes_length n os : (length (outcomes n os) <= length os)%nat.
Proof.
  induction os as [|o os IH]; [done|]. unfold outcomes in *. rewrite omap_cons.
  destruct o as [? n' ?| | | |]; simpl; try lia. destruct (String.eqb n' n); simpl; lia.
Qed.

Lemma outcomes_snoc n os o : outcomes n (os ++ [o]) = (outcomes n os ++ outcomes n [o])%list.
Proof. unfold outcomes. apply omap_app. Qed.

Lemma skill_op_kept os o st :
  (Z.of_nat (length os) + 1 < 2 ^ 32)%Z -> kept os (skill_stats st.2) -> kept (os ++ [o]) (skill_stats (skill_op st o).2).
Proof.
  intros Hlen Hk. destruct st as [d e]. simpl in Hk. assert (Hquiet : forall n, outcomes n [o] = [] -> outcomes n (os ++ [o]) = outcomes n os)
    by (intros n Hn; by rewrite outcomes_snoc, Hn, app_nil_r).
  destruct o as [now n b|n|today|today n reason|n]; cbn [skill_op].
  - intros k. rewrite outcomes_snoc. unfold record_skill_outcome. cbn [snd skill_stats set_stats].
    change (outcomes k [OpOutcome now n b]) with (match (if String.eqb n k then Some b else None) with Some y => [y] | None => [] end).
    specialize (Hk k). destruct (String.eqb_spec n k) as [<-|Hne].
    + rewrite lookup_insert_eq. pose proof (outcomes_length n os). apply tallied_outcome; [lia|].
      destruct (skill_stats e !! n) as [s|]; cbn [default]; [exact Hk|]. rewrite Hk. apply tallied_new.
    + rewrite app_nil_r. by rewrite lookup_insert_ne.
  - eapply kept_remarked; [intros k; by apply Hquiet|apply remarked_evaluate|done].
  - eapply kept_remarked; [intros k; by apply Hquiet|apply remarked_cycle|done].
  - eapply kept_remarked; [intros k; by apply Hquiet| |exact Hk]. apply remarked_insert. right. by eexists.
  - eapply kept_remarked; [intros k; by apply Hquiet| |exact Hk]. unfold unretire_skill. cbn [snd].
    destruct (skill_stats e !! n) as [s|] eqn:Hs; [|apply remarked_refl]. apply remarked_insert. right. rewrite Hs. by eexists.
Qed.

Lemma skill_ops_kept os d base skills :
  (Z.of_nat (length os) < 2 ^ 32)%Z -> kept os (skill_stats (skill_ops (d, mkEngine base 0 skills ∅ []) os).2).
Proof.
  induction os as [|o os IH] using rev_ind; intros Hlen; [intros n; cbn; by rewrite lookup_empty|].
  rewrite length_app in Hlen. simpl in Hlen. unfold skill_ops. rewrite foldl_app. simpl.
  apply skill_op_kept; [lia|]. apply IH. lia.
Qed.

Lemma judged_loop today ns d e r :
  NoDup ns -> (forall n, n ∈ ns -> is_Some (skill_stats e !! n)) ->
  let st := foldl (cycle_step stats_text lowercase today) (d, e, r) ns in
  (forall k, skill_stats st.1.2 !! k =
     if bool_decide (k ∈ ns) then judged k <$> skill_stats e !! k else skill_stats e !! k)
  /\ skills_evaluated st.2 = foldl (fun n _ => add64 n 1) (skills_evaluated r) ns.
Proof.
  revert d e r. induction ns as [|n ns IH]; intros d e r; [done|]. intros [Hn Hnd]%NoDup_cons Hin. cbn [foldl].
  destruct (Hin n) as [s Hs]; [by left|]. pose proof (cycle_step_present today d e r n s Hs) as (H1 & H2 & _).
  destruct (cycle_step _ _ _ _ _) as [[d1 e1] r1]. cbn [fst snd] in H1, H2.
  destruct (IH d1 e1 r1) as [Hk Hc]; [done| |].
  { intros k Hk. rewrite H1. destruct (decide (n = k)) as [<-|]; [by rewrite lookup_insert_eq; eexists|].
    rewrite lookup_insert_ne by done. apply Hin. by right. }
  split; [|by rewrite Hc, H2]. intros k. rewrite Hk, H1. destruct (decide (n = k)) as [<-|Hne].
  - rewrite lookup_insert_eq, (bool_decide_eq_false_2 (n ∈ ns)), (bool_decide_eq_true_2 (n ∈ n :: ns)) by (done || by left).
    by rewrite Hs.
  - rewrite lookup_insert_ne by done. repeat case_bool_decide; try done; set_solver.
Qed.

(** Claim C28. The improvement cycle retires the skills that never worked, and
    no other.  After any operations on a set of skills that begins empty
    (fewer than [2^32]), whatever the order of the hash map: the cycle leaves
    every skill's statistics as they are but for the mark, and a skill is
    retired afterwards exactly if it was before or has been loaded at least
    three times and every time failed. *)
Theorem cycle_retires_hopeless os d base skills today :
  (Z.of_nat (length os) < 2 ^ 32)%Z ->
  let st := skill_ops (d, mkEngine base 0 skills ∅ []) os in
  let st' := (run_improvement_cycle stats_text lowercase today st.1 st.2).1 in
  (forall n s, skill_stats st.2 !! n = Some s ->
     exists s', skill_stats st'.2 !! n = Some s' /\ (s' = s \/ exists r, s' = mark_retired r s)
                /\ retired s' = (retired s || hopeless (outcomes n os))%bool)
  /\ (forall n, skill_stats st.2 !! n = None -> skill_stats st'.2 !! n = None).
Proof.
  intros Hlen st. pose proof (skill_ops_kept os d base skills Hlen) as Hkept. fold st in Hkept.
  destruct st as [d1 e1]. cbn [fst snd] in *. unfold run_improvement_cycle.
  destruct (judged_loop today (hash_keys (skill_stats e1)) d1 e1 (mkReport 0 0 0 [])) as [Hj _].
  { apply NoDup_hash_keys. } { intros n Hn. by apply elem_of_hash_keys in Hn. }
  cbn [fst snd]. split.
  - intros n s Hs. rewrite Hj, bool_decide_eq_true_2, Hs by (apply elem_of_hash_keys; by eexists). eexists. split; [done|].
    specialize (Hkept n). rewrite Hs in Hkept. pose proof (outcomes_length n os).
    assert (Hr : suggested_action (evaluate n s) = Retire <-> hopeless (outcomes n os) = true) by (apply retire_iff_hopeless; [lia|done]). unfold judged, retires.
    destruct (hopeless (outcomes n os)).
    + rewrite (proj2 Hr) by done. rewrite orb_true_r. split; [right; by eexists|done].
    + rewrite orb_false_r. destruct (suggested_action (evaluate n s)); try (by split; [left|]).
      exfalso. assert (false = true) by (by apply Hr). done.
  - intros n Hn. rewrite Hj, Hn. by case_bool_decide.
Qed.
End Skills.

(** ** Home directories are redacted *)

(** The texts of a pattern. *)
Fixpoint spells (pat : list (list text)) (w : text) : Prop :=
  match pat with
  | [] => w = []
  | alts :: pat => exists c w', c ∈ alts /\ w = (c ++ w')%list /\ spells pat w'
  end.

(** A home directory in front of a name: the pattern [redact_training_text] looks for. *)
Definition names_home (l : text) : Prop :=
  exists pat w r, pat ∈ home_patterns /\ spells pat w /\ l = (w ++ r)%list /\ r <> [] /\ starts_white r = false.

Lemma strip_seq_some pat l r : strip_seq pat l = Some r -> exists w, spells pat w /\ l = (w ++ r)%list.
Proof.
  revert l. induction pat as [|alts pat IH]; intros l; simpl; [intros [= ->]; by exists []|].
  destruct (strip_any alts l) as [l'|] eqn:Hs; [|done]. intros (w & Hw & ->)%IH.
  apply strip_any_some in Hs as (c & Hc & ->). exists (c ++ w)%list. split; [by exists c, w|by rewrite (assoc_L (++))].
Qed.

(** What is checked of the alternatives at each place: they are characters,
    apart from white space, and without a bracket. *)
Definition alternatives_ok (alts : list text) : bool :=
  (prefix_free_b (whitespace ++ alts)
   && forallb (fun c => match c with
                        | [] => false
                        | b :: _ => negb (is_continuation b)
                        end && negb (bool_decide (c ∈ whitespace)) && negb (bool_decide (Ascii.ascii_of_nat 91 ∈ c))) alts)%bool.

Lemma alternatives_checked : forallb alternatives_ok (concat home_patterns) = true.
Proof. vm_compute. reflexivity. Qed.

Lemma alternative alts c :
  alts ∈ concat home_patterns -> c ∈ alts ->
  class alts /\ (exists b c', c = b :: c' /\ is_continuation b = false)
  /\ (forall z, starts_white (c ++ z) = false) /\ Ascii.ascii_of_nat 91 ∉ c.
Proof.
  intros Ha Hc. pose proof alternatives_checked as Hall. rewrite forallb_elem in Hall. specialize (Hall alts Ha).
  unfold alternatives_ok in Hall. apply andb_true_iff in Hall as [Hp Hchar].
  assert (Hclass : class (whitespace ++ alts)).
  { apply class_decide; [|done]. rewrite forallb_app. apply andb_true_iff. split; [vm_compute; reflexivity|].
    rewrite forallb_elem in *. intros x Hx. specialize (Hchar x Hx). by destruct x. }
  rewrite forallb_elem in Hchar. specialize (Hchar c Hc). bool_hyps. split; [|split; [|split; [|done]]].
  - destruct Hclass as [Hne Hpf]. split; [by apply Forall_app in Hne as []|].
    intros a b Hina Hinb. apply Hpf; apply elem_of_app; by right.
  - destruct c as [|b c']; [done|]. exists b, c'. by bool_hyps.
  - intros z. unfold starts_white. destruct (strip_any whitespace (c ++ z)) as [r|] eqn:Hs; [|done]. exfalso.
    apply strip_any_some in Hs as (w & Hw & Heq). destruct Hclass as [_ Hpf].
    apply app_prefix_either in Heq as [Hpre|Hpre].
    + assert (c = w) as -> by (apply Hpf; [apply elem_of_app; by right|apply elem_of_app; by left|done]). done.
    + assert (w = c) as -> by (apply Hpf; [apply elem_of_app; by left|apply elem_of_app; by right|done]). done.
Qed.

Lemma spells_app pat w z : pat ∈ home_patterns -> spells pat w -> strip_seq pat (w ++ z) = Some z.
Proof.
  intros Hpat. assert (Hsub : forall alts, alts ∈ pat -> alts ∈ concat home_patterns)
    by (intros alts Ha; apply list_elem_of_In, in_concat; exists pat; by rewrite <- !list_elem_of_In).
  clear Hpat. revert w. induction pat as [|alts pat IH]; intros w; simpl; [by intros ->|].
  intros (c & w' & Hc & -> & Hw'). rewrite <- (assoc_L (++)).
  destruct (alternative alts c) as [Hcl _]; [apply Hsub; by left|done|].
  rewrite (strip_any_char _ _ _ Hcl Hc). apply IH; [|done]. intros a Ha. apply Hsub. by right.
Qed.

Lemma home_match_iff l : is_some (home_match l) = true <-> names_home l.
Proof.
  assert (Hm : forall pat, pat ∈ home_patterns ->
            is_some (matched pat l) = true <-> exists w r, spells pat w /\ l = (w ++ r)%list /\ r <> [] /\ starts_white r = false).
  { intros pat Hpat. unfold matched. split.
    - destruct (strip_seq pat l) as [[|b r]|] eqn:Hs; [done| |done]. destruct (starts_white (b :: r)) eqn:Hw; [done|intros _].
      apply strip_seq_some in Hs as (w & Hsp & ->). by exists w, (b :: r).
    - intros (w & r & Hsp & -> & Hr & Hw). rewrite spells_app by done. destruct r as [|b r]; [done|]. by rewrite Hw. }
  unfold home_match, names_home. revert Hm. generalize home_patterns as pats. intros pats.
  induction pats as [|p pats IH]; intros Hm; cbn [first_match].
  - split; [done|]. by intros (pat & ? & ? & []%not_elem_of_nil & _).
  - pose proof (Hm p (list_elem_of_here _ _)) as Hp.
    destruct (matched p l) as [r0|].
    + split; [intros _|done]. destruct (proj1 Hp eq_refl) as (w & r & Hw). exists p, w, r. split; [by left|done].
    + rewrite IH by (intros pat Hpat; apply Hm; by right). split.
      * intros (pat & w & r & Hpat & Hw). exists pat, w, r. split; [by right|done].
      * intros (pat & w & r & [->|Hpat]%elem_of_cons & Hw); [|by exists pat, w, r].
        assert (is_some (@None text) = true) by (apply Hp; by exists w, r). done.
Qed.

Lemma no_home_nil : ~ names_home [].
Proof. intros (pat & w & r & _ & _ & Hl & Hr & _). destruct w; [by destruct r|done]. Qed.

(** What a text that names a home begins with. *)
Lemma home_front l : names_home l -> starts_white l = false /\ exists b l', l = b :: l' /\ is_continuation b = false.
Proof.
  intros (pat & w & r & Hpat & Hsp & -> & _ & _).
  assert (Hc : exists alts c w', alts ∈ concat home_patterns /\ c ∈ alts /\ w = (c ++ w')%list).
  { destruct pat as [|alts pat]; [unfold home_patterns in Hpat; in_lists; discriminate|]. destruct Hsp as (c & w' & Hc & -> & _).
    exists alts, c, w'. split; [|done]. apply list_elem_of_In, in_concat. exists (alts :: pat).
    rewrite <- !list_elem_of_In. split; [done|by left]. }
  destruct Hc as (alts & c & w' & Ha & Hc & ->). destruct (alternative alts c Ha Hc) as (_ & (b & c' & -> & Hb) & Hw & _).
  rewrite <- (assoc_L (++)). split; [apply Hw|]. by eexists b, _.
Qed.

Lemma spells_no_bracket pat w : pat ∈ home_patterns -> spells pat w -> Ascii.ascii_of_nat 91 ∉ w.
Proof.
  intros Hpat. assert (Hsub : forall alts, alts ∈ pat -> alts ∈ concat home_patterns)
    by (intros alts Ha; apply list_elem_of_In, in_concat; exists pat; by rewrite <- !list_elem_of_In).
  clear Hpat. revert w. induction pat as [|alts pat IH]; intros w; simpl; [by intros -> []%not_elem_of_nil|].
  intros (c & w' & Hc & -> & Hw') [Hin|Hin]%elem_of_app.
  - destruct (alternative alts c) as (_ & _ & _ & Hb); [apply Hsub; by left|done|done].
  - revert Hin. apply IH; [|done]. intros a Ha. apply Hsub. by right.
Qed.

(** White space is one character: what follows it cannot complete it. *)
Lemma whitespace_rest : forallb (fun w => match w with [] => false | _ :: w' => forallb is_continuation w' end) whitespace = true.
Proof. vm_compute. reflexivity. Qed.

Lemma white_ahead k t : k <> [] -> (exists b t', t = b :: t' /\ is_continuation b = false) ->
  starts_white (k ++ t) = true -> forall x, starts_white (k ++ x) = true.
Proof.
  intros Hk (b & t' & -> & Hb) Hs x. unfold starts_white in *. destruct (strip_any whitespace (k ++ b :: t')) as [r|] eqn:Heq; [|done].
  apply strip_any_some in Heq as (w & Hw & Heq). apply app_both in Heq as [[k' ->]|(k' & -> & Heq)].
  - rewrite <- (assoc_L (++)). by rewrite (strip_any_char _ _ _ white_class Hw).
  - destruct k' as [|c k']; [by rewrite app_nil_r in Hw; rewrite (strip_any_char _ _ _ white_class Hw)|]. exfalso.
    simpl in Heq. injection Heq as <- _. pose proof whitespace_rest as Hall. rewrite forallb_elem in Hall. specialize (Hall _ Hw).
    destruct k as [|a k]; [done|]. cbn [app] in Hall. rewrite forallb_app in Hall. bool_hyps. simpl in *. bool_hyps. congruence.
Qed.

(** A name that reaches into the mark was there before. *)
Lemma home_before_mark q t x :
  names_home t -> names_home (q ++ Ascii.ascii_of_nat 91 :: x) -> q <> [] -> names_home (q ++ t).
Proof.
  intros Ht (pat & w & r & Hpat & Hsp & Heq & Hr & Hw) Hq. destruct (home_front t Ht) as [Hwhite Hfront].
  apply app_both in Heq as Hsplit. destruct Hsplit as [[k Hk]|(k & Hk & Hx)].
  - rewrite Hk, <- (assoc_L (++)) in Heq. apply app_inv_head in Heq. exists pat, w, (k ++ t)%list.
    split; [done|split; [done|split; [by rewrite Hk, (assoc_L (++))|]]].
    destruct k as [|a k]; [split; [|done]; by destruct Hfront as (b & t' & -> & _)|]. split; [done|].
    destruct (starts_white ((a :: k) ++ t)) eqn:Hs; [|done].
    pose proof (white_ahead (a :: k) t ltac:(done) Hfront Hs (Ascii.ascii_of_nat 91 :: x)) as Hall. subst r. exact (eq_trans (eq_sym Hall) Hw).
  - destruct k as [|c k].
    + rewrite app_nil_r in Hk. subst w. exists pat, q, t. split; [done|split; [done|split; [done|split; [|done]]]].
      by destruct Hfront as (b & t' & -> & _).
    + exfalso. injection Hx as <- _. apply (spells_no_bracket _ _ Hpat Hsp). rewrite Hk. apply elem_of_app. right. by left.
Qed.

Lemma drop_solid_length l : length (drop_solid l) <= length l.
Proof. induction l as [|b l IH]; [done|]. cbn [drop_solid]. destruct (starts_white (b :: l)); simpl; lia. Qed.

Lemma home_match_shorter l rest : home_match l = Some rest -> length rest < length l.
Proof.
  intros Hm. assert (Hp : exists pat, pat ∈ home_patterns /\ matched pat l = Some rest).
  { unfold home_match in Hm. revert Hm. generalize home_patterns as pats. induction pats as [|p pats IH]; [done|].
    cbn [first_match]. destruct (matched p l) as [r|] eqn:Hr; [intros [= ->]; exists p; split; [by left|done]|].
    intros (pat & Hpat & Hmat)%IH. exists pat. split; [by right|done]. }
  destruct Hp as (pat & Hpat & Hmat). unfold matched in Hmat. destruct (strip_seq pat l) as [r|] eqn:Hs; [|done].
  apply strip_seq_some in Hs as (w & Hw & ->).
  assert (Hne : w <> []).
  { intros ->. destruct pat as [|alts pat]; [unfold home_patterns in Hpat; in_lists; discriminate|].
    destruct Hw as (c & w' & Hc & Heq & _). destruct (alternative alts c) as (_ & (b & c' & -> & _) & _); [|done|done].
    apply list_elem_of_In, in_concat. exists (alts :: pat). rewrite <- !list_elem_of_In. split; [done|by left]. }
  pose proof (drop_solid_length r). destruct r as [|b r]; [done|]. destruct (starts_white (b :: r)); [done|].
  injection Hmat as <-. rewrite length_app. destruct w; [done|]. simpl in *. lia.
Qed.

(** The redacted text: the part before the first name, and what follows. *)
Lemma redacted_shape n l :
  length l <= n ->
  exists p t, l = (p ++ t)%list /\
    ((t = [] /\ redact_paths n l = p) \/
     (names_home t /\ exists x, redact_paths n l = (p ++ bytes_of "[REDACTED]" ++ x)%list)).
Proof.
  revert l. induction n as [|n IH]; intros [|b l] Hn; simpl in Hn; try lia; [by exists [], []; split; [|left]..|].
  cbn [redact_paths]. destruct (home_match (b :: l)) as [rest|] eqn:Hm.
  - exists [], (b :: l). split; [done|right]. split; [|by eexists]. apply home_match_iff. by rewrite Hm.
  - destruct (IH l) as (p & t & -> & Ht); [lia|]. exists (b :: p), t. split; [done|].
    destruct Ht as [[-> ->]|[Ht [x ->]]]; [by left|]. right. split; [done|by exists x].
Qed.

(** Inside the mark no name begins. *)
Lemma mark_names_nothing k x : k < 10 -> ~ names_home (drop k (bytes_of "[REDACTED]") ++ x).
Proof.
  intros Hk Hn. apply home_match_iff in Hn. revert Hn.
  destruct k as [|[|[|[|[|[|[|[|[|[|k]]]]]]]]]]; [vm_compute; done..|lia].
Qed.

(** No place is left, also none that the replacements would make. *)
Lemma redacted_no_home l k : ~ names_home (drop k (redact_paths (length l) l)).
Proof.
  assert (Hgen : forall n m, length m <= n -> forall k, ~ names_home (drop k (redact_paths n m))); [|by apply Hgen].
  clear l k. intros n. induction n as [|n IH]; intros [|b l] Hn k; simpl in Hn; try lia;
    [cbn [redact_paths]; rewrite drop_nil; apply no_home_nil..|].
  cbn [redact_paths]. destruct (home_match (b :: l)) as [rest|] eqn:Hm.
  - destruct (decide (k < 10)) as [Hk|Hk].
    + rewrite drop_app_le by (simpl; lia). by apply mark_names_nothing.
    + rewrite drop_app_ge by (simpl; lia). apply IH. pose proof (home_match_shorter _ _ Hm). simpl in *. lia.
  - destruct k as [|k]; [|simpl; apply IH; lia]. rewrite drop_0. intros Hout.
    destruct (redacted_shape n l) as (p & t & -> & [[-> Hx]|[Ht [x Hx]]]); [lia| |].
    + rewrite Hx in Hout. rewrite app_nil_r in Hm. apply home_match_iff in Hout. by rewrite Hm in Hout.
    + rewrite Hx in Hout. assert (Hn' : names_home ((b :: p) ++ t)); [by apply (home_before_mark (b :: p) t (bytes_of "REDACTED]" ++ x))|].
      apply home_match_iff in Hn'. assert (Hf : is_some (home_match (b :: (p ++ t)%list)) = true) by exact Hn'. by rewrite Hm in Hf.
Qed.

(** *** What a home directory is

    Independently of the pattern: [/home/], [/users/] or a letter and
    [:\users\], each character in any case, and then a character that is not
    white space. *)

(** A character, given in lower case, in either case; the long s is an s and
    the Kelvin sign a k. *)
Definition spelled (b : byte) (c : text) : Prop :=
  (exists x, c = [x] /\ lower_byte x = b)
  \/ (b = Ascii.ascii_of_nat 115 /\ c = utf8 [197; 191]%nat)
  \/ (b = Ascii.ascii_of_nat 107 /\ c = utf8 [226; 132; 170]%nat).

Fixpoint in_case (t : list byte) (w : text) : Prop :=
  match t with
  | [] => w = []
  | b :: t => exists c w', spelled b c /\ w = (c ++ w')%list /\ in_case t w'
  end.

Definition home_root (w : text) : Prop :=
  in_case (bytes_of "/home/") w \/ in_case (bytes_of "/users/") w
  \/ exists d, is_lower d = true /\ in_case (d :: bytes_of ":\users\") w.

Definition home_ahead (l : text) : Prop :=
  exists w r, home_root w /\ l = (w ++ r)%list /\ r <> [] /\ starts_white r = false.

(** A run of characters other than white space, as long as it goes. *)
Definition solid_run (name rest : text) : Prop :=
  name <> [] /\ (forall j, j < length name -> starts_white (drop j (name ++ rest)) = false)
  /\ (rest = [] \/ starts_white rest = true).

(** A text and what is kept of it: from the left, each home directory with the
    name behind it is replaced, and everything else stays. *)
Inductive redacts : text -> text -> Prop :=
| redacts_end : redacts [] []
| redacts_byte b l out : ~ home_ahead (b :: l) -> redacts l out -> redacts (b :: l) (b :: out)
| redacts_home w name rest out :
    home_root w -> solid_run name rest -> redacts rest out ->
    redacts (w ++ name ++ rest) (bytes_of "[REDACTED]" ++ out).

Definition all_bytes : list byte := Ascii.ascii_of_nat <$> seq 0 256.

Lemma all_bytes_in b : b ∈ all_bytes.
Proof.
  apply list_elem_of_fmap. exists (Ascii.nat_of_ascii b). split; [by rewrite Ascii.ascii_nat_embedding|].
  apply elem_of_seq. pose proof (Ascii.nat_ascii_bounded b). lia.
Qed.

Lemma cases_checked :
  forallb (fun b => forallb (fun x => Bool.eqb (bool_decide ([x] ∈ either_case b)) (Ascii.eqb (lower_byte x) (lower_byte b)))
                            all_bytes) all_bytes = true.
Proof. vm_compute. reflexivity. Qed.

Lemma single_case b x : [x] ∈ either_case b <-> lower_byte x = lower_byte b.
Proof.
  pose proof cases_checked as Hall. rewrite forallb_elem in Hall. specialize (Hall b (all_bytes_in b)).
  rewrite forallb_elem in Hall. specialize (Hall x (all_bytes_in x)). apply Bool.eqb_prop in Hall.
  rewrite <- (Ascii.eqb_eq (lower_byte x)), <- Hall. symmetry. apply bool_decide_eq_true.
Qed.

Lemma long_s_case b : long_s ∈ either_case b <-> lower_byte b = Ascii.ascii_of_nat 115.
Proof.
  unfold either_case. rewrite !elem_of_app. destruct (Ascii.eqb_spec (lower_byte b) (Ascii.ascii_of_nat 115)) as [Hs|Hs].
  - split; [done|]. intros _. right. right. by left.
  - split; [|done]. intros [H|[H|H]]; repeat case_match; in_lists; discriminate.
Qed.

Lemma either_case_spelled b c :
  lower_byte b <> Ascii.ascii_of_nat 107 -> c ∈ either_case b <-> spelled (lower_byte b) c.
Proof.
  intros Hk. split.
  - intros Hc. assert (Hs : (exists x, c = [x]) \/ c = long_s).
    { unfold either_case in Hc. rewrite !elem_of_app in Hc. destruct Hc as [H|[H|H]]; repeat case_match; in_lists; subst; eauto. }
    destruct Hs as [[x ->]| ->]; [left; exists x; split; [done|by apply single_case]|right; left; split; [by apply long_s_case|done]].
  - intros [(x & -> & Hx)|[[Hs ->]|[? _]]]; [by apply single_case|by apply long_s_case|done].
Qed.

Lemma letters_checked :
  forallb (fun x => Bool.eqb (bool_decide ([x] ∈ any_letter)) (is_lower (lower_byte x))) all_bytes = true.
Proof. vm_compute. reflexivity. Qed.

Lemma any_letter_spelled c : c ∈ any_letter <-> exists d, is_lower d = true /\ spelled d c.
Proof.
  assert (Hx : forall x, [x] ∈ any_letter <-> is_lower (lower_byte x) = true).
  { intros x. pose proof letters_checked as Hall. rewrite forallb_elem in Hall. specialize (Hall x (all_bytes_in x)).
    apply Bool.eqb_prop in Hall. rewrite <- Hall. symmetry. apply bool_decide_eq_true. }
  split.
  - intros Hc. assert (Hs : (exists x, c = [x]) \/ c = long_s \/ c = kelvin).
    { unfold any_letter in Hc. rewrite elem_of_app in Hc. destruct Hc as [(n & -> & _)%list_elem_of_fmap|H]; [by left; eexists|].
      in_lists; subst; auto. }
    destruct Hs as [[x ->]|[-> | ->]].
    + exists (lower_byte x). split; [by apply Hx|left; by exists x].
    + exists (Ascii.ascii_of_nat 115). split; [done|right; by left].
    + exists (Ascii.ascii_of_nat 107). split; [done|right; by right].
  - intros (d & Hd & [(x & -> & <-)|[[_ ->]|[_ ->]]]); [by apply Hx|apply (bool_decide_unpack _); vm_compute; exact I..].
Qed.

Lemma spells_in_case t w :
  Forall (fun b => lower_byte b <> Ascii.ascii_of_nat 107) t -> spells (either_case <$> t) w <-> in_case (lower_byte <$> t) w.
Proof.
  intros Ht. revert w. induction Ht as [|b t Hb _ IH]; intros w; [done|]. rewrite !fmap_cons. cbn [spells in_case].
  split; intros (c & w' & Hc & -> & Hw); exists c, w'.
  - split; [by apply either_case_spelled|]. split; [done|by apply IH].
  - split; [by apply either_case_spelled|]. split; [done|by apply IH].
Qed.

(** The pattern says just that. *)
Lemma home_patterns_roots w : (exists pat, pat ∈ home_patterns /\ spells pat w) <-> home_root w.
Proof.
  assert (Hu : forall t, forallb (fun b => negb (Ascii.eqb (lower_byte b) (Ascii.ascii_of_nat 107))) t = true ->
            Forall (fun b => lower_byte b <> Ascii.ascii_of_nat 107) t).
  { intros t Ht. rewrite forallb_elem in Ht. apply Forall_forall. intros b Hb Hk. specialize (Ht b Hb). by rewrite Hk in Ht. }
  pose proof (spells_in_case (bytes_of "/home/") w (Hu (bytes_of "/home/") eq_refl)) as H1.
  pose proof (spells_in_case (bytes_of "/Users/") w (Hu (bytes_of "/Users/") eq_refl)) as H2.
  assert (H3 : spells (any_letter :: (either_case <$> bytes_of ":\Users\")) w <->
            exists d, is_lower d = true /\ in_case (d :: bytes_of ":\users\") w).
  { cbn [spells in_case]. split.
    - intros (c & w' & (d & Hd & Hc)%any_letter_spelled & -> & Hw). exists d. split; [done|]. exists c, w'. split; [done|]. split; [done|].
      by apply (spells_in_case (bytes_of ":\Users\") w' (Hu (bytes_of ":\Users\") eq_refl)).
    - intros (d & Hd & c & w' & Hc & -> & Hw). exists c, w'. split; [apply any_letter_spelled; by exists d|]. split; [done|].
      by apply (spells_in_case (bytes_of ":\Users\") w' (Hu (bytes_of ":\Users\") eq_refl)). }
  unfold home_root. rewrite <- H3. clear H3. revert H1 H2. unfold home_patterns.
  generalize (either_case <$> bytes_of "/home/"), (either_case <$> bytes_of "/Users/"), (any_letter :: (either_case <$> bytes_of ":\Users\")).
  intros p1 p2 p3 H1 H2. split.
  - intros (pat & Hpat & Hs). in_lists; subst; [left; by apply H1|right; left; by apply H2|by right; right].
  - intros [H|[H|H]]; [exists p1; split; [by left|by apply H1]|exists p2; split; [right; by left|by apply H2]|].
    exists p3. split; [right; right; by left|done].
Qed.

Lemma home_ahead_names l : home_ahead l <-> names_home l.
Proof.
  split.
  - intros (w & r & (pat & Hpat & Hs)%home_patterns_roots & H). by exists pat, w, r.
  - intros (pat & w & r & Hpat & Hs & H). exists w, r. split; [apply home_patterns_roots; by exists pat|done].
Qed.

Lemma drop_solid_run r :
  exists name, r = (name ++ drop_solid r)%list /\ (forall j, j < length name -> starts_white (drop j r) = false)
    /\ (drop_solid r = [] \/ starts_white (drop_solid r) = true).
Proof.
  induction r as [|b r IH]; [exists []; split_and!; [done|simpl; lia|by left]|]. cbn [drop_solid].
  destruct (starts_white (b :: r)) eqn:Hw; [exists []; split_and!; [done|simpl; lia|by right]|].
  destruct IH as (name & Hr & Hj & He). exists (b :: name). split; [by rewrite Hr at 1|]. split; [|done].
  intros [|j] Hlt; [done|]. apply Hj. simpl in Hlt. lia.
Qed.

Lemma home_match_run l rest :
  home_match l = Some rest -> exists w name, home_root w /\ solid_run name rest /\ l = (w ++ name ++ rest)%list.
Proof.
  intros Hm. assert (Hp : exists pat, pat ∈ home_patterns /\ matched pat l = Some rest).
  { unfold home_match in Hm. revert Hm. generalize home_patterns as pats. induction pats as [|p pats IH]; [done|].
    cbn [first_match]. destruct (matched p l) as [r|] eqn:Hr; [intros [= ->]; exists p; split; [by left|done]|].
    intros (pat & Hpat & Hmat)%IH. exists pat. split; [by right|done]. }
  destruct Hp as (pat & Hpat & Hmat). unfold matched in Hmat. destruct (strip_seq pat l) as [r|] eqn:Hs; [|done].
  apply strip_seq_some in Hs as (w & Hw & ->). destruct r as [|b r]; [done|]. destruct (starts_white (b :: r)) eqn:Hb; [done|].
  assert (Hrest : rest = drop_solid (b :: r)) by congruence. clear Hmat.
  destruct (drop_solid_run (b :: r)) as (name & Hr & Hj & He). rewrite <- Hrest in Hr, He. exists w, name.
  split; [apply home_patterns_roots; by exists pat|]. split; [|by rewrite Hr at 1].
  split; [|split; [|done]]; [|intros j Hlt; rewrite <- Hr; by apply Hj].
  intros ->. cbn [app] in Hr. rewrite <- Hr in He. destruct He as [?|He]; congruence.
Qed.

Lemma redact_paths_redacts n l : length l <= n -> redacts l (redact_paths n l).
Proof.
  revert l. induction n as [|n IH]; intros [|b l] Hn; simpl in Hn; try lia; [constructor..|]. cbn [redact_paths].
  destruct (home_match (b :: l)) as [rest|] eqn:Hm.
  - pose proof (home_match_shorter _ _ Hm) as Hlt. destruct (home_match_run _ _ Hm) as (w & name & Hw & Hrun & ->).
    apply redacts_home; [done|done|]. apply IH. simpl in Hlt. lia.
  - constructor; [|apply IH; lia]. intros Hh%home_ahead_names%home_match_iff. by rewrite Hm in Hh.
Qed.

(** Claim C29. What is kept for training names no home directory: wherever one
    looks in a text made by [redact_training_text], whatever the redaction of
    secrets does before, there is no [/home/], [/Users/] or letter and
    [:\Users\], in whatever case, with a character other than white space
    behind it; the replacements make none.  Nothing else is lost: reading from
    the left, each such directory with the run of characters behind it is
    replaced by the mark, and every other byte stays. *)
Theorem redacted_names_no_home redact_secrets s :
  let out := bytes_of (redact_training_text redact_secrets s) in
  (forall k, ~ home_ahead (drop k out)) /\ redacts (bytes_of (redact_secrets s)) out.
Proof.
  unfold redact_training_text. set (l := bytes_of (redact_secrets s)).
  replace (bytes_of (string_of (redact_paths (length l) l))) with (redact_paths (length l) l)
    by (symmetry; apply String.list_ascii_of_string_of_list_ascii).
  split; [|by apply redact_paths_redacts]. intros k Hk%home_ahead_names. by apply redacted_no_home in Hk.
Qed.

(** Homes in the three forms, and a root with nothing behind it. *)
Definition home_text : string := "see /home/ann/notes.txt, /USERS/bob and (d:\users\eve) or /home/ itself".

Lemma redacted_names_no_home_witness :
  redact_training_text (fun s => s) home_text = "see [REDACTED] [REDACTED] and ([REDACTED] or /home/ itself" /\
  home_ahead (drop 4 (bytes_of home_text)) /\
  redacts (bytes_of home_text) (bytes_of "see [REDACTED] [REDACTED] and ([REDACTED] or /home/ itself").
Proof.
  assert (He : redact_training_text (fun s => s) home_text = "see [REDACTED] [REDACTED] and ([REDACTED] or /home/ itself")
    by (vm_compute; reflexivity).
  split; [exact He|]. split; [apply home_ahead_names, home_match_iff; vm_compute; reflexivity|].
  destruct (redacted_names_no_home (fun s => s) home_text) as [_ H]. rewrite He in H. exact H.
Defined.

(** ** The names of candidates *)

Section Names.
Variable alphanumeric_beyond : text -> bool.
Variable lowercase : text -> text.

(** What the tables of Unicode keep: a character beyond ASCII has no ASCII
    byte, ASCII is lowered byte by byte, and no slash comes from lowering. *)
Hypothesis beyond_ascii : forall c b, alphanumeric_beyond c = true -> b ∈ c -> ascii b = false.
Hypothesis lowercase_ascii : forall l, forallb ascii l = true -> lowercase l = lower_byte <$> l.
Hypothesis lowercase_slash : forall l, slash ∉ l -> slash ∉ lowercase l.

Lemma slug_char_slash c : slash ∉ slug_char alphanumeric_beyond c.
Proof.
  assert (Hh : slash ∉ [hyphen]) by (intros H; in_lists; discriminate).
  unfold slug_char. destruct c as [|b [|b' c]].
  - destruct (alphanumeric_beyond []); [by intros []%not_elem_of_nil|done].
  - destruct (name_byte b) eqn:Hb; [|done]. intros H. in_lists. subst b. discriminate.
  - destruct (alphanumeric_beyond _) eqn:Hc; [|done]. intros H. by specialize (beyond_ascii _ _ Hc H).
Qed.

Lemma drop_hyphens_sub l : exists p, l = (p ++ drop_hyphens l)%list.
Proof.
  induction l as [|b l [p IH]]; [by exists []|]. simpl. destruct (Ascii.eqb b hyphen); [|by exists []].
  exists (b :: p). simpl. by rewrite <- IH.
Qed.

Lemma trim_hyphens_sub b l : b ∈ trim_hyphens l -> b ∈ l.
Proof.
  unfold trim_hyphens. intros H. apply list_elem_of_In, in_rev, list_elem_of_In in H.
  destruct (drop_hyphens_sub (rev (drop_hyphens l))) as [p Hp]. destruct (drop_hyphens_sub l) as [q Hq].
  rewrite Hq. apply elem_of_app. right. apply list_elem_of_In, in_rev, list_elem_of_In.
  rewrite Hp. apply elem_of_app. by right.
Qed.

Lemma collapse_sub b prev l : b ∈ collapse prev l -> b ∈ l.
Proof.
  revert prev. induction l as [|c l IH]; intros prev; [done|]. simpl.
  rewrite elem_of_cons. destruct (Ascii.eqb c hyphen), prev; rewrite ?elem_of_cons;
    try (intros [->|H]; [by left|right; by eapply IH]); intros H; right; by eapply IH.
Qed.

Definition slug_text (l : text) : text :=
  collapse false (lowercase (trim_hyphens (concat (slug_char alphanumeric_beyond <$> chars l)))).

Lemma slugify_some s n :
  slugify alphanumeric_beyond lowercase s = Some n ->
  n = "auto-skill" \/ exists r, r <> [] /\ r `prefix_of` slug_text (bytes_of s) /\ n = string_of r /\ length r <= 60.
Proof.
  unfold slugify. fold (slug_text (bytes_of s)). set (r := slug_text (bytes_of s)).
  destruct (Nat.ltb_spec 60 (length r)) as [Hl|Hl].
  - destruct (is_char_boundary 60 r); [|done]. destruct (take 60 r) as [|b l] eqn:Ht; intros [= <-]; [by left|right].
    exists (b :: l). split; [done|]. split; [rewrite <- Ht; apply prefix_take|]. split; [done|]. rewrite <- Ht, length_take. lia.
  - destruct r as [|b l]; intros [= <-]; [by left|right]. exists (b :: l). split; [done|]. split; [done|]. split; [done|lia].
Qed.

Lemma slug_text_slash l : slash ∉ slug_text l.
Proof.
  intros H%collapse_sub. revert H. apply lowercase_slash. intros H%trim_hyphens_sub.
  apply list_elem_of_In, in_concat in H as (c & Hc & Hs). apply list_elem_of_In, list_elem_of_fmap in Hc as (c' & -> & _).
  apply list_elem_of_In in Hs. by apply slug_char_slash in Hs.
Qed.

Lemma chars_ascii l : forallb ascii l = true -> chars l = (fun b => [b]) <$> l.
Proof.
  induction l as [|b l IH]; [done|]. cbn [forallb]. intros [Hb Hl]%andb_true_iff. simpl. rewrite IH by done.
  destruct l as [|c l]; [done|]. simpl. cbn [forallb] in Hl. bool_hyps.
  destruct (is_continuation c) eqn:Hc; [|done]. unfold is_continuation, ascii in *. bool_hyps. lia.
Qed.

Lemma name_byte_ascii b : name_byte b = true -> ascii b = true.
Proof. by_bytes (fun b => implb (name_byte b) (ascii b)). Qed.

Lemma name_byte_lower b : name_byte b = true -> name_byte (lower_byte b) = true.
Proof. by_bytes (fun b => implb (name_byte b) (name_byte (lower_byte b))). Qed.

Lemma name_byte_starts b : name_byte b = true -> is_continuation b = false.
Proof. intros Hb. apply negb_true_iff. revert Hb. by_bytes (fun b => implb (name_byte b) (negb (is_continuation b))). Qed.

Lemma slug_text_ascii l : forallb ascii l = true -> forallb name_byte (slug_text l) = true.
Proof.
  intros Hl. set (m := concat (slug_char alphanumeric_beyond <$> chars l)).
  assert (Hm : forall b, b ∈ m -> name_byte b = true).
  { unfold m. rewrite chars_ascii by done. clear. intros b Hb.
    apply list_elem_of_In, in_concat in Hb as (c & Hc & Hs). apply list_elem_of_In in Hc, Hs.
    apply list_elem_of_fmap in Hc as (c' & -> & Hc'). apply list_elem_of_fmap in Hc' as (b' & -> & _).
    unfold slug_char in Hs. destruct (name_byte b') eqn:Hb'; in_lists; [by rewrite Hs|by rewrite Hs]. }
  assert (Ht : forall b, b ∈ trim_hyphens m -> name_byte b = true) by (intros b Hb; by apply Hm, trim_hyphens_sub).
  rewrite forallb_elem. intros b Hb%collapse_sub. fold m in Hb. rewrite lowercase_ascii in Hb.
  - apply list_elem_of_fmap in Hb as (b' & -> & Hb'). by apply name_byte_lower, Ht.
  - rewrite forallb_elem. intros c Hc. by apply name_byte_ascii, Ht.
Qed.

Lemma slug_lacks s n : slugify alphanumeric_beyond lowercase s = Some n -> lacks slash (bytes_of n) = true.
Proof.
  intros [->|(r & _ & [k Hk] & -> & _)]%slugify_some; [by vm_compute|]. unfold lacks. rewrite forallb_elem.
  intros b Hb. apply negb_true_iff, Ascii.eqb_neq. intros ->. apply (slug_text_slash (bytes_of s)). rewrite Hk.
  apply elem_of_app. left. by rewrite String.list_ascii_of_string_of_list_ascii in Hb.
Qed.

Lemma slug_file s n dir :
  slugify alphanumeric_beyond lowercase s = Some n -> file_of dir (n +:+ ".json") = (dir ++ [Normal (n +:+ ".json")])%list.
Proof.
  intros Hn%slug_lacks. apply file_of_plain.
  - unfold lacks in *. by rewrite bytes_of_app, forallb_app, Hn.
  - rewrite bytes_of_app, length_app. simpl. lia.
Qed.

(** A candidate is kept under a name of its own directory.  Whatever
    prompt it is named after, if a name comes out its file lies in the
    directory of candidates and nowhere else; and for a prompt in ASCII a name
    always comes out, one that [promote] accepts. *)
Theorem candidate_named_safely s dir :
  (forall n, slugify alphanumeric_beyond lowercase s = Some n ->
     file_of dir (n +:+ ".json") = (dir ++ [Normal (n +:+ ".json")])%list)
  /\ (forallb ascii (bytes_of s) = true ->
     exists n, slugify alphanumeric_beyond lowercase s = Some n /\ is_safe_skill_name n = true).
Proof.
  split.
  - intros n. apply slug_file.
  - intros Ha. pose proof (slug_text_ascii _ Ha) as Hnames.
    assert (Hsome : exists n, slugify alphanumeric_beyond lowercase s = Some n).
    { unfold slugify. fold (slug_text (bytes_of s)). set (r := slug_text (bytes_of s)) in *.
      assert (Hb : Nat.ltb 60 (length r) = true -> is_char_boundary 60 r = true).
      { rewrite Nat.ltb_lt. intros Hl. unfold is_char_boundary. destruct (lookup_lt_is_Some_2 r 60) as [b Hb]; [lia|]. rewrite Hb.
        rewrite forallb_elem in Hnames. assert (Hbn : name_byte b = true) by (apply Hnames; by eapply list_elem_of_lookup_2).
        by rewrite name_byte_starts, orb_true_r. }
      destruct (Nat.ltb 60 (length r)); [rewrite Hb by done|].
      - destruct (take 60 r); by eexists.
      - destruct r; by eexists. }
    destruct Hsome as [n Hn]. exists n. split; [done|].
    apply slugify_some in Hn as [->|(r & Hr & [k Hk] & -> & Hlen)]; [by vm_compute|]. unfold is_safe_skill_name.
    rewrite Hk, forallb_app in Hnames. bool_hyps. rewrite String.list_ascii_of_string_of_list_ascii, str_len_string_of.
    assert (H80 : Nat.leb (length r) 80 = true) by (apply Nat.leb_le; lia). apply andb_true_iff; split; [apply andb_true_iff; split; [by destruct r|exact H80]|exact H].
Qed.
End Names.

(** ** What the files hold *)

Lemma unlines_snoc ls l : unlines (ls ++ [l]) = (unlines ls ++ l ++ [LF])%list.
Proof. rewrite unlines_app. unfold unlines at 2. simpl. by rewrite app_nil_r. Qed.

Lemma append_unlines ls s : string_of (unlines ls) +:+ s +:+ line_feed = string_of (unlines (ls ++ [bytes_of s])).
Proof.
  rewrite <- (string_of_bytes (_ +:+ _)), !bytes_of_app, unlines_snoc. unfold line_feed.
  unfold string_of. by rewrite !String.list_ascii_of_string_of_list_ascii.
Qed.

(** Lines joined, with a last line feed. *)
Lemma joined_unlines ls l :
  String.concat line_feed (ls ++ [l]) +:+ line_feed = string_of (unlines (bytes_of <$> (ls ++ [l])%list)).
Proof.
  induction ls as [|a ls IH].
  - exact (append_unlines [] l).
  - assert (Hc : String.concat line_feed ((a :: ls) ++ [l]) = a +:+ line_feed +:+ String.concat line_feed (ls ++ [l]))
      by (by destruct ls).
    rewrite Hc, <- !append_assoc, IH. rewrite <- (string_of_bytes (a +:+ _)), !bytes_of_app. unfold line_feed.
    cbn [app fmap list_fmap]. unfold unlines. cbn [fmap list_fmap concat]. unfold string_of.
    by rewrite !String.list_ascii_of_string_of_list_ascii, <- (assoc_L (++)).
Qed.

Section Log.
Context `{J : Json} `{F : Files} {FL : FilesLaws} {FF : FilesFrames}.
Variable trajectory_text : Trajectory -> option string.
Variable trajectory_parse : string -> option Trajectory.
Variable candidate_text : SkillCandidate -> option string.
Variable pretty_text : Value -> option string.
Variable redact_secrets : string -> string.
Variable alphanumeric_beyond : text -> bool.
Variable lowercase : text -> text.
Hypothesis beyond_ascii : forall c b, alphanumeric_beyond c = true -> b ∈ c -> ascii b = false.
Hypothesis lowercase_slash : forall l, slash ∉ l -> slash ∉ lowercase l.

(** A trajectory whose JSON text is one line that reads back. *)
Definition one_line (t : Trajectory) (s : string) : Prop :=
  trajectory_text t = Some s /\ plain (bytes_of s) /\ not_blank (bytes_of s) = true /\ trajectory_parse s = Some t.

Definition log_path (e : EvolutionEngine) : Path := file_of (base_dir e) "trajectories.jsonl".

(** The trajectories in a log. *)
Definition logged (ls : list text) : list Trajectory := omap (fun l => trajectory_parse (string_of l)) (retain not_blank ls).

(** A log of these lines; none at all is an empty one. *)
Definition has_log (d : files) (e : EvolutionEngine) (ls : list text) : Prop :=
  exists_file d (log_path e) = false /\ ls = [] \/ read_to_string d (log_path e) = Some (string_of (unlines ls)).

Lemma log_path_plain e : log_path e = (base_dir e ++ [Normal "trajectories.jsonl"])%list.
Proof. by apply file_of_plain; [vm_compute|simpl; lia]. Qed.

(** Neither a candidate nor a nudge is the log. *)
Lemma candidate_apart e c s n :
  slugify alphanumeric_beyond lowercase s = Some n -> cand_name c = n ->
  file_of (candidates_dir e) (cand_name c +:+ ".json") <> log_path e.
Proof.
  intros Hn ->. rewrite (slug_file alphanumeric_beyond lowercase beyond_ascii lowercase_slash s n) by done.
  unfold candidates_dir. rewrite (file_of_plain _ "candidates"), log_path_plain by (vm_compute; done || lia).
  rewrite <- (assoc_L (++)). intros H%app_inv_head. done.
Qed.

Definition record := record_trajectory trajectory_text candidate_text pretty_text redact_secrets alphanumeric_beyond lowercase.
Definition rate := rate_last_trajectory trajectory_text trajectory_parse.

Lemma save_candidate_log d e c q :
  file_of (candidates_dir e) (cand_name c +:+ ".json") <> q ->
  read_to_string (save_skill_candidate candidate_text d e c) q = read_to_string d q.
Proof.
  intros Hq. unfold save_skill_candidate. destruct (candidate_text c); [|apply mkdir_frame]. by rewrite write_frame, mkdir_frame.
Qed.

(** Recording adds the trajectory's line, and it is the last. *)
Lemma record_log now d e t s ls :
  trajectory_text t = Some s -> has_log d e ls ->
  (append_line (create_dir_all d (base_dir e)).1 (log_path e) s).2 = true ->
  read_to_string (record now d e t).1.1 (log_path e) = Some (string_of (unlines (ls ++ [bytes_of s]))).
Proof.
  intros Hs Hlog Happ. set (d1 := (append_line (create_dir_all d (base_dir e)).1 (log_path e) s).1).
  assert (Hd1 : read_to_string d1 (log_path e) = Some (string_of (unlines (ls ++ [bytes_of s])))).
  { unfold d1. rewrite (append_read _ _ _ (string_of (unlines ls)) Happ).
    - f_equal. apply append_unlines.
    - destruct Hlog as [[He ->]|Hr]; [left|right; by rewrite mkdir_frame].
      rewrite log_path_plain, mkdir_exists, <- log_path_plain. done. }
  unfold record, record_trajectory, log_trajectory. rewrite Hs. fold (log_path e) d1.
  set (e' := set_task_count e _). change (log_path e) with (log_path e') in *.
  assert (Hnudge : forall d' x, read_to_string (write d' (file_of (base_dir e') "pending_eval.json") x).1 (log_path e')
                                = read_to_string d' (log_path e'))
    by (intros d' x; apply write_frame, files_apart; [by vm_compute|by vm_compute|simpl; lia|simpl; lia|done]).
  destruct (if Z.leb SKILL_CREATION_THRESHOLD (tool_count t) then _ else _) as [[c|]|] eqn:Hc; cbn [fst].
  - assert (Hcand : read_to_string (save_skill_candidate candidate_text d1 e' c) (log_path e') = read_to_string d1 (log_path e')).
    { apply save_candidate_log. destruct (Z.leb _ _); [|done]. destruct (outcome t); simplify_eq.
      unfold extract_skill_candidate in Hc. destruct (slugify _ _ _) as [n|] eqn:Hn; [|done]. injection Hc as <-.
      by eapply candidate_apart. }
    destruct (_ && _)%bool; by rewrite ?Hnudge, Hcand.
  - done.
  - destruct (_ && _)%bool; by rewrite ?Hnudge.
Qed.

(** A rating is given to the trajectory that was recorded last.
    When the trajectory was appended to a log of whole lines and the rating can
    be written, the log afterwards holds the trajectories it held before and
    then this one with its rating: none is lost, none is changed, also if the
    name of a candidate made the recording panic. *)
Theorem rating_hits_last now d e t s r s2 ls :
  one_line t s -> one_line (set_rating r t) s2 -> Forall plain ls -> has_log d e ls ->
  (append_line (create_dir_all d (base_dir e)).1 (log_path e) s).2 = true ->
  (forall d' x, (write d' (log_path e) x).2 = true) ->
  exists content, read_to_string (rate (record now d e t).1.1 (record now d e t).1.2 r) (log_path e) = Some content
    /\ logged (lines (bytes_of content)) = (logged ls ++ [set_rating r t])%list.
Proof.
  intros (Hs & Hplain & Hnb & Hparse) (Hs2 & Hplain2 & Hnb2 & Hparse2) Hls Hlog Happ Hwrite. pose proof (record_log now d e t s ls Hs Hlog Happ) as Hd.
  assert (Hbase : base_dir (record now d e t).1.2 = base_dir e).
  { unfold record, record_trajectory, log_trajectory. by destruct (if Z.leb _ _ then _ else _) as [[c|]|]. }
  destruct (record now d e t) as [[d' e'] panicked]. cbn [fst snd] in *.
  assert (Hpath : log_path e' = log_path e) by (unfold log_path; by rewrite Hbase).
  assert (Hretain : forall l x, not_blank x = true -> retain not_blank (l ++ [x]) = (retain not_blank l ++ [x])%list).
  { intros l x Hx. induction l as [|a l IH]; simpl; [by rewrite Hx|]. destruct (not_blank a); by rewrite IH. }
  assert (Hkept : Forall plain (retain not_blank ls)).
  { rewrite Forall_forall in *. intros x [Hx _]%elem_of_retain. by apply Hls. }
  assert (Hl : lines (bytes_of (string_of (unlines (ls ++ [bytes_of s])))) = (ls ++ [bytes_of s])%list).
  { unfold string_of at 1. rewrite String.list_ascii_of_string_of_list_ascii. apply lines_unlines, Forall_app. by rewrite Forall_singleton. }
  unfold rate, rate_last_trajectory. fold (log_path e'). rewrite Hpath, Hd, Hl, Hretain by done.
  rewrite fmap_app. cbn [fmap list_fmap]. rewrite last_snoc, string_of_bytes, Hparse. cbn [mbind option_bind]. rewrite Hs2.
  rewrite removelast_last, joined_unlines. eexists. split; [by apply write_read, Hwrite|].
  unfold string_of at 1. rewrite String.list_ascii_of_string_of_list_ascii.
  assert (Hb : bytes_of <$> ((string_of <$> retain not_blank ls) ++ [s2])%list = (retain not_blank ls ++ [bytes_of s2])%list).
  { rewrite fmap_app, <- list_fmap_compose. f_equal. rewrite <- (list_fmap_id (retain not_blank ls)) at 2.
    apply list_fmap_ext. intros i x _. simpl. apply String.list_ascii_of_string_of_list_ascii. }
  rewrite Hb, lines_unlines by (apply Forall_app; by rewrite Forall_singleton). unfold logged.
  rewrite Hretain, omap_app by done. cbn [omap list_omap]. rewrite string_of_bytes, Hparse2. f_equal.
  f_equal. clear. induction ls as [|a ls IH]; [done|]. simpl. destruct (not_blank a) eqn:Ha; [|done]. simpl. by rewrite Ha, IH.
Qed.

(** ** The review of a session *)

Variable candidate_parse : string -> option SkillCandidate.
Variable summary_text : SessionSummary -> option string.
Variable json_f64 : f64 -> Value.
Context `{O : HashOrder}.

(** A file that can be read can be renamed in its directory. *)
Hypothesis rename_done : forall d p q, is_some (read_to_string d p) = true -> (rename d p q).2 = true.

Definition review_path (e : EvolutionEngine) : Path := file_of (base_dir e) "pending_review.json".

Lemma apart_files dir m n :
  lacks slash (bytes_of m) && lacks slash (bytes_of n) && Nat.ltb 2 (str_len m) && Nat.ltb 2 (str_len n) && negb (String.eqb m n) = true ->
  file_of dir m <> file_of dir n.
Proof.
  assert (Hlen : forall s, str_len s = length (bytes_of s)) by (intros s; induction s; simpl; [done|by f_equal]).
  intros H. bool_hyps. apply files_apart; try done; rewrite <- Hlen; lia.
Qed.

Ltac apart := apply apart_files; vm_compute; reflexivity.

(** Taking the review takes it away. *)
Lemma review_gone d e : let d' := (take_review d e).1 in (take_review d e).2 <> None -> exists_file d' (review_path e) = false.
Proof.
  unfold take_review. fold (review_path e).
  assert (Hne : review_path e <> file_of (base_dir e) "pending_review.json.consumed") by apart.
  pose proof (rename_moves d (review_path e) (file_of (base_dir e) "pending_review.json.consumed") Hne) as Hmove.
  destruct (rename d _ _) as [d1 ok]. cbn [fst snd] in *. destruct ok; [|done]. destruct (Hmove eq_refl) as [_ Hgone].
  destruct (read_to_string d1 _ ≫= json_parse); [|done]. intros _. cbn [fst]. rewrite remove_frame; [done|]. intros H. by destruct Hne.
Qed.

Lemma no_review d e : exists_file d (review_path e) = false -> (take_review d e).2 = None.
Proof.
  intros He. unfold take_review. fold (review_path e).
  pose proof (rename_missing d (review_path e) (file_of (base_dir e) "pending_review.json.consumed") He) as Hr.
  by destruct (rename d _ _) as [d1 []].
Qed.

Lemma eval_keeps_review d e : exists_file (check_pending_eval d e).1 (review_path e) = exists_file d (review_path e).
Proof.
  unfold check_pending_eval.
  assert (H1 : file_of (base_dir e) "pending_eval.json" <> review_path e) by apart.
  assert (H2 : file_of (base_dir e) "pending_eval.json.consumed" <> review_path e) by apart.
  pose proof (rename_frame d _ _ _ H1 H2) as Hr. destruct (rename d _ _) as [d1 ok]. cbn [fst] in Hr.
  destruct ok; [|done]. destruct (read_to_string d1 _); [|done]. cbn [fst]. by rewrite remove_frame.
Qed.

Lemma prefix_concat a ls : exists rest, String.concat line_feed (a :: ls) = a +:+ rest.
Proof. destruct ls as [|b ls]; [exists ""; by rewrite append_empty|by exists (line_feed +:+ String.concat line_feed (b :: ls))]. Qed.

(** A session is reviewed once.  When a session of at least two turns
    ends and its review can be written, the next prompt begins with that
    review, whatever else waits, and no prompt after it has it again unless
    another session ends. *)
Theorem session_reviewed_once now d e sid cwd model ms u cost secs json v :
  let s := summarize now sid cwd model ms u cost secs in
  (2 <= turn_count s)%Z -> pretty_text (review_of json_f64 s) = Some json -> json_parse json = Some v ->
  (forall d' x, (write d' (review_path e) x).2 = true) ->
  let d1 := on_session_close summary_text pretty_text json_f64 now d e sid cwd model ms u cost secs in
  let first := build_prompt_fragment candidate_parse d1 e in
  (exists rest, first.2 = Some (review_text v +:+ rest)) /\ (take_review first.1 e).2 = None.
Proof.
  intros s Ht Hj Hv Hw d1 first.
  assert (Hd1 : read_to_string d1 (review_path e) = Some json).
  { unfold d1, on_session_close. fold s (review_path e). rewrite (proj2 (Z.leb_le _ _) Ht), Hj. by apply write_read. }
  assert (Htake : (take_review d1 e).2 = Some v).
  { unfold take_review. fold (review_path e).
    assert (Hne : review_path e <> file_of (base_dir e) "pending_review.json.consumed") by apart.
    assert (Hren : (rename d1 (review_path e) (file_of (base_dir e) "pending_review.json.consumed")).2 = true)
      by (apply rename_done; by rewrite Hd1).
    destruct (rename_moves _ _ _ Hne Hren) as [Hread _]. destruct (rename d1 _ _) as [d2 ok]. cbn [fst snd] in *. subst ok.
    rewrite Hread, Hd1. cbn [mbind option_bind]. by rewrite Hv. }
  pose proof (review_gone d1 e) as Hgone. cbv zeta in Hgone. rewrite Htake in Hgone. specialize (Hgone ltac:(done)).
  unfold first, build_prompt_fragment. destruct (take_review d1 e) as [d2 o]. cbn [fst snd] in *. subst o.
  pose proof (eval_keeps_review d2 e) as Hkeep. destruct (check_pending_eval d2 e) as [d3 ev]. cbn [fst snd] in *. split.
  - cbn [app]. destruct (prefix_concat (review_text v) ((match ev with Some v => [eval_text v] | None => [] end)
      ++ (match list_candidates candidate_parse d3 e with [] => [] | _ => candidates_header :: (candidate_text_line <$> take 10 (list_candidates candidate_parse d3 e)) end)))
      as [rest Hrest]. exists rest. by rewrite <- Hrest.
  - apply no_review. by rewrite Hkeep.
Qed.
End Log.

(** ** Witnesses and examples *)

#[local] Existing Instances plain_files plain_files_laws plain_files_frames canonical_order.

Definition no_text {A} (_ : A) : option string := None.
Definition base_w : Path := components "/h/.baoclaw/evolution".
Definition skills_w : Path := components "/h/.baoclaw/skills".
Definition engine_w : EvolutionEngine := mkEngine base_w 0 skills_w ∅ [].
Definition beyond_w (c : text) : bool := match c with [] => false | _ => forallb (fun b => negb (ascii b)) c end.
Definition lower_w (l : text) : text := lower_byte <$> l.
Definition empty_disk : @files plain_files := (∅ : gmap Path string).

Definition flaky_ops : list SkillOp :=
  [OpOutcome "1" "flaky" false; OpOutcome "2" "fine" true; OpOutcome "3" "flaky" false; OpOutcome "4" "flaky" false].

Lemma cycle_retires_hopeless_witness :
  let st := skill_ops no_text lower_w (empty_disk, engine_w) flaky_ops in
  exists s', skill_stats (run_improvement_cycle no_text lower_w "today" st.1 st.2).1.2 !! "flaky" = Some s' /\ retired s' = true.
Proof.
  intros st. assert (Hs : exists s, skill_stats st.2 !! "flaky" = Some s) by (eexists; vm_compute; reflexivity).
  destruct Hs as [s Hs].
  destruct (cycle_retires_hopeless no_text lower_w flaky_ops empty_disk base_w skills_w "today" ltac:(simpl; lia)) as [H _].
  destruct (H "flaky" s Hs) as (s' & Hs' & _ & Hr). exists s'. split; [exact Hs'|]. rewrite Hr. apply orb_true_r.
Defined.

Lemma lower_slash_w l : slash ∉ l -> slash ∉ lower_w l.
Proof.
  intros Hl (b & Hb & Hin)%list_elem_of_fmap. assert (Hs : Ascii.eqb (lower_byte b) slash = true) by (by rewrite <- Hb).
  destruct Hl. replace slash with b; [done|]. apply Ascii.eqb_eq. revert Hs. clear.
  by_bytes (fun b => implb (Ascii.eqb (lower_byte b) slash) (Ascii.eqb b slash)).
Qed.

Lemma beyond_ascii_w c b : beyond_w c = true -> b ∈ c -> ascii b = false.
Proof. unfold beyond_w. destruct c as [|a c]; [done|]. rewrite forallb_elem. intros H Hb. specialize (H b Hb). by apply negb_true_iff. Qed.

Lemma candidate_named_safely_witness : exists n, slugify beyond_w lower_w "Fix the build!" = Some n /\ is_safe_skill_name n = true.
Proof.
  destruct (candidate_named_safely beyond_w lower_w beyond_ascii_w (fun l _ => eq_refl) lower_slash_w "Fix the build!" base_w) as [_ H].
  apply H. reflexivity.
Defined.

Definition task_w : Trajectory := mkTrajectory "t" "now" "/" "Fix it" [] MaxTurns 0 5 None.
Definition rated_w : Trajectory := set_rating Good task_w.

Definition traj_text_w (t : Trajectory) : option string := Some (match user_rating t with None => "{task}" | _ => "{rated}" end).
Definition traj_parse_w (s : string) : option Trajectory :=
  if String.eqb s "{task}" then Some task_w else if String.eqb s "{rated}" then Some rated_w else None.

Lemma rating_hits_last_witness :
  exists content,
    read_to_string (rate traj_text_w traj_parse_w
      (@record flat_json plain_files traj_text_w no_text no_text (fun s => s) beyond_w lower_w "now" empty_disk engine_w task_w).1.1
      engine_w Good) (log_path engine_w) = Some content
    /\ logged traj_parse_w (lines (bytes_of content)) = [rated_w].
Proof.
  assert (Hp : forall t s, traj_text_w t = Some s -> s = "{task}" \/ s = "{rated}")
    by (intros t s [= <-]; destruct (user_rating t); [by right|by left]).
  assert (Hplain : plain (bytes_of "{task}") /\ plain (bytes_of "{rated}"))
    by (split; split; apply (bool_decide_unpack _); vm_compute; exact I).
  destruct Hplain as [Hp1 Hp2].
  apply (@rating_hits_last flat_json plain_files plain_files_laws plain_files_frames traj_text_w traj_parse_w no_text no_text (fun s => s)
    beyond_w lower_w beyond_ascii_w lower_slash_w "now" empty_disk engine_w task_w "{task}" Good "{rated}" []).
  - by split.
  - by split.
  - constructor.
  - left. split; [vm_compute; reflexivity|done].
  - done.
  - done.
Defined.

Definition review_v : flat := FObj [("session_id", FStr "s1"); ("turn_count", FInt 2)].
#[local] Instance review_json : Json := flat_json_with (fun s => if String.eqb s "{review}" then Some review_v else None).

Definition said (s : string) : Message := mkMessage "u" "now" (User (mkUserMessage "user" (FStr s)) false None).
Definition usage_w : Usage := mkUsage 10 20 None None.
Definition pretty_w (v : Value) : option string := Some "{review}".
Definition closed (d : @files plain_files) (sid : string) (ms : list Message) : @files plain_files :=
  on_session_close no_text pretty_w (fun _ => FNull) "now" d engine_w sid "/" "m" ms usage_w f64_zero 60.

Lemma rename_done_w (d : gmap Path string) p q :
  is_some (@read_to_string plain_files d p) = true -> (@rename plain_files d p q).2 = true.
Proof. cbn. by destruct (d !! p). Qed.

Lemma session_reviewed_once_witness :
  let first := build_prompt_fragment (fun _ => None) (closed empty_disk "s1" [said "one"; said "two"]) engine_w in
  (exists rest, first.2 = Some (review_text review_v +:+ rest)) /\ (take_review first.1 engine_w).2 = None.
Proof.
  apply (session_reviewed_once (J := review_json) (F := plain_files) pretty_w (fun _ => None) no_text (fun _ => FNull)
           rename_done_w "now" empty_disk engine_w "s1" "/" "m" [said "one"; said "two"] usage_w f64_zero 60
           "{review}" review_v); [vm_compute; discriminate|reflexivity|reflexivity|reflexivity].
Defined.

(** A prompt of several bytes a character: cutting its slug at sixty bytes
    panics when that is inside a character. *)
Definition chinese_prompt : string :=
  "x" +:+ String.concat "" (replicate 20 (string_of (utf8 [232; 175; 183]%nat))).

Example long_prompt_panics :
  slugify beyond_w lower_w chinese_prompt = None
  /\ (@record review_json plain_files traj_text_w no_text no_text (fun s => s) beyond_w lower_w "now" empty_disk engine_w
        (mkTrajectory "t" "now" "/" chinese_prompt [] (Completed "") 3 5 None)).2 = true.
Proof. split; vm_compute; reflexivity. Qed.

(** Three failed loads of a skill named like a path: its notice of retirement
    is written outside the skills. *)
Definition fail_thrice (n : string) : list SkillOp := [OpOutcome "1" n false; OpOutcome "2" n false; OpOutcome "3" n false].
Definition after_cycles (d : @files plain_files) (os : list SkillOp) : @files plain_files := (skill_ops no_text lower_w (d, engine_w) os).1.

Example notice_outside :
  let d := <[components "/home/u/README.md" := "mine"]> (∅ : gmap Path string) in
  match after_cycles d (fail_thrice "/home/u/README" ++ [OpCycle "today"]) !! components "/home/u/README.md" with
  | Some c => negb (String.eqb c "mine")
  | None => false
  end = true.
Proof. vm_compute. reflexivity. Qed.

(** Every cycle retires a retired skill again, and adds another notice. *)
Definition skill_file (os : list SkillOp) : nat :=
  let d := <[components "/h/.baoclaw/skills/flaky.md" := ""]> (∅ : gmap Path string) in
  str_len (default "" (after_cycles d (fail_thrice "flaky" ++ os) !! components "/h/.baoclaw/skills/flaky.md")).

Example retired_again :
  (0 < skill_file [OpCycle "today"])%nat /\ skill_file [OpCycle "today"; OpCycle "today"] = 2 * skill_file [OpCycle "today"].
Proof. split; [apply Nat.ltb_lt|]; vm_compute; reflexivity. Qed.

(** Two sessions that end one after the other: the second's review is all that
    is left. *)
Example review_overwritten :
  let name_text (v : Value) := str_field v "session_id" in
  let close d sid := on_session_close no_text name_text (fun _ => FNull) "now" d engine_w sid "/" "m" [said "one"; said "two"] usage_w f64_zero 60 in
  read_to_string (close (close empty_disk "s1") "s2") (review_path engine_w) = Some "s2".
Proof. vm_compute. reflexivity. Qed.

(** The export counts as reading, and writes a file. *)
Example export_is_read_only :
  let input : Value := FObj [("operation", FStr "export_training")] in
  evolve_is_read_only input = true
  /\ let d := (evolve_call traj_parse_w (fun _ => None) no_text (fun s => s) lower_w (fun _ => FNull) "now" "today"
                 empty_disk engine_w skills_w (components "/w") input).1.1 in
     d !! components "/w/.baoclaw/evolution/training_export.jsonl" = Some "".
Proof. split; vm_compute; reflexivity. Qed.

(** The reason stands before the version, so a reason of two lines sets it. *)
Example reason_sets_version :
  written_version (created_text "now" ("better" +:+ line_feed +:+ "version: 41") "text") = 41%Z.
Proof. vm_compute. reflexivity. Qed.

(** A redaction as it works. *)
Example redacted :
  redact_training_text (fun s => s) "see /HOME/alice/x.rs and c:\users\bob/home/b" = "see [REDACTED] and [REDACTED]".
Proof. vm_compute. reflexivity. Qed.
