(* ===== verification/Intent.v ===== *)
(** * Intent: guessing what the user wants ([engine/intent_predictor.rs])

    The intents with their keys, the patterns a predictor begins with, the
    score of a message, the predictions and what can be learned.  The
    logarithm of the mathematical library is an argument. *)

From stdpp Require Import base gmap strings list sorting.
From Stdlib Require Import ZArith Lia SpecFloat.
From S2P Require Import Prelude Text Float64.

#[local] Open Scope string_scope.

Inductive UserIntent :=
| CodeWriting
| Debugging
| CodeReview
| Refactoring
| Testing
| Documentation
| FileManagement
| GitOps
| Research
| CodeEdit
| Search
| ImageGen
| WebBrowse
| Deployment
| General.

#[export] Instance UserIntent_eq_dec : EqDecision UserIntent.
Proof. solve_decision. Defined.

(** [UserIntent::key] and [from_key]. *)
Definition key (i : UserIntent) : string :=
  match i with
  | CodeWriting => "code_writing"
  | Debugging => "debugging"
  | CodeReview => "code_review"
  | Refactoring => "refactoring"
  | Testing => "testing"
  | Documentation => "doc_write"
  | FileManagement => "file_management"
  | GitOps => "git_op"
  | Research => "research"
  | CodeEdit => "code_edit"
  | Search => "search"
  | ImageGen => "image"
  | WebBrowse => "web"
  | Deployment => "deployment"
  | General => "general"
  end.

Definition from_key (k : string) : UserIntent :=
  if String.eqb k "code_writing" then CodeWriting else
  if (String.eqb k "debugging" || String.eqb k "debug")%bool then Debugging else
  if String.eqb k "code_review" then CodeReview else
  if String.eqb k "refactoring" then Refactoring else
  if String.eqb k "testing" then Testing else
  if (String.eqb k "doc_write" || String.eqb k "documentation")%bool then Documentation else
  if String.eqb k "file_management" then FileManagement else
  if (String.eqb k "git_op" || String.eqb k "git_ops")%bool then GitOps else
  if String.eqb k "research" then Research else
  if String.eqb k "code_edit" then CodeEdit else
  if String.eqb k "search" then Search else
  if String.eqb k "image" then ImageGen else
  if String.eqb k "web" then WebBrowse else
  if String.eqb k "deployment" then Deployment else General.

(** [{:?}]. *)
Definition intent_debug (i : UserIntent) : string :=
  match i with
  | CodeWriting => "CodeWriting"
  | Debugging => "Debugging"
  | CodeReview => "CodeReview"
  | Refactoring => "Refactoring"
  | Testing => "Testing"
  | Documentation => "Documentation"
  | FileManagement => "FileManagement"
  | GitOps => "GitOps"
  | Research => "Research"
  | CodeEdit => "CodeEdit"
  | Search => "Search"
  | ImageGen => "ImageGen"
  | WebBrowse => "WebBrowse"
  | Deployment => "Deployment"
  | General => "General"
  end.

Record PredictedIntent := mkPrediction { intent : UserIntent; confidence : f64; suggested_preloads : list string }.

Record IntentPattern := mkPattern {
  keywords : list string; tools_used : list string; file_extensions : list string;
  observation_count : Z; next_intent : option UserIntent; next_intent_prob : f64
}.

Record IntentPredictor := mkPredictor {
  patterns : gmap string IntentPattern;
  transitions : gmap (string * string) Z;
  last_intent : option string;
  prediction_count : Z;
  correct_predictions : Z
}.

(** The entries of [SEED_PATTERNS]. *)
Definition seeds_of_work : list (string * IntentPattern) := [
  ("debugging", mkPattern
     ["error"; "bug"; "fix"; "crash"; "fail"; "broken"; "traceback"; "panic"]
     ["Bash"; "FileRead"] [".rs"; ".log"] 10 (Some CodeWriting) (f64_ratio 6 10));
  ("code_writing", mkPattern
     ["create"; "add"; "implement"; "write"; "build"; "new feature"; "新增"; "实现"]
     ["FileEdit"; "FileWrite"] [".rs"; ".toml"; ".md"] 10 (Some Testing) (f64_ratio 5 10));
  ("refactoring", mkPattern
     ["refactor"; "restructure"; "clean up"; "simplify"; "重构"]
     ["FileEdit"; "FileRead"] [".rs"] 5 (Some Testing) (f64_ratio 7 10));
  ("testing", mkPattern
     ["test"; "verify"; "check"; "测试"; "验证"]
     ["Bash"] [".rs"] 5 (Some Debugging) (f64_ratio 4 10));
  ("git_ops", mkPattern
     ["commit"; "push"; "merge"; "branch"; "pull request"; "提交"]
     ["Bash"] [] 5 None f64_zero);
  ("research", mkPattern
     ["search"; "find"; "lookup"; "what is"; "how to"; "查找"]
     ["WebSearch"; "WebFetch"] [] 3 (Some CodeWriting) (f64_ratio 5 10));
  ("code_edit", mkPattern
     ["edit"; "modify"; "change"; "update"; "rename"; "修改"; "改一下"]
     ["FileEdit"; "FileRead"] [".rs"; ".ts"] 5 (Some Testing) (f64_ratio 4 10))].

Definition other_seeds : list (string * IntentPattern) := [
  ("search", mkPattern
     ["grep"; "where is"; "locate"; "which file"; "搜索"; "哪个文件"]
     ["Bash"; "FileRead"] [] 5 (Some CodeEdit) (f64_ratio 5 10));
  ("doc_write", mkPattern
     ["document"; "readme"; "docs"; "comment"; "documentation"; "文档"; "注释"]
     ["FileWrite"; "FileRead"] [".md"] 5 None f64_zero);
  ("image", mkPattern
     ["image"; "picture"; "draw"; "generate an image"; "logo"; "图片"; "画"]
     ["ImageGenerator"; "ImageEditor"] [".png"; ".jpg"] 3 None f64_zero);
  ("web", mkPattern
     ["http://"; "https://"; "url"; "website"; "fetch"; "browse"; "网页"]
     ["WebFetch"; "WebSearch"] [] 3 None f64_zero);
  ("deployment", mkPattern
     ["deploy"; "docker"; "kubernetes"; "k8s"; "release"; "ci/cd"; "部署"; "发布"]
     ["Bash"] [".yaml"; ".yml"] 3 None f64_zero);
  ("code_review", mkPattern
     ["review"; "explain"; "understand"; "what does"; "审查"; "解释"]
     ["FileRead"] [".rs"; ".ts"] 3 (Some CodeEdit) (f64_ratio 3 10));
  ("file_management", mkPattern
     ["move"; "copy"; "delete file"; "mkdir"; "list files"; "移动"]
     ["Bash"] [] 3 None f64_zero)].

Definition SEED_PATTERNS : list (string * IntentPattern) := (seeds_of_work ++ other_seeds)%list.

(** [IntentPredictor::new]. *)
Definition new_predictor : IntentPredictor :=
  mkPredictor (foldl (fun m p => <[p.1 := p.2]> m) ∅ SEED_PATTERNS) ∅ None 0 0.

(** ** Scores *)

Section Predict.
Context `{O : HashOrder}.

(** [f64::ln]. *)
Variable ln : f64 -> f64.

Definition matched_keywords (lower : string) (p : IntentPattern) : Z :=
  Z.of_nat (length (retain (str_contains lower) (keywords p))).

(** The keywords matched, weighted by the observations. *)
Definition keyword_score (lower : string) (p : IntentPattern) : f64 :=
  let matched := matched_keywords lower p in
  if Z.ltb 0 matched then
    f64_mul (f64_div (f64_of_Z matched) (f64_of_Z (Z.max (Z.of_nat (length (keywords p))) 1)))
            (f64_add (f64_of_Z 1) (f64_div (f64_max (ln (f64_of_Z (observation_count p))) f64_zero) (f64_of_Z 5)))
  else f64_zero.

(** With what usually follows the last intent. *)
Definition score (pr : IntentPredictor) (lower k : string) (p : IntentPattern) : f64 :=
  let s := keyword_score lower p in
  match last_intent pr ≫= fun l => transitions pr !! (l, k) with
  | Some count => f64_add s (f64_mul (f64_of_Z count) (f64_ratio 1 10))
  | None => s
  end.

Abbreviation Scored := (string * f64 * list string)%type.

Definition higher (x y : Scored) : bool := negb (f64_lt x.1.2 y.1.2).

Definition score_all (pr : IntentPredictor) (message : string) : list Scored :=
  let lower := to_lowercase message in
  sort_by higher
    (omap (fun '(k, p) => let s := score pr lower k p in if f64_lt f64_zero s then Some (k, s, tools_used p) else None)
       (hash_iter (patterns pr))).

(** ** Predictions *)

Definition prediction_of (x : Scored) : PredictedIntent :=
  let c := f64_min x.1.2 (f64_of_Z 1) in
  mkPrediction (from_key x.1.1) c (if f64_lt (f64_ratio 3 10) c then x.2 else []).

Definition no_prediction : PredictedIntent := mkPrediction General f64_zero [].

Definition count_prediction (pr : IntentPredictor) : IntentPredictor :=
  mkPredictor (patterns pr) (transitions pr) (last_intent pr) (add32 (prediction_count pr) 1) (correct_predictions pr).

Definition predict (pr : IntentPredictor) (message : string) : IntentPredictor * PredictedIntent :=
  (count_prediction pr,
   match score_all pr message with
   | x :: _ => prediction_of x
   | [] => prediction_of ("general", f64_zero, [])
   end).

Definition predict_multi (pr : IntentPredictor) (message : string) (max_intents : nat) (min_confidence : f64) :
    IntentPredictor * list PredictedIntent :=
  (count_prediction pr,
   match take max_intents (retain (fun p => f64_ge (confidence p) min_confidence) (prediction_of <$> score_all pr message)) with
   | [] => [no_prediction]
   | ps => ps
   end).

(** ** Learning *)

Definition observe (p : IntentPattern) (tools : list string) : IntentPattern :=
  mkPattern (keywords p)
    (foldl (fun ts t => if bool_decide (t ∈ ts) then ts else (ts ++ [t])%list) (tools_used p) tools)
    (file_extensions p) (add32 (observation_count p) 1) (next_intent p) (next_intent_prob p).

Definition record_actual (pr : IntentPredictor) (n : string) (tools : list string) : IntentPredictor :=
  mkPredictor
    (match patterns pr !! n with Some p => <[n := observe p tools]> (patterns pr) | None => patterns pr end)
    (match last_intent pr with
     | Some l => <[(l, n) := add32 (default 0%Z (transitions pr !! (l, n))) 1]> (transitions pr)
     | None => transitions pr
     end)
    (Some n) (prediction_count pr) (correct_predictions pr).

Definition record_correct_prediction (pr : IntentPredictor) : IntentPredictor :=
  mkPredictor (patterns pr) (transitions pr) (last_intent pr) (prediction_count pr) (add32 (correct_predictions pr) 1).

Definition accuracy (pr : IntentPredictor) : f64 :=
  if Z.eqb (prediction_count pr) 0 then f64_zero
  else f64_div (f64_of_Z (correct_predictions pr)) (f64_of_Z (prediction_count pr)).

Definition build_preload_hint (p : PredictedIntent) : option string :=
  if f64_lt (confidence p) (f64_ratio 3 10) || match suggested_preloads p with [] => true | _ => false end then None
  else Some (string_of [LF] +:+ "## Predicted User Intent" +:+ string_of [LF] +:+ "Intent: " +:+ intent_debug (intent p) +:+
             " (confidence: " +:+ fmt_whole (f64_mul (confidence p) (f64_of_Z 100)) +:+ "%)" +:+ string_of [LF] +:+
             "Preloaded tools: " +:+ String.concat ", " (suggested_preloads p) +:+ string_of [LF])%bool.

(** ** The best intent *)

Lemma higher_total (x y : Scored) : higher x y = false -> higher y x = true.
Proof. unfold higher. rewrite !negb_false_iff, negb_true_iff. apply f64_lt_asym. Qed.

Lemma scored_iff pr message x :
  x ∈ score_all pr message <->
  exists k p, patterns pr !! k = Some p /\ f64_lt f64_zero (score pr (to_lowercase message) k p) = true
              /\ x = (k, score pr (to_lowercase message) k p, tools_used p).
Proof.
  unfold score_all. rewrite elem_of_sort_by, list_elem_of_omap. split.
  - intros ([k p] & Hin%elem_of_hash_iter & Hx). destruct (f64_lt f64_zero _) eqn:Hs; [|done]. injection Hx as <-. by exists k, p.
  - intros (k & p & Hk & Hs & ->). exists (k, p). split; [by apply elem_of_hash_iter|]. by rewrite Hs.
Qed.

Lemma scored_sorted pr message : StronglySorted (fun x y => higher x y = true) (score_all pr message).
Proof.
  assert (Hpos : Forall (fun x : Scored => f64_is_nan x.1.2 = false) (score_all pr message)).
  { rewrite Forall_forall. intros x (k & p & _ & Hs & ->)%scored_iff. by apply f64_lt_not_nan in Hs. }
  assert (Hsort : Sorted (le_rel higher) (score_all pr message)) by (apply sort_by_sorted, higher_total).
  revert Hpos Hsort. generalize (score_all pr message) as l. induction l as [|x l IH]; [constructor|].
  intros [Hx Hall]%Forall_cons [Hl Hhd]%Sorted_inv. specialize (IH Hall Hl). constructor; [done|].
  destruct l as [|y l]; [constructor|]. apply HdRel_inv in Hhd. unfold le_rel in Hhd.
  apply StronglySorted_inv in IH as [_ Hy]. apply Forall_cons in Hall as [Hny Hall]. constructor; [done|].
  rewrite Forall_forall in *. intros z Hz. unfold higher in *. specialize (Hy z Hz). specialize (Hall z Hz).
  rewrite negb_true_iff in *. by apply (f64_not_lt_trans x.1.2 y.1.2 z.1.2).
Qed.

(** The predicted intent is the best one.  If no pattern scores,
    the prediction is general, without confidence and without tools; otherwise
    it is the intent of a pattern that scores and that no other pattern beats,
    with its score up to one as confidence, and whatever the order of the hash
    map the confidence is the same. *)
Theorem predicted_intent_best pr message :
  let s k p := score pr (to_lowercase message) k p in
  let best := (predict pr message).2 in
  (forall k p, patterns pr !! k = Some p -> f64_lt f64_zero (s k p) = false) /\ best = mkPrediction General f64_zero []
  \/ exists k p, patterns pr !! k = Some p /\ f64_lt f64_zero (s k p) = true
       /\ intent best = from_key k /\ confidence best = f64_min (s k p) (f64_of_Z 1)
       /\ forall k' p', patterns pr !! k' = Some p' -> f64_lt (s k p) (s k' p') = false.
Proof.
  intros s best. unfold best, predict. cbn [snd]. pose proof (scored_sorted pr message) as Hsort.
  assert (Hiff := scored_iff pr message). destruct (score_all pr message) as [|x l].
  - left. split; [|vm_compute; reflexivity]. intros k p Hk. destruct (f64_lt f64_zero (s k p)) eqn:Hs; [|done].
    exfalso. apply (not_elem_of_nil (k, s k p, tools_used p)). apply Hiff. by exists k, p.
  - right. destruct (proj1 (Hiff x) (list_elem_of_here _ _)) as (k & p & Hk & Hs & ->). exists k, p.
    split; [done|split; [done|split; [done|split; [done|]]]]. intros k' p' Hk'.
    destruct (f64_lt (s k p) (s k' p')) eqn:Hlt; [|done]. exfalso.
    assert (Hs' : f64_lt f64_zero (s k' p') = true) by (by eapply f64_lt_trans).
    assert (Hin : (k', s k' p', tools_used p') ∈ (k, s k p, tools_used p) :: l) by (apply Hiff; by exists k', p').
    apply elem_of_cons in Hin as [[= -> Heq _]|Hin]; [unfold s in *; rewrite Heq, f64_lt_irrefl in Hlt; done|].
    apply StronglySorted_inv in Hsort as [_ Hall]. rewrite Forall_forall in Hall. specialize (Hall _ Hin).
    unfold higher in Hall. cbn [fst snd] in Hall. fold (s k p) (s k' p') in Hall. by rewrite Hlt in Hall.
Qed.

(** Of several predictions the first is the single one, if it is sure enough. *)
Lemma multi_starts_with_best pr message n c :
  f64_ge (confidence (predict pr message).2) c = true ->
  hd_error (predict_multi pr message (S n) c).2 = Some (predict pr message).2.
Proof.
  unfold predict, predict_multi. cbn [snd]. destruct (score_all pr message) as [|x l]; [done|].
  intros Hc. rewrite fmap_cons, retain_cons, Hc. done.
Qed.

Lemma multi_bounded pr message n c : (length (predict_multi pr message (S n) c).2 <= S n)%nat.
Proof.
  unfold predict_multi. cbn [snd]. destruct (take (S n) _) as [|x l] eqn:Ht; [simpl; lia|].
  rewrite <- Ht, length_take. lia.
Qed.
End Predict.

(** A key is read back as its intent. *)
Lemma from_key_key i : from_key (key i) = i.
Proof. by destruct i. Qed.

(** ** Examples *)

(** The pattern of git operations is kept under [git_ops], their key is
    [git_op]: what is learned under the key finds no pattern. *)
Example git_ops_not_learned :
  patterns new_predictor !! key GitOps = None
  /\ patterns (record_actual new_predictor (key GitOps) ["Bash"]) = patterns new_predictor.
Proof.
  assert (H : patterns new_predictor !! "git_op" = None) by reflexivity.
  split; [exact H|]. unfold record_actual. cbn [key patterns]. by rewrite H.
Qed.

(** Keywords are sought inside words: a prefix is an edit of code. *)
Example keyword_inside_word :
  matched_keywords "credit" (mkPattern ["edit"] [] [] 0 None f64_zero) = 1%Z.
Proof. reflexivity. Qed.
