(* ===== verification/Warmup.v ===== *)
(** * Warmup: files read ahead of time ([engine/warmup.rs])

    The rules with their loading, the match of a message against them, the
    pass that warms the file cache, the attribution of reads to the rules that
    foresaw them and the learning from it, and the pass a query begins with.
    Regular expressions, globs and the derived conversions from and to JSON
    text are arguments; files are read from [FileCache.Disk] and the statistics
    kept in [FileStore.Files]. *)

From stdpp Require Import base gmap strings list fin_maps.
From Stdlib Require Import ZArith Lia SpecFloat.
From S2P Require Import Prelude Text Float64 Json Paths FileCache FileRead FileStore Intent.

#[local] Open Scope string_scope.

Definition DEFAULT_MIN_SAMPLES : Z := 10.
Definition DEFAULT_HIT_RATE_THRESHOLD : f64 := f64_ratio 6 10.
Definition MIN_ACTIVE_WEIGHT : f64 := f64_ratio 2 10.
Definition MAX_FILES_PER_RULE : nat := 20.

(** ** Configuration *)

Record WarmupRule := mkRule {
  rule_id : string; pattern : string; rule_intents : list string;
  warmup_files : list string; preload_skills : list string; warmup_tools : list string
}.

Definition set_id (n : string) (r : WarmupRule) : WarmupRule :=
  mkRule n (pattern r) (rule_intents r) (warmup_files r) (preload_skills r) (warmup_tools r).

Record WarmupLearning := mkLearning { enabled : bool; min_samples : Z; hit_rate_threshold : f64 }.

Record WarmupConfig := mkConfig { rules : list WarmupRule; learning : WarmupLearning }.

Definition default_learning : WarmupLearning := mkLearning true DEFAULT_MIN_SAMPLES DEFAULT_HIT_RATE_THRESHOLD.

Definition default_rules : list WarmupRule := [
  mkRule "testing" "test|测试" ["testing"] ["tests/**/*.rs"; "**/*test*.ts"] ["test-driven-development"] ["Bash"];
  mkRule "debugging" "error|bug|fix|crash|panic|报错|崩溃" ["debugging"] ["**/*.log"] ["systematic-debugging"] ["Bash"; "FileRead"];
  mkRule "deploy" "deploy|docker|kubernetes|k8s|部署" ["deployment"] ["Dockerfile"; "deploy/**"; "k8s/**"] [] ["Bash"];
  mkRule "refactor" "refactor|重构" ["refactoring"] [] ["refactoring-patterns"] ["Grep"; "FileRead"; "FileEdit"];
  mkRule "docs" "readme|document|docs|文档" ["doc_write"] ["README.md"; "docs/**/*.md"] [] ["FileWrite"]].

Definition default_config : WarmupConfig := mkConfig default_rules default_learning.

(** The home directory, from the variables of the environment. *)
Definition home_path (home userprofile : option string) : Path :=
  components (default (default "." userprofile) home).

Definition baoclaw_file (home userprofile : option string) (n : string) : Path :=
  file_of (file_of (home_path home userprofile) ".baoclaw") n.

Definition warmup_config_path (home userprofile : option string) : Path := baoclaw_file home userprofile "warmup.json".
Definition warmup_stats_path (home userprofile : option string) : Path := baoclaw_file home userprofile "warmup_stats.json".

Definition assign_ids (rs : list WarmupRule) : list WarmupRule :=
  imap (fun i r => if Text.is_empty (rule_id r) then set_id ("rule_" +:+ show_nat i) r else r) rs.

(** ** Statistics *)

Record RuleStats := mkStats { samples : Z; hits : Z; warmed : Z; weight : f64 }.

(** [RuleStats { weight: 1.0, ..Default::default() }]. *)
Definition fresh_stats : RuleStats := mkStats 0 0 0 (f64_of_Z 1).

Definition hit_rate (s : RuleStats) : f64 :=
  if Z.eqb (warmed s) 0 then f64_zero else f64_div (f64_of_Z (hits s)) (f64_of_Z (warmed s)).

Abbreviation Stats := (gmap string RuleStats).

Definition one_sample (s : RuleStats) : RuleStats := mkStats (add32 (samples s) 1) (hits s) (warmed s) (weight s).
Definition one_hit (s : RuleStats) : RuleStats := mkStats (samples s) (add32 (hits s) 1) (warmed s) (weight s).
Definition one_warmed (s : RuleStats) : RuleStats := mkStats (samples s) (hits s) (add32 (warmed s) 1) (weight s).

(** [get_mut] for each of a set of rules: the order does not matter. *)
Definition for_each (f : RuleStats -> RuleStats) (ids : gset string) (m : Stats) : Stats :=
  map_imap (fun k s => Some (if bool_decide (k ∈ ids) then f s else s)) m.

(** ** The manager *)

Record WarmupResult := mkResult {
  matched_rules : list string; warmed_files : list Path; result_skills : list string; result_tools : list string
}.

Definition no_result : WarmupResult := mkResult [] [] [] [].

Abbreviation Pending := (gmap Path (gset string)).

(** The file cache is shared and passed beside the manager. *)
Record WarmupManager := mkManager {
  config : WarmupConfig; stats : Stats; stats_path : Path; cwd : string; pending : Pending
}.

Definition with_config (c : WarmupConfig) (s : Stats) (p : Path) (dir : string) : WarmupManager := mkManager c s p dir ∅.

Definition set_stats (m : WarmupManager) (s : Stats) : WarmupManager := mkManager (config m) s (stats_path m) (cwd m) (pending m).
Definition set_pending (m : WarmupManager) (p : Pending) : WarmupManager := mkManager (config m) (stats m) (stats_path m) (cwd m) p.

(** [PathBuf::join] on text. *)
Definition push_text (dir p : string) : string :=
  match String.get 0 p with
  | Some b => if Ascii.eqb b slash then p
              else if (Text.is_empty dir || bool_decide (last (bytes_of dir) = Some slash))%bool then dir +:+ p
              else dir +:+ "/" +:+ p
  | None => if (Text.is_empty dir || bool_decide (last (bytes_of dir) = Some slash))%bool then dir else dir +:+ "/"
  end.

Section Warmup.
Context `{F : Files}.

(** The scan of the cache. *)
Context (iter : gmap Path FileCacheEntry -> list (Path * FileCacheEntry)).

(** [RegexBuilder] ignoring case: [None] if the pattern is none. *)
Variable is_match : string -> string -> option bool.

(** [glob::glob] without the entries that are errors: [None] if the pattern is
    none; and [Path::is_file]. *)
Variable glob : Disk -> string -> option (list Path).
Variable is_file : Disk -> Path -> bool.

Variable config_parse : string -> option WarmupConfig.
Variable stats_parse : string -> option Stats.
Variable stats_text : Stats -> option string.

(** *** Loading and saving *)

(** [WarmupConfig::load_from]. *)
Definition load_config (fs : files) (p : Path) : WarmupConfig :=
  match read_to_string fs p with
  | Some content =>
      match config_parse content with
      | Some c => mkConfig (assign_ids (rules c)) (learning c)
      | None => default_config
      end
  | None => default_config
  end.

(** [WarmupStats::load_from]. *)
Definition load_stats (fs : files) (p : Path) : Stats := default ∅ (read_to_string fs p ≫= stats_parse).

(** [WarmupStats::save_to], with whether it succeeded. *)
Definition save_to (fs : files) (s : Stats) (p : Path) : files * bool :=
  let '(fs, ok) := match parent p with Some dir => create_dir_all fs dir | None => (fs, true) end in
  if ok then write fs p (default "{}" (stats_text s)) else (fs, false).

(** Every caller goes on after a failure. *)
Definition save (fs : files) (m : WarmupManager) : files := (save_to fs (stats m) (stats_path m)).1.

(** [WarmupManager::new]. *)
Definition new_manager (fs : files) (home userprofile : option string) (dir : string) : WarmupManager :=
  with_config (load_config fs (warmup_config_path home userprofile)) (load_stats fs (warmup_stats_path home userprofile))
    (warmup_stats_path home userprofile) dir.

(** *** Matching *)

(** Learning has not eliminated the rule. *)
Definition kept (s : Stats) (n : string) : bool :=
  match s !! n with Some st => negb (f64_lt (weight st) MIN_ACTIVE_WEIGHT) | None => true end.

Definition intent_match (r : WarmupRule) (intents : list PredictedIntent) : bool :=
  existsb (fun i => existsb (fun p => String.eqb (key (intent p)) i) intents) (rule_intents r).

Definition pattern_match (r : WarmupRule) (message : string) : bool := default false (is_match (pattern r) message).

Definition match_rules (m : WarmupManager) (message : string) (intents : list PredictedIntent) : list WarmupRule :=
  retain (fun r => (kept (stats m) (rule_id r) && (intent_match r intents || pattern_match r message))%bool) (rules (config m)).

Definition is_rule_active (m : WarmupManager) (n : string) : bool :=
  match stats m !! n with Some s => f64_ge (weight s) MIN_ACTIVE_WEIGHT | None => true end.

(** *** Warming *)

Definition resolve_globs (d : Disk) (dir : string) (patterns : list string) : list Path :=
  concat ((fun p => match glob d (push_text dir p) with Some entries => retain (is_file d) entries | None => [] end) <$> patterns).

(** [warm_file]; without a cache the file is read all the same. *)
Definition warm (d : Disk) (now : Z) (p : Path) (cache : option FileCache) : bool * option FileCache :=
  match cache with
  | Some c => let '(ok, c) := warm_file iter d now p c in (ok, Some c)
  | None => ((warm_file iter d now p (FileCache.new 0)).1, None)
  end.

Definition wait_for (p : Path) (n : string) (pend : Pending) : Pending := <[p := {[n]} ∪ default ∅ (pend !! p)]> pend.

Definition warm_path (d : Disk) (now : Z) (n : string) (st : Pending * option FileCache * list Path) (p : Path) :
    Pending * option FileCache * list Path :=
  let '(pend, cache, out) := st in
  let '(ok, cache) := warm d now p cache in
  if ok then (wait_for p n pend, cache, (out ++ [p])%list) else (pend, cache, out).

Abbreviation Pass := (Pending * option FileCache * Stats * WarmupResult)%type.

Definition fire (d : Disk) (now : Z) (dir : string) (st : Pass) (r : WarmupRule) : Pass :=
  let '(pend, cache, s, res) := st in
  let '(pend, cache, out) :=
    foldl (warm_path d now (rule_id r)) (pend, cache, warmed_files res)
      (take MAX_FILES_PER_RULE (resolve_globs d dir (warmup_files r))) in
  (pend, cache, <[rule_id r := one_sample (default fresh_stats (s !! rule_id r))]> s,
   mkResult (matched_rules res ++ [rule_id r])%list out (result_skills res ++ preload_skills r)%list
     (result_tools res ++ warmup_tools r)%list).

(** A warmed file counts for every rule that waits for it. *)
Definition count_warmed (pend : Pending) (s : Stats) (p : Path) : Stats :=
  match pend !! p with Some ids => for_each one_warmed ids s | None => s end.

Definition warmup (d : Disk) (now : Z) (fs : files) (m : WarmupManager) (cache : option FileCache) (message : string)
    (intents : list PredictedIntent) : files * WarmupManager * option FileCache * WarmupResult :=
  let '(pend, cache, s, res) :=
    foldl (fire d now (cwd m)) (pending m, cache, stats m, no_result) (match_rules m message intents) in
  let m := set_stats (set_pending m pend) (foldl (count_warmed pend) s (warmed_files res)) in
  (save fs m, m, cache, res).

(** *** Reads and learning *)

Definition record_file_access (d : Disk) (fs : files) (m : WarmupManager) (p : Path) : files * WarmupManager :=
  let q := key_of d p in
  match pending m !! q with
  | Some ids =>
      let m := set_stats (set_pending m (delete q (pending m))) (for_each one_hit ids (stats m)) in
      (save fs m, m)
  | None => (fs, m)
  end.

Definition adjust (l : WarmupLearning) (s : RuleStats) : RuleStats :=
  if Z.ltb (samples s) (min_samples l) then s
  else mkStats (samples s) (hits s) (warmed s)
         (if f64_lt (hit_rate s) (hit_rate_threshold l) then f64_mul (weight s) (f64_ratio 8 10)
          else f64_min (f64_add (weight s) (f64_ratio 1 10)) (f64_of_Z 1)).

Definition learn (m : WarmupManager) : WarmupManager :=
  if enabled (learning (config m)) then set_stats m (adjust (learning (config m)) <$> stats m) else m.

Definition apply_learning (fs : files) (m : WarmupManager) : files * WarmupManager :=
  let m' := learn m in (if enabled (learning (config m)) then save fs m' else fs, m').

(** *** The pass a query begins with *)

Section Query.
Context `{O : HashOrder}.
Variable ln : f64 -> f64.

Definition warm_query (d : Disk) (now : Z) (fs : files) (pr : IntentPredictor) (m : WarmupManager) (cache : option FileCache)
    (prompt : string) : files * IntentPredictor * WarmupManager * option FileCache * WarmupResult :=
  let '(pr, intents) := predict_multi ln pr prompt 3 (f64_ratio 1 10) in
  let '(fs, m, cache, res) := warmup d now fs m cache prompt intents in
  (fs, pr, m, cache, res).
End Query.
End Warmup.

(** ** Hits and warmed files *)

Section Hits.
Context `{F : Files}.
Context (iter : gmap Path FileCacheEntry -> list (Path * FileCacheEntry)).
Variable is_match : string -> string -> option bool.
Variable glob : Disk -> string -> option (list Path).
Variable is_file : Disk -> Path -> bool.
Variable stats_text : Stats -> option string.

(** The rules that wait for a path. *)
Definition waiting_at (pend : Pending) (p : Path) : gset string := default ∅ (pend !! p).

(** How many paths a rule waits for. *)
Definition waiting (n : string) (pend : Pending) : nat := size (filter (fun x : Path * gset string => n ∈ x.2) pend).

(** How many of the paths a rule waits for. *)
Definition credited (n : string) (pend : Pending) (l : list Path) : nat :=
  length (retain (fun p => bool_decide (n ∈ waiting_at pend p)) l).

Lemma waiting_empty n : waiting n ∅ = 0.
Proof. unfold waiting. by rewrite map_filter_empty, map_size_empty. Qed.

Lemma waiting_insert n p ids pend :
  waiting n (<[p := ids]> pend) = (waiting n (delete p pend) + (if bool_decide (n ∈ ids) then 1 else 0))%nat.
Proof.
  unfold waiting. rewrite <- insert_delete_eq. case_bool_decide as H.
  - rewrite map_filter_insert_True by done. rewrite map_size_insert_None; [lia|].
    apply map_lookup_filter_None. left. apply lookup_delete_eq.
  - rewrite map_filter_insert_False by done. rewrite delete_delete_eq. lia.
Qed.

Lemma waiting_split n p pend :
  waiting n pend = (waiting n (delete p pend) + (if bool_decide (n ∈ waiting_at pend p) then 1 else 0))%nat.
Proof.
  unfold waiting_at. destruct (pend !! p) as [ids|] eqn:Hp; simpl.
  - rewrite <- (insert_id pend p ids) at 1 by done. apply waiting_insert.
  - rewrite delete_id by done. rewrite bool_decide_eq_false_2 by set_solver. lia.
Qed.

Lemma waiting_none n pend p : waiting n pend = 0 -> n ∉ waiting_at pend p.
Proof. rewrite (waiting_split n p). case_bool_decide; [lia|done]. Qed.

Lemma waiting_at_wait p q n pend :
  waiting_at (wait_for p n pend) q = if bool_decide (p = q) then {[n]} ∪ waiting_at pend q else waiting_at pend q.
Proof.
  unfold waiting_at, wait_for. case_bool_decide; subst; [by rewrite lookup_insert_eq|by rewrite lookup_insert_ne].
Qed.

Lemma waiting_wait n m p pend :
  waiting n (wait_for p m pend) =
  if bool_decide (n = m /\ n ∉ waiting_at pend p) then S (waiting n pend) else waiting n pend.
Proof.
  unfold wait_for. rewrite waiting_insert, (waiting_split n p pend). unfold waiting_at.
  repeat case_bool_decide; set_solver by lia.
Qed.

Lemma credited_snoc n pend l p :
  credited n pend (l ++ [p]) = (credited n pend l + (if bool_decide (n ∈ waiting_at pend p) then 1 else 0))%nat.
Proof.
  unfold credited, retain. rewrite List.filter_app, length_app. simpl. by case_bool_decide.
Qed.

Lemma credited_wait n m p pend l : (credited n pend l <= credited n (wait_for p m pend) l)%nat.
Proof.
  unfold credited. induction l as [|q l IH]; [done|]. rewrite !retain_cons, waiting_at_wait.
  repeat case_bool_decide; simpl; try lia; set_solver.
Qed.

(** A rule that waits for more paths has more warmed files to its credit. *)
Definition grown (n : string) (pend pend' : Pending) (l l' : list Path) : Prop :=
  (waiting n pend' + credited n pend l <= waiting n pend + credited n pend' l')%nat.

Lemma warm_path_grown d now m st p n :
  let '(pend, _, l) := st in let '(pend', _, l') := warm_path iter d now m st p in
  grown n pend pend' l l' /\ (n <> m -> waiting n pend' = waiting n pend) /\ (length l' <= S (length l))%nat.
Proof.
  destruct st as [[pend cache] l]. unfold warm_path. destruct (warm iter d now p cache) as [[] c]; [|unfold grown; auto with lia].
  unfold grown. rewrite credited_snoc, waiting_at_wait, waiting_wait, length_app. pose proof (credited_wait n m p pend l).
  split; [|split; [intros Hn; by rewrite bool_decide_eq_false_2 by tauto|simpl; lia]].
  rewrite (bool_decide_eq_true_2 (p = p)) by done. repeat case_bool_decide; try lia; set_solver.
Qed.

Lemma warm_paths_grown d now m n ps : forall st,
  let '(pend, _, l) := st in let '(pend', _, l') := foldl (warm_path iter d now m) st ps in
  grown n pend pend' l l' /\ (n <> m -> waiting n pend' = waiting n pend) /\ (length l' <= length ps + length l)%nat.
Proof.
  induction ps as [|p ps IH]; intros [[pend cache] l]; cbn [foldl length]; [unfold grown; auto with lia|].
  pose proof (warm_path_grown d now m (pend, cache, l) p n) as Hstep. specialize (IH (warm_path iter d now m (pend, cache, l) p)).
  destruct (warm_path iter d now m (pend, cache, l) p) as [[pend1 c1] l1]. destruct (foldl _ _ ps) as [[pend2 c2] l2].
  destruct Hstep as (H1 & H2 & H3), IH as (H1' & H2' & H3'). unfold grown in *.
  split; [lia|]. split; [intros Hn; by rewrite H2', H2|lia].
Qed.

(** Hits and paths waited for are covered by what was warmed. *)
Definition tallied (top : Z) (pend : Pending) (l : list Path) (s : Stats) : Prop := forall n,
  match s !! n with
  | Some st => (0 <= hits st /\ hits st + Z.of_nat (waiting n pend) <= warmed st + Z.of_nat (credited n pend l) /\ 0 <= warmed st <= top)%Z
  | None => waiting n pend = 0
  end.

Lemma fire_tallied top d now dir st r : (0 <= top)%Z ->
  let '(pend, _, s, res) := st in let '(pend', _, s', res') := fire iter glob is_file d now dir st r in
  tallied top pend (warmed_files res) s ->
  tallied top pend' (warmed_files res') s' /\ (length (warmed_files res') <= MAX_FILES_PER_RULE + length (warmed_files res))%nat.
Proof.
  intros Htop. destruct st as [[[pend cache] s] res]. unfold fire.
  pose proof (fun n => warm_paths_grown d now (rule_id r) n (take MAX_FILES_PER_RULE (resolve_globs glob is_file d dir (warmup_files r)))
                (pend, cache, warmed_files res)) as Hgrown. cbn beta iota in Hgrown.
  destruct (foldl (warm_path iter d now (rule_id r)) _ _) as [[pend' c'] l']. cbn [warmed_files]. intros Ht. split.
  - intros n. destruct (Hgrown n) as (Hg & Hne & _). unfold grown in Hg. specialize (Ht n).
    destruct (decide (n = rule_id r)) as [->|Hn].
    + rewrite lookup_insert_eq. destruct (s !! rule_id r) as [st|]; cbn; [destruct Ht as (? & ? & ?)|]; split_and!; lia.
    + rewrite lookup_insert_ne by done. destruct (s !! n); [|by rewrite Hne]. destruct Ht as (? & ? & ?). split_and!; lia.
  - destruct (Hgrown "") as (_ & _ & Hlen). rewrite length_take in Hlen. lia.
Qed.

Lemma fires_tallied top d now dir rs : (0 <= top)%Z -> forall st,
  let '(pend, _, s, res) := st in let '(pend', _, s', res') := foldl (fire iter glob is_file d now dir) st rs in
  tallied top pend (warmed_files res) s ->
  tallied top pend' (warmed_files res') s' /\
  (length (warmed_files res') <= MAX_FILES_PER_RULE * length rs + length (warmed_files res))%nat.
Proof.
  intros Htop. induction rs as [|r rs IH]; intros [[[pend cache] s] res]; cbn [foldl]; [intros Ht; split; [done|simpl; lia]|].
  pose proof (fire_tallied top d now dir (pend, cache, s, res) r Htop) as Hstep. specialize (IH (fire iter glob is_file d now dir (pend, cache, s, res) r)).
  destruct (fire iter glob is_file d now dir (pend, cache, s, res) r) as [[[pend1 c1] s1] res1].
  destruct (foldl _ _ rs) as [[[pend2 c2] s2] res2]. intros Ht. apply Hstep in Ht as [Ht Hl]. apply IH in Ht as [Ht Hl'].
  split; [done|]. cbn [length]. lia.
Qed.

Lemma lookup_for_each f ids (s : Stats) n :
  for_each f ids s !! n = (fun st => if bool_decide (n ∈ ids) then f st else st) <$> s !! n.
Proof. unfold for_each. rewrite map_lookup_imap. by destruct (s !! n). Qed.

Lemma lookup_count_warmed pend (s : Stats) p n :
  count_warmed pend s p !! n = (fun st => if bool_decide (n ∈ waiting_at pend p) then one_warmed st else st) <$> s !! n.
Proof.
  unfold count_warmed, waiting_at. destruct (pend !! p) as [ids|]; [apply lookup_for_each|]. simpl. by destruct (s !! n).
Qed.

(** The count of the warmed files credits every rule once for each. *)
Lemma lookup_counted pend n l : forall s st, s !! n = Some st -> (0 <= warmed st)%Z -> (warmed st + Z.of_nat (length l) < 2 ^ 32)%Z ->
  foldl (count_warmed pend) s l !! n = Some (mkStats (samples st) (hits st) (warmed st + Z.of_nat (credited n pend l)) (weight st)).
Proof.
  induction l as [|p l IH]; intros s st Hs H0 Hl; cbn [foldl].
  - rewrite Hs. unfold credited. simpl. rewrite Z.add_0_r. by destruct st.
  - cbn [length] in Hl. unfold credited. rewrite retain_cons. fold (credited n pend l).
    assert (Hp := lookup_count_warmed pend s p n). rewrite Hs in Hp. cbn in Hp. case_bool_decide as Hin.
    + rewrite (IH _ _ Hp); unfold one_warmed, add32; cbn [warmed hits samples weight]; rewrite ?Z.mod_small by lia; try lia.
      cbn [length]. fold (credited n pend l). do 2 f_equal. lia.
    + rewrite (IH _ _ Hp) by lia. done.
Qed.

Lemma counted_missing pend n l : forall s : Stats, s !! n = None -> foldl (count_warmed pend) s l !! n = None.
Proof. induction l as [|p l IH]; intros s Hs; [done|]. apply IH. by rewrite lookup_count_warmed, Hs. Qed.

Definition settled (top : Z) (m : WarmupManager) : Prop := tallied top (pending m) [] (stats m).

Lemma warmup_settled top d now fs m cache message intents : (0 <= top)%Z ->
  (top + Z.of_nat (MAX_FILES_PER_RULE * length (rules (config m))) < 2 ^ 32)%Z -> settled top m ->
  let m' := (warmup iter is_match glob is_file stats_text d now fs m cache message intents).1.1.2 in
  settled (top + Z.of_nat (MAX_FILES_PER_RULE * length (rules (config m)))) m' /\ config m' = config m.
Proof.
  intros H0 Htop Hm. unfold warmup.
  pose proof (fires_tallied top d now (cwd m) (match_rules is_match m message intents) H0 (pending m, cache, stats m, no_result)) as Hf.
  cbn beta iota in Hf. destruct (foldl (fire _ _ _ _ _ _) _ _) as [[[pend c] s] res]. destruct (Hf Hm) as [Ht Hl]. cbn.
  split; [|done]. assert (Hr : (length (match_rules is_match m message intents) <= length (rules (config m)))%nat) by apply retain_length_le.
  cbn [no_result warmed_files length] in Hl. intros n. cbn [pending stats set_stats set_pending]. specialize (Ht n).
  destruct (s !! n) as [st|] eqn:Hs; [|by rewrite counted_missing].
  destruct Ht as (? & ? & ?). assert (Hc : (credited n pend (warmed_files res) <= length (warmed_files res))%nat) by apply retain_length_le.
  unfold MAX_FILES_PER_RULE in *. rewrite (lookup_counted pend n _ s st) by (done || lia). cbn [hits warmed]. change (credited n pend []) with 0%nat. split_and!; lia.
Qed.

Lemma access_settled top d fs m p : (top < 2 ^ 32)%Z -> settled top m ->
  let m' := (record_file_access stats_text d fs m p).2 in settled top m' /\ config m' = config m.
Proof.
  intros Htop Hm. unfold record_file_access. destruct (pending m !! key_of d p) as [ids|] eqn:Hp; [|done]. split; [|done].
  intros n. cbn [snd pending stats set_stats set_pending]. rewrite lookup_for_each. specialize (Hm n).
  rewrite (waiting_split n (key_of d p) (pending m)) in Hm. unfold waiting_at in Hm. rewrite Hp in Hm. change (default ∅ (Some ids)) with ids in Hm.
  destruct (stats m !! n) as [st|]; cbn [fmap option_fmap option_map]; [|lia]. destruct Hm as (? & Hh & ?).
  change (credited n (pending m) []) with 0%nat in Hh. change (credited n (delete (key_of d p) (pending m)) []) with 0%nat.
  case_bool_decide; cbn [one_hit hits warmed]; unfold add32; rewrite ?Z.mod_small by lia; split_and!; lia.
Qed.

Lemma learn_settled top m : settled top m -> settled top (learn m) /\ config (learn m) = config m.
Proof.
  intros Hm. unfold learn. destruct (enabled _); [|done]. split; [|done]. intros n. cbn [pending stats set_stats].
  rewrite lookup_fmap. specialize (Hm n). destruct (stats m !! n) as [st|]; [|done]. cbn. unfold adjust. by destruct (Z.ltb _ _).
Qed.

(** A run of the manager: passes, reads and learning, each on the disk of its time. *)
Inductive Op :=
| Warm (d : Disk) (now : Z) (message : string) (intents : list PredictedIntent)
| Access (d : Disk) (p : Path)
| Learn.

Abbreviation State := (files * WarmupManager * option FileCache)%type.

Definition perform (st : State) (o : Op) : State :=
  let '(fs, m, cache) := st in
  match o with
  | Warm d now message intents =>
      (warmup iter is_match glob is_file stats_text d now fs m cache message intents).1
  | Access d p => let '(fs, m) := record_file_access stats_text d fs m p in (fs, m, cache)
  | Learn => let '(fs, m) := apply_learning stats_text fs m in (fs, m, cache)
  end.

Definition manager (st : State) : WarmupManager := st.1.2.

Definition limit (m : WarmupManager) : nat := MAX_FILES_PER_RULE * length (rules (config m)).

Lemma settled_mono top top' m : (top <= top')%Z -> settled top m -> settled top' m.
Proof. intros Hle Hm n. specialize (Hm n). destruct (stats m !! n); [|done]. destruct Hm as (? & ? & ?). split_and!; lia. Qed.

Lemma perform_settled top st o : (0 <= top)%Z -> (top + Z.of_nat (limit (manager st)) < 2 ^ 32)%Z -> settled top (manager st) ->
  settled (top + Z.of_nat (limit (manager st))) (manager (perform st o)) /\ limit (manager (perform st o)) = limit (manager st).
Proof.
  destruct st as [[fs m] cache]. unfold manager. cbn [fst snd]. intros H0 Htop Hm. unfold limit in *. destruct o as [d now msg ints|d p|]; cbn [perform].
  - pose proof (warmup_settled top d now fs m cache msg ints H0 Htop Hm) as Hw. cbn zeta in Hw.
    destruct (warmup _ _ _ _ _ _ _ _ _ _ _ _) as [[[fs' m'] c'] r']. destruct Hw as [Hw Hc]. cbn in *. by rewrite Hc.
  - pose proof (access_settled top d fs m p ltac:(lia) Hm) as Ha. cbn zeta in Ha.
    destruct (record_file_access _ _ _ _ _) as [fs' m']. destruct Ha as [Ha Hc]. cbn in *. rewrite Hc.
    split; [|done]. apply settled_mono with top; [lia|done].
  - destruct (learn_settled top m Hm) as [Hl Hc]. unfold apply_learning. cbn [fst snd]. rewrite Hc.
    split; [|done]. apply settled_mono with top; [lia|done].
Qed.

Lemma performed_settled ops : forall top st, (0 <= top)%Z -> (top + Z.of_nat (limit (manager st) * length ops) < 2 ^ 32)%Z ->
  settled top (manager st) -> settled (top + Z.of_nat (limit (manager st) * length ops)) (manager (foldl perform st ops)).
Proof.
  induction ops as [|o ops IH]; intros top st H0 Htop Hs; cbn [foldl length] in *.
  - rewrite Nat.mul_0_r, Z.add_0_r. done.
  - rewrite Nat.mul_succ_r in *. destruct (perform_settled top st o H0 ltac:(lia) Hs) as [Hp Hl].
    replace (top + _)%Z with (top + Z.of_nat (limit (manager st)) + Z.of_nat (limit (manager (perform st o)) * length ops))%Z by (rewrite Hl; lia).
    apply IH; [lia|rewrite Hl; lia|done].
Qed.

(** A rule never has more hits than files warmed for it.  From
    statistics of which that holds, after any sequence of passes, reads and
    learning, on whatever disks, every hit is for a file warmed before and
    counted once - each warming of a file can be hit once at most - as long as
    the passes are too few to overflow the counters. *)
Theorem hits_within_warmed (c : WarmupConfig) (s : Stats) (p : Path) (dir : string) (fs : files) (cache : option FileCache)
    (top : Z) (ops : list Op) (n : string) (st : RuleStats) :
  (forall n st, s !! n = Some st -> 0 <= hits st <= warmed st /\ warmed st <= top)%Z ->
  (0 <= top /\ top + Z.of_nat (MAX_FILES_PER_RULE * length (rules c) * length ops) < 2 ^ 32)%Z ->
  stats (manager (foldl perform (fs, with_config c s p dir, cache) ops)) !! n = Some st -> (0 <= hits st <= warmed st)%Z.
Proof.
  intros Hs [H0 Htop] Hn. assert (Hset : settled top (with_config c s p dir)).
  { intros k. cbn. destruct (s !! k) as [x|] eqn:Hk; [|apply waiting_empty].
    rewrite waiting_empty. destruct (Hs k x Hk). change (credited k ∅ []) with 0%nat. split_and!; lia. }
  pose proof (performed_settled ops top (fs, with_config c s p dir, cache) H0 Htop Hset n) as Hfin. rewrite Hn in Hfin.
  destruct Hfin as (? & Hh & ?). change (credited n _ []) with 0%nat in Hh. lia.
Qed.
End Hits.

(** ** Learning *)

(** What is matched is kept by learning, and named by an intent or matched by
    its pattern. *)
Lemma matched_iff is_match m message intents r :
  r ∈ match_rules is_match m message intents <->
  r ∈ rules (config m) /\ kept (stats m) (rule_id r) = true /\
  (intent_match r intents = true \/ pattern_match is_match r message = true).
Proof. unfold match_rules. by rewrite elem_of_retain, andb_true_iff, orb_true_iff. Qed.

Lemma no_hits_no_rate st : hits st = 0%Z -> (0 <= warmed st < 2 ^ 53)%Z -> hit_rate st = f64_zero.
Proof.
  intros Hh Hw. unfold hit_rate. rewrite Hh. destruct (Z.eqb_spec (warmed st) 0); [done|].
  destruct (warmed st) as [|w|w]; [done| |lia]. destruct (f64_of_pos w ltac:(lia)) as (m & e & ->). done.
Qed.

(** The weight of a rule without hits. *)
Definition decay (w : f64) : f64 := f64_mul w (f64_ratio 8 10).

Lemma learn_useless m n st : enabled (learning (config m)) = true -> stats m !! n = Some st ->
  hits st = 0%Z -> (0 <= warmed st < 2 ^ 53)%Z -> (min_samples (learning (config m)) <= samples st)%Z ->
  f64_lt f64_zero (hit_rate_threshold (learning (config m))) = true ->
  stats (learn m) !! n = Some (mkStats (samples st) (hits st) (warmed st) (decay (weight st))).
Proof.
  intros He Hn Hh Hw Hs Ht. unfold learn. rewrite He. cbn [stats set_stats]. rewrite lookup_fmap, Hn. cbn. f_equal.
  unfold adjust. destruct (Z.ltb_spec (samples st) (min_samples (learning (config m)))); [lia|]. by rewrite no_hits_no_rate, Ht.
Qed.

Lemma learn_useless_iter m n st k : enabled (learning (config m)) = true -> stats m !! n = Some st ->
  hits st = 0%Z -> (0 <= warmed st < 2 ^ 53)%Z -> (min_samples (learning (config m)) <= samples st)%Z ->
  f64_lt f64_zero (hit_rate_threshold (learning (config m))) = true ->
  config (Nat.iter k learn m) = config m /\
  stats (Nat.iter k learn m) !! n = Some (mkStats (samples st) (hits st) (warmed st) (Nat.iter k decay (weight st))).
Proof.
  intros He Hn Hh Hw Hs Ht. induction k as [|k [IHc IHs]]; [by destruct st|]. change (Nat.iter (S k) learn m) with (learn (Nat.iter k learn m)).
  rewrite <- IHc in He, Hs, Ht. split; [unfold learn; by destruct (enabled _)|].
  exact (learn_useless _ n _ He IHs Hh Hw Hs Ht).
Qed.

(** A rule that foresees nothing is eliminated by the eighth round of
    learning and not before: with enough samples and no hit, from full weight
    it is still active after seven rounds, and after eight no message and no
    intent brings it back. *)
Theorem useless_rule_eliminated is_match (m : WarmupManager) (n : string) (st : RuleStats) :
  let m7 := Nat.iter 7 learn m in
  let m8 := Nat.iter 8 learn m in
  enabled (learning (config m)) = true -> f64_lt f64_zero (hit_rate_threshold (learning (config m))) = true ->
  stats m !! n = Some st -> hits st = 0%Z -> (0 <= warmed st < 2 ^ 32)%Z -> weight st = f64_of_Z 1 ->
  (min_samples (learning (config m)) <= samples st)%Z ->
  is_rule_active m7 n = true /\ is_rule_active m8 n = false /\
  (forall message intents r, r ∈ match_rules is_match m8 message intents -> rule_id r <> n).
Proof.
  intros m7 m8 He Ht Hn Hh Hw H1 Hs.
  destruct (learn_useless_iter m n st 7 He Hn Hh ltac:(lia) Hs Ht) as [_ H7].
  destruct (learn_useless_iter m n st 8 He Hn Hh ltac:(lia) Hs Ht) as [_ H8]. fold m7 in H7. fold m8 in H8.
  rewrite H1 in H7, H8. unfold is_rule_active. rewrite H7, H8. cbn [weight].
  split; [vm_compute; reflexivity|split; [vm_compute; reflexivity|]].
  intros message intents r (_ & Hk & _)%matched_iff <-. unfold kept in Hk. rewrite H8 in Hk. revert Hk. vm_compute. done.
Qed.

(** ** Witnesses and examples *)

Definition by_map (m : gmap Path FileCacheEntry) : list (Path * FileCacheEntry) := map_to_list m.

(** A disk where a link leads from one directory to another. *)
Definition demo_disk : Disk := mkDisk
  {| path_exists _ := true;
     canonicalize p := Some (match p with RootDir :: Normal "link" :: q => RootDir :: Normal "real" :: q | _ => p end) |}
  (fun _ => Some "x") (fun _ => Some 0%Z) (fun _ => Some 1%Z).

Definition demo_glob (d : Disk) (p : string) : option (list Path) :=
  if str_contains p "README.md" then Some [components p] else None.

Definition demo_match (pat message : string) : option bool := Some (str_contains message pat).

Definition demo_rules : list WarmupRule := [
  mkRule "docs" "docs" [] ["README.md"] [] [];
  mkRule "readme" "readme" [] ["README.md"] [] []].

Definition demo_manager (dir : string) : WarmupManager :=
  with_config (mkConfig demo_rules default_learning) ∅ (components "/stats.json") dir.

Definition demo_run (dir message : string) (after : list Op) : WarmupManager :=
  manager (foldl (@perform plain_files by_map demo_match demo_glob (fun _ _ => true) (fun _ => None))
    (∅ : @files plain_files, demo_manager dir, None) (Warm demo_disk 0 message [] :: after)).

Lemma hits_within_warmed_witness :
  stats (demo_run "/real" "the docs" [Access demo_disk (components "/link/README.md")]) !! "docs" = Some (mkStats 1 1 1 (f64_of_Z 1)) /\
  (0 <= 1 <= 1)%Z.
Proof.
  assert (Hn : stats (demo_run "/real" "the docs" [Access demo_disk (components "/link/README.md")]) !! "docs" =
               Some (mkStats 1 1 1 (f64_of_Z 1))) by (vm_compute; reflexivity).
  assert (Hs : forall k x, (∅ : Stats) !! k = Some x -> (0 <= hits x <= warmed x /\ warmed x <= 0)%Z)
    by (intros k x Hx; rewrite lookup_empty in Hx; done).
  split; [exact Hn|]. unfold demo_run, demo_manager in Hn.
  assert (Htop : (0 <= 0 /\ 0 + Z.of_nat (MAX_FILES_PER_RULE * length (rules (mkConfig demo_rules default_learning)) *
      length [Warm demo_disk 0 "the docs" []; Access demo_disk (components "/link/README.md")]) < 2 ^ 32)%Z) by (unfold MAX_FILES_PER_RULE; simpl; lia).
  exact (hits_within_warmed _ _ _ _ _ _ _ _ _ _ _ 0 _ _ _ Hs Htop Hn).
Defined.

(** The default rule for refactoring, which warms no files. *)
Definition refactoring_known : WarmupManager :=
  with_config default_config {["refactor" := mkStats 10 0 0 (f64_of_Z 1)]} [] "/".

Lemma useless_rule_eliminated_witness :
  stats refactoring_known !! "refactor" = Some (mkStats 10 0 0 (f64_of_Z 1)) /\
  is_rule_active (Nat.iter 7 learn refactoring_known) "refactor" = true /\
  is_rule_active (Nat.iter 8 learn refactoring_known) "refactor" = false.
Proof.
  assert (Hn : stats refactoring_known !! "refactor" = Some (mkStats 10 0 0 (f64_of_Z 1))) by reflexivity.
  split; [exact Hn|].
  destruct (useless_rule_eliminated demo_match refactoring_known "refactor" _ eq_refl ltac:(vm_compute; reflexivity) Hn eq_refl
              ltac:(simpl; lia) eq_refl ltac:(reflexivity || (simpl; unfold DEFAULT_MIN_SAMPLES; lia))) as (H7 & H8 & _).
  split; [exact H7|exact H8].
Defined.

(** A file that two rules warm in one pass counts twice for each, and can be
    hit once for each. *)
Example shared_file_counted_twice :
  let m := demo_run "/real" "the docs and the readme" [Access demo_disk (components "/real/README.md")] in
  stats m !! "docs" = Some (mkStats 1 1 2 (f64_of_Z 1)) /\ stats m !! "readme" = Some (mkStats 1 1 2 (f64_of_Z 1)).
Proof. split; reflexivity. Qed.

(** Below a directory reached by a link no read is ever a hit: the path waited
    for is not the one looked up. *)
Example linked_directory_never_hits :
  stats (demo_run "/link" "the docs" [Access demo_disk (components "/link/README.md")]) !! "docs" =
  Some (mkStats 1 0 1 (f64_of_Z 1)).
Proof. reflexivity. Qed.

(** A rule for the intent [debug], as the comment on rules suggests, never
    fires by its intent. *)
Lemma debug_never_matches r intents : rule_intents r = ["debug"] -> intent_match r intents = false.
Proof.
  intros Hr. unfold intent_match. rewrite Hr. simpl. rewrite orb_false_r. clear Hr. induction intents as [|[[] c l] intents IH]; [done|..]; exact IH.
Qed.

(** Given numbers and found names can be the same. *)
Example assigned_id_taken :
  rule_id <$> assign_ids [mkRule "" "a" [] [] [] []; mkRule "rule_0" "b" [] [] [] []] = ["rule_0"; "rule_0"].
Proof. reflexivity. Qed.
