(* ===== verification/Projects.v ===== *)
(** * Projects: the registry and the export of a conversation
      ([engine/projects.rs], [engine/export.rs])

    The registry of projects with the file it keeps, its registration in
    sections of a lock as tasks interleave them, and the Markdown a
    conversation is exported to.  The derived conversions from and to JSON
    text, new identifiers and the clock are arguments. *)

From stdpp Require Import base gmap strings list.
From Stdlib Require Import ZArith Lia.
From S2P Require Import Prelude Text Float64 Json Paths FileStore ToolExec.

#[local] Open Scope string_scope.

(** ** The registry *)

Record ProjectEntry := mkEntry {
  id : string; cwd : string; description : string; created_at : string; last_accessed : option string
}.

Definition set_accessed (now : string) (e : ProjectEntry) : ProjectEntry :=
  mkEntry (id e) (cwd e) (description e) (created_at e) (Some now).
Definition set_description (d : string) (e : ProjectEntry) : ProjectEntry :=
  mkEntry (id e) (cwd e) d (created_at e) (last_accessed e).

Abbreviation Entries := (list ProjectEntry).

(** [entries.iter().find(|e| e.cwd == cwd)]. *)
Definition find_by_cwd (es : Entries) (c : string) : option ProjectEntry := List.find (fun e => String.eqb (cwd e) c) es.

(** The entries whose identifier begins with a prefix. *)
Definition prefixed (es : Entries) (prefix : string) : Entries := retain (fun e => starts_with (id e) prefix) es.

Definition find_by_prefix (es : Entries) (prefix : string) : result ProjectEntry string :=
  match prefixed es prefix with
  | [] => Err ("No project matching '" +:+ prefix +:+ "'")
  | [e] => Ok e
  | l => Err ("Ambiguous prefix '" +:+ prefix +:+ "', matches " +:+ show_nat (length l) +:+ " projects: " +:+
              String.concat ", " (id <$> l))
  end.

Definition already (e : ProjectEntry) : string :=
  "Project already exists: [" +:+ id e +:+ "] " +:+ description e +:+ " " +:+ string_of (utf8 [226; 128; 148]%nat) +:+
  " use /projects " +:+ id e +:+ " to switch".

(** The first eight characters of a new UUID. *)
Definition short_id (uuid : string) : string := String.substring 0 8 uuid.

(** The clock is read twice; one reading stands for both. *)
Definition new_entry (uuid now c d : string) : ProjectEntry := mkEntry (short_id uuid) c d now (Some now).

Definition touched (now c : string) : Entries -> Entries :=
  fix go es := match es with
               | [] => []
               | e :: es => if String.eqb (cwd e) c then set_accessed now e :: es else e :: go es
               end.

Definition described (prefix d : string) (es : Entries) : Entries :=
  (fun e => if starts_with (id e) prefix then set_description d e else e) <$> es.

(** The name of a directory, or its whole text. *)
Definition default_description (c : string) : string :=
  match file_name (components c) with [Normal n] => n | _ => c end.

Section Registry.
Context `{F : Files}.

Variable entries_text : Entries -> option string.

(** [HOME], or [/tmp]. *)
Definition projects_path (home : option string) : Path :=
  file_of (file_of (components (default "/tmp" home)) ".baoclaw") "projects.json".

Definition load (entries_parse : string -> option Entries) (fs : files) (p : Path) : Entries := default [] (read_to_string fs p ≫= entries_parse).

Definition save (fs : files) (p : Path) (es : Entries) : files :=
  match entries_text es with Some json => (write fs p json).1 | None => fs end.

(** Each operation holds the lock from its first line to its last. *)
Definition register (fs : files) (p : Path) (es : Entries) (uuid now c d : string) :
    files * Entries * result ProjectEntry string :=
  match find_by_cwd es c with
  | Some e => (fs, es, Err (already e))
  | None => let e := new_entry uuid now c d in let es := (es ++ [e])%list in (save fs p es, es, Ok e)
  end.

Definition touch (fs : files) (p : Path) (es : Entries) (now c : string) : files * Entries :=
  let es := touched now c es in (save fs p es, es).

Definition update_description (fs : files) (p : Path) (es : Entries) (prefix d : string) : files * Entries * result unit string :=
  match prefixed es prefix with
  | [] => (fs, es, Err "Project not found")
  | [_] => let es := described prefix d es in (save fs p es, es, Ok tt)
  | _ => (fs, es, Err "Ambiguous prefix")
  end.

(** *** [ensure_registered]

    It takes the lock once for each of its calls, and others can come between:
    a task is what is left of it to do. *)
Inductive Task :=
| Look (c : string) (d : option string)
| Known (e : ProjectEntry)
| Unknown (c d : string)
| Beaten (c : string)
| Returned (e : ProjectEntry) (is_new : bool).

(** The state of the registry and the tasks. *)
Abbreviation World := (files * Entries * list Task)%type.

(** One section of a task: [None] is the panic of [unwrap]. *)
Definition section (p : Path) (uuid now : string) (fs : files) (es : Entries) (t : Task) : option (files * Entries * Task) :=
  match t with
  | Look c d =>
      Some (fs, es, match find_by_cwd es c with Some e => Known e | None => Unknown c (default (default_description c) d) end)
  | Known e => let '(fs, es) := touch fs p es now (cwd e) in Some (fs, es, Returned e false)
  | Unknown c d =>
      let '(fs, es, r) := register fs p es uuid now c d in
      Some (fs, es, match r with Ok e => Returned e true | Err _ => Beaten c end)
  | Beaten c => e ← find_by_cwd es c; Some (fs, es, Returned e false)
  | Returned _ _ => Some (fs, es, t)
  end.

(** What happens: a task goes on, or a client calls an operation. *)
Inductive Event :=
| Go (i : nat) (uuid now : string)
| Register (uuid now c d : string)
| Touch (now c : string)
| UpdateDescription (prefix d : string).

Definition happen (p : Path) (w : World) (ev : Event) : option World :=
  let '(fs, es, ts) := w in
  match ev with
  | Go i uuid now =>
      match ts !! i with
      | Some t => '(fs, es, t) ← section p uuid now fs es t; Some (fs, es, <[i := t]> ts)
      | None => Some w
      end
  | Register uuid now c d => let '(fs, es, _) := register fs p es uuid now c d in Some (fs, es, ts)
  | Touch now c => let '(fs, es) := touch fs p es now c in Some (fs, es, ts)
  | UpdateDescription prefix d => let '(fs, es, _) := update_description fs p es prefix d in Some (fs, es, ts)
  end.

Fixpoint history (p : Path) (w : World) (evs : list Event) : option World :=
  match evs with
  | [] => Some w
  | ev :: evs => w ← happen p w ev; history p w evs
  end.

(** ** What registration promises *)

Abbreviation cwds es := (cwd <$> (es : Entries)).

Lemma find_by_cwd_some es c e : find_by_cwd es c = Some e -> e ∈ es /\ cwd e = c.
Proof. intros [Hin Hc]%List.find_some. apply list_elem_of_In in Hin. by apply String.eqb_eq in Hc. Qed.

Lemma find_by_cwd_none es c : find_by_cwd es c = None <-> c ∉ cwds es.
Proof.
  split.
  - intros H (e & -> & Hin)%list_elem_of_fmap. apply list_elem_of_In in Hin. eapply List.find_none in H; [|exact Hin].
    by rewrite String.eqb_refl in H.
  - intros H. destruct (find_by_cwd es c) as [e|] eqn:He; [|done]. apply find_by_cwd_some in He as [Hin <-].
    destruct H. by apply list_elem_of_fmap_2.
Qed.

Lemma cwds_touched now c es : cwds (touched now c es) = cwds es.
Proof. induction es as [|e es IH]; [done|]. simpl. destruct (String.eqb _ _); simpl; [done|]. by f_equal. Qed.

Lemma cwds_described prefix d es : cwds (described prefix d es) = cwds es.
Proof. unfold described. rewrite <- list_fmap_compose. apply list_fmap_ext. intros _ e _. simpl. by destruct (starts_with _ _). Qed.

(** The directories only grow, and stay apart. *)
Definition grows (es es' : Entries) : Prop := exists l, cwds es' = (cwds es ++ l)%list /\ NoDup (cwds es ++ l)%list.

Lemma grows_refl es es' : NoDup (cwds es) -> cwds es' = cwds es -> grows es es'.
Proof. intros Hnd H. exists []. by rewrite H, app_nil_r. Qed.

Lemma grows_in es es' c : grows es es' -> c ∈ cwds es -> c ∈ cwds es'.
Proof. intros (l & -> & _) Hc. apply elem_of_app. by left. Qed.

Lemma register_spec fs p es uuid now c d : NoDup (cwds es) ->
  let '(_, es', r) := register fs p es uuid now c d in
  grows es es' /\ c ∈ cwds es' /\ match r with Ok e => cwd e = c /\ c ∉ cwds es | Err _ => c ∈ cwds es /\ es' = es end.
Proof.
  intros Hnd. unfold register. destruct (find_by_cwd es c) as [e|] eqn:He.
  - apply find_by_cwd_some in He as [Hin <-]. assert (cwd e ∈ cwds es) by (by apply list_elem_of_fmap_2).
    split; [by apply grows_refl|done].
  - apply find_by_cwd_none in He. split; [|split; [rewrite fmap_app; set_solver|done]]. exists [c]. rewrite fmap_app.
    split; [done|]. apply NoDup_app. split; [done|]. split; [set_solver|apply NoDup_singleton].
Qed.

(** The directory of a task. *)
Definition about (t : Task) : string :=
  match t with Look c _ | Unknown c _ | Beaten c => c | Known e | Returned e _ => cwd e end.

(** What a task has seen is still there. *)
Definition seen (es : Entries) (t : Task) : Prop :=
  match t with Look _ _ | Unknown _ _ => True | _ => about t ∈ cwds es end.

(** The sections a task has before it at most. *)
Definition sections_left (t : Task) : nat :=
  match t with Look _ _ => 3 | Unknown _ _ => 2 | Known _ | Beaten _ => 1 | Returned _ _ => 0 end.

Definition is_new (t : Task) : bool := match t with Returned _ b => b | _ => false end.

Lemma section_spec p uuid now fs es t : NoDup (cwds es) -> seen es t ->
  exists fs' es' t', section p uuid now fs es t = Some (fs', es', t') /\ grows es es' /\ seen es' t' /\
    about t' = about t /\ sections_left t' <= sections_left t - 1 /\ (is_new t' = true -> is_new t = true \/ (about t ∉ cwds es) /\ (about t ∈ cwds es')).
Proof.
  intros Hnd Hseen. destruct t as [c d|e|c d|c|e b]; cbn [section].
  - exists fs, es. assert (Hg : grows es es) by (by apply grows_refl). destruct (find_by_cwd es c) as [e|] eqn:He; eexists; (split; [done|]).
    + apply find_by_cwd_some in He as [Hin <-]. split; [done|]. split; [exact (list_elem_of_fmap_2 cwd _ _ Hin)|]. split; [done|]. split; [simpl; lia|done].
    + split; [done|]. split; [done|]. split; [done|]. split; [simpl; lia|done].
  - unfold touch. cbn beta iota zeta. eexists _, _, _. split; [done|].
    split; [apply grows_refl; [done|apply cwds_touched]|]. split; [by unfold seen; rewrite cwds_touched|]. split; [done|]. split; [simpl; lia|done].
  - pose proof (register_spec fs p es uuid now c d Hnd) as H. destruct (register fs p es uuid now c d) as [[fs' es'] r].
    destruct H as (Hg & Hc & Hr). exists fs', es'. destruct r as [e|m]; eexists; (split; [done|]); (split; [done|]).
    + destruct Hr as [<- Hn]. split; [done|]. split; [done|]. split; [simpl; lia|]. intros _. by right.
    + split; [done|]. split; [done|]. split; [simpl; lia|done].
  - destruct (find_by_cwd es c) as [e|] eqn:He; [|apply find_by_cwd_none in He; by destruct He].
    apply find_by_cwd_some in He as [Hin <-]. exists fs, es, (Returned e false). split; [done|]. split; [by apply grows_refl|].
    split; [exact (list_elem_of_fmap_2 cwd _ _ Hin)|]. split; [done|]. split; [simpl; lia|done].
  - exists fs, es, (Returned e b). split; [done|]. split; [by apply grows_refl|]. split; [done|]. split; [done|]. split; [simpl; lia|by left].
Qed.

(** A world in which every directory is registered once, by one task. *)
Definition entries_of (w : World) : Entries := w.1.2.
Definition tasks_of (w : World) : list Task := w.2.

Definition good (w : World) : Prop :=
  NoDup (cwds (entries_of w)) /\
  (forall i t, tasks_of w !! i = Some t -> seen (entries_of w) t) /\
  (forall i j t t', tasks_of w !! i = Some t -> tasks_of w !! j = Some t' -> is_new t = true -> is_new t' = true ->
     about t = about t' -> i = j).

(** The turns a task gets. *)
Definition turn (ev : Event) (i : nat) : nat := match ev with Go j _ _ => if decide (j = i) then 1 else 0 | _ => 0 end.
Definition turns (evs : list Event) (i : nat) : nat := sum_list ((fun ev => turn ev i) <$> evs).

Definition moved (k : nat -> nat) (w w' : World) : Prop := length (tasks_of w') = length (tasks_of w) /\ forall i t, tasks_of w !! i = Some t ->
  exists t', tasks_of w' !! i = Some t' /\ about t' = about t /\ sections_left t' <= sections_left t - k i /\
    (is_new t' = true -> is_new t = true \/ about t ∉ cwds (entries_of w)).

Lemma seen_grows es es' t : grows es es' -> seen es t -> seen es' t.
Proof. intros Hg. destruct t; simpl; try done; by apply grows_in. Qed.

Lemma grows_nodup es es' : grows es es' -> NoDup (cwds es').
Proof. by intros (l & -> & Hnd). Qed.

(** An operation of a client leaves the tasks alone. *)
Lemma operation_good fs fs' es es' ts : good (fs, es, ts) -> grows es es' ->
  good (fs', es', ts) /\ moved (fun _ => 0) (fs, es, ts) (fs', es', ts).
Proof.
  intros (Hnd & Hseen & Hone) Hg. split.
  - split; [by apply (grows_nodup es)|split; [|exact Hone]]. intros i t Ht. apply (seen_grows es); [done|by apply (Hseen i)].
  - split; [done|]. intros i t Ht. exists t. split; [done|split; [done|split; [lia|by left]]].
Qed.

Lemma go_good p uuid now fs es ts i : good (fs, es, ts) ->
  exists w', happen p (fs, es, ts) (Go i uuid now) = Some w' /\ good w' /\
    moved (turn (Go i uuid now)) (fs, es, ts) w' /\ grows es (entries_of w').
Proof.
  intros (Hnd & Hseen & Hone). unfold entries_of, tasks_of in Hnd, Hseen, Hone. cbn [fst snd] in Hnd, Hseen, Hone. unfold happen.
  destruct (ts !! i) as [t|] eqn:Hi.
  - destruct (section_spec p uuid now fs es t Hnd (Hseen i t Hi)) as (fs' & es' & t' & -> & Hg & Hs & Ha & Hl & Hn).
    eexists. split; [reflexivity|]. split; [split; [by apply (grows_nodup es)|split]|split; [|done]]; unfold tasks_of, entries_of; cbn [fst snd].
    + intros j u [(-> & <- & _)|[Hij Hu]]%list_lookup_insert_Some; [done|]. apply (seen_grows es); [done|by apply (Hseen j)].
    + assert (Hother : forall j u, ts !! j = Some u -> i <> j -> is_new u = true -> is_new t' = true -> about u <> about t').
      { intros j u Hu Hij Hnu Hnt Heq. destruct (Hn Hnt) as [Ht|[Hout _]]; [by apply Hij, (Hone i j t u); rewrite ?Heq|].
        apply Hout. rewrite <- Ha, <- Heq. specialize (Hseen j u Hu). by destruct u as [| | | |e [|]]. }
      intros j k u v [(<- & <- & _)|[Hij Hu]]%list_lookup_insert_Some [(<- & <- & _)|[Hik Hv]]%list_lookup_insert_Some Hnu Hnv Heq; [done|..].
      * exfalso. by apply (Hother k v).
      * exfalso. by apply (Hother j u).
      * by apply (Hone j k u v).
    + split; [unfold tasks_of; cbn [snd]; apply length_insert|]. intros j u Hu. unfold turn. cbn [tasks_of snd] in *. destruct (decide (i = j)) as [<-|Hij].
      * assert (u = t) as -> by (unfold tasks_of in Hu; cbn in Hu; congruence). exists t'. split; [apply list_lookup_insert_eq; by eapply lookup_lt_Some|].
        split; [done|split; [done|]]. intros Hnt. destruct (Hn Hnt) as [?|[? _]]; [by left|by right].
      * exists u. split; [by rewrite list_lookup_insert_ne|]. split; [done|split; [lia|by left]].
  - eexists. split; [reflexivity|]. split; [done|]. split; [|by apply grows_refl].
    split; [done|]. intros j u Hu. unfold tasks_of in Hu. cbn in Hu. exists u. split; [done|]. split; [done|]. unfold turn. destruct (decide (i = j)); [congruence|]. split; [lia|by left].
Qed.

Lemma update_grows fs p es prefix d : NoDup (cwds es) -> grows es (update_description fs p es prefix d).1.2.
Proof.
  intros Hnd. unfold update_description. destruct (prefixed es prefix) as [|e [|e' l]]; apply grows_refl; try done. apply cwds_described.
Qed.

Lemma happen_good p w ev : good w ->
  exists w', happen p w ev = Some w' /\ good w' /\ moved (turn ev) w w' /\ grows (entries_of w) (entries_of w').
Proof.
  destruct w as [[fs es] ts]. intros Hw. assert (Hnd : NoDup (cwds es)) by apply Hw. destruct ev as [i uuid now|uuid now c d|now c|prefix d].
  - by apply go_good.
  - pose proof (register_spec fs p es uuid now c d Hnd) as Hr. cbn [happen]. destruct (register fs p es uuid now c d) as [[fs' es'] r].
    destruct Hr as [Hg _]. destruct (operation_good fs fs' es es' ts Hw Hg). by eexists.
  - assert (Hg : grows es (touched now c es)) by (apply grows_refl; [done|apply cwds_touched]).
    destruct (operation_good fs (save fs p (touched now c es)) es _ ts Hw Hg). by eexists.
  - pose proof (update_grows fs p es prefix d Hnd) as Hg. cbn [happen]. destruct (update_description fs p es prefix d) as [[fs' es'] r].
    destruct (operation_good fs fs' es es' ts Hw Hg). by eexists.
Qed.

Lemma grows_trans es1 es2 es3 : grows es1 es2 -> grows es2 es3 -> grows es1 es3.
Proof. intros (l & H1 & _) (m & H2 & Hnd). exists (l ++ m)%list. rewrite H1, <- app_assoc in *. done. Qed.

Lemma history_good p evs : forall w, good w ->
  exists w', history p w evs = Some w' /\ good w' /\ moved (turns evs) w w' /\ grows (entries_of w) (entries_of w').
Proof.
  induction evs as [|ev evs IH]; intros w Hw.
  - exists w. split; [done|split; [done|split]]; [|apply grows_refl; [apply Hw|done]]. split; [done|]. intros i t Ht. exists t.
    change (turns [] i) with 0. split; [done|split; [done|split; [lia|by left]]].
  - destruct (happen_good p w ev Hw) as (w1 & H1 & Hw1 & Hm1 & Hg1). destruct (IH w1 Hw1) as (w2 & H2 & Hw2 & Hm2 & Hg2).
    exists w2. cbn [history]. rewrite H1. split; [exact H2|split; [done|split; [|by apply (grows_trans _ (entries_of w1))]]].
    destruct Hm1 as [Hlen1 Hm1], Hm2 as [Hlen2 Hm2]. split; [congruence|]. intros i t Ht. destruct (Hm1 i t Ht) as (t1 & Ht1 & Ha1 & Hl1 & Hn1). destruct (Hm2 i t1 Ht1) as (t2 & Ht2 & Ha2 & Hl2 & Hn2).
    exists t2. split; [done|split; [congruence|split; [change (turns (ev :: evs) i) with (turn ev i + turns evs i); lia|]]]. intros Hn.
    destruct (Hn2 Hn) as [|Hout]; [by apply Hn1|]. right. rewrite Ha1 in Hout. contradict Hout. by apply (grows_in (entries_of w)).
Qed.

(** Claim C40. Registration is safe against its races.  However tasks that
    register directories interleave with each other and with the operations of
    clients, no task panics; after three turns a task has returned an entry
    for its directory, and the directory is in the registry; no directory is
    registered twice; and of the tasks told that their entry is new there is
    one at most for a directory, which was not there before. *)
Theorem registration_races (p : Path) (fs : files) (es : Entries) (ts : list Task) (evs : list Event) :
  NoDup (cwds es) -> (forall i t, ts !! i = Some t -> exists c d, t = Look c d) ->
  exists fs' es' ts', history p (fs, es, ts) evs = Some (fs', es', ts') /\ NoDup (cwds es') /\
    (forall i c d, ts !! i = Some (Look c d) -> 3 <= turns evs i ->
       exists e b, ts' !! i = Some (Returned e b) /\ cwd e = c /\ c ∈ cwds es') /\
    (forall i e, ts' !! i = Some (Returned e true) -> cwd e ∉ cwds es) /\
    (forall i j e e', ts' !! i = Some (Returned e true) -> ts' !! j = Some (Returned e' true) -> cwd e = cwd e' -> i = j).
Proof.
  intros Hnd Hstart. assert (Hgood : good (fs, es, ts)).
  { split; [done|split]; unfold tasks_of, entries_of; cbn [fst snd].
    - intros i t Ht. by destruct (Hstart i t Ht) as (c & d & ->).
    - intros i j t t' Ht _ Hn. by destruct (Hstart i t Ht) as (c & d & ->). }
  destruct (history_good p evs _ Hgood) as ([[fs' es'] ts'] & Hh & (Hnd' & Hseen & Hone) & [Hlen Hm] & Hg).
  unfold tasks_of, entries_of in *. cbn [fst snd] in *. exists fs', es', ts'. split; [done|split; [done|split; [|split]]].
  - intros i c d Hi Ht. destruct (Hm i _ Hi) as (t' & Ht' & Ha & Hl & _). cbn in Ha, Hl. specialize (Hseen i t' Ht').
    destruct t' as [| | | |e b]; cbn in Hl; try lia. exists e, b. cbn in Ha, Hseen. by subst.
  - intros i e Hi. destruct (lookup_lt_is_Some_2 ts i) as [t Ht]; [rewrite <- Hlen; by eapply lookup_lt_Some|].
    destruct (Hm i t Ht) as (t' & Ht' & Ha & _ & Hn). destruct (Hstart i t Ht) as (c & d & ->).
    assert (t' = Returned e true) as -> by congruence. destruct (Hn eq_refl) as [|Hout]; [done|]. by rewrite <- Ha in Hout.
  - intros i j e e' Hi Hj Heq. by apply (Hone i j (Returned e true) (Returned e' true)).
Qed.
End Registry.

(** ** The export of a conversation *)

Section Markdown.
Context `{J : Json}.

Record ToolCallInfo := mkCall { call_name : string; call_id : option string; detail : option string; call_result : option Value }.

Record ExportEntry := mkExport {
  role : string; text : string; timestamp : string; turn_number : Z;
  tools : option (list ToolCallInfo); is_tool_result : option bool; cost_usd : option f64
}.

(** [serde_json::to_string_pretty], and the plain text where it fails. *)
Variable pretty_text : Value -> option string.
Variable plain_text : Value -> string.

Definition blank_line : string := string_of [LF; LF].

(** [&s[..500]] panics ([None]) inside a character. *)
Definition cut_result (s : string) : option string :=
  let l := bytes_of s in
  if Nat.ltb 500 (length l)
  then (if is_char_boundary 500 l then Some (string_of (take 500 l) +:+ "...(truncated)") else None)
  else Some s.

Definition result_text (v : Value) : string :=
  match as_str v with Some s => s | None => default (plain_text v) (pretty_text v) end.

Definition call_text (t : ToolCallInfo) : option string :=
  let head := "### Tool Call: " +:+ call_name t +:+ blank_line +:+
              match detail t with Some d => d +:+ blank_line | None => EmptyString end in
  match call_result t with
  | None => Some head
  | Some v => r ← cut_result (result_text v); Some (head +:+ "**Result**: " +:+ r +:+ blank_line)
  end.

Fixpoint push_calls (md : string) (ts : list ToolCallInfo) : option string :=
  match ts with
  | [] => Some md
  | t :: ts => c ← call_text t; push_calls (md +:+ c) ts
  end.

(** What an entry adds to the text before it. *)
Definition push_entry (md : string) (e : ExportEntry) : option string :=
  if default false (is_tool_result e) then Some md
  else
    md ← (if String.eqb (role e) "user" then
            Some (md +:+ "## User (" +:+ timestamp e +:+ ")" +:+ blank_line +:+ text e +:+ blank_line)
          else if String.eqb (role e) "assistant" then
            push_calls (md +:+ "## Assistant (" +:+ timestamp e +:+ ")" +:+ blank_line +:+
                        (if Text.is_empty (text e) then EmptyString else text e +:+ blank_line))
              (default [] (tools e))
          else Some (md +:+ "## System (" +:+ timestamp e +:+ ")" +:+ blank_line +:+ text e +:+ blank_line));
    Some (md +:+ "---" +:+ blank_line).

Definition shown (es : list ExportEntry) : list ExportEntry := retain (fun e => negb (default false (is_tool_result e))) es.

Definition export_header (time : string) (count : nat) : string :=
  "# BaoClaw Conversation Export" +:+ blank_line +:+ "**Time**: " +:+ time +:+ string_of [LF] +:+
  "**Messages**: " +:+ show_nat count +:+ string_of [LF] +:+ string_of [LF] +:+ "---" +:+ blank_line.

Fixpoint push_entries (md : string) (es : list ExportEntry) : option string :=
  match es with
  | [] => Some md
  | e :: es => md ← push_entry md e; push_entries md es
  end.

Definition format_transcript_to_markdown (time : string) (es : list ExportEntry) : option string :=
  push_entries (export_header time (length (shown es))) es.

Definition default_export_filename (date : string) : string := "baoclaw-export-" +:+ date +:+ ".md".

(** *** What is exported *)

Lemma push_calls_from ts : forall md, push_calls md ts = (fun s => md +:+ s) <$> push_calls EmptyString ts.
Proof.
  induction ts as [|t ts IH]; intros md; [change (Some md = Some (md +:+ EmptyString)); by rewrite append_empty|]; cbn [push_calls].
  destruct (call_text t) as [c|]; [|done].
  change (push_calls (md +:+ c) ts = (fun s => md +:+ s) <$> push_calls c ts). rewrite IH, (IH c). destruct (push_calls _ ts); [|done]. cbn. by rewrite append_assoc.
Qed.

(** Equality of texts pushed one after the other. *)
Ltac flat_texts := cbn [fmap option_fmap option_map mbind option_bind]; rewrite ?append_assoc, ?append_empty; reflexivity.

Lemma push_entry_from md e : push_entry md e = (fun s => md +:+ s) <$> push_entry EmptyString e.
Proof.
  unfold push_entry. destruct (default false (is_tool_result e)); [flat_texts|].
  destruct (String.eqb (role e) "user"); [flat_texts|]. destruct (String.eqb (role e) "assistant"); [|flat_texts].
  rewrite push_calls_from, (push_calls_from _ (EmptyString +:+ _)). destruct (push_calls EmptyString _); flat_texts.
Qed.

(** A call can be exported unless its result is cut inside a character. *)
Definition call_cut (t : ToolCallInfo) : bool :=
  match call_result t with Some v => negb (is_some (cut_result (result_text v))) | None => false end.

Definition entry_cut (e : ExportEntry) : bool :=
  (String.eqb (role e) "assistant" && existsb call_cut (default [] (tools e)))%bool.

Lemma push_calls_some ts : forall md, is_some (push_calls md ts) = negb (existsb call_cut ts).
Proof.
  induction ts as [|t ts IH]; intros md; [done|]. cbn [push_calls existsb]. unfold call_cut at 1, call_text.
  destruct (call_result t) as [v|]; [destruct (cut_result _); [|done]|]; cbn; apply IH.
Qed.

Lemma push_entry_some md e : default false (is_tool_result e) = false -> is_some (push_entry md e) = negb (entry_cut e).
Proof.
  unfold push_entry, entry_cut. intros ->. destruct (String.eqb (role e) "user") eqn:Hu.
  - apply String.eqb_eq in Hu. by rewrite Hu.
  - destruct (String.eqb (role e) "assistant"); [|done]. simpl.
    match goal with |- context [push_calls ?m ?ts] => pose proof (push_calls_some ts m) as Hc; destruct (push_calls m ts) end; exact Hc.
Qed.

(** The export is complete.  It is the header with the number of the
    messages, and then a section for each message that is no result of a tool,
    in their order, each as it would be alone; and it panics exactly if a
    result of a call is to be cut inside a character. *)
Theorem export_complete (time : string) (es : list ExportEntry) :
  match format_transcript_to_markdown time es with
  | Some md => existsb entry_cut (shown es) = false /\
      exists ss, mapM (push_entry EmptyString) (shown es) = Some ss /\
        md = (export_header time (length (shown es)) +:+ foldr String.append EmptyString ss)%string
  | None => existsb entry_cut (shown es) = true
  end.
Proof.
  unfold format_transcript_to_markdown. generalize (export_header time (length (shown es))) as md.
  induction es as [|e es IH]; intros md; cbn [push_entries]; [split; [done|]; exists []; split; [done|]; cbn; by rewrite append_empty|].
  unfold shown. rewrite retain_cons. fold (shown es). rewrite push_entry_from.
  destruct (default false (is_tool_result e)) eqn:Hr; cbn [negb].
  - unfold push_entry. rewrite Hr. cbn. rewrite append_empty. apply IH.
  - pose proof (push_entry_some EmptyString e Hr) as Hs. cbn [existsb mapM]. destruct (push_entry EmptyString e) as [s|]; cbn in *.
    + symmetry in Hs. apply negb_true_iff in Hs. rewrite Hs. specialize (IH (md +:+ s)). destruct (push_entries _ es) as [out|]; [|exact IH].
      destruct IH as (Hc & ss & Hss & ->). split; [exact Hc|]. exists (s :: ss). rewrite Hss. split; [done|]. cbn. by rewrite append_assoc.
    + symmetry in Hs. apply negb_false_iff in Hs. by rewrite Hs.
Qed.
End Markdown.

(** ** Witnesses and examples *)

(** Two tasks for one directory, each looking before the other registers. *)
Definition racing : list Event :=
  [Go 0 "aaaaaaaa-1" "t1"; Go 1 "bbbbbbbb-2" "t2"; Go 1 "bbbbbbbb-2" "t3"; Go 0 "aaaaaaaa-1" "t4"; Go 0 "aaaaaaaa-1" "t5"; Go 1 "bbbbbbbb-2" "t6"].

Definition racing_end : @files plain_files * list ProjectEntry * list Task :=
  (∅, [mkEntry "bbbbbbbb" "/w" "w" "t3" (Some "t3")],
   [Returned (mkEntry "bbbbbbbb" "/w" "w" "t3" (Some "t3")) false; Returned (mkEntry "bbbbbbbb" "/w" "w" "t3" (Some "t3")) true]).

Lemma registration_races_witness :
  @history plain_files (fun _ => None) [] (∅, [], [Look "/w" None; Look "/w" None]) racing = Some racing_end /\
  NoDup (cwd <$> racing_end.1.2).
Proof.
  assert (Hrun : @history plain_files (fun _ => None) [] (∅, [], [Look "/w" None; Look "/w" None]) racing = Some racing_end) by reflexivity.
  assert (Hstart : forall i t, [Look "/w" None; Look "/w" None] !! i = Some t -> exists c d, t = Look c d).
  { intros [|[|i]] t Ht; [injection Ht as <-; by eexists _, _|injection Ht as <-; by eexists _, _|done]. }
  split; [exact Hrun|].
  destruct (@registration_races plain_files (fun _ => None) [] ∅ [] [Look "/w" None; Look "/w" None] racing (NoDup_nil_2) Hstart)
    as (fs & es & ts & Hh & Hnd & _). rewrite Hrun in Hh. injection Hh as _ <- _. exact Hnd.
Defined.

(** Directories are compared as texts: one directory can be two projects. *)
Example one_directory_twice :
  let '(fs, es, _) := @register plain_files (fun _ => None) ∅ [] [] "aaaaaaaa" "t" "/w" "w" in
  let '(_, es, _) := @register plain_files (fun _ => None) fs [] es "bbbbbbbb" "t" "/w/" "w" in
  (cwd <$> es) = ["/w"; "/w/"] /\ components "/w" = components "/w/".
Proof. split; reflexivity. Qed.

(** Identifiers are cut to eight characters and not compared: of two projects
    with one identifier neither is found by it. *)
Example same_identifier :
  let '(fs, es, _) := @register plain_files (fun _ => None) ∅ [] [] "aaaaaaaa-1" "t" "/v" "v" in
  let '(_, es, _) := @register plain_files (fun _ => None) fs [] es "aaaaaaaa-2" "t" "/w" "w" in
  find_by_prefix es "aaaaaaaa" = Err "Ambiguous prefix 'aaaaaaaa', matches 2 projects: aaaaaaaa, aaaaaaaa".
Proof. reflexivity. Qed.

(** A long result with a character of two bytes at the cut. *)
Definition long_result : string := string_of (repeat (Ascii.ascii_of_nat 97) 499) +:+ "éa".

Example long_result_panics :
  @format_transcript_to_markdown flat_json (fun _ => None) (fun _ => EmptyString) "now"
    [mkExport "assistant" "" "t" 1 (Some [@mkCall flat_json "Bash" None None (Some (FStr long_result))]) None None] = None.
Proof. reflexivity. Qed.
